(* ===== verification/_CoqProject ===== *)
-Q . S2P
Prelude.v
GoTime.v
Tenancy.v
Control.v
Principals.v
Pricing.v
Guardrails.v
Text.v
Keys.v
Hosting.v
Egress.v
Providers.v
Catalog.v
Secret.v
KeyCache.v
Credit.v
Filters.v
Routers.v
RouterCheck.v
RouterSpec.v
Stable.v
Accounts.v
SignIn.v
Login.v
SignInRules.v
People.v
PeopleRuns.v
PeopleWorld.v
PeopleSamples.v
Num.v
Replies.v
Sse.v
Guard.v
Routing.v
FilterChain.v
Limiter.v
RedisLimiter.v
Budgets.v
Messages.v
Payments.v
PaymentRuns.v
PaymentWorld.v
Call.v
Admission.v
RouterWalk.v
Models.v
Registry.v
Body.v
Serve.v
Ledger.v
Accounting.v
Usage.v
Retention.v
UsageHistory.v
UsageWrites.v
Recorder.v
UsageSamples.v
RouterRuns.v
