(* ===== verification/Prelude.v ===== *)
(** * Keera Gateway: a verification development

    Keera Gateway is one Go program in front of language models. Its
    inference plane ([src/internal/gateway]) takes a request with an API key,
    decides which model it may go to and whether it may run, passes its text
    through filters and routers, forwards it, streams the answer back and
    accounts for it. Its control plane ([src/internal/control]) signs people
    in, lets them administer their organisation, and takes payments. Both work
    on one Postgres database ([src/internal/store]); replicas share it, and
    Redis for rate limits ([src/internal/ratelimit]). What the levels of an
    organisation allow is decided by the pure package [src/internal/policy].

    ** What is modelled, and where

    The files are in the order they require each other. A definition has the
    name of the Go function it translates where Rocq allows it.

    - Shared: [Prelude] (64-bit integers that wrap, strings as Go slices them,
      first-occurrence lists, sorted keys, record updates, map iteration in an
      arbitrary order), [GoTime] (instants and the UTC calendar), [Text]
      (UTF-8), [Num] (float64 and the rationals as two instances of one
      class), [Stable] (stable sorting).
    - Policy ([internal/policy]): [Tenancy] (scopes, periods, kinds, names),
      [Pricing] (models, prices, bills), [Guardrails] (limits and how the
      levels of a key combine), [Hosting] (where a backend is), [Routers] and
      [RouterCheck] (routers and [Router.Problem]), [Filters] (filters and
      pattern rules, with their caches).
    - Catalogue ([internal/catalog]): [Providers], [Catalog].
    - Secrets: [Keys] ([internal/auth/key.go]), [Secret]
      ([internal/secret/secret.go]).
    - Registry ([internal/registry]): [KeyCache] (the concurrent cache of
      resolved keys), [Registry] (models, filters, routers and MCP servers,
      and their reload), [Budgets] (what was spent).
    - Rate limits: [Limiter], [RedisLimiter].
    - Inference plane ([internal/gateway]): [Body], [Call], [Messages],
      [Models], [Admission], [Guard], [Replies], [FilterChain], [Routing],
      [RouterWalk], [Sse], [Egress], and [Serve], which puts a request
      together from all of them.
    - Control plane: [Control] (programs that call out, and the errors a
      handler answers with), [Principals] (roles and guards), [Credit] (the
      transactions of prepaid credit), [Payments] (handlers, webhook and
      payment round), [Accounts] (what the database keeps of people and each
      statement on it), [SignIn] (who a request is from, the re-check of a
      directory), [Login] (every way in), [People] (people, passkeys and
      organisations switched).

    ** How code becomes definitions

    - Pure Go functions are functions. An [int] or [int64] is a [Z], and each
      operation that can leave 64 bits is followed by [wrap64]. A nil slice
      the code tells apart from an empty one is an [option].
    - State under a lock is a record, and an operation under the lock is one
      function on it ([Limiter], [Budgets], [Registry], [Filters]). Where two
      critical sections of one operation can be interleaved, or goroutines
      share channels, it is a step relation ([KeyCache], [Recorder]).
    - A request in the inference plane is a function on the two states of
      [Call] that either answers or goes on ([handler] of [Call]).
    - A handler of the control plane is a [prog] of [Control]: a tree whose
      nodes are calls (a statement of the database, a question to PostFinance
      or to a directory, the clock, fresh randomness) with a continuation for
      every answer. A theorem about every run of a program therefore holds
      whatever the other side answers, and wherever a replica stops. The
      database's own transactions are functions on its rows ([Credit],
      [Accounts]); [PaymentWorld] and [PeopleWorld] let any number of programs
      run at once on one database, with statements whose answer is lost.
    - Loops that Go bounds by data are structural. The others take fuel:
      [router_loop] the number of the router's steps ([RouterRuns] shows that
      it never runs out), the walks of a JSON body ([Body]) and of a stream
      ([Sse]) the bytes left plus one ([walks_terminate], [pipeSSE_sends]), a
      run of [drive] in the witnesses a constant.

    ** What is left to parameters

    Each is a class whose fields are what the code uses of a library; laws are
    hypotheses only where a theorem names them. [Unicode], [Folding],
    [Regexp], [FloatText], [MapRange] (the standard library's tables, regular
    expressions, float formatting, the order of a map), [SHA256] and [GCM]
    (cryptography), [Addresses], [Dialing] and [Web] (parsing URLs and
    addresses, cookies, the texts of errors, WebAuthn signatures),
    [JSON]/[JSONLaws], [Bodies], [Completions] and [Wire] (encoding/json and
    what a provider answers), [Chunks] and [NativeStream] (decoders of
    streams), [Source], [SourceLists] and [Plane] (what the registry holds
    while a request runs, and the inference plane around it), [Clock],
    [Intervals] and [Collation] (time and Postgres' arithmetic and order),
    [Link] (what becomes of each round trip to Redis). [Budgeter] and
    [RateLimiter] are interfaces inside the program: their clients are proved
    against the class, and [Budgets], [Limiter], [RedisLimiter] and the
    recording ones of [Ledger] are the instances.

    ** What the theorems show

    - Isolation and access: [Guardrails] (a key may use a model exactly when
      every level allows it), [Models] (a forbidden model looks missing),
      [Principals] (no guard lets a caller past towards another organisation),
      [Egress] (no connection to a denied address), [Registry] (a credential
      serves only the row it was sealed for and goes where that row says),
      [PaymentRuns] (every call of a route is one its caller may make).
    - Money: [Accounting] (every request leaves one row, and budgets, counts
      and held credit settle to what it says), [Budgets] (an overdraft of at
      most one hold and what no hold had set aside), [Credit] (balances are conserved, one charge at a
      time, periods once), [PaymentRuns] and [PaymentWorld] (what is paid was
      paid, once, and a card is asked at most once).
    - Signing in: [PeopleWorld] (operators come from the configuration; no
      session without proof of who it is for; tokens are redeemed),
      [SignInRules] (whose request reaches a handler; whom a re-check of the
      directory signs out; what ending a directory link leaves).
    - Routing and filtering: [RouterSpec] (the check decides a specification),
      [RouterRuns] (a walk ends, and lands on models the router reaches),
      [Routing], [FilterChain] (fail closed), [Filters] (caches change
      nothing; accepted rules never break).
    - The usage log: [Usage] (a batch of events as a transaction, and the
      reports that read it), [Retention] (what is deleted; nothing that is
      still read goes), [UsageHistory] (over any writes, retention and
      deletions: the stored spend is what the events were charged since it
      was last deleted, and reports outlive the request log), [UsageWrites]
      and [Recorder] (what is retried, and how; no bill is written twice,
      whatever answer is lost; what is reported written is; billed events go
      first; the drain writes all that is queued and ends).
    - Streams and bodies: [Body] (round trip, exact reading, termination),
      [Sse] (a stream arrives event by event and ends as the upstream ended).
    - Caches and limits: [KeyCache] (an announced change is missed only by a
      query that was under way; every query ends), [Limiter] and
      [RedisLimiter] (conformance, and replicas as one limiter that forgets
      what was idle for two minutes), both with exact numbers.

    [PeopleSamples] holds a small deployment for the witnesses of the
    sign-ins, [UsageSamples] a small book and runs of the recorder; the other
    witnesses follow their theorems.

    ** Not modelled

    The translations between JSON dialects (most of [messages.go], the
    Responses API), the MCP proxy, probes, traces and session identity of the
    inference plane: value-by-value work on decoded JSON, whose decoder is a
    parameter here. The control plane's handlers for keys, projects, models,
    reports and playground, and the SQL of the grouped reports, of agent
    sessions and of topology: queries whose meaning is the database's. Of a
    usage event, its timings, spans and request ids. The OpenID Connect,
    LDAP, GitHub and Entra clients, WebAuthn signatures, metrics, the command
    line, configuration and the HTTP server: network and file I/O.
    Log lines, metrics and traces are left out everywhere. *)
From Stdlib Require Export ZArith Lia.
From stdpp Require Export base tactics decidable list strings gmap fin_maps sorting pretty.
#[global] Open Scope Z_scope.

(** ** The shared prelude

    Go's machine integers, the string and slice helpers the sources call, and
    the generic lemmas and tactics the components share. *)

Declare Scope go_scope.
Delimit Scope go_scope with go.

(** *** Machine integers

    Go's [int] (on the 64-bit targets the gateway is built for) and [int64]
    are two's-complement 64-bit integers whose operations wrap around; they
    are integers in [Z], and every operation that can leave the range is
    followed by [wrap64]. *)

Definition two63 : Z := 9223372036854775808.
Definition two64 : Z := 18446744073709551616.

Definition wrap64 (z : Z) : Z := (z + two63) mod two64 - two63.

Definition in_int64 (z : Z) : Prop := - two63 <= z < two63.

Definition add64 (a b : Z) : Z := wrap64 (a + b).
Definition sub64 (a b : Z) : Z := wrap64 (a - b).
Definition mul64 (a b : Z) : Z := wrap64 (a * b).

(** Go's [/] truncates towards zero. *)
Definition quot64 (a b : Z) : Z := wrap64 (Z.quot a b).

Infix "⊕" := add64 (at level 50, left associativity) : go_scope.
Infix "⊖" := sub64 (at level 50, left associativity) : go_scope.
Infix "⊗" := mul64 (at level 40, left associativity) : go_scope.

Definition MaxInt : Z := 9223372036854775807.

(** *** Strings

    A Go string is a sequence of bytes. *)

Definition chr (n : nat) : string := String (Ascii.ascii_of_nat n) EmptyString.

Definition len (s : string) : Z := Z.of_nat (String.length s).

(** [slices.Contains]. *)
Definition contains {A} `{EqDecision A} (l : list A) (x : A) : bool :=
  bool_decide (x ∈ l).

(** [if !slices.Contains(out, x) { out = append(out, x) }]. *)
Definition append_new {A} `{EqDecision A} (out : list A) (x : A) : list A :=
  if contains out x then out else out ++ [x].

(** A loop that appends what [f] keeps of each element, without repeats. *)
Definition collect_new {A B} `{EqDecision B} (f : A → option B) (out : list B) (l : list A)
    : list B :=
  foldl (λ out a, match f a with Some b => append_new out b | None => out end) out l.

(** [strings.HasPrefix]. *)
Definition has_prefix (s pre : string) : bool := String.prefix pre s.

Definition drop_str (n : nat) (s : string) : string := String.substring n (String.length s - n) s.

(** [strings.CutPrefix]. *)
Definition CutPrefix (s pre : string) : option string :=
  if has_prefix s pre then Some (drop_str (String.length pre) s) else None.

(** [strings.Contains s c] for a one-byte [c]. *)
Fixpoint contains_byte (c : Ascii.ascii) (s : string) : bool :=
  match s with
  | EmptyString => false
  | String a s' => bool_decide (a = c) || contains_byte c s'
  end.

(** [strings.Cut s c] for a one-byte separator: before, after, found. *)
Fixpoint cut_byte (c : Ascii.ascii) (s : string) : string * string * bool :=
  match s with
  | EmptyString => (EmptyString, EmptyString, false)
  | String a s' =>
      if bool_decide (a = c) then (EmptyString, s', true)
      else let '(before, after, found) := cut_byte c s' in
           (String a before, after, found)
  end.

(** [strings.SplitSeq s c] for a one-byte separator, as a list. *)
Fixpoint split_byte (c : Ascii.ascii) (s : string) : list string :=
  match s with
  | EmptyString => [EmptyString]
  | String a s' =>
      if bool_decide (a = c) then EmptyString :: split_byte c s'
      else match split_byte c s' with
           | p :: ps => String a p :: ps
           | [] => [String a EmptyString]
           end
  end.

(** [strings.Join]. *)
Fixpoint join (sep : string) (l : list string) : string :=
  match l with
  | [] => EmptyString
  | [x] => x
  | x :: rest => x +:+ sep +:+ join sep rest
  end.

Definition str_rev (s : string) : string :=
  String.string_of_list_ascii (rev (String.list_ascii_of_string s)).

Definition byte_val (a : Ascii.ascii) : nat := Ascii.nat_of_ascii a.

(** The white space of [unicode.IsSpace], in its UTF-8 encodings: one byte
    (tab to carriage return, space), two bytes (U+0085, U+00A0) and three
    bytes (U+1680, U+2000 to U+200A, U+2028, U+2029, U+202F, U+205F, U+3000). *)
Definition space1 (a : Ascii.ascii) : bool :=
  let n := byte_val a in (9 <=? n)%nat && (n <=? 13)%nat || (n =? 32)%nat.

Definition space2 (a b : Ascii.ascii) : bool :=
  (byte_val a =? 194)%nat && ((byte_val b =? 133)%nat || (byte_val b =? 160)%nat).

Definition space3 (a b c : Ascii.ascii) : bool :=
  let '(x, y, z) := (byte_val a, byte_val b, byte_val c) in
  ((x =? 225) && (y =? 154) && (z =? 128)
   || (x =? 226) && (y =? 128) && ((128 <=? z) && (z <=? 138) || (z =? 168) || (z =? 169)
                                   || (z =? 175))
   || (x =? 226) && (y =? 129) && (z =? 159)
   || (x =? 227) && (y =? 128) && (z =? 128))%nat.

(** [strings.TrimLeftFunc s unicode.IsSpace]; [rev] reads the encodings last
    byte first, for the right end of a reversed string. *)
Fixpoint trim_start (rev : bool) (s : string) : string :=
  match s with
  | EmptyString => EmptyString
  | String a s1 =>
      if space1 a then trim_start rev s1 else
      match s1 with
      | EmptyString => s
      | String b s2 =>
          if (if rev then space2 b a else space2 a b) then trim_start rev s2 else
          match s2 with
          | EmptyString => s
          | String c s3 =>
              if (if rev then space3 c b a else space3 a b c) then trim_start rev s3 else s
          end
      end
  end.

(** [strings.TrimSpace]. *)
Definition TrimSpace (s : string) : string :=
  str_rev (trim_start true (str_rev (trim_start false s))).

(** *** Maps

    A Go map with string keys is a [gmap string]. [slices.Sorted(maps.Keys m)]
    is [sorted_keys m]: Go orders strings by their bytes. *)

Definition string_le (a b : string) : Prop := String.leb a b = true.

#[global] Instance string_le_dec a b : Decision (string_le a b).
Proof. unfold string_le. apply _. Defined.

Definition sorted_keys {A} (m : gmap string A) : list string :=
  merge_sort string_le (elements (dom m)).

(** Go leaves the order of [range] over a map unspecified. A definition whose
    source ranges over a map takes the order as a parameter. *)
Class MapRange := {
  map_range : ∀ `{Countable K} {A}, gmap K A → list (K * A);
  map_range_perm : ∀ `{Countable K} {A} (m : gmap K A), map_range m ≡ₚ map_to_list m;
}.

(** *** Record updates

    [r <| field := v |>], for a record type with an [Updatable] instance. *)

(** A record written as its constructor applied to its own fields. *)
Class Updatable (R : Type) := eta_record : R → R.

Class Update {R F : Type} (field : R → F) := update : (F → F) → R → R.

Ltac solve_update :=
  match goal with
  | |- @Update ?R ?F ?field =>
      let e := constr:(_ : Updatable R) in
      let e := eval hnf in e in
      match eval pattern field in e with
      | ?build _ =>
          let u := eval cbv beta in (λ (f : F → F) (r : R), build (λ r, f (field r)) r) in
          exact u
      end
  end.

#[export] Hint Extern 1 (Update _) => solve_update : typeclass_instances.

Notation "r <| field := v |>" := (update (field := field) (λ _, v) r)
  (at level 1, left associativity, field at level 9, format "r  <| field  :=  v |>").

(** *** Tactics and generic lemmas *)

(** Boolean guards of the sources as propositions, in a hypothesis or the
    goal. *)
Ltac to_prop :=
  repeat match goal with
  | H : _ && _ = true |- _ => apply andb_true_iff in H as [? ?]
  | H : _ || _ = false |- _ => apply orb_false_iff in H as [? ?]
  | H : _ || _ = true |- _ => apply orb_true_iff in H
  | H : _ && _ = false |- _ => apply andb_false_iff in H
  | H : negb _ = true |- _ => apply negb_true_iff in H
  | H : negb _ = false |- _ => apply negb_false_iff in H
  | H : bool_decide _ = true |- _ => apply bool_decide_eq_true in H
  | H : bool_decide _ = false |- _ => apply bool_decide_eq_false in H
  | H : (_ <=? _) = true |- _ => apply Z.leb_le in H
  | H : (_ <=? _) = false |- _ => apply Z.leb_gt in H
  | H : (_ <? _) = true |- _ => apply Z.ltb_lt in H
  | H : (_ <? _) = false |- _ => apply Z.ltb_ge in H
  | H : (_ =? _) = true |- _ => apply Z.eqb_eq in H
  | H : (_ =? _) = false |- _ => apply Z.eqb_neq in H
  | H : (_ >? _) = _ |- _ => rewrite Z.gtb_ltb in H
  | H : (_ >=? _) = _ |- _ => rewrite Z.geb_leb in H
  | H : contains _ _ = true |- _ => apply bool_decide_eq_true in H
  | H : contains _ _ = false |- _ => apply bool_decide_eq_false in H
  end.

(** Destructs the first condition or discriminee the goal or a hypothesis
    branches on. *)
Ltac case_cond :=
  match goal with
  | |- context [if ?b then _ else _] =>
      lazymatch b with context [if _ then _ else _] => fail
      | context [match _ with _ => _ end] => fail | _ => destruct b eqn:? end
  | H : context [if ?b then _ else _] |- _ =>
      lazymatch b with context [if _ then _ else _] => fail
      | context [match _ with _ => _ end] => fail | _ => destruct b eqn:? end
  end.

Create HintDb go discriminated.
Create Rewrite HintDb go.

Lemma wrap64_id z : in_int64 z → wrap64 z = z.
Proof.
  unfold in_int64, wrap64, two63, two64. intros. rewrite Z.mod_small; lia.
Qed.

Lemma wrap64_range z : in_int64 (wrap64 z).
Proof.
  unfold in_int64, wrap64, two63, two64.
  pose proof (Z.mod_pos_bound (z + 9223372036854775808) 18446744073709551616); lia.
Qed.

Lemma wrap64_add_l a b : wrap64 (wrap64 a + b) = wrap64 (a + b).
Proof.
  unfold wrap64.
  replace ((a + two63) mod two64 - two63 + b + two63) with ((a + two63) mod two64 + b) by lia.
  rewrite Zplus_mod_idemp_l. do 2 f_equal. lia.
Qed.

(** [unwrap] removes the wrap-around of the operations of the goal, innermost
    first, where the exact result is in range by [tac]. *)
Ltac unwrap tac :=
  unfold add64, sub64, mul64;
  repeat match goal with
  | |- context [wrap64 ?z] =>
      lazymatch z with
      | context [wrap64 _] => fail
      | _ => rewrite (wrap64_id z) by tac
      end
  end.

Ltac int_range := unfold in_int64, two63 in *; lia.

#[export] Hint Resolve wrap64_range : go.

Section slices.
Context {A : Type} `{EqDecision A}.
Implicit Types (l : list A) (x : A).

Lemma contains_spec l x : contains l x = true ↔ x ∈ l.
Proof. apply bool_decide_eq_true. Qed.

Lemma contains_false l x : contains l x = false ↔ x ∉ l.
Proof. apply bool_decide_eq_false. Qed.

Lemma contains_app l1 l2 x : contains (l1 ++ l2) x = contains l1 x || contains l2 x.
Proof.
  apply Bool.eq_iff_eq_true. rewrite orb_true_iff, !contains_spec, elem_of_app. done.
Qed.

Lemma elem_of_append_new l x y : y ∈ append_new l x ↔ y ∈ l ∨ y = x.
Proof.
  unfold append_new, contains. case_bool_decide; [naive_solver|].
  by rewrite elem_of_app, list_elem_of_singleton.
Qed.

Lemma NoDup_append_new l x : NoDup l → NoDup (append_new l x).
Proof.
  unfold append_new, contains. case_bool_decide; [done|]. intros.
  apply NoDup_app. split; [done|]. split; [|apply NoDup_singleton].
  intros y Hy ->%list_elem_of_singleton. done.
Qed.

Lemma append_new_prefix l x : l `prefix_of` append_new l x.
Proof. unfold append_new. case_match; [done|by apply prefix_app_r]. Qed.

Section collect.
Context {B : Type} (f : B → option A).
Implicit Types (ls : list B) (out : list A).

Lemma elem_of_collect_new out ls y :
  y ∈ collect_new f out ls ↔ y ∈ out ∨ ∃ a, a ∈ ls ∧ f a = Some y.
Proof.
  revert out. induction ls as [|a ls IH]; intros out; simpl.
  - set_solver.
  - rewrite IH. setoid_rewrite elem_of_cons. destruct (f a) as [b|] eqn:Hf.
    + rewrite elem_of_append_new. naive_solver.
    + naive_solver.
Qed.

Lemma NoDup_collect_new out ls : NoDup out → NoDup (collect_new f out ls).
Proof.
  revert out. induction ls as [|a ls IH]; intros out Hout; simpl; [done|].
  apply IH. destruct (f a); [by apply NoDup_append_new|done].
Qed.

Lemma collect_new_prefix out ls : out `prefix_of` collect_new f out ls.
Proof.
  revert out. induction ls as [|a ls IH]; intros out; simpl; [done|].
  etrans; [|apply IH]. destruct (f a); [apply append_new_prefix|done].
Qed.

Lemma collect_new_app out ls1 ls2 :
  collect_new f out (ls1 ++ ls2) = collect_new f (collect_new f out ls1) ls2.
Proof. unfold collect_new. apply foldl_app. Qed.
End collect.
End slices.

Lemma filter_ext_in {A} (P Q : A → Prop) `{!∀ x, Decision (P x), !∀ x, Decision (Q x)} (l : list A) :
  (∀ x, x ∈ l → P x ↔ Q x) → filter P l = filter Q l.
Proof.
  induction l as [|x l IH]; intros HPQ; [done|]. rewrite !filter_cons, IH by set_solver.
  destruct (HPQ x) as [H1 H2]; [set_solver|].
  destruct (decide (P x)), (decide (Q x)); tauto.
Qed.

Lemma omap_ext_fun {A B} (f g : A → option B) (l : list A) :
  (∀ x, f x = g x) → omap f l = omap g l.
Proof. intros Hfg. induction l as [|x l IH]; [done|]. simpl. rewrite Hfg.
  destruct (g x); [f_equal|]; apply IH.
Qed.

(** Where an element of [omap f l] comes from. *)
Lemma omap_app_inv {A B} (f : A → option B) (l : list A) (b a : list B) (x : B) :
  omap f l = b ++ x :: a →
  ∃ before y after, l = before ++ y :: after ∧ f y = Some x ∧
    ∀ r z, z ∈ before → f z = Some r → r ∈ b.
Proof.
  revert b. induction l as [|y l IH]; intros b Hl; [by destruct b|].
  cbn [omap list_omap] in Hl. destruct (f y) as [r|] eqn:Hy.
  - destruct b as [|r' b]; injection Hl as -> Hl.
    + exists [], y, l. split; [done|]. split; [done|]. set_solver.
    + destruct (IH b Hl) as (before & z & after & -> & Hf & Hb).
      exists (y :: before), z, after. split; [done|]. split; [done|].
      intros r0 z0 [->|Hz]%elem_of_cons Hr0; [apply elem_of_cons; left; congruence|right; eauto].
  - destruct (IH b Hl) as (before & z & after & -> & Hf & Hb).
    exists (y :: before), z, after. split; [done|]. split; [done|].
    intros r0 z0 [->|Hz]%elem_of_cons Hr0; [congruence|eauto].
Qed.

Lemma sublist_is_filter {A} `{EqDecision A} (l k : list A) :
  k `sublist_of` l → NoDup l → k = filter (λ x, x ∈ k) l.
Proof.
  induction 1 as [|x l k Hs IH|x l k Hs IH]; [done|..]; intros [Hx Hl]%NoDup_cons.
  - rewrite filter_cons_True by set_solver. f_equal. rewrite IH at 1 by done.
    apply filter_ext_in. set_solver.
  - rewrite filter_cons_False; [auto|]. intros Hk. eapply elem_of_sublist in Hs; done.
Qed.

#[export] Hint Resolve NoDup_append_new NoDup_collect_new append_new_prefix collect_new_prefix : go.

#[export] Hint Rewrite @contains_spec @contains_false @elem_of_app @list_elem_of_singleton : go.

Lemma str_app_nil_l (b : string) : EmptyString +:+ b = b.
Proof. done. Qed.

Lemma str_app_cons x (a b : string) : String x a +:+ b = String x (a +:+ b).
Proof. done. Qed.

Lemma str_app_assoc (a b c : string) : (a +:+ b) +:+ c = a +:+ (b +:+ c).
Proof. induction a as [|x a IH]; [done|]. by rewrite !str_app_cons, IH. Qed.

Lemma str_app_nil_r (a : string) : a +:+ EmptyString = a.
Proof. induction a as [|x a IH]; [done|]. by rewrite str_app_cons, IH. Qed.

Lemma str_app_empty (a b : string) :
  a +:+ b = EmptyString ↔ a = EmptyString ∧ b = EmptyString.
Proof. destruct a; rewrite ?str_app_cons; naive_solver. Qed.

#[export] Hint Rewrite str_app_nil_l str_app_cons str_app_nil_r : go.

Lemma has_prefix_spec s pre : has_prefix s pre = true ↔ ∃ k, s = pre +:+ k.
Proof.
  unfold has_prefix. revert s. induction pre as [|a pre IH]; intros [|b s]; simpl.
  - naive_solver.
  - split; [|done]. eexists. by rewrite str_app_nil_l.
  - split; [done|]. intros [k Hk]. by rewrite str_app_cons in Hk.
  - destruct (Ascii.ascii_dec a b) as [->|Hne]; [rewrite IH|]; setoid_rewrite str_app_cons;
      naive_solver.
Qed.

Lemma drop_str_app a b : drop_str (String.length a) (a +:+ b) = b.
Proof.
  unfold drop_str. assert (∀ s, String.substring 0 (String.length s) s = s) as Hs.
  { induction s as [|x s IH]; simpl; [done|]. by rewrite IH. }
  induction a as [|x a IH]; [rewrite str_app_nil_l; simpl; by rewrite Nat.sub_0_r|].
  rewrite str_app_cons. cbn [String.length String.substring]. apply IH.
Qed.

Lemma CutPrefix_spec s pre k : CutPrefix s pre = Some k ↔ s = pre +:+ k.
Proof.
  unfold CutPrefix. split.
  - destruct (has_prefix s pre) eqn:H; [|done]. apply has_prefix_spec in H as [k' ->].
    rewrite drop_str_app. congruence.
  - intros ->. rewrite (proj2 (has_prefix_spec _ _)) by eauto. by rewrite drop_str_app.
Qed.

Lemma contains_byte_app c a b :
  contains_byte c (a +:+ b) = contains_byte c a || contains_byte c b.
Proof.
  induction a as [|x a IH]; [done|]. rewrite str_app_cons. simpl. by rewrite IH, orb_assoc.
Qed.

(** A separator occurs where [cut_byte] splits, and not before. *)
Lemma cut_byte_found c s a b :
  cut_byte c s = (a, b, true) →
  s = a +:+ String c b ∧ contains_byte c a = false.
Proof.
  revert a b. induction s as [|x s IH]; simpl; intros a b H; [done|].
  case_bool_decide; [naive_solver|].
  destruct (cut_byte c s) as [[a' b'] f]. injection H as <- <- ->.
  destruct (IH a' b' eq_refl) as [-> Hn].
  split; [done|]. simpl. by rewrite bool_decide_eq_false_2.
Qed.

Lemma cut_byte_none c s a b :
  cut_byte c s = (a, b, false) → a = s ∧ contains_byte c s = false.
Proof.
  revert a b. induction s as [|x s IH]; simpl; intros a b H; [naive_solver|].
  case_bool_decide; [naive_solver|].
  destruct (cut_byte c s) as [[a' b'] f]. injection H as <- <- ->.
  destruct (IH a' b' eq_refl) as [-> Hn]. done.
Qed.

Lemma cut_byte_fst c a b :
  contains_byte c a = false → cut_byte c (a +:+ String c b) = (a, b, true).
Proof.
  induction a as [|x a IH]; intros H.
  - rewrite str_app_nil_l. simpl. by rewrite bool_decide_eq_true_2.
  - apply orb_false_iff in H as [Hx Ha]. rewrite str_app_cons. simpl. by rewrite Hx, IH.
Qed.

Lemma cut_byte_id c a : contains_byte c a = false → cut_byte c a = (a, EmptyString, false).
Proof.
  induction a as [|x a IH]; simpl; intros H; [done|].
  apply orb_false_iff in H as [Hx Ha]. by rewrite Hx, (IH Ha).
Qed.

(** A separator that the first parts, or the last parts, do not contain splits
    a string in one way. *)
Lemma first_byte_inj c a b t u :
  contains_byte c a = false → contains_byte c b = false →
  a +:+ String c t = b +:+ String c u → a = b ∧ t = u.
Proof.
  intros Ha Hb H. apply (f_equal (cut_byte c)) in H.
  rewrite !cut_byte_fst in H by done. by injection H.
Qed.

Lemma last_byte_inj c a a' b b' :
  contains_byte c b = false → contains_byte c b' = false →
  a +:+ String c b = a' +:+ String c b' → a = a' ∧ b = b'.
Proof.
  intros Hb Hb'. revert a'. induction a as [|x a IH]; intros [|y a'];
    rewrite ?str_app_nil_l, ?str_app_cons.
  - by intros [= ->].
  - intros [= <- ->]. exfalso. revert Hb. rewrite contains_byte_app. simpl.
    rewrite bool_decide_eq_true_2 by done. by rewrite orb_true_r.
  - intros [= -> <-]. exfalso. revert Hb'. rewrite contains_byte_app. simpl.
    rewrite bool_decide_eq_true_2 by done. by rewrite orb_true_r.
  - intros [= -> H]. apply IH in H as [-> ->]. done.
Qed.

Lemma str_rev_involutive s : str_rev (str_rev s) = s.
Proof.
  unfold str_rev. rewrite String.list_ascii_of_string_of_list_ascii, rev_involutive.
  apply String.string_of_list_ascii_of_string.
Qed.

Lemma str_rev_cons c s : str_rev (String c s) = str_rev s +:+ String c "".
Proof.
  unfold str_rev. simpl. generalize (rev (String.list_ascii_of_string s)).
  intros l. induction l as [|x l IH]; simpl; [done|]. by rewrite str_app_cons, <- IH.
Qed.

Lemma str_rev_app a b : str_rev (a +:+ b) = str_rev b +:+ str_rev a.
Proof.
  induction a as [|x a IH]; [by rewrite str_app_nil_l; change (str_rev "") with ""; rewrite str_app_nil_r|].
  by rewrite str_app_cons, !str_rev_cons, IH, str_app_assoc.
Qed.

Lemma len_nonneg s : 0 <= len s.
Proof. unfold len. lia. Qed.

Lemma len_app a b : len (a +:+ b) = len a + len b.
Proof.
  unfold len. induction a as [|x a IH]; [done|]. rewrite str_app_cons. simpl. lia.
Qed.

#[export] Instance string_le_total : Total string_le.
Proof. intros a b. unfold string_le. destruct (String.leb_total a b); auto. Qed.

Lemma elem_of_sorted_keys {A} (m : gmap string A) k :
  k ∈ sorted_keys m ↔ is_Some (m !! k).
Proof.
  unfold sorted_keys. rewrite merge_sort_Permutation, elem_of_elements. apply elem_of_dom.
Qed.

Lemma NoDup_sorted_keys {A} (m : gmap string A) : NoDup (sorted_keys m).
Proof. unfold sorted_keys. rewrite merge_sort_Permutation. apply NoDup_elements. Qed.

Lemma Sorted_sorted_keys {A} (m : gmap string A) : Sorted string_le (sorted_keys m).
Proof. apply Sorted_merge_sort, _. Qed.

#[export] Instance map_range_list : MapRange :=
  {| map_range K _ _ A m := map_to_list m; map_range_perm K _ _ A m := Permutation_refl _ |}.

Lemma elem_of_map_range `{MapRange} `{Countable K} {A} (m : gmap K A) k x :
  (k, x) ∈ map_range m ↔ m !! k = Some x.
Proof. rewrite map_range_perm. apply elem_of_map_to_list. Qed.
