(* ===== verification/GoTime.v ===== *)
(** * Instants, durations and the UTC calendar

    What the sources use of Go's [time] package. A [time.Time] is the instant
    it denotes, in nanoseconds since 1970-01-01 UTC, so two values are [Equal]
    when they are the same number; the monotonic reading and the location are
    not modelled. A [time.Duration] is an [int64] of nanoseconds. The calendar
    is the proleptic Gregorian one, counted in days since 0001-01-01. *)
From S2P Require Import Prelude.

(** ** Instants and durations *)

Definition Nanosecond : Z := 1.
Definition Millisecond : Z := 1000000.
Definition Second : Z := 1000000000.
Definition Minute : Z := 60 * Second.
Definition Hour : Z := 60 * Minute.
Definition Day : Z := 24 * Hour.

(** The zero [time.Time], 0001-01-01 00:00:00 UTC, and [IsZero]. *)
Definition time_zero : Z := -62135596800 * Second.
Definition IsZero (t : Z) : bool := t =? time_zero.

Definition min_duration : Z := - two63.
Definition max_duration : Z := two63 - 1.

(** [t.Sub u]: the difference, kept in the range of a [Duration]. *)
Definition time_sub (t u : Z) : Z := Z.max min_duration (Z.min max_duration (t - u)).

(** [t.UnixMilli]. *)
Definition UnixMilli (t : Z) : Z := t / Millisecond.

(** ** The calendar *)

Definition leap (y : Z) : bool :=
  (y mod 4 =? 0) && (negb (y mod 100 =? 0) || (y mod 400 =? 0)).

(** Days from 0001-01-01 to January 1 of year [y]. *)
Definition days_before_year (y : Z) : Z :=
  365 * (y - 1) + (y - 1) / 4 - (y - 1) / 100 + (y - 1) / 400.

(** Days of the year before month [m], counted from 0; [12] is the year's
    length. *)
Definition days_before_month (lp : bool) (m : Z) : Z :=
  nth (Z.to_nat m) [0; 31; 59; 90; 120; 151; 181; 212; 243; 273; 304; 334; 365] 0 +
  (if lp && (2 <=? m) then 1 else 0).

(** The year of a day, by the 400-, 100-, 4- and 1-year cycles. *)
Definition year_of (n : Z) : Z :=
  let n400 := n / 146097 in
  let r400 := n mod 146097 in
  let n100 := Z.min 3 (r400 / 36524) in
  let r100 := r400 - n100 * 36524 in
  let n4 := r100 / 1461 in
  let r4 := r100 mod 1461 in
  let n1 := Z.min 3 (r4 / 365) in
  400 * n400 + 100 * n100 + 4 * n4 + n1 + 1.

(** The month, from 0, of a day of the year: the first whose end is later. *)
Fixpoint find_month (lp : bool) (yday : Z) (fuel : nat) (m : Z) : Z :=
  match fuel with
  | O => m
  | S fuel' =>
      if yday <? days_before_month lp (m + 1) then m
      else find_month lp yday fuel' (m + 1)
  end.

(** Year, month (from 1) and day of the month (from 1) of a day. *)
Definition civil (n : Z) : Z * Z * Z :=
  let y := year_of n in
  let yday := n - days_before_year y in
  let m := find_month (leap y) yday 11 0 in
  (y, m + 1, yday - days_before_month (leap y) m + 1).

(** The first day of a month, the months counted from January of year 1. *)
Definition month_start (k : Z) : Z :=
  let y := k / 12 + 1 in
  days_before_year y + days_before_month (leap y) (k mod 12).

(** 1970-01-01 in days since 0001-01-01. *)
Definition unix_day : Z := 719162.

(** [time.Date y m d 0 0 0 0 time.UTC]: a month outside 1..12 and a day
    outside its month carry over. *)
Definition Date (y m d : Z) : Z :=
  (month_start (12 * (y - 1) + (m - 1)) + (d - 1) - unix_day) * Day.

(** The day a UTC instant falls on, and its calendar date. *)
Definition day_of (t : Z) : Z := t / Day + unix_day.
Definition DateOf (t : Z) : Z * Z * Z := civil (day_of t).

(** ** The calendar is a calendar *)

Ltac euclid := Z.to_euclidean_division_equations.

Lemma days_before_year_succ y :
  days_before_year (y + 1) = days_before_year y + days_before_month (leap y) 12.
Proof.
  unfold days_before_year, days_before_month, leap. simpl nth.
  replace (y + 1 - 1) with y by lia.
  destruct (y mod 4 =? 0) eqn:H4, (y mod 100 =? 0) eqn:H100, (y mod 400 =? 0) eqn:H400;
    simpl; to_prop; euclid; lia.
Qed.

Lemma days_before_month_succ lp m :
  0 <= m < 12 → days_before_month lp m < days_before_month lp (m + 1).
Proof.
  intros H. assert (m ∈ seqZ 0 12) as Hm by (apply elem_of_seqZ; lia).
  clear H. revert m Hm. apply Forall_forall. destruct lp; vm_compute; repeat constructor.
Qed.

Lemma days_before_month_0 lp : days_before_month lp 0 = 0.
Proof. by destruct lp. Qed.

Lemma month_start_succ k : month_start k < month_start (k + 1).
Proof.
  unfold month_start.
  destruct (decide (k mod 12 = 11)) as [H|H].
  - assert ((k + 1) / 12 = k / 12 + 1) as -> by (euclid; lia).
    assert ((k + 1) mod 12 = 0) as -> by (euclid; lia).
    rewrite days_before_month_0, H, (days_before_year_succ (k / 12 + 1)).
    pose proof (days_before_month_succ (leap (k / 12 + 1)) 11). change (11 + 1) with 12 in *. lia.
  - assert ((k + 1) / 12 = k / 12) as -> by (euclid; lia).
    assert ((k + 1) mod 12 = k mod 12 + 1) as -> by (euclid; lia).
    pose proof (days_before_month_succ (leap (k / 12 + 1)) (k mod 12)).
    euclid; lia.
Qed.

Lemma month_start_mono k1 k2 : k1 <= k2 → month_start k1 <= month_start k2.
Proof.
  intros H. assert (∃ n : nat, k2 = k1 + Z.of_nat n) as [n ->].
  { exists (Z.to_nat (k2 - k1)). lia. }
  induction n as [|n IH]; [by rewrite Z.add_0_r|].
  pose proof (month_start_succ (k1 + Z.of_nat n)).
  replace (k1 + Z.of_nat (S n)) with (k1 + Z.of_nat n + 1) by lia. lia.
Qed.

(** The last year of a 4-year cycle is leap unless it ends a century that is
    not the fourth. *)
Lemma leap_cycle a b c :
  0 <= b <= 3 → 0 <= c <= 24 → (c = 24 → b = 3) →
  leap (400 * a + 100 * b + 4 * c + 4) = true.
Proof.
  intros Hb Hc Hbc. unfold leap.
  assert ((400 * a + 100 * b + 4 * c + 4) mod 4 = 0) as -> by (euclid; lia).
  destruct (decide (c = 24)) as [->|Hne].
  - assert ((400 * a + 100 * b + 4 * 24 + 4) mod 400 = 0) as -> by (rewrite Hbc by done; euclid; lia).
    by rewrite orb_true_r.
  - assert ((400 * a + 100 * b + 4 * c + 4) mod 100 = 4 * c + 4) as -> by (euclid; lia).
    destruct (Z.eqb_spec (4 * c + 4) 0); [lia|done].
Qed.

Lemma year_of_spec n : days_before_year (year_of n) <= n < days_before_year (year_of n + 1).
Proof.
  rewrite days_before_year_succ. unfold year_of.
  remember (n / 146097) as a eqn:Ha. remember (n mod 146097) as r eqn:Hr.
  assert (n = 146097 * a + r ∧ 0 <= r < 146097) as [Hn Hr'] by (subst; euclid; lia).
  clear Ha Hr.
  remember (Z.min 3 (r / 36524)) as b eqn:Hb. remember (r - b * 36524) as r1 eqn:Hr1.
  assert (0 <= b <= 3 ∧ 0 <= r1 ∧ (b < 3 → r1 < 36524) ∧ (b = 3 → r1 < 36525))
    as (Hb0 & Hr10 & Hb1 & Hb2) by (euclid; lia).
  clear Hb.
  remember (r1 / 1461) as c eqn:Hc. remember (r1 mod 1461) as r2 eqn:Hr2.
  assert (r1 = 1461 * c + r2 ∧ 0 <= r2 < 1461 ∧ 0 <= c <= 24 ∧ (b < 3 → c = 24 → r2 < 1460))
    as (Hr2' & Hr20 & Hc0 & Hc') by (subst c r2; euclid; lia).
  clear Hc Hr2.
  remember (Z.min 3 (r2 / 365)) as d eqn:Hd.
  assert (0 <= d <= 3 ∧ 365 * d <= r2 ∧ (d < 3 → r2 < 365 * (d + 1)) ∧ r2 <= 365 * d + 365
          ∧ (r2 = 365 * d + 365 → r2 = 1460))
    as (Hd0 & Hd1 & Hd2 & Hd3 & Hd4) by (euclid; lia).
  clear Hd.
  assert ((400 * a + 100 * b + 4 * c + d) / 4 = 100 * a + 25 * b + c) as Hq4 by (euclid; lia).
  assert ((400 * a + 100 * b + 4 * c + d) / 100 = 4 * a + b) as Hq100 by (euclid; lia).
  assert ((400 * a + 100 * b + 4 * c + d) / 400 = a) as Hq400 by (euclid; lia).
  assert (days_before_year (400 * a + 100 * b + 4 * c + d + 1)
          = 146097 * a + 36524 * b + 1461 * c + 365 * d) as ->.
  { unfold days_before_year.
    replace (400 * a + 100 * b + 4 * c + d + 1 - 1) with (400 * a + 100 * b + 4 * c + d) by lia.
    rewrite Hq4, Hq100, Hq400. lia. }
  split; [lia|].
  assert (∀ lp, days_before_month lp 12 = if lp then 366 else 365) as -> by (by intros []).
  destruct (decide (r2 = 1460)) as [He|Hne]; [|case_match; lia].
  replace d with 3 by lia.
  replace (400 * a + 100 * b + 4 * c + 3 + 1) with (400 * a + 100 * b + 4 * c + 4) by lia.
  rewrite leap_cycle by lia. lia.
Qed.

Lemma find_month_spec lp yday :
  0 <= yday < days_before_month lp 12 →
  let m := find_month lp yday 11 0 in
  0 <= m < 12 ∧ days_before_month lp m <= yday < days_before_month lp (m + 1).
Proof.
  intros Hy m.
  assert (Forall (λ i, let m := find_month lp i 11 0 in
      Is_true ((0 <=? m) && (m <? 12) && (days_before_month lp m <=? i)
               && (i <? days_before_month lp (m + 1)))) (seqZ 0 (days_before_month lp 12))) as Hall.
  { destruct lp; apply forallb_True; vm_compute; exact I. }
  rewrite Forall_forall in Hall. specialize (Hall yday ltac:(apply elem_of_seqZ; lia)).
  cbv zeta in Hall. fold m in Hall. clearbody m. apply Is_true_true in Hall. to_prop. lia.
Qed.

(** The month a day falls in, as a count of months. *)
Definition month_of (n : Z) : Z :=
  let '(y, m, _) := civil n in 12 * (y - 1) + (m - 1).

Lemma civil_spec n y m d :
  civil n = (y, m, d) →
  1 <= m <= 12 ∧ 1 <= d ∧ n = month_start (12 * (y - 1) + (m - 1)) + (d - 1) ∧
  n < month_start (12 * (y - 1) + (m - 1) + 1).
Proof.
  unfold civil. remember (find_month (leap (year_of n)) (n - days_before_year (year_of n)) 11 0)
    as m0 eqn:Hm0.
  intros [= <- <- <-].
  pose proof (year_of_spec n) as [H1 H2].
  pose proof (days_before_year_succ (year_of n)) as Hs.
  pose proof (find_month_spec (leap (year_of n)) (n - days_before_year (year_of n))) as Hm.
  cbv zeta in Hm. rewrite <- Hm0 in Hm. destruct Hm as [Hm Hd]; [lia|].
  set (y := year_of n) in *. rename m0 into m. clearbody y. clear Hm0.
  pose proof (month_start_succ (12 * (y - 1) + (m + 1 - 1))) as Hlt.
  assert (month_start (12 * (y - 1) + (m + 1 - 1)) = days_before_year y + days_before_month (leap y) m) as Hms.
  { unfold month_start.
    assert ((12 * (y - 1) + (m + 1 - 1)) / 12 + 1 = y) as -> by (euclid; lia).
    assert ((12 * (y - 1) + (m + 1 - 1)) mod 12 = m) as -> by (euclid; lia). done. }
  repeat split; try lia.
  destruct (decide (m = 11)) as [->|Hne].
  - replace (12 * (y - 1) + (11 + 1 - 1) + 1) with (12 * y) by lia.
    unfold month_start.
    assert (12 * y / 12 + 1 = y + 1) as -> by (euclid; lia).
    assert (12 * y mod 12 = 0) as -> by (euclid; lia).
    rewrite days_before_month_0. change (11 + 1) with 12 in *. lia.
  - unfold month_start.
    assert ((12 * (y - 1) + (m + 1 - 1) + 1) / 12 + 1 = y) as -> by (euclid; lia).
    assert ((12 * (y - 1) + (m + 1 - 1) + 1) mod 12 = m + 1) as -> by (euclid; lia). lia.
Qed.

Lemma month_of_spec n : month_start (month_of n) <= n < month_start (month_of n + 1).
Proof.
  unfold month_of. destruct (civil n) as [[y m] d] eqn:H.
  apply civil_spec in H. lia.
Qed.

(** A day lies in exactly one month. *)
Lemma month_of_unique n k : month_start k <= n < month_start (k + 1) → month_of n = k.
Proof.
  intros H. pose proof (month_of_spec n) as Hn.
  destruct (Z.lt_trichotomy (month_of n) k) as [Hlt|[?|Hgt]]; [|done|].
  - pose proof (month_start_mono (month_of n + 1) k). lia.
  - pose proof (month_start_mono (k + 1) (month_of n)). lia.
Qed.
