(* ===== verification/Tenancy.v ===== *)
(** * Scopes, periods and names

    The vocabulary of [internal/policy]: the levels a guardrail attaches to,
    the periods a budget or quota resets on, the kinds of model and key, and
    the names they go by. Go's string types stay strings, since a stored or
    decoded value may be none of the named constants. *)
From S2P Require Import Prelude GoTime.

(** ** Scopes, meters, kinds *)

Definition ScopeOrg : string := "org".
Definition ScopeProject : string := "project".
Definition ScopeKey : string := "key".
Definition ScopeRouter : string := "router".

(** [ScopeType.Possessive]. *)
Definition ScopeType_Possessive (t : string) : string :=
  if bool_decide (t = ScopeOrg) then "your organisation"
  else if bool_decide (t = ScopeProject) then "your project"
  else if bool_decide (t = ScopeRouter) then "this router"
  else "this API key".

Definition MeterCost : string := "".
Definition MeterRequests : string := "requests".
Definition MeterTokens : string := "tokens".

(** [Meter.Amount]: what one request adds to a window of this meter. *)
Definition Meter_Amount (m : string) (costMicros tokens : Z) : Z :=
  if bool_decide (m = MeterRequests) then 1
  else if bool_decide (m = MeterTokens) then tokens
  else costMicros.

Definition KindChat : string := "chat".
Definition KindCompletion : string := "completion".
Definition KindEmbedding : string := "embedding".
Definition KindRerank : string := "rerank".
Definition KindDecision : string := "decision".

Definition Kind_Valid (k : string) : bool :=
  bool_decide (k = KindChat) || bool_decide (k = KindCompletion) ||
  bool_decide (k = KindEmbedding) || bool_decide (k = KindRerank) ||
  bool_decide (k = KindDecision).

Definition KeyStandard : string := "standard".
Definition KeySubscription : string := "subscription".

Definition KeyKind_Valid (k : string) : bool :=
  bool_decide (k = KeyStandard) || bool_decide (k = KeySubscription).

(** ** Periods *)

Definition PeriodDay : string := "day".
Definition PeriodMonth : string := "month".
Definition PeriodMinute : string := "minute".

(** [Period.Start]: the UTC month for [PeriodMonth], and the UTC day for
    every other value. *)
Definition Period_Start (p : string) (t : Z) : Z :=
  let '(y, m, d) := DateOf t in
  if bool_decide (p = PeriodMonth) then Date y m 1 else Date y m d.

(** [time.Time.AddDate]: the calendar date moves, the clock stays. *)
Definition AddDate (t years months days : Z) : Z :=
  let '(y, m, d) := DateOf t in
  Date (y + years) (m + months) (d + days) + t mod Day.

(** [Period.Next]. *)
Definition Period_Next (p : string) (t : Z) : Z :=
  let start := Period_Start p t in
  if bool_decide (p = PeriodMonth) then AddDate start 0 1 0 else AddDate start 0 0 1.

Definition Period_Valid (p : string) : bool :=
  bool_decide (p = PeriodDay) || bool_decide (p = PeriodMonth).

(** ** Names *)

Definition is_lower (c : Ascii.ascii) : bool :=
  (97 <=? byte_val c)%nat && (byte_val c <=? 122)%nat.
Definition is_upper (c : Ascii.ascii) : bool :=
  (65 <=? byte_val c)%nat && (byte_val c <=? 90)%nat.
Definition is_digit (c : Ascii.ascii) : bool :=
  (48 <=? byte_val c)%nat && (byte_val c <=? 57)%nat.

Definition hyphen : Ascii.ascii := Ascii.ascii_of_nat 45.
Definition slash : Ascii.ascii := Ascii.ascii_of_nat 47.
Definition comma : Ascii.ascii := Ascii.ascii_of_nat 44.
Definition colon : Ascii.ascii := Ascii.ascii_of_nat 58.

(** [strings.ToLower] on ASCII text. *)
Fixpoint ToLower_ascii (s : string) : string :=
  match s with
  | EmptyString => EmptyString
  | String c s =>
      String (if is_upper c then Ascii.ascii_of_nat (byte_val c + 32) else c) (ToLower_ascii s)
  end.

(** [strings.EqualFold a b] where [b] is ASCII and as long as [a]: a rune that
    folds to an ASCII letter and is not one takes more bytes than it. *)
Definition EqualFold (a b : string) : bool := bool_decide (ToLower_ascii a = ToLower_ascii b).

(** [for i := range len(s)] with a check of each byte. *)
Fixpoint all_bytes (f : Z → Ascii.ascii → bool) (i : Z) (s : string) : bool :=
  match s with
  | EmptyString => true
  | String c s' => f i c && all_bytes f (i + 1) s'
  end.

(** [validName]. *)
Definition validName (s : string) (maxLen : Z) : bool :=
  if bool_decide (s = EmptyString) || (len s >? maxLen) then false
  else all_bytes (λ i c,
         is_lower c || is_digit c || bool_decide (c = hyphen) && (i >? 0) && (i <? len s - 1))
         0 s.

Definition maxAliasLen : Z := 64.

Definition ValidAlias (s : string) : bool := validName s maxAliasLen.

Definition ValidModelAlias (s : string) : bool :=
  if len s >? maxAliasLen then false
  else forallb (λ part, validName part maxAliasLen) (split_byte slash s).

Definition LocationOnPrem : string := "onprem".

Definition ValidLocation (s : string) : bool := validName s 16.

(** [validHeaderName]: the bytes of an HTTP header name people use, with no
    hyphen at either end. *)
Definition validHeaderName (s : string) : bool :=
  if bool_decide (s = EmptyString) || (len s >? 64) ||
     bool_decide (String.get 0 s = Some hyphen) ||
     bool_decide (String.get (String.length s - 1) s = Some hyphen)
  then false
  else all_bytes (λ _ c, is_lower c || is_upper c || is_digit c || bool_decide (c = hyphen)) 0 s.

(** ** Names *)

Lemma all_bytes_excludes f x i s :
  (∀ i c, f i c = true → c ≠ x) → all_bytes f i s = true → contains_byte x s = false.
Proof.
  intros Hf. revert i. induction s as [|c s IH]; intros i H; simpl in *; [done|]. to_prop.
  rewrite (IH (i + 1)) by done. rewrite bool_decide_eq_false_2 by eauto. done.
Qed.

Lemma all_bytes_get f s :
  ∀ i, all_bytes f i s = true ↔ ∀ k c, String.get k s = Some c → f (i + Z.of_nat k) c = true.
Proof.
  induction s as [|c s IH]; intros i; simpl; [split; [by intros _ []|done]|].
  rewrite andb_true_iff, IH. split.
  - intros [Hc Hs] [|k] c' Hk; simpl in Hk; simplify_eq.
    + by rewrite Z.add_0_r.
    + replace (i + Z.of_nat (S k)) with (i + 1 + Z.of_nat k) by lia. auto.
  - intros H. split; [by rewrite <- (Z.add_0_r i); apply (H 0%nat)|].
    intros k c' Hk. specialize (H (S k) c' Hk).
    by replace (i + 1 + Z.of_nat k) with (i + Z.of_nat (S k)) by lia.
Qed.

(** The names: 1 to [maxLen] bytes, each a lowercase letter, a digit or a
    hyphen that is neither first nor last. *)
Lemma validName_spec s maxLen :
  validName s maxLen = true ↔
  1 <= len s <= maxLen ∧
  ∀ k c, String.get k s = Some c →
    is_lower c = true ∨ is_digit c = true ∨ c = hyphen ∧ 0 < Z.of_nat k < len s - 1.
Proof.
  unfold validName.
  assert (s ≠ "" ↔ 1 <= len s) as Hne by (unfold len; destruct s; simpl; naive_solver lia).
  destruct (_ || _) eqn:Hc.
  { split; [done|]. intros [? _]. to_prop. destruct Hc; to_prop; naive_solver lia. }
  to_prop. rewrite all_bytes_get. split.
  - intros Hall. split; [naive_solver lia|]. intros k c Hk. specialize (Hall k c Hk) as Hb.
    to_prop. destruct Hb as [Hb|Hb]; [to_prop; destruct Hb; auto|]. to_prop. right. right.
    split; [done|lia].
  - intros [_ Hall] k c Hk. destruct (Hall k c Hk) as [->|[->|[-> ?]]]; rewrite ?orb_true_r; [done..|].
    rewrite bool_decide_eq_true_2 by done. simpl. lia.
Qed.

Lemma validName_no_slash s maxLen : validName s maxLen = true → contains_byte slash s = false.
Proof.
  unfold validName. case_match; [done|]. apply all_bytes_excludes.
  intros i c Hc ->. by vm_compute in Hc.
Qed.

#[export] Hint Resolve validName_no_slash : go.

(** ** Windows *)

Section windows.
Implicit Types (p : string) (t u : Z).

Lemma day_of_Date y m d :
  day_of (Date y m d) = month_start (12 * (y - 1) + (m - 1)) + (d - 1).
Proof.
  unfold day_of, Date. rewrite Z.div_mul by done. lia.
Qed.

(** The first and the next day of a period's window, as day numbers. *)
Definition window_day p (n : Z) : Z :=
  if bool_decide (p = PeriodMonth) then month_start (month_of n) else n.
Definition next_window_day p (n : Z) : Z :=
  if bool_decide (p = PeriodMonth) then month_start (month_of n + 1) else n + 1.

Lemma Period_Start_day p t : Period_Start p t = (window_day p (day_of t) - unix_day) * Day.
Proof.
  unfold Period_Start, DateOf, window_day, month_of.
  destruct (civil (day_of t)) as [[y m] d] eqn:H. apply civil_spec in H.
  case_bool_decide; unfold Date; repeat f_equal; lia.
Qed.

Lemma Date_mod y m d : Date y m d mod Day = 0.
Proof. unfold Date. by apply Z.mod_mul. Qed.

Lemma day_of_midnight n : day_of ((n - unix_day) * Day) = n.
Proof. unfold day_of. rewrite Z.div_mul by done. lia. Qed.

Lemma month_of_start k : month_of (month_start k) = k.
Proof. apply month_of_unique. pose proof (month_start_succ k). lia. Qed.

Lemma AddDate_midnight n years months days :
  AddDate ((n - unix_day) * Day) years months days =
  let '(y, m, d) := civil n in Date (y + years) (m + months) (d + days).
Proof.
  unfold AddDate, DateOf. rewrite day_of_midnight, Z.mod_mul by done.
  destruct (civil n) as [[y m] d]. lia.
Qed.

Lemma civil_month_start k :
  ∃ y m, civil (month_start k) = (y, m, 1) ∧ k = 12 * (y - 1) + (m - 1).
Proof.
  destruct (civil (month_start k)) as [[y m] d] eqn:H. exists y, m.
  assert (month_of (month_start k) = 12 * (y - 1) + (m - 1)) as Hk.
  { unfold month_of. by rewrite H. }
  rewrite month_of_start in Hk. apply civil_spec in H as (_ & ? & He & _).
  rewrite <- Hk in He. split; [|done]. repeat f_equal. lia.
Qed.

Lemma Period_Next_day p t :
  Period_Next p t = (next_window_day p (day_of t) - unix_day) * Day.
Proof.
  unfold Period_Next. rewrite Period_Start_day, !AddDate_midnight.
  unfold window_day, next_window_day. case_bool_decide.
  - destruct (civil_month_start (month_of (day_of t))) as (y & m & Hc & Hk).
    rewrite Hc. unfold Date. repeat f_equal. rewrite Hk.
    rewrite Z.add_simpl_r. replace (1 + 0 - 1) with 0 by lia. rewrite Z.add_0_r. f_equal. lia.
  - destruct (civil (day_of t)) as [[y m] d] eqn:Hcv. apply civil_spec in Hcv.
    unfold Date. replace (m + 0) with m by lia. replace (y + 0) with y by lia. f_equal. lia.
Qed.

Lemma window_day_spec p n :
  window_day p n <= n < next_window_day p n.
Proof.
  unfold window_day, next_window_day. case_bool_decide; [apply month_of_spec|lia].
Qed.

Lemma window_day_iff p n k :
  window_day p k = window_day p n ↔ window_day p n <= k < next_window_day p n.
Proof.
  pose proof (window_day_spec p k). pose proof (window_day_spec p n).
  unfold window_day, next_window_day in *. case_bool_decide; [|lia].
  split; intros Hw.
  - assert (month_of k = month_of n) as <-; [|done].
    apply (f_equal month_of) in Hw. by rewrite !month_of_start in Hw.
  - f_equal. by apply month_of_unique.
Qed.

Lemma midnight_le_iff n t : (n - unix_day) * Day <= t ↔ n <= day_of t.
Proof.
  unfold day_of. assert (0 < Day) by done. split; intros.
  - assert (n - unix_day <= t / Day); [|lia]. apply Z.div_le_lower_bound; lia.
  - assert (Day * (t / Day) <= t) by (apply Z.mul_div_le; done). nia.
Qed.

(** The windows of a period partition time: an instant is in the window its
    [Start] and [Next] bound, and exactly the instants in it share the
    start. *)
Lemma window_iff p t u :
  Period_Start p u = Period_Start p t ↔ Period_Start p t <= u < Period_Next p t.
Proof.
  rewrite !Period_Start_day, Period_Next_day, midnight_le_iff.
  assert (∀ n, u < (n - unix_day) * Day ↔ day_of u < n) as Hlt.
  { intros n. pose proof (midnight_le_iff n u). lia. }
  rewrite Hlt, <- window_day_iff. assert (0 < Day) by done. split; [|by intros ->].
  intros H'. apply Z.mul_reg_r in H'; lia.
Qed.

Lemma window_self p t : Period_Start p t <= t < Period_Next p t.
Proof. by apply window_iff. Qed.

Lemma Period_Start_idem p t : Period_Start p (Period_Start p t) = Period_Start p t.
Proof. apply window_iff. pose proof (window_self p t). lia. Qed.

Lemma Period_Start_mono p t u : t <= u → Period_Start p t <= Period_Start p u.
Proof.
  intros H. pose proof (window_self p t). pose proof (window_self p u).
  destruct (decide (u < Period_Next p t)) as [Hlt|Hge].
  - assert (Period_Start p u = Period_Start p t); [apply window_iff; lia|lia].
  - destruct (decide (Period_Start p u < Period_Start p t)) as [Hlt|]; [|lia].
    assert (Period_Start p t = Period_Start p u); [apply window_iff; lia|lia].
Qed.

Lemma Period_Start_Next p t : Period_Start p (Period_Next p t) = Period_Next p t.
Proof.
  rewrite Period_Start_day, Period_Next_day, day_of_midnight.
  unfold window_day, next_window_day. case_bool_decide; [|done].
  by rewrite month_of_start.
Qed.
End windows.

(** The windows of a period partition time, in UTC. The window of an
    instant runs from its [Period_Start] up to its [Period_Next]; the instants
    in it are exactly those with the same start; starts are fixed points, grow
    with time, and the next window begins where this one ends. So a budget
    that counts under the start of the period counts every request of the
    period and of no other. *)
Theorem Period_windows p t u :
  Period_Start p t <= t < Period_Next p t ∧
  (Period_Start p u = Period_Start p t ↔ Period_Start p t <= u < Period_Next p t) ∧
  Period_Start p (Period_Start p t) = Period_Start p t ∧
  Period_Start p (Period_Next p t) = Period_Next p t ∧
  (t <= u → Period_Start p t <= Period_Start p u).
Proof.
  repeat (split; [eauto using window_self, window_iff, Period_Start_idem, Period_Start_Next|]).
  apply Period_Start_mono.
Qed.
