(* ===== verification/Control.v ===== *)
(** * Programs that call out

    The control plane's handlers and background rounds talk to the database,
    to PostFinance and to identity providers. Each is a program: a tree of
    calls, with what is done next for every answer. A call's answer is up to
    the environment, so a theorem about every run of a program holds whatever
    other replicas do between two of its calls, and wherever the replica dies.
    The errors the handlers answer with, of [internal/control/server.go], are
    here too. *)
From S2P Require Import Prelude.
Open Scope go_scope.

(** ** Programs *)

Inductive prog {C : Type} (R : C → Type) (A : Type) : Type :=
  | Ret (a : A)
  | Do (c : C) (k : R c → prog R A).
Arguments Ret {C R A}.
Arguments Do {C R A}.

Fixpoint prog_bind {C} {R : C → Type} {A B} (f : A → prog R B) (p : prog R A) : prog R B :=
  match p with
  | Ret a => f a
  | Do c k => Do c (λ x, prog_bind f (k x))
  end.

#[export] Instance prog_ret {C} {R : C → Type} : MRet (prog R) := λ A a, Ret a.
#[export] Instance prog_mbind {C} {R : C → Type} : MBind (prog R) := λ A B f p, prog_bind f p.

(** One call, and its answer. *)
Definition ask {C} {R : C → Type} (c : C) : prog R (R c) := Do c Ret.

Fixpoint each {C} {R : C → Type} {A} (f : A → prog R unit) (l : list A) : prog R unit :=
  match l with
  | [] => Ret tt
  | x :: l => prog_bind (λ _, each f l) (f x)
  end.

(** ** Runs *)

Section runs.
Context {C : Type} {R : C → Type}.
Implicit Types (c : C).

Definition event : Type := { c : C & R c }.

Definition answered c (x : R c) : event := existT c x.

(** What a program did so far, and what is left of it. *)
Inductive steps {A} : prog R A → list event → prog R A → Prop :=
  | steps_refl p : steps p [] p
  | steps_call c k x tr p : steps (k x) tr p → steps (Do c k) (answered c x :: tr) p.

(** Every call meets [ok], which may look at what happened before it, and the
    result meets [Q]. *)
Fixpoint always {A} (ok : list event → C → Prop) (h : list event) (p : prog R A) (Q : list event → A → Prop) : Prop :=
  match p with
  | Ret a => Q h a
  | Do c k => ok h c ∧ ∀ x, always ok (h ++ [answered c x]) (k x) Q
  end.

(** The run in which [env] answers. *)
Fixpoint run {A S} (env : S → ∀ c, S * R c) (s : S) (p : prog R A) : S * A * list event :=
  match p with
  | Ret a => (s, a, [])
  | Do c k => let '(s, x) := env s c in let '(s, a, tr) := run env s (k x) in (s, a, answered c x :: tr)
  end.

Lemma always_mono {A} (ok : list event → C → Prop) (p : prog R A) h (Q Q' : list event → A → Prop) :
  (∀ h a, Q h a → Q' h a) → always ok h p Q → always ok h p Q'.
Proof. revert h. induction p as [a|c k IH]; intros h HQ; cbn; [by apply HQ|]. intros (? & Hk). split; [done|]. intros x. by apply IH. Qed.

Lemma always_ok_mono {A} (ok ok' : list event → C → Prop) (p : prog R A) h (Q : list event → A → Prop) :
  (∀ h c, ok h c → ok' h c) → always ok h p Q → always ok' h p Q.
Proof. intros Hok. revert h. induction p as [a|c k IH]; intros h; cbn; [done|]. intros (? & Hk). split; [by apply Hok|]. intros x. by apply IH. Qed.

Lemma always_bind {A B} (ok : list event → C → Prop) (p : prog R A) (f : A → prog R B) h Q :
  always ok h p (λ h a, always ok h (f a) Q) → always ok h (p ≫= f) Q.
Proof.
  unfold mbind, prog_mbind. revert h. induction p as [a|c k IH]; intros h; cbn; [done|].
  intros (? & Hk). split; [done|]. intros x. by apply IH.
Qed.

Lemma always_ask {A} (ok : list event → C → Prop) c (f : R c → prog R A) h Q :
  ok h c → (∀ x, always ok (h ++ [answered c x]) (f x) Q) → always ok h (ask c ≫= f) Q.
Proof. done. Qed.

(** What happened before stays at the front. *)
Lemma always_extends {A} (ok : list event → C → Prop) (p : prog R A) h Q :
  always ok h p Q → always ok h p (λ h' a, (∃ l, h' = h ++ l) ∧ Q h' a).
Proof.
  revert h. induction p as [a|c k IH]; intros h; cbn.
  - intros HQ. split; [|done]. exists []. by rewrite app_nil_r.
  - intros (Hc & Hk). split; [done|]. intros x. eapply always_mono; [|exact (IH x _ (Hk x))].
    cbn. intros h' a ((l & ->) & HQ). split; [|done]. exists (answered c x :: l). by rewrite <- app_assoc.
Qed.

(** A program each of whose calls is fine after any history. *)
Lemma always_each {A} (ok : list event → C → Prop) (f : A → prog R unit) l :
  (∀ h x, x ∈ l → always ok h (f x) (λ _ _, True)) → ∀ h, always ok h (each f l) (λ _ _, True).
Proof.
  induction l as [|x l IH]; intros Hf h; cbn [each]; [done|].
  apply (always_bind _ (f x) (λ _, each f l)). eapply always_mono; [|apply Hf; left]. intros h' _ _. apply IH.
  intros h2 y Hy. apply Hf. by right.
Qed.

Lemma always_steps {A} (ok : list event → C → Prop) (p p' : prog R A) h tr Q :
  always ok h p Q → steps p tr p' → always ok (h ++ tr) p' Q.
Proof.
  intros Hp Hs. revert h Hp. induction Hs as [p|c k x tr p _ IH]; intros h Hp; [by rewrite app_nil_r|].
  destruct Hp as (_ & Hk). specialize (IH _ (Hk x)). by rewrite <- app_assoc in IH.
Qed.

(** Each call of any run, finished or not, met [ok]. *)
Lemma always_call {A} (ok : list event → C → Prop) (p p' : prog R A) tr Q h before c x after :
  always ok h p Q → steps p tr p' → tr = before ++ answered c x :: after → ok (h ++ before) c.
Proof.
  intros Hp Hs. revert h Hp before. induction Hs as [p|c0 k x0 tr p Hs IH]; intros h Hp before He.
  { by destruct before. }
  destruct Hp as (Hok & Hk). destruct before as [|e before]; injection He as He Htr.
  - subst c0. by rewrite app_nil_r.
  - subst e. specialize (IH _ (Hk x0) before Htr). by rewrite <- app_assoc in IH.
Qed.

Lemma always_result {A} (ok : list event → C → Prop) (p : prog R A) tr Q h a :
  always ok h p Q → steps p tr (Ret a) → Q (h ++ tr) a.
Proof. intros Hp Hs. exact (always_steps _ _ _ _ _ _ Hp Hs). Qed.

(** What is known of a result when the program goes on from it. *)
Lemma always_cut {A B} (ok : list event → C → Prop) (p : prog R A) (f : A → prog R B) h Q1 Q :
  always ok h p Q1 → (∀ l a, Q1 (h ++ l) a → always ok (h ++ l) (f a) Q) → always ok h (p ≫= f) Q.
Proof.
  intros Hp Hf. apply always_bind. eapply always_mono; [|exact (always_extends _ _ _ _ Hp)].
  cbn. intros h' a ((l & ->) & Hq). by apply Hf.
Qed.

Lemma steps_inv {A} (p : prog R A) tr q : steps p tr q →
  match p with
  | Ret a => tr = [] ∧ q = p
  | Do c k => (tr = [] ∧ q = p) ∨ ∃ x tr', tr = answered c x :: tr' ∧ steps (k x) tr' q
  end.
Proof. destruct 1 as [[a|c k]|c k x tr p Hs]; [done|by left|]. right. eauto. Qed.
(** A run of two programs in turn is in the first one, or in the second one
    after a run of the first to its end. *)
Lemma steps_bind {A B} (p : prog R A) (f : A → prog R B) tr q : steps (p ≫= f) tr q →
  (∃ c k, steps p tr (Do c k) ∧ q = Do c k ≫= f) ∨ (∃ a tr1 tr2, tr = tr1 ++ tr2 ∧ steps p tr1 (Ret a) ∧ steps (f a) tr2 q).
Proof.
  induction p as [a|c k IH] in tr |- *; intros Hs.
  - right. exists a, [], tr. split_and!; [done|constructor|done].
  - apply steps_inv in Hs as [(-> & ->)|(x & tr' & -> & Hs)]; [left; exists c, k; split; [constructor|done]|].
    destruct (IH x tr' Hs) as [(c1 & k1 & H1 & ->)|(a & t1 & t2 & -> & H1 & H2)]; [left; exists c1, k1; split; [by constructor|done]|right].
    exists a, (answered c x :: t1), t2. split_and!; [done|by constructor|done].
Qed.

Lemma run_steps {A S} (env : S → ∀ c, S * R c) (p : prog R A) s s' a tr :
  run env s p = (s', a, tr) → steps p tr (Ret a).
Proof.
  revert s tr. induction p as [b|c k IH]; intros s tr; cbn [run].
  - intros [= _ -> <-]. constructor.
  - destruct (env s c) as [s1 x]. destruct (run env s1 (k x)) as [[s2 b] tr'] eqn:Er. intros [= -> -> <-]. constructor. eauto.
Qed.
End runs.

(** ** What a handler answers *)

(** [httpx.WriteError]: the status, the error's type and code, the message. *)
Record problem := { p_status : Z; p_type : string; p_code : string; p_message : string }.

(** What a handler ends in: an error, or a status and a value. *)
Definition reply (B : Type) : Type := (problem + Z * B)%type.

Definition StatusOK : Z := 200.
Definition StatusCreated : Z := 201.
Definition StatusNoContent : Z := 204.
Definition StatusBadRequest : Z := 400.
Definition StatusUnauthorized : Z := 401.
Definition StatusForbidden : Z := 403.
Definition StatusNotFound : Z := 404.
Definition StatusConflict : Z := 409.
Definition StatusTooManyRequests : Z := 429.
Definition StatusInternalServerError : Z := 500.
Definition StatusNotImplemented : Z := 501.
Definition StatusBadGateway : Z := 502.

Definition invalid (status : Z) (code msg : string) : problem :=
  {| p_status := status; p_type := "invalid_request_error"; p_code := code; p_message := msg |}.

Definition forbid (msg : string) : problem :=
  {| p_status := StatusForbidden; p_type := "permission_error"; p_code := "forbidden"; p_message := msg |}.

Definition unauthorized (code msg : string) : problem := invalid StatusUnauthorized code msg.
Definition badRequest (msg : string) : problem := invalid StatusBadRequest "" msg.
Definition conflict (code msg : string) : problem := invalid StatusConflict code msg.
Definition switchedOff (code msg : string) : problem := invalid StatusNotImplemented code msg.
Definition needOrg (msg : string) : problem := invalid StatusBadRequest "org_required" msg.
Definition missing (msg : string) : problem := invalid StatusNotFound "not_found" msg.

(** What [fail] tells errors apart by. *)
Inductive failure := IsNotFound | IsMissingOrg | IsForbidden (msg : string) | IsOther (detail : string).

(** [fail], on a request with this id. *)
Definition fail (rid : string) (err : failure) : problem :=
  match err with
  | IsNotFound => missing "not found"
  | IsMissingOrg => missing "no such organisation"
  | IsForbidden msg => forbid msg
  | IsOther _ =>
      {| p_status := StatusInternalServerError; p_type := "server_error"; p_code := "";
         p_message := "internal error" +:+
           (if bool_decide (rid = "") then "" else "; quote request " +:+ rid +:+ " to whoever operates this gateway") |}
  end.
