(* ===== verification/Principals.v ===== *)
(** * Who the caller is, and what that lets them do

    [internal/authn/principal.go] and the guards of
    [internal/control/server.go] every control-plane route starts with: the
    roles, what a principal may read and administer, which organisation a
    request is for, and the role a directory gives someone. *)
From S2P Require Import Prelude GoTime Control.
Open Scope go_scope.

Definition RoleOperator : string := "operator".
Definition RoleAdmin : string := "admin".
Definition RoleMember : string := "member".

Definition Role_Valid (r : string) : bool :=
  bool_decide (r = RoleOperator) || bool_decide (r = RoleAdmin) || bool_decide (r = RoleMember).

Definition Assignable (r : string) : bool := bool_decide (r = RoleAdmin) || bool_decide (r = RoleMember).

Inductive Method := MethodOperatorKey | MethodSession | MethodCLI | MethodService.

#[export] Instance Method_eq_dec : EqDecision Method.
Proof. solve_decision. Defined.

Definition ServiceActor : string := "keera-agents".

Record Principal := {
  Via : Method;
  P_UserID : string;
  P_Email : string;
  P_Name : string;
  P_Role : string;
  P_OrgID : string;
  CSRF : string;
  CredentialHash : string;
  SignedInAt : Z;
}.

#[export] Instance Principal_updatable : Updatable Principal := λ p,
  {| Via := Via p; P_UserID := P_UserID p; P_Email := P_Email p; P_Name := P_Name p; P_Role := P_Role p; P_OrgID := P_OrgID p;
     CSRF := CSRF p; CredentialHash := CredentialHash p; SignedInAt := SignedInAt p |}.

(** [Principal] with nothing but how it came in and its role. *)
Definition bare (via : Method) (role : string) : Principal :=
  {| Via := via; P_UserID := ""; P_Email := ""; P_Name := ""; P_Role := role; P_OrgID := ""; CSRF := "";
     CredentialHash := ""; SignedInAt := time_zero |}.

Definition Actor (p : Principal) : string :=
  match Via p with
  | MethodOperatorKey => "operator key"
  | MethodService => ServiceActor
  | _ => if bool_decide (P_Email p = "") then P_UserID p else P_Email p
  end.

Definition Unrestricted (p : Principal) : bool :=
  bool_decide (Via p = MethodOperatorKey) || bool_decide (P_Role p = RoleOperator).

Definition inOrg (p : Principal) (orgID : string) : bool :=
  negb (bool_decide (orgID = "")) && bool_decide (orgID = P_OrgID p).

Definition CanReadOrg (p : Principal) (orgID : string) : bool := Unrestricted p || inOrg p orgID.

Definition CanAdminOrg (p : Principal) (orgID : string) : bool :=
  Unrestricted p || (bool_decide (P_Role p = RoleAdmin) && inOrg p orgID).

Definition CanManageKeyFor (p : Principal) (orgID userID : string) : bool :=
  CanAdminOrg p orgID ||
  (bool_decide (P_Role p = RoleMember) && inOrg p orgID && negb (bool_decide (P_UserID p = "")) &&
   bool_decide (userID = P_UserID p)).

Definition not_permitted (msg : string) : string := "authn: not permitted: " +:+ msg.

(** [ScopeOrg]: the message of an [ErrForbidden], or the organisation. *)
Definition ScopeOrg (p : Principal) (requested : string) : string + string :=
  if Unrestricted p then inr requested
  else if bool_decide (P_OrgID p = "") then inl (not_permitted "this account is not attached to an organisation")
  else if negb (bool_decide (requested = "")) && negb (bool_decide (requested = P_OrgID p))
  then inl (not_permitted "this account can only see its own organisation")
  else inr (P_OrgID p).

(** ** The guards of the routes *)

Definition scopeOrg (p : Principal) (requested : string) : problem + string :=
  match ScopeOrg p requested with inl msg => inl (forbid msg) | inr orgID => inr orgID end.

Definition orgRequired : string := "choose an organisation: pass org_id, or run 'keera org switch' first".

Definition requireOrg (p : Principal) (requested msg : string) : problem + string :=
  match scopeOrg p requested with
  | inl e => inl e
  | inr orgID => if bool_decide (orgID = "") then inl (needOrg msg) else inr orgID
  end.

Definition queryOrg (p : Principal) (org_id : string) : problem + string := requireOrg p org_id orgRequired.

Definition requireOrgAdmin (p : Principal) (orgID : string) : option problem :=
  if CanAdminOrg p orgID then None else Some (forbid "only an administrator of this organisation can do that").

Definition orgToAdmin (p : Principal) (requested : string) : problem + string :=
  match requireOrg p requested orgRequired with
  | inl e => inl e
  | inr orgID => match requireOrgAdmin p orgID with Some e => inl e | None => inr orgID end
  end.

Definition adminOrg (p : Principal) (org_id : string) : problem + string := orgToAdmin p org_id.

Definition requireAdmin (p : Principal) : option problem := requireOrgAdmin p (P_OrgID p).

Definition requireOwnerRead (rid : string) (p : Principal) (owner : string) : option problem :=
  if CanReadOrg p owner then None else Some (fail rid IsNotFound).

Definition requireOwnerAdmin (rid : string) (p : Principal) (owner : string) : option problem :=
  match requireOwnerRead rid p owner with Some e => Some e | None => requireOrgAdmin p owner end.

(** [store.AnyOrg] and [writeOrg]. *)
Definition AnyOrg : string := "*".

Definition writeOrg (p : Principal) : string := if Unrestricted p then AnyOrg else P_OrgID p.

Definition requireService (p : Principal) : option problem :=
  if bool_decide (Via p = MethodService) then None else Some (forbid "this route is for Keera Agents' server only").

(** ** The role a directory gives *)

Record RoleMapping := {
  OperatorGroups : list string;
  AdminGroups : list string;
  OperatorEmails : list string;
  Default : string;
}.

Definition anyNonBlank (ss : list string) : bool := existsb (λ s, negb (bool_decide (TrimSpace s = ""))) ss.

Definition UsesGroups (m : RoleMapping) : bool := anyNonBlank (OperatorGroups m) || anyNonBlank (AdminGroups m).
Definition DecidesAdmin (m : RoleMapping) : bool := anyNonBlank (AdminGroups m).

(** [strings.EqualFold], by Unicode's tables. *)
Class Folding := { EqualFold : string → string → bool }.

Section roles.
Context `{Folding}.

Definition containsFold (have want : list string) : bool :=
  existsb (λ w, let w := TrimSpace w in
    negb (bool_decide (w = "")) && existsb (λ h, EqualFold (TrimSpace h) w) have) want.

Definition RoleFor (m : RoleMapping) (email : string) (groups : list string) : string :=
  if containsFold groups (OperatorGroups m) then RoleOperator
  else if existsb (λ e, EqualFold (TrimSpace e) email) (OperatorEmails m) then RoleOperator
  else if containsFold groups (AdminGroups m) then RoleAdmin
  else if Assignable (Default m) then Default m else RoleMember.
End roles.

(** *** What the guards promise *)

Section guards.
Implicit Types (p : Principal).

(** What an unrestricted caller is not held to: their own organisation. *)
Definition own_or_any p (orgID : string) : Prop := Unrestricted p = true ∨ orgID = P_OrgID p.

Lemma inOrg_spec p orgID : inOrg p orgID = true ↔ orgID ≠ "" ∧ orgID = P_OrgID p.
Proof. unfold inOrg. rewrite andb_true_iff, negb_true_iff, bool_decide_eq_false, bool_decide_eq_true. done. Qed.

Lemma CanAdminOrg_spec p orgID : CanAdminOrg p orgID = true ↔
  Unrestricted p = true ∨ (P_Role p = RoleAdmin ∧ orgID ≠ "" ∧ orgID = P_OrgID p).
Proof. unfold CanAdminOrg. rewrite orb_true_iff, andb_true_iff, bool_decide_eq_true, inOrg_spec. done. Qed.

Lemma CanReadOrg_spec p orgID : CanReadOrg p orgID = true ↔
  Unrestricted p = true ∨ (orgID ≠ "" ∧ orgID = P_OrgID p).
Proof. unfold CanReadOrg. by rewrite orb_true_iff, inOrg_spec. Qed.

Lemma scopeOrg_own p requested orgID : scopeOrg p requested = inr orgID →
  (Unrestricted p = true ∧ orgID = requested) ∨
  (Unrestricted p = false ∧ orgID = P_OrgID p ∧ orgID ≠ "" ∧ (requested = "" ∨ requested = P_OrgID p)).
Proof.
  unfold scopeOrg, ScopeOrg. destruct (Unrestricted p); [intros [= <-]; by left|].
  case_bool_decide as Ho; [done|]. destruct (negb _ && negb _) eqn:Hr; [done|]. intros [= <-]. right. split_and!; [done..|].
  apply andb_false_iff in Hr as [Hr|Hr]; apply negb_false_iff, bool_decide_eq_true in Hr; auto.
Qed.

Lemma requireOrg_own p requested msg orgID : requireOrg p requested msg = inr orgID →
  orgID ≠ "" ∧ own_or_any p orgID ∧ (requested = "" ∨ requested = orgID).
Proof.
  unfold requireOrg. destruct (scopeOrg p requested) as [e|o] eqn:Hs; [done|]. case_bool_decide; [done|]. intros [= <-].
  unfold own_or_any. destruct (scopeOrg_own _ _ _ Hs) as [(? & ?)|(? & ? & ? & [?|?])]; subst; naive_solver.
Qed.

Lemma adminOrg_own p requested orgID : adminOrg p requested = inr orgID →
  orgID ≠ "" ∧ CanAdminOrg p orgID = true ∧ (requested = "" ∨ requested = orgID).
Proof.
  unfold adminOrg, orgToAdmin, requireOrgAdmin. destruct (requireOrg p requested orgRequired) as [e|o] eqn:Hr; [done|].
  destruct (CanAdminOrg p o) eqn:Ha; [|done]. intros [= <-]. destruct (requireOrg_own _ _ _ _ Hr) as (? & _ & ?). done.
Qed.

(** No guard lets a caller past towards another organisation's data: unless the caller is unrestricted (the operator key, or an operator), the organisation a route works on is the caller's own, whatever the request names; one that changes something, or lists what administrators see, takes an administrator of it; and another organisation's thing named by its id is answered exactly like one that does not exist. *)
Theorem guards_keep_tenants_apart p requested orgID msg rid :
  Unrestricted p = false →
  (scopeOrg p requested = inr orgID → orgID = P_OrgID p) ∧
  (requireOrg p requested msg = inr orgID → orgID = P_OrgID p ∧ orgID ≠ "") ∧
  (adminOrg p requested = inr orgID → orgID = P_OrgID p ∧ P_Role p = RoleAdmin) ∧
  (requireAdmin p = None → P_Role p = RoleAdmin ∧ P_OrgID p ≠ "") ∧
  (requireOwnerRead rid p orgID = None ↔ orgID ≠ "" ∧ orgID = P_OrgID p) ∧
  (orgID ≠ P_OrgID p → requireOwnerAdmin rid p orgID = Some (fail rid IsNotFound)) ∧
  (requireOwnerAdmin rid p orgID = None → orgID = P_OrgID p ∧ P_Role p = RoleAdmin) ∧
  writeOrg p = P_OrgID p.
Proof.
  intros Hu. assert (∀ o, CanAdminOrg p o = true → P_Role p = RoleAdmin ∧ o ≠ "" ∧ o = P_OrgID p) as Hadm.
  { intros o Ho. apply CanAdminOrg_spec in Ho as [Ho|Ho]; [congruence|done]. }
  split_and!.
  - intros Hs. destruct (scopeOrg_own _ _ _ Hs) as [(? & _)|(_ & ? & _)]; congruence.
  - intros Hr. destruct (requireOrg_own _ _ _ _ Hr) as (? & [?|?] & _); [congruence|done].
  - intros Ha. destruct (adminOrg_own _ _ _ Ha) as (_ & Hc & _). by destruct (Hadm _ Hc) as (? & _ & ?).
  - unfold requireAdmin, requireOrgAdmin. destruct (CanAdminOrg p (P_OrgID p)) eqn:Ha; [|done]. intros _. by destruct (Hadm _ Ha) as (? & ? & _).
  - unfold requireOwnerRead. destruct (CanReadOrg p orgID) eqn:Hc.
    + apply CanReadOrg_spec in Hc as [|Hc]; [congruence|]. done.
    + split; [done|]. intros Ho. assert (CanReadOrg p orgID = true) by (apply CanReadOrg_spec; by right). congruence.
  - intros Hne. unfold requireOwnerAdmin, requireOwnerRead. destruct (CanReadOrg p orgID) eqn:Hc; [|done].
    apply CanReadOrg_spec in Hc as [?|(_ & ?)]; congruence.
  - unfold requireOwnerAdmin, requireOwnerRead, requireOrgAdmin. destruct (CanReadOrg p orgID); [|done].
    destruct (CanAdminOrg p orgID) eqn:Ha; [|done]. intros _. by destruct (Hadm _ Ha) as (? & _ & ?).
  - unfold writeOrg. by rewrite Hu.
Qed.

(** A member manages exactly their own keys, in their own organisation, and never a key that is nobody's; the service key of Keera Agents administers nothing and reads no organisation. *)
Theorem CanManageKeyFor_exact p orgID userID :
  (P_Role p = RoleMember → Via p ≠ MethodOperatorKey →
   (CanManageKeyFor p orgID userID = true ↔
    orgID ≠ "" ∧ orgID = P_OrgID p ∧ userID ≠ "" ∧ userID = P_UserID p)) ∧
  (p = bare MethodService "" → CanManageKeyFor p orgID userID = false ∧ CanReadOrg p orgID = false ∧
   ∃ e, scopeOrg p orgID = inl e).
Proof.
  split.
  - intros Hr Hv. unfold CanManageKeyFor, CanAdminOrg, Unrestricted. rewrite Hr.
    rewrite (bool_decide_eq_false_2 _ Hv), (bool_decide_eq_false_2 (RoleMember = RoleOperator)),
      (bool_decide_eq_false_2 (RoleMember = RoleAdmin)), (bool_decide_eq_true_2 (RoleMember = RoleMember)) by done.
    cbn. rewrite !andb_true_iff, inOrg_spec, negb_true_iff, bool_decide_eq_false, bool_decide_eq_true. naive_solver.
  - intros ->. assert (inOrg (bare MethodService "") orgID = false) as Hi.
    { apply not_true_is_false. rewrite inOrg_spec. cbn. tauto. }
    unfold CanManageKeyFor, CanAdminOrg, CanReadOrg. rewrite Hi. cbn. split_and!; [done..|]. eexists. vm_compute. reflexivity.
Qed.
End guards.

Section mapping.
Context `{Folding}.

Lemma Assignable_spec r : Assignable r = true ↔ r = RoleAdmin ∨ r = RoleMember.
Proof. unfold Assignable. by rewrite orb_true_iff, !bool_decide_eq_true. Qed.

(** A blank name matches nobody. *)
Lemma containsFold_spec have want : containsFold have want = true ↔
  ∃ w h, w ∈ want ∧ h ∈ have ∧ TrimSpace w ≠ "" ∧ EqualFold (TrimSpace h) (TrimSpace w) = true.
Proof.
  unfold containsFold. rewrite existsb_exists. split.
  - intros (w & Hw & Hb). apply andb_true_iff in Hb as (Hn & Hh). apply negb_true_iff, bool_decide_eq_false in Hn.
    apply existsb_exists in Hh as (h & Hh & He). exists w, h. rewrite !list_elem_of_In. done.
  - intros (w & h & Hw & Hh & Hn & He). exists w. rewrite list_elem_of_In in Hw. split; [done|].
    rewrite andb_true_iff, negb_true_iff, bool_decide_eq_false. split; [done|]. apply existsb_exists. exists h.
    by rewrite list_elem_of_In in Hh.
Qed.

(** Only a group or an address the operator configured makes an operator: whatever the default role says, RoleFor answers operator exactly for someone in a named operator group or at an address of KEERA_OPERATORS; it always answers a valid role; and a mapping that names no group reads none. *)
Theorem RoleFor_operator m email groups :
  (RoleFor m email groups = RoleOperator ↔
   (∃ w h, w ∈ OperatorGroups m ∧ h ∈ groups ∧ TrimSpace w ≠ "" ∧ EqualFold (TrimSpace h) (TrimSpace w) = true) ∨
   (∃ e, e ∈ OperatorEmails m ∧ EqualFold (TrimSpace e) email = true)) ∧
  Role_Valid (RoleFor m email groups) = true ∧
  (UsesGroups m = false → ∀ groups', RoleFor m email groups' = RoleFor m email groups).
Proof.
  assert (∀ ss gs, anyNonBlank ss = false → containsFold gs ss = false) as Hblank.
  { intros ss gs Hs. apply not_true_is_false. rewrite containsFold_spec. intros (w & h & Hw & _ & Hn & _).
    unfold anyNonBlank in Hs. assert (existsb (λ s, negb (bool_decide (TrimSpace s = ""))) ss = true); [|congruence].
    apply existsb_exists. exists w. rewrite <- list_elem_of_In, negb_true_iff, bool_decide_eq_false. done. }
  split_and!.
  - rewrite <- containsFold_spec. unfold RoleFor. destruct (containsFold groups (OperatorGroups m)); [naive_solver|].
    destruct (existsb _ (OperatorEmails m)) eqn:He.
    + split; [|done]. intros _. right. apply existsb_exists in He as (e & Hin & He). exists e. by rewrite list_elem_of_In.
    + split.
      * destruct (containsFold groups (AdminGroups m)); [done|]. destruct (Assignable (Default m)) eqn:Hd; [|done].
        intros Ho. apply Assignable_spec in Hd. rewrite Ho in Hd. by destruct Hd.
      * intros [?|(e & Hin & Hf)]; [done|]. apply not_true_iff_false in He. exfalso. apply He. apply existsb_exists. exists e.
        by rewrite <- list_elem_of_In.
  - unfold RoleFor. destruct (containsFold _ _); [done|]. destruct (existsb _ _); [done|]. destruct (containsFold _ _); [done|].
    destruct (Assignable (Default m)) eqn:Hd; [|done]. by apply Assignable_spec in Hd as [-> | ->].
  - intros Hg groups'. apply orb_false_iff in Hg as (Ho & Ha). unfold RoleFor. by rewrite !Hblank.
Qed.
End mapping.

(** *** Witnesses *)

Definition sample_admin : Principal := (bare MethodSession RoleAdmin) <| P_OrgID := "org_1" |> <| P_UserID := "user_1" |>.
Definition sample_member : Principal := (bare MethodCLI RoleMember) <| P_OrgID := "org_1" |> <| P_UserID := "user_2" |>.

Lemma guards_keep_tenants_apart_witness :
  adminOrg sample_admin "" = inr "org_1" ∧ (∃ e, adminOrg sample_admin "org_2" = inl e) ∧
  requireOwnerAdmin "r" sample_admin "org_2" = Some (fail "r" IsNotFound) ∧ writeOrg sample_admin = "org_1".
Proof.
  destruct (guards_keep_tenants_apart sample_admin "" "org_2" "" "r" eq_refl) as (_ & _ & _ & _ & _ & Ho & _ & Hw).
  split; [vm_compute; reflexivity|]. split; [eexists; vm_compute; reflexivity|]. split; [apply Ho; discriminate|exact Hw].
Defined.

Lemma CanManageKeyFor_exact_witness :
  CanManageKeyFor sample_member "org_1" "user_2" = true ∧ CanManageKeyFor sample_member "org_1" "" = false ∧
  ("org_1" ≠ "" ∧ "org_1" = P_OrgID sample_member ∧ "user_2" ≠ "" ∧ "user_2" = P_UserID sample_member).
Proof.
  split; [vm_compute; reflexivity|]. split; [vm_compute; reflexivity|].
  apply (CanManageKeyFor_exact sample_member "org_1" "user_2"); [reflexivity|discriminate|vm_compute; reflexivity].
Defined.
