(* ===== verification/Pricing.v ===== *)
(** * Models, prices and bills

    [Model], [Tokens], [PriceTier] and [Cost] of [internal/policy/policy.go],
    and the bill lines of [internal/policy/billing.go]. Money is in
    micro-units and counts are Go integers: every product and sum is the
    64-bit one. *)
From S2P Require Import Prelude Tenancy.
Open Scope go_scope.

(** ** Data *)

Record PriceTier := {
  AboveTokens : Z;
  InputMicros : Z;
  OutputMicros : Z;
  CachedInputMicros : Z;
  CacheWriteMicros : Z;
}.

Record Billing := {
  Billing_Provider : string;
  Billing_Credit : bool;
  FeeMicrosPerMTok : Z;
  Billing_AtProvider : bool;
}.

(** [Model]. A nil pointer is [None]; the sealed credential is its bytes. *)
Record Model := {
  Alias : string;
  OrgID : string;
  Kind : string;
  Backends : list string;
  BackendModel : string;
  Provider : string;
  DisplayName : string;
  Description : string;
  InputMicrosPerMTok : Z;
  OutputMicrosPerMTok : Z;
  CachedInputMicrosPerMTok : Z;
  CacheWriteMicrosPerMTok : Z;
  LongPrompt : option PriceTier;
  MaxContext : Z;
  ReleaseDate : string;
  Location : string;
  APIKeyCiphertext : string;
  APIKey : string;
  HasAPIKey : bool;
  Subscription : bool;
  PlatformKey : bool;
  Model_Billing : option Billing;
  Limited : bool;
  Locked : bool;
  OrgName : string;
  Enabled : bool;
}.

Record Tokens := {
  Input : Z;
  CachedInput : Z;
  CacheWrite : Z;
  CacheWriteHour : Z;
  Output : Z;
}.

Record BillLine := {
  Bill_Alias : string;
  Bill_Provider : string;
  Bill_BackendModel : string;
  InputTokens : Z;
  CachedInputTokens : Z;
  CacheWriteTokens : Z;
  OutputTokens : Z;
  Micros : Z;
  CreditMicros : Z;
  GatewayFee : bool;
}.

#[export] Instance PriceTier_eq_dec : EqDecision PriceTier.
Proof. solve_decision. Defined.
#[export] Instance Billing_eq_dec : EqDecision Billing.
Proof. solve_decision. Defined.
#[export] Instance Tokens_eq_dec : EqDecision Tokens.
Proof. solve_decision. Defined.
#[export] Instance BillLine_eq_dec : EqDecision BillLine.
Proof. solve_decision. Defined.

(** The zero [Model]. *)
Definition Model_zero : Model :=
  {| Alias := ""; OrgID := ""; Kind := ""; Backends := []; BackendModel := ""; Provider := "";
     DisplayName := ""; Description := ""; InputMicrosPerMTok := 0; OutputMicrosPerMTok := 0;
     CachedInputMicrosPerMTok := 0; CacheWriteMicrosPerMTok := 0; LongPrompt := None;
     MaxContext := 0; ReleaseDate := ""; Location := ""; APIKeyCiphertext := ""; APIKey := "";
     HasAPIKey := false; Subscription := false; PlatformKey := false; Model_Billing := None;
     Limited := false; Locked := false; OrgName := ""; Enabled := false |}.

(** ** Keys and prices *)

Definition ModelKey (orgID alias : string) : string := orgID +:+ "/" +:+ alias.

Definition Model_Key (m : Model) : string := ModelKey (OrgID m) (Alias m).

(** [Tokens.clamped]. *)
Definition clamped (t : Tokens) : Tokens :=
  let cached := Z.min (Z.max (CachedInput t) 0) (Input t) in
  let write := Z.min (Z.max (CacheWrite t) 0) (Input t ⊖ cached) in
  let hour := Z.min (Z.max (CacheWriteHour t) 0) write in
  {| Input := Input t; CachedInput := cached; CacheWrite := write;
     CacheWriteHour := hour; Output := Output t |}.

(** [Model.prices]. *)
Definition prices (m : Model) (inputTokens : Z) : PriceTier :=
  let own := {| AboveTokens := 0; InputMicros := InputMicrosPerMTok m;
                OutputMicros := OutputMicrosPerMTok m;
                CachedInputMicros := CachedInputMicrosPerMTok m;
                CacheWriteMicros := CacheWriteMicrosPerMTok m |} in
  match LongPrompt m with
  | Some t => if inputTokens >? AboveTokens t then t else own
  | None => own
  end.

(** [PriceTier.Check], with the refusal as [Some]. *)
Definition PriceTier_Check (t : PriceTier) : option string :=
  if AboveTokens t <=? 0
  then Some "long_prompt needs above_tokens, the longest prompt charged the normal prices"
  else None.

Definition cachedInputMicros (t : PriceTier) : Z :=
  if CachedInputMicros t =? 0 then InputMicros t else CachedInputMicros t.

Definition cacheWriteMicros (t : PriceTier) : Z :=
  if CacheWriteMicros t =? 0 then InputMicros t else CacheWriteMicros t.

Definition perM : Z := 1000000.

(** [Model.Cost]: one division, so the total is rounded down once. *)
Definition Cost (m : Model) (t : Tokens) : Z :=
  let t := clamped t in
  let p := prices m (Input t) in
  quot64
    ((Input t ⊖ CachedInput t ⊖ CacheWrite t) ⊗ InputMicros p ⊕
     CachedInput t ⊗ cachedInputMicros p ⊕
     (CacheWrite t ⊖ CacheWriteHour t) ⊗ cacheWriteMicros p ⊕
     CacheWriteHour t ⊗ 2 ⊗ InputMicros p ⊕
     Output t ⊗ OutputMicros p) perM.

(** ** Bills *)

(** [Model.CountsTokens]. *)
Definition CountsTokens (m : Model) : bool :=
  match Model_Billing m with
  | None => false
  | Some b => (FeeMicrosPerMTok b >? 0) && negb (Billing_AtProvider b)
  end.

Definition SelfHosted (m : Model) : bool := bool_decide (Provider m = "").

(** [Model.line]; the source reads [m.Billing], which its callers have checked. *)
Definition line (m : Model) (b : Billing) (t : Tokens) (micros : Z) : BillLine :=
  {| Bill_Alias := Alias m; Bill_Provider := Billing_Provider b;
     Bill_BackendModel := BackendModel m;
     InputTokens := Input t; CachedInputTokens := CachedInput t;
     CacheWriteTokens := CacheWrite t; OutputTokens := Output t;
     Micros := micros; CreditMicros := if Billing_Credit b then micros else 0;
     GatewayFee := false |}.

(** [Model.fee]. *)
Definition fee (m : Model) (b : Billing) (reported counted : Tokens) : BillLine :=
  let t := clamped (if CountsTokens m then counted else reported) in
  let l := line m b t (quot64 ((Input t ⊕ Output t) ⊗ FeeMicrosPerMTok b) perM) in
  {| Bill_Alias := Bill_Alias l; Bill_Provider := Bill_Provider l;
     Bill_BackendModel :=
       if bool_decide (Bill_BackendModel l = "") then Alias m else Bill_BackendModel l;
     InputTokens := InputTokens l; CachedInputTokens := CachedInputTokens l;
     CacheWriteTokens := CacheWriteTokens l; OutputTokens := OutputTokens l;
     Micros := Micros l; CreditMicros := CreditMicros l; GatewayFee := true |}.

(** [Model.Bill]; [None] when the call is not billed. *)
Definition Bill (m : Model) (reported counted : Tokens) : option BillLine :=
  match Model_Billing m with
  | None => None
  | Some b =>
      if FeeMicrosPerMTok b >? 0 then Some (fee m b reported counted)
      else if Subscription m then None
      else let t := clamped reported in Some (line m b t (Cost m t))
  end.

(** A model with its own prices replaced and no long-prompt tier. *)
Definition set_prices (m : Model) (input output cached write : Z) : Model :=
  {| Alias := Alias m; OrgID := OrgID m; Kind := Kind m; Backends := Backends m;
     BackendModel := BackendModel m; Provider := Provider m; DisplayName := DisplayName m;
     Description := Description m; InputMicrosPerMTok := input; OutputMicrosPerMTok := output;
     CachedInputMicrosPerMTok := cached; CacheWriteMicrosPerMTok := write; LongPrompt := None;
     MaxContext := MaxContext m; ReleaseDate := ReleaseDate m; Location := Location m;
     APIKeyCiphertext := APIKeyCiphertext m; APIKey := APIKey m; HasAPIKey := HasAPIKey m;
     Subscription := Subscription m; PlatformKey := PlatformKey m;
     Model_Billing := Model_Billing m; Limited := Limited m; Locked := Locked m;
     OrgName := OrgName m; Enabled := Enabled m |}.

(** [Model.PriceAtFee]: the model it leaves, and whether it changed it. *)
Definition PriceAtFee (m : Model) (fee : Z) : Model * bool :=
  if negb (SelfHosted m) then (m, false) else (set_prices m fee fee fee fee, true).

(** ** Costs *)

(** The exact cost, before the division: what [Cost] computes when nothing
    wraps. *)
Definition exact_micros (p : PriceTier) (t : Tokens) : Z :=
  (Input t - CachedInput t - CacheWrite t) * InputMicros p +
  CachedInput t * cachedInputMicros p +
  (CacheWrite t - CacheWriteHour t) * cacheWriteMicros p +
  2 * (CacheWriteHour t * InputMicros p) +
  Output t * OutputMicros p.

(** Counts a provider can report sensibly: some prompt and answer, whatever it
    says of its cache. *)
Definition counts_within (T : Z) (t : Tokens) : Prop :=
  0 <= Input t <= T ∧ 0 <= Output t <= T.

Definition tier_within (P : Z) (p : PriceTier) : Prop :=
  0 <= InputMicros p <= P ∧ 0 <= OutputMicros p <= P ∧
  0 <= CachedInputMicros p <= P ∧ 0 <= CacheWriteMicros p <= P.

(** Every price the model may charge at is between 0 and [P]. *)
Definition prices_within (P : Z) (m : Model) : Prop :=
  ∀ n, tier_within P (prices m n).

(** The counts after [clamped]: the cache counts partition the input. *)
Definition clamped_counts (t : Tokens) : Prop :=
  0 <= CachedInput t ∧ 0 <= CacheWriteHour t <= CacheWrite t ∧
  CachedInput t + CacheWrite t <= Input t ∧ 0 <= Output t.

Section costs.
Context (T P : Z) (HTP : 3 * T * P < two63) (HP : 1 <= P).
Implicit Types (m : Model) (t : Tokens) (p : PriceTier).

Lemma clamped_exact t :
  in_int64 (Input t) → 0 <= Input t →
  clamped t =
    let cached := Z.min (Z.max (CachedInput t) 0) (Input t) in
    let write := Z.min (Z.max (CacheWrite t) 0) (Input t - cached) in
    {| Input := Input t; CachedInput := cached; CacheWrite := write;
       CacheWriteHour := Z.min (Z.max (CacheWriteHour t) 0) write; Output := Output t |}.
Proof. intros. unfold clamped. unwrap int_range. done. Qed.

Lemma clamped_bounds t :
  in_int64 (Input t) → 0 <= Input t → 0 <= Output t → clamped_counts (clamped t).
Proof. intros. rewrite clamped_exact by done. unfold clamped_counts. simpl. lia. Qed.

Lemma clamped_id t : in_int64 (Input t) → clamped_counts t → clamped t = t.
Proof.
  intros H (H1 & H2 & H3 & H4). rewrite clamped_exact by (done || lia).
  destruct t; simpl in *. f_equal; lia.
Qed.

Lemma clamped_idem t :
  in_int64 (Input t) → 0 <= Input t → 0 <= Output t → clamped (clamped t) = clamped t.
Proof. intros. apply clamped_id; [done|]. by apply clamped_bounds. Qed.

Lemma tier_fallback p :
  tier_within P p → 0 <= cachedInputMicros p <= P ∧ 0 <= cacheWriteMicros p <= P.
Proof. unfold tier_within, cachedInputMicros, cacheWriteMicros. repeat case_match; lia. Qed.

(** The exact cost is at most every input token written for an hour. *)
Lemma exact_micros_bound p t :
  clamped_counts t → tier_within P p →
  0 <= exact_micros p t <= 2 * (Input t * P) + Output t * P.
Proof.
  intros (H1 & H2 & H3 & H4) Hp. pose proof (tier_fallback p Hp) as [Hc Hw].
  destruct Hp as (Hi & Ho & _ & _). unfold exact_micros.
  assert (0 <= (Input t - CachedInput t - CacheWrite t) * InputMicros p
          <= (Input t - CachedInput t - CacheWrite t) * P) by nia.
  assert (0 <= CachedInput t * cachedInputMicros p <= CachedInput t * P) by nia.
  assert (0 <= (CacheWrite t - CacheWriteHour t) * cacheWriteMicros p
          <= (CacheWrite t - CacheWriteHour t) * P) by nia.
  assert (0 <= CacheWriteHour t * InputMicros p <= CacheWriteHour t * P) by nia.
  assert (0 <= Output t * OutputMicros p <= Output t * P) by nia.
  nia.
Qed.

Lemma perM_quot z : 0 <= z < two63 → quot64 z perM = z / perM.
Proof.
  intros H. unfold quot64, perM. rewrite Z.quot_div_nonneg by lia.
  apply wrap64_id. unfold in_int64, two63 in *.
  pose proof (Z.div_pos z 1000000). pose proof (Z.div_le_upper_bound z 1000000 z). lia.
Qed.

Lemma counts_small : 3 * T < two63.
Proof. destruct (decide (T < 0)); [unfold two63; lia|nia]. Qed.

(** [Cost] without the wrap-around. *)
Lemma Cost_exact m t :
  counts_within T t → prices_within P m →
  Cost m t = exact_micros (prices m (Input t)) (clamped t) / perM.
Proof.
  intros [Hi Ho] Hp. unfold Cost. pose proof counts_small as HT.
  assert (in_int64 (Input t)) as H64 by (unfold in_int64; lia).
  pose proof (clamped_bounds t H64 ltac:(lia) ltac:(lia)) as Hc.
  assert (Input (clamped t) = Input t) as HI by done.
  assert (Output (clamped t) = Output t) as HO by done.
  rewrite HI. set (p := prices m (Input t)) in *. set (c := clamped t) in *.
  pose proof (Hp (Input t)) as Ht. fold p in Ht.
  pose proof (exact_micros_bound p c Hc Ht) as Hb.
  pose proof (tier_fallback p Ht) as [Hci Hcw].
  destruct Hc as (H1 & H2 & H3 & H4), Ht as (Hpi & Hpo & _ & _).
  rewrite HI, HO in *. clearbody c p. rewrite <- HI in *.
  assert (Input c * P <= T * P ∧ Output t * P <= T * P) as [HTi HTo] by nia.
  unfold exact_micros in *. rewrite HO in *.
  assert (0 <= (Input c - CachedInput c - CacheWrite c) * InputMicros p) as G1 by nia.
  assert (0 <= CachedInput c * cachedInputMicros p) as G2 by nia.
  assert (0 <= (CacheWrite c - CacheWriteHour c) * cacheWriteMicros p) as G3 by nia.
  assert (0 <= CacheWriteHour c * InputMicros p) as G4 by nia.
  assert (0 <= Output t * OutputMicros p) as G5 by nia.
  replace (CacheWriteHour c ⊗ 2 ⊗ InputMicros p) with (wrap64 (2 * (CacheWriteHour c * InputMicros p)))
    by (unwrap int_range; ring).
  unwrap int_range.
  apply perM_quot. lia.
Qed.

Lemma Cost_bounds m t :
  counts_within T t → prices_within P m →
  0 <= Cost m t <= (2 * (Input t * P) + Output t * P) / perM.
Proof.
  intros Hc Hp. rewrite Cost_exact by done. pose proof counts_small as HT.
  pose proof Hc as [Hi Ho].
  assert (clamped_counts (clamped t)) as Hcl
    by (apply clamped_bounds; [unfold in_int64|..]; lia).
  pose proof (exact_micros_bound _ _ Hcl (Hp (Input t))) as Hb.
  change (Input (clamped t)) with (Input t) in Hb.
  change (Output (clamped t)) with (Output t) in Hb.
  split; [apply Z.div_pos|apply Z.div_le_mono]; unfold perM; lia.
Qed.
End costs.

Lemma fee_micros m b reported counted :
  let t := if CountsTokens m then counted else reported in
  Micros (fee m b reported counted) =
  quot64 ((Input t ⊕ Output t) ⊗ FeeMicrosPerMTok b) perM.
Proof. done. Qed.

Lemma fee_exact T f t :
  1 <= f → 3 * T * f < two63 → counts_within T t →
  quot64 ((Input t ⊕ Output t) ⊗ f) perM = (Input t + Output t) * f / perM.
Proof.
  intros Hf HT [Hi Ho]. pose proof (counts_small T f HT Hf).
  assert (0 <= (Input t + Output t) * f < two63) as Hr by (split; nia).
  unwrap ltac:(unfold in_int64, two63 in *; lia). by apply perM_quot.
Qed.

(** With one price for every token, the classes do not matter. *)
Lemma flat_micros p t f :
  0 <= Input t → 0 <= Output t → CacheWriteHour t <= 0 → in_int64 (Input t) →
  (InputMicros p = f ∧ OutputMicros p = f ∧ cachedInputMicros p = f ∧ cacheWriteMicros p = f) →
  exact_micros p (clamped t) = (Input t + Output t) * f.
Proof.
  intros Hi Ho Hh H64 (H1 & H2 & H3 & H4). rewrite clamped_exact by done.
  unfold exact_micros. simpl. rewrite H1, H2, H3, H4.
  assert (Z.min (Z.max (CacheWriteHour t) 0)
            (Z.min (Z.max (CacheWrite t) 0) (Input t - Z.min (Z.max (CachedInput t) 0) (Input t)))
          = 0) as -> by lia.
  ring.
Qed.

(** ** Properties *)

(** for a nonnegative prompt and answer, whatever cache counts the
    provider reports, [Cost] overflows nowhere: it is the exact sum of the
    five token classes at their prices, rounded down once; it is never
    negative, so it cannot refund a budget, and it is at most the whole prompt
    written to the hour cache plus the answer. *)
Theorem Cost_charge (T P : Z) (m : Model) (t : Tokens) :
  1 <= P → 3 * T * P < two63 → counts_within T t → prices_within P m →
  Cost m t = exact_micros (prices m (Input t)) (clamped t) / perM ∧
  0 <= Cost m t <= (2 * (Input t * P) + Output t * P) / perM.
Proof.
  intros HP HTP Hc Hp. split; [by apply (Cost_exact T P)|by apply (Cost_bounds T P)].
Qed.

(** A model of a provider with an hour cache and a long-prompt tier, and a
    usage record whose cache counts exceed its prompt. *)
Definition sample_model : Model :=
  {| Alias := "sonnet"; OrgID := "org_1"; Kind := KindChat; Backends := ["https://api.example"];
     BackendModel := "sonnet-5"; Provider := "anthropic"; DisplayName := ""; Description := "";
     InputMicrosPerMTok := 3000000; OutputMicrosPerMTok := 15000000;
     CachedInputMicrosPerMTok := 300000; CacheWriteMicrosPerMTok := 3750000;
     LongPrompt := Some {| AboveTokens := 200000; InputMicros := 6000000;
                           OutputMicros := 22500000; CachedInputMicros := 600000;
                           CacheWriteMicros := 7500000 |};
     MaxContext := 1000000; ReleaseDate := ""; Location := "usa"; APIKeyCiphertext := "";
     APIKey := ""; HasAPIKey := true; Subscription := false; PlatformKey := false;
     Model_Billing := None; Limited := false; Locked := false; OrgName := ""; Enabled := true |}.

Definition sample_usage : Tokens :=
  {| Input := 100000; CachedInput := 90000; CacheWrite := 50000; CacheWriteHour := 70000;
     Output := 2000 |}.

Lemma Cost_charge_witness :
  Cost sample_model sample_usage = 117000 ∧
  0 <= Cost sample_model sample_usage <= (2 * (100000 * 22500000) + 2000 * 22500000) / perM.
Proof.
  split; [vm_compute; reflexivity|].
  apply (Cost_charge 1000000 22500000 sample_model sample_usage).
  - lia.
  - reflexivity.
  - unfold counts_within; simpl; lia.
  - intros n. unfold prices, tier_within. simpl. case_match; simpl; lia.
Defined.

(** [clamped] guards the cache counts only. A provider that reports a
    negative answer makes [Cost] negative: a million tokens fewer than none
    refund the price of a million. *)
Theorem Cost_negative_usage (P : Z) (m : Model) :
  prices_within P m → P <= 1000000000000 →
  Cost m {| Input := 0; CachedInput := 0; CacheWrite := 0; CacheWriteHour := 0;
            Output := -1000000 |} = - OutputMicros (prices m 0).
Proof.
  intros Hp HP. destruct (Hp 0) as (Hi & Ho & _). unfold Cost.
  change (clamped _) with {| Input := 0; CachedInput := 0; CacheWrite := 0; CacheWriteHour := 0;
                             Output := -1000000 |}.
  cbv zeta. cbv [Input CachedInput CacheWrite CacheWriteHour Output].
  set (p := prices m 0) in *. clearbody p. change (0 ⊖ 0 ⊖ 0) with 0. change (0 ⊖ 0) with 0.
  change (0 ⊗ 2) with 0. unfold quot64, perM.
  unwrap ltac:(unfold in_int64, two63; lia).
  replace (0 * InputMicros p + 0 * cachedInputMicros p + 0 * cacheWriteMicros p
           + 0 * InputMicros p + -1000000 * OutputMicros p)
    with (- OutputMicros p * 1000000) by ring.
  rewrite Z.quot_mul by lia. apply wrap64_id. unfold in_int64, two63. lia.
Qed.

Lemma Cost_negative_usage_witness :
  Cost sample_model {| Input := 0; CachedInput := 0; CacheWrite := 0; CacheWriteHour := 0;
                       Output := -1000000 |} = -15000000.
Proof.
  apply (Cost_negative_usage 22500000 sample_model); [|lia].
  intros n. unfold prices, tier_within. simpl. case_match; simpl; lia.
Defined.

(** A self-hosted model priced at the gateway fee costs its budgets
    exactly what its bill line says, every token at the fee, as long as no
    write to an hour cache is reported. *)
Theorem fee_is_the_cost (T : Z) (m : Model) (b : Billing) (reported counted : Tokens) :
  SelfHosted m = true → Model_Billing m = Some b → 1 <= FeeMicrosPerMTok b →
  3 * T * FeeMicrosPerMTok b < two63 →
  let t := if CountsTokens m then counted else reported in
  counts_within T t → CacheWriteHour t <= 0 →
  let m' := (PriceAtFee m (FeeMicrosPerMTok b)).1 in
  ∃ l, Bill m' reported counted = Some l ∧ GatewayFee l = true ∧
       Micros l = Cost m' t ∧ Micros l = (Input t + Output t) * FeeMicrosPerMTok b / perM.
Proof.
  intros Hs Hb Hf HT t Hc Hh m'. unfold m', PriceAtFee. rewrite Hs. simpl fst.
  set (f := FeeMicrosPerMTok b) in *. set (m0 := set_prices m f f f f).
  assert (prices_within f m0) as Hp by (intros n; unfold prices, m0, tier_within; simpl; lia).
  exists (fee m0 b reported counted). split.
  { unfold Bill. change (Model_Billing m0) with (Model_Billing m). rewrite Hb.
    fold f. by rewrite (proj2 (Z.gtb_lt f 0)) by lia. }
  split; [done|]. rewrite fee_micros. change (CountsTokens m0) with (CountsTokens m).
  fold t f. pose proof Hc as [Hi Ho].
  rewrite (fee_exact T f) by done. split; [|done].
  rewrite (Cost_exact T f) by done. f_equal. symmetry. apply flat_micros; try lia.
  - pose proof (counts_small T f HT Hf). unfold in_int64; lia.
  - unfold m0, prices. simpl. unfold cachedInputMicros, cacheWriteMicros. simpl.
    repeat split; case_match; lia.
Qed.

Definition fee_billing : Billing :=
  {| Billing_Provider := ""; Billing_Credit := true; FeeMicrosPerMTok := 250000;
     Billing_AtProvider := false |}.

Definition self_hosted_model : Model :=
  {| Alias := "keera-speed"; OrgID := "org_1"; Kind := KindChat; Backends := ["http://vllm:8000/v1"];
     BackendModel := ""; Provider := ""; DisplayName := ""; Description := "";
     InputMicrosPerMTok := 7; OutputMicrosPerMTok := 9; CachedInputMicrosPerMTok := 0;
     CacheWriteMicrosPerMTok := 0; LongPrompt := None; MaxContext := 32768; ReleaseDate := "";
     Location := LocationOnPrem; APIKeyCiphertext := ""; APIKey := ""; HasAPIKey := false;
     Subscription := false; PlatformKey := false; Model_Billing := Some fee_billing;
     Limited := false; Locked := false; OrgName := ""; Enabled := true |}.

Lemma fee_is_the_cost_witness :
  ∃ l, Bill (PriceAtFee self_hosted_model 250000).1 sample_usage
         {| Input := 4000; CachedInput := 0; CacheWrite := 0; CacheWriteHour := 0;
            Output := 1000 |} = Some l ∧
       GatewayFee l = true ∧ Micros l = 1250.
Proof.
  destruct (fee_is_the_cost 1000000 self_hosted_model fee_billing sample_usage
         {| Input := 4000; CachedInput := 0; CacheWrite := 0; CacheWriteHour := 0;
            Output := 1000 |}) as (l & Hl & Hg & _ & Hm);
    [reflexivity|reflexivity|vm_compute; discriminate|reflexivity
    |unfold counts_within; vm_compute; intuition discriminate|vm_compute; discriminate|].
  exists l. rewrite Hm. split; [exact Hl|]. split; [exact Hg|]. reflexivity.
Defined.
