(* ===== verification/Guardrails.v ===== *)
(** * Guardrails and how the levels combine

    [Limits], [Resolve] and the allow-lists of [internal/policy/policy.go] and
    [internal/policy/mcp.go]. A nil slice that the code tells apart from an
    empty one (the allow-lists) is an [option]; the others are lists. *)
From S2P Require Import Prelude Tenancy Pricing.

(** ** Data *)

Record RateLimit := {
  RL_Requests : Z;
  RL_Tokens : Z;
  RL_Period : string;
}.

Record Budget := {
  B_BudgetMicros : Z;
  B_Period : string;
}.

Record Limits := {
  AllowedModels : option (list string);
  AllowedLocations : option (list string);
  RateLimits : list RateLimit;
  Budgets : list Budget;
  SystemPrompt : option string;
  Filters : list string;
  AllowedTools : option (list string);
}.

Record Scope := {
  SType : string;
  SID : string;
  RPM : Z;
  TPM : Z;
  BudgetMicros : Z;
  SPeriod : string;
  SMeter : string;
  Quota : Z;
}.

Record Key := {
  Key_ID : string;
  Key_OrgID : string;
  Key_ProjectID : string;
  Key_UserID : string;
  Key_Kind : string;
}.

Record Resolved := {
  R_Key : Key;
  R_AllowedModels : option (list string);
  R_AllowedLocations : option (list string);
  R_SystemPrompt : string;
  R_Filters : list string;
  R_AllowedTools : option (list string);
  Scopes : list Scope;
  Quotas : list Scope;
}.

(** [MCPServer]. *)
Record MCPServer := {
  MCP_OrgID : string;
  MCP_Alias : string;
  MCP_URL : string;
  MCP_Description : string;
  MCP_AuthHeader : string;
  MCP_APIKeyCiphertext : string;
  MCP_APIKey : string;
  MCP_HasAPIKey : bool;
  MCP_Limited : bool;
  MCP_Locked : bool;
  MCP_OrgName : string;
  MCP_Enabled : bool;
}.

#[export] Instance RateLimit_eq_dec : EqDecision RateLimit.
Proof. solve_decision. Defined.
#[export] Instance Budget_eq_dec : EqDecision Budget.
Proof. solve_decision. Defined.
#[export] Instance Scope_eq_dec : EqDecision Scope.
Proof. solve_decision. Defined.
#[export] Instance Key_eq_dec : EqDecision Key.
Proof. solve_decision. Defined.

(** ** Rate limits and budgets *)

Definition MaxPerMinute : Z := 1073741824.

Definition RateLimit_Per (r : RateLimit) : string :=
  if bool_decide (RL_Period r = "") then PeriodMinute else RL_Period r.

Definition Budget_Per (b : Budget) : string :=
  if bool_decide (B_Period b = "") then PeriodMonth else B_Period b.

Definition PerMinute (r : RateLimit) : bool := bool_decide (RateLimit_Per r = PeriodMinute).

(** [RateLimit.Problem]; the empty string when there is none. *)
Definition RateLimit_Problem (r : RateLimit) : string :=
  if negb (PerMinute r) && negb (Period_Valid (RL_Period r))
  then "has the period '" +:+ RL_Period r +:+ "'; use minute, day or month"
  else if (RL_Requests r <? 0) || (RL_Tokens r <? 0) ||
          (RL_Requests r =? 0) && (RL_Tokens r =? 0)
  then "needs a positive 'requests', 'tokens' or both"
  else if PerMinute r && (Z.max (RL_Requests r) (RL_Tokens r) >? MaxPerMinute)
  then "allows more than " +:+ pretty MaxPerMinute +:+
       " a minute; use a 'period' of day or month for a limit that large"
  else "".

(** [Budget.Problem]. *)
Definition Budget_Problem (b : Budget) : string :=
  if negb (Period_Valid (Budget_Per b))
  then "has the period '" +:+ B_Period b +:+ "'; use day or month"
  else if B_BudgetMicros b <=? 0 then "needs a positive 'budget_micros'"
  else "".

(** [quotas]: a rate limit per day or month as a scope per meter, a zero one
    left out. *)
Definition quotas (t id p : string) (requests tokens : Z) : list Scope :=
  omap (λ '(meter, quota),
    if quota >? 0
    then Some {| SType := t; SID := id +:+ "|" +:+ meter; RPM := 0; TPM := 0;
                 BudgetMicros := 0; SPeriod := p; SMeter := meter; Quota := quota |}
    else None) [(MeterRequests, requests); (MeterTokens, tokens)].

(** [RateLimit.count]: the month's scope as it leaves it, and the quotas. *)
Definition RateLimit_count (r : RateLimit) (month : Scope) : Scope * list Scope :=
  if Period_Valid (RateLimit_Per r)
  then (month, quotas (SType month) (SID month) (RateLimit_Per r) (RL_Requests r) (RL_Tokens r))
  else ({| SType := SType month; SID := SID month;
           RPM := Z.min (RL_Requests r) MaxPerMinute; TPM := Z.min (RL_Tokens r) MaxPerMinute;
           BudgetMicros := BudgetMicros month; SPeriod := SPeriod month;
           SMeter := SMeter month; Quota := Quota month |}, []).

(** ** Allow-lists *)

(** [narrowList]: the narrower of every matching pair, without repeats. *)
Definition narrowList (covers : string → string → bool) (cur next : list string) : list string :=
  foldl (λ out a,
    collect_new (λ b, if covers a b then Some b else if covers b a then Some a else None)
      out next) [] cur.

(** [narrowAllowList]: a nil list is unrestricted. *)
Definition narrowAllowList (covers : string → string → bool)
    (cur next : option (list string)) : option (list string) :=
  match next, cur with
  | None, _ => cur
  | Some n, None => Some n
  | Some n, Some c => Some (narrowList covers c n)
  end.

Definition intersect : option (list string) → option (list string) → option (list string) :=
  narrowAllowList (λ a b, bool_decide (a = b)).

(** A server covers itself and its tools. *)
Definition tool_covers (a b : string) : bool :=
  bool_decide (a = b) || (negb (contains_byte slash a) && has_prefix b (a +:+ "/")).

Definition intersectTools : option (list string) → option (list string) → option (list string) :=
  narrowAllowList tool_covers.

(** ** Prompts and filters *)

Definition newline : string := chr 10.

(** [JoinPrompts]. *)
Definition JoinPrompts (cur next : string) : string :=
  let next := TrimSpace next in
  if bool_decide (next = "") then cur
  else if bool_decide (cur = "") then next
  else cur +:+ newline +:+ newline +:+ next.

(** [appendFilters]. *)
Definition appendFilters (cur next : list string) : list string :=
  collect_new (λ alias, if bool_decide (alias = "") then None else Some alias) cur next.

(** ** Resolve *)

(** [Resolved.narrow]. *)
Definition narrow (r : Resolved) (lim : Limits) : Resolved :=
  {| R_Key := R_Key r;
     R_AllowedModels := intersect (R_AllowedModels r) (AllowedModels lim);
     R_AllowedLocations := intersect (R_AllowedLocations r) (AllowedLocations lim);
     R_SystemPrompt := JoinPrompts (R_SystemPrompt r) (default "" (SystemPrompt lim));
     R_Filters := appendFilters (R_Filters r) (Filters lim);
     R_AllowedTools := intersectTools (R_AllowedTools r) (AllowedTools lim);
     Scopes := Scopes r; Quotas := Quotas r |}.

Definition add_scopes (r : Resolved) (scopes quotas : list Scope) : Resolved :=
  {| R_Key := R_Key r; R_AllowedModels := R_AllowedModels r;
     R_AllowedLocations := R_AllowedLocations r; R_SystemPrompt := R_SystemPrompt r;
     R_Filters := R_Filters r; R_AllowedTools := R_AllowedTools r;
     Scopes := Scopes r ++ scopes; Quotas := Quotas r ++ quotas |}.

(** One level of the hierarchy: its type, its id, its limits if any. *)
Record level := { l_typ : string; l_id : string; l_lim : option Limits }.

Definition levels (key : Key) (org project own : option Limits) : list level :=
  [{| l_typ := ScopeOrg; l_id := Key_OrgID key; l_lim := org |}] ++
  (if bool_decide (Key_ProjectID key = "") then []
   else [{| l_typ := ScopeProject; l_id := Key_ProjectID key; l_lim := project |}]) ++
  [{| l_typ := ScopeKey; l_id := Key_ID key; l_lim := own |}].

Definition month_scope (lv : level) : Scope :=
  {| SType := l_typ lv; SID := l_id lv; RPM := 0; TPM := 0; BudgetMicros := 0;
     SPeriod := PeriodMonth; SMeter := MeterCost; Quota := 0 |}.

(** The level's rate limits, in order: the month's scope and the quotas. *)
Definition count_rates (rls : list RateLimit) (month : Scope) : Scope * list Scope :=
  foldl (λ '(month, qs) rl, let '(month', q) := RateLimit_count rl month in (month', qs ++ q))
    (month, []) rls.

Definition set_budget (sc : Scope) (micros : Z) : Scope :=
  {| SType := SType sc; SID := SID sc; RPM := RPM sc; TPM := TPM sc; BudgetMicros := micros;
     SPeriod := SPeriod sc; SMeter := SMeter sc; Quota := Quota sc |}.

(** The level's budgets, in order: a daily one gets a scope of its own. *)
Definition count_budgets (lv : level) (bs : list Budget) (month : Scope) : Scope * option Scope :=
  foldl (λ '(month, day) b,
    if bool_decide (Budget_Per b = PeriodDay)
    then (month, Some {| SType := l_typ lv; SID := l_id lv; RPM := 0; TPM := 0;
                         BudgetMicros := B_BudgetMicros b; SPeriod := PeriodDay;
                         SMeter := MeterCost; Quota := 0 |})
    else (set_budget month (B_BudgetMicros b), day))
    (month, None) bs.

(** The scopes of one level: its month, and its day if it has a daily budget;
    and its quotas. *)
Definition level_scopes (lv : level) : list Scope * list Scope :=
  match l_lim lv with
  | None => ([month_scope lv], [])
  | Some lim =>
      let '(month, qs) := count_rates (RateLimits lim) (month_scope lv) in
      let '(month, day) := count_budgets lv (Budgets lim) month in
      (month :: option_list day, qs)
  end.

(** The body of [Resolve]'s loop. *)
Definition resolve_level (r : Resolved) (lv : level) : Resolved :=
  let r := match l_lim lv with None => r | Some lim => narrow r lim end in
  let '(scopes, qs) := level_scopes lv in
  add_scopes r scopes qs.

Definition Resolved_of (key : Key) : Resolved :=
  {| R_Key := key; R_AllowedModels := None; R_AllowedLocations := None; R_SystemPrompt := "";
     R_Filters := []; R_AllowedTools := None; Scopes := []; Quotas := [] |}.

Definition Resolve (key : Key) (org project own : option Limits) : Resolved :=
  foldl resolve_level (Resolved_of key) (levels key org project own).

(** ** What a resolved key may do *)

Definition Key_Subscription (k : Key) : bool := bool_decide (Key_Kind k = KeySubscription).

Definition allows (l : option (list string)) (x : string) : bool :=
  match l with None => true | Some l => contains l x end.

Definition allowsModel (r : Resolved) (alias : string) : bool := allows (R_AllowedModels r) alias.

Definition AllowsLocation (r : Resolved) (loc : string) : bool :=
  allows (R_AllowedLocations r) loc.

(** [Resolved.MayUse]. *)
Definition MayUse (r : Resolved) (m : Model) : bool :=
  Bool.eqb (Key_Subscription (R_Key r)) (Subscription m) && allowsModel r (Alias m) &&
  AllowsLocation r (Location m).

Definition maxToolNameLen : Z := 128.

(** [strings.ContainsAny tool] for a space, a tab and a newline. *)
Definition contains_blank (s : string) : bool :=
  contains_byte (Ascii.ascii_of_nat 32) s || contains_byte (Ascii.ascii_of_nat 9) s ||
  contains_byte (Ascii.ascii_of_nat 10) s.

Definition ValidToolEntry (s : string) : bool :=
  let '(server, tool, one) := cut_byte slash s in
  if negb (ValidAlias server) then false
  else negb one ||
       negb (bool_decide (tool = "")) && (len tool <=? maxToolNameLen) && negb (contains_blank tool).

Definition tools_allow (l : option (list string)) (server tool : string) : bool :=
  match l with
  | None => true
  | Some l => contains l server || contains l (server +:+ "/" +:+ tool)
  end.

(** [Resolved.AllowsTool]. *)
Definition AllowsTool (r : Resolved) (server tool : string) : bool :=
  tools_allow (R_AllowedTools r) server tool.

Definition AllowsWholeServer (r : Resolved) (server : string) : bool :=
  allows (R_AllowedTools r) server.

Definition AllowsServer (r : Resolved) (server : string) : bool :=
  match R_AllowedTools r with
  | None => true
  | Some l => existsb (λ e, let '(s, _, _) := cut_byte slash e in bool_decide (s = server)) l
  end.

(** ** Lemmas *)

Section narrowing.
Context (covers : string → string → bool).
Implicit Types (cur next : list string) (x : string).

Lemma elem_of_narrowList cur next x :
  x ∈ narrowList covers cur next ↔
  ∃ a b, a ∈ cur ∧ b ∈ next ∧
    (covers a b = true ∧ x = b ∨ covers a b = false ∧ covers b a = true ∧ x = a).
Proof.
  unfold narrowList. transitivity (x ∈ ([] : list string) ∨ ∃ a b, a ∈ cur ∧ b ∈ next ∧
    (covers a b = true ∧ x = b ∨ covers a b = false ∧ covers b a = true ∧ x = a)); [|set_solver].
  generalize (@nil string). induction cur as [|a cur IH]; intros out; simpl; [set_solver|].
  rewrite IH, elem_of_collect_new. setoid_rewrite elem_of_cons. split.
  - intros [[?|(b & Hb & Hf)]|H]; [by left| |naive_solver].
    right. exists a, b. destruct (covers a b) eqn:?; [|destruct (covers b a) eqn:?]; naive_solver.
  - intros [?|(a' & b & [->|Ha] & Hb & H)]; [naive_solver| |naive_solver].
    left. right. exists b. split; [done|].
    destruct H as [[-> ->]|(-> & -> & ->)]; done.
Qed.

Lemma NoDup_narrowList cur next : NoDup (narrowList covers cur next).
Proof.
  unfold narrowList. assert (NoDup (@nil string)) as H by constructor. revert H.
  generalize (@nil string). induction cur as [|a cur IH]; intros out H; simpl; auto with go.
Qed.
End narrowing.

(** Intersection: what both lists allow. *)
Lemma allows_intersect cur next x :
  allows (intersect cur next) x = allows cur x && allows next x.
Proof.
  destruct next as [next|], cur as [cur|]; simpl; rewrite ?andb_true_r; try done.
  apply Bool.eq_iff_eq_true. rewrite andb_true_iff, !contains_spec, elem_of_narrowList.
  split.
  - intros (a & b & Ha & Hb & [[Hc ->]|(Hc & Hc' & ->)]); to_prop; naive_solver.
  - intros [Ha Hb]. exists x, x. rewrite bool_decide_eq_true_2 by done. naive_solver.
Qed.

Lemma tool_covers_spec a b :
  tool_covers a b = true ↔
  a = b ∨ contains_byte slash a = false ∧ ∃ t, b = a +:+ String slash t.
Proof.
  unfold tool_covers. rewrite orb_true_iff, andb_true_iff, negb_true_iff, bool_decide_eq_true,
    has_prefix_spec.
  setoid_rewrite str_app_assoc. done.
Qed.

Lemma tool_entry_inj a b t u :
  contains_byte slash a = false → contains_byte slash b = false →
  a +:+ String slash t = b +:+ String slash u → a = b ∧ t = u.
Proof. apply first_byte_inj. Qed.

(** An entry of a tool list permits a tool when it names its server or the
    tool itself. *)
Definition permits (server tool e : string) : Prop :=
  e = server ∨ e = server +:+ String slash tool.

Section tools.
Context (server tool : string) (Hserver : contains_byte slash server = false).

Lemma tools_allow_spec l :
  tools_allow (Some l) server tool = true ↔ ∃ e, e ∈ l ∧ permits server tool e.
Proof.
  unfold tools_allow, permits. rewrite orb_true_iff, !contains_spec.
  change ("/" +:+ tool) with (String slash tool). naive_solver.
Qed.

Lemma slash_in_tool s t : contains_byte slash (s +:+ String slash t) = true.
Proof. rewrite contains_byte_app. simpl. by rewrite orb_true_r. Qed.

Lemma permits_covers a b :
  tool_covers a b = true → permits server tool b → permits server tool a.
Proof.
  rewrite tool_covers_spec. intros [->|[Ha [t ->]]] Hb; [done|].
  destruct Hb as [Hb|Hb].
  - pose proof (slash_in_tool a t). congruence.
  - apply tool_entry_inj in Hb as [-> _]; [by left|done..].
Qed.

Lemma permits_meet a b :
  permits server tool a → permits server tool b →
  tool_covers a b = true ∨ tool_covers b a = true.
Proof.
  intros [->| ->] [->| ->]; rewrite !tool_covers_spec; naive_solver.
Qed.

(** Intersecting tool lists: a tool is allowed when both lists allow it,
    whether each names its server or the tool. *)
Lemma tools_allow_intersect cur next :
  tools_allow (intersectTools cur next) server tool =
  tools_allow cur server tool && tools_allow next server tool.
Proof.
  destruct next as [next|], cur as [cur|]; try done; [|by rewrite andb_true_r].
  apply Bool.eq_iff_eq_true. rewrite andb_true_iff.
  change (intersectTools (Some cur) (Some next)) with (Some (narrowList tool_covers cur next)).
  rewrite !tools_allow_spec. setoid_rewrite elem_of_narrowList. split.
  - intros (e & (a & b & Ha & Hb & H) & He).
    destruct H as [[Hc ->]|(_ & Hc & ->)]; split; eauto using permits_covers.
  - intros [(a & Ha & Hpa) (b & Hb & Hpb)].
    destruct (tool_covers a b) eqn:Hab.
    + exists b. split; [|done]. exists a, b. tauto.
    + destruct (permits_meet a b) as [?|Hba]; [done|done|congruence|].
      exists a. split; [|done]. exists a, b. tauto.
Qed.
End tools.

(** A key reaches a server when it reaches one of its tools. *)
Lemma AllowsServer_spec r server :
  contains_byte slash server = false →
  AllowsServer r server = true ↔ ∃ tool, AllowsTool r server tool = true.
Proof.
  intros Hs. unfold AllowsServer, AllowsTool. destruct (R_AllowedTools r) as [l|];
    [|split; [by exists EmptyString|done]].
  rewrite existsb_exists. setoid_rewrite (tools_allow_spec server _ l). split.
  - intros (e & He%list_elem_of_In & H). destruct (cut_byte slash e) as [[s t] f] eqn:Hc.
    to_prop. subst s. exists t. exists e. split; [done|]. destruct f.
    + apply cut_byte_found in Hc as [-> _]. by right.
    + apply cut_byte_none in Hc as [-> _]. by left.
  - intros (t & e & He & [->| ->]); eexists; (split; [by apply list_elem_of_In|]).
    + rewrite cut_byte_id by done. by rewrite bool_decide_eq_true_2.
    + rewrite cut_byte_fst by done. by rewrite bool_decide_eq_true_2.
Qed.

(** *** The loop of [Resolve] *)

(** [narrow] at each level that has limits, in order. *)
Definition narrow_all (r : Resolved) (lims : list Limits) : Resolved := foldl narrow r lims.

(** The limits of the levels that have any, outermost first. *)
Definition level_limits (lvs : list level) : list Limits := omap l_lim lvs.

Section resolve.
Implicit Types (r : Resolved) (lvs : list level) (lims : list Limits).

(** Folding a narrowing list of the limits agrees with what every level
    allows. *)
Lemma allows_fold (field : Limits → option (list string)) lims cur x :
  allows (foldl (λ c l, intersect c (field l)) cur lims) x =
  allows cur x && forallb (λ l, allows (field l) x) lims.
Proof.
  revert cur. induction lims as [|l lims IH]; intros cur; simpl; [by rewrite andb_true_r|].
  by rewrite IH, allows_intersect, andb_assoc.
Qed.

Lemma tools_fold server tool lims cur :
  contains_byte slash server = false →
  tools_allow (foldl (λ c l, intersectTools c (AllowedTools l)) cur lims) server tool =
  tools_allow cur server tool && forallb (λ l, tools_allow (AllowedTools l) server tool) lims.
Proof.
  intros Hs. revert cur. induction lims as [|l lims IH]; intros cur; simpl;
    [by rewrite andb_true_r|].
  by rewrite IH, tools_allow_intersect, andb_assoc.
Qed.

(** The result of the loop, field by field. *)
Lemma resolve_fields r lvs :
  let r' := foldl resolve_level r lvs in
  let lims := level_limits lvs in
  R_Key r' = R_Key r ∧
  R_AllowedModels r' = foldl (λ c l, intersect c (AllowedModels l)) (R_AllowedModels r) lims ∧
  R_AllowedLocations r' =
    foldl (λ c l, intersect c (AllowedLocations l)) (R_AllowedLocations r) lims ∧
  R_SystemPrompt r' =
    foldl (λ c l, JoinPrompts c (default "" (SystemPrompt l))) (R_SystemPrompt r) lims ∧
  R_Filters r' = foldl (λ c l, appendFilters c (Filters l)) (R_Filters r) lims ∧
  R_AllowedTools r' = foldl (λ c l, intersectTools c (AllowedTools l)) (R_AllowedTools r) lims ∧
  Scopes r' = Scopes r ++ mjoin ((λ lv, (level_scopes lv).1) <$> lvs) ∧
  Quotas r' = Quotas r ++ mjoin ((λ lv, (level_scopes lv).2) <$> lvs).
Proof.
  revert r. induction lvs as [|lv lvs IH]; intros r; simpl.
  - by rewrite !app_nil_r.
  - destruct (IH (resolve_level r lv)) as (H1 & H2 & H3 & H4 & H5 & H6 & H7 & H8).
    rewrite H1, H2, H3, H4, H5, H6, H7, H8. clear.
    unfold resolve_level, level_limits. simpl.
    destruct (level_scopes lv) as [scs qs], (l_lim lv) as [lim|]; simpl;
      rewrite !app_assoc; done.
Qed.

Lemma appendFilters_fold lims cur :
  foldl (λ c l, appendFilters c (Filters l)) cur lims =
  appendFilters cur (mjoin (Filters <$> lims)).
Proof.
  revert cur. induction lims as [|l lims IH]; intros cur; simpl; [done|].
  rewrite IH. unfold appendFilters. by rewrite collect_new_app.
Qed.

Lemma elem_of_appendFilters cur next x :
  x ∈ appendFilters cur next ↔ x ∈ cur ∨ x ∈ next ∧ x ≠ "".
Proof.
  unfold appendFilters. rewrite elem_of_collect_new. split.
  - intros [?|(a & Ha & H)]; [by left|]. case_bool_decide; naive_solver.
  - intros [?|[Hx Hne]]; [by left|]. right. exists x. by rewrite bool_decide_eq_false_2.
Qed.
End resolve.

(** *** The scopes of a level *)

Definition day_scope (lv : level) (micros : Z) : Scope :=
  {| SType := l_typ lv; SID := l_id lv; RPM := 0; TPM := 0; BudgetMicros := micros;
     SPeriod := PeriodDay; SMeter := MeterCost; Quota := 0 |}.

Definition daily (b : Budget) : Prop := Budget_Per b = PeriodDay.

#[export] Instance daily_dec b : Decision (daily b).
Proof. unfold daily. apply _. Defined.

(** A guardrail row as the control plane stores it: valid entries, at most one
    of each period. *)
Definition stored_limits (lim : Limits) : Prop :=
  NoDup (Budget_Per <$> Budgets lim) ∧ Forall (λ b, Budget_Problem b = "") (Budgets lim) ∧
  NoDup (RateLimit_Per <$> RateLimits lim) ∧
  Forall (λ r, RateLimit_Problem r = "") (RateLimits lim).

Section scopes.
Implicit Types (lv : level) (b : Budget) (bs : list Budget) (month : Scope).

Lemma count_budgets_from lv bs month day :
  foldl (λ '(month, day) b,
    if bool_decide (Budget_Per b = PeriodDay)
    then (month, Some (day_scope lv (B_BudgetMicros b)))
    else (set_budget month (B_BudgetMicros b), day)) (month, day) bs =
  (from_option (set_budget month ∘ B_BudgetMicros) month (last (filter (λ b, ¬ daily b) bs)),
   match last (filter daily bs) with
   | Some b => Some (day_scope lv (B_BudgetMicros b))
   | None => day
   end).
Proof.
  revert month day. induction bs as [|b bs IH]; intros month day; [done|].
  cbn [foldl]. rewrite !filter_cons. unfold daily in *.
  case_bool_decide as Hd; rewrite IH; clear IH.
  - rewrite (decide_True (P := Budget_Per b = PeriodDay)) by done.
    rewrite (decide_False (P := Budget_Per b ≠ PeriodDay)) by tauto.
    f_equal. rewrite last_cons. by destruct (last (filter _ bs)).
  - rewrite (decide_False (P := Budget_Per b = PeriodDay)) by done.
    rewrite (decide_True (P := Budget_Per b ≠ PeriodDay)) by done.
    f_equal. rewrite last_cons. by destruct (last (filter _ bs)).
Qed.

Lemma count_budgets_spec lv bs month :
  count_budgets lv bs month =
  (from_option (set_budget month ∘ B_BudgetMicros) month (last (filter (λ b, ¬ daily b) bs)),
   (day_scope lv ∘ B_BudgetMicros) <$> last (filter daily bs)).
Proof.
  etrans; [apply (count_budgets_from lv bs month None)|]. by destruct (last (filter daily bs)).
Qed.

(** A list whose elements agree on a key that does not repeat has one element. *)
Lemma last_unique {A K} (f : A → K) (l : list A) (k : K) (x : A) :
  NoDup (f <$> l) → (∀ y, y ∈ l → f y = k) → x ∈ l → last l = Some x.
Proof.
  intros Hn Hk Hx. destruct l as [|a [|a' l]]; [set_solver|set_solver|].
  exfalso. rewrite !fmap_cons in Hn. apply NoDup_cons in Hn as [Hn _]. apply Hn.
  rewrite (Hk a), (Hk a') by set_solver. by left.
Qed.

Lemma NoDup_fmap_filter {A K} (f : A → K) (P : A → Prop) `{∀ x, Decision (P x)} (l : list A) :
  NoDup (f <$> l) → NoDup (f <$> filter P l).
Proof. intros. eapply sublist_NoDup; [done|]. apply fmap_sublist, sublist_filter. Qed.

Lemma Budget_Problem_none b :
  Budget_Problem b = "" ↔
  (Budget_Per b = PeriodDay ∨ Budget_Per b = PeriodMonth) ∧ 0 < B_BudgetMicros b.
Proof.
  unfold Budget_Problem, Period_Valid. repeat case_bool_decide; simpl.
  - case_match; to_prop; [|split; [|done]; intros _; split; [auto|lia]].
    split; [done|]. intros [_ ?]. lia.
  - case_match; to_prop; [|split; [|done]; intros _; split; [auto|lia]].
    split; [done|]. intros [_ ?]. lia.
  - case_match; to_prop; [|split; [|done]; intros _; split; [auto|lia]].
    split; [done|]. intros [_ ?]. lia.
  - split; [done|]. naive_solver.
Qed.

(** The budget of a period in a level, and the budgets its scopes carry. *)
Lemma level_budgets lv bs month p n :
  NoDup (Budget_Per <$> bs) → Forall (λ b, Budget_Problem b = "") bs →
  BudgetMicros month = 0 → SPeriod month = PeriodMonth → n ≠ 0 →
  let '(month', day) := count_budgets lv bs month in
  (∃ sc, sc ∈ month' :: option_list day ∧ SPeriod sc = p ∧ BudgetMicros sc = n) ↔
  ∃ b, b ∈ bs ∧ Budget_Per b = p ∧ B_BudgetMicros b = n.
Proof.
  intros Hn Hv Hm Hp Hn0. rewrite count_budgets_spec.
  assert (∀ b, b ∈ bs → Budget_Per b = PeriodDay ∨ Budget_Per b = PeriodMonth) as Hper.
  { intros b Hb. rewrite Forall_forall in Hv. apply Hv, Budget_Problem_none in Hb. tauto. }
  assert (∀ b, b ∈ bs → Budget_Per b = PeriodDay → last (filter daily bs) = Some b) as Hd.
  { intros b Hb Hd. apply (last_unique Budget_Per _ PeriodDay); [by apply NoDup_fmap_filter| |].
    - intros y Hy. by apply list_elem_of_filter in Hy as [? _].
    - by apply list_elem_of_filter. }
  assert (∀ b, b ∈ bs → Budget_Per b = PeriodMonth →
            last (filter (λ b, ¬ daily b) bs) = Some b) as Hmo.
  { intros b Hb Hd'. apply (last_unique Budget_Per _ PeriodMonth); [by apply NoDup_fmap_filter| |].
    - intros y Hy. apply list_elem_of_filter in Hy as [Hy1 Hy2].
      by destruct (Hper y Hy2).
    - apply list_elem_of_filter. split; [|done]. unfold daily. by rewrite Hd'. }
  split.
  - intros (sc & Hsc & Hscp & Hscn). apply elem_of_cons in Hsc as [->|Hsc].
    + destruct (last (filter (λ b, ¬ daily b) bs)) as [b|] eqn:Hl; simpl in *; [|congruence].
      apply last_Some_elem_of, list_elem_of_filter in Hl as [Hl Hb].
      exists b. split; [done|]. split; [|done].
      destruct (Hper b Hb) as [|Hb']; [done|congruence].
    + destruct (last (filter daily bs)) as [b|] eqn:Hl; simpl in *; [|set_solver].
      apply list_elem_of_singleton in Hsc as ->. simpl in *.
      apply last_Some_elem_of, list_elem_of_filter in Hl as [Hl Hb].
      exists b. split; [done|]. by rewrite Hl.
  - intros (b & Hb & Hbp & Hbn). destruct (Hper b Hb) as [Hd'|Hm'].
    + rewrite (Hd b Hb Hd'). exists (day_scope lv n). simpl. rewrite Hbn.
      split; [set_solver|]. split; [|done]. simpl. congruence.
    + rewrite (Hmo b Hb Hm'). eexists. split; [by left|]. simpl. split; congruence.
Qed.
End scopes.

Section rates.
Implicit Types (rl : RateLimit) (rls : list RateLimit) (month : Scope).

(** A rate limit counted in a daily or monthly window. *)
Definition windowed rl : Prop := Period_Valid (RateLimit_Per rl) = true.

#[export] Instance windowed_dec rl : Decision (windowed rl).
Proof. unfold windowed. apply _. Defined.

Definition set_rates month rl : Scope :=
  {| SType := SType month; SID := SID month;
     RPM := Z.min (RL_Requests rl) MaxPerMinute; TPM := Z.min (RL_Tokens rl) MaxPerMinute;
     BudgetMicros := BudgetMicros month; SPeriod := SPeriod month;
     SMeter := SMeter month; Quota := Quota month |}.

Definition rate_quotas (t id : string) rl : list Scope :=
  quotas t id (RateLimit_Per rl) (RL_Requests rl) (RL_Tokens rl).

Lemma RateLimit_count_windowed rl month :
  windowed rl → RateLimit_count rl month = (month, rate_quotas (SType month) (SID month) rl).
Proof. unfold RateLimit_count. by intros ->. Qed.

Lemma RateLimit_count_minute rl month :
  ¬ windowed rl → RateLimit_count rl month = (set_rates month rl, []).
Proof. unfold RateLimit_count, windowed. by destruct (Period_Valid _). Qed.

Lemma count_rates_from rls month qs :
  foldl (λ '(month, qs) rl, let '(month', q) := RateLimit_count rl month in (month', qs ++ q))
    (month, qs) rls =
  (from_option (set_rates month) month (last (filter (λ r, ¬ windowed r) rls)),
   qs ++ mjoin (rate_quotas (SType month) (SID month) <$> filter windowed rls)).
Proof.
  revert month qs. induction rls as [|rl rls IH]; intros month qs; [by rewrite app_nil_r|].
  cbn [foldl]. rewrite !filter_cons. destruct (decide (windowed rl)) as [Hw|Hw].
  - rewrite RateLimit_count_windowed, IH by done. rewrite decide_False by tauto.
    f_equal. rewrite fmap_cons. simpl. by rewrite app_assoc.
  - rewrite RateLimit_count_minute, IH, decide_True by done.
    f_equal; [|by rewrite app_nil_r]. rewrite last_cons. by destruct (last (filter _ rls)).
Qed.

Lemma count_rates_spec rls month :
  count_rates rls month =
  (from_option (set_rates month) month (last (filter (λ r, ¬ windowed r) rls)),
   mjoin (rate_quotas (SType month) (SID month) <$> filter windowed rls)).
Proof. apply (count_rates_from rls month []). Qed.

Lemma elem_of_quotas sc t id p requests tokens :
  sc ∈ quotas t id p requests tokens ↔
  ∃ meter q, (meter = MeterRequests ∧ q = requests ∨ meter = MeterTokens ∧ q = tokens) ∧ 0 < q ∧
    sc = {| SType := t; SID := id +:+ "|" +:+ meter; RPM := 0; TPM := 0; BudgetMicros := 0;
            SPeriod := p; SMeter := meter; Quota := q |}.
Proof.
  unfold quotas. rewrite list_elem_of_omap. split.
  - intros ([m q] & Hm & H). destruct (q >? 0) eqn:Hq; [|done]. to_prop. simplify_eq/=.
    exists m, q. split; [set_solver|done].
  - intros (m & q & Hm & Hq & ->). exists (m, q). split; [set_solver|].
    destruct (q >? 0) eqn:?; to_prop; [done|lia].
Qed.

Lemma RateLimit_Problem_none rl :
  RateLimit_Problem rl = "" ↔
  (RateLimit_Per rl = PeriodMinute ∨ windowed rl) ∧
  0 <= RL_Requests rl ∧ 0 <= RL_Tokens rl ∧ (RL_Requests rl ≠ 0 ∨ RL_Tokens rl ≠ 0) ∧
  (RateLimit_Per rl = PeriodMinute →
   RL_Requests rl <= MaxPerMinute ∧ RL_Tokens rl <= MaxPerMinute).
Proof.
  unfold RateLimit_Problem, PerMinute, windowed.
  assert (RateLimit_Per rl ≠ PeriodMinute → RateLimit_Per rl = RL_Period rl) as Hper.
  { unfold RateLimit_Per. by case_bool_decide. }
  case_bool_decide as Hm; simpl.
  - destruct (_ || _) eqn:Hz; [split; [done|lia]|].
    destruct (_ >? _) eqn:Hmax.
    { split; [done|]. intros (_ & _ & _ & _ & Hle). specialize (Hle Hm). lia. }
    split; [|done]. intros _.
    split; [by left|]. lia.
  - specialize (Hper Hm). rewrite Hper in *.
    destruct (Period_Valid (RL_Period rl)) eqn:Hv; simpl;
      [|split; [done|]; intros [[?|?] _]; congruence].
    destruct (_ || _) eqn:Hz; [split; [done|lia]|]. split; [|done]. intros _.
    split; [by right|]. repeat split; try lia; by intros.
Qed.

Lemma per_minute_not_windowed rl : RateLimit_Per rl = PeriodMinute → ¬ windowed rl.
Proof. unfold windowed. by intros ->. Qed.

(** The per-minute rate limit of a level is its month's; the others are
    quotas. *)
Lemma level_rates rls month rpm tpm :
  NoDup (RateLimit_Per <$> rls) → Forall (λ r, RateLimit_Problem r = "") rls →
  RPM month = 0 → TPM month = 0 → rpm ≠ 0 ∨ tpm ≠ 0 →
  let month' := (count_rates rls month).1 in
  (RPM month' = rpm ∧ TPM month' = tpm) ↔
  ∃ rl, rl ∈ rls ∧ RateLimit_Per rl = PeriodMinute ∧ RL_Requests rl = rpm ∧ RL_Tokens rl = tpm.
Proof.
  intros Hn Hv Hr Ht Hne. rewrite count_rates_spec. simpl. rewrite Forall_forall in Hv.
  assert (∀ rl, rl ∈ rls → ¬ windowed rl → RateLimit_Per rl = PeriodMinute) as Hper.
  { intros rl Hrl Hw. apply Hv, RateLimit_Problem_none in Hrl. tauto. }
  split.
  - destruct (last _) as [rl|] eqn:Hl; simpl; [|intros [<- <-]; lia].
    apply last_Some_elem_of, list_elem_of_filter in Hl as [Hw Hrl].
    pose proof (Hv _ Hrl) as Hp. apply RateLimit_Problem_none in Hp.
    intros [<- <-]. exists rl. pose proof (Hper _ Hrl Hw) as Hm.
    destruct Hp as (_ & ? & ? & _ & Hmax). specialize (Hmax Hm). repeat split; auto; lia.
  - intros (rl & Hrl & Hm & <- & <-).
    rewrite (last_unique RateLimit_Per _ PeriodMinute rl); [|by apply NoDup_fmap_filter| |].
    + pose proof (Hv _ Hrl) as Hp. apply RateLimit_Problem_none in Hp. simpl.
      destruct Hp as (_ & ? & ? & _ & Hmax). specialize (Hmax Hm). lia.
    + intros y [Hy1 Hy2]%list_elem_of_filter. auto.
    + apply list_elem_of_filter. auto using per_minute_not_windowed.
Qed.
End rates.

(** *** The whole key *)

Section whole.
Implicit Types (key : Key) (org project own : option Limits).

Lemma elem_of_mjoin_fmap {A B} (f : A → list B) (l : list A) y :
  y ∈ mjoin (f <$> l) ↔ ∃ x, x ∈ l ∧ y ∈ f x.
Proof.
  induction l as [|x l IH]; [set_solver|].
  rewrite fmap_cons. simpl. rewrite elem_of_app, IH. setoid_rewrite elem_of_cons. naive_solver.
Qed.

Lemma elem_of_level_limits lvs lim : lim ∈ level_limits lvs ↔ ∃ lv, lv ∈ lvs ∧ l_lim lv = Some lim.
Proof. unfold level_limits. by rewrite list_elem_of_omap. Qed.

Lemma elem_of_Scopes key org project own sc :
  sc ∈ Scopes (Resolve key org project own) ↔
  ∃ lv, lv ∈ levels key org project own ∧ sc ∈ (level_scopes lv).1.
Proof.
  pose proof (resolve_fields (Resolved_of key) (levels key org project own)) as
    (_ & _ & _ & _ & _ & _ & Hs & _).
  unfold Resolve. rewrite Hs, app_nil_l. by rewrite elem_of_mjoin_fmap.
Qed.

Lemma elem_of_Quotas key org project own sc :
  sc ∈ Quotas (Resolve key org project own) ↔
  ∃ lv, lv ∈ levels key org project own ∧ sc ∈ (level_scopes lv).2.
Proof.
  pose proof (resolve_fields (Resolved_of key) (levels key org project own)) as
    (_ & _ & _ & _ & _ & _ & _ & Hq).
  unfold Resolve. rewrite Hq, app_nil_l. by rewrite elem_of_mjoin_fmap.
Qed.

(** Every scope of a level carries the level's type and id. *)
Lemma level_scopes_ids lv sc :
  sc ∈ (level_scopes lv).1 → SType sc = l_typ lv ∧ SID sc = l_id lv.
Proof.
  unfold level_scopes. destruct (l_lim lv) as [lim|]; [|set_solver].
  rewrite count_rates_spec, count_budgets_spec. simpl. intros H.
  apply elem_of_cons in H as [->|H].
  - by destruct (last (filter _ (Budgets lim))), (last (filter _ (RateLimits lim))).
  - destruct (last (filter daily (Budgets lim))); [|set_solver].
    by apply list_elem_of_singleton in H as ->.
Qed.

(** The level's month after its rate limits, and the day if any. *)
Lemma level_scopes_some lv lim :
  l_lim lv = Some lim →
  level_scopes lv =
    (let '(month, day) := count_budgets lv (Budgets lim)
                            (count_rates (RateLimits lim) (month_scope lv)).1 in
     month :: option_list day, (count_rates (RateLimits lim) (month_scope lv)).2).
Proof.
  intros H. unfold level_scopes. rewrite H.
  destruct (count_rates _ _) as [month qs]. simpl. by destruct (count_budgets _ _ _).
Qed.

Lemma count_rates_keeps rls month :
  let month' := (count_rates rls month).1 in
  SType month' = SType month ∧ SID month' = SID month ∧
  BudgetMicros month' = BudgetMicros month ∧ SPeriod month' = SPeriod month.
Proof. rewrite count_rates_spec. simpl. by destruct (last _). Qed.

Lemma foldl_over_fmap {A B C} (f : C → B → C) (g : A → B) (l : list A) c :
  foldl f c (g <$> l) = foldl (λ c x, f c (g x)) c l.
Proof. revert c. induction l as [|x l IH]; intros c; [done|]. apply IH. Qed.

Lemma join_snoc sep l x :
  l ≠ [] → join sep (l ++ [x]) = join sep l +:+ sep +:+ x.
Proof.
  induction l as [|y [|z l] IH]; [done..|]. intros _.
  change (join sep ((y :: z :: l) ++ [x])) with (y +:+ sep +:+ join sep ((z :: l) ++ [x])).
  rewrite IH by done. change (join sep (y :: z :: l)) with (y +:+ sep +:+ join sep (z :: l)).
  by rewrite !str_app_assoc.
Qed.

Lemma count_budgets_rates lv bs month sc :
  let '(month', day) := count_budgets lv bs month in
  RPM month' = RPM month ∧ TPM month' = TPM month ∧
  (sc ∈ option_list day → RPM sc = 0 ∧ TPM sc = 0).
Proof.
  rewrite count_budgets_spec. simpl.
  destruct (last (filter _ bs)), (last (filter daily bs)); simpl; set_solver.
Qed.

Lemma join_empty sep l : Forall (λ x, x ≠ "") l → join sep l = "" → l = [].
Proof.
  destruct l as [|x [|y l]]; [done| |]; intros H Hj; inversion H; subst; simpl in Hj.
  - done.
  - by apply str_app_empty in Hj as [-> _].
Qed.

Lemma JoinPrompts_fold prompts :
  foldl JoinPrompts "" prompts =
  join (newline +:+ newline) (filter (λ p, p ≠ "") (TrimSpace <$> prompts)).
Proof.
  induction prompts as [|p prompts IH] using rev_ind; [done|].
  rewrite foldl_snoc, IH, fmap_app, filter_app. simpl. unfold JoinPrompts.
  set (l := filter _ (TrimSpace <$> prompts)).
  assert (Forall (λ p, p ≠ "") l) as Hl.
  { apply Forall_forall. intros x Hx. by apply list_elem_of_filter in Hx as [? _]. }
  rewrite filter_cons, filter_nil. case_bool_decide as Hp.
  - rewrite decide_False by tauto. by rewrite app_nil_r.
  - rewrite decide_True by done. case_bool_decide as Hj.
    + apply join_empty in Hj; [|done]. by rewrite Hj.
    + rewrite join_snoc by (intros ->; done). by rewrite str_app_assoc.
Qed.
End whole.

(** ** Properties *)

Section properties.
Implicit Types (key : Key) (org project own : option Limits).

Lemma resolve_budgets_iff key org project own typ id p n :
  (∀ lim, lim ∈ level_limits (levels key org project own) → stored_limits lim) → n ≠ 0 →
  (∃ sc, sc ∈ Scopes (Resolve key org project own) ∧
     SType sc = typ ∧ SID sc = id ∧ SPeriod sc = p ∧ BudgetMicros sc = n) ↔
  ∃ lv lim b, lv ∈ levels key org project own ∧ l_typ lv = typ ∧ l_id lv = id ∧
    l_lim lv = Some lim ∧ b ∈ Budgets lim ∧ Budget_Per b = p ∧ B_BudgetMicros b = n.
Proof.
  intros Hst Hn.
  assert (∀ lv lim, lv ∈ levels key org project own → l_lim lv = Some lim →
    (∃ sc, sc ∈ (level_scopes lv).1 ∧ SPeriod sc = p ∧ BudgetMicros sc = n) ↔
    ∃ b, b ∈ Budgets lim ∧ Budget_Per b = p ∧ B_BudgetMicros b = n) as Hlv.
  { intros lv lim Hin Hlim. destruct (Hst lim) as (Hb & Hv & _).
    { apply elem_of_level_limits. eauto. }
    rewrite (level_scopes_some lv lim Hlim). simpl fst.
    pose proof (count_rates_keeps (RateLimits lim) (month_scope lv)) as (_ & _ & Hm & Hp).
    pose proof (level_budgets lv (Budgets lim) _ p n Hb Hv Hm Hp Hn) as H.
    by destruct (count_budgets lv (Budgets lim) _) as [month' day]. }
  setoid_rewrite elem_of_Scopes. split.
  - intros (sc & (lv & Hin & Hsc) & <- & <- & Hp & Hm).
    pose proof (level_scopes_ids lv sc Hsc) as [-> ->].
    destruct (l_lim lv) as [lim|] eqn:Hlim.
    + destruct (proj1 (Hlv lv lim Hin Hlim)) as (b & ?); [by exists sc|]. exists lv, lim, b. tauto.
    + exfalso. unfold level_scopes in Hsc. rewrite Hlim in Hsc. simpl in Hsc.
      apply list_elem_of_singleton in Hsc as ->. simpl in Hm. congruence.
  - intros (lv & lim & b & Hin & <- & <- & Hlim & Hb).
    destruct (proj2 (Hlv lv lim Hin Hlim)) as (sc & Hsc & ?); [by exists b|].
    exists sc. destruct (level_scopes_ids lv sc Hsc). naive_solver.
Qed.

(** C3: a resolved key may use a model exactly when the kind of the key fits
    the model's subscription and every level with guardrails, from the
    organisation to the key, allows both the model's alias and its location.
    So no level widens what another one narrowed, and a level without a list
    inherits. *)
Theorem Resolve_MayUse key org project own (m : Model) :
  MayUse (Resolve key org project own) m = true ↔
  Key_Subscription key = Subscription m ∧
  ∀ lim, lim ∈ level_limits (levels key org project own) →
    allows (AllowedModels lim) (Alias m) = true ∧
    allows (AllowedLocations lim) (Location m) = true.
Proof.
  pose proof (resolve_fields (Resolved_of key) (levels key org project own)) as
    (Hk & Hm & Hl & _).
  unfold MayUse, allowsModel, AllowsLocation, Resolve. rewrite Hk, Hm, Hl, !allows_fold.
  rewrite !andb_true_iff, eqb_true_iff, !forallb_forall.
  setoid_rewrite <- list_elem_of_In. simpl. naive_solver.
Qed.

(** The tool lists of the levels intersect tool by tool. Whether a level
    names a server, for all of its tools, or single tools of it, the resolved
    key may call a tool of a server exactly when every level allows that
    tool. *)
Theorem Resolve_AllowsTool key org project own (server tool : string) :
  ValidAlias server = true →
  AllowsTool (Resolve key org project own) server tool = true ↔
  ∀ lim, lim ∈ level_limits (levels key org project own) →
    tools_allow (AllowedTools lim) server tool = true.
Proof.
  intros Hs%validName_no_slash.
  pose proof (resolve_fields (Resolved_of key) (levels key org project own)) as
    (_ & _ & _ & _ & _ & Ht & _).
  unfold AllowsTool, Resolve. rewrite Ht, tools_fold by done.
  rewrite andb_true_iff, forallb_forall. setoid_rewrite <- list_elem_of_In. simpl. naive_solver.
Qed.

(** The filters of a resolved key are every non-empty alias some level
    names, each once, and those of the outer levels come first: whatever
    levels are taken from the outside in, their filters are the beginning of
    the list. No level drops or moves a filter an outer one added. *)
Theorem Resolve_Filters key org project own :
  let r := Resolve key org project own in
  let lims := level_limits (levels key org project own) in
  NoDup (R_Filters r) ∧
  (∀ alias, alias ∈ R_Filters r ↔ alias ≠ "" ∧ ∃ lim, lim ∈ lims ∧ alias ∈ Filters lim) ∧
  (∀ outer inner, lims = outer ++ inner →
     R_Filters (narrow_all (Resolved_of key) outer) `prefix_of` R_Filters r).
Proof.
  intros r lims.
  pose proof (resolve_fields (Resolved_of key) (levels key org project own)) as
    (_ & _ & _ & _ & Hf & _).
  fold (Resolve key org project own) r lims in Hf. rewrite Hf, appendFilters_fold. simpl.
  split; [|split].
  - unfold appendFilters. apply NoDup_collect_new, NoDup_nil_2.
  - intros alias. rewrite elem_of_appendFilters, elem_of_mjoin_fmap. set_solver.
  - intros outer inner ->. rewrite fmap_app, join_app.
    assert (R_Filters (narrow_all (Resolved_of key) outer) =
            appendFilters [] (mjoin (Filters <$> outer))) as ->.
    { rewrite <- appendFilters_fold. clear. unfold narrow_all.
      change (@nil string) with (R_Filters (Resolved_of key)).
      generalize (Resolved_of key). induction outer as [|l outer IH]; intros r0; [done|].
      simpl. by rewrite IH. }
    unfold appendFilters. rewrite collect_new_app. apply collect_new_prefix.
Qed.

(** The system prompt of a resolved key is the levels' prompts, outermost
    first, trimmed, without the empty ones, with a blank line between. *)
Theorem Resolve_SystemPrompt key org project own :
  R_SystemPrompt (Resolve key org project own) =
  join (newline +:+ newline)
    (filter (λ p, p ≠ "")
      ((λ lim, TrimSpace (default "" (SystemPrompt lim)))
         <$> level_limits (levels key org project own))).
Proof.
  pose proof (resolve_fields (Resolved_of key) (levels key org project own)) as
    (_ & _ & _ & Hp & _).
  unfold Resolve. rewrite Hp.
  rewrite (list_fmap_compose (λ lim, default "" (SystemPrompt lim)) TrimSpace).
  by rewrite <- JoinPrompts_fold, foldl_over_fmap.
Qed.

(** No budget is lost, merged or invented. When every level's row is one
    the control plane stores, a scope of type [typ], id [id] and period [p]
    with a budget [n] is on the resolved key exactly when the level of that
    type and id has that budget. *)
Theorem Resolve_budgets key org project own typ id p n :
  (∀ lim, lim ∈ level_limits (levels key org project own) → stored_limits lim) → n ≠ 0 →
  (∃ sc, sc ∈ Scopes (Resolve key org project own) ∧
     SType sc = typ ∧ SID sc = id ∧ SPeriod sc = p ∧ BudgetMicros sc = n) ↔
  ∃ lv lim b, lv ∈ levels key org project own ∧ l_typ lv = typ ∧ l_id lv = id ∧
    l_lim lv = Some lim ∧ b ∈ Budgets lim ∧ Budget_Per b = p ∧ B_BudgetMicros b = n.
Proof. apply resolve_budgets_iff. Qed.

(** Every stored rate limit is enforced at its level. A per-minute one is
    the request and token rate of a scope with its level's type and id; one
    per day or month is a quota per meter it limits, under an id of its own;
    and there are no other rates or quotas. *)
Theorem Resolve_rate_limits key org project own :
  (∀ lim, lim ∈ level_limits (levels key org project own) → stored_limits lim) →
  (∀ typ id rpm tpm, rpm ≠ 0 ∨ tpm ≠ 0 →
    (∃ sc, sc ∈ Scopes (Resolve key org project own) ∧
       SType sc = typ ∧ SID sc = id ∧ RPM sc = rpm ∧ TPM sc = tpm) ↔
    ∃ lv lim rl, lv ∈ levels key org project own ∧ l_typ lv = typ ∧ l_id lv = id ∧
      l_lim lv = Some lim ∧ rl ∈ RateLimits lim ∧ RateLimit_Per rl = PeriodMinute ∧
      RL_Requests rl = rpm ∧ RL_Tokens rl = tpm) ∧
  (∀ sc, sc ∈ Quotas (Resolve key org project own) ↔
    ∃ lv lim rl meter q, lv ∈ levels key org project own ∧ l_lim lv = Some lim ∧
      rl ∈ RateLimits lim ∧ windowed rl ∧
      (meter = MeterRequests ∧ q = RL_Requests rl ∨ meter = MeterTokens ∧ q = RL_Tokens rl) ∧
      0 < q ∧
      sc = {| SType := l_typ lv; SID := l_id lv +:+ "|" +:+ meter; RPM := 0; TPM := 0;
              BudgetMicros := 0; SPeriod := RateLimit_Per rl; SMeter := meter; Quota := q |}).
Proof.
  intros Hst. split.
  - intros typ id rpm tpm Hne. setoid_rewrite elem_of_Scopes.
    assert (∀ lv lim, lv ∈ levels key org project own → l_lim lv = Some lim →
      (∃ sc, sc ∈ (level_scopes lv).1 ∧ RPM sc = rpm ∧ TPM sc = tpm) ↔
      ∃ rl, rl ∈ RateLimits lim ∧ RateLimit_Per rl = PeriodMinute ∧
        RL_Requests rl = rpm ∧ RL_Tokens rl = tpm) as Hlv.
    { intros lv lim Hin Hlim. destruct (Hst lim) as (_ & _ & Hn & Hv).
      { apply elem_of_level_limits. eauto. }
      rewrite <- (level_rates (RateLimits lim) (month_scope lv) rpm tpm) by done.
      rewrite (level_scopes_some lv lim Hlim). simpl fst.
      pose proof (λ sc, count_budgets_rates lv (Budgets lim)
        (count_rates (RateLimits lim) (month_scope lv)).1 sc) as Hb.
      destruct (count_budgets lv (Budgets lim) _) as [month' day].
      destruct (Hb month') as (<- & <- & _). setoid_rewrite elem_of_cons. split.
      - intros (sc & [->|Hd] & H1 & H2); [done|]. destruct (Hb sc) as (_ & _ & Hz).
        destruct (Hz Hd). lia.
      - intros [H1 H2]. by exists month'; auto. }
    split.
    + intros (sc & (lv & Hin & Hsc) & <- & <- & Hr & Ht).
      pose proof (level_scopes_ids lv sc Hsc) as [-> ->].
      destruct (l_lim lv) as [lim|] eqn:Hlim.
      * destruct (proj1 (Hlv lv lim Hin Hlim)) as (rl & ?); [by exists sc|].
        exists lv, lim, rl. tauto.
      * exfalso. unfold level_scopes in Hsc. rewrite Hlim in Hsc. simpl in Hsc.
        apply list_elem_of_singleton in Hsc as ->. simpl in Hr, Ht. lia.
    + intros (lv & lim & rl & Hin & <- & <- & Hlim & Hrl).
      destruct (proj2 (Hlv lv lim Hin Hlim)) as (sc & Hsc & ?); [by exists rl|].
      exists sc. destruct (level_scopes_ids lv sc Hsc). naive_solver.
  - intros sc. rewrite elem_of_Quotas. split.
    + intros (lv & Hin & Hsc). destruct (l_lim lv) as [lim|] eqn:Hlim.
      * rewrite (level_scopes_some lv lim Hlim), count_rates_spec in Hsc. simpl in Hsc.
        apply elem_of_mjoin_fmap in Hsc as (rl & [Hw Hrl]%list_elem_of_filter & Hq).
        apply elem_of_quotas in Hq as (m & q & Hm & Hq & ->). exists lv, lim, rl, m, q. tauto.
      * unfold level_scopes in Hsc. rewrite Hlim in Hsc. set_solver.
    + intros (lv & lim & rl & m & q & Hin & Hlim & Hrl & Hw & Hm & Hq & ->).
      exists lv. split; [done|]. rewrite (level_scopes_some lv lim Hlim), count_rates_spec. simpl.
      apply elem_of_mjoin_fmap. exists rl. split; [by apply list_elem_of_filter|].
      apply elem_of_quotas. exists m, q. tauto.
Qed.
End properties.

(** An organisation, a project and a key, each with guardrails. *)
Definition sample_key : Key :=
  {| Key_ID := "key_1"; Key_OrgID := "org_1"; Key_ProjectID := "proj_1"; Key_UserID := "user_1";
     Key_Kind := KeyStandard |}.

Definition sample_org : Limits :=
  {| AllowedModels := Some ["sonnet"; "keera-speed"]; AllowedLocations := Some ["ch"; "onprem"];
     RateLimits := [{| RL_Requests := 120; RL_Tokens := 0; RL_Period := "" |}];
     Budgets := [{| B_BudgetMicros := 500000000; B_Period := "" |};
                 {| B_BudgetMicros := 50000000; B_Period := PeriodDay |}];
     SystemPrompt := Some " Be brief. "; Filters := ["secrets"; "names"];
     AllowedTools := Some ["github"; "jira/search"] |}.

Definition sample_project : Limits :=
  {| AllowedModels := None; AllowedLocations := None;
     RateLimits := [{| RL_Requests := 0; RL_Tokens := 1000000; RL_Period := PeriodDay |}];
     Budgets := []; SystemPrompt := Some "Answer in German."; Filters := ["names"; "iban"];
     AllowedTools := Some ["github/search_code"; "jira"] |}.

Lemma sample_stored lim :
  lim ∈ level_limits (levels sample_key (Some sample_org) (Some sample_project) None) →
  stored_limits lim.
Proof.
  change (level_limits _) with [sample_org; sample_project]. intros H.
  apply elem_of_cons in H as [->|H]; [|apply list_elem_of_singleton in H as ->];
    (split_and!; [apply (bool_decide_unpack _); vm_compute; exact I
                 |repeat constructor
                 |apply (bool_decide_unpack _); vm_compute; exact I|repeat constructor]).
Defined.

Lemma Resolve_AllowsTool_witness :
  AllowsTool (Resolve sample_key (Some sample_org) (Some sample_project) None)
    "github" "search_code" = true ∧
  ∀ lim, lim ∈ [sample_org; sample_project] →
    tools_allow (AllowedTools lim) "github" "search_code" = true.
Proof.
  split; [vm_compute; reflexivity|].
  apply (Resolve_AllowsTool sample_key (Some sample_org) (Some sample_project) None
           "github" "search_code"); vm_compute; reflexivity.
Defined.

Lemma Resolve_budgets_witness :
  ∃ sc, sc ∈ Scopes (Resolve sample_key (Some sample_org) (Some sample_project) None) ∧
    SType sc = ScopeOrg ∧ SID sc = "org_1" ∧ SPeriod sc = PeriodDay ∧
    BudgetMicros sc = 50000000.
Proof.
  apply (Resolve_budgets sample_key (Some sample_org) (Some sample_project) None
           ScopeOrg "org_1" PeriodDay 50000000 sample_stored ltac:(lia)).
  exists {| l_typ := ScopeOrg; l_id := "org_1"; l_lim := Some sample_org |}, sample_org,
    {| B_BudgetMicros := 50000000; B_Period := PeriodDay |}.
  split_and!; try reflexivity; [left|right; left].
Defined.

Lemma Resolve_rate_limits_witness :
  ∃ sc, sc ∈ Scopes (Resolve sample_key (Some sample_org) (Some sample_project) None) ∧
    SType sc = ScopeOrg ∧ SID sc = "org_1" ∧ RPM sc = 120 ∧ TPM sc = 0.
Proof.
  apply (proj1 (Resolve_rate_limits sample_key (Some sample_org) (Some sample_project) None
           sample_stored) ScopeOrg "org_1" 120 0 ltac:(left; lia)).
  exists {| l_typ := ScopeOrg; l_id := "org_1"; l_lim := Some sample_org |}, sample_org,
    {| RL_Requests := 120; RL_Tokens := 0; RL_Period := "" |}.
  split_and!; try reflexivity; left.
Defined.
