(* ===== verification/Text.v ===== *)
(** * Text that ends up in messages

    UTF-8 as Go reads and writes it, and [sanitizeReason] and [shorten] of
    [internal/gateway/filter_reply.go], which bound what a model's or a
    rule's words may put into an error body, a usage row and a log line. *)
From S2P Require Import Prelude.

(** ** Runes *)

Definition RuneError : Z := 65533.

Definition byteZ (a : Ascii.ascii) : Z := Z.of_nat (byte_val a).

Definition between (lo x hi : Z) : bool := (lo <=? x) && (x <=? hi).

(** The next byte, when it is a continuation byte between [lo] and [hi]. *)
Definition cont_byte (lo hi : Z) (s : string) : option (Z * string) :=
  match s with
  | String a s' => if between lo (byteZ a) hi then Some (byteZ a - 128, s') else None
  | EmptyString => None
  end.

(** [utf8.DecodeRuneInString]: the first rune and what follows it. A byte that
    starts no rune is [RuneError] on its own. *)
Definition decode_rune (s : string) : option (Z * string) :=
  match s with
  | EmptyString => None
  | String a s1 =>
      let x := byteZ a in
      let bad := (RuneError, s1) in
      Some (
        if x <? 128 then (x, s1)
        else if between 194 x 223 then
          default bad ('(b, s2) ← cont_byte 128 191 s1; Some ((x - 192) * 64 + b, s2))
        else if between 224 x 239 then
          default bad
            ('(b, s2) ← cont_byte (if x =? 224 then 160 else 128) (if x =? 237 then 159 else 191) s1;
             '(c, s3) ← cont_byte 128 191 s2;
             Some ((x - 224) * 4096 + b * 64 + c, s3))
        else if between 240 x 244 then
          default bad
            ('(b, s2) ← cont_byte (if x =? 240 then 144 else 128) (if x =? 244 then 143 else 191) s1;
             '(c, s3) ← cont_byte 128 191 s2;
             '(d, s4) ← cont_byte 128 191 s3;
             Some ((x - 240) * 262144 + b * 4096 + c * 64 + d, s4))
        else bad)
  end.

(** [for _, r := range s]. *)
Fixpoint runes_fuel (fuel : nat) (s : string) : list Z :=
  match fuel, decode_rune s with
  | S fuel, Some (r, rest) => r :: runes_fuel fuel rest
  | _, _ => []
  end.

Definition runes (s : string) : list Z := runes_fuel (String.length s) s.

Definition surrogate (r : Z) : bool := between 55296 r 57343.

(** [utf8.RuneLen]. *)
Definition RuneLen (r : Z) : Z :=
  if r <? 0 then -1 else if r <? 128 then 1 else if r <? 2048 then 2
  else if surrogate r then -1 else if r <? 65536 then 3 else if r <=? 1114111 then 4 else -1.

Definition bytes (l : list Z) : string :=
  fold_right (λ z s, String (Ascii.ascii_of_nat (Z.to_nat z)) s) EmptyString l.

(** [strings.Builder.WriteRune], which writes [RuneError] for what is no rune. *)
Definition encode_rune (r : Z) : string :=
  if between 0 r 127 then bytes [r]
  else if between 128 r 2047 then bytes [192 + r / 64; 128 + r mod 64]
  else if between 2048 r 65535 && negb (surrogate r) then
    bytes [224 + r / 4096; 128 + r / 64 mod 64; 128 + r mod 64]
  else if between 65536 r 1114111 then
    bytes [240 + r / 262144; 128 + r / 4096 mod 64; 128 + r / 64 mod 64; 128 + r mod 64]
  else bytes [239; 191; 189].

(** [unicode.IsSpace] and [unicode.IsControl]. *)
Definition unicode_IsSpace (r : Z) : bool :=
  between 9 r 13 || (r =? 32) || (r =? 133) || (r =? 160) || (r =? 5760) || between 8192 r 8202 ||
  (r =? 8232) || (r =? 8233) || (r =? 8239) || (r =? 8287) || (r =? 12288).

Definition unicode_IsControl (r : Z) : bool := between 0 r 31 || between 127 r 159.

(** [strings.ToLower], [strings.ToUpper] and [strconv.Quote] read tables of
    Unicode, which the code relies on only for what they do to ASCII. *)
Class Unicode := {
  ToLower : string → string;
  ToUpper : string → string;
  Quote : string → string;
}.

Definition take_str (n : nat) (s : string) : string := String.substring 0 n s.

(** [utf8.RuneStart] of the byte at [i]. *)
Definition rune_start_at (s : string) (i : nat) : bool :=
  match String.get i s with
  | Some a => negb (between 128 (byteZ a) 191)
  | None => false
  end.

(** The scan of [utf8.DecodeLastRuneInString] back to a byte that can start a
    rune, at most [n] bytes from [start]. *)
Fixpoint back_to_start (n start : nat) (s : string) : nat :=
  match n, start with
  | S n, S start' => if rune_start_at s start then start else back_to_start n start' s
  | _, _ => start
  end.

(** The size [utf8.DecodeLastRuneInString] returns. *)
Definition last_rune_size (s : string) : nat :=
  match String.length s with
  | O => O
  | S e =>
      match String.get e s with
      | Some a =>
          if byteZ a <? 128 then 1%nat
          else
            let start := back_to_start 3 (e - 1) s in
            match decode_rune (String.substring start (String.length s - start) s) with
            | Some (_, EmptyString) => (String.length s - start)%nat
            | _ => 1%nat
            end
      | None => 1%nat
      end
  end.

(** [strings.TrimRight s " "]. *)
Definition TrimRight_space (s : string) : string :=
  let fix drop s := match s with
    | String a s' => if bool_decide (a = Ascii.ascii_of_nat 32) then drop s' else s
    | EmptyString => EmptyString
    end in
  str_rev (drop (str_rev s)).

(** ** The reason of a refusal *)

Definition MaxRefusalReasonBytes : Z := 240.

Definition ellipsis : string := encode_rune 8230.

Definition space : string := chr 32.

(** The loop of [sanitizeReason]: what is written, and whether it stopped at
    the bound. *)
Fixpoint sanitize_loop (rs : list Z) (b : string) (gap : bool) : string * bool :=
  match rs with
  | [] => (b, false)
  | r :: rs =>
      if unicode_IsSpace r then sanitize_loop rs b (len b >? 0)
      else if unicode_IsControl r || (r =? RuneError) then sanitize_loop rs b gap
      else
        let n := if gap then RuneLen r + 1 else RuneLen r in
        if len b + n >? MaxRefusalReasonBytes then (b, true)
        else sanitize_loop rs ((if gap then b +:+ space else b) +:+ encode_rune r) false
  end.

(** [for len(out)+len(ellipsis) > MaxRefusalReasonBytes]: each round drops the
    last rune, so [len out] rounds are enough. *)
Fixpoint make_room (fuel : nat) (out : string) : string :=
  match fuel with
  | O => out
  | S fuel =>
      if len out + len ellipsis >? MaxRefusalReasonBytes
      then make_room fuel (take_str (String.length out - last_rune_size out) out)
      else out
  end.

Definition sanitizeReason (s : string) : string :=
  let '(b, truncated) := sanitize_loop (runes (TrimSpace s)) "" false in
  if negb truncated then b
  else TrimRight_space (make_room (String.length b) b) +:+ ellipsis.

(** [for n > 0 && !utf8.RuneStart(s[n]) { n-- }]. *)
Fixpoint rune_boundary (n : nat) (s : string) : nat :=
  match n with
  | O => O
  | S n' => if rune_start_at s n then n else rune_boundary n' s
  end.

(** [shorten], for [0 <= n]. *)
Definition shorten (s : string) (n : Z) : string :=
  if len s <=? n then s
  else take_str (rune_boundary (Z.to_nat n) s) s +:+ ellipsis.

(** ** Lemmas *)

Section lemmas.
Implicit Types (s t b : string) (r : Z).

Definition all_chars (P : Ascii.ascii → Prop) s : Prop := Forall P (String.list_ascii_of_string s).

Lemma all_chars_app P s t : all_chars P (s +:+ t) ↔ all_chars P s ∧ all_chars P t.
Proof.
  unfold all_chars. induction s as [|a s IH]; [rewrite str_app_nil_l; simpl; intuition|].
  rewrite str_app_cons. simpl. rewrite !Forall_cons, IH. tauto.
Qed.

Lemma take_str_split n s :
  (n <= String.length s)%nat → ∃ t, s = take_str n s +:+ t ∧ String.length (take_str n s) = n.
Proof.
  revert n. induction s as [|a s IH]; intros [|n] Hn; simpl in *; try lia.
  - by exists "".
  - by exists (String a s).
  - destruct (IH n) as (t & Ht & Hl); [lia|]. exists t. unfold take_str in *. simpl.
    rewrite str_app_cons. split; congruence.
Qed.

Lemma take_str_chars P n s :
  (n <= String.length s)%nat → all_chars P s → all_chars P (take_str n s).
Proof.
  intros (t & Ht & _)%take_str_split H. rewrite Ht in H. by apply all_chars_app in H as [? _].
Qed.

(** A rune the decoder produces: a Unicode scalar value. *)
Definition scalar r : Prop := 0 <= r <= 1114111 ∧ surrogate r = false.

Lemma byteZ_range (a : Ascii.ascii) : 0 <= byteZ a <= 255.
Proof. unfold byteZ, byte_val. pose proof (Ascii.nat_ascii_bounded a). lia. Qed.

Lemma cont_byte_spec lo hi s v s' :
  cont_byte lo hi s = Some (v, s') →
  lo - 128 <= v <= hi - 128 ∧ (String.length s' < String.length s)%nat.
Proof.
  unfold cont_byte, between. destruct s as [|a s]; [done|]. case_match; [|done].
  intros [= <- <-]. to_prop. simpl. lia.
Qed.

Ltac decode_steps :=
  repeat match goal with
  | |- context [default _ (cont_byte ?lo ?hi ?s ≫= _)] =>
      let H := fresh in
      destruct (cont_byte lo hi s) as [[? ?]|] eqn:H; simpl;
      [apply cont_byte_spec in H|]
  | |- context [if between ?lo ?x ?hi then _ else _] =>
      let H := fresh in destruct (between lo x hi) eqn:H; unfold between in H; to_prop
  end.

Lemma scalar_intro r : 0 <= r < 55296 ∨ 57343 < r <= 1114111 → scalar r.
Proof.
  unfold scalar, surrogate, between. intros H. split; [lia|]. apply andb_false_iff.
  rewrite !Z.leb_gt. lia.
Qed.

Lemma decode_rune_spec s r rest :
  decode_rune s = Some (r, rest) → scalar r ∧ (String.length rest < String.length s)%nat.
Proof.
  destruct s as [|a s]; [done|]. cbn [decode_rune]. intros [= H]. revert H.
  assert (scalar RuneError) as He by (apply scalar_intro; unfold RuneError; lia).
  pose proof (byteZ_range a). set (x := byteZ a) in *. simpl String.length.
  destruct (x <? 128) eqn:?; to_prop.
  { intros [= <- <-]. split; [apply scalar_intro|]; lia. }
  decode_steps; intros [= <- <-]; (split; [|lia]); try done; apply scalar_intro;
    repeat (case_match; to_prop); lia.
Qed.

Lemma runes_scalar s : Forall scalar (runes s).
Proof.
  unfold runes. generalize (String.length s) as n. intros n. revert s.
  induction n as [|n IH]; intros s; [constructor|]. simpl.
  destruct (decode_rune s) as [[r rest]|] eqn:H; [|constructor].
  apply decode_rune_spec in H as [? _]. by constructor.
Qed.

Lemma encode_rune_len r : scalar r → len (encode_rune r) = RuneLen r.
Proof.
  intros [Hr Hs]. unfold encode_rune, RuneLen, between. rewrite Hs, andb_true_r.
  repeat (case_match; to_prop); try done; lia.
Qed.

(** A byte of one printed line. *)
Definition line_byte (a : Ascii.ascii) : Prop := 32 <= byteZ a ∧ byteZ a ≠ 127.

Lemma bytes_line l :
  Forall (λ z, 32 <= z <= 255 ∧ z ≠ 127) l → all_chars line_byte (bytes l).
Proof.
  unfold all_chars. induction 1 as [|z l Hz _ IH]; simpl; constructor; [|done].
  unfold line_byte, byteZ, byte_val. rewrite Ascii.nat_ascii_embedding by lia. lia.
Qed.

Lemma encode_rune_line r :
  scalar r → unicode_IsSpace r = false → unicode_IsControl r = false →
  all_chars line_byte (encode_rune r).
Proof.
  intros [Hr _] Hsp Hc. unfold unicode_IsSpace, unicode_IsControl, between in *.
  unfold encode_rune, between. to_prop. repeat (case_match; to_prop);
    apply bytes_line; repeat constructor; try (Z.to_euclidean_division_equations; lia).
  all: destruct Hc; to_prop; lia.
Qed.

Lemma sanitize_loop_spec rs b gap :
  Forall scalar rs → len b <= MaxRefusalReasonBytes → all_chars line_byte b →
  let b' := (sanitize_loop rs b gap).1 in
  len b' <= MaxRefusalReasonBytes ∧ all_chars line_byte b'.
Proof.
  intros Hrs. revert b gap. induction Hrs as [|r rs Hr _ IH]; intros b gap Hb Hl; [done|].
  cbn [sanitize_loop]. destruct (unicode_IsSpace r) eqn:Hsp; [by apply IH|].
  destruct (unicode_IsControl r) eqn:Hc; [by apply IH|]. simpl orb.
  destruct (r =? RuneError); [by apply IH|].
  match goal with |- context [len b + ?n >? _] => destruct (len b + n >? _) eqn:Hn end; [done|].
  to_prop. pose proof (encode_rune_len r Hr). apply IH.
  - rewrite len_app. destruct gap; [rewrite len_app; change (len space) with 1|]; lia.
  - apply all_chars_app. split; [|by apply encode_rune_line].
    destruct gap; [apply all_chars_app; split; [done|]|done]. by apply (bytes_line [32]); repeat constructor.
Qed.

Lemma last_rune_size_bounds s :
  s ≠ "" → (1 <= last_rune_size s <= String.length s)%nat.
Proof.
  intros Hs. unfold last_rune_size. destruct (String.length s) as [|e] eqn:Hl; [by destruct s|].
  destruct (String.get e s); [|lia]. case_match; [lia|].
  assert (∀ n start, (back_to_start n start s <= start)%nat) as Hbk.
  { induction n as [|n IH]; intros [|st]; simpl; try lia. case_match; [lia|].
    specialize (IH st). lia. }
  specialize (Hbk 3%nat (e - 1)%nat).
  destruct (decode_rune _) as [[? [|]]|]; lia.
Qed.

Lemma make_room_spec fuel out :
  (String.length out <= fuel)%nat → all_chars line_byte out →
  let out' := make_room fuel out in
  len out' + len ellipsis <= MaxRefusalReasonBytes ∧ all_chars line_byte out'.
Proof.
  revert out. induction fuel as [|fuel IH]; intros out Hf Hl; simpl.
  - destruct out; [done|simpl in Hf; lia].
  - destruct (_ >? _) eqn:Hc; to_prop; [|split; [lia|done]].
    assert (out ≠ "") as Hne by (intros ->; vm_compute in Hc; done).
    pose proof (last_rune_size_bounds out Hne).
    destruct (take_str_split (String.length out - last_rune_size out) out) as (t & _ & Hlen);
      [lia|]. apply IH; [lia|apply take_str_chars; [lia|done]].
Qed.

Lemma str_rev_chars P s : all_chars P s → all_chars P (str_rev s).
Proof.
  unfold all_chars, str_rev. rewrite String.list_ascii_of_string_of_list_ascii.
  apply Forall_rev.
Qed.

Lemma length_list_ascii s : length (String.list_ascii_of_string s) = String.length s.
Proof. induction s as [|a s IH]; simpl; congruence. Qed.

Lemma len_str_rev s : len (str_rev s) = len s.
Proof.
  unfold len. f_equal. rewrite <- !length_list_ascii. unfold str_rev.
  rewrite String.list_ascii_of_string_of_list_ascii. apply length_rev.
Qed.

Lemma TrimRight_space_spec P s :
  len (TrimRight_space s) <= len s ∧ (all_chars P s → all_chars P (TrimRight_space s)).
Proof.
  unfold TrimRight_space. set (drop := fix drop s := match s with
    | String a s' => if bool_decide (a = Ascii.ascii_of_nat 32) then drop s' else s
    | EmptyString => EmptyString end).
  assert (∀ t, len (drop t) <= len t ∧ (all_chars P t → all_chars P (drop t))) as H.
  { unfold all_chars, len. induction t as [|a t [IHl IHc]]; [done|]. cbn [drop].
    case_bool_decide; [|done]. cbn [String.length String.list_ascii_of_string].
    rewrite Forall_cons. split; [lia|tauto]. }
  rewrite len_str_rev. destruct (H (str_rev s)) as [Hl Hc]. rewrite len_str_rev in Hl.
  split; [done|]. intros Hs. apply str_rev_chars, Hc, str_rev_chars, Hs.
Qed.
End lemmas.

(** ** Properties *)

(** Whatever a model or a rule's author wrote, the reason of a refusal is
    one line of at most [MaxRefusalReasonBytes] bytes, ellipsis included, with
    no control byte in it; and the loop that makes room for the ellipsis
    always ends with room for it. *)
Theorem sanitizeReason_one_line (s : string) :
  len (sanitizeReason s) <= MaxRefusalReasonBytes ∧ all_chars line_byte (sanitizeReason s).
Proof.
  unfold sanitizeReason.
  pose proof (sanitize_loop_spec (runes (TrimSpace s)) "" false (runes_scalar _)) as H.
  destruct (sanitize_loop _ _ _) as [b tr]. simpl in H.
  destruct H as [Hb Hl]; [done|by constructor|].
  destruct tr; simpl; [|done].
  destruct (make_room_spec (String.length b) b) as [Hm Hc]; [done|done|].
  destruct (TrimRight_space_spec line_byte (make_room (String.length b) b)) as [Ht Hp].
  rewrite len_app, all_chars_app. split; [lia|]. split; [auto|].
  apply encode_rune_line; [apply scalar_intro; lia|done|done].
Qed.
