(* ===== verification/Keys.v ===== *)
(** * API keys and other secret tokens

    [internal/auth/key.go]: how a key is made, what shape every key has, and
    how a request presents one. Randomness and SHA-256 are parameters; the
    base64 of the standard library is written out. *)
From S2P Require Import Prelude Tenancy Text.

Definition Prefix : string := "keera_sk_".

Definition prefixLen : nat := String.length Prefix + 6.

Definition scheme : string := "bearer".

(** *** [base64.RawURLEncoding] *)

(** The character that stands for the six bits [n]. *)
Definition url_char (n : Z) : Ascii.ascii :=
  Ascii.ascii_of_nat (Z.to_nat
    (if n <? 26 then 65 + n else if n <? 52 then 97 + (n - 26) else if n <? 62 then 48 + (n - 52)
     else if n =? 62 then 45 else 95)).

Definition six (n shift : Z) : Ascii.ascii := url_char (Z.land (Z.shiftr n shift) 63).

Fixpoint EncodeToString (raw : list Z) : string :=
  match raw with
  | a :: b :: c :: raw =>
      let n := a * 65536 + b * 256 + c in
      String (six n 18) (String (six n 12) (String (six n 6) (String (six n 0) (EncodeToString raw))))
  | [a; b] =>
      let n := a * 65536 + b * 256 in
      String (six n 18) (String (six n 12) (String (six n 6) EmptyString))
  | [a] => String (six (a * 65536) 18) (String (six (a * 65536) 12) EmptyString)
  | [] => EmptyString
  end.

(** [base64.RawURLEncoding.EncodedLen]. *)
Definition EncodedLen (n : Z) : Z := n / 3 * 4 + (n mod 3 * 8 + 5) / 6.

(** *** Making and recognising a token *)

(** [RandomToken], of the 32 bytes [rand.Read] gave. *)
Definition RandomToken (raw : list Z) : string := EncodeToString raw.

Definition encoded32Len : Z := EncodedLen 32.

(** The bytes [Encoded32] lets through. A string of other runes has a byte
    that is none of them, and the code's rune is that byte's for these. *)
Definition token_byte (c : Ascii.ascii) : bool :=
  is_lower c || is_upper c || is_digit c || bool_decide (c = hyphen) ||
  bool_decide (c = Ascii.ascii_of_nat 95).

Definition Encoded32 (s : string) : bool :=
  if negb (len s =? encoded32Len) then false else all_bytes (λ _ c, token_byte c) 0 s.

Definition WellFormed (key : string) : bool :=
  match CutPrefix key Prefix with
  | Some rest => Encoded32 rest
  | None => false
  end.

(** SHA-256 of the standard library. *)
Class SHA256 := { Sum256 : string → string }.

(** [Hash]. *)
Definition Hash `{SHA256} (key : string) : string := Sum256 key.

(** [Generate]: the key, the value stored for it and its display prefix. *)
Definition Generate `{SHA256} (raw : list Z) : string * string * string :=
  let key := Prefix +:+ RandomToken raw in (key, Hash key, take_str prefixLen key).

(** [FromHeader]; [None] is [errMalformed]. *)
Definition FromHeader (h : string) : option string :=
  let h := TrimSpace h in
  if bool_decide (h = "") then None
  else if (len scheme <=? len h) && EqualFold (take_str (String.length scheme) h) scheme then
    match drop_str (String.length scheme) h with
    | EmptyString => None
    | String c _ as rest =>
        if bool_decide (c = Ascii.ascii_of_nat 32) || bool_decide (c = Ascii.ascii_of_nat 9)
        then Some (TrimSpace rest) else Some h
    end
  else Some h.

(** ** Facts *)

Lemma url_char_token n : 0 <= n < 64 → token_byte (url_char n) = true.
Proof.
  intros Hn. assert (∃ k, n = Z.of_nat k ∧ (k < 64)%nat) as (k & -> & Hk)
    by (exists (Z.to_nat n); lia).
  clear Hn. do 64 (destruct k as [|k]; [vm_compute; reflexivity|]). lia.
Qed.

Lemma six_token n shift : token_byte (six n shift) = true.
Proof.
  apply url_char_token. change 63 with (Z.ones 6). rewrite Z.land_ones by lia.
  apply Z.mod_pos_bound. lia.
Qed.

Lemma all_bytes_const (f : Ascii.ascii → bool) i s :
  all_bytes (λ _, f) i s = true ↔ all_chars (λ c, f c = true) s.
Proof.
  unfold all_chars. revert i. induction s as [|c s IH]; intros i; simpl; [by split|].
  by rewrite andb_true_iff, IH, Forall_cons.
Qed.

#[local] Hint Resolve six_token : core.

(** Three bytes at a time. *)
Lemma three_induction (P : list Z → Prop) :
  P [] → (∀ a, P [a]) → (∀ a b, P [a; b]) → (∀ a b c l, P l → P (a :: b :: c :: l)) → ∀ l, P l.
Proof.
  intros H0 H1 H2 H3. fix IH 1. intros [|a [|b [|c l]]]; [done..|]. apply H3, IH.
Qed.

Lemma EncodeToString_token raw : all_chars (λ c, token_byte c = true) (EncodeToString raw).
Proof.
  unfold all_chars. induction raw as [|a|a b|a b c raw IH] using three_induction; simpl;
    repeat constructor; auto.
Qed.

Lemma EncodeToString_len raw : len (EncodeToString raw) = EncodedLen (Z.of_nat (length raw)).
Proof.
  unfold len, EncodedLen. induction raw as [|a|a b|a b c raw IH] using three_induction; [done..|].
  cbn [EncodeToString String.length length]. rewrite !Nat2Z.inj_succ, IH.
  Z.to_euclidean_division_equations. lia.
Qed.

Lemma RandomToken_Encoded32 raw : length raw = 32%nat → Encoded32 (RandomToken raw) = true.
Proof.
  intros Hl. unfold Encoded32, RandomToken. rewrite EncodeToString_len, Hl. simpl.
  apply all_bytes_const, EncodeToString_token.
Qed.

(** *** Different bytes make different tokens *)

Definition is_byte (z : Z) : Prop := 0 <= z < 256.

Definition url_index (c : Ascii.ascii) : Z :=
  let n := Z.of_nat (byte_val c) in
  if is_upper c then n - 65 else if is_lower c then n - 97 + 26 else if is_digit c then n - 48 + 52
  else if n =? 45 then 62 else 63.

Lemma url_index_char n : 0 <= n < 64 → url_index (url_char n) = n.
Proof.
  intros Hn. assert (∃ k, n = Z.of_nat k ∧ (k < 64)%nat) as (k & -> & Hk)
    by (exists (Z.to_nat n); lia).
  clear Hn. do 64 (destruct k as [|k]; [vm_compute; reflexivity|]). lia.
Qed.

Lemma six_index n m shift :
  0 <= shift → six n shift = six m shift → n / 2 ^ shift mod 64 = m / 2 ^ shift mod 64.
Proof.
  intros Hs. unfold six. change 63 with (Z.ones 6).
  rewrite !Z.land_ones, !Z.shiftr_div_pow2 by lia. intros H%(f_equal url_index). rewrite !url_index_char in H; [done|..];
    change (2 ^ 6) with 64; apply Z.mod_pos_bound; lia.
Qed.

(** The four groups of six bits of three bytes. *)
Lemma sextets n :
  0 <= n < 16777216 →
  n = 262144 * (n / 2 ^ 18 mod 64) + 4096 * (n / 2 ^ 12 mod 64) + 64 * (n / 2 ^ 6 mod 64)
      + n / 2 ^ 0 mod 64.
Proof.
  change (2 ^ 18) with 262144. change (2 ^ 12) with 4096. change (2 ^ 6) with 64.
  change (2 ^ 0) with 1. intros Hn. rewrite Z.div_1_r, (Z.mod_small (n / 262144)) by
    (Z.to_euclidean_division_equations; lia).
  change 262144 with (64 * (64 * 64)). change 4096 with (64 * 64).
  rewrite <- !Z.div_div by lia. Z.to_euclidean_division_equations. lia.
Qed.

Lemma sextets_eq n m :
  0 <= n < 16777216 → 0 <= m < 16777216 →
  n / 2 ^ 18 mod 64 = m / 2 ^ 18 mod 64 → n / 2 ^ 12 mod 64 = m / 2 ^ 12 mod 64 →
  n / 2 ^ 6 mod 64 = m / 2 ^ 6 mod 64 → n / 2 ^ 0 mod 64 = m / 2 ^ 0 mod 64 → n = m.
Proof. intros Hn Hm H1 H2 H3 H4. rewrite (sextets n), (sextets m) by done. congruence. Qed.

Lemma EncodeToString_inj raw raw' :
  Forall is_byte raw → Forall is_byte raw' → length raw = length raw' →
  EncodeToString raw = EncodeToString raw' → raw = raw'.
Proof.
  unfold is_byte. revert raw'. induction raw as [|a|a b|a b c raw IH] using three_induction;
    intros raw' Hb Hb' Hl He.
  - by destruct raw'.
  - destruct raw' as [|a' [|? ?]]; try done. cbn [EncodeToString] in He. injection He.
    intros H1%six_index H2%six_index; [|lia..].
    decompose_Forall_hyps. assert (a * 65536 = a' * 65536); [|f_equal; lia].
    apply sextets_eq; [lia..|done|done| |]; change (2 ^ 6) with 64; change (2 ^ 0) with 1;
      rewrite ?Z.div_1_r; Z.to_euclidean_division_equations; lia.
  - destruct raw' as [|a' [|b' [|? ?]]]; try done. cbn [EncodeToString] in He. injection He.
    intros H1%six_index H2%six_index H3%six_index; [|lia..].
    decompose_Forall_hyps. assert (a * 65536 + b * 256 = a' * 65536 + b' * 256).
    { apply sextets_eq; [lia..|done|done|done|]; change (2 ^ 0) with 1;
        rewrite !Z.div_1_r; Z.to_euclidean_division_equations; lia. }
    assert (a = a' ∧ b = b') as [-> ->]; [lia|done].
  - destruct raw' as [|a' [|b' [|c' raw']]]; try done. cbn [EncodeToString] in He. injection He.
    intros He' H1%six_index H2%six_index H3%six_index H4%six_index; [|lia..].
    decompose_Forall_hyps.
    rewrite (IH raw'); [|done..|lia|done].
    pose proof (sextets_eq (a * 65536 + b * 256 + c) (a' * 65536 + b' * 256 + c')
      ltac:(lia) ltac:(lia) H4 H3 H2 H1).
    assert (a = a' ∧ b = b' ∧ c = c') as (-> & -> & ->); [lia|done].
Qed.

(** *** Presenting a key *)

(** A visible ASCII character: never part of a blank. *)
Definition graphic (c : Ascii.ascii) : bool := (33 <=? byte_val c)%nat && (byte_val c <=? 126)%nat.

Lemma token_graphic c : token_byte c = true → graphic c = true.
Proof.
  destruct c as [[] [] [] [] [] [] [] []]; vm_compute; congruence.
Qed.

Lemma trim_start_graphic rev c s : graphic c = true → trim_start rev (String c s) = String c s.
Proof.
  unfold graphic. rewrite andb_true_iff, !Nat.leb_le. intros [H1 H2]. cbn [trim_start].
  assert (space1 c = false) as ->.
  { unfold space1. rewrite orb_false_iff, andb_false_iff, !Nat.leb_gt, Nat.eqb_neq. lia. }
  destruct s as [|b s]; [done|].
  assert (∀ x y, (byte_val y <= 126)%nat → space2 x y = false) as H2y.
  { intros x y Hy. unfold space2. rewrite andb_false_iff, orb_false_iff, !Nat.eqb_neq. lia. }
  assert (∀ x y, (byte_val x <= 126)%nat → space2 x y = false) as H2x.
  { intros x y Hy. unfold space2. rewrite andb_false_iff, !Nat.eqb_neq. lia. }
  rewrite H2y, H2x by done. replace (if rev then false else false) with false by (by destruct rev).
  destruct s as [|d s]; [done|].
  assert (∀ x y, space3 x y c = false) as ->.
  { intros x y. unfold space3.
    assert ((byte_val c =? 128)%nat = false ∧ (128 <=? byte_val c)%nat = false ∧
      (byte_val c =? 168)%nat = false ∧ (byte_val c =? 169)%nat = false ∧
      (byte_val c =? 175)%nat = false ∧ (byte_val c =? 159)%nat = false) as (-> & -> & -> & -> & -> & ->)
      by (rewrite !Nat.eqb_neq, Nat.leb_gt; lia).
    by rewrite !andb_false_r. }
  assert (∀ x y, space3 c x y = false) as ->.
  { intros x y. unfold space3.
    assert ((byte_val c =? 225)%nat = false ∧ (byte_val c =? 226)%nat = false ∧
      (byte_val c =? 227)%nat = false) as (-> & -> & ->) by (rewrite !Nat.eqb_neq; lia).
    done. }
  by destruct rev.
Qed.

(** Text that starts and ends visibly is trimmed already. *)
Lemma TrimSpace_id c s t d :
  graphic c = true → graphic d = true → String c s = t +:+ String d EmptyString →
  TrimSpace (String c s) = String c s.
Proof.
  intros Hc Hd Ht. unfold TrimSpace. rewrite trim_start_graphic by done. rewrite Ht.
  rewrite str_rev_app. change (str_rev (String d EmptyString)) with (String d EmptyString).
  rewrite str_app_cons, trim_start_graphic, <- str_app_cons by done.
  change (String d EmptyString) with (str_rev (String d EmptyString)) at 1.
  by rewrite <- str_rev_app, str_rev_involutive.
Qed.

Lemma str_last c s : ∃ t d, String c s = t +:+ String d EmptyString.
Proof.
  revert c. induction s as [|b s IH]; intros c.
  - exists "", c. by rewrite str_app_nil_l.
  - destruct (IH b) as (t & d & ->). exists (String c t), d. by rewrite str_app_cons.
Qed.

Lemma TrimSpace_graphic s : all_chars (λ c, graphic c = true) s → TrimSpace s = s.
Proof.
  destruct s as [|c s]; [done|]. intros Hs. destruct (str_last c s) as (t & d & Ht).
  pose proof Hs as [Hc _]%Forall_cons. eapply TrimSpace_id; [done| |done].
  rewrite Ht in Hs. apply all_chars_app in Hs as [_ [Hd _]%Forall_cons]. done.
Qed.

Lemma WellFormed_graphic key : WellFormed key = true → all_chars (λ c, graphic c = true) key.
Proof.
  unfold WellFormed. destruct (CutPrefix key Prefix) as [rest|] eqn:Hk; [|done].
  apply CutPrefix_spec in Hk as ->. unfold Encoded32. case_match; [done|].
  rewrite all_bytes_const, all_chars_app. intros Hr. split; [by vm_compute; repeat constructor|].
  unfold all_chars in *. eapply Forall_impl; [exact Hr|]. exact token_graphic.
Qed.

(** The bearer word, however it is written, starts with a letter. *)
Lemma EqualFold_scheme w :
  EqualFold w scheme = true → ∃ c s, w = String c s ∧ graphic c = true ∧ String.length w = 6%nat.
Proof.
  unfold EqualFold. intros H%bool_decide_eq_true.
  assert (String.length w = 6%nat) as Hl.
  { change 6%nat with (String.length (ToLower_ascii scheme)). rewrite <- H. clear H.
    induction w as [|c w IH]; simpl; congruence. }
  destruct w as [|c w]; [done|]. exists c, w. split; [done|]. split; [|done].
  injection H as Hc _. destruct c as [[] [] [] [] [] [] [] []]; vm_compute in Hc |- *; congruence.
Qed.

Lemma take_str_app a b : take_str (String.length a) (a +:+ b) = a.
Proof.
  unfold take_str. induction a as [|x a IH]; [by destruct b|].
  rewrite str_app_cons. cbn [String.length String.substring]. by rewrite IH.
Qed.

(** A key made from 32 random bytes has the shape every key has, its prefix
    shows six characters of it, and other bytes make another key. *)
Theorem Generate_made `{SHA256} (raw : list Z) :
  length raw = 32%nat → Forall is_byte raw →
  let '(key, hash, prefix) := Generate raw in
  WellFormed key = true ∧ hash = Hash key ∧
  (∃ hidden, key = prefix +:+ hidden ∧ len hidden = 37) ∧
  ∀ raw', length raw' = 32%nat → Forall is_byte raw' →
    (Generate raw').1.1 = key → raw' = raw.
Proof.
  intros Hl Hb. unfold Generate. set (key := Prefix +:+ RandomToken raw). split_and!.
  - unfold WellFormed, key. rewrite (proj2 (CutPrefix_spec _ _ (RandomToken raw)) eq_refl).
    by apply RandomToken_Encoded32.
  - done.
  - assert (String.length key = 52%nat) as Hk.
    { unfold key. apply Nat2Z.inj. change (len (Prefix +:+ RandomToken raw) = 52).
      rewrite len_app. unfold RandomToken. rewrite EncodeToString_len, Hl. done. }
    destruct (take_str_split prefixLen key) as (t & Ht & Hp); [rewrite Hk; vm_compute; lia|].
    exists t. split; [done|]. apply (f_equal len) in Ht. rewrite len_app in Ht.
    unfold len in *. rewrite Hk, Hp in Ht. change (Z.of_nat prefixLen) with 15 in Ht. lia.
  - intros raw' Hl' Hb' He. unfold key, RandomToken in He. cbn [fst] in He.
    apply (f_equal (drop_str (String.length Prefix))) in He. rewrite !drop_str_app in He.
    apply EncodeToString_inj; [done|done|lia|done].
Qed.

(** A well-formed key is read out of a request whether it comes bare or after
    the bearer scheme, in any case and with a space or a tab. *)
Theorem FromHeader_reads (key w : string) (blank : Ascii.ascii) :
  WellFormed key = true → EqualFold w scheme = true → blank = Ascii.ascii_of_nat 32 ∨ blank = Ascii.ascii_of_nat 9 →
  FromHeader key = Some key ∧ FromHeader (w +:+ String blank key) = Some key.
Proof.
  intros Hk Hw Hblank. pose proof (WellFormed_graphic key Hk) as Hg.
  assert (∃ rest, key = Prefix +:+ rest) as [rest Hrest].
  { unfold WellFormed in Hk. destruct (CutPrefix key Prefix) as [rest|] eqn:E; [|done].
    apply CutPrefix_spec in E. eauto. }
  split.
  - unfold FromHeader. rewrite TrimSpace_graphic, bool_decide_eq_false_2 by (done || by subst).
    assert (EqualFold (take_str (String.length scheme) key) scheme = false) as ->;
      [|by rewrite andb_false_r]. by subst key.
  - destruct (EqualFold_scheme w Hw) as (c & s & -> & Hc & Hl).
    assert (TrimSpace (String c s +:+ String blank key) = String c s +:+ String blank key) as Ht.
    { rewrite str_app_cons. subst key. change (Prefix +:+ rest) with
        (String (Ascii.ascii_of_nat 107) (drop_str 1 Prefix +:+ rest)) in *.
      destruct (str_last (Ascii.ascii_of_nat 107) (drop_str 1 Prefix +:+ rest)) as (t & d & Htd).
      eapply (TrimSpace_id _ _ (String c s +:+ String blank t) d); [done| |].
      - rewrite Htd in Hg. apply all_chars_app in Hg as [_ [? _]%Forall_cons]. done.
      - rewrite Htd, !str_app_cons. f_equal. rewrite str_app_assoc, str_app_cons. done. }
    unfold FromHeader. rewrite Ht, bool_decide_eq_false_2 by (by rewrite str_app_cons).
    replace (String.length scheme) with (String.length (String c s)) by done.
    rewrite take_str_app, drop_str_app, Hw.
    assert ((len scheme <=? len (String c s +:+ String blank key)) = true) as ->.
    { rewrite len_app. apply Z.leb_le. pose proof (len_nonneg (String blank key)).
      unfold len in *. rewrite Hl. change (String.length scheme) with 6%nat. lia. }
    cbn [andb]. assert (TrimSpace (String blank key) = key) as Htrim.
    { rewrite <- (TrimSpace_graphic key Hg) at 2. unfold TrimSpace. by destruct Hblank as [-> | ->]. }
    cbv beta iota. rewrite Htrim. by destruct Hblank as [-> | ->].
Qed.

(** *** Witnesses *)

Definition sample_raw : list Z := replicate 32 7.

Definition sample_token : string := Prefix +:+ RandomToken sample_raw.

Lemma Generate_made_witness :
  let _ := {| Sum256 s := s |} in
  WellFormed sample_token = true ∧ ∃ hidden, sample_token = "keera_sk_BwcHBw" +:+ hidden ∧ len hidden = 37.
Proof.
  assert (Forall is_byte sample_raw) as Hb by (apply Forall_replicate; split; done).
  destruct (@Generate_made {| Sum256 s := s |} sample_raw eq_refl Hb) as (Hw & _ & Hh & _).
  split; [exact Hw|exact Hh].
Defined.

Lemma FromHeader_reads_witness :
  FromHeader sample_token = Some sample_token ∧ FromHeader ("Bearer " +:+ sample_token) = Some sample_token.
Proof.
  apply (FromHeader_reads sample_token "Bearer" (Ascii.ascii_of_nat 32)); [reflexivity|reflexivity|left; reflexivity].
Defined.
