(* ===== verification/Hosting.v ===== *)
(** * Where a model is served

    [internal/policy/hosting.go]: which side of the customer's network a
    backend is on, read off its address. Parsing a URL and an IP address is
    the standard library's, and a parameter; what is decided from the parts
    is here. *)
From S2P Require Import Prelude Tenancy Pricing Text.

(** ** Addresses *)

(** What is read of a parsed [url.URL]: [u.Hostname()] is the host without its
    port and brackets, [url_user] whether it carries a user. *)
Record URL := { url_Scheme : string; url_Host : string; url_Hostname : string; url_user : bool }.

(** A [netip.Addr]: its family, its bits as a number and its zone. *)
Record Addr := { a_is4 : bool; a_bits : Z; a_zone : string }.

(** A [netip.Prefix] without a zone. *)
Record netip_Prefix := { p_is4 : bool; p_bits : Z; p_len : Z }.

(** [url.Parse] and [netip.ParseAddr]; [None] is an error. *)
Class Addresses := {
  url_Parse : string → option URL;
  netip_ParseAddr : string → option Addr;
}.

Definition WithZone_none (a : Addr) : Addr :=
  {| a_is4 := a_is4 a; a_bits := a_bits a; a_zone := "" |}.

(** [Addr.Unmap]: an IPv4 address written as an IPv6 one is the IPv4 one. *)
Definition Unmap (a : Addr) : Addr :=
  if negb (a_is4 a) && (Z.shiftr (a_bits a) 32 =? 65535)
  then {| a_is4 := true; a_bits := Z.land (a_bits a) 4294967295; a_zone := "" |} else a.

(** [Prefix.Contains]: the same family, no zone, and the first bits agree. *)
Definition Contains (p : netip_Prefix) (a : Addr) : bool :=
  let width := if p_is4 p then 32 else 128 in
  Bool.eqb (p_is4 p) (a_is4 a) && bool_decide (a_zone a = "") &&
  (Z.shiftr (a_bits a) (width - p_len p) =? Z.shiftr (p_bits p) (width - p_len p)).

Definition ip4 (a b c d : Z) : Z := a * 16777216 + b * 65536 + c * 256 + d.

Definition prefix4 (a b c d len : Z) : netip_Prefix := {| p_is4 := true; p_bits := ip4 a b c d; p_len := len |}.

(** An IPv6 prefix by its first sixteen bits. *)
Definition prefix6 (top len : Z) : netip_Prefix :=
  {| p_is4 := false; p_bits := Z.shiftl top 112; p_len := len |}.

Definition InsideNetwork : list netip_Prefix :=
  [prefix4 127 0 0 0 8;
   {| p_is4 := false; p_bits := 1; p_len := 128 |};
   prefix4 0 0 0 0 8;
   {| p_is4 := false; p_bits := 0; p_len := 128 |};
   prefix4 169 254 0 0 16;
   prefix6 65152 10;
   prefix4 10 0 0 0 8;
   prefix4 172 16 0 0 12;
   prefix4 192 168 0 0 16;
   prefix4 100 64 0 0 10;
   prefix6 64512 7;
   prefix4 224 0 0 0 4;
   prefix6 65280 8].

(** ** Hosting *)

Definition HostedInternal : string := "internal".
Definition HostedExternal : string := "external".
Definition HostedUnknown : string := "unknown".

Definition internalSuffixes : list string :=
  [".local"; ".localdomain"; ".localhost"; ".internal"; ".intranet"; ".lan"; ".home.arpa"; ".svc"].

(** [strings.HasSuffix] and [strings.TrimSuffix]. *)
Definition HasSuffix (s suffix : string) : bool := has_prefix (str_rev s) (str_rev suffix).

Definition TrimSuffix (s suffix : string) : string :=
  if HasSuffix s suffix then take_str (String.length s - String.length suffix) s else s.

Definition dot : Ascii.ascii := Ascii.ascii_of_nat 46.

Section hosting.
Context `{Addresses} `{Unicode}.

Definition addrHosting (addr : Addr) : string :=
  let addr := Unmap (WithZone_none addr) in
  if existsb (λ p, Contains p addr) InsideNetwork then HostedInternal else HostedExternal.

Definition nameHosting (name : string) : string :=
  let lower := ToLower (TrimSuffix name ".") in
  if negb (contains_byte dot lower) then HostedInternal
  else if existsb (λ s, HasSuffix lower s) internalSuffixes then HostedInternal
  else HostedExternal.

(** [parseBackend]; [None] is [false]. *)
Definition parseBackend (raw : string) : option URL :=
  let raw := TrimSpace raw in
  match url_Parse raw with
  | None => None
  | Some u =>
      let again := if bool_decide (url_Host u = "") then url_Parse ("//" +:+ raw) else Some u in
      match again with
      | Some u => if bool_decide (url_Host u = "") then None else Some u
      | None => None
      end
  end.

Definition hostingOf (raw : string) : string * string :=
  match parseBackend raw with
  | None => (HostedUnknown, "")
  | Some u =>
      let name := url_Hostname u in
      if bool_decide (name = "") then (HostedUnknown, url_Host u)
      else match netip_ParseAddr name with
           | Some addr => (addrHosting addr, url_Host u)
           | None => (nameHosting name, url_Host u)
           end
  end.

Definition HostingOf (raw : string) : string := (hostingOf raw).1.

(** The loop of [Model.Hosting]. *)
Fixpoint hosting_loop (backends : list string) (out : string) : string :=
  match backends with
  | [] => out
  | b :: backends =>
      let h := HostingOf b in
      if bool_decide (h = HostedExternal) then HostedExternal
      else hosting_loop backends (if bool_decide (h = HostedUnknown) then HostedUnknown else out)
  end.

Definition Model_Hosting (m : Model) : string :=
  match Backends m with
  | [] => HostedUnknown
  | backends => hosting_loop backends HostedInternal
  end.

Definition LockedMessage (orgName : string) : string :=
  (if bool_decide (orgName = "") then "this organisation" else orgName) +:+
  " needs to add credit before it can use all features".

(** The loop of [Model.Endpoint]. *)
Fixpoint endpoint_loop (backends : list string) (first : string) : string :=
  match backends with
  | [] => first
  | b :: backends =>
      let '(h, host) := hostingOf b in
      if bool_decide (h = HostedExternal) then host
      else endpoint_loop backends (if bool_decide (first = "") then host else first)
  end.

Definition Endpoint (m : Model) : string := endpoint_loop (Backends m) "".

(** [Model.LocationFromBackends]: an error, or the location. *)
Definition LocationFromBackends (m : Model) : string + string :=
  if bool_decide (Model_Hosting m = HostedInternal) then inr LocationOnPrem
  else inl ("location is required: " +:+ Endpoint m +:+ " is outside this network, and its " +:+
    "address does not say where it runs - state it, such as ch or usa").

(** The check of one backend in [Model.CheckBackend]. *)
Definition http_address (b : string) : bool :=
  match url_Parse (TrimSpace b) with
  | None => false
  | Some u =>
      (bool_decide (url_Scheme u = "http") || bool_decide (url_Scheme u = "https")) &&
      negb (bool_decide (url_Host u = ""))
  end.

(** [Model.CheckBackend]; [None] is a nil error. *)
Definition CheckBackend (m : Model) : option string :=
  if bool_decide (Backends m = []) then Some "at least one backend is required"
  else if bool_decide (BackendModel m = "") then
    Some ("'backend_model' is required - it is the name the inference " +:+
      "plane serves, which for vLLM is --served-model-name")
  else match filter (λ b, http_address b = false) (Backends m) with
       | b :: _ => Some ("backend " +:+ Quote b +:+ " is not an http or https address, " +:+
           "such as http://vllm:8000/v1")
       | [] => None
       end.
End hosting.

(** ** The weakest backend decides *)

Section hosting_lemmas.
Context `{Addresses} `{Unicode}.

Lemma addrHosting_two a : addrHosting a = HostedInternal ∨ addrHosting a = HostedExternal.
Proof. unfold addrHosting. case_match; auto. Qed.

Lemma HostingOf_three b :
  HostingOf b = HostedInternal ∨ HostingOf b = HostedExternal ∨ HostingOf b = HostedUnknown.
Proof.
  unfold HostingOf, hostingOf. destruct (parseBackend b) as [u|]; [|auto]. case_bool_decide; [auto|].
  destruct (netip_ParseAddr _) as [a|]; simpl.
  - destruct (addrHosting_two a); auto.
  - unfold nameHosting. repeat case_match; auto.
Qed.

Lemma hosting_loop_spec bs out :
  out = HostedInternal ∨ out = HostedUnknown →
  (hosting_loop bs out = HostedExternal ↔ ∃ b, b ∈ bs ∧ HostingOf b = HostedExternal) ∧
  (hosting_loop bs out = HostedInternal ↔ out = HostedInternal ∧ ∀ b, b ∈ bs → HostingOf b = HostedInternal).
Proof.
  revert out. induction bs as [|b bs IH]; intros out Hout; cbn [hosting_loop].
  { split; [|set_solver]. split; [|set_solver]. by destruct Hout as [-> | ->]. }
  case_bool_decide as He.
  - split; split; [|done|done|]; [exists b; set_solver|]. intros [_ Hall].
    specialize (Hall b ltac:(left)). by rewrite He in Hall.
  - destruct (IH (if bool_decide (HostingOf b = HostedUnknown) then HostedUnknown else out)) as [IHe IHi];
      [case_bool_decide; auto|]. rewrite IHe, IHi. split.
    + split; [intros (b' & ? & ?); exists b'; set_solver|].
      intros (b' & [->|Hb]%elem_of_cons & Hx); [done|eauto].
    + pose proof (HostingOf_three b) as Hb. case_bool_decide as Hu.
      * split; [by intros [? _]|]. intros [_ Hall]. specialize (Hall b ltac:(left)). by rewrite Hu in Hall.
      * split; [|set_solver]. intros [-> Hall]. split; [done|]. intros b' [->|Hin]%elem_of_cons; [|auto].
        tauto.
Qed.

(** The address of a model decides where it is served by its weakest backend:
    outside when any backend is, inside when there is one and all are. *)
Theorem Hosting_weakest (m : Model) :
  (Model_Hosting m = HostedExternal ↔ ∃ b, b ∈ Backends m ∧ HostingOf b = HostedExternal) ∧
  (Model_Hosting m = HostedInternal ↔
   Backends m ≠ [] ∧ ∀ b, b ∈ Backends m → HostingOf b = HostedInternal) ∧
  (LocationFromBackends m = inr LocationOnPrem ↔ Model_Hosting m = HostedInternal).
Proof.
  unfold Model_Hosting, LocationFromBackends. split_and!.
  - destruct (Backends m) as [|b bs]; [split; [done|set_solver]|].
    apply (hosting_loop_spec (b :: bs) HostedInternal). auto.
  - destruct (Backends m) as [|b bs]; [split; [done|by intros [? _]]|].
    rewrite (proj2 (hosting_loop_spec (b :: bs) HostedInternal ltac:(auto))). naive_solver.
  - case_bool_decide as Hi; unfold Model_Hosting in Hi; by split.
Qed.
End hosting_lemmas.

(** *** Which addresses are inside *)

(** The same family and the top bits agree: the address is in the block. *)
Lemma Contains_block p a :
  (if p_is4 p then 0 <= p_len p <= 32 else 0 <= p_len p <= 128) →
  let size := 2 ^ ((if p_is4 p then 32 else 128) - p_len p) in
  Contains p a = true ↔
  a_is4 a = p_is4 p ∧ a_zone a = "" ∧
  p_bits p / size * size <= a_bits a < p_bits p / size * size + size.
Proof.
  intros Hl size. assert (0 <= (if p_is4 p then 32 else 128) - p_len p) as Hn by (destruct (p_is4 p); lia).
  assert (0 < size) as Hs by (apply Z.pow_pos_nonneg; lia).
  unfold Contains. rewrite !andb_true_iff, eqb_true_iff, bool_decide_eq_true, Z.eqb_eq.
  rewrite !Z.shiftr_div_pow2 by done. fold size.
  assert (a_bits a / size = p_bits p / size ↔
    p_bits p / size * size <= a_bits a < p_bits p / size * size + size) as ->.
  { pose proof (Z.div_mod (a_bits a) size). pose proof (Z.mod_pos_bound (a_bits a) size Hs). split.
    - intros E. rewrite <- E. nia.
    - generalize (p_bits p / size). intros q E. symmetry.
      apply (Z.div_unique _ _ _ (a_bits a - q * size)); lia. }
  intuition congruence.
Qed.

Definition in_block (lo hi x : Z) : Prop := lo <= x <= hi.

(** The blocks the code means by the inside of a network, as ranges. *)
Definition inside4 (x : Z) : Prop :=
  in_block (ip4 0 0 0 0) (ip4 0 255 255 255) x ∨ in_block (ip4 10 0 0 0) (ip4 10 255 255 255) x ∨
  in_block (ip4 100 64 0 0) (ip4 100 127 255 255) x ∨ in_block (ip4 127 0 0 0) (ip4 127 255 255 255) x ∨
  in_block (ip4 169 254 0 0) (ip4 169 254 255 255) x ∨ in_block (ip4 172 16 0 0) (ip4 172 31 255 255) x ∨
  in_block (ip4 192 168 0 0) (ip4 192 168 255 255) x ∨ in_block (ip4 224 0 0 0) (ip4 239 255 255 255) x.

(** By their first sixteen bits: fc00::/7, fe80::/10 and ff00::/8; and ::, ::1. *)
Definition inside6 (x : Z) : Prop :=
  let top := x / 2 ^ 112 in
  x = 0 ∨ x = 1 ∨ in_block 64512 65023 top ∨ in_block 65152 65215 top ∨ in_block 65280 65535 top.

Definition valid_addr (a : Addr) : Prop := 0 <= a_bits a < 2 ^ (if a_is4 a then 32 else 128).

Ltac eval_blocks :=
  repeat match goal with
  | |- context [?a / 2 ^ (?w - ?l) * 2 ^ (?w - ?l)] =>
      let v := eval vm_compute in (a / 2 ^ (w - l) * 2 ^ (w - l)) in
      change (a / 2 ^ (w - l) * 2 ^ (w - l)) with v
  | |- context [2 ^ (?w - ?l)] =>
      let v := eval vm_compute in (2 ^ (w - l)) in change (2 ^ (w - l)) with v
  end.

Lemma top_block lo hi x size :
  0 < size → lo <= x / size <= hi ↔ lo * size <= x < (hi + 1) * size.
Proof.
  intros Hs. pose proof (Z.div_mod x size). pose proof (Z.mod_pos_bound x size Hs). nia.
Qed.

Lemma inside_spec a :
  valid_addr a → a_zone a = "" →
  existsb (λ p, Contains p a) InsideNetwork = true ↔
  if a_is4 a then inside4 (a_bits a) else inside6 (a_bits a).
Proof.
  intros Hv Hz. unfold InsideNetwork. cbn [existsb].
  rewrite orb_false_r, !orb_true_iff.
  rewrite !(Contains_block (prefix4 _ _ _ _ _)) by (cbn; lia).
  rewrite !(Contains_block (prefix6 _ _)) by (cbn; lia).
  rewrite !(Contains_block {| p_is4 := false |}) by (cbn; lia).
  unfold valid_addr in Hv. cbn [p_is4 p_bits p_len prefix4 prefix6].
  unfold inside4, inside6, in_block. rewrite Hz.
  assert (∀ P, (true = false ∧ "" = "" ∧ P) ↔ False) as Htf by (intros P; split; [by intros [? _]|done]).
  assert (∀ P, (false = true ∧ "" = "" ∧ P) ↔ False) as Hft by (intros P; split; [by intros [? _]|done]).
  assert (∀ (b : bool) P, (b = b ∧ "" = "" ∧ P) ↔ P) as Hyes by (intros; tauto).
  destruct (a_is4 a); rewrite ?Htf, ?Hft, !Hyes; eval_blocks.
  - unfold ip4. lia.
  - rewrite !top_block by lia. change (2 ^ 128) with (2 ^ 112 * 65536) in Hv. lia.
Qed.

(** *** Properties *)

Definition unzoned (a : Addr) : Addr := Unmap (WithZone_none a).

Lemma unzoned_valid a : valid_addr a → valid_addr (unzoned a) ∧ a_zone (unzoned a) = "".
Proof.
  unfold unzoned, Unmap, WithZone_none, valid_addr. cbn [a_is4 a_bits a_zone].
  intros Hv. destruct (a_is4 a) eqn:E; cbn [negb andb a_is4 a_bits a_zone]; [done|].
  destruct (_ =? _); cbn [a_is4 a_bits a_zone]; split; try reflexivity; [|exact Hv].
  change 4294967295 with (Z.ones 32). rewrite Z.land_ones by lia. apply Z.mod_pos_bound. lia.
Qed.

(** An address counts as inside exactly when it is in one of the blocks nobody
    on the public internet can reach, however it is written: with a zone, or
    an IPv4 address as an IPv6 one. *)
Theorem addrHosting_exact (a : Addr) :
  valid_addr a →
  (addrHosting a = HostedInternal ↔
   if a_is4 (unzoned a) then inside4 (a_bits (unzoned a)) else inside6 (a_bits (unzoned a))) ∧
  (addrHosting a = HostedExternal ↔ addrHosting a ≠ HostedInternal).
Proof.
  intros [Hv Hz]%unzoned_valid. unfold addrHosting. fold (unzoned a).
  rewrite <- (inside_spec _ Hv Hz). destruct (existsb _ _); naive_solver.
Qed.

Lemma addrHosting_exact_witness :
  let metadata := {| a_is4 := false; a_bits := 65535 * 2 ^ 32 + ip4 169 254 169 254; a_zone := "eth0" |} in
  addrHosting metadata = HostedInternal ∧ inside4 (ip4 169 254 169 254).
Proof.
  intros metadata. destruct (addrHosting_exact metadata) as [[H _] _].
  - split; vm_compute; congruence.
  - split; [vm_compute; reflexivity|]. apply H. vm_compute. reflexivity.
Defined.
