(* ===== verification/Egress.v ===== *)
(** * Where a request may connect

    [internal/gateway/egress.go] and the three clients of
    [internal/gateway/server.go]: which addresses the gateway connects to for
    which model. The check runs on the address that is dialled, after DNS. *)
From S2P Require Import Prelude Tenancy Pricing Text Hosting.

(** [netip.ParsePrefix] with [Masked], [net.SplitHostPort]'s host and the text
    of an address. *)
Class Dialing := {
  netip_ParsePrefix : string → option netip_Prefix;
  net_SplitHostPort : string → option string;
  Addr_String : Addr → string;
}.

(** A dial function: of the address asked for and the one it resolved to, why
    the connection is refused, or [None]. *)
Definition dialer : Type := string → Addr → option string.

(** ** Settings *)

Section egress.
Context `{Addresses} `{Dialing} `{Unicode}.


(** [netip.PrefixFrom addr (addr.BitLen())]. *)
Definition whole (a : Addr) : netip_Prefix :=
  {| p_is4 := a_is4 a; p_bits := a_bits a; p_len := if a_is4 a then 32 else 128 |}.

(** The loop of [ParsePrefixes]. *)
Fixpoint prefixes_loop (parts : list string) (out : list netip_Prefix) : string + list netip_Prefix :=
  match parts with
  | [] => inr out
  | part :: parts =>
      let part := TrimSpace part in
      let err := inl (Quote part +:+ " is not an address or a prefix") in
      if bool_decide (part = "") then prefixes_loop parts out
      else if negb (contains_byte slash part) then
        match netip_ParseAddr part with
        | Some addr => prefixes_loop parts (out ++ [whole addr])
        | None => err
        end
      else match netip_ParsePrefix part with
           | Some p => prefixes_loop parts (out ++ [p])
           | None => err
           end
  end.

Definition ParsePrefixes (s : string) : string + list netip_Prefix :=
  if EqualFold (TrimSpace s) "none" then inr [] else prefixes_loop (split_byte comma s) [].

(** The loop of [ParsePrivateHosts]. *)
Fixpoint hosts_loop (parts hosts : list string) : string + (bool * list string) :=
  match parts with
  | [] => inr (true, hosts)
  | part :: parts =>
      let part := ToLower (TrimSpace part) in
      if bool_decide (part = "") then hosts_loop parts hosts
      else if contains_byte colon part || contains_byte slash part then
        inl (Quote part +:+ " is not a host name; name the host alone, " +:+ "such as keera-engine")
      else hosts_loop parts (hosts ++ [part])
  end.

Definition ParsePrivateHosts (s : string) : string + (bool * list string) :=
  let all := ToLower (TrimSpace s) in
  if bool_decide (all = "all") then inr (false, [])
  else if bool_decide (all = "none") then inr (true, [])
  else hosts_loop (split_byte comma s) [].

(** ** Dialling *)

(** [denyDial]; [None] is a nil [Control]. *)
Definition denyDial (deny : list netip_Prefix) (why : string) : option (Addr → option string) :=
  match deny with
  | [] => None
  | _ => Some (λ ip,
      let ip := Unmap (WithZone_none ip) in
      if existsb (λ p, Contains p ip) deny
      then Some ("the gateway does not connect to " +:+ Addr_String ip +:+ "; " +:+ why) else None)
  end.

Definition newDialer (deny : option (Addr → option string)) : dialer := λ _ ip,
  match deny with Some control => control ip | None => None end.

Definition privateDial (opened : dialer) (deny : list netip_Prefix) (hosts : list string) : dialer :=
  let why := match hosts with
             | [] => "organisations may not reach addresses inside this network"
             | _ => "inside this network, organisations may only reach " +:+ join ", " hosts
             end in
  let closed := newDialer (denyDial (deny ++ InsideNetwork) (why +:+ "; see KEERA_UPSTREAM_PRIVATE")) in
  λ addr ip,
    match net_SplitHostPort addr with
    | Some host => if contains hosts (ToLower host) then opened addr ip else closed addr ip
    | None => closed addr ip
    end.

(** ** The clients [New] makes *)

Record EgressOptions := {
  UpstreamDeny : list netip_Prefix;
  LimitPrivate : bool;
  PrivateHosts : list string;
}.

Record clients := { client : dialer; publicClient : dialer; keyClient : dialer }.

Definition New_clients (opts : EgressOptions) : clients :=
  let opened := newDialer (denyDial (UpstreamDeny opts) "KEERA_UPSTREAM_DENY blocks it") in
  {| client := if LimitPrivate opts then privateDial opened (UpstreamDeny opts) (PrivateHosts opts)
               else opened;
     publicClient := newDialer (denyDial (UpstreamDeny opts ++ InsideNetwork)
       "this organisation can only reach public addresses until its limit is lifted");
     keyClient := opened |}.

Definition clientFor (s : clients) (limited : bool) : dialer :=
  if limited then publicClient s else client s.

Definition modelClient (s : clients) (m : Model) : dialer :=
  if PlatformKey m then keyClient s else clientFor s (Limited m).

(** ** Properties *)

Definition connects (d : dialer) (addr : string) (ip : Addr) : Prop := d addr ip = None.

Definition denied (deny : list netip_Prefix) (ip : Addr) : bool :=
  existsb (λ p, Contains p (unzoned ip)) deny.

Lemma connects_deny deny why addr ip :
  connects (newDialer (denyDial deny why)) addr ip ↔ denied deny ip = false.
Proof.
  unfold connects, newDialer, denyDial, denied, unzoned. destruct deny as [|p deny]; [done|].
  set (d := p :: deny). destruct (existsb _ d); naive_solver.
Qed.

Lemma denied_app d1 d2 ip : denied (d1 ++ d2) ip = denied d1 ip || denied d2 ip.
Proof. unfold denied. apply existsb_app. Qed.

Lemma denied_inside ip : denied InsideNetwork ip = false ↔ addrHosting ip = HostedExternal.
Proof. unfold denied, addrHosting, unzoned. destruct (existsb _ _); naive_solver. Qed.

(** C40: Nothing is sent to an address the deployment denies. A limited
    organisation's own models are only ever reached outside the network; and
    where private addresses are limited, nobody's model is reached inside it
    but through a host the deployment named. *)
Theorem egress_guarded (opts : EgressOptions) (m : Model) (addr : string) (ip : Addr) :
  connects (modelClient (New_clients opts) m) addr ip →
  denied (UpstreamDeny opts) ip = false ∧
  (PlatformKey m = false → Limited m = true → addrHosting ip = HostedExternal) ∧
  (PlatformKey m = false → LimitPrivate opts = true →
   addrHosting ip = HostedExternal ∨
   ∃ host, net_SplitHostPort addr = Some host ∧ ToLower host ∈ PrivateHosts opts).
Proof.
  unfold modelClient, clientFor, New_clients. cbn [client publicClient keyClient].
  destruct (PlatformKey m); [by rewrite connects_deny|]. destruct (Limited m).
  - rewrite connects_deny, denied_app, orb_false_iff, denied_inside. tauto.
  - destruct (LimitPrivate opts); [|by rewrite connects_deny].
    unfold connects, privateDial. destruct (net_SplitHostPort addr) as [host|] eqn:Hh.
    + destruct (contains _ _) eqn:Hc.
      * intros Hd%connects_deny. apply contains_spec in Hc. split; [done|]. split; [done|]. eauto.
      * intros Hd%connects_deny. rewrite denied_app, orb_false_iff, denied_inside in Hd. tauto.
    + intros Hd%connects_deny. rewrite denied_app, orb_false_iff, denied_inside in Hd. tauto.
Qed.
End egress.

(** *** Witnesses *)

#[local] Instance sample_unicode : Unicode :=
  {| ToLower := ToLower_ascii; ToUpper s := s; Quote s := s |}.

#[local] Instance sample_dialing : Dialing :=
  {| netip_ParsePrefix _ := None; net_SplitHostPort s := Some s; Addr_String _ := "" |}.

Definition public_addr : Addr := {| a_is4 := true; a_bits := ip4 9 9 9 9; a_zone := "" |}.

Lemma egress_guarded_witness :
  let opts := {| UpstreamDeny := [prefix4 127 0 0 0 8]; LimitPrivate := true; PrivateHosts := ["vllm"] |} in
  let m := Model_zero in
  connects (modelClient (New_clients opts) m) "example.com" public_addr ∧
  denied (UpstreamDeny opts) public_addr = false ∧
  ¬ connects (modelClient (New_clients opts) m) "example.com"
      {| a_is4 := true; a_bits := ip4 169 254 169 254; a_zone := "" |}.
Proof.
  intros opts m. assert (connects (modelClient (New_clients opts) m) "example.com" public_addr) as Hc
    by (vm_compute; reflexivity).
  split; [exact Hc|]. split; [|vm_compute; discriminate].
  apply (egress_guarded opts m "example.com" public_addr Hc).
Defined.
