(* ===== verification/Providers.v ===== *)
(** * The built-in table of providers

    [providers] of [internal/catalog/providers.go]: the hosted providers a
    model can name, with each model's list prices, as the source states them.
    Prices are micro-CHF per million tokens. *)
From S2P Require Import Prelude Tenancy Pricing.

(** A nil or absent field is its zero value. [Endpoints] is a map from kinds to
    base URLs; [Kinds] is left out of the table, as in the source. *)
Record ProviderModel := {
  PM_ID : string;
  PM_DisplayName : string;
  PM_Kind : string;
  PM_MaxContext : Z;
  PM_ReleaseDate : string;
  PM_InputMicrosPerMTok : Z;
  PM_OutputMicrosPerMTok : Z;
  PM_CachedInputMicrosPerMTok : Z;
  PM_CacheWriteMicrosPerMTok : Z;
  PM_LongPrompt : option PriceTier;
  PM_Description : string;
  PM_Snapshot : string;
}.

Record CatalogProvider := {
  P_Name : string;
  P_Summary : string;
  P_Endpoint : string;
  NeedsProductID : bool;
  P_Endpoints : list (string * string);
  P_CachedInput : bool;
  P_Location : string;
  P_Kinds : list string;
  P_Models : list ProviderModel;
}.

Definition models_anthropic : list ProviderModel :=
  [
   {| PM_ID := "claude-opus-5-5"; PM_DisplayName := "Claude Opus 5.5"; PM_Kind := ""; PM_MaxContext := 1000000;
      PM_ReleaseDate := "2026-09-22"; PM_InputMicrosPerMTok := 3840000; PM_OutputMicrosPerMTok := 19200000;
      PM_CachedInputMicrosPerMTok := 192000; PM_CacheWriteMicrosPerMTok := 4800000;
      PM_LongPrompt := None;
      PM_Description := "flagship - long, hard coding and agent work"; PM_Snapshot := "" |};
   {| PM_ID := "claude-sonnet-5-5"; PM_DisplayName := "Claude Sonnet 5.5"; PM_Kind := ""; PM_MaxContext := 1000000;
      PM_ReleaseDate := "2026-09-28"; PM_InputMicrosPerMTok := 1920000; PM_OutputMicrosPerMTok := 9600000;
      PM_CachedInputMicrosPerMTok := 96000; PM_CacheWriteMicrosPerMTok := 2400000;
      PM_LongPrompt := None;
      PM_Description := "mid-size and quick - everyday coding and agent work"; PM_Snapshot := "" |};
   {| PM_ID := "claude-haiku-5-5"; PM_DisplayName := "Claude Haiku 5.5"; PM_Kind := ""; PM_MaxContext := 1000000;
      PM_ReleaseDate := "2026-10-07"; PM_InputMicrosPerMTok := 96000; PM_OutputMicrosPerMTok := 480000;
      PM_CachedInputMicrosPerMTok := 9600; PM_CacheWriteMicrosPerMTok := 120000;
      PM_LongPrompt := (Some {| AboveTokens := 100000; InputMicros := 480000; OutputMicros := 2400000;
        CachedInputMicros := 48000; CacheWriteMicros := 600000 |});
      PM_Description := "small and fast - short, simple, high-volume tasks"; PM_Snapshot := "" |};
   {| PM_ID := "claude-fable-5-1"; PM_DisplayName := "Claude Fable 5.1"; PM_Kind := ""; PM_MaxContext := 1000000;
      PM_ReleaseDate := "2026-09-01"; PM_InputMicrosPerMTok := 9600000; PM_OutputMicrosPerMTok := 48000000;
      PM_CachedInputMicrosPerMTok := 240000; PM_CacheWriteMicrosPerMTok := 12000000;
      PM_LongPrompt := None;
      PM_Description := "very large and slow - best at writing, weaker at code"; PM_Snapshot := "" |};
   {| PM_ID := "claude-sonnet-5"; PM_DisplayName := "Claude Sonnet 5"; PM_Kind := ""; PM_MaxContext := 1000000;
      PM_ReleaseDate := "2026-06-30"; PM_InputMicrosPerMTok := 1920000; PM_OutputMicrosPerMTok := 9600000;
      PM_CachedInputMicrosPerMTok := 192000; PM_CacheWriteMicrosPerMTok := 2400000;
      PM_LongPrompt := None;
      PM_Description := "mid-size and quick - everyday coding; replaced by Claude Sonnet 5.5"; PM_Snapshot := "" |};
   {| PM_ID := "claude-haiku-4-5"; PM_DisplayName := "Claude Haiku 4.5"; PM_Kind := ""; PM_MaxContext := 200000;
      PM_ReleaseDate := "2025-10-15"; PM_InputMicrosPerMTok := 960000; PM_OutputMicrosPerMTok := 4800000;
      PM_CachedInputMicrosPerMTok := 96000; PM_CacheWriteMicrosPerMTok := 1200000;
      PM_LongPrompt := None;
      PM_Description := "small and fast - short, simple tasks; replaced by Claude Haiku 5.5"; PM_Snapshot := "claude-haiku-4-5-20251001" |};
   {| PM_ID := "claude-opus-5"; PM_DisplayName := "Claude Opus 5"; PM_Kind := ""; PM_MaxContext := 1000000;
      PM_ReleaseDate := "2026-07-24"; PM_InputMicrosPerMTok := 4800000; PM_OutputMicrosPerMTok := 24000000;
      PM_CachedInputMicrosPerMTok := 480000; PM_CacheWriteMicrosPerMTok := 6000000;
      PM_LongPrompt := None;
      PM_Description := "flagship - long, hard coding and agent work; replaced by Claude Opus 5.5"; PM_Snapshot := "" |};
   {| PM_ID := "claude-opus-4-8"; PM_DisplayName := "Claude Opus 4.8"; PM_Kind := ""; PM_MaxContext := 1000000;
      PM_ReleaseDate := "2026-05-28"; PM_InputMicrosPerMTok := 4800000; PM_OutputMicrosPerMTok := 24000000;
      PM_CachedInputMicrosPerMTok := 480000; PM_CacheWriteMicrosPerMTok := 6000000;
      PM_LongPrompt := None;
      PM_Description := "large and slow - hard problems; replaced by Claude Opus 5"; PM_Snapshot := "" |};
   {| PM_ID := "claude-sonnet-4-6"; PM_DisplayName := "Claude Sonnet 4.6"; PM_Kind := ""; PM_MaxContext := 1000000;
      PM_ReleaseDate := "2026-02-17"; PM_InputMicrosPerMTok := 2880000; PM_OutputMicrosPerMTok := 14400000;
      PM_CachedInputMicrosPerMTok := 288000; PM_CacheWriteMicrosPerMTok := 3600000;
      PM_LongPrompt := None;
      PM_Description := "mid-size - everyday coding; replaced by Claude Sonnet 5"; PM_Snapshot := "" |}
  ].

Definition provider_anthropic : CatalogProvider :=
  {| P_Name := "anthropic";
     P_Summary := "Anthropic's own Claude models, on Anthropic's own API.";
     P_Endpoint := "https://api.anthropic.com/v1";
     NeedsProductID := false; P_Endpoints := [];
     P_CachedInput := true; P_Location := "usa"; P_Kinds := [];
     P_Models := models_anthropic |}.

Definition models_openai1 : list ProviderModel :=
  [
   {| PM_ID := "gpt-6-astra"; PM_DisplayName := "GPT-6 Astra"; PM_Kind := ""; PM_MaxContext := 1050000;
      PM_ReleaseDate := "2026-09-03"; PM_InputMicrosPerMTok := 9600000; PM_OutputMicrosPerMTok := 48000000;
      PM_CachedInputMicrosPerMTok := 960000; PM_CacheWriteMicrosPerMTok := 12000000;
      PM_LongPrompt := (Some {| AboveTokens := 272000; InputMicros := 19200000; OutputMicros := 72000000;
        CachedInputMicros := 1920000; CacheWriteMicros := 24000000 |});
      PM_Description := "flagship and slow - the hardest problems"; PM_Snapshot := "" |};
   {| PM_ID := "gpt-6.1-sol"; PM_DisplayName := "GPT-6.1 Sol"; PM_Kind := ""; PM_MaxContext := 1050000;
      PM_ReleaseDate := "2026-09-29"; PM_InputMicrosPerMTok := 1920000; PM_OutputMicrosPerMTok := 9600000;
      PM_CachedInputMicrosPerMTok := 96000; PM_CacheWriteMicrosPerMTok := 2400000;
      PM_LongPrompt := (Some {| AboveTokens := 272000; InputMicros := 3840000; OutputMicros := 14400000;
        CachedInputMicros := 192000; CacheWriteMicros := 4800000 |});
      PM_Description := "large - hard coding and agent work"; PM_Snapshot := "" |};
   {| PM_ID := "gpt-6.1-terra"; PM_DisplayName := "GPT-6.1 Terra"; PM_Kind := ""; PM_MaxContext := 1050000;
      PM_ReleaseDate := "2026-10-26"; PM_InputMicrosPerMTok := 960000; PM_OutputMicrosPerMTok := 4800000;
      PM_CachedInputMicrosPerMTok := 48000; PM_CacheWriteMicrosPerMTok := 1200000;
      PM_LongPrompt := (Some {| AboveTokens := 272000; InputMicros := 1920000; OutputMicros := 7200000;
        CachedInputMicros := 96000; CacheWriteMicros := 2400000 |});
      PM_Description := "mid-size and quick - everyday coding and questions"; PM_Snapshot := "" |};
   {| PM_ID := "gpt-6-sol"; PM_DisplayName := "GPT-6 Sol"; PM_Kind := ""; PM_MaxContext := 1050000;
      PM_ReleaseDate := "2026-09-22"; PM_InputMicrosPerMTok := 1920000; PM_OutputMicrosPerMTok := 9600000;
      PM_CachedInputMicrosPerMTok := 192000; PM_CacheWriteMicrosPerMTok := 2400000;
      PM_LongPrompt := (Some {| AboveTokens := 272000; InputMicros := 3840000; OutputMicros := 14400000;
        CachedInputMicros := 384000; CacheWriteMicros := 4800000 |});
      PM_Description := "large - hard coding and agent work; replaced by GPT-6.1 Sol"; PM_Snapshot := "" |};
   {| PM_ID := "gpt-6-luna"; PM_DisplayName := "GPT-6 Luna"; PM_Kind := ""; PM_MaxContext := 1050000;
      PM_ReleaseDate := "2026-09-22"; PM_InputMicrosPerMTok := 96000; PM_OutputMicrosPerMTok := 480000;
      PM_CachedInputMicrosPerMTok := 9600; PM_CacheWriteMicrosPerMTok := 120000;
      PM_LongPrompt := (Some {| AboveTokens := 272000; InputMicros := 192000; OutputMicros := 720000;
        CachedInputMicros := 19200; CacheWriteMicros := 240000 |});
      PM_Description := "small and fast - short, simple, high-volume tasks"; PM_Snapshot := "" |};
   {| PM_ID := "gpt-5.6-sol"; PM_DisplayName := "GPT-5.6 Sol"; PM_Kind := ""; PM_MaxContext := 1050000;
      PM_ReleaseDate := "2026-07-09"; PM_InputMicrosPerMTok := 3840000; PM_OutputMicrosPerMTok := 19200000;
      PM_CachedInputMicrosPerMTok := 384000; PM_CacheWriteMicrosPerMTok := 4800000;
      PM_LongPrompt := (Some {| AboveTokens := 272000; InputMicros := 7680000; OutputMicros := 28800000;
        CachedInputMicros := 768000; CacheWriteMicros := 9600000 |});
      PM_Description := "large - hard work; replaced by GPT-6 Sol"; PM_Snapshot := "" |};
   {| PM_ID := "gpt-5.6-terra"; PM_DisplayName := "GPT-5.6 Terra"; PM_Kind := ""; PM_MaxContext := 1050000;
      PM_ReleaseDate := "2026-07-09"; PM_InputMicrosPerMTok := 1920000; PM_OutputMicrosPerMTok := 11520000;
      PM_CachedInputMicrosPerMTok := 192000; PM_CacheWriteMicrosPerMTok := 2400000;
      PM_LongPrompt := (Some {| AboveTokens := 272000; InputMicros := 3840000; OutputMicros := 17280000;
        CachedInputMicros := 384000; CacheWriteMicros := 4800000 |});
      PM_Description := "mid-size and quick - everyday coding and questions; replaced by GPT-6.1 Terra"; PM_Snapshot := "" |};
   {| PM_ID := "gpt-5.6-luna"; PM_DisplayName := "GPT-5.6 Luna"; PM_Kind := ""; PM_MaxContext := 1050000;
      PM_ReleaseDate := "2026-07-09"; PM_InputMicrosPerMTok := 192000; PM_OutputMicrosPerMTok := 1152000;
      PM_CachedInputMicrosPerMTok := 19200; PM_CacheWriteMicrosPerMTok := 240000;
      PM_LongPrompt := (Some {| AboveTokens := 272000; InputMicros := 384000; OutputMicros := 1728000;
        CachedInputMicros := 38400; CacheWriteMicros := 480000 |});
      PM_Description := "small and fast - short, simple tasks; replaced by GPT-6 Luna"; PM_Snapshot := "" |};
   {| PM_ID := "gpt-5.5"; PM_DisplayName := "GPT-5.5"; PM_Kind := ""; PM_MaxContext := 1050000;
      PM_ReleaseDate := "2026-04-24"; PM_InputMicrosPerMTok := 4800000; PM_OutputMicrosPerMTok := 28800000;
      PM_CachedInputMicrosPerMTok := 480000; PM_CacheWriteMicrosPerMTok := 0;
      PM_LongPrompt := (Some {| AboveTokens := 272000; InputMicros := 9600000; OutputMicros := 43200000;
        CachedInputMicros := 960000; CacheWriteMicros := 0 |});
      PM_Description := "large and slow - thorough on hard problems"; PM_Snapshot := "" |};
   {| PM_ID := "gpt-5.4"; PM_DisplayName := "GPT-5.4"; PM_Kind := ""; PM_MaxContext := 1050000;
      PM_ReleaseDate := "2026-03-05"; PM_InputMicrosPerMTok := 2400000; PM_OutputMicrosPerMTok := 14400000;
      PM_CachedInputMicrosPerMTok := 240000; PM_CacheWriteMicrosPerMTok := 0;
      PM_LongPrompt := (Some {| AboveTokens := 272000; InputMicros := 4800000; OutputMicros := 21600000;
        CachedInputMicros := 480000; CacheWriteMicros := 0 |});
      PM_Description := "mid-size - everyday work"; PM_Snapshot := "" |};
   {| PM_ID := "gpt-5.4-mini"; PM_DisplayName := "GPT-5.4 mini"; PM_Kind := ""; PM_MaxContext := 400000;
      PM_ReleaseDate := "2026-03-17"; PM_InputMicrosPerMTok := 720000; PM_OutputMicrosPerMTok := 4320000;
      PM_CachedInputMicrosPerMTok := 72000; PM_CacheWriteMicrosPerMTok := 0;
      PM_LongPrompt := None;
      PM_Description := "small and quick - light reasoning"; PM_Snapshot := "" |};
   {| PM_ID := "gpt-5.4-nano"; PM_DisplayName := "GPT-5.4 nano"; PM_Kind := ""; PM_MaxContext := 400000;
      PM_ReleaseDate := "2026-03-17"; PM_InputMicrosPerMTok := 192000; PM_OutputMicrosPerMTok := 1200000;
      PM_CachedInputMicrosPerMTok := 19200; PM_CacheWriteMicrosPerMTok := 0;
      PM_LongPrompt := None;
      PM_Description := "tiny and fast - short, simple, high-volume tasks; replaced by GPT-6 Luna"; PM_Snapshot := "" |}
  ].

Definition models_openai2 : list ProviderModel :=
  [
   {| PM_ID := "gpt-5.2"; PM_DisplayName := "GPT-5.2"; PM_Kind := ""; PM_MaxContext := 400000;
      PM_ReleaseDate := "2025-12-11"; PM_InputMicrosPerMTok := 1680000; PM_OutputMicrosPerMTok := 13440000;
      PM_CachedInputMicrosPerMTok := 168000; PM_CacheWriteMicrosPerMTok := 0;
      PM_LongPrompt := None;
      PM_Description := "mid-size and slow - reasons before it answers"; PM_Snapshot := "" |};
   {| PM_ID := "gpt-5.1"; PM_DisplayName := "GPT-5.1"; PM_Kind := ""; PM_MaxContext := 400000;
      PM_ReleaseDate := "2025-11-13"; PM_InputMicrosPerMTok := 1200000; PM_OutputMicrosPerMTok := 9600000;
      PM_CachedInputMicrosPerMTok := 120000; PM_CacheWriteMicrosPerMTok := 0;
      PM_LongPrompt := None;
      PM_Description := "large and slow - reasons at length before it answers; replaced by GPT-6 Sol"; PM_Snapshot := "" |};
   {| PM_ID := "gpt-4.1"; PM_DisplayName := "GPT-4.1"; PM_Kind := ""; PM_MaxContext := 1047576;
      PM_ReleaseDate := "2025-04-14"; PM_InputMicrosPerMTok := 1920000; PM_OutputMicrosPerMTok := 7680000;
      PM_CachedInputMicrosPerMTok := 480000; PM_CacheWriteMicrosPerMTok := 0;
      PM_LongPrompt := None;
      PM_Description := "mid-size and quick, no reasoning step - long documents; replaced by GPT-6 Luna"; PM_Snapshot := "" |};
   {| PM_ID := "gpt-4.1-mini"; PM_DisplayName := "GPT-4.1 mini"; PM_Kind := ""; PM_MaxContext := 1047576;
      PM_ReleaseDate := "2025-04-14"; PM_InputMicrosPerMTok := 384000; PM_OutputMicrosPerMTok := 1536000;
      PM_CachedInputMicrosPerMTok := 96000; PM_CacheWriteMicrosPerMTok := 0;
      PM_LongPrompt := None;
      PM_Description := "small and quick, no reasoning step - long documents; replaced by GPT-6 Luna"; PM_Snapshot := "" |};
   {| PM_ID := "gpt-4o"; PM_DisplayName := "GPT-4o"; PM_Kind := ""; PM_MaxContext := 128000;
      PM_ReleaseDate := "2024-05-13"; PM_InputMicrosPerMTok := 2400000; PM_OutputMicrosPerMTok := 9600000;
      PM_CachedInputMicrosPerMTok := 1200000; PM_CacheWriteMicrosPerMTok := 0;
      PM_LongPrompt := None;
      PM_Description := "mid-size and quick, no reasoning step - ordinary chat; replaced by GPT-6 Luna"; PM_Snapshot := "" |};
   {| PM_ID := "gpt-4o-mini"; PM_DisplayName := "GPT-4o mini"; PM_Kind := ""; PM_MaxContext := 128000;
      PM_ReleaseDate := "2024-07-18"; PM_InputMicrosPerMTok := 144000; PM_OutputMicrosPerMTok := 576000;
      PM_CachedInputMicrosPerMTok := 72000; PM_CacheWriteMicrosPerMTok := 0;
      PM_LongPrompt := None;
      PM_Description := "small and fast, no reasoning step - short, simple tasks; replaced by GPT-6 Luna"; PM_Snapshot := "" |}
  ].

Definition provider_openai : CatalogProvider :=
  {| P_Name := "openai";
     P_Summary := "OpenAI's own GPT models, on the API they are released on.";
     P_Endpoint := "https://api.openai.com/v1";
     NeedsProductID := false; P_Endpoints := [];
     P_CachedInput := true; P_Location := "usa"; P_Kinds := [];
     P_Models := models_openai1 ++ models_openai2 |}.

Definition models_google : list ProviderModel :=
  [
   {| PM_ID := "gemini-4-argon"; PM_DisplayName := "Gemini 4 Argon"; PM_Kind := ""; PM_MaxContext := 1048576;
      PM_ReleaseDate := "2026-10-13"; PM_InputMicrosPerMTok := 1920000; PM_OutputMicrosPerMTok := 9600000;
      PM_CachedInputMicrosPerMTok := 96000; PM_CacheWriteMicrosPerMTok := 0;
      PM_LongPrompt := None;
      PM_Description := "flagship - hard coding, agent and science work"; PM_Snapshot := "" |};
   {| PM_ID := "gemini-3.8-flash"; PM_DisplayName := "Gemini 3.8 Flash"; PM_Kind := ""; PM_MaxContext := 1048576;
      PM_ReleaseDate := "2026-09-02"; PM_InputMicrosPerMTok := 720000; PM_OutputMicrosPerMTok := 3600000;
      PM_CachedInputMicrosPerMTok := 72000; PM_CacheWriteMicrosPerMTok := 0;
      PM_LongPrompt := None;
      PM_Description := "mid-size and quick - long-running coding and agent tasks"; PM_Snapshot := "" |};
   {| PM_ID := "gemini-3.5-flash-lite"; PM_DisplayName := "Gemini 3.5 Flash-Lite"; PM_Kind := ""; PM_MaxContext := 1048576;
      PM_ReleaseDate := "2026-07-21"; PM_InputMicrosPerMTok := 288000; PM_OutputMicrosPerMTok := 2400000;
      PM_CachedInputMicrosPerMTok := 28800; PM_CacheWriteMicrosPerMTok := 0;
      PM_LongPrompt := None;
      PM_Description := "small and fast - high-volume agent tasks, translation and data processing"; PM_Snapshot := "" |};
   {| PM_ID := "gemini-3.1-pro-preview"; PM_DisplayName := "Gemini 3.1 Pro Preview"; PM_Kind := ""; PM_MaxContext := 1048576;
      PM_ReleaseDate := "2026-02-19"; PM_InputMicrosPerMTok := 1920000; PM_OutputMicrosPerMTok := 11520000;
      PM_CachedInputMicrosPerMTok := 192000; PM_CacheWriteMicrosPerMTok := 0;
      PM_LongPrompt := (Some {| AboveTokens := 200000; InputMicros := 3840000; OutputMicros := 17280000;
        CachedInputMicros := 384000; CacheWriteMicros := 0 |});
      PM_Description := "large, in preview - hard coding and agent work"; PM_Snapshot := "" |};
   {| PM_ID := "gemini-3.6-flash"; PM_DisplayName := "Gemini 3.6 Flash"; PM_Kind := ""; PM_MaxContext := 1048576;
      PM_ReleaseDate := "2026-07-21"; PM_InputMicrosPerMTok := 720000; PM_OutputMicrosPerMTok := 3600000;
      PM_CachedInputMicrosPerMTok := 72000; PM_CacheWriteMicrosPerMTok := 0;
      PM_LongPrompt := None;
      PM_Description := "mid-size and quick - everyday agent tasks; replaced by Gemini 3.8 Flash"; PM_Snapshot := "" |};
   {| PM_ID := "gemini-3.1-flash-lite"; PM_DisplayName := "Gemini 3.1 Flash-Lite"; PM_Kind := ""; PM_MaxContext := 1048576;
      PM_ReleaseDate := "2026-05-07"; PM_InputMicrosPerMTok := 240000; PM_OutputMicrosPerMTok := 1440000;
      PM_CachedInputMicrosPerMTok := 24000; PM_CacheWriteMicrosPerMTok := 0;
      PM_LongPrompt := None;
      PM_Description := "small and fast - simple, high-volume tasks; replaced by Gemini 3.5 Flash-Lite"; PM_Snapshot := "" |};
   {| PM_ID := "gemini-2.5-pro"; PM_DisplayName := "Gemini 2.5 Pro"; PM_Kind := ""; PM_MaxContext := 1048576;
      PM_ReleaseDate := "2025-06-17"; PM_InputMicrosPerMTok := 1200000; PM_OutputMicrosPerMTok := 9600000;
      PM_CachedInputMicrosPerMTok := 120000; PM_CacheWriteMicrosPerMTok := 0;
      PM_LongPrompt := (Some {| AboveTokens := 200000; InputMicros := 2400000; OutputMicros := 14400000;
        CachedInputMicros := 240000; CacheWriteMicros := 0 |});
      PM_Description := "large and slow - coding and hard reasoning; replaced by Gemini 3.1 Pro Preview"; PM_Snapshot := "" |};
   {| PM_ID := "gemini-2.5-flash"; PM_DisplayName := "Gemini 2.5 Flash"; PM_Kind := ""; PM_MaxContext := 1048576;
      PM_ReleaseDate := "2025-06-17"; PM_InputMicrosPerMTok := 288000; PM_OutputMicrosPerMTok := 2400000;
      PM_CachedInputMicrosPerMTok := 28800; PM_CacheWriteMicrosPerMTok := 0;
      PM_LongPrompt := None;
      PM_Description := "mid-size and quick - everyday questions; replaced by Gemini 3.8 Flash"; PM_Snapshot := "" |}
  ].

Definition provider_google : CatalogProvider :=
  {| P_Name := "google";
     P_Summary := "Google's own Gemini models, on the Gemini API.";
     P_Endpoint := "https://generativelanguage.googleapis.com/v1beta/openai";
     NeedsProductID := false; P_Endpoints := [];
     P_CachedInput := true; P_Location := "usa"; P_Kinds := [];
     P_Models := models_google |}.

Definition models_mistral : list ProviderModel :=
  [
   {| PM_ID := "mistral-large-4"; PM_DisplayName := "Mistral Large 4"; PM_Kind := ""; PM_MaxContext := 1000000;
      PM_ReleaseDate := "2026-10-06"; PM_InputMicrosPerMTok := 672000; PM_OutputMicrosPerMTok := 2016000;
      PM_CachedInputMicrosPerMTok := 67200; PM_CacheWriteMicrosPerMTok := 0;
      PM_LongPrompt := None;
      PM_Description := "very large, in preview - hard coding, agent and reasoning work, with images"; PM_Snapshot := "" |};
   {| PM_ID := "mistral-medium-3-5"; PM_DisplayName := "Mistral Medium 3.5"; PM_Kind := ""; PM_MaxContext := 262144;
      PM_ReleaseDate := "2026-04-28"; PM_InputMicrosPerMTok := 1440000; PM_OutputMicrosPerMTok := 7200000;
      PM_CachedInputMicrosPerMTok := 144000; PM_CacheWriteMicrosPerMTok := 0;
      PM_LongPrompt := None;
      PM_Description := "mid-size, with reasoning - coding and agent work; replaced by Mistral Large 4"; PM_Snapshot := "" |};
   {| PM_ID := "mistral-small-2603"; PM_DisplayName := "Mistral Small 4"; PM_Kind := ""; PM_MaxContext := 262144;
      PM_ReleaseDate := "2026-03-16"; PM_InputMicrosPerMTok := 144000; PM_OutputMicrosPerMTok := 576000;
      PM_CachedInputMicrosPerMTok := 14400; PM_CacheWriteMicrosPerMTok := 0;
      PM_LongPrompt := None;
      PM_Description := "small and fast, with reasoning - everyday chat, coding and agent tasks"; PM_Snapshot := "" |};
   {| PM_ID := "codestral-2508"; PM_DisplayName := "Codestral 25.08"; PM_Kind := ""; PM_MaxContext := 128000;
      PM_ReleaseDate := "2025-07-30"; PM_InputMicrosPerMTok := 288000; PM_OutputMicrosPerMTok := 864000;
      PM_CachedInputMicrosPerMTok := 28800; PM_CacheWriteMicrosPerMTok := 0;
      PM_LongPrompt := None;
      PM_Description := "small, made for code - quick code generation"; PM_Snapshot := "" |};
   {| PM_ID := "zai-glm-5-3"; PM_DisplayName := "GLM-5.3"; PM_Kind := ""; PM_MaxContext := 1000000;
      PM_ReleaseDate := "2026-08-14"; PM_InputMicrosPerMTok := 1344000; PM_OutputMicrosPerMTok := 4224000;
      PM_CachedInputMicrosPerMTok := 134400; PM_CacheWriteMicrosPerMTok := 0;
      PM_LongPrompt := None;
      PM_Description := "large - hard coding, agent and security work over very long inputs"; PM_Snapshot := "" |};
   {| PM_ID := "zai-glm-5-3-flash"; PM_DisplayName := "GLM-5.3 Flash"; PM_Kind := ""; PM_MaxContext := 1000000;
      PM_ReleaseDate := "2026-08-26"; PM_InputMicrosPerMTok := 144000; PM_OutputMicrosPerMTok := 480000;
      PM_CachedInputMicrosPerMTok := 28800; PM_CacheWriteMicrosPerMTok := 0;
      PM_LongPrompt := None;
      PM_Description := "mid-size, quick all-rounder - code, reasoning and tool use"; PM_Snapshot := "" |};
   {| PM_ID := "deepseek-v4-1-flash-1017"; PM_DisplayName := "DeepSeek V4.1 Flash"; PM_Kind := ""; PM_MaxContext := 1000000;
      PM_ReleaseDate := "2026-10-17"; PM_InputMicrosPerMTok := 288000; PM_OutputMicrosPerMTok := 1152000;
      PM_CachedInputMicrosPerMTok := 6720; PM_CacheWriteMicrosPerMTok := 0;
      PM_LongPrompt := None;
      PM_Description := "large and quick, in preview - large codebases and long documents"; PM_Snapshot := "" |};
   {| PM_ID := "mistral-large-2512"; PM_DisplayName := "Mistral Large 3"; PM_Kind := ""; PM_MaxContext := 262144;
      PM_ReleaseDate := "2025-12-02"; PM_InputMicrosPerMTok := 480000; PM_OutputMicrosPerMTok := 1440000;
      PM_CachedInputMicrosPerMTok := 48000; PM_CacheWriteMicrosPerMTok := 0;
      PM_LongPrompt := None;
      PM_Description := "large, no reasoning step - general chat and documents; replaced by Mistral Large 4"; PM_Snapshot := "" |};
   {| PM_ID := "ministral-14b-2512"; PM_DisplayName := "Ministral 3 14B"; PM_Kind := ""; PM_MaxContext := 262144;
      PM_ReleaseDate := "2025-12-02"; PM_InputMicrosPerMTok := 192000; PM_OutputMicrosPerMTok := 192000;
      PM_CachedInputMicrosPerMTok := 19200; PM_CacheWriteMicrosPerMTok := 0;
      PM_LongPrompt := None;
      PM_Description := "small - simple chat, text and image tasks"; PM_Snapshot := "" |};
   {| PM_ID := "ministral-8b-2512"; PM_DisplayName := "Ministral 3 8B"; PM_Kind := ""; PM_MaxContext := 262144;
      PM_ReleaseDate := "2025-12-02"; PM_InputMicrosPerMTok := 144000; PM_OutputMicrosPerMTok := 144000;
      PM_CachedInputMicrosPerMTok := 14400; PM_CacheWriteMicrosPerMTok := 0;
      PM_LongPrompt := None;
      PM_Description := "very small - short, high-volume tasks"; PM_Snapshot := "" |};
   {| PM_ID := "ministral-3b-2512"; PM_DisplayName := "Ministral 3 3B"; PM_Kind := ""; PM_MaxContext := 262144;
      PM_ReleaseDate := "2025-12-02"; PM_InputMicrosPerMTok := 96000; PM_OutputMicrosPerMTok := 96000;
      PM_CachedInputMicrosPerMTok := 9600; PM_CacheWriteMicrosPerMTok := 0;
      PM_LongPrompt := None;
      PM_Description := "tiny - classification, extraction and other simple tasks"; PM_Snapshot := "" |}
  ].

Definition provider_mistral : CatalogProvider :=
  {| P_Name := "mistral";
     P_Summary := "Mistral's own models and some open-weight ones, on Mistral's API in the EU.";
     P_Endpoint := "https://api.mistral.ai/v1";
     NeedsProductID := false; P_Endpoints := [];
     P_CachedInput := true; P_Location := "eu"; P_Kinds := [];
     P_Models := models_mistral |}.

Definition models_infomaniak : list ProviderModel :=
  [
   {| PM_ID := "Qwen/Qwen3.5-397B-A17B-FP8"; PM_DisplayName := "Qwen3.5 397B A17B FP8"; PM_Kind := ""; PM_MaxContext := 200000;
      PM_ReleaseDate := "2026-02-16"; PM_InputMicrosPerMTok := 896000; PM_OutputMicrosPerMTok := 4032000;
      PM_CachedInputMicrosPerMTok := 0; PM_CacheWriteMicrosPerMTok := 0;
      PM_LongPrompt := None;
      PM_Description := "large - hard reasoning, planning and tool use"; PM_Snapshot := "" |};
   {| PM_ID := "moonshotai/Kimi-K2.6"; PM_DisplayName := "Kimi K2.6"; PM_Kind := ""; PM_MaxContext := 256000;
      PM_ReleaseDate := "2026-04-20"; PM_InputMicrosPerMTok := 672000; PM_OutputMicrosPerMTok := 3360000;
      PM_CachedInputMicrosPerMTok := 0; PM_CacheWriteMicrosPerMTok := 0;
      PM_LongPrompt := None;
      PM_Description := "large - coding and agent work"; PM_Snapshot := "" |};
   {| PM_ID := "mistralai/Mistral-Small-4-119B-2603"; PM_DisplayName := "Mistral Small 4"; PM_Kind := ""; PM_MaxContext := 256000;
      PM_ReleaseDate := "2026-03-16"; PM_InputMicrosPerMTok := 224000; PM_OutputMicrosPerMTok := 840000;
      PM_CachedInputMicrosPerMTok := 0; PM_CacheWriteMicrosPerMTok := 0;
      PM_LongPrompt := None;
      PM_Description := "mid-size - plain instructions or longer reasoning"; PM_Snapshot := "" |};
   {| PM_ID := "swiss-ai/Apertus-v1.5-70B"; PM_DisplayName := "Apertus v1.5 70B"; PM_Kind := ""; PM_MaxContext := 100000;
      PM_ReleaseDate := "2026-07-24"; PM_InputMicrosPerMTok := 784000; PM_OutputMicrosPerMTok := 2800000;
      PM_CachedInputMicrosPerMTok := 0; PM_CacheWriteMicrosPerMTok := 0;
      PM_LongPrompt := None;
      PM_Description := "mid-size, open training data - work that must be auditable"; PM_Snapshot := "" |};
   {| PM_ID := "google/gemma-4-31B-it"; PM_DisplayName := "Gemma 4 31B"; PM_Kind := ""; PM_MaxContext := 100000;
      PM_ReleaseDate := "2026-04-02"; PM_InputMicrosPerMTok := 224000; PM_OutputMicrosPerMTok := 448000;
      PM_CachedInputMicrosPerMTok := 0; PM_CacheWriteMicrosPerMTok := 0;
      PM_LongPrompt := None;
      PM_Description := "mid-size and quick - documents, chatbots and ordinary code"; PM_Snapshot := "" |};
   {| PM_ID := "Qwen/Qwen3.8-27B-FP8"; PM_DisplayName := "Qwen3.8 27B FP8"; PM_Kind := ""; PM_MaxContext := 100000;
      PM_ReleaseDate := "2026-08-14"; PM_InputMicrosPerMTok := 448000; PM_OutputMicrosPerMTok := 3360000;
      PM_CachedInputMicrosPerMTok := 0; PM_CacheWriteMicrosPerMTok := 0;
      PM_LongPrompt := None;
      PM_Description := "small but strong for its size - ordinary code and questions"; PM_Snapshot := "" |};
   {| PM_ID := "mistralai/Ministral-3-14B-Instruct-2512"; PM_DisplayName := "Ministral 3 14B"; PM_Kind := ""; PM_MaxContext := 100000;
      PM_ReleaseDate := "2025-12-02"; PM_InputMicrosPerMTok := 336000; PM_OutputMicrosPerMTok := 448000;
      PM_CachedInputMicrosPerMTok := 0; PM_CacheWriteMicrosPerMTok := 0;
      PM_LongPrompt := None;
      PM_Description := "small and quick - chatbots, short edits and everyday questions"; PM_Snapshot := "" |};
   {| PM_ID := "Qwen/Qwen3-Embedding-8B"; PM_DisplayName := "Qwen3 Embedding 8B"; PM_Kind := KindEmbedding; PM_MaxContext := 8192;
      PM_ReleaseDate := "2025-06-05"; PM_InputMicrosPerMTok := 78400; PM_OutputMicrosPerMTok := 0;
      PM_CachedInputMicrosPerMTok := 0; PM_CacheWriteMicrosPerMTok := 0;
      PM_LongPrompt := None;
      PM_Description := "embedding, 4096 dimensions - search and RAG in over 100 languages"; PM_Snapshot := "" |};
   {| PM_ID := "bge_multilingual_gemma2"; PM_DisplayName := "BGE Multilingual Gemma2"; PM_Kind := KindEmbedding; PM_MaxContext := 8000;
      PM_ReleaseDate := ""; PM_InputMicrosPerMTok := 72800; PM_OutputMicrosPerMTok := 0;
      PM_CachedInputMicrosPerMTok := 0; PM_CacheWriteMicrosPerMTok := 0;
      PM_LongPrompt := None;
      PM_Description := "embedding, 3584 dimensions - semantic search and RAG in many languages"; PM_Snapshot := "" |};
   {| PM_ID := "mini_lm_l12_v2"; PM_DisplayName := "all-MiniLM-L12-v2"; PM_Kind := KindEmbedding; PM_MaxContext := 128;
      PM_ReleaseDate := ""; PM_InputMicrosPerMTok := 10000; PM_OutputMicrosPerMTok := 0;
      PM_CachedInputMicrosPerMTok := 0; PM_CacheWriteMicrosPerMTok := 0;
      PM_LongPrompt := None;
      PM_Description := "tiny embedding model, 384 dimensions - fast indexing and prototypes"; PM_Snapshot := "" |};
   {| PM_ID := "BAAI/bge-reranker-v2-m3"; PM_DisplayName := "BGE Reranker v2 M3"; PM_Kind := KindRerank; PM_MaxContext := 8192;
      PM_ReleaseDate := "2024-03-18"; PM_InputMicrosPerMTok := 11200; PM_OutputMicrosPerMTok := 0;
      PM_CachedInputMicrosPerMTok := 0; PM_CacheWriteMicrosPerMTok := 0;
      PM_LongPrompt := None;
      PM_Description := "reranker - orders search results by relevance, in many languages"; PM_Snapshot := "" |};
   {| PM_ID := "Qwen/Qwen3-Reranker-0.6B"; PM_DisplayName := "Qwen3 Reranker 0.6B"; PM_Kind := KindRerank; PM_MaxContext := 32768;
      PM_ReleaseDate := "2025-06-05"; PM_InputMicrosPerMTok := 10080; PM_OutputMicrosPerMTok := 0;
      PM_CachedInputMicrosPerMTok := 0; PM_CacheWriteMicrosPerMTok := 0;
      PM_LongPrompt := None;
      PM_Description := "small reranker - orders search results by relevance in over 100 languages"; PM_Snapshot := "" |}
  ].

Definition provider_infomaniak : CatalogProvider :=
  {| P_Name := "infomaniak";
     P_Summary := "Open-weight models, served in Switzerland.";
     P_Endpoint := "https://api.infomaniak.com/2/ai/{product_id}/openai/v1";
     NeedsProductID := true; P_Endpoints := [(KindRerank, "https://api.infomaniak.com/2/ai/{product_id}/cohere/v2")];
     P_CachedInput := false; P_Location := "ch"; P_Kinds := [];
     P_Models := models_infomaniak |}.

Definition models_stepping_stone : list ProviderModel :=
  [
   {| PM_ID := "MiniMaxAI/MiniMax-M2.5"; PM_DisplayName := "MiniMax M2.5"; PM_Kind := ""; PM_MaxContext := 196608;
      PM_ReleaseDate := "2026-02-12"; PM_InputMicrosPerMTok := 1940000; PM_OutputMicrosPerMTok := 9700000;
      PM_CachedInputMicrosPerMTok := 0; PM_CacheWriteMicrosPerMTok := 0;
      PM_LongPrompt := None;
      PM_Description := "large - long coding and agent tasks with many steps"; PM_Snapshot := "" |};
   {| PM_ID := "NVIDIA/NVIDIA-Nemotron-3-Super-120B-A12B"; PM_DisplayName := "Nemotron 3 Super"; PM_Kind := ""; PM_MaxContext := 128000;
      PM_ReleaseDate := "2026-03-11"; PM_InputMicrosPerMTok := 2000000; PM_OutputMicrosPerMTok := 5000000;
      PM_CachedInputMicrosPerMTok := 0; PM_CacheWriteMicrosPerMTok := 0;
      PM_LongPrompt := None;
      PM_Description := "large reasoning model - hard problems"; PM_Snapshot := "" |};
   {| PM_ID := "deepseek-ai/DeepSeek-V4-Flash-0731"; PM_DisplayName := "DeepSeek V4 Flash"; PM_Kind := ""; PM_MaxContext := 512000;
      PM_ReleaseDate := "2026-07-31"; PM_InputMicrosPerMTok := 450000; PM_OutputMicrosPerMTok := 1800000;
      PM_CachedInputMicrosPerMTok := 0; PM_CacheWriteMicrosPerMTok := 0;
      PM_LongPrompt := None;
      PM_Description := "mid-size and quick - large codebases and long documents"; PM_Snapshot := "" |};
   {| PM_ID := "Qwen/Qwen3-Coder-Next"; PM_DisplayName := "Qwen3 Coder Next"; PM_Kind := ""; PM_MaxContext := 256000;
      PM_ReleaseDate := "2026-02-03"; PM_InputMicrosPerMTok := 340000; PM_OutputMicrosPerMTok := 1700000;
      PM_CachedInputMicrosPerMTok := 0; PM_CacheWriteMicrosPerMTok := 0;
      PM_LongPrompt := None;
      PM_Description := "made for code - edits, code questions and agent tool calls"; PM_Snapshot := "" |};
   {| PM_ID := "zai-org/GLM-5.3-Flash"; PM_DisplayName := "GLM-5.3 Flash"; PM_Kind := ""; PM_MaxContext := 256000;
      PM_ReleaseDate := "2026-08-26"; PM_InputMicrosPerMTok := 300000; PM_OutputMicrosPerMTok := 1500000;
      PM_CachedInputMicrosPerMTok := 0; PM_CacheWriteMicrosPerMTok := 0;
      PM_LongPrompt := None;
      PM_Description := "mid-size, quick all-rounder - code, reasoning and tool use"; PM_Snapshot := "" |};
   {| PM_ID := "openai/gpt-oss-120b"; PM_DisplayName := "gpt-oss-120b"; PM_Kind := ""; PM_MaxContext := 128000;
      PM_ReleaseDate := "2025-08-05"; PM_InputMicrosPerMTok := 400000; PM_OutputMicrosPerMTok := 1600000;
      PM_CachedInputMicrosPerMTok := 0; PM_CacheWriteMicrosPerMTok := 0;
      PM_LongPrompt := None;
      PM_Description := "mid-size, reasons before it answers - everyday work and tool use"; PM_Snapshot := "" |};
   {| PM_ID := "Qwen/Qwen3.8-27B"; PM_DisplayName := "Qwen3.8 27B"; PM_Kind := ""; PM_MaxContext := 256000;
      PM_ReleaseDate := "2026-08-14"; PM_InputMicrosPerMTok := 250000; PM_OutputMicrosPerMTok := 1500000;
      PM_CachedInputMicrosPerMTok := 0; PM_CacheWriteMicrosPerMTok := 0;
      PM_LongPrompt := None;
      PM_Description := "small but strong for its size - ordinary code and questions"; PM_Snapshot := "" |};
   {| PM_ID := "google/gemma-4-31B-it"; PM_DisplayName := "Gemma 4 31B"; PM_Kind := ""; PM_MaxContext := 160000;
      PM_ReleaseDate := "2026-04-02"; PM_InputMicrosPerMTok := 250000; PM_OutputMicrosPerMTok := 1000000;
      PM_CachedInputMicrosPerMTok := 0; PM_CacheWriteMicrosPerMTok := 0;
      PM_LongPrompt := None;
      PM_Description := "mid-size and quick - documents, chatbots and ordinary code"; PM_Snapshot := "" |};
   {| PM_ID := "Qwen/Qwen3.5-35B-A3B-FP8"; PM_DisplayName := "Qwen3.5 35B A3B FP8"; PM_Kind := ""; PM_MaxContext := 128000;
      PM_ReleaseDate := "2026-02-24"; PM_InputMicrosPerMTok := 170000; PM_OutputMicrosPerMTok := 1000000;
      PM_CachedInputMicrosPerMTok := 0; PM_CacheWriteMicrosPerMTok := 0;
      PM_LongPrompt := None;
      PM_Description := "small and fast, light on reasoning - high-volume, simple tasks"; PM_Snapshot := "" |};
   {| PM_ID := "apertus-ai/Apertus-v1.5-8B"; PM_DisplayName := "Apertus v1.5 8B"; PM_Kind := ""; PM_MaxContext := 128000;
      PM_ReleaseDate := "2026-07-24"; PM_InputMicrosPerMTok := 20000; PM_OutputMicrosPerMTok := 100000;
      PM_CachedInputMicrosPerMTok := 0; PM_CacheWriteMicrosPerMTok := 0;
      PM_LongPrompt := None;
      PM_Description := "small, open training data - simple tasks"; PM_Snapshot := "" |};
   {| PM_ID := "allenai/olmOCR-2-7B"; PM_DisplayName := "olmOCR 2"; PM_Kind := ""; PM_MaxContext := 8000;
      PM_ReleaseDate := "2025-10-22"; PM_InputMicrosPerMTok := 60000; PM_OutputMicrosPerMTok := 290000;
      PM_CachedInputMicrosPerMTok := 0; PM_CacheWriteMicrosPerMTok := 0;
      PM_LongPrompt := None;
      PM_Description := "OCR - turns images of pages into text; not for chat or code"; PM_Snapshot := "" |};
   {| PM_ID := "lightonai/LightOnOCR-2-1B"; PM_DisplayName := "LightOnOCR 2"; PM_Kind := ""; PM_MaxContext := 16000;
      PM_ReleaseDate := "2026-01-19"; PM_InputMicrosPerMTok := 20000; PM_OutputMicrosPerMTok := 60000;
      PM_CachedInputMicrosPerMTok := 0; PM_CacheWriteMicrosPerMTok := 0;
      PM_LongPrompt := None;
      PM_Description := "small, fast OCR - turns images of pages into text; not for chat or code"; PM_Snapshot := "" |};
   {| PM_ID := "opendatalab/MinerU2.5-2509-1.2B"; PM_DisplayName := "MinerU 2.5"; PM_Kind := ""; PM_MaxContext := 16000;
      PM_ReleaseDate := "2025-09-19"; PM_InputMicrosPerMTok := 20000; PM_OutputMicrosPerMTok := 60000;
      PM_CachedInputMicrosPerMTok := 0; PM_CacheWriteMicrosPerMTok := 0;
      PM_LongPrompt := None;
      PM_Description := "document parsing - turns images of pages into text, tables and formulas; not for chat"; PM_Snapshot := "" |}
  ].

Definition provider_stepping_stone : CatalogProvider :=
  {| P_Name := "stepping-stone";
     P_Summary := "Open-weight models, served in Switzerland.";
     P_Endpoint := "https://llm.stoney-cloud.com/v1";
     NeedsProductID := false; P_Endpoints := [];
     P_CachedInput := false; P_Location := "ch"; P_Kinds := [];
     P_Models := models_stepping_stone |}.

Definition models_phoeniqs : list ProviderModel :=
  [
   {| PM_ID := "inference-glm5"; PM_DisplayName := "GLM-5"; PM_Kind := ""; PM_MaxContext := 131072;
      PM_ReleaseDate := "2026-06-16"; PM_InputMicrosPerMTok := 1077000; PM_OutputMicrosPerMTok := 3386000;
      PM_CachedInputMicrosPerMTok := 0; PM_CacheWriteMicrosPerMTok := 0;
      PM_LongPrompt := None;
      PM_Description := "large - long agent sessions, hard code and terminal work"; PM_Snapshot := "" |};
   {| PM_ID := "inference-deepseek-v32"; PM_DisplayName := "DeepSeek V3.2"; PM_Kind := ""; PM_MaxContext := 163840;
      PM_ReleaseDate := "2025-12-01"; PM_InputMicrosPerMTok := 615600; PM_OutputMicrosPerMTok := 1846900;
      PM_CachedInputMicrosPerMTok := 0; PM_CacheWriteMicrosPerMTok := 0;
      PM_LongPrompt := None;
      PM_Description := "large reasoning model - hard questions and planning"; PM_Snapshot := "" |};
   {| PM_ID := "inference-qwen3-vl-235b"; PM_DisplayName := "Qwen3 VL 235B"; PM_Kind := ""; PM_MaxContext := 128000;
      PM_ReleaseDate := "2025-09-23"; PM_InputMicrosPerMTok := 700300; PM_OutputMicrosPerMTok := 2000000;
      PM_CachedInputMicrosPerMTok := 0; PM_CacheWriteMicrosPerMTok := 0;
      PM_LongPrompt := None;
      PM_Description := "large, reads images - screenshots, diagrams and scans"; PM_Snapshot := "" |};
   {| PM_ID := "inference-deepseek-v4-flash"; PM_DisplayName := "DeepSeek V4 Flash"; PM_Kind := ""; PM_MaxContext := 1000000;
      PM_ReleaseDate := "2026-07-31"; PM_InputMicrosPerMTok := 146200; PM_OutputMicrosPerMTok := 392500;
      PM_CachedInputMicrosPerMTok := 0; PM_CacheWriteMicrosPerMTok := 0;
      PM_LongPrompt := None;
      PM_Description := "mid-size and quick - large codebases and long documents"; PM_Snapshot := "" |};
   {| PM_ID := "inference-glm5-flash"; PM_DisplayName := "GLM-5 Flash"; PM_Kind := ""; PM_MaxContext := 1000000;
      PM_ReleaseDate := "2026-08-26"; PM_InputMicrosPerMTok := 123000; PM_OutputMicrosPerMTok := 410000;
      PM_CachedInputMicrosPerMTok := 0; PM_CacheWriteMicrosPerMTok := 0;
      PM_LongPrompt := None;
      PM_Description := "mid-size, quick all-rounder - code, reasoning and tool use"; PM_Snapshot := "" |};
   {| PM_ID := "inference-glm5-flash-compact"; PM_DisplayName := "GLM-5 Flash Compact"; PM_Kind := ""; PM_MaxContext := 524288;
      PM_ReleaseDate := "2026-08-26"; PM_InputMicrosPerMTok := 62500; PM_OutputMicrosPerMTok := 416700;
      PM_CachedInputMicrosPerMTok := 0; PM_CacheWriteMicrosPerMTok := 0;
      PM_LongPrompt := None;
      PM_Description := "GLM-5 Flash with a smaller context - quicker and cheaper"; PM_Snapshot := "" |};
   {| PM_ID := "inference-apertus-v15-70b"; PM_DisplayName := "Apertus v1.5 70B"; PM_Kind := ""; PM_MaxContext := 262144;
      PM_ReleaseDate := "2026-07-24"; PM_InputMicrosPerMTok := 619500; PM_OutputMicrosPerMTok := 2220100;
      PM_CachedInputMicrosPerMTok := 0; PM_CacheWriteMicrosPerMTok := 0;
      PM_LongPrompt := None;
      PM_Description := "mid-size, open training data - work that must be auditable"; PM_Snapshot := "" |};
   {| PM_ID := "inference-gpt-oss-120b"; PM_DisplayName := "gpt-oss-120b"; PM_Kind := ""; PM_MaxContext := 131072;
      PM_ReleaseDate := "2025-08-05"; PM_InputMicrosPerMTok := 115400; PM_OutputMicrosPerMTok := 461700;
      PM_CachedInputMicrosPerMTok := 0; PM_CacheWriteMicrosPerMTok := 0;
      PM_LongPrompt := None;
      PM_Description := "mid-size, reasons before it answers - everyday work and tool use"; PM_Snapshot := "" |};
   {| PM_ID := "inference-llama4-maverick"; PM_DisplayName := "Llama 4 Maverick"; PM_Kind := ""; PM_MaxContext := 1048576;
      PM_ReleaseDate := "2025-04-05"; PM_InputMicrosPerMTok := 269300; PM_OutputMicrosPerMTok := 1077300;
      PM_CachedInputMicrosPerMTok := 0; PM_CacheWriteMicrosPerMTok := 0;
      PM_LongPrompt := None;
      PM_Description := "mid-size, reads up to four images a prompt - long documents"; PM_Snapshot := "" |};
   {| PM_ID := "inference-gemma4-31b"; PM_DisplayName := "Gemma 4 31B"; PM_Kind := ""; PM_MaxContext := 131072;
      PM_ReleaseDate := "2026-04-02"; PM_InputMicrosPerMTok := 118000; PM_OutputMicrosPerMTok := 325000;
      PM_CachedInputMicrosPerMTok := 0; PM_CacheWriteMicrosPerMTok := 0;
      PM_LongPrompt := None;
      PM_Description := "mid-size and quick, reads images - documents, chatbots and ordinary code"; PM_Snapshot := "" |};
   {| PM_ID := "inference-llama4-scout-17b"; PM_DisplayName := "Llama 4 Scout"; PM_Kind := ""; PM_MaxContext := 62256;
      PM_ReleaseDate := "2025-04-05"; PM_InputMicrosPerMTok := 192400; PM_OutputMicrosPerMTok := 638700;
      PM_CachedInputMicrosPerMTok := 0; PM_CacheWriteMicrosPerMTok := 0;
      PM_LongPrompt := None;
      PM_Description := "small and quick, reads images - short inputs"; PM_Snapshot := "" |};
   {| PM_ID := "inference-qwq-32b"; PM_DisplayName := "QwQ 32B"; PM_Kind := ""; PM_MaxContext := 32768;
      PM_ReleaseDate := "2025-03-06"; PM_InputMicrosPerMTok := 923400; PM_OutputMicrosPerMTok := 923400;
      PM_CachedInputMicrosPerMTok := 0; PM_CacheWriteMicrosPerMTok := 0;
      PM_LongPrompt := None;
      PM_Description := "reasoning model that thinks at length - short inputs only"; PM_Snapshot := "" |};
   {| PM_ID := "inference-qwen3-8b"; PM_DisplayName := "Qwen3 8B"; PM_Kind := ""; PM_MaxContext := 40960;
      PM_ReleaseDate := "2025-04-29"; PM_InputMicrosPerMTok := 26900; PM_OutputMicrosPerMTok := 106200;
      PM_CachedInputMicrosPerMTok := 0; PM_CacheWriteMicrosPerMTok := 0;
      PM_LongPrompt := None;
      PM_Description := "small and quick, with a thinking mode - simple tasks"; PM_Snapshot := "" |};
   {| PM_ID := "inference-granite-33-8b"; PM_DisplayName := "Granite 3.3 8B"; PM_Kind := ""; PM_MaxContext := 32768;
      PM_ReleaseDate := "2025-04-16"; PM_InputMicrosPerMTok := 153900; PM_OutputMicrosPerMTok := 153900;
      PM_CachedInputMicrosPerMTok := 0; PM_CacheWriteMicrosPerMTok := 0;
      PM_LongPrompt := None;
      PM_Description := "small - plain instructions, short and simple tasks"; PM_Snapshot := "" |};
   {| PM_ID := "inference-mistral-v03-7b"; PM_DisplayName := "Mistral 7B v0.3"; PM_Kind := ""; PM_MaxContext := 32768;
      PM_ReleaseDate := "2024-05-22"; PM_InputMicrosPerMTok := 153900; PM_OutputMicrosPerMTok := 153900;
      PM_CachedInputMicrosPerMTok := 0; PM_CacheWriteMicrosPerMTok := 0;
      PM_LongPrompt := None;
      PM_Description := "small - chat in many languages, short and simple tasks"; PM_Snapshot := "" |};
   {| PM_ID := "inference-granite-vision-2b"; PM_DisplayName := "Granite Vision 3.2 2B"; PM_Kind := ""; PM_MaxContext := 8192;
      PM_ReleaseDate := "2025-02-26"; PM_InputMicrosPerMTok := 77000; PM_OutputMicrosPerMTok := 77000;
      PM_CachedInputMicrosPerMTok := 0; PM_CacheWriteMicrosPerMTok := 0;
      PM_LongPrompt := None;
      PM_Description := "tiny vision model - describes images and reads charts; not for chat"; PM_Snapshot := "" |};
   {| PM_ID := "inference-miner-u25"; PM_DisplayName := "MinerU 2.5"; PM_Kind := ""; PM_MaxContext := 8192;
      PM_ReleaseDate := "2026-05-21"; PM_InputMicrosPerMTok := 380000; PM_OutputMicrosPerMTok := 230000;
      PM_CachedInputMicrosPerMTok := 0; PM_CacheWriteMicrosPerMTok := 0;
      PM_LongPrompt := None;
      PM_Description := "document parsing - turns images of pages into text, tables and formulas; not for chat"; PM_Snapshot := "" |}
  ].

Definition provider_phoeniqs : CatalogProvider :=
  {| P_Name := "phoeniqs";
     P_Summary := "Open-weight models, served in Switzerland.";
     P_Endpoint := "https://maas.phoeniqs.com/v1";
     NeedsProductID := false; P_Endpoints := [];
     P_CachedInput := false; P_Location := "ch"; P_Kinds := [];
     P_Models := models_phoeniqs |}.

Definition models_cscs : list ProviderModel :=
  [
   {| PM_ID := "zai-org/GLM-5.3"; PM_DisplayName := "GLM-5.3"; PM_Kind := ""; PM_MaxContext := 976000;
      PM_ReleaseDate := "2026-08-14"; PM_InputMicrosPerMTok := 181100; PM_OutputMicrosPerMTok := 6642000;
      PM_CachedInputMicrosPerMTok := 31500; PM_CacheWriteMicrosPerMTok := 0;
      PM_LongPrompt := None;
      PM_Description := "large - hard coding, agent and security work over very long inputs"; PM_Snapshot := "" |};
   {| PM_ID := "zai-org/GLM-5.3-Flash"; PM_DisplayName := "GLM-5.3 Flash"; PM_Kind := ""; PM_MaxContext := 262144;
      PM_ReleaseDate := "2026-08-26"; PM_InputMicrosPerMTok := 74700; PM_OutputMicrosPerMTok := 1822500;
      PM_CachedInputMicrosPerMTok := 16200; PM_CacheWriteMicrosPerMTok := 0;
      PM_LongPrompt := None;
      PM_Description := "mid-size, quick all-rounder - code, reasoning and tool use"; PM_Snapshot := "" |};
   {| PM_ID := "google/gemma-4-31B-it"; PM_DisplayName := "Gemma 4 31B"; PM_Kind := ""; PM_MaxContext := 262144;
      PM_ReleaseDate := "2026-04-02"; PM_InputMicrosPerMTok := 68000; PM_OutputMicrosPerMTok := 420000;
      PM_CachedInputMicrosPerMTok := 13600; PM_CacheWriteMicrosPerMTok := 0;
      PM_LongPrompt := None;
      PM_Description := "mid-size and quick, reads images - documents, chatbots and ordinary code"; PM_Snapshot := "" |};
   {| PM_ID := "swiss-ai/Apertus-v1.5-70B"; PM_DisplayName := "Apertus v1.5 70B"; PM_Kind := ""; PM_MaxContext := 262144;
      PM_ReleaseDate := "2026-07-24"; PM_InputMicrosPerMTok := 194600; PM_OutputMicrosPerMTok := 392800;
      PM_CachedInputMicrosPerMTok := 19500; PM_CacheWriteMicrosPerMTok := 0;
      PM_LongPrompt := None;
      PM_Description := "mid-size, open training data - work that must be auditable"; PM_Snapshot := "" |};
   {| PM_ID := "swiss-ai/Apertus-v1.5-70B-thinking"; PM_DisplayName := "Apertus v1.5 70B Thinking"; PM_Kind := ""; PM_MaxContext := 262144;
      PM_ReleaseDate := "2026-07-24"; PM_InputMicrosPerMTok := 194600; PM_OutputMicrosPerMTok := 392800;
      PM_CachedInputMicrosPerMTok := 19500; PM_CacheWriteMicrosPerMTok := 0;
      PM_LongPrompt := None;
      PM_Description := "mid-size, open training data, reasons first, no tool calls - hard questions"; PM_Snapshot := "" |};
   {| PM_ID := "swiss-ai/Apertus-v1.5-8B"; PM_DisplayName := "Apertus v1.5 8B"; PM_Kind := ""; PM_MaxContext := 262144;
      PM_ReleaseDate := "2026-07-24"; PM_InputMicrosPerMTok := 18500; PM_OutputMicrosPerMTok := 40400;
      PM_CachedInputMicrosPerMTok := 1900; PM_CacheWriteMicrosPerMTok := 0;
      PM_LongPrompt := None;
      PM_Description := "small, open training data - simple tasks"; PM_Snapshot := "" |};
   {| PM_ID := "swiss-ai/Apertus-v1.5-8B-thinking"; PM_DisplayName := "Apertus v1.5 8B Thinking"; PM_Kind := ""; PM_MaxContext := 262144;
      PM_ReleaseDate := "2026-07-24"; PM_InputMicrosPerMTok := 18500; PM_OutputMicrosPerMTok := 40400;
      PM_CachedInputMicrosPerMTok := 1900; PM_CacheWriteMicrosPerMTok := 0;
      PM_LongPrompt := None;
      PM_Description := "small, open training data, reasons first, no tool calls - simple questions"; PM_Snapshot := "" |}
  ].

Definition provider_cscs : CatalogProvider :=
  {| P_Name := "cscs";
     P_Summary := "Open-weight models at the Swiss National Supercomputing Centre.";
     P_Endpoint := "https://api.inference.cscs.ch/v1";
     NeedsProductID := false; P_Endpoints := [];
     P_CachedInput := true; P_Location := "ch"; P_Kinds := [];
     P_Models := models_cscs |}.

Definition providers : list CatalogProvider :=
  [provider_anthropic; provider_openai; provider_google; provider_mistral; provider_infomaniak;
   provider_stepping_stone; provider_phoeniqs; provider_cscs].
