(* ===== verification/Catalog.v ===== *)
(** * The catalogue of models

    [internal/catalog]: what a declared model may leave out and the provider
    fills in ([catalog.go] and the functions of [providers.go]), and what a
    model on the deployment's own key may not choose ([platform.go]). Files,
    the command line and the control API all run [CheckModel]. *)
From S2P Require Import Prelude GoTime Tenancy Pricing Text Hosting Providers.

#[export] Instance Model_updatable : Updatable Model := λ m,
  {| Alias := Alias m; OrgID := OrgID m; Kind := Kind m; Backends := Backends m;
     BackendModel := BackendModel m; Provider := Provider m; DisplayName := DisplayName m;
     Description := Description m; InputMicrosPerMTok := InputMicrosPerMTok m;
     OutputMicrosPerMTok := OutputMicrosPerMTok m;
     CachedInputMicrosPerMTok := CachedInputMicrosPerMTok m;
     CacheWriteMicrosPerMTok := CacheWriteMicrosPerMTok m; LongPrompt := LongPrompt m;
     MaxContext := MaxContext m; ReleaseDate := ReleaseDate m; Location := Location m;
     APIKeyCiphertext := APIKeyCiphertext m; APIKey := APIKey m; HasAPIKey := HasAPIKey m;
     Subscription := Subscription m; PlatformKey := PlatformKey m;
     Model_Billing := Model_Billing m; Limited := Limited m; Locked := Locked m;
     OrgName := OrgName m; Enabled := Enabled m |}.

(** ** Strings *)

(** [strings.ReplaceAll] of a text that is not empty. *)
Fixpoint replace_fuel (fuel : nat) (s old new : string) : string :=
  match fuel, s with
  | S fuel, String c rest =>
      match CutPrefix s old with
      | Some after => new +:+ replace_fuel fuel after old new
      | None => String c (replace_fuel fuel rest old new)
      end
  | _, _ => s
  end.

Definition ReplaceAll (s old new : string) : string := replace_fuel (String.length s) s old new.

(** [strings.Contains]. *)
Definition Contains_str (s sub : string) : bool := bool_decide (is_Some (String.index 0 sub s)).

(** [strings.TrimRight s c] for a one-byte [c]. *)
Definition TrimRight_byte (c : Ascii.ascii) (s : string) : string :=
  str_rev ((fix drop (s : string) :=
    match s with
    | EmptyString => EmptyString
    | String a s' => if bool_decide (a = c) then drop s' else s
    end) (str_rev s)).

(** The digits of a number, and its value. *)
Definition digit_val (a : Ascii.ascii) : Z := Z.of_nat (byte_val a) - 48.

Fixpoint atoi (s : string) (n : Z) : option Z :=
  match s with
  | EmptyString => Some n
  | String c s => if is_digit c then atoi s (n * 10 + digit_val c) else None
  end.

(** [ValidReleaseDate]: [time.Parse] of a date written YYYY-MM-DD. *)
Definition ValidReleaseDate (s : string) : bool :=
  if negb (len s =? 10) then false
  else match atoi (String.substring 0 4 s) 0, atoi (String.substring 5 2 s) 0,
             atoi (String.substring 8 2 s) 0 with
       | Some y, Some m, Some d =>
           bool_decide (String.substring 4 1 s = "-") && bool_decide (String.substring 7 1 s = "-") &&
           (1 <=? m) && (m <=? 12) && (1 <=? d) &&
           (d <=? days_before_month (leap y) m - days_before_month (leap y) (m - 1))
       | _, _, _ => false
       end.

(** ** The table *)

Definition provider (name : string) : option CatalogProvider :=
  list_find (λ p, P_Name p = name) providers ≫= λ '(_, p), Some p.

(** [Provider.EndpointFor]. *)
Definition EndpointFor (p : CatalogProvider) (k : string) : string :=
  match list_find (λ e, e.1 = k) (P_Endpoints p) with
  | Some (_, e) => e.2
  | None => P_Endpoint p
  end.

(** [Provider.Model]. *)
Definition Provider_Model (p : CatalogProvider) (id : string) : option ProviderModel :=
  list_find (λ m, PM_ID m = id ∨ PM_Snapshot m ≠ "" ∧ PM_Snapshot m = id) (P_Models p) ≫=
    λ '(_, m), Some m.

Definition kindOrChat (m : ProviderModel) : string :=
  if bool_decide (PM_Kind m = "") then KindChat else PM_Kind m.

(** [joinNames]. *)
Definition joinNames {A} (items : list A) (name : A → string) : string := join ", " (name <$> items).

Definition ProviderNames : string := joinNames providers P_Name.

Definition modelIDs (p : CatalogProvider) : string := joinNames (P_Models p) PM_ID.

(** [Provider.kinds]. *)
Definition kinds (p : CatalogProvider) : list string :=
  collect_new (λ m, Some (kindOrChat m)) [] (P_Models p).

Definition kindNames (p : CatalogProvider) : string := joinNames (kinds p) id.

Definition productIDPlaceholder : string := "{product_id}".

Definition ValidProductID (id : string) : bool :=
  all_bytes (λ _ c, is_lower c || is_upper c || is_digit c || bool_decide (c = hyphen) ||
    bool_decide (c = Ascii.ascii_of_nat 95)) 0 id.

(** ** Declared models *)

(** [catalog.Model]; a nil pointer is [None]. *)
Record Entry := {
  E_Alias : string;
  E_Kind : string;
  E_DisplayName : string;
  E_Provider : string;
  E_Backends : list string;
  E_ProductID : string;
  E_BackendModel : string;
  E_Description : string;
  E_Input : option Z;
  E_Output : option Z;
  E_CachedInput : option Z;
  E_CacheWrite : option Z;
  E_LongPrompt : option PriceTier;
  E_MaxContext : option Z;
  E_ReleaseDate : string;
  E_Location : string;
  E_Subscription : bool;
  E_Disabled : bool;
}.

#[export] Instance Entry_updatable : Updatable Entry := λ m,
  {| E_Alias := E_Alias m; E_Kind := E_Kind m; E_DisplayName := E_DisplayName m;
     E_Provider := E_Provider m; E_Backends := E_Backends m; E_ProductID := E_ProductID m;
     E_BackendModel := E_BackendModel m; E_Description := E_Description m; E_Input := E_Input m;
     E_Output := E_Output m; E_CachedInput := E_CachedInput m; E_CacheWrite := E_CacheWrite m;
     E_LongPrompt := E_LongPrompt m; E_MaxContext := E_MaxContext m; E_ReleaseDate := E_ReleaseDate m;
     E_Location := E_Location m; E_Subscription := E_Subscription m; E_Disabled := E_Disabled m |}.

Section entries.
Context `{Addresses} `{Unicode}.

(** The loop of [fillProductID]. *)
Fixpoint fill_loop (p : CatalogProvider) (backends : list string) (productID : string)
    : string + list string :=
  match backends with
  | [] => inr []
  | b :: backends =>
      let filled := if bool_decide (productID = "") then b
                    else ReplaceAll b productIDPlaceholder productID in
      if Contains_str filled productIDPlaceholder then
        inl ("the " +:+ P_Name p +:+ " provider serves each customer at their own " +:+
          "address: state product_id (your AI Service's product id, which the " +:+ P_Name p +:+ " " +:+
          "console shows under AI Tools), or write the finished backends here " +:+ "yourself")
      else match fill_loop p backends productID with
           | inr rest => inr (filled :: rest)
           | inl err => inl err
           end
  end.

Definition fillProductID (p : CatalogProvider) (backends : list string) (productID : string)
    : string + list string :=
  let productID := TrimSpace productID in
  if negb (bool_decide (productID = "")) && negb (NeedsProductID p) then
    inl ("the " +:+ P_Name p +:+ " provider serves everybody at the same address and " +:+
      "takes no product_id")
  else if negb (bool_decide (productID = "")) && negb (ValidProductID productID) then
    inl ("product_id " +:+ Quote productID +:+ " must be letters, digits, hyphens and " +:+
      "underscores: it is written into the endpoint")
  else fill_loop p backends productID.

Definition or_else {A} (o : option A) (a : A) : option A := match o with Some x => Some x | None => Some a end.

Definition or_empty (s def : string) : string := if bool_decide (s = "") then def else s.

(** [fillFromTable]. *)
Definition fillFromTable (m : Entry) (known : ProviderModel) : Entry :=
  m <| E_Kind := or_empty (E_Kind m) (kindOrChat known) |>
    <| E_MaxContext := or_else (E_MaxContext m) (PM_MaxContext known) |>
    <| E_Description := or_empty (E_Description m) (PM_Description known) |>
    <| E_DisplayName := or_empty (E_DisplayName m) (PM_DisplayName known) |>
    <| E_ReleaseDate := or_empty (E_ReleaseDate m) (PM_ReleaseDate known) |>
    <| E_Input := or_else (E_Input m) (PM_InputMicrosPerMTok known) |>
    <| E_Output := or_else (E_Output m) (PM_OutputMicrosPerMTok known) |>
    <| E_CachedInput := or_else (E_CachedInput m) (PM_CachedInputMicrosPerMTok known) |>
    <| E_CacheWrite := or_else (E_CacheWrite m) (PM_CacheWriteMicrosPerMTok known) |>
    <| E_LongPrompt := match E_LongPrompt m with Some t => Some t | None => PM_LongPrompt known end |>.

(** [applyProvider]. *)
Definition applyProvider (m : Entry) : string + Entry :=
  match provider (E_Provider m) with
  | None => inl ("unknown provider " +:+ Quote (E_Provider m) +:+ "; Keera Gateway knows: " +:+ ProviderNames)
  | Some p =>
      let known := Provider_Model p (E_BackendModel m) in
      let kind := match known with
                  | Some k => or_empty (E_Kind m) (kindOrChat k)
                  | None => E_Kind m
                  end in
      let m := match E_Backends m with [] => m <| E_Backends := [EndpointFor p kind] |> | _ => m end in
      match fillProductID p (E_Backends m) (E_ProductID m) with
      | inl err => inl err
      | inr backends =>
          let m := m <| E_Backends := backends |> in
          let m := m <| E_Location := or_empty (E_Location m) (P_Location p) |> in
          match known with
          | Some k => if bool_decide (E_BackendModel m = "") then inr m else inr (fillFromTable m k)
          | None => inr m
          end
      end
  end.

(** [Provider.Check]; [None] is a nil error. *)
Definition Provider_Check (p : CatalogProvider) (kind backendModel : string) (priced : bool) : option string :=
  let known := Provider_Model p backendModel in
  if negb (bool_decide (kind = "")) && negb (contains (kinds p) kind) then
    Some ("provider " +:+ P_Name p +:+ " serves only " +:+ kindNames p +:+ ", not " +:+ Quote kind)
  else if bool_decide (backendModel = "") then None
  else match known with
       | Some k =>
           if negb (bool_decide (kind = "")) && negb (bool_decide (kind = kindOrChat k)) then
             Some (backendModel +:+ " is a " +:+ kindOrChat k +:+ " model at " +:+ P_Name p +:+
               "; set kind " +:+ kindOrChat k)
           else None
       | None =>
           if negb priced then
             Some (backendModel +:+ " is not in the Keera Gateway price table for " +:+ P_Name p +:+ " " +:+
               "(it knows: " +:+ modelIDs p +:+ "); " +:+
               "state input_micros_per_mtok and output_micros_per_mtok for it - " +:+
               "0 to declare the model unbilled, which no budget can then hold")
           else None
       end.

(** [checkSubscription]; the zero [Provider] when the table has no Anthropic. *)
Definition checkSubscription (m : Model) : option string :=
  if negb (Subscription m) then None
  else
    let '(name, endpoint) := match provider "anthropic" with
                             | Some p => (P_Name p, P_Endpoint p)
                             | None => ("", "")
                             end in
    if negb (bool_decide (Provider m = name)) then
      Some ("a subscription model must name the provider " +:+ name +:+ ": " +:+
        "only a Claude plan can pay for it")
    else if negb (bool_decide (Kind m = KindChat)) then Some "a subscription model must be a chat model"
    else match Backends m with
         | [b] => if bool_decide (TrimRight_byte slash b = endpoint) then None
                  else Some ("a subscription model is sent each caller's Claude sign-in, " +:+
                    "so its only backend must be Anthropic's own API, " +:+ endpoint +:+ "; to go through " +:+
                    "an egress proxy, set HTTPS_PROXY on the gateway")
         | _ => Some ("a subscription model is sent each caller's Claude sign-in, " +:+
                  "so its only backend must be Anthropic's own API, " +:+ endpoint +:+ "; to go through " +:+
                  "an egress proxy, set HTTPS_PROXY on the gateway")
         end.

(** What [CheckModel] checks once the location is settled. *)
Definition check_rest (m : Model) : string + Model :=
  let m := m <| ReleaseDate := TrimSpace (ReleaseDate m) |> <| DisplayName := TrimSpace (DisplayName m) |> in
  if negb (ValidLocation (Location m)) then
    inl ("location " +:+ Quote (Location m) +:+ " must be a short lowercase name, " +:+ "such as ch, usa or onprem")
  else if negb (bool_decide (ReleaseDate m = "")) && negb (ValidReleaseDate (ReleaseDate m)) then
    inl ("release_date " +:+ Quote (ReleaseDate m) +:+ " must be a day written as " +:+ "YYYY-MM-DD")
  else
    match LongPrompt m ≫= PriceTier_Check with
    | Some err => inl err
    | None => match checkSubscription m with Some err => inl err | None => inr m end
    end.

(** [CheckModel]: an error, or the model with what it left out filled in. *)
Definition CheckModel (m : Model) (priced : bool) : string + Model :=
  match CheckBackend m with
  | Some err => inl err
  | None =>
      let m := m <| Kind := or_empty (Kind m) KindChat |> in
      if negb (Kind_Valid (Kind m)) then
        inl ("kind " +:+ Quote (Kind m) +:+ " must be chat, completion, embedding, rerank or decision")
      else
        let prov := provider (Provider m) in
        let refused := match prov with
                       | Some p => Provider_Check p (Kind m) (BackendModel m) priced
                       | None => if bool_decide (Provider m = "") then None
                                 else Some ("unknown provider " +:+ Quote (Provider m) +:+
                                   "; Keera Gateway knows: " +:+ ProviderNames)
                       end in
        match refused with
        | Some err => inl err
        | None =>
            let m := m <| Location := ToLower (TrimSpace (Location m)) |> in
            if bool_decide (Location m = "") then
              match prov with
              | Some p => check_rest (m <| Location := P_Location p |>)
              | None => match LocationFromBackends m with
                        | inl err => inl err
                        | inr loc => check_rest (m <| Location := loc |>)
                        end
              end
            else check_rest m
        end
  end.

(** [checkBackend]. *)
Definition checkBackend (m : Entry) : option string :=
  if negb (bool_decide (E_ProductID m = "")) && bool_decide (E_Provider m = "") then
    Some ("product_id fills in a hosted provider's endpoint, " +:+
      "and this entry names no provider; put the id in the backend URL instead")
  else if negb (bool_decide (E_Backends m = [])) && bool_decide (E_BackendModel m = "") &&
          negb (bool_decide (E_Provider m = "")) then
    Some ("backend_model is required - for the " +:+ E_Provider m +:+ " provider it is " +:+
      "the model id, which `keera model catalogue` lists")
  else None.

(** The [policy.Model] [ParseModel] builds from an entry. *)
Definition parsed (m : Entry) : Model :=
  Model_zero <| Alias := E_Alias m |> <| Kind := E_Kind m |> <| Backends := E_Backends m |>
    <| BackendModel := E_BackendModel m |> <| Provider := E_Provider m |>
    <| DisplayName := E_DisplayName m |> <| Description := E_Description m |>
    <| InputMicrosPerMTok := default 0 (E_Input m) |>
    <| OutputMicrosPerMTok := default 0 (E_Output m) |>
    <| CachedInputMicrosPerMTok := default 0 (E_CachedInput m) |>
    <| CacheWriteMicrosPerMTok := default 0 (E_CacheWrite m) |>
    <| LongPrompt := E_LongPrompt m |> <| MaxContext := default 0 (E_MaxContext m) |>
    <| ReleaseDate := E_ReleaseDate m |> <| Location := E_Location m |>
    <| Subscription := E_Subscription m |> <| Enabled := negb (E_Disabled m) |>.

(** [ParseModel]. *)
Definition ParseModel (m : Entry) : string + Model :=
  if bool_decide (E_Alias m = "") then inl "alias is required"
  else if negb (ValidModelAlias (E_Alias m)) then
    inl ("alias " +:+ Quote (E_Alias m) +:+ " must be lowercase letters, digits, " +:+
      "interior hyphens and slashes: it is rendered into the client configurations `keera connect` " +:+
      "prints, which quote none of it")
  else
    let m := m <| E_Description := TrimSpace (E_Description m) |>
               <| E_DisplayName := TrimSpace (E_DisplayName m) |>
               <| E_ProductID := TrimSpace (E_ProductID m) |>
               <| E_ReleaseDate := TrimSpace (E_ReleaseDate m) |>
               <| E_Location := ToLower (TrimSpace (E_Location m)) |>
               <| E_Provider := ToLower (TrimSpace (E_Provider m)) |> in
    match (if bool_decide (E_Provider m = "") then inr m else applyProvider m) with
    | inl err => inl err
    | inr m =>
        match checkBackend m with
        | Some err => inl err
        | None =>
            CheckModel (parsed m) (bool_decide (is_Some (E_Input m)) && bool_decide (is_Some (E_Output m)))
        end
    end.

(** ** The deployment's own keys *)

Record PlatformKeyEntry := { PK_APIKey : string; PK_ProductID : string }.

Definition Platform : Type := gmap string PlatformKeyEntry.

Definition Has (p : Platform) (name : string) : bool := bool_decide (is_Some (p !! name)).

Definition Covers (p : Platform) (m : Model) : bool := Has p (Provider m) && negb (Subscription m).

(** [Platform.Lock]: an error, or the model it leaves. *)
Definition Lock (p : Platform) (m : Model) : string + Model :=
  if negb (Covers p m) then inr m
  else
    let prov := provider (Provider m) in
    let name := match prov with Some q => P_Name q | None => "" end in
    match prov ≫= (λ q, Provider_Model q (BackendModel m)) with
    | None => inl (BackendModel m +:+ " is not in the Keera Gateway price table for " +:+ name +:+ ", so it " +:+
        "cannot be billed on this deployment's key (it knows: " +:+
        match prov with Some q => modelIDs q | None => "" end +:+ ")")
    | Some known =>
        let '(endpoint, needs) := match prov with
                                  | Some q => (EndpointFor q (kindOrChat known), NeedsProductID q)
                                  | None => ("", false)
                                  end in
        let id := match p !! Provider m with Some k => PK_ProductID k | None => "" end in
        let endpoint := if needs then ReplaceAll endpoint productIDPlaceholder id else endpoint in
        inr (m <| Backends := [endpoint] |>
               <| InputMicrosPerMTok := PM_InputMicrosPerMTok known |>
               <| OutputMicrosPerMTok := PM_OutputMicrosPerMTok known |>
               <| CachedInputMicrosPerMTok := PM_CachedInputMicrosPerMTok known |>
               <| CacheWriteMicrosPerMTok := PM_CacheWriteMicrosPerMTok known |>
               <| LongPrompt := PM_LongPrompt known |>
               <| PlatformKey := true |>)
    end.

Definition hostOf (endpoint : string) : string :=
  match url_Parse endpoint with Some u => ToLower (url_Host u) | None => "" end.

(** [AtProvider]. *)
Definition AtProvider (m : Model) : bool :=
  match provider (Provider m) with
  | None => false
  | Some prov =>
      let hosts := hostOf (P_Endpoint prov) :: (hostOf ∘ snd <$> P_Endpoints prov) in
      negb (bool_decide (Backends m = [])) &&
      forallb (λ b, match url_Parse (TrimSpace b) with
                    | Some u => bool_decide (url_Scheme u = "https") && negb (url_user u) &&
                                contains hosts (ToLower (url_Host u))
                    | None => false
                    end) (Backends m)
  end.
End entries.

(** ** The table *)

(** The prices of a row, as a model's. *)
Definition listed (k : ProviderModel) : Model :=
  Model_zero <| InputMicrosPerMTok := PM_InputMicrosPerMTok k |>
    <| OutputMicrosPerMTok := PM_OutputMicrosPerMTok k |>
    <| CachedInputMicrosPerMTok := PM_CachedInputMicrosPerMTok k |>
    <| CacheWriteMicrosPerMTok := PM_CacheWriteMicrosPerMTok k |>
    <| LongPrompt := PM_LongPrompt k |>.

(** The dearest price of the table: CHF 100 per million tokens is more. *)
Definition max_list_price : Z := 100000000.

Definition price_ok (input output cached write : Z) : bool :=
  (0 <=? output) && (0 <=? cached) && (cached <=? input) && (0 <=? write) &&
  (input <=? max_list_price) && (output <=? max_list_price) && (write <=? max_list_price).

Definition row_ok (k : ProviderModel) : bool :=
  price_ok (PM_InputMicrosPerMTok k) (PM_OutputMicrosPerMTok k) (PM_CachedInputMicrosPerMTok k)
    (PM_CacheWriteMicrosPerMTok k) &&
  match PM_LongPrompt k with
  | None => true
  | Some t =>
      price_ok (InputMicros t) (OutputMicros t) (CachedInputMicros t) (CacheWriteMicros t) &&
      bool_decide (PriceTier_Check t = None)
  end &&
  (bool_decide (PM_ReleaseDate k = "") || ValidReleaseDate (PM_ReleaseDate k)) &&
  Kind_Valid (kindOrChat k) && (0 <? PM_MaxContext k) && negb (bool_decide (PM_ID k = "")) &&
  bool_decide (TrimSpace (PM_ReleaseDate k) = PM_ReleaseDate k) &&
  bool_decide (TrimSpace (PM_DisplayName k) = PM_DisplayName k).

Definition plain_name (s : string) : bool := all_bytes (λ _ c, is_lower c || bool_decide (c = hyphen)) 0 s.

(** A row is found under its own id. *)
Definition found_row (p : CatalogProvider) (k : ProviderModel) : bool :=
  match Provider_Model p (PM_ID k) with
  | Some k' => bool_decide (kindOrChat k' = kindOrChat k) && bool_decide (PM_ID k' = PM_ID k) &&
      (PM_InputMicrosPerMTok k' =? PM_InputMicrosPerMTok k)
  | None => false
  end.

Definition provider_ok (p : CatalogProvider) : bool :=
  forallb row_ok (P_Models p) && forallb (found_row p) (P_Models p) &&
  plain_name (P_Name p) && ValidLocation (P_Location p) && plain_name (P_Location p) &&
  bool_decide (NoDup (PM_ID <$> P_Models p)) && bool_decide (TrimSpace (P_Name p) = P_Name p) &&
  bool_decide (TrimSpace (P_Location p) = P_Location p) && negb (bool_decide (P_Name p = "")).

Lemma table_ok : forallb provider_ok providers && bool_decide (NoDup (P_Name <$> providers)) = true.
Proof. vm_compute. reflexivity. Qed.

Lemma provider_found name p : provider name = Some p → p ∈ providers ∧ P_Name p = name.
Proof.
  unfold provider. intros ([i q] & (Hi & Hq & _)%list_find_Some & [= <-])%bind_Some.
  split; [by eapply list_elem_of_lookup_2|done].
Qed.

Lemma provider_listed p : p ∈ providers → provider (P_Name p) = Some p ∧ provider_ok p = true.
Proof.
  intros Hp. pose proof table_ok as [Hall Hnd]%andb_true_iff. split.
  - apply bool_decide_eq_true in Hnd. apply list_elem_of_lookup_1 in Hp as [i Hi].
    unfold provider. rewrite (proj2 (list_find_Some _ _ i p)); [done|]. split_and!; [done|done|].
    intros j q Hj Hlt He. assert (i = j); [|lia].
    apply (NoDup_lookup _ i j (P_Name p) Hnd); rewrite list_lookup_fmap; [by rewrite Hi|].
    rewrite Hj. simpl. congruence.
  - rewrite forallb_forall in Hall. by apply Hall, list_elem_of_In.
Qed.

Lemma row_found p id k :
  Provider_Model p id = Some k →
  k ∈ P_Models p ∧ (PM_ID k = id ∨ PM_Snapshot k ≠ "" ∧ PM_Snapshot k = id).
Proof.
  unfold Provider_Model. intros ([i q] & (Hi & Hq & _)%list_find_Some & [= <-])%bind_Some.
  split; [by eapply list_elem_of_lookup_2|done].
Qed.

Lemma row_listed p k : p ∈ providers → k ∈ P_Models p → row_ok k = true ∧ found_row p k = true.
Proof.
  intros [_ Hok]%provider_listed Hk. unfold provider_ok in Hok.
  rewrite !andb_true_iff, !forallb_forall in Hok. apply list_elem_of_In in Hk.
  split; apply Hok; done.
Qed.

Lemma price_ok_within a i o c w :
  price_ok i o c w = true →
  tier_within max_list_price
    {| AboveTokens := a; InputMicros := i; OutputMicros := o; CachedInputMicros := c; CacheWriteMicros := w |}.
Proof. unfold price_ok, tier_within. rewrite !andb_true_iff, !Z.leb_le. simpl. lia. Qed.

(** Every price of the table is between zero and the dearest, whatever the
    length of the prompt: the bound under which [Cost] is exact. *)
Lemma listed_prices_within p k :
  p ∈ providers → k ∈ P_Models p → prices_within max_list_price (listed k).
Proof.
  intros Hp Hk. destruct (row_listed p k Hp Hk) as [Hr _]. unfold row_ok in Hr.
  rewrite !andb_true_iff in Hr. destruct Hr as (((((([Hr Hl] & _) & _) & _) & _) & _) & _).
  intros n. unfold prices, listed. cbn. destruct (PM_LongPrompt k) as [t|]; [|by apply price_ok_within].
  rewrite andb_true_iff in Hl. destruct Hl as [Hl _]. case_match; [|by apply price_ok_within].
  destruct t. by apply price_ok_within.
Qed.

(** ** What is accepted *)

Section catalog_theorems.
Context `{Addresses} `{Unicode}.

(** What every stored model satisfies. *)
Record model_ok (m : Model) : Prop := {
  ok_backends : Backends m ≠ [] ∧ ∀ b, b ∈ Backends m → http_address b = true;
  ok_served : BackendModel m ≠ "";
  ok_kind : Kind_Valid (Kind m) = true;
  ok_location : ValidLocation (Location m) = true;
  ok_date : ReleaseDate m = "" ∨ ValidReleaseDate (ReleaseDate m) = true;
  ok_tier : ∀ t, LongPrompt m = Some t → 0 < AboveTokens t;
  ok_provider : Provider m = "" ∨ ∃ p, provider (Provider m) = Some p ∧ Kind m ∈ kinds p ∧
    ∀ k, Provider_Model p (BackendModel m) = Some k → Kind m = kindOrChat k;
  ok_subscription : Subscription m = true →
    Provider m = "anthropic" ∧ Kind m = KindChat ∧
    ∃ b, Backends m = [b] ∧ TrimRight_byte slash b = "https://api.anthropic.com/v1";
}.

Lemma CheckBackend_none m :
  CheckBackend m = None →
  (Backends m ≠ [] ∧ ∀ b, b ∈ Backends m → http_address b = true) ∧ BackendModel m ≠ "".
Proof.
  unfold CheckBackend. repeat case_bool_decide; try done. intros Hf. split; [|done]. split; [done|].
  intros b Hb. destruct (http_address b) eqn:E; [done|].
  destruct (filter _ _) eqn:Hl; [|done]. assert (b ∈ filter (λ b, http_address b = false) (Backends m)) as Hin
    by (by apply list_elem_of_filter). rewrite Hl in Hin. by apply not_elem_of_nil in Hin.
Qed.

Lemma checkSubscription_none m :
  checkSubscription m = None → Subscription m = true →
  Provider m = "anthropic" ∧ Kind m = KindChat ∧
  ∃ b, Backends m = [b] ∧ TrimRight_byte slash b = "https://api.anthropic.com/v1".
Proof.
  unfold checkSubscription. intros Hc Hs. rewrite Hs in Hc. cbn [negb] in Hc.
  change (match provider "anthropic" with Some p => (P_Name p, P_Endpoint p) | None => ("", "") end)
    with ("anthropic", "https://api.anthropic.com/v1") in Hc. cbv beta iota in Hc.
  repeat case_bool_decide; try done. cbn [negb] in Hc.
  destruct (Backends m) as [|b [|? ?]]; try done. case_bool_decide; [|done]. eauto.
Qed.

(** A tactic for the setters: what a field of an updated model is. *)
Ltac fields := cbn [update Alias OrgID Kind Backends BackendModel Provider DisplayName Description
  InputMicrosPerMTok OutputMicrosPerMTok CachedInputMicrosPerMTok CacheWriteMicrosPerMTok LongPrompt
  MaxContext ReleaseDate Location APIKeyCiphertext APIKey HasAPIKey Subscription PlatformKey
  Model_Billing Limited Locked OrgName Enabled] in *.

Lemma check_rest_ok m m' :
  check_rest m = inr m' →
  m' = m <| ReleaseDate := TrimSpace (ReleaseDate m) |> <| DisplayName := TrimSpace (DisplayName m) |> ∧
  ValidLocation (Location m) = true ∧
  (ReleaseDate m' = "" ∨ ValidReleaseDate (ReleaseDate m') = true) ∧
  (∀ t, LongPrompt m = Some t → 0 < AboveTokens t) ∧ checkSubscription m' = None.
Proof.
  unfold check_rest. set (m1 := m <| ReleaseDate := _ |> <| DisplayName := _ |>).
  destruct (ValidLocation (Location m1)) eqn:Hl; [|done]. cbn [negb].
  destruct (negb _ && negb _) eqn:Hd; [done|].
  destruct (LongPrompt m1 ≫= PriceTier_Check) eqn:Ht; [done|].
  destruct (checkSubscription m1) eqn:Hs; [done|]. intros [= <-]. split; [done|]. split; [done|].
  split; [|split; [|done]].
  - apply andb_false_iff in Hd. rewrite !negb_false_iff, bool_decide_eq_true in Hd. done.
  - intros t Et. change (LongPrompt m1) with (LongPrompt m) in Ht. rewrite Et in Ht. simpl in Ht.
    unfold PriceTier_Check in Ht. destruct (_ <=? 0) eqn:E; [done|]. to_prop. lia.
Qed.

(** What [CheckModel] changes, and what it knows of what it lets through. *)
Lemma CheckModel_facts (m m' : Model) (priced : bool) :
  CheckModel m priced = inr m' →
  (∃ kind loc, m' = m <| Kind := kind |> <| Location := loc |>
     <| ReleaseDate := TrimSpace (ReleaseDate m) |> <| DisplayName := TrimSpace (DisplayName m) |>) ∧
  model_ok m' ∧
  (priced = true ∨ Provider m = "" ∨
   ∃ p k, provider (Provider m) = Some p ∧ Provider_Model p (BackendModel m) = Some k).
Proof.
  unfold CheckModel. destruct (CheckBackend m) eqn:Hb; [done|].
  apply CheckBackend_none in Hb as [Hback Hserved].
  set (m1 := m <| Kind := or_empty (Kind m) KindChat |>).
  destruct (Kind_Valid (Kind m1)) eqn:Hk; [|done]. cbn [negb].
  destruct (match provider (Provider m1) with Some p => _ | None => _ end) eqn:Hp; [done|].
  set (m2 := m1 <| Location := ToLower (TrimSpace (Location m1)) |>). intros Hr.
  assert (∃ loc, check_rest (m2 <| Location := loc |>) = inr m') as [loc Hc].
  { case_bool_decide as Hloc.
    - destruct (provider (Provider m1)); [eauto|]. destruct (LocationFromBackends m2); [done|eauto].
    - exists (Location m2). by destruct m2. }
  clear Hr. apply check_rest_ok in Hc as (-> & Hvl & Hdate & Htier & Hsub).
  assert (∀ q : Prop, (Provider m = "" → q) →
    (∀ p, provider (Provider m) = Some p → Provider_Check p (Kind m1) (BackendModel m) priced = None → q) → q) as Hprov.
  { intros q Q1 Q2. change (Provider m1) with (Provider m) in Hp.
    destruct (provider (Provider m)) as [p|]; [by apply (Q2 p)|]. case_bool_decide; [by apply Q1|done]. }
  assert (Kind m1 ≠ "") as Hne by (intros E; rewrite E in Hk; done).
  split_and!.
  - by eexists _, _.
  - split; try done.
    + apply Hprov; [by left|]. intros p Hpp Hcheck. right. exists p. split; [done|].
      unfold Provider_Check in Hcheck. rewrite (bool_decide_eq_false_2 (Kind m1 = "")) in Hcheck by done.
      rewrite (bool_decide_eq_false_2 (BackendModel m = "")) in Hcheck by done. cbn [negb andb] in Hcheck.
      destruct (contains _ _) eqn:Hin; [|done]. apply contains_spec in Hin. split; [done|].
      intros k Hkk. change (BackendModel _) with (BackendModel m) in Hkk. rewrite Hkk in Hcheck.
      cbn [negb] in Hcheck. case_bool_decide; done.
    + by apply checkSubscription_none.
  - apply Hprov; [by auto|]. intros p Hpp Hcheck. unfold Provider_Check in Hcheck.
    rewrite (bool_decide_eq_false_2 (BackendModel m = "")) in Hcheck by done.
    destruct (negb _ && negb _); [done|].
    destruct (Provider_Model p (BackendModel m)) as [k|] eqn:Ek; [eauto 10|]. destruct priced; [auto|done].
Qed.

(** C39: A model [CheckModel] lets through is well formed; in particular the
    sign-ins of a subscription model go to Anthropic's own API and nowhere
    else. It keeps its backends and its prices. *)
Theorem CheckModel_sound (m m' : Model) (priced : bool) :
  CheckModel m priced = inr m' →
  model_ok m' ∧ Backends m' = Backends m ∧ (∀ n, prices m' n = prices m n) ∧
  (priced = true ∨ Provider m = "" ∨
   ∃ p k, provider (Provider m) = Some p ∧ Provider_Model p (BackendModel m) = Some k).
Proof. intros ((kind & loc & ->) & Hok & Hp)%CheckModel_facts. done. Qed.

(** The row of the table an entry names, and what it fills in. *)
Definition row_of (e : Entry) : option ProviderModel :=
  provider (ToLower (TrimSpace (E_Provider e))) ≫= λ p, Provider_Model p (E_BackendModel e).

Definition filled {A} (stated : option A) (row : option ProviderModel) (f : ProviderModel → A) (zero : A) : A :=
  match stated with Some x => x | None => match row with Some k => f k | None => zero end end.

Ltac entry_fields := cbn [update E_Alias E_Kind E_DisplayName E_Provider E_Backends E_ProductID
  E_BackendModel E_Description E_Input E_Output E_CachedInput E_CacheWrite E_LongPrompt E_MaxContext
  E_ReleaseDate E_Location E_Subscription E_Disabled] in *.

(** What [applyProvider] leaves alone, and what it takes from the row. *)
Lemma applyProvider_fills (m m' : Entry) :
  applyProvider m = inr m' → E_BackendModel m ≠ "" →
  let row := provider (E_Provider m) ≫= λ p, Provider_Model p (E_BackendModel m) in
  E_Alias m' = E_Alias m ∧ E_Subscription m' = E_Subscription m ∧ E_Disabled m' = E_Disabled m ∧
  E_Provider m' = E_Provider m ∧ E_BackendModel m' = E_BackendModel m ∧
  E_Input m' = match row with Some k => or_else (E_Input m) (PM_InputMicrosPerMTok k) | None => E_Input m end ∧
  E_Output m' = match row with Some k => or_else (E_Output m) (PM_OutputMicrosPerMTok k) | None => E_Output m end ∧
  E_CachedInput m' = match row with Some k => or_else (E_CachedInput m) (PM_CachedInputMicrosPerMTok k)
                     | None => E_CachedInput m end ∧
  E_CacheWrite m' = match row with Some k => or_else (E_CacheWrite m) (PM_CacheWriteMicrosPerMTok k)
                    | None => E_CacheWrite m end ∧
  E_LongPrompt m' = match E_LongPrompt m with Some t => Some t | None => row ≫= PM_LongPrompt end ∧
  E_MaxContext m' = match row with Some k => or_else (E_MaxContext m) (PM_MaxContext k) | None => E_MaxContext m end.
Proof.
  unfold applyProvider. intros Ha Hne. destruct (provider (E_Provider m)) as [p|]; [|done]. cbn [mbind option_bind].
  set (m1 := match E_Backends m with [] => _ | _ => m end) in Ha.
  assert (E_BackendModel m1 = E_BackendModel m ∧ E_Alias m1 = E_Alias m ∧ E_Subscription m1 = E_Subscription m ∧
    E_Disabled m1 = E_Disabled m ∧ E_Provider m1 = E_Provider m ∧ E_Input m1 = E_Input m ∧
    E_Output m1 = E_Output m ∧ E_CachedInput m1 = E_CachedInput m ∧ E_CacheWrite m1 = E_CacheWrite m ∧
    E_LongPrompt m1 = E_LongPrompt m ∧ E_MaxContext m1 = E_MaxContext m) as
    (E1 & E2 & E3 & E4 & E5 & E6 & E7 & E8 & E9 & E10 & E11) by (unfold m1; by destruct (E_Backends m)).
  clearbody m1. destruct (fillProductID _ _ _) as [|bs]; [done|].
  destruct (Provider_Model p (E_BackendModel m)) as [k|].
  - rewrite bool_decide_eq_false_2 in Ha by (entry_fields; congruence). injection Ha as <-.
    unfold fillFromTable. entry_fields. rewrite E1, E2, E3, E4, E5, E6, E7, E8, E9, E10, E11. split_and!; done.
  - injection Ha as <-. entry_fields. rewrite E1, E2, E3, E4, E5, E6, E7, E8, E9, E10, E11.
    split_and!; try done. by destruct (E_LongPrompt m).
Qed.

Lemma applyProvider_served (m m' : Entry) :
  applyProvider m = inr m' → E_BackendModel m' = E_BackendModel m.
Proof.
  unfold applyProvider. destruct (provider _) as [p|]; [|done].
  set (m1 := match E_Backends m with [] => _ | _ => m end).
  assert (E_BackendModel m1 = E_BackendModel m) as E1 by (unfold m1; by destruct (E_Backends m)).
  clearbody m1. destruct (fillProductID _ _ _); [done|].
  destruct (Provider_Model _ _); [case_bool_decide|]; intros [= <-]; done.
Qed.

(** A parsed model keeps what the entry states, takes the rest from the
    provider's row, and is either priced there, priced by hand, or the
    deployment's own: no budget meets a model nobody priced. *)
Theorem ParseModel_stated (e : Entry) (m : Model) :
  ParseModel e = inr m →
  let row := row_of e in
  model_ok m ∧ Alias m = E_Alias e ∧ ValidModelAlias (Alias m) = true ∧
  Enabled m = negb (E_Disabled e) ∧ Subscription m = E_Subscription e ∧
  (∀ n, prices m n =
     prices (Model_zero
       <| InputMicrosPerMTok := filled (E_Input e) row PM_InputMicrosPerMTok 0 |>
       <| OutputMicrosPerMTok := filled (E_Output e) row PM_OutputMicrosPerMTok 0 |>
       <| CachedInputMicrosPerMTok := filled (E_CachedInput e) row PM_CachedInputMicrosPerMTok 0 |>
       <| CacheWriteMicrosPerMTok := filled (E_CacheWrite e) row PM_CacheWriteMicrosPerMTok 0 |>
       <| LongPrompt := match E_LongPrompt e with Some t => Some t | None => row ≫= PM_LongPrompt end |>) n) ∧
  (is_Some (E_Input e) ∧ is_Some (E_Output e) ∨ ToLower (TrimSpace (E_Provider e)) = "" ∨ is_Some row).
Proof.
  unfold ParseModel. case_bool_decide; [done|].
  destruct (ValidModelAlias (E_Alias e)) eqn:Hv; [|done]. cbn [negb].
  set (e1 := e <| E_Description := _ |> <| E_DisplayName := _ |> <| E_ProductID := _ |>
    <| E_ReleaseDate := _ |> <| E_Location := _ |> <| E_Provider := _ |>).
  change (ToLower (TrimSpace (E_Provider e))) with (E_Provider e1).
  destruct (if bool_decide _ then _ else _) as [|e2] eqn:Ha; [done|].
  destruct (checkBackend e2); [done|].
  intros ((kind & loc & ->) & Hok & Hpriced)%CheckModel_facts.
  assert (E_BackendModel e2 ≠ "") as Hne by (apply (ok_served _ Hok)).
  set (row := row_of e). cbv zeta.
  assert (E_Alias e2 = E_Alias e ∧ E_Subscription e2 = E_Subscription e ∧ E_Disabled e2 = E_Disabled e ∧
    E_Provider e2 = E_Provider e1 ∧ E_BackendModel e2 = E_BackendModel e ∧
    default 0 (E_Input e2) = filled (E_Input e) row PM_InputMicrosPerMTok 0 ∧
    default 0 (E_Output e2) = filled (E_Output e) row PM_OutputMicrosPerMTok 0 ∧
    default 0 (E_CachedInput e2) = filled (E_CachedInput e) row PM_CachedInputMicrosPerMTok 0 ∧
    default 0 (E_CacheWrite e2) = filled (E_CacheWrite e) row PM_CacheWriteMicrosPerMTok 0 ∧
    E_LongPrompt e2 = (match E_LongPrompt e with Some t => Some t | None => row ≫= PM_LongPrompt end) ∧
    (is_Some (E_Input e2) → is_Some (E_Input e) ∨ is_Some row) ∧
    (is_Some (E_Output e2) → is_Some (E_Output e) ∨ is_Some row))
    as (F1 & F2 & F3 & F4 & F5 & F6 & F7 & F8 & F9 & F10 & F11 & F12).
  { destruct (decide (E_Provider e1 = "")) as [Hprov|Hprov];
      [rewrite bool_decide_eq_true_2 in Ha by done|rewrite bool_decide_eq_false_2 in Ha by done].
    - assert (e2 = e1) as -> by congruence. assert (row = None) as -> by (unfold row, row_of;
        change (ToLower (TrimSpace (E_Provider e))) with (E_Provider e1); by rewrite Hprov).
      unfold filled, default, id. split_and!; try done; [|by left|by left].
      change (E_LongPrompt e1) with (E_LongPrompt e). by destruct (E_LongPrompt e).
    - assert (E_BackendModel e1 ≠ "") as Hne1 by (by rewrite <- (applyProvider_served _ _ Ha)).
      apply applyProvider_fills in Ha; [|done]. cbv zeta in Ha.
      change (provider (E_Provider e1) ≫= _) with row in Ha.
      destruct Ha as (-> & -> & -> & -> & -> & -> & -> & -> & -> & -> & _).
      unfold filled, or_else, default, id. subst e1. entry_fields. split_and!; try done;
        clear; destruct row as [k|]; try (by left); try (by right; exists k);
        by destruct (E_Input e), (E_Output e), (E_CachedInput e), (E_CacheWrite e). }
  split_and!; try done.
  - unfold parsed. fields. by rewrite F1.
  - unfold parsed. fields. by rewrite F3.
  - unfold parsed, prices. fields. by rewrite F6, F7, F8, F9, F10.
  - destruct Hpriced as [Hp|[Hp|(p & k & Hp & Hk)]].
    + rewrite andb_true_iff, !bool_decide_eq_true in Hp. destruct Hp as [[?|?]%F11 [?|?]%F12]; auto.
    + right. left. change (E_Provider e2 = "") in Hp. congruence.
    + right. right. exists k. unfold row, row_of.
      change (ToLower (TrimSpace (E_Provider e))) with (E_Provider e1).
      change (provider (E_Provider e2) = Some p) in Hp. rewrite <- F4, Hp. simpl.
      change (Provider_Model p (E_BackendModel e2) = Some k) in Hk. congruence.
Qed.

(** *** The deployment's own keys *)

(** The scheme and host of an endpoint, with the slash that ends them. *)
Fixpoint through_slashes (n : nat) (s : string) : string :=
  match s with
  | EmptyString => EmptyString
  | String c rest =>
      if bool_decide (c = slash)
      then match n with O | 1%nat => String c EmptyString | S n => String c (through_slashes n rest) end
      else String c (through_slashes n rest)
  end.

Definition origin (endpoint : string) : string := through_slashes 3 endpoint.

Definition endpoints_of (p : CatalogProvider) : list string := P_Endpoint p :: (snd <$> P_Endpoints p).

Lemma EndpointFor_in p k : EndpointFor p k ∈ endpoints_of p.
Proof.
  unfold EndpointFor, endpoints_of. destruct (list_find _ _) as [[i e]|] eqn:E; [|left].
  apply list_find_Some in E as (He & _ & _). right. apply list_elem_of_fmap.
  exists e. split; [done|]. by eapply list_elem_of_lookup_2.
Qed.

(** A product id only ever changes the path: the placeholder comes after the
    host in every endpoint of the table. *)
Lemma replaced_endpoints id :
  Forall (λ e, ∃ rest, ReplaceAll e productIDPlaceholder id = origin e +:+ rest)
    (mbind endpoints_of providers).
Proof.
  let l := eval vm_compute in (mbind endpoints_of providers) in change (mbind endpoints_of providers) with l.
  repeat constructor; eexists; vm_compute; reflexivity.
Qed.

Lemma endpoint_origin e : ∃ rest, e = origin e +:+ rest.
Proof.
  unfold origin. generalize 3%nat. induction e as [|c e IH]; intros n; [by exists ""|].
  cbn [through_slashes]. case_bool_decide; [destruct n as [|[|n]]|].
  - exists e. by rewrite str_app_cons.
  - exists e. by rewrite str_app_cons.
  - destruct (IH (S n)) as [rest Hr]. exists rest. rewrite str_app_cons. by f_equal.
  - destruct (IH n) as [rest Hr]. exists rest. rewrite str_app_cons. by f_equal.
Qed.

(** A model on the deployment's key is sent to its provider's own host, at list
    prices, and to nothing else its row may say: rows that differ only in
    backends and prices are served the same. Its key leaves for no other
    host, whatever the product id. *)
Theorem Lock_overrides (p : Platform) (m m' : Model) :
  Covers p m = true → Lock p m = inr m' →
  ∃ q k e rest, provider (Provider m) = Some q ∧ Provider_Model q (BackendModel m) = Some k ∧
    e ∈ endpoints_of q ∧ Backends m' = [origin e +:+ rest] ∧
    (∀ n, prices m' n = prices (listed k) n) ∧ prices_within max_list_price m' ∧
    PlatformKey m' = true ∧ Alias m' = Alias m ∧ OrgID m' = OrgID m ∧ Kind m' = Kind m ∧
    ∀ backends long a b c d,
      Lock p (m <| Backends := backends |> <| LongPrompt := long |> <| InputMicrosPerMTok := a |>
                <| OutputMicrosPerMTok := b |> <| CachedInputMicrosPerMTok := c |>
                <| CacheWriteMicrosPerMTok := d |>) = inr m'.
Proof.
  intros Hc. unfold Lock. rewrite Hc. cbn [negb].
  destruct (provider (Provider m)) as [q|] eqn:Hq; [|done]. cbn [mbind option_bind].
  destruct (Provider_Model q (BackendModel m)) as [k|] eqn:Hk; [|done].
  set (e := EndpointFor q (kindOrChat k)). intros [= <-].
  pose proof (provider_found _ _ Hq) as [Hin _]. pose proof (EndpointFor_in q (kindOrChat k)) as He. fold e in He.
  pose proof (row_found _ _ _ Hk) as [Hrow _].
  set (e' := if NeedsProductID q then _ else e).
  assert (∃ rest, e' = origin e +:+ rest) as [rest Hrest].
  { unfold e'. destruct (NeedsProductID q); [|apply endpoint_origin].
    destruct (Forall_forall (λ e, ∃ rest, ReplaceAll e productIDPlaceholder
      (match p !! Provider m with Some k => PK_ProductID k | None => "" end) = origin e +:+ rest)
      (mbind endpoints_of providers)) as [Hall _].
    apply (Hall (replaced_endpoints _)). apply list_elem_of_bind. eauto. }
  exists q, k, e, rest. split_and!; try done.
  - fields. by rewrite Hrest.
  - intros n. by apply (listed_prices_within q k).
  - intros bs long a b c d. change (Covers p _) with (Covers p m). rewrite Hc.
    change (Provider (m <| Backends := bs |> <| LongPrompt := long |> <| InputMicrosPerMTok := a |>
                <| OutputMicrosPerMTok := b |> <| CachedInputMicrosPerMTok := c |>
                <| CacheWriteMicrosPerMTok := d |>)) with (Provider m).
    change (BackendModel (m <| Backends := bs |> <| LongPrompt := long |> <| InputMicrosPerMTok := a |>
                <| OutputMicrosPerMTok := b |> <| CachedInputMicrosPerMTok := c |>
                <| CacheWriteMicrosPerMTok := d |>)) with (BackendModel m).
    rewrite Hq. cbn [negb mbind option_bind]. by rewrite Hk.
Qed.
End catalog_theorems.

(** *** Witnesses *)

#[local] Instance sample_addresses : Addresses :=
  {| url_Parse s := Some {| url_Scheme := "https"; url_Host := s; url_Hostname := s; url_user := false |};
     netip_ParseAddr _ := None |}.

#[local] Instance sample_unicode : Unicode :=
  {| ToLower := ToLower_ascii; ToUpper s := s; Quote s := s |}.

Definition sample_entry : Entry :=
  {| E_Alias := "haiku"; E_Kind := ""; E_DisplayName := ""; E_Provider := " Anthropic"; E_Backends := [];
     E_ProductID := ""; E_BackendModel := "claude-haiku-5-5"; E_Description := ""; E_Input := None;
     E_Output := Some 7; E_CachedInput := None; E_CacheWrite := None; E_LongPrompt := None;
     E_MaxContext := None; E_ReleaseDate := ""; E_Location := ""; E_Subscription := true;
     E_Disabled := false |}.

Definition sample_parsed : Model :=
  match ParseModel sample_entry with inr m => m | inl _ => Model_zero end.

Lemma ParseModel_stated_witness :
  ParseModel sample_entry = inr sample_parsed ∧ model_ok sample_parsed ∧
  Backends sample_parsed = ["https://api.anthropic.com/v1"] ∧ InputMicrosPerMTok sample_parsed = 96000.
Proof.
  assert (ParseModel sample_entry = inr sample_parsed) as Hp by (vm_compute; reflexivity).
  split; [exact Hp|]. split; [apply (ParseModel_stated sample_entry sample_parsed Hp)|].
  split; vm_compute; reflexivity.
Defined.

Lemma CheckModel_sound_witness :
  model_ok sample_parsed ∧ CheckModel sample_parsed false = inr sample_parsed.
Proof.
  assert (CheckModel sample_parsed false = inr sample_parsed) as Hc by (vm_compute; reflexivity).
  split; [apply (CheckModel_sound sample_parsed sample_parsed false Hc)|exact Hc].
Defined.

Definition sample_platform : Platform :=
  {[ "infomaniak" := {| PK_APIKey := "secret"; PK_ProductID := "100" |} ]}.

Definition sample_stored : Model :=
  Model_zero <| Provider := "infomaniak" |> <| Backends := ["https://evil.example"] |>
    <| BackendModel := match provider "infomaniak" with
                       | Some p => match P_Models p with k :: _ => PM_ID k | [] => "" end
                       | None => "" end |>.

Definition sample_locked : Model :=
  match Lock sample_platform sample_stored with inr m => m | inl _ => Model_zero end.

Lemma Lock_overrides_witness :
  Lock sample_platform sample_stored = inr sample_locked ∧
  ∃ e rest, Backends sample_locked = [origin e +:+ rest] ∧ origin e = "https://api.infomaniak.com/".
Proof.
  assert (Lock sample_platform sample_stored = inr sample_locked) as Hl by (vm_compute; reflexivity).
  split; [exact Hl|].
  destruct (Lock_overrides sample_platform sample_stored sample_locked eq_refl Hl)
    as (q & k & e & rest & Hq & _ & He & Hb & _).
  exists e, rest. split; [exact Hb|]. revert He. vm_compute in Hq. injection Hq as <-.
  intros He. unfold endpoints_of in He. simpl in He.
  repeat (apply elem_of_cons in He as [->|He]; [vm_compute; reflexivity|]).
  destruct (not_elem_of_nil _ He).
Defined.
