(* ===== verification/Secret.v ===== *)
(** * Sealed credentials

    [internal/secret/secret.go]: the box that encrypts the credentials the
    gateway must read back, one deployment key and the previous ones it still
    opens. AES-GCM is a parameter, and its laws are hypotheses; a nonce is an
    argument where the code draws one. *)
From S2P Require Import Prelude GoTime Tenancy Text Keys.

(** AES-GCM under a 32-byte key, with its 12-byte nonces. *)
Class GCM := {
  gcm_Seal : string → string → string → string → string;
  gcm_Open : string → string → string → string → option string;
}.

Definition NonceSize : Z := 12.

(** [Box]: an AEAD is the key it was made from. *)
Record Box := { aead : string; previous : list string }.

Definition minKeyLen : Z := 16.

Section secret.
Context `{SHA256} `{GCM}.

Definition newAEAD (key : string) : string + string :=
  if len key <? minKeyLen then
    inl "the encryption key is too short to be one; generate one with: openssl rand -hex 32"
  else inr (Sum256 ("keera-model-credential-v1|" +:+ key)).

(** The loop of [New] over the previous keys. *)
Fixpoint previous_loop (keys : list string) (out : list string) : string + list string :=
  match keys with
  | [] => inr out
  | k :: rest =>
      match newAEAD k with
      | inl err => inl ("the previous key: " +:+ err)
      | inr old => previous_loop rest (out ++ [old])
      end
  end.

Definition New (key : string) (prev : list string) : string + Box :=
  match newAEAD key with
  | inl err => inl err
  | inr a =>
      match previous_loop prev [] with
      | inl err => inl err
      | inr old => inr {| aead := a; previous := old |}
      end
  end.

Definition Rotating (b : Box) : bool := (0 <? length (previous b))%nat.

(** [Seal], with the nonce it drew. *)
Definition Seal (b : Box) (nonce name plaintext : string) : string :=
  nonce +:+ gcm_Seal (aead b) nonce plaintext name.

(** The loop of [open]: what opened it, and whether that was key [0]. *)
Fixpoint open_loop (i : nat) (aeads : list string) (nonce body name : string) : option (string * bool) :=
  match aeads with
  | [] => None
  | a :: rest =>
      match gcm_Open a nonce body name with
      | Some out => Some (out, bool_decide (i = 0%nat))
      | None => open_loop (S i) rest nonce body name
      end
  end.

Definition open_ (b : Box) (name sealed : string) : string + string * bool :=
  if len sealed <? NonceSize then inl "secret: ciphertext is truncated"
  else
    let nonce := take_str (Z.to_nat NonceSize) sealed in
    let body := drop_str (Z.to_nat NonceSize) sealed in
    match open_loop 0 (aead b :: previous b) nonce body name with
    | Some r => inr r
    | None => inl "secret: cannot decrypt with the configured key"
    end.

Definition Open (b : Box) (name sealed : string) : string + string :=
  match open_ b name sealed with inl err => inl err | inr (out, _) => inr out end.

(** [Reseal]: an error, nothing to do, or the new ciphertext. *)
Definition Reseal (b : Box) (nonce name sealed : string) : string + option string :=
  match open_ b name sealed with
  | inl err => inl err
  | inr (out, current) => if current then inr None else inr (Some (Seal b nonce name out))
  end.

(** ** What AES-GCM promises *)

(** It opens exactly what was sealed with the same key, nonce and name. *)
Definition opens_sealed : Prop :=
  ∀ k n body name p, gcm_Open k n body name = Some p ↔ body = gcm_Seal k n p name.

(** What is sealed under one key and name is not what another key or name seals. *)
Definition binds : Prop :=
  ∀ k k' n p p' name name', gcm_Seal k n p name = gcm_Seal k' n p' name' → k = k' ∧ name = name'.

(** ** What the box promises *)

Implicit Types (b : Box) (nonce name sealed : string).

Lemma previous_loop_spec keys : ∀ out old, previous_loop keys out = inr old →
  old = out ++ map (λ k, Sum256 ("keera-model-credential-v1|" +:+ k)) keys.
Proof.
  induction keys as [|k keys IH]; cbn; intros out old; [intros [= ->]; by rewrite app_nil_r|].
  unfold newAEAD. destruct (len k <? minKeyLen); [done|]. intros ->%IH. by rewrite <- app_assoc.
Qed.

Lemma New_keys key prev b : New key prev = inr b →
  aead b = Sum256 ("keera-model-credential-v1|" +:+ key) ∧
  previous b = map (λ k, Sum256 ("keera-model-credential-v1|" +:+ k)) prev.
Proof.
  unfold New. unfold newAEAD at 1. destruct (len key <? minKeyLen); [done|]. destruct (previous_loop prev []) eqn:E; [done|].
  intros [= <-]. split; [done|]. by apply previous_loop_spec in E.
Qed.

Lemma sealed_parts b nonce name p :
  len nonce = NonceSize →
  (len (Seal b nonce name p) <? NonceSize) = false ∧
  take_str (Z.to_nat NonceSize) (Seal b nonce name p) = nonce ∧
  drop_str (Z.to_nat NonceSize) (Seal b nonce name p) = gcm_Seal (aead b) nonce p name.
Proof.
  intros Hn. assert (Z.to_nat NonceSize = String.length nonce) as -> by (unfold len, NonceSize in *; lia).
  unfold Seal. split; [|by rewrite take_str_app, drop_str_app].
  apply Z.ltb_ge. rewrite len_app, Hn. unfold len. lia.
Qed.

Lemma open_loop_foreign k nonce name name' p aeads : opens_sealed → binds → name ≠ name' → ∀ i,
  open_loop i aeads nonce (gcm_Seal k nonce p name) name' = None.
Proof.
  intros Ho Hb Hne. induction aeads as [|a aeads IH]; intros i; [done|]. cbn.
  destruct (gcm_Open _ _ _ _) as [out|] eqn:E; [|apply IH]. apply Ho, Hb in E as (_ & ?). done.
Qed.

(** Any box that has the key opens it; it is the current key only where the first one is. *)
Lemma open_loop_own k nonce name p aeads : opens_sealed → binds → k ∈ aeads → ∀ i,
  open_loop i aeads nonce (gcm_Seal k nonce p name) name =
  Some (p, bool_decide (i = 0%nat ∧ head aeads = Some k)).
Proof.
  intros Ho Hb. induction aeads as [|a aeads IH]; intros Hin i; [by apply not_elem_of_nil in Hin|]. cbn.
  destruct (gcm_Open _ _ _ _) as [out|] eqn:E.
  - pose proof E as E'. apply Ho in E. destruct (Hb _ _ _ _ _ _ _ E) as (-> & _).
    assert (gcm_Open a nonce (gcm_Seal a nonce p name) name = Some p) by (by apply Ho).
    assert (out = p) as -> by congruence. do 2 f_equal. apply bool_decide_ext. naive_solver.
  - assert (k ≠ a) as Hne.
    { intros ->. assert (gcm_Open a nonce (gcm_Seal a nonce p name) name = Some p) by (by apply Ho). congruence. }
    rewrite IH by (apply elem_of_cons in Hin; naive_solver). do 2 f_equal. rewrite !bool_decide_eq_false_2; [done|..].
    + intros [_ [= ->]]. done.
    + intros [? _]. done.
Qed.

Lemma open_sealed b b' nonce name p :
  opens_sealed → binds → len nonce = NonceSize → aead b ∈ aead b' :: previous b' →
  open_ b' name (Seal b nonce name p) = inr (p, bool_decide (aead b' = aead b)).
Proof.
  intros Ho Hb Hn Hin. unfold open_. destruct (sealed_parts b nonce name p Hn) as (-> & -> & ->).
  rewrite open_loop_own by done. do 2 f_equal. apply bool_decide_ext.
  split; [by intros [_ [= ->]]|by intros ->].
Qed.

(** A credential comes back: whatever a box sealed under a name, it opens under that name; and so does any box made with that key among its previous keys. *)
Theorem Open_Seal b b' nonce name p :
  opens_sealed → binds → len nonce = NonceSize → aead b ∈ aead b' :: previous b' →
  Open b' name (Seal b nonce name p) = inr p.
Proof. intros Ho Hb Hn Hin. unfold Open. by rewrite open_sealed. Qed.

(** A ciphertext copied to another row fails to open there, under any key. *)
Theorem Open_foreign b b' nonce name name' p :
  opens_sealed → binds → len nonce = NonceSize → name ≠ name' →
  Open b' name' (Seal b nonce name p) = inl "secret: cannot decrypt with the configured key".
Proof.
  intros Ho Hb Hn Hne. unfold Open, open_. destruct (sealed_parts b nonce name p Hn) as (-> & -> & ->).
  by rewrite open_loop_foreign.
Qed.

(** C38: a key is rotated without losing a credential: a box with a new key and the old one among its previous keys seals again what the old key sealed, and a box of the new key alone then opens it; what is already under the current key is left as it is. *)
Theorem Reseal_rotates key key' prev old new final nonce nonce' name p :
  opens_sealed → binds → len nonce = NonceSize → len nonce' = NonceSize →
  New key prev = inr old → New key' [key] = inr new → New key' [] = inr final → aead new ≠ aead old →
  ∃ sealed, Reseal new nonce' name (Seal old nonce name p) = inr (Some sealed) ∧ Open final name sealed = inr p ∧
    Rotating final = false ∧ ∀ n, Reseal final n name sealed = inr None ∧ Reseal new n name sealed = inr None.
Proof.
  intros Ho Hb Hn Hn' Hold Hnew Hfin Hne.
  destruct (New_keys _ _ _ Hold) as (Ha & _), (New_keys _ _ _ Hnew) as (Ha' & Hp'), (New_keys _ _ _ Hfin) as (Haf & Hpf).
  exists (Seal new nonce' name p). unfold Reseal, Open.
  rewrite (open_sealed old new) by (try done; rewrite Hp', Ha; cbn; right; left).
  rewrite bool_decide_eq_false_2 by done.
  rewrite (open_sealed new final), (open_sealed new new) by (try done; try (rewrite Haf, Ha'); left).
  split_and!; [done|done|by unfold Rotating; rewrite Hpf|]. intros n. rewrite !bool_decide_eq_true_2 by congruence. done.
Qed.
End secret.

(** *** Witnesses

    A toy cipher: the key and the name in front of the plaintext, each behind
    its length in unary. *)

Fixpoint unary (n : nat) : string := match n with O => "." | S n => String.String (Ascii.ascii_of_nat 49) (unary n) end.

Definition boxed (s : string) : string := unary (String.length s) +:+ s.

Lemma unary_inj n m u v : unary n +:+ u = unary m +:+ v → n = m ∧ u = v.
Proof.
  revert m. induction n as [|n IH]; intros [|m]; cbn; rewrite ?str_app_cons.
  - intros [= He]. by rewrite !str_app_nil_l in He.
  - by intros [= ? _].
  - by intros [= ? _].
  - intros [= He]. apply IH in He as (-> & ->). done.
Qed.

Lemma boxed_inj a b u v : boxed a +:+ u = boxed b +:+ v → a = b ∧ u = v.
Proof.
  unfold boxed. rewrite !str_app_assoc. intros (Hl & He)%unary_inj.
  pose proof (f_equal (take_str (String.length a)) He) as Ht. rewrite take_str_app, Hl, take_str_app in Ht.
  pose proof (f_equal (drop_str (String.length a)) He) as Hd. rewrite drop_str_app, Hl, drop_str_app in Hd. done.
Qed.

#[local] Instance toy_digest : SHA256 := {| Sum256 s := s |}.

#[local] Instance toy_cipher : GCM :=
  {| gcm_Seal k n p name := boxed k +:+ (boxed name +:+ p);
     gcm_Open k n body name := CutPrefix body (boxed k +:+ boxed name) |}.

Lemma toy_opens_sealed : opens_sealed.
Proof. intros k n body name p. cbn. rewrite CutPrefix_spec, str_app_assoc. done. Qed.

Lemma toy_binds : binds.
Proof. intros k k' n p p' name name'. cbn. intros (-> & (-> & _)%boxed_inj)%boxed_inj. done. Qed.

Definition old_box : Box := {| aead := "old key"; previous := [] |}.
Definition new_box : Box := {| aead := "new key"; previous := ["old key"] |}.
Definition sample_nonce : string := "012345678901".

Lemma Open_Seal_witness :
  Open new_box "model:org_1:haiku" (Seal old_box sample_nonce "model:org_1:haiku" "sk-secret") = inr "sk-secret".
Proof.
  apply (Open_Seal old_box new_box sample_nonce); [exact toy_opens_sealed|exact toy_binds|reflexivity|].
  right. left.
Defined.

Lemma Open_foreign_witness :
  Open new_box "model:org_2:haiku" (Seal old_box sample_nonce "model:org_1:haiku" "sk-secret") =
  inl "secret: cannot decrypt with the configured key".
Proof.
  apply (Open_foreign old_box new_box sample_nonce); [exact toy_opens_sealed|exact toy_binds|reflexivity|discriminate].
Defined.

Definition box_of (key : string) (prev : list string) : Box :=
  match New key prev with inr b => b | inl _ => old_box end.

Lemma Reseal_rotates_witness :
  ∃ old new final sealed,
    New "an old deployment key" [] = inr old ∧ New "a new deployment key" ["an old deployment key"] = inr new ∧
    Reseal new sample_nonce "n" (Seal old sample_nonce "n" "sk") = inr (Some sealed) ∧
    Open final "n" sealed = inr "sk".
Proof.
  set (old := "an old deployment key"). set (new := "a new deployment key").
  exists (box_of old []), (box_of new [old]), (box_of new []).
  destruct (Reseal_rotates old new [] (box_of old []) (box_of new [old]) (box_of new []) sample_nonce sample_nonce "n" "sk"
    toy_opens_sealed toy_binds eq_refl eq_refl eq_refl eq_refl eq_refl ltac:(vm_compute; discriminate))
    as (sealed & Hr & Ho & _).
  exists sealed. split_and!; [reflexivity|reflexivity|exact Hr|exact Ho].
Defined.
