(* ===== verification/KeyCache.v ===== *)
(** * The cache of resolved keys

    The concurrent half of [internal/registry/registry.go]: how a presented
    key is resolved through a cache that a change of the control plane must
    reach. Requests, the queries they share and the notifications run
    interleaved; each step is what one of them does between two points where
    another may run (a lock taken, a channel operation, a query). What the
    database says at each moment is a parameter. *)
From S2P Require Import Prelude GoTime Tenancy Pricing Guardrails Text Keys Hosting Providers Catalog.

(** ** Options *)

Record Options := {
  TTL : Z;
  NegativeTTL : Z;
  SpendRefresh : Z;
  o_Platform : Platform;
  Prepaid : bool;
  GatewayFee : Z;
}.

Definition DefaultTTL : Z := 30 * Second.
Definition DefaultSpendRefresh : Z := 10 * Second.

Definition setDefaults (o : Options) : Options :=
  {| TTL := if TTL o <=? 0 then DefaultTTL else TTL o;
     NegativeTTL := if NegativeTTL o <=? 0 then 5 * Second else NegativeTTL o;
     SpendRefresh := if SpendRefresh o <=? 0 then DefaultSpendRefresh else SpendRefresh o;
     o_Platform := o_Platform o; Prepaid := Prepaid o; GatewayFee := GatewayFee o |}.

(** ** Changes *)

Definition anyChange : string := "".
Definition keyChange : string := "key:".
Definition orgChange : string := "org:".

Definition OrgChange (id : string) : string := orgChange +:+ id.
Definition KeyChange (id : string) : string := keyChange +:+ id.

Definition named (prefix c : string) : option string :=
  match CutPrefix c prefix with
  | Some id => if bool_decide (id = "") then None else Some id
  | None => None
  end.

(** [Change.org] and [Change.key]. *)
Definition Change_org (c : string) : option string := named orgChange c.
Definition Change_key (c : string) : option string := named keyChange c.

(** ** The cache *)

Inductive key_error :=
  | ErrUnknownKey | ErrKeyRevoked | ErrKeyExpired | ErrKeyPending | ErrOther (msg : string).

Definition errLookupsBusy : key_error := ErrOther "registry: too many key lookups at once".

Definition isKeyRejection (e : key_error) : bool :=
  match e with ErrUnknownKey | ErrKeyRevoked | ErrKeyExpired | ErrKeyPending => true | ErrOther _ => false end.

(** The key a token resolves to, or why it does not. *)
Definition answer : Type := key_error + Resolved.

Record entry := { e_answer : answer; e_expires : Z; e_gen : Z }.

(** What [mu] guards, and the generation. The counters are [uint64]s. *)
Record cache := { keys : gmap string entry; gen : Z; drops : Z }.

Definition succ_u64 (n : Z) : Z := (n + 1) mod two64.

(** [Registry.lookupCache], under the read lock, and the test that follows it. *)
Definition lookupCache (s : cache) (ck : string) : option entry * Z := (keys s !! ck, drops s).

Definition usable (e : option entry) (g now : Z) : option answer :=
  match e with
  | Some e => if (e_gen e =? g) && (now <? e_expires e) then Some (e_answer e) else None
  | None => None
  end.

(** [Registry.dropKeys], and which entries it keeps. *)
Definition kept (match_ : Key → bool) (e : entry) : bool :=
  match e_answer e with inr r => negb (match_ (R_Key r)) | inl _ => true end.

Definition dropKeys (match_ : Key → bool) (s : cache) : cache :=
  {| keys := filter (λ p, kept match_ p.2 = true) (keys s);
     gen := gen s; drops := succ_u64 (drops s) |}.

(** [Registry.Forget]. *)
Definition Forget (c : string) (s : cache) : cache :=
  match Change_key c with
  | Some id => dropKeys (λ k, bool_decide (Key_ID k = id)) s
  | None =>
      match Change_org c with
      | Some id => dropKeys (λ k, bool_decide (Key_OrgID k = id)) s
      | None => {| keys := keys s; gen := succ_u64 (gen s); drops := drops s |}
      end
  end.

(** [Registry.remember]; [now] is read under the lock. *)
Definition remember (opts : Options) (ck : string) (g d : Z) (a : answer) (now : Z) (s : cache) : cache :=
  match a with
  | inl err => if negb (isKeyRejection err) then s else
      if negb (drops s =? d) then s
      else {| keys := <[ck := {| e_answer := a; e_expires := now + NegativeTTL opts; e_gen := g |}]> (keys s);
              gen := gen s; drops := drops s |}
  | inr _ =>
      if negb (drops s =? d) then s
      else {| keys := <[ck := {| e_answer := a; e_expires := now + TTL opts; e_gen := g |}]> (keys s);
              gen := gen s; drops := drops s |}
  end.

(** [Registry.Sweep], with the instant and the generation it read before. *)
Definition Sweep (now g : Z) (s : cache) : cache :=
  {| keys := filter (λ p, (e_gen p.2 =? g) && negb (e_expires p.2 <? now) = true) (keys s); gen := gen s; drops := drops s |}.

Definition maxLookups : nat := 4.

(** ** Requests and queries *)

Inductive reply := Answered (a : answer) | HungUp.

(** Where a caller of [Resolve] is: about to read the cache, about to test what
    it read, about to share a query, waiting for a slot, waiting for an
    answer, or back. *)
Inductive stage :=
  | AtRead
  | AtCheck (e : option entry) (d : Z)
  | AtShare (d : Z)
  | AtSlot (i : nat)
  | AtWait (i : nat)
  | Returned (r : reply).

(** [c_began] is the moment the call read the generation. *)
Record caller := { c_key : string; c_gen : Z; c_began : nat; c_at : stage }.

(** Where a shared query is: waiting for its slot, reading the cache, testing
    what it read, asking the database, caching the answer, closing the channel
    its callers wait on, leaving [inflight], giving the slot back, over. *)
Inductive phase :=
  | Waiting | Reading | Checking (e : option entry) | Querying | Remembering | Closing | Deleting
  | Releasing | Over.

(** A [call] with the goroutine that answers it; [l_owner] is the caller that
    started it, [l_began] when that caller began, and [l_left] when it left
    [inflight]. *)
Record lookup := {
  l_owner : nat;
  l_ck : string;
  l_gen : Z;
  l_drops : Z;
  l_began : nat;
  l_phase : phase;
  l_answer : option answer;
  l_done : bool;
  l_left : option nat;
}.

#[export] Instance lookup_updatable : Updatable lookup := λ l,
  {| l_owner := l_owner l; l_ck := l_ck l; l_gen := l_gen l; l_drops := l_drops l; l_began := l_began l;
     l_phase := l_phase l; l_answer := l_answer l; l_done := l_done l; l_left := l_left l |}.

(** A change that was announced: when, and what. *)
Record event := { ev_at : nat; ev_change : string }.

(** The registry with everything that runs in it; [moment] counts the steps so
    far, and [log] remembers the changes. *)
Record system := {
  s_cache : cache;
  inflight : gmap string nat;
  slots : nat;
  callers : gmap nat caller;
  lookups : gmap nat lookup;
  moment : nat;
  log : list event;
}.

#[export] Instance system_updatable : Updatable system := λ s,
  {| s_cache := s_cache s; inflight := inflight s; slots := slots s; callers := callers s;
     lookups := lookups s; moment := moment s; log := log s |}.

Inductive label :=
  | Begin (t : nat) (presented : string)
  | ReadCache (t : nat)
  | CheckCache (t : nat)
  | Share (t i : nat)
  | TakeSlot (t : nat)
  | HangUp (t : nat)
  | Wake (t : nat)
  | LookupRead (i : nat)
  | LookupCheck (i : nat)
  | Query (i : nat) (failed : option string)
  | Remember (i : nat)
  | Close (i : nat)
  | Delete (i : nat)
  | Release (i : nat)
  | Announce (c : string)
  | SweepAt (now g : Z).

Section run.
Context `{SHA256}.
Context (opts : Options).
(** What [LookupKey] answers for a hash, at each moment; and the clock. *)
Context (db_at : nat → string → answer) (clock : nat → Z).

Definition ck_of (c : caller) : string := Hash (c_key c).

Definition active (c : caller) : bool := match c_at c with Returned _ => false | _ => true end.

Definition set_caller (t : nat) (c : caller) (at_ : stage) (s : system) : system :=
  s <| callers := <[t := {| c_key := c_key c; c_gen := c_gen c; c_began := c_began c; c_at := at_ |}]> (callers s) |>.

Definition set_lookup (i : nat) (l : lookup) (s : system) : system :=
  s <| lookups := <[i := l]> (lookups s) |>.

Definition tick (s : system) : system := s <| moment := S (moment s) |>.

(** One step of a caller. *)
Definition step_caller (s : system) (l : label) : option system :=
  match l with
  | Begin t presented =>
      match callers s !! t with
      | Some _ => None
      | None =>
          let c := {| c_key := presented; c_gen := gen (s_cache s); c_began := moment s; c_at := AtRead |} in
          if negb (WellFormed presented) then Some (set_caller t c (Returned (Answered (inl ErrUnknownKey))) s)
          else Some (set_caller t c AtRead s)
      end
  | ReadCache t =>
      match callers s !! t with
      | Some c => match c_at c with
                  | AtRead => let '(e, d) := lookupCache (s_cache s) (ck_of c) in Some (set_caller t c (AtCheck e d) s)
                  | _ => None
                  end
      | None => None
      end
  | CheckCache t =>
      match callers s !! t with
      | Some c => match c_at c with
                  | AtCheck e d =>
                      match usable e (c_gen c) (clock (moment s)) with
                      | Some a => Some (set_caller t c (Returned (Answered a)) s)
                      | None => Some (set_caller t c (AtShare d) s)
                      end
                  | _ => None
                  end
      | None => None
      end
  | Share t i =>
      match callers s !! t with
      | Some c => match c_at c with
                  | AtShare d =>
                      match inflight s !! ck_of c with
                      | Some j => Some (set_caller t c (AtWait j) s)
                      | None =>
                          match lookups s !! i with
                          | Some _ => None
                          | None =>
                              let l := {| l_owner := t; l_ck := ck_of c; l_gen := c_gen c; l_drops := d; l_began := c_began c;
                                          l_phase := Waiting; l_answer := None; l_done := false; l_left := None |} in
                              Some (set_caller t c (AtSlot i)
                                (set_lookup i l (s <| inflight := <[ck_of c := i]> (inflight s) |>)))
                          end
                      end
                  | _ => None
                  end
      | None => None
      end
  | TakeSlot t =>
      match callers s !! t with
      | Some c => match c_at c with
                  | AtSlot i =>
                      match lookups s !! i with
                      | Some l =>
                          if (slots s <? maxLookups)%nat then
                            Some (set_caller t c (AtWait i)
                              (set_lookup i (l <| l_phase := Reading |>) (s <| slots := S (slots s) |>)))
                          else None
                      | None => None
                      end
                  | _ => None
                  end
      | None => None
      end
  | HangUp t =>
      match callers s !! t with
      | Some c => match c_at c with
                  | AtSlot i =>
                      match lookups s !! i with
                      | Some l =>
                          Some (set_caller t c (Returned HungUp)
                            (set_lookup i (l <| l_phase := Over |> <| l_answer := Some (inl errLookupsBusy) |>
                                             <| l_done := true |> <| l_left := Some (moment s) |>)
                              (s <| inflight := delete (ck_of c) (inflight s) |>)))
                      | None => None
                      end
                  | AtWait _ => Some (set_caller t c (Returned HungUp) s)
                  | _ => None
                  end
      | None => None
      end
  | Wake t =>
      match callers s !! t with
      | Some c => match c_at c with
                  | AtWait i =>
                      match lookups s !! i with
                      | Some l => match l_done l, l_answer l with
                                  | true, Some a => Some (set_caller t c (Returned (Answered a)) s)
                                  | _, _ => None
                                  end
                      | None => None
                      end
                  | _ => None
                  end
      | None => None
      end
  | _ => None
  end.

(** One step of the goroutine of [Registry.lookup]. *)
Definition step_lookup (s : system) (i : nat) (l : lookup) (lab : label) : option system :=
  match lab, l_phase l with
  | LookupRead _, Reading =>
      Some (set_lookup i (l <| l_phase := Checking (lookupCache (s_cache s) (l_ck l)).1 |>) s)
  | LookupCheck _, Checking e =>
      match usable e (l_gen l) (clock (moment s)) with
      | Some a => Some (set_lookup i (l <| l_answer := Some a |> <| l_phase := Closing |>) s)
      | None => Some (set_lookup i (l <| l_phase := Querying |>) s)
      end
  | Query _ failed, Querying =>
      let a := match failed with Some msg => inl (ErrOther msg) | None => db_at (moment s) (l_ck l) end in
      Some (set_lookup i (l <| l_answer := Some a |> <| l_phase := Remembering |>) s)
  | Remember _, Remembering =>
      match l_answer l with
      | Some a =>
          Some (set_lookup i (l <| l_phase := Closing |>)
            (s <| s_cache := remember opts (l_ck l) (l_gen l) (l_drops l) a (clock (moment s)) (s_cache s) |>))
      | None => None
      end
  | Close _, Closing => Some (set_lookup i (l <| l_done := true |> <| l_phase := Deleting |>) s)
  | Delete _, Deleting =>
      Some (set_lookup i (l <| l_phase := Releasing |> <| l_left := Some (moment s) |>) (s <| inflight := delete (l_ck l) (inflight s) |>))
  | Release _, Releasing =>
      Some (set_lookup i (l <| l_phase := Over |>) (s <| slots := pred (slots s) |>))
  | _, _ => None
  end.

Definition lookup_of (l : label) : option nat :=
  match l with
  | LookupRead i | LookupCheck i | Query i _ | Remember i | Close i | Delete i | Release i => Some i
  | _ => None
  end.

(** What the system does in one step; [None] where the step is not one. *)
Definition exec (s : system) (l : label) : option system :=
  tick <$>
  match l with
  | Announce c =>
      Some (s <| s_cache := Forget c (s_cache s) |>
              <| log := log s ++ [{| ev_at := moment s; ev_change := c |}] |>)
  | SweepAt now g => Some (s <| s_cache := Sweep now g (s_cache s) |>)
  | _ =>
      match lookup_of l with
      | Some i => match lookups s !! i with Some k => step_lookup s i k l | None => None end
      | None => step_caller s l
      end
  end.

Definition start : system :=
  {| s_cache := {| keys := ∅; gen := 0; drops := 0 |}; inflight := ∅; slots := 0; callers := ∅;
     lookups := ∅; moment := 0; log := [] |}.

Inductive reachable : system → Prop :=
  | reach_start : reachable start
  | reach_step s l s' : reachable s → exec s l = Some s' → reachable s'.

(** Running a list of steps. *)
Fixpoint steps (s : system) (ls : list label) : option system :=
  match ls with
  | [] => Some s
  | l :: rest => match exec s l with Some s' => steps s' rest | None => None end
  end.

Definition run (ls : list label) : option system := steps start ls.
End run.

(** ** Histories *)

(** A change of anything, which bumps the generation; the others bump the drops. *)
Definition any_event (ev : event) : bool :=
  match Change_key (ev_change ev), Change_org (ev_change ev) with None, None => true | _, _ => false end.

(** Does a change make an answer stale? *)
Definition stale_by (c : string) (a : answer) : bool :=
  match Change_key c with
  | Some id => match a with inr r => bool_decide (Key_ID (R_Key r) = id) | inl _ => false end
  | None =>
      match Change_org c with
      | Some id => match a with inr r => bool_decide (Key_OrgID (R_Key r) = id) | inl _ => false end
      | None => true
      end
  end.

Definition count (P : event → bool) (n : nat) (lg : list event) : Z :=
  Z.of_nat (length (filter (λ ev, ((ev_at ev <? n)%nat && P ev) = true) lg)).

(** How often the generation and the drops were bumped before moment [n]. *)
Definition gens (n : nat) (lg : list event) : Z := count any_event n lg.
Definition dropped (n : nat) (lg : list event) : Z := count (negb ∘ any_event) n lg.

(** An answer that is not the database's: a query failed. *)
Definition failure (a : answer) : bool :=
  match a with inl e => negb (isKeyRejection e) | inr _ => false end.

(** The history grew: what is new happened since. *)
Definition grows (lg : list event) (now : nat) (lg' : list event) (now' : nat) : Prop :=
  (now <= now')%nat ∧ ∃ new, lg' = lg ++ new ∧ Forall (λ ev, (now <= ev_at ev)%nat) new.

Section history.
Implicit Types (lg : list event) (ev : event) (n m now b : nat).

Lemma count_grows P n lg now lg' now' : grows lg now lg' now' → (n <= now)%nat → count P n lg' = count P n lg.
Proof.
  intros (_ & new & -> & Hnew) Hn. unfold count. rewrite filter_app, length_app.
  replace (filter _ new) with (@nil event); [simpl; lia|]. symmetry. clear lg.
  induction Hnew as [|ev new Hev _ IH]; [done|]. rewrite filter_cons_False; [done|].
  rewrite (proj2 (Nat.ltb_ge _ _)) by lia. done.
Qed.

Lemma count_mono P n m lg : (n <= m)%nat → count P n lg <= count P m lg.
Proof.
  intros Hnm. unfold count. induction lg as [|ev lg IH]; [done|]. rewrite !filter_cons.
  destruct (decide _) as [H1|H1], (decide _) as [H2|H2]; cbn [length]; try lia.
  exfalso. apply H2. rewrite andb_true_iff, !Nat.ltb_lt in *. intuition lia.
Qed.

(** Nothing counted between two moments happened. *)
Lemma count_same P n m lg ev :
  count P n lg = count P m lg → (n <= m)%nat → ev ∈ lg → P ev = true → (ev_at ev < m)%nat → (ev_at ev < n)%nat.
Proof.
  intros He Hnm Hin HP Hm. destruct (decide (ev_at ev < n)%nat) as [|Hn]; [done|]. exfalso.
  apply list_elem_of_split in Hin as (l1 & l2 & ->). revert He. unfold count.
  rewrite !filter_app, !length_app, filter_cons_False, filter_cons_True; cbn [length].
  - pose proof (count_mono P n m l1 Hnm). pose proof (count_mono P n m l2 Hnm). unfold count in *. lia.
  - rewrite HP, andb_true_r. by apply Nat.ltb_lt.
  - rewrite HP, andb_true_r, Nat.ltb_lt. done.
Qed.

Lemma count_bound P n lg : 0 <= count P n lg <= Z.of_nat (length lg).
Proof. unfold count. pose proof (length_filter (λ ev, ((ev_at ev <? n)%nat && P ev) = true) lg). lia. Qed.

(** Counters below 2^64 agree when they agree as [uint64]s. *)
Lemma count_wrap P n m lg :
  Z.of_nat (length lg) < two64 → count P n lg mod two64 = count P m lg mod two64 → count P n lg = count P m lg.
Proof.
  intros Hl. pose proof (count_bound P n lg). pose proof (count_bound P m lg).
  rewrite !Z.mod_small by lia. done.
Qed.

Lemma count_snoc P n lg ev :
  count P n (lg ++ [ev]) = count P n lg + (if ((ev_at ev <? n)%nat && P ev) then 1 else 0).
Proof.
  unfold count. rewrite filter_app, length_app. destruct (_ && _) eqn:E.
  - rewrite filter_cons_True by done. simpl. lia.
  - rewrite filter_cons_False by congruence. simpl. lia.
Qed.

(** Nothing happened yet at the present moment. *)
Lemma count_now P n lg :
  (∀ ev, ev ∈ lg → (ev_at ev < n)%nat) → count P (S n) lg = count P n lg.
Proof.
  intros Hlg. unfold count. induction lg as [|ev lg IH]; [done|].
  assert (He : (ev_at ev < n)%nat) by (apply Hlg; left).
  rewrite !filter_cons, (proj2 (Nat.ltb_lt _ _) He), (proj2 (Nat.ltb_lt (ev_at ev) (S n))) by lia.
  assert (IH' := IH (λ ev' H, Hlg ev' (list_elem_of_further _ _ _ H))).
  destruct (decide _); cbn [length]; lia.
Qed.
End history.

(** ** What every reachable state keeps *)

Definition before_delete (p : phase) : bool :=
  match p with Releasing | Over => false | _ => true end.

(** Does the query hold a slot? *)
Definition running (l : lookup) : bool :=
  match l_phase l with Waiting | Over => false | _ => true end.

Definition slots_held (ls : gmap nat lookup) : nat := size (filter (λ p, running p.2 = true) ls).

(** The fields of an updated state. *)
Ltac fields := cbn [tick update set_caller set_lookup log moment s_cache callers lookups inflight slots
  keys gen drops c_key c_gen c_began c_at l_owner l_ck l_gen l_drops l_began l_phase l_answer l_done l_left].

Section invariant.
Context (db_at : nat → string → answer).

(** [a] was read for [ck] before [now], and after every change before [b] that
    makes it stale. *)
Definition held (lg : list event) (now b : nat) (ck : string) (drop_only : bool) (a : answer) (n0 : nat) : Prop :=
  ∃ m, (m < now)%nat ∧ (n0 <= m)%nat ∧ a = db_at m ck ∧
    ∀ ev, ev ∈ lg → (ev_at ev < b)%nat → (drop_only = true → any_event ev = false) →
      stale_by (ev_change ev) a = true → (ev_at ev < m)%nat.

(** A cached answer misses no change of a key or an organisation before [b]. *)
Definition entry_held (lg : list event) (now b : nat) (ck : string) (e : entry) : Prop :=
  failure (e_answer e) = false ∧ ∃ n0, e_gen e = gens n0 lg mod two64 ∧ held lg now b ck true (e_answer e) n0.

(** An answer that misses no change before [b]. *)
Definition current (lg : list event) (now b : nat) (ck : string) (a : answer) : Prop :=
  failure a = false → held lg now b ck false a 0.

(** The drops were read since [b]. *)
Definition seen (lg : list event) (now b : nat) (d : Z) : Prop :=
  ∃ x, (b <= x <= now)%nat ∧ d = dropped x lg mod two64.

(** A query was under way after moment [b]. *)
Definition left_after (l : lookup) (b : nat) : Prop := match l_left l with None => True | Some x => (b < x)%nat end.

Context `{SHA256}.

Definition stage_ok (s : system) (t : nat) (c : caller) : Prop :=
  let '(lg, now, b, ck) := (log s, moment s, c_began c, ck_of c) in
  match c_at c with
  | AtRead => True
  | AtCheck e d => (∀ e0, e = Some e0 → entry_held lg now b ck e0) ∧ seen lg now b d
  | AtShare d => seen lg now b d
  | AtSlot i => ∃ l, lookups s !! i = Some l ∧ l_phase l = Waiting ∧ l_owner l = t ∧ l_ck l = ck ∧ l_began l = b
  | AtWait i => ∃ l, lookups s !! i = Some l ∧ l_ck l = ck ∧ left_after l b
  | Returned (Answered a) =>
      if WellFormed (c_key c) then
        failure a = false → ∃ m, (m < now)%nat ∧ a = db_at m ck ∧
          ∀ ev, ev ∈ lg → (ev_at ev < b)%nat → stale_by (ev_change ev) a = true →
            (ev_at ev < m)%nat ∨ ∃ i l, lookups s !! i = Some l ∧ l_ck l = ck ∧ (l_began l <= ev_at ev)%nat ∧ left_after l b
      else a = inl ErrUnknownKey
  | Returned HungUp => True
  end.

Definition caller_ok (s : system) (t : nat) (c : caller) : Prop :=
  (c_began c < moment s)%nat ∧ c_gen c = gens (c_began c) (log s) mod two64 ∧
  (active c = true → WellFormed (c_key c) = true) ∧
  stage_ok s t c.

Definition phase_ok (s : system) (i : nat) (l : lookup) : Prop :=
  let '(lg, now, b, ck) := (log s, moment s, l_began l, l_ck l) in
  match l_phase l with
  | Waiting => (∃ c, callers s !! l_owner l = Some c ∧ c_at c = AtSlot i) ∧ l_answer l = None ∧ seen lg now b (l_drops l)
  | Reading | Querying => l_answer l = None ∧ seen lg now b (l_drops l)
  | Checking e => l_answer l = None ∧ (∀ e0, e = Some e0 → entry_held lg now b ck e0) ∧ seen lg now b (l_drops l)
  | Remembering => ∃ a, l_answer l = Some a ∧
      (failure a = false → ∃ m, (m < now)%nat ∧ (b <= m)%nat ∧ a = db_at m ck ∧
         ∃ x, (x <= m)%nat ∧ l_drops l = dropped x lg mod two64)
  | Closing | Deleting | Releasing | Over => ∃ a, l_answer l = Some a ∧ current lg now b ck a
  end.

Definition done_ok (l : lookup) : Prop :=
  l_done l = match l_phase l with Deleting | Releasing | Over => true | _ => false end.

Definition lookup_ok (s : system) (i : nat) (l : lookup) : Prop :=
  (l_began l < moment s)%nat ∧ l_gen l = gens (l_began l) (log s) mod two64 ∧
  (before_delete (l_phase l) = true → inflight s !! l_ck l = Some i ∧ l_left l = None) ∧
  done_ok l ∧ phase_ok s i l.

Record Inv (s : system) : Prop := {
  inv_log : ∀ ev, ev ∈ log s → (ev_at ev < moment s)%nat;
  inv_gen : gen (s_cache s) = gens (moment s) (log s) mod two64;
  inv_drops : drops (s_cache s) = dropped (moment s) (log s) mod two64;
  inv_keys : ∀ ck e, keys (s_cache s) !! ck = Some e → entry_held (log s) (moment s) (moment s) ck e;
  inv_callers : ∀ t c, callers s !! t = Some c → caller_ok s t c;
  inv_lookups : ∀ i l, lookups s !! i = Some l → lookup_ok s i l;
  inv_inflight : ∀ ck i, inflight s !! ck = Some i →
    ∃ l, lookups s !! i = Some l ∧ l_ck l = ck ∧ before_delete (l_phase l) = true;
  inv_slots : slots s = slots_held (lookups s) ∧ (slots s <= maxLookups)%nat;
}.

(** *** What a step leaves alone *)

Lemma held_later lg now now' b ck drop_only a n0 :
  (now <= now')%nat → held lg now b ck drop_only a n0 → held lg now' b ck drop_only a n0.
Proof. intros ? (m & ? & ? & ? & ?). exists m. repeat split; auto; lia. Qed.

Lemma entry_later lg now now' b ck e : (now <= now')%nat → entry_held lg now b ck e → entry_held lg now' b ck e.
Proof. intros ? (? & n0 & ? & ?). split; [done|]. exists n0. eauto using held_later. Qed.

Lemma entry_earlier lg now b b' ck e : (b' <= b)%nat → entry_held lg now b ck e → entry_held lg now b' ck e.
Proof.
  intros ? (? & n0 & ? & m & ? & ? & ? & Hm). split; [done|]. exists n0. split; [done|]. exists m.
  repeat split; auto. intros ev Hev ?. apply Hm; [done|lia].
Qed.

Lemma entry_now lg n ck e : (∀ ev, ev ∈ lg → (ev_at ev < n)%nat) → entry_held lg n n ck e → entry_held lg (S n) (S n) ck e.
Proof.
  intros Hlg (? & n0 & ? & m & ? & ? & ? & Hm). split; [done|]. exists n0. split; [done|]. exists m.
  repeat split; auto.
Qed.

Lemma seen_later lg now now' b d : (now <= now')%nat → seen lg now b d → seen lg now' b d.
Proof. intros ? (x & ? & ?). exists x. split; [lia|done]. Qed.

Lemma current_later lg now now' b ck a : (now <= now')%nat → current lg now b ck a → current lg now' b ck a.
Proof. unfold current. eauto using held_later. Qed.
#[local] Hint Resolve entry_later seen_later current_later Nat.lt_le_incl Nat.le_succ_diag_r : core.

Lemma stage_frame s s' t c :
  log s' = log s → (moment s <= moment s')%nat → (c_began c < moment s)%nat →
  (∀ i l, lookups s !! i = Some l → ∃ l', lookups s' !! i = Some l' ∧ l_ck l' = l_ck l ∧ l_began l' = l_began l ∧
    (∀ b, (b < moment s)%nat → left_after l b → left_after l' b) ∧
    (c_at c = AtSlot i → l_phase l = Waiting → l_owner l = t → l_phase l' = Waiting ∧ l_owner l' = t)) →
  stage_ok s t c → stage_ok s' t c.
Proof.
  intros Hl Hm Hb0 Hls. unfold stage_ok. rewrite Hl. destruct (c_at c) as [|e d|d|i|i|[a|]]; auto.
  - intros (He & Hd). split; eauto.
  - eauto.
  - intros (l & Hi & Hp & Ho & Hk & Hb).
    destruct (Hls i l Hi) as (l' & ? & Hk' & Hb' & _ & Hw). destruct Hw as [? ?]; auto.
    exists l'. split_and!; congruence.
  - intros (l & Hi & Hk & Hq). destruct (Hls i l Hi) as (l' & ? & Hk' & Hb' & Hleft & _). exists l'.
    rewrite Hk'. auto.
  - destruct (WellFormed _); auto. intros Ha Hf. destruct (Ha Hf) as (m & ? & ? & Hev). exists m.
    split_and!; [lia|done|]. intros ev Hin Hlt Hst. destruct (Hev ev Hin Hlt Hst) as [?|(i & l & Hi & Hk & Hle & Hlb)]; [by left|].
    right. destruct (Hls i l Hi) as (l' & ? & Hk' & Hb' & Hleft & _). exists i, l'. split_and!; [done|congruence|lia|auto].
Qed.

Lemma phase_frame s s' i l :
  log s' = log s → (moment s <= moment s')%nat →
  (∀ c, l_phase l = Waiting → callers s !! l_owner l = Some c → c_at c = AtSlot i → callers s' !! l_owner l = Some c) →
  phase_ok s i l → phase_ok s' i l.
Proof.
  intros Hl Hm Hc. unfold phase_ok. rewrite Hl. destruct (l_phase l).
  - intros ((c & ? & ?) & ? & ?). split_and!; eauto.
  - intros (? & ?). eauto.
  - intros (? & ? & ?). split_and!; eauto.
  - intros (? & ?). eauto.
  - intros (a & ? & Ha). exists a. split; [done|]. intros Hf. destruct (Ha Hf) as (m & ? & ?). exists m.
    split; [lia|done].
  - intros (a & ? & ?). eauto.
  - intros (a & ? & ?). eauto.
  - intros (a & ? & ?). eauto.
  - intros (a & ? & ?). eauto.
Qed.

(** A step that touches one caller and one query at most. *)
Lemma frame s s' (t0 i0 : option nat) :
  Inv s → log s' = log s → moment s' = S (moment s) →
  gen (s_cache s') = gen (s_cache s) → drops (s_cache s') = drops (s_cache s) →
  (∀ ck e, keys (s_cache s') !! ck = Some e →
    keys (s_cache s) !! ck = Some e ∨ entry_held (log s) (S (moment s)) (S (moment s)) ck e) →
  (∀ t, t0 ≠ Some t → callers s' !! t = callers s !! t) →
  (∀ i, i0 ≠ Some i → lookups s' !! i = lookups s !! i) →
  (∀ ck i, i0 ≠ Some i → inflight s' !! ck = Some i ↔ inflight s !! ck = Some i) →
  (∀ t c, t0 = Some t → callers s' !! t = Some c → caller_ok s' t c) →
  (∀ i l, i0 = Some i → lookups s' !! i = Some l → lookup_ok s' i l) →
  (∀ i ck, i0 = Some i → inflight s' !! ck = Some i →
    ∃ l, lookups s' !! i = Some l ∧ l_ck l = ck ∧ before_delete (l_phase l) = true) →
  (∀ i l, i0 = Some i → lookups s !! i = Some l → ∃ l', lookups s' !! i = Some l' ∧ l_ck l' = l_ck l ∧
    l_began l' = l_began l ∧ (∀ b, (b < moment s)%nat → left_after l b → left_after l' b) ∧ (l_phase l = Waiting → t0 = Some (l_owner l))) →
  (∀ t c i, t0 = Some t → callers s !! t = Some c → c_at c = AtSlot i → i0 = Some i) →
  slots s' = slots_held (lookups s') ∧ (slots s' <= maxLookups)%nat → Inv s'.
Proof.
  intros [Hlog Hgen Hdrops Hkeys Hcs Hls Hin Hsl] El Em Eg Ed Ek Ec Elk Ei Nc Nl Ni Keep Own Hs'.
  split; [..|done].
  - rewrite El, Em. intros ev Hev. specialize (Hlog ev Hev). lia.
  - rewrite Eg, El, Em, Hgen. unfold gens. rewrite (count_now any_event); auto.
  - rewrite Ed, El, Em, Hdrops. unfold dropped. rewrite (count_now (negb ∘ any_event)); auto.
  - rewrite El, Em. intros ck e He. destruct (Ek ck e He) as [Hk|]; [|done].
    apply entry_now; [done|]. eauto.
  - intros t c Ht. destruct (decide (t0 = Some t)) as [->|Hne]; [by eauto|]. rewrite Ec in Ht by done.
    destruct (Hcs t c Ht) as (? & ? & ? & Hst). unfold caller_ok. rewrite El, Em. split_and!; [lia|done|done|].
    eapply stage_frame; [done|lia|done| |exact Hst]. intros i l Hi.
    destruct (decide (i0 = Some i)) as [->|Hni].
    + destruct (Keep i l eq_refl Hi) as (l' & ? & ? & ? & ? & Hw). exists l'. split_and!; auto.
      intros ? Hp Ho. rewrite (Hw Hp) in Hne. congruence.
    + exists l. rewrite Elk by done. split_and!; auto.
  - intros i l Hi. destruct (decide (i0 = Some i)) as [->|Hne]; [by eauto|]. rewrite Elk in Hi by done.
    destruct (Hls i l Hi) as (? & ? & Hb & ? & Hph). unfold lookup_ok. rewrite El, Em. split_and!; [lia|done| |done|].
    + intros Hbd. rewrite Ei by done. auto.
    + eapply phase_frame; [done|lia| |exact Hph]. intros c Hp Hc Hat. rewrite Ec; [done|].
      intros ->. apply (Own _ _ _ eq_refl Hc) in Hat. congruence.
  - intros ck i Hi. destruct (decide (i0 = Some i)) as [->|Hne]; [by eauto|]. rewrite Ei in Hi by done.
    rewrite Elk by done. eauto.
Qed.

(** *** A change is announced *)

Lemma any_event_gen ev s : any_event ev = true →
  Forget (ev_change ev) s = {| keys := keys s; gen := succ_u64 (gen s); drops := drops s |}.
Proof. unfold any_event, Forget. destruct (Change_key _); [done|]. by destruct (Change_org _). Qed.

Lemma dropped_keys ev s : any_event ev = false →
  gen (Forget (ev_change ev) s) = gen s ∧ drops (Forget (ev_change ev) s) = succ_u64 (drops s).
Proof. unfold any_event, Forget. destruct (Change_key _); [done|]. by destruct (Change_org _). Qed.

(** No entry a change makes stale survives it. *)
Lemma Forget_keys ev s ck e :
  keys (Forget (ev_change ev) s) !! ck = Some e →
  keys s !! ck = Some e ∧ (any_event ev = false → stale_by (ev_change ev) (e_answer e) = false).
Proof.
  unfold any_event, Forget, stale_by. destruct (Change_key _) as [id|]; [|destruct (Change_org _) as [id|]; [|done]].
  all: cbn [dropKeys keys]; rewrite map_lookup_filter_Some; unfold kept; cbn [snd]; intros (He & Hk);
    split; [done|]; intros _; destruct (e_answer e); [done|by apply negb_true_iff].
Qed.

Lemma held_snoc lg now b ck drop_only a n0 ev :
  (b <= ev_at ev)%nat → held lg now b ck drop_only a n0 → held (lg ++ [ev]) now b ck drop_only a n0.
Proof.
  intros Hb (m & ? & ? & ? & Hm). exists m. split_and!; auto. intros ev'. rewrite elem_of_app, list_elem_of_singleton.
  intros [?| ->]; [by apply Hm|lia].
Qed.

Lemma count_old P n lg ev : (n <= ev_at ev)%nat → count P n (lg ++ [ev]) = count P n lg.
Proof. intros. rewrite count_snoc, (proj2 (Nat.ltb_ge _ _)) by done. apply Z.add_0_r. Qed.

Lemma entry_snoc lg now b ck e ev :
  (b <= ev_at ev)%nat → (now <= ev_at ev)%nat → entry_held lg now b ck e → entry_held (lg ++ [ev]) now b ck e.
Proof.
  intros Hb Hn (? & n0 & Hg & Hh). split; [done|]. exists n0. split; [|by apply held_snoc].
  destruct Hh as (m & ? & ? & _). unfold gens. rewrite count_old by lia. exact Hg.
Qed.

Lemma seen_snoc lg now b d ev : (now <= ev_at ev)%nat → seen lg now b d → seen (lg ++ [ev]) now b d.
Proof. intros ? (x & ? & ->). exists x. split; [done|]. unfold dropped. rewrite count_old by lia. done. Qed.

Lemma current_snoc lg now b ck a ev : (b <= ev_at ev)%nat → current lg now b ck a → current (lg ++ [ev]) now b ck a.
Proof. unfold current. eauto using held_snoc. Qed.

Lemma Inv_announce s c : Inv s →
  Inv (tick (s <| s_cache := Forget c (s_cache s) |>
              <| log := log s ++ [{| ev_at := moment s; ev_change := c |}] |>)).
Proof.
  set (ev := {| ev_at := moment s; ev_change := c |}). change c with (ev_change ev) at 1.
  intros [Hlog Hgen Hdrops Hkeys Hcs Hls Hin Hsl].
  assert (Hev : (ev_at ev <? S (moment s))%nat = true) by (apply Nat.ltb_lt; simpl; lia).
  split; fields; [..|done].
  - intros ev'. rewrite elem_of_app, list_elem_of_singleton. intros [Hin'| ->]; [|simpl; lia].
    specialize (Hlog _ Hin'). lia.
  - unfold gens. rewrite count_snoc, Hev, count_now by done. fold (gens (moment s) (log s)).
    destruct (any_event ev) eqn:Ha; cbn [andb].
    + rewrite any_event_gen by done. cbn [gen]. rewrite Hgen. unfold succ_u64. by rewrite Zplus_mod_idemp_l.
    + rewrite (proj1 (dropped_keys ev _ Ha)), Z.add_0_r. done.
  - unfold dropped. rewrite count_snoc, Hev, count_now by done. fold (dropped (moment s) (log s)).
    cbn [andb compose]. destruct (any_event ev) eqn:Ha; cbn [negb].
    + rewrite any_event_gen by done. cbn [drops]. by rewrite Z.add_0_r.
    + rewrite (proj2 (dropped_keys ev _ Ha)), Hdrops. unfold succ_u64. by rewrite Zplus_mod_idemp_l.
  - intros ck e He. apply Forget_keys in He as (He & Hst).
    destruct (Hkeys ck e He) as (Hf & n0 & Hg & m & ? & ? & Ha & Hm). split; [done|]. exists n0. split.
    { unfold gens. rewrite count_old by (simpl; lia). done. }
    exists m. split_and!; auto. intros ev'. rewrite elem_of_app, list_elem_of_singleton.
    intros [Hin'| ->] _ Hd Hs; [apply Hm; auto|]. rewrite Hst in Hs; [done|]. by apply Hd.
  - intros t c0 Ht. destruct (Hcs t c0 Ht) as (Hb & Hg & Ha & Hst).
    unfold caller_ok. fields. split_and!; [lia| | |].
    + unfold gens. rewrite count_old by (simpl; lia). done.
    + done.
    + revert Hst. unfold stage_ok, active. fields. destruct (c_at c0) as [|e d|d|i|i|[a|]]; auto.
      * intros (He & Hd). split; [|eauto using seen_snoc]. intros e0 ->. apply entry_later with (moment s); [lia|].
        apply entry_snoc; auto; simpl; lia.
      * intros. apply seen_later with (moment s); [lia|]. by apply seen_snoc.
      * destruct (WellFormed _); [|done]. intros Hr Hf. destruct (Hr Hf) as (m & ? & ? & Hm). exists m.
        split_and!; [lia|done|]. intros ev'. rewrite elem_of_app, list_elem_of_singleton.
        intros [?| ->]; [by apply Hm|simpl; lia].
  - intros i l Hi. destruct (Hls i l Hi) as (Hb & Hg & Hq & Hd & Hph).
    unfold lookup_ok. fields. split_and!; [lia| | |done|].
    + unfold gens. rewrite count_old by (simpl; lia). done.
    + done.
    + revert Hph. unfold phase_ok. fields. pose proof (Nat.le_succ_diag_r (moment s)).
      assert (Hev' : (moment s <= ev_at ev)%nat) by done.
      destruct (l_phase l) as [| |e| | | | | |]; intros Hph.
      2,4: destruct Hph; split; [done|]; eapply seen_later; [done|]; by apply seen_snoc.
      4-7: destruct Hph as (a & ? & ?); exists a; split; [done|]; eapply current_later; [done|];
           apply current_snoc; [simpl; lia|done].
      * destruct Hph as (? & ? & ?). split_and!; [done|done|]. eapply seen_later; [done|]. by apply seen_snoc.
      * destruct Hph as (? & He & ?). split_and!; [done| |eapply seen_later; [done|]; by apply seen_snoc].
        intros e0 Heq. eapply entry_later; [done|]. apply entry_snoc; [simpl; lia|done|by apply He].
      * destruct Hph as (a & ? & Hr). exists a. split; [done|]. intros Hf.
        destruct (Hr Hf) as (m & ? & ? & ? & x & ? & Hx). exists m. split_and!; [lia|done|done|]. exists x.
        split; [done|]. unfold dropped. rewrite count_old by (simpl; lia). exact Hx.
  - done.
Qed.

(** *** Slots *)

Lemma slots_insert ls i l : slots_held (<[i:=l]> ls) = (slots_held (delete i ls) + if running l then 1 else 0)%nat.
Proof.
  unfold slots_held. destruct (running l) eqn:E.
  - rewrite <- insert_delete_eq, map_filter_insert_True, map_size_insert_None by
      (try done; apply map_lookup_filter_None; left; apply lookup_delete_eq). lia.
  - rewrite map_filter_insert_False by (cbn; congruence). lia.
Qed.

Lemma slots_at ls i l : ls !! i = Some l → slots_held ls = (slots_held (delete i ls) + if running l then 1 else 0)%nat.
Proof. intros Hi. rewrite <- (insert_id ls i l Hi) at 1. apply slots_insert. Qed.

Lemma slots_new ls i : ls !! i = None → slots_held (delete i ls) = slots_held ls.
Proof. intros Hi. by rewrite delete_id. Qed.

(** *** The steps of a caller *)

Lemma Inv_caller s t c st :
  Inv s → (∀ c0 i, callers s !! t = Some c0 → c_at c0 ≠ AtSlot i) →
  caller_ok (tick (set_caller t c st s)) t {| c_key := c_key c; c_gen := c_gen c; c_began := c_began c; c_at := st |} →
  Inv (tick (set_caller t c st s)).
Proof.
  intros HI Hns Hok. apply (frame s _ (Some t) None); fields; try done; try (destruct HI; done); auto.
  - intros t' Ht. rewrite lookup_insert_ne; [done|congruence].
  - intros t' c' [= <-]. rewrite lookup_insert_eq. intros [= <-]. done.
  - intros t' c' i [= <-] Ht Hat. by destruct (Hns c' i Ht).
Qed.

(** What a usable entry answers missed nothing. *)
Lemma usable_current lg now b ck e g t a :
  Z.of_nat (length lg) < two64 → (b <= now)%nat → g = gens b lg mod two64 →
  (∀ e0, e = Some e0 → entry_held lg now b ck e0) → usable e g t = Some a → current lg now b ck a ∧ failure a = false.
Proof.
  intros Hlen Hb -> He Hu. destruct e as [e|]; [|done]. cbn in Hu. case_match eqn:E; [|done]. injection Hu as <-.
  to_prop. destruct (He e eq_refl) as (Hf & n0 & Hg & m & Hm & Hn & Ha & Hev). split; [|done].
  intros _. exists m. split_and!; [done|lia|done|]. intros ev Hin Hbe _ Hst.
  destruct (any_event ev) eqn:Hany; [|by apply Hev].
  assert (Hgens : gens n0 lg = gens b lg) by (apply count_wrap; [done|]; unfold gens in *; congruence).
  destruct (decide (n0 <= b)%nat); [|lia].
  enough (ev_at ev < n0)%nat by lia. eapply (count_same any_event); eauto.
Qed.

Lemma current_returned s t c a st :
  (c_began c < moment s)%nat → c_at c = Returned (Answered a) → WellFormed (c_key c) = true →
  st = log s → current st (moment s) (c_began c) (ck_of c) a → stage_ok s t c.
Proof.
  intros ? Hat Hw -> Hc. unfold stage_ok. rewrite Hat, Hw. intros Hf. destruct (Hc Hf) as (m & ? & ? & ? & Hm).
  exists m. split_and!; auto. intros ev Hev Hb Hs. left. apply Hm; auto. discriminate.
Qed.

Section steps.
Context (opts : Options) (clock : nat → Z).

Lemma Inv_Begin s s' t p : Inv s → step_caller clock s (Begin t p) = Some s' → Inv (tick s').
Proof.
  intros HI. cbn [step_caller]. destruct (callers s !! t) eqn:Ht; [done|].
  pose proof (inv_log _ HI) as Hlog. pose proof (inv_gen _ HI) as Hg.
  destruct (WellFormed p) eqn:Hw; cbn [negb]; intros [= <-]; (apply Inv_caller; [done|by intros ? ? ? ?; congruence|]).
  all: unfold caller_ok; fields; unfold active, stage_ok; fields; rewrite Hw.
  - split_and!; auto.
  - split_and!; auto.
Qed.

Lemma Inv_ReadCache s s' t : Inv s → step_caller clock s (ReadCache t) = Some s' → Inv (tick s').
Proof.
  intros HI. cbn [step_caller]. destruct (callers s !! t) as [c|] eqn:Ht; [|done].
  destruct (c_at c) eqn:Hat; try done. cbn [lookupCache]. intros [= <-].
  destruct (inv_callers _ HI t c Ht) as (Hb & Hg & Ha & _).
  apply Inv_caller; [done|by intros ? ? ? ?; congruence|]. unfold caller_ok, stage_ok, active in *; fields. rewrite Hat in Ha.
  split_and!; auto.
  - intros e0 He. apply entry_earlier with (moment s); [lia|]. apply entry_later with (moment s); [lia|].
    by apply (inv_keys _ HI).
  - exists (moment s). split; [fields; lia|]. apply (inv_drops _ HI).
Qed.

Lemma Inv_CheckCache s s' t :
  Z.of_nat (length (log s)) < two64 → Inv s → step_caller clock s (CheckCache t) = Some s' → Inv (tick s').
Proof.
  intros Hlen HI. cbn [step_caller]. destruct (callers s !! t) as [c|] eqn:Ht; [|done].
  destruct (c_at c) as [|e d| | | |] eqn:Hat; try done.
  destruct (inv_callers _ HI t c Ht) as (Hb & Hg & Ha & Hst).
  unfold stage_ok, active in Ha, Hst. rewrite Hat in Ha, Hst. destruct Hst as (He & Hd). pose proof (Ha eq_refl) as Hw.
  destruct (usable e (c_gen c) (clock (moment s))) as [a|] eqn:Hu; intros [= <-];
    (apply Inv_caller; [done|by intros ? ? ? ?; congruence|]); unfold caller_ok; fields; (split_and!; [lia|done|done|]).
  - eapply current_returned with (st := log s); fields; auto.
    apply current_later with (moment s); [lia|].
    eapply (usable_current (log s) (moment s)); [done| |done|done|done]. lia.
  - unfold stage_ok; fields. eapply seen_later; [|done]. lia.
Qed.

Lemma answered_current s i l a :
  lookup_ok s i l → l_done l = true → l_answer l = Some a → current (log s) (moment s) (l_began l) (l_ck l) a.
Proof.
  intros (_ & _ & _ & Hd & Hph) Hdone Ha. unfold done_ok, phase_ok in *. rewrite Hdone in Hd.
  destruct (l_phase l); try done; destruct Hph as (a0 & Ha0 & Hc); rewrite Ha0 in Ha; by injection Ha as <-.
Qed.

Lemma Inv_Wake s s' t : Inv s → step_caller clock s (Wake t) = Some s' → Inv (tick s').
Proof.
  intros HI. cbn [step_caller]. destruct (callers s !! t) as [c|] eqn:Ht; [|done].
  destruct (c_at c) as [| | | |i|] eqn:Hat; try done. destruct (lookups s !! i) as [l|] eqn:Hi; [|done].
  destruct (l_done l) eqn:Hd; [|done]. destruct (l_answer l) as [a|] eqn:Ha; [|done]. intros [= <-].
  destruct (inv_callers _ HI t c Ht) as (Hb & Hg & Hact & Hst).
  unfold stage_ok, active in Hact, Hst. rewrite Hat in Hact, Hst.
  destruct Hst as (l' & Hi' & Hk & Hq). pose proof (Hact eq_refl) as Hw. assert (l' = l) as -> by congruence.
  pose proof (answered_current s i l a (inv_lookups _ HI i l Hi) Hd Ha) as Hc.
  apply Inv_caller; [done|by intros ? ? ? ?; congruence|]. unfold caller_ok; fields; (split_and!; [lia|done|done|]).
  unfold stage_ok; fields. rewrite Hw. intros Hf. destruct (Hc Hf) as (m & ? & _ & Ham & Hm). rewrite Hk in Ham.
  exists m. split_and!; [lia|exact Ham|]. intros ev Hev _ Hs. destruct (decide (ev_at ev < l_began l)%nat); [left; by apply Hm|].
  right. exists i, l. split_and!; [done|done|lia|done].
Qed.

Lemma Inv_Share s s' t i : Inv s → step_caller clock s (Share t i) = Some s' → Inv (tick s').
Proof.
  intros HI. cbn [step_caller]. destruct (callers s !! t) as [c|] eqn:Ht; [|done].
  destruct (c_at c) as [| |d| | |] eqn:Hat; try done.
  destruct (inv_callers _ HI t c Ht) as (Hb & Hg & Hact & Hst).
  unfold stage_ok, active in Hact, Hst. rewrite Hat in Hact, Hst. pose proof (Hact eq_refl) as Hw.
  destruct (inflight s !! ck_of c) as [j|] eqn:Hj.
  - intros [= <-]. destruct (inv_inflight _ HI _ _ Hj) as (l & Hl & Hk & Hbd).
    destruct (inv_lookups _ HI j l Hl) as (_ & _ & Hlq & _). destruct (Hlq Hbd) as (_ & Hlq').
    apply Inv_caller; [done|by intros ? ? ? ?; congruence|]. unfold caller_ok; fields; (split_and!; [lia|done|done|]).
    unfold stage_ok; fields. exists l. unfold left_after. by rewrite Hlq'.
  - destruct (lookups s !! i) eqn:Hi; [done|]. intros [= <-].
    apply (frame s _ (Some t) (Some i)); fields; try done; auto.
    + intros t' Hne. rewrite lookup_insert_ne; [done|congruence].
    + intros i' Hne. rewrite lookup_insert_ne; [done|congruence].
    + intros ck i' Hne. destruct (decide (ck_of c = ck)) as [<-|Hck]; [|by rewrite lookup_insert_ne].
      rewrite lookup_insert_eq. split; congruence.
    + intros t' c' [= <-]. rewrite lookup_insert_eq. intros [= <-]. unfold caller_ok; fields.
      split_and!; [lia|done|done|]. unfold stage_ok; fields. eexists. rewrite lookup_insert_eq. split; [done|].
      by fields.
    + intros i' l' [= <-]. rewrite lookup_insert_eq. intros [= <-]. unfold lookup_ok, done_ok, phase_ok; fields.
      rewrite !lookup_insert_eq. split_and!; auto; [|by apply seen_later with (moment s)].
      eexists. split; [done|]. by fields.
    + intros i' ck [= <-] Hck. destruct (decide (ck_of c = ck)) as [<-|Hne].
      * eexists. rewrite lookup_insert_eq. split; [done|]. by fields.
      * rewrite lookup_insert_ne in Hck by done. destruct (inv_inflight _ HI _ _ Hck) as (? & ? & _). congruence.
    + intros; congruence.
    + intros t' c' i' [= <-] ?. intros ?; congruence.
    + rewrite slots_insert, slots_new by done. cbn [running l_phase]. rewrite Nat.add_0_r. apply HI.
Qed.

(** The query a caller is to start. *)
Lemma at_slot s t c i :
  Inv s → callers s !! t = Some c → c_at c = AtSlot i →
  ∃ l, lookups s !! i = Some l ∧ lookup_ok s i l ∧ l_phase l = Waiting ∧ l_owner l = t ∧ l_ck l = ck_of c ∧
       inflight s !! ck_of c = Some i ∧ l_left l = None.
Proof.
  intros HI Ht Hat. destruct (inv_callers _ HI t c Ht) as (_ & _ & _ & Hst). unfold stage_ok in Hst.
  rewrite Hat in Hst. destruct Hst as (l & Hi & Hp & Ho & Hk & _). exists l.
  pose proof (inv_lookups _ HI i l Hi) as Hok. destruct Hok as (? & ? & Hq & ? & ?).
  rewrite Hp in Hq. destruct (Hq eq_refl). rewrite Hk in *. split_and!; auto. split_and!; auto.
  intros _. rewrite Hk. auto.
Qed.

Lemma Inv_TakeSlot s s' t : Inv s → step_caller clock s (TakeSlot t) = Some s' → Inv (tick s').
Proof.
  intros HI. cbn [step_caller]. destruct (callers s !! t) as [c|] eqn:Ht; [|done].
  destruct (c_at c) as [| | |i| |] eqn:Hat; try done.
  destruct (at_slot s t c i HI Ht Hat) as (l & Hi & Hok & Hp & Ho & Hk & Hin & Hq). rewrite Hi.
  destruct (slots s <? maxLookups)%nat eqn:Hs; [|done]. intros [= <-]. apply Nat.ltb_lt in Hs.
  destruct (inv_callers _ HI t c Ht) as (Hb & Hg & Hact & _).
  unfold active in Hact. rewrite Hat in Hact. destruct Hok as (Hlb & Hlg & Hlq & Hd & Hph).
  unfold phase_ok in Hph. rewrite Hp in Hph. destruct Hph as (_ & Hans & Hseen).
  apply (frame s _ (Some t) (Some i)); fields; try done; auto.
  - intros t' Hne. rewrite lookup_insert_ne; [done|congruence].
  - intros i' Hne. rewrite lookup_insert_ne; [done|congruence].
  - intros t' c' [= <-]. rewrite lookup_insert_eq. intros [= <-]. unfold caller_ok; fields.
    split_and!; [lia|done|auto|]. unfold stage_ok; fields. eexists. rewrite lookup_insert_eq. split; [done|].
    fields. unfold left_after; fields. by rewrite Hq.
  - intros i' l' [= <-]. rewrite lookup_insert_eq. intros [= <-]. unfold lookup_ok, done_ok, phase_ok; fields.
    rewrite Hk. split_and!; auto; [|by apply seen_later with (moment s)]. unfold done_ok in Hd. by rewrite Hp in Hd.
  - intros i' ck [= <-] Hck. eexists. rewrite lookup_insert_eq. split; [done|]. fields.
    destruct (inv_inflight _ HI _ _ Hck) as (l' & ? & ? & _). split; [congruence|done].
  - intros i' l' [= <-] Hl'. eexists. rewrite lookup_insert_eq. split; [done|]. fields.
    assert (l' = l) as -> by congruence. rewrite Ho. auto.
  - intros t' c' i' [= <-] ?. intros ?; congruence.
  - rewrite slots_insert. destruct (inv_slots _ HI) as (Hsl & _). rewrite (slots_at _ _ _ Hi) in Hsl.
    unfold running in *. rewrite Hp in Hsl. fields. lia.
Qed.

Lemma Inv_HangUp s s' t : Inv s → step_caller clock s (HangUp t) = Some s' → Inv (tick s').
Proof.
  intros HI. cbn [step_caller]. destruct (callers s !! t) as [c|] eqn:Ht; [|done].
  destruct (inv_callers _ HI t c Ht) as (Hb & Hg & Hact & _).
  destruct (c_at c) as [| | |i|i|] eqn:Hat; try done.
  2: { intros [= <-]. apply Inv_caller; [done|by intros ? ? ? ?; congruence|]. unfold caller_ok, stage_ok; fields.
       split_and!; [lia|done|done|done]. }
  destruct (at_slot s t c i HI Ht Hat) as (l & Hi & Hok & Hp & Ho & Hk & Hin & Hq). rewrite Hi. intros [= <-].
  destruct Hok as (Hlb & Hlg & _).
  apply (frame s _ (Some t) (Some i)); fields; try done; auto.
  - intros t' Hne. rewrite lookup_insert_ne; [done|congruence].
  - intros i' Hne. rewrite lookup_insert_ne; [done|congruence].
  - intros ck i' Hne. destruct (decide (ck_of c = ck)) as [<-|]; [|by rewrite lookup_delete_ne].
    rewrite lookup_delete_eq. split; congruence.
  - intros t' c' [= <-]. rewrite lookup_insert_eq. intros [= <-]. unfold caller_ok; fields. unfold stage_ok; fields.
    split_and!; [lia|done|done|done].
  - intros i' l' [= <-]. rewrite lookup_insert_eq. intros [= <-]. unfold lookup_ok, done_ok, phase_ok; fields.
    split_and!; auto; [done|]. eexists. split; [done|]. done.
  - intros i' ck [= <-] Hck. apply lookup_delete_Some in Hck as (Hne & Hck).
    destruct (inv_inflight _ HI _ _ Hck) as (l' & ? & ? & _). congruence.
  - intros i' l' [= <-] Hl'. eexists. rewrite lookup_insert_eq. split; [done|]. fields.
    assert (l' = l) as -> by congruence. rewrite Ho. split_and!; [done|done| |done]. intros b Hlt _. unfold left_after; fields. exact Hlt.
  - intros t' c' i' [= <-] ?. intros ?; congruence.
  - rewrite slots_insert. destruct (inv_slots _ HI) as (Hsl & ?). rewrite (slots_at _ _ _ Hi) in Hsl.
    unfold running in *. rewrite Hp in Hsl. fields. lia.
Qed.

(** *** The steps of a query *)

Lemma Inv_query s s' i l l' :
  Inv s → lookups s !! i = Some l → l_phase l ≠ Waiting →
  log s' = log s → moment s' = S (moment s) → callers s' = callers s → lookups s' = <[i:=l']> (lookups s) →
  gen (s_cache s') = gen (s_cache s) → drops (s_cache s') = drops (s_cache s) →
  (∀ ck e, keys (s_cache s') !! ck = Some e →
    keys (s_cache s) !! ck = Some e ∨ entry_held (log s) (S (moment s)) (S (moment s)) ck e) →
  l_ck l' = l_ck l → l_began l' = l_began l →
  l_left l' = (if before_delete (l_phase l) && negb (before_delete (l_phase l')) then Some (moment s) else l_left l) →
  inflight s' = (if before_delete (l_phase l) && negb (before_delete (l_phase l'))
                 then delete (l_ck l) (inflight s) else inflight s) →
  (before_delete (l_phase l') = true → before_delete (l_phase l) = true) →
  (slots s' + (if running l then 1 else 0) = slots s + (if running l' then 1 else 0) ∧ slots s' <= slots s)%nat →
  l_gen l' = l_gen l → done_ok l' → phase_ok s' i l' → Inv s'.
Proof.
  intros HI Hi Hw El Em Ec Elk Eg Ed Ek Eck Eb Elf Ein Hbd Hsl Egl Hdone Hph.
  destruct (inv_lookups _ HI i l Hi) as (Hb & Hg & Hq & _).
  assert (Hown : ∀ ck, inflight s !! ck = Some i → ck = l_ck l ∧ before_delete (l_phase l) = true).
  { intros ck Hck. destruct (inv_inflight _ HI _ _ Hck) as (l0 & ? & ? & ?). assert (l0 = l) as -> by congruence. auto. }
  apply (frame s s' None (Some i)); auto.
  - intros t _. by rewrite Ec.
  - intros i' Hne. rewrite Elk, lookup_insert_ne; [done|congruence].
  - intros ck i' Hne. rewrite Ein. destruct (_ && _) eqn:E; [|done]. apply andb_true_iff in E as [E _]. destruct (Hq E) as (Hin & _).
    destruct (decide (l_ck l = ck)) as [<-|]; [|by rewrite lookup_delete_ne]. rewrite lookup_delete_eq. split; congruence.
  - done.
  - intros i' l0 [= <-]. rewrite Elk, lookup_insert_eq. intros [= <-]. unfold lookup_ok.
    rewrite El, Em, Eck, Eb, Egl. split_and!; [lia|done| |done|done]. intros Hb'. rewrite Ein, Elf, Hb'.
    rewrite andb_false_r. auto.
  - intros i' ck [= <-] Hck. exists l'. rewrite Elk, lookup_insert_eq, Eck. rewrite Ein in Hck.
    destruct (before_delete (l_phase l)) eqn:E1, (before_delete (l_phase l')) eqn:E2; cbn in Hck; auto.
    + destruct (Hown _ Hck). auto.
    + apply lookup_delete_Some in Hck as (Hne & Hck). destruct (Hown _ Hck). congruence.
    + destruct (Hown _ Hck). congruence.
    + destruct (Hown _ Hck). congruence.
  - intros i' l0 [= <-] Hl0. exists l'. rewrite Elk, lookup_insert_eq. assert (l0 = l) as -> by congruence. split_and!; [done..| |done].
    intros b Hlt Hleft. unfold left_after in *. rewrite Elf. by destruct (_ && _).
  - done.
  - rewrite Elk, slots_insert. destruct (inv_slots _ HI) as (Hs & ?). rewrite (slots_at _ _ _ Hi) in Hs.
    destruct Hsl. split; lia.
Qed.

(** What [remember] puts in the cache misses no drop. *)
Lemma remember_held s i l a :
  Z.of_nat (length (log s)) < two64 → Inv s → lookups s !! i = Some l → l_phase l = Remembering → l_answer l = Some a →
  ∀ ck e, keys (remember opts (l_ck l) (l_gen l) (l_drops l) a (clock (moment s)) (s_cache s)) !! ck = Some e →
    keys (s_cache s) !! ck = Some e ∨ entry_held (log s) (S (moment s)) (S (moment s)) ck e.
Proof.
  intros Hlen HI Hi Hp Ha ck e. destruct (inv_lookups _ HI i l Hi) as (Hb & Hg & _ & _ & Hph).
  unfold phase_ok in Hph. rewrite Hp in Hph. destruct Hph as (a' & Ha' & Hr). assert (a' = a) as -> by congruence.
  assert (Hnew : failure a = false → drops (s_cache s) = l_drops l → ∀ x,
    entry_held (log s) (S (moment s)) (S (moment s)) (l_ck l) {| e_answer := a; e_expires := x; e_gen := l_gen l |}).
  { intros Hf Hd x. apply entry_now; [apply HI|]. split; [done|]. exists (l_began l). split; [done|].
    destruct (Hr Hf) as (m & ? & ? & ? & y & Hy & Hdy). exists m. split_and!; [lia|done|done|].
    intros ev Hev Hlt Hdrop _. assert (dropped y (log s) = dropped (moment s) (log s)) as Heq.
    { apply count_wrap; [done|]. rewrite (inv_drops _ HI) in Hd. unfold dropped in *. congruence. }
    enough (ev_at ev < y)%nat by lia. eapply (count_same _ _ (moment s)); [exact Heq|lia|done| |done].
    cbn. by rewrite Hdrop. }
  unfold remember. destruct a as [err|r]; cbn [failure] in *.
  - destruct (isKeyRejection err); [|by auto]. destruct (drops (s_cache s) =? l_drops l) eqn:Hd; [|by auto]. cbn [negb]; fields.
    to_prop. destruct (decide (l_ck l = ck)) as [<-|]; [|by rewrite lookup_insert_ne; auto].
    rewrite lookup_insert_eq. intros [= <-]. right. by apply Hnew.
  - destruct (drops (s_cache s) =? l_drops l) eqn:Hd; [|by auto]. cbn [negb]; fields.
    to_prop. destruct (decide (l_ck l = ck)) as [<-|]; [|by rewrite lookup_insert_ne; auto].
    rewrite lookup_insert_eq. intros [= <-]. right. by apply Hnew.
Qed.

Lemma remember_counters ck g d a now c :
  gen (remember opts ck g d a now c) = gen c ∧ drops (remember opts ck g d a now c) = drops c.
Proof. unfold remember. destruct a; repeat case_match; auto. Qed.

#[local] Ltac query_step HI Hi Hp :=
  eapply Inv_query; [exact HI|exact Hi|by rewrite Hp|reflexivity|reflexivity|reflexivity|reflexivity|..];
  unfold running; rewrite ?Hp; unfold done_ok, phase_ok; fields; auto; try done.

Lemma Inv_lookup s s' i l lab :
  Z.of_nat (length (log s)) < two64 → Inv s → lookups s !! i = Some l →
  step_lookup opts db_at clock s i l lab = Some s' → Inv (tick s').
Proof.
  intros Hlen HI Hi. pose proof (inv_lookups _ HI i l Hi) as Hok. destruct Hok as (Hb & Hg & Hq & Hd & Hph).
  unfold phase_ok in Hph. unfold step_lookup.
  destruct lab; try done; destruct (l_phase l) as [| |e| | | | | |] eqn:Hp; try done.
  - (* LookupRead *) intros [= <-]. destruct Hph as (Hn & Hs).
    query_step HI Hi Hp.
    + unfold done_ok in Hd. by rewrite Hp in Hd.
    + split_and!; [done| |eapply seen_later; [|done]; lia]. intros e0 He0. apply entry_earlier with (moment s); [lia|].
      apply entry_later with (moment s); [lia|]. by apply (inv_keys _ HI).
  - (* LookupCheck *) destruct Hph as (Hn & He & Hs). unfold done_ok in Hd. rewrite Hp in Hd.
    destruct (usable e (l_gen l) (clock (moment s))) as [a|] eqn:Hu; intros [= <-].
    all: query_step HI Hi Hp.
    + exists a. split; [done|]. apply current_later with (moment s); [lia|].
      eapply (usable_current (log s) (moment s)); [done| |done|done|done]. lia.
    + split; [done|]. eapply seen_later; [|done]. lia.
  - (* Query *) intros [= <-]. destruct Hph as (Hn & x & Hx & Hdx). unfold done_ok in Hd. rewrite Hp in Hd.
    query_step HI Hi Hp.
    eexists. split; [done|]. destruct failed; [done|]. intros _. exists (moment s). split_and!; [lia|lia|done|].
    exists x. split; [lia|done].
  - (* Remember *) destruct (l_answer l) as [a|] eqn:Ha; [|done]. intros [= <-]. unfold done_ok in Hd. rewrite Hp in Hd.
    destruct Hph as (a' & Ha' & Hr). injection Ha' as <-.
    destruct (remember_counters (l_ck l) (l_gen l) (l_drops l) a (clock (moment s)) (s_cache s)).
    query_step HI Hi Hp.
    + by eapply remember_held.
    + exists a. split; [done|]. intros Hf. destruct (Hr Hf) as (m & ? & ? & ? & _). exists m. split_and!; [lia|lia|done|].
      intros ev _ ? _ _. lia.
  - (* Close *) intros [= <-]. destruct Hph as (a & Ha & Hc).
    query_step HI Hi Hp.
    exists a. split; [done|]. apply current_later with (moment s); [lia|done].
  - (* Delete *) intros [= <-]. destruct Hph as (a & Ha & Hc). unfold done_ok in Hd. rewrite Hp in Hd.
    query_step HI Hi Hp.
    exists a. split; [done|]. apply current_later with (moment s); [lia|done].
  - (* Release *) intros [= <-]. destruct Hph as (a & Ha & Hc). unfold done_ok in Hd. rewrite Hp in Hd.
    query_step HI Hi Hp.
    + destruct (inv_slots _ HI) as (Hs & _). rewrite (slots_at _ _ _ Hi) in Hs. unfold running in Hs. rewrite Hp in Hs. lia.
    + exists a. split; [done|]. apply current_later with (moment s); [lia|done].
Qed.

(** *** Every step *)

Lemma exec_log s l s' : exec opts db_at clock s l = Some s' → (length (log s) <= length (log s'))%nat.
Proof.
  unfold exec. intros (s0 & Hs & ->)%fmap_Some. cbn [tick update log]. revert Hs.
  assert (Hc : ∀ l, step_caller clock s l = Some s0 → (length (log s) <= length (log s0))%nat).
  { intros l0. destruct l0; cbn; repeat (case_match; try done); intros [= <-]; done. }
  assert (Hl : ∀ i k l, step_lookup opts db_at clock s i k l = Some s0 → (length (log s) <= length (log s0))%nat).
  { intros i k l0. unfold step_lookup. destruct l0; try done; repeat (case_match; try done); intros [= <-]; done. }
  destruct l; cbn [lookup_of]; try (by apply Hc); try (destruct (lookups s !! _); [by apply Hl|done]).
  - intros [= <-]. cbn [update log]. rewrite length_app. lia.
  - intros [= <-]. done.
Qed.

Lemma Inv_exec s l s' :
  Z.of_nat (length (log s')) < two64 → Inv s → exec opts db_at clock s l = Some s' → Inv s'.
Proof.
  intros Hlen HI He. pose proof (exec_log _ _ _ He) as Hle. revert He. unfold exec.
  intros (s0 & Hs & ->)%fmap_Some. revert Hs.
  destruct l; cbn [lookup_of];
    try (destruct (lookups s !! _) eqn:?; [intros Hs; eapply (Inv_lookup s s0); [lia|done|done|done]|done]);
    eauto using Inv_Begin, Inv_ReadCache, Inv_Share, Inv_TakeSlot, Inv_HangUp, Inv_Wake.
  - intros Hs. apply (Inv_CheckCache s s0 t); [lia|done|done].
  - intros [= <-]. by apply Inv_announce.
  - intros [= <-]. apply (frame s _ None None); fields; try done; auto; try (apply HI).
    intros ck e He. left. by apply map_lookup_filter_Some in He as (He & _).
Qed.

Lemma Inv_reachable s : reachable opts db_at clock s → Z.of_nat (length (log s)) < two64 → Inv s.
Proof.
  induction 1 as [|s l s' _ IH He]; intros Hlen.
  - split; unfold start; fields; try done; try (intros ? ? H'; by rewrite lookup_empty in H').
    + by intros ev Hev%not_elem_of_nil.
    + split; [|unfold maxLookups; lia]. unfold slots_held. by rewrite map_filter_empty, map_size_empty.
  - eapply Inv_exec; [done| |done]. apply IH. pose proof (exec_log _ _ _ He). lia.
Qed.
End steps.
End invariant.

(** ** What the cache promises *)

Section promises.
Context `{SHA256}.
Context (opts : Options) (db_at : nat → string → answer) (clock : nat → Z).


(** Concurrent misses on one key share one query, and at most [maxLookups] queries run at once: the slots taken are exactly the queries between their slot and its return, never more than four, and two queries of one key that have not left [inflight] are the same query. *)
Theorem single_flight (s : system) :
  reachable opts db_at clock s → Z.of_nat (length (log s)) < two64 →
  slots s = slots_held (lookups s) ∧ (slots_held (lookups s) <= maxLookups)%nat ∧
  ∀ i j l l', lookups s !! i = Some l → lookups s !! j = Some l' → l_ck l = l_ck l' →
    before_delete (l_phase l) = true → before_delete (l_phase l') = true → i = j.
Proof.
  intros Hr Hlen. pose proof (Inv_reachable db_at opts clock s Hr Hlen) as HI.
  destruct (inv_slots _ _ HI) as (Hs & Hmax). split_and!; [done|lia|]. intros i j l l' Hi Hj Hck Hb Hb'.
  destruct (inv_lookups _ _ HI i l Hi) as (_ & _ & Hq & _), (inv_lookups _ _ HI j l' Hj) as (_ & _ & Hq' & _).
  destruct (Hq Hb) as (Hin & _), (Hq' Hb') as (Hin' & _). rewrite Hck in Hin. congruence.
Qed.

(** The cache never holds a failed query, so an outage does not pin a rejection, and what it holds for a key is what the database said of that key at some moment, no earlier than any announced change of a key or organisation that makes it stale. *)
Theorem cache_truthful (s : system) (ck : string) (e : entry) :
  reachable opts db_at clock s → Z.of_nat (length (log s)) < two64 → keys (s_cache s) !! ck = Some e →
  failure (e_answer e) = false ∧ ∃ m, (m < moment s)%nat ∧ e_answer e = db_at m ck ∧
    ∀ ev, ev ∈ log s → any_event ev = false → stale_by (ev_change ev) (e_answer e) = true → (ev_at ev < m)%nat.
Proof.
  intros Hr Hlen He. pose proof (Inv_reachable db_at opts clock s Hr Hlen) as HI.
  destruct (inv_keys _ _ HI ck e He) as (Hf & n0 & _ & m & ? & _ & ? & Hm). split; [done|]. exists m.
  split_and!; [done|done|]. intros ev Hev Ha Hs. apply Hm; auto. by apply (inv_log _ _ HI).
Qed.

(** *** A query that has a slot ends *)

Lemma steps_app ls1 ls2 : ∀ s s', steps opts db_at clock s ls1 = Some s' →
  steps opts db_at clock s (ls1 ++ ls2) = steps opts db_at clock s' ls2.
Proof.
  induction ls1 as [|l ls1 IH]; intros s s'; cbn; [by intros [= ->]|]. destruct (exec _ _ _ _ _); [apply IH|done].
Qed.

Definition rank (p : phase) : nat :=
  match p with
  | Waiting => 8 | Reading => 7 | Checking _ => 6 | Querying => 5 | Remembering => 4 | Closing => 3 | Deleting => 2
  | Releasing => 1 | Over => 0
  end.

Lemma query_step s i l :
  Inv db_at s → lookups s !! i = Some l → running l = true →
  ∃ lab s' l', lookup_of lab = Some i ∧ exec opts db_at clock s lab = Some s' ∧ lookups s' !! i = Some l' ∧
    (rank (l_phase l') < rank (l_phase l))%nat ∧ callers s' = callers s ∧ log s' = log s ∧
    (l_phase l' = Over ∨ running l' = true).
Proof.
  intros HI Hi Hr. destruct (inv_lookups _ _ HI i l Hi) as (_ & _ & _ & _ & Hph). unfold running in Hr.
  unfold phase_ok in Hph. destruct (l_phase l) as [| |e| | | | | |] eqn:Hp; try done.
  1: exists (LookupRead i). 2: exists (LookupCheck i). 3: exists (Query i None). 4: exists (Remember i).
  5: exists (Close i). 6: exists (Delete i). 7: exists (Release i).
  all: unfold exec; cbn [lookup_of]; rewrite Hi; unfold step_lookup; rewrite Hp.
  2: destruct (usable _ _ _).
  5: destruct Hph as (a & -> & _).
  all: do 2 eexists; split_and!; [done|done| |..]; fields; try apply lookup_insert_eq; fields; cbn [rank]; auto; lia.
Qed.

Lemma query_ends n : ∀ s i l,
  (rank (l_phase l) <= n)%nat → reachable opts db_at clock s → Z.of_nat (length (log s)) < two64 →
  lookups s !! i = Some l → l_phase l = Over ∨ running l = true →
  ∃ ls s' l', Forall (λ lab, lookup_of lab = Some i) ls ∧ (length ls <= n)%nat ∧
    steps opts db_at clock s ls = Some s' ∧ reachable opts db_at clock s' ∧ log s' = log s ∧
    lookups s' !! i = Some l' ∧ l_phase l' = Over ∧ callers s' = callers s.
Proof.
  induction n as [|n IH]; intros s i l Hn Hr Hlen Hi Hl.
  { exists [], s, l. split_and!; auto. unfold running in Hl. destruct (l_phase l); cbn in Hn; try lia. done. }
  destruct Hl as [Ho|Hrun].
  { exists [], s, l. split_and!; auto. cbn. lia. }
  destruct (query_step s i l (Inv_reachable _ _ _ _ Hr Hlen) Hi Hrun) as (lab & s1 & l1 & Hlab & He & Hi1 & Hrk & Hc & Hlog & Hl1).
  destruct (IH s1 i l1) as (ls & s2 & l2 & ? & ? & ? & ? & ? & ? & ? & ?); auto.
  { lia. } { by eapply reach_step. } { by rewrite Hlog. }
  exists (lab :: ls), s2, l2. split_and!; auto; cbn; [lia|by rewrite He|congruence|congruence].
Qed.

(** C34: no caller waits for ever on a query that got its slot: from any reachable state, at most seven steps of that query alone, whatever else is running, close its channel with an answer, take it out of [inflight] and give the slot back; no caller is touched, so every caller waiting on it can then return, and does with that answer. *)
Theorem Resolve_answers (s : system) (i t : nat) (l : lookup) (c : caller) :
  reachable opts db_at clock s → Z.of_nat (length (log s)) < two64 →
  lookups s !! i = Some l → running l = true → callers s !! t = Some c → c_at c = AtWait i →
  ∃ ls s' a c', Forall (λ lab, lookup_of lab = Some i) ls ∧ (length ls <= 7)%nat ∧
    steps opts db_at clock s (ls ++ [Wake t]) = Some s' ∧ inflight s' !! l_ck l ≠ Some i ∧
    callers s' !! t = Some c' ∧ c_at c' = Returned (Answered a).
Proof.
  intros Hr Hlen Hi Hrun Ht Hat.
  destruct (query_ends 7 s i l) as (ls & s' & l' & Hls & Hn & Hst & Hr' & Hlog & Hi' & Ho & Hc); auto.
  { unfold running in Hrun. destruct (l_phase l); try done; cbn; lia. }
  pose proof (Inv_reachable db_at opts clock s' Hr' ltac:(by rewrite Hlog)) as HI.
  destruct (inv_lookups _ _ HI i l' Hi') as (_ & _ & _ & Hd & Hph). unfold done_ok, phase_ok in Hd, Hph.
  rewrite Ho in Hd, Hph. destruct Hph as (a & Ha & _). exists ls. rewrite (steps_app _ _ _ _ Hst). cbn [steps].
  unfold exec. cbn [lookup_of step_caller]. rewrite Hc, Ht, Hat, Hi', Hd, Ha. cbn [fmap option_fmap option_map].
  do 3 eexists. split_and!; [done|lia|done| |fields; apply lookup_insert_eq|done].
  fields. intros Hin. destruct (inv_inflight _ _ HI _ _ Hin) as (l2 & Hl2 & _ & Hb).
  assert (l2 = l') as -> by congruence. by rewrite Ho in Hb.
Qed.
End promises.

(** ** On concrete histories *)

Section examples.
Instance plain_digest : SHA256 := {| Sum256 s := s |}.

Definition sample_opts : Options :=
  setDefaults {| TTL := 0; NegativeTTL := 0; SpendRefresh := 0; o_Platform := ∅; Prepaid := false; GatewayFee := 0 |}.

Definition sample_row : Resolved := Resolve sample_key None None None.

(** The sample key is valid until the eighth step, and revoked from then on. *)
Definition revoked_at_8 (m : nat) (_ : string) : answer := if (m <? 8)%nat then inr sample_row else inl ErrKeyRevoked.

Definition sample_run (ls : list label) : option system := run sample_opts revoked_at_8 (λ m, Z.of_nat m) ls.

Definition query_of (t i : nat) : list label :=
  [Begin t sample_token; ReadCache t; CheckCache t; Share t i; TakeSlot t; LookupRead i; LookupCheck i; Query i None].

Definition finish (i : nat) : list label := [Remember i; Close i; Delete i; Release i].

(** A caller that starts its query after the change. *)
Definition asked_after : option system :=
  sample_run (query_of 1 0 ++ [Announce (KeyChange (Key_ID sample_key))] ++ finish 0 ++ [Wake 1] ++
              query_of 2 1 ++ finish 1 ++ [Wake 2]).

(** One that shares the query of a caller that began before it. *)
Definition asked_during : option system :=
  sample_run (query_of 1 0 ++ [Announce (KeyChange (Key_ID sample_key))] ++
              [Begin 2 sample_token; ReadCache 2; CheckCache 2; Share 2 1] ++ finish 0 ++ [Wake 2]).

Definition stage_of (s : option system) (t : nat) : option stage := c_at <$> (s ≫= λ s, callers s !! t).

Lemma steps_reachable opts db clock ls : ∀ s s',
  reachable opts db clock s → steps opts db clock s ls = Some s' → reachable opts db clock s'.
Proof.
  induction ls as [|l ls IH]; intros s s' Hr; cbn; [by intros [= <-]|].
  destruct (exec _ _ _ _ _) eqn:He; [|done]. apply IH. by eapply reach_step.
Qed.

(** A change of a key does not reach the queries under way: a call that begins after the change is announced, and after the database says the key is revoked, can share a query that read the key before, and be told that it is valid. *)
Lemma shared_query_misses_change :
  stage_of asked_during 2 = Some (Returned (Answered (inr sample_row))) ∧
  (c_began <$> (asked_during ≫= λ s, callers s !! 2%nat)) = Some 9%nat ∧
  (map (λ ev, (ev_at ev, ev_change ev)) <$> (log <$> asked_during)) = Some [(8%nat, KeyChange (Key_ID sample_key))] ∧
  stage_of asked_after 2 = Some (Returned (Answered (inl ErrKeyRevoked))).
Proof. repeat split; vm_compute; reflexivity. Qed.

Definition the (o : option system) : system := match o with Some s => s | None => start end.

Lemma the_reachable ls : sample_run ls ≠ None → reachable sample_opts revoked_at_8 (λ m, Z.of_nat m) (the (sample_run ls)).
Proof.
  intros Hr. unfold sample_run, run in *. destruct (steps _ _ _ _ _) eqn:He; [|done].
  eapply steps_reachable; [apply reach_start|done].
Qed.

Lemma asked_after_reachable : reachable sample_opts revoked_at_8 (λ m, Z.of_nat m) (the asked_after).
Proof. apply the_reachable. vm_compute. discriminate. Qed.

(** In the middle of the second query. *)
Definition asking : option system :=
  sample_run (query_of 1 0 ++ [Begin 2 sample_token; ReadCache 2; CheckCache 2; Share 2 1]).

Lemma asking_reachable : reachable sample_opts revoked_at_8 (λ m, Z.of_nat m) (the asking).
Proof. apply the_reachable. vm_compute. discriminate. Qed.


Lemma single_flight_witness : slots (the asking) = slots_held (lookups (the asking)) ∧ slots (the asking) = 1%nat.
Proof.
  split; [|vm_compute; reflexivity].
  apply (single_flight sample_opts revoked_at_8 (λ m, Z.of_nat m) (the asking) asking_reachable).
  vm_compute. reflexivity.
Defined.

Lemma cache_truthful_witness :
  ∃ e, keys (s_cache (the asked_after)) !! Hash sample_token = Some e ∧ failure (e_answer e) = false.
Proof.
  eexists. split; [vm_compute; reflexivity|].
  eapply (cache_truthful sample_opts revoked_at_8 (λ m, Z.of_nat m) (the asked_after) (Hash sample_token));
    [exact asked_after_reachable|vm_compute; reflexivity|vm_compute; reflexivity].
Defined.

Lemma Resolve_answers_witness :
  ∃ ls s' a c', (length ls <= 7)%nat ∧
    steps sample_opts revoked_at_8 (λ m, Z.of_nat m) (the asking) (ls ++ [Wake 2]) = Some s' ∧
    callers s' !! 2%nat = Some c' ∧ c_at c' = Returned (Answered a).
Proof.
  destruct (Resolve_answers sample_opts revoked_at_8 (λ m, Z.of_nat m) (the asking) 0 2 _ _ asking_reachable
    ltac:(vm_compute; reflexivity) ltac:(vm_compute; reflexivity) ltac:(vm_compute; reflexivity)
    ltac:(vm_compute; reflexivity) ltac:(reflexivity)) as (ls & s' & a & c' & _ & Hn & Hs & _ & Hc & Ha).
  exists ls, s', a, c'. split_and!; [exact Hn|exact Hs|exact Hc|exact Ha].
Defined.
End examples.
