(* ===== verification/Credit.v ===== *)
(** * Credit and payments in the database

    [internal/store/credit.go], [charges.go] and the credit of [billing.go]:
    the accounts, payments and recurring charges of the database, and every
    transaction that changes them. Each is one step, since Postgres runs them
    one after another; a transaction that fails changes nothing. The dates of
    a charge's periods are Postgres' interval arithmetic, a parameter. *)
From S2P Require Import Prelude GoTime Tenancy Pricing.
Open Scope go_scope.

(** ** Rows *)

(** [credit_accounts]; a NULL is [None]. *)
Record account := {
  balance : Z;
  topup_below : Z;
  topup : Z;
  card_token : option Z;
  card_label : option string;
  card_expires : option Z;
  topup_error : option string;
  invoiced : bool;
}.

#[export] Instance account_updatable : Updatable account := λ a,
  {| balance := balance a; topup_below := topup_below a; topup := topup a; card_token := card_token a;
     card_label := card_label a; card_expires := card_expires a; topup_error := topup_error a; invoiced := invoiced a |}.

(** What an INSERT without values leaves. *)
Definition new_account : account :=
  {| balance := 0; topup_below := 0; topup := 0; card_token := None; card_label := None; card_expires := None;
     topup_error := None; invoiced := false |}.

Inductive PaymentKind := PaymentTopUp | PaymentAuto | PaymentGrant | PaymentCharge.
Inductive PaymentState := PaymentPending | PaymentPaid | PaymentFailed.

#[export] Instance PaymentKind_eq_dec : EqDecision PaymentKind.
Proof. solve_decision. Defined.
#[export] Instance PaymentState_eq_dec : EqDecision PaymentState.
Proof. solve_decision. Defined.

(** [Payment]. A zero transaction id, an empty note, charge or item and a nil
    time are NULL in the database. *)
Record Payment := {
  Pm_ID : string;
  Pm_OrgID : string;
  CreatedAt : Z;
  Pm_Kind : PaymentKind;
  AmountMicros : Z;
  VATMicros : Z;
  FeeMicros : Z;
  State : PaymentState;
  SaveCard : bool;
  TransactionID : Z;
  Actor : string;
  Note : string;
  SettledAt : option Z;
  ChargeID : string;
  Item : string;
  PeriodStart : option Z;
  PeriodEnd : option Z;
}.

#[export] Instance Payment_updatable : Updatable Payment := λ p,
  {| Pm_ID := Pm_ID p; Pm_OrgID := Pm_OrgID p; CreatedAt := CreatedAt p; Pm_Kind := Pm_Kind p;
     AmountMicros := AmountMicros p; VATMicros := VATMicros p; FeeMicros := FeeMicros p; State := State p;
     SaveCard := SaveCard p; TransactionID := TransactionID p; Actor := Actor p; Note := Note p;
     SettledAt := SettledAt p; ChargeID := ChargeID p; Item := Item p; PeriodStart := PeriodStart p;
     PeriodEnd := PeriodEnd p |}.

(** [recurring_charges]. *)
Record charge := {
  ch_org : string;
  ch_name : string;
  ch_micros : Z;
  ch_every : string;
  starts_on : string;
  paid_periods : nat;
  ch_error : option string;
  ch_actor : string;
}.

#[export] Instance charge_updatable : Updatable charge := λ c,
  {| ch_org := ch_org c; ch_name := ch_name c; ch_micros := ch_micros c; ch_every := ch_every c;
     starts_on := starts_on c; paid_periods := paid_periods c; ch_error := ch_error c; ch_actor := ch_actor c |}.

(** What of the database this is about; [orgs] says which are limited. *)
Record bank := {
  orgs : gmap string bool;
  accounts : gmap string account;
  payments : gmap string Payment;
  charges : gmap string charge;
}.

#[export] Instance bank_updatable : Updatable bank := λ b,
  {| orgs := orgs b; accounts := accounts b; payments := payments b; charges := charges b |}.

Inductive db_error := ErrNotFound | ErrTopUpUnderway | ErrDatabase.

(** When the period of a charge that starts on a day, by its length and number,
    is due. *)
Class Intervals := { period : string → string → nat → Z }.

Definition minutes10 : Z := 10 * Minute.

Section store.
Context `{Intervals}.

(** [chargeDue] and [chargeDueUntil]. *)
Definition chargeDue (c : charge) : Z := period (starts_on c) (ch_every c) (paid_periods c).
Definition chargeDueUntil (c : charge) : Z := period (starts_on c) (ch_every c) (S (paid_periods c)).

Definition some_payment (b : bank) (P : Payment → bool) : bool := existsb (λ kp, P kp.2) (map_to_list (payments b)).

(** [topUpIsDue], for an organisation and its account, at [now]. *)
Definition topUpIsDue (b : bank) (now : Z) (org : string) (a : account) : bool :=
  bool_decide (is_Some (card_token a)) && (0 <? topup a) && (balance a <? topup_below a) &&
  bool_decide (topup_error a = None) && negb (invoiced a) &&
  negb (some_payment b (λ p, bool_decide (Pm_OrgID p = org) && bool_decide (Pm_Kind p = PaymentAuto) &&
                             bool_decide (State p = PaymentPending))) &&
  negb (some_payment b (λ p, bool_decide (Pm_OrgID p = org) && bool_decide (Pm_Kind p = PaymentAuto) &&
                             (now - minutes10 <? CreatedAt p))).

(** [chargeIsDue], for a charge, its id and its account. *)
Definition chargeIsDue (b : bank) (now : Z) (id : string) (c : charge) (a : account) : bool :=
  bool_decide (is_Some (card_token a)) && bool_decide (ch_error c = None) && (chargeDue c <=? now) &&
  negb (some_payment b (λ p, bool_decide (Pm_OrgID p = ch_org c) && bool_decide (ChargeID p = id) &&
                             bool_decide (State p = PaymentPending) &&
                             (negb (SaveCard p) || (now - Hour <? CreatedAt p)))) &&
  negb (some_payment b (λ p, bool_decide (Pm_OrgID p = ch_org c) && bool_decide (ChargeID p = id) &&
                             negb (SaveCard p) && (now - minutes10 <? CreatedAt p))).

(** The condition of [CreatePayment]'s SELECT. *)
Definition still_due (b : bank) (now : Z) (p : Payment) : bool :=
  match Pm_Kind p with
  | PaymentAuto =>
      match accounts b !! Pm_OrgID p, orgs b !! Pm_OrgID p with
      | Some a, Some _ => topUpIsDue b now (Pm_OrgID p) a
      | _, _ => false
      end
  | PaymentCharge =>
      if negb (SaveCard p) then
        match charges b !! ChargeID p with
        | Some c =>
            match accounts b !! ch_org c with
            | Some a => bool_decide (ch_org c = Pm_OrgID p) && bool_decide (PeriodStart p = Some (chargeDue c)) &&
                        chargeIsDue b now (ChargeID p) c a
            | None => false
            end
        | None => false
        end
      else negb (some_payment b (λ q, bool_decide (Pm_Kind q = PaymentCharge) && bool_decide (ChargeID q = ChargeID p) &&
                                      bool_decide (State q = PaymentPending) && negb (SaveCard q)))
  | _ => true
  end.

(** The two partial unique indices of the payments. *)
Definition one_auto (p : Payment) : bool := bool_decide (Pm_Kind p = PaymentAuto) && bool_decide (State p = PaymentPending).

Definition one_charge (p : Payment) : bool :=
  bool_decide (Pm_Kind p = PaymentCharge) && bool_decide (State p = PaymentPending) && negb (SaveCard p).

Definition violates_index (b : bank) (p : Payment) : bool :=
  (one_auto p && some_payment b (λ q, one_auto q && bool_decide (Pm_OrgID q = Pm_OrgID p))) ||
  (one_charge p && some_payment b (λ q, one_charge q && bool_decide (ChargeID q = ChargeID p))).

(** [CreatePayment]: the row it inserts has the state, time and transaction of a new one. *)
Definition CreatePayment (b : bank) (now : Z) (p : Payment) : bank * option db_error :=
  let row := p <| State := PaymentPending |> <| CreatedAt := now |> <| TransactionID := 0 |> <| Note := "" |>
               <| SettledAt := None |> in
  if negb (still_due b now p) then (b, Some ErrTopUpUnderway)
  else if bool_decide (is_Some (payments b !! Pm_ID p)) then (b, Some ErrDatabase)
  else if violates_index b row then (b, Some ErrTopUpUnderway)
  else (b <| payments := <[Pm_ID p := row]> (payments b) |>, None).

(** [SetTransaction]; a transaction is tied to one payment. *)
Definition SetTransaction (b : bank) (id : string) (tx : Z) : bank * option db_error :=
  match payments b !! id with
  | None => (b, Some ErrNotFound)
  | Some p =>
      if negb (bool_decide (State p = PaymentPending)) then (b, Some ErrNotFound)
      else if existsb (λ kq, (TransactionID kq.2 =? tx) && negb (bool_decide (kq.1 = id))) (map_to_list (payments b))
      then (b, Some ErrDatabase)
      else (b <| payments := <[id := p <| TransactionID := tx |>]> (payments b) |>, None)
  end.

(** [addCredit]; a balance beyond a bigint fails. *)
Definition addCredit (b : bank) (org : string) (micros : Z) : option bank :=
  let a := default new_account (accounts b !! org) in
  if bool_decide (in_int64 (balance a + micros))
  then Some (b <| accounts := <[org := a <| balance := balance a + micros |>]> (accounts b) |>) else None.

(** [Grant]. *)
Definition Grant (b : bank) (now : Z) (p : Payment) : bank * (db_error + Payment) :=
  let row := {| Pm_ID := Pm_ID p; Pm_OrgID := Pm_OrgID p; CreatedAt := now; Pm_Kind := PaymentGrant;
                AmountMicros := AmountMicros p; VATMicros := 0; FeeMicros := 0; State := PaymentPaid; SaveCard := false;
                TransactionID := 0; Actor := Actor p; Note := Note p; SettledAt := Some now; ChargeID := ""; Item := "";
                PeriodStart := None; PeriodEnd := None |} in
  if bool_decide (is_Some (payments b !! Pm_ID p)) then (b, inl ErrDatabase)
  else match addCredit (b <| payments := <[Pm_ID p := row]> (payments b) |>) (Pm_OrgID p) (AmountMicros p) with
       | Some b => (b, inr row)
       | None => (b, inl ErrDatabase)
       end.

(** [payPeriod]: was the period paid already? *)
Definition payPeriod (b : bank) (p : Payment) : bank * bool :=
  match charges b !! ChargeID p with
  | None => (b, false)
  | Some c =>
      if bool_decide (PeriodStart p = Some (chargeDue c))
      then (b <| charges := <[ChargeID p := c <| paid_periods := S (paid_periods c) |>]> (charges b) |>, false)
      else (b, true)
  end.

(** [Settlement] and [Settled]; a token of zero saves no card. *)
Record SavedCard := { Label : string; ExpiresAt : option Z }.

Record Settlement := { Paid : bool; how_Note : string; Card : option SavedCard; Token : Z; Retry : bool }.

Record Settled := { s_Payment : Payment; Ended : bool; OldToken : Z; Lifted : bool; Twice : bool }.

(** What a payment that was paid changes besides its row and credit. *)
Definition settle_paid (b : bank) (org : string) (how : Settlement) : bank * (Z * bool) :=
  let lifted := bool_decide (orgs b !! org = Some true) in
  let b := if lifted then b <| orgs := <[org := false]> (orgs b) |> else b in
  let b := b <| charges := (λ c, if bool_decide (ch_org c = org) then c <| ch_error := None |> else c) <$> charges b |> in
  let a := default new_account (accounts b !! org) in
  let a' := a <| topup_error := None |> in
  let '(a', old) :=
    match Card how with
    | Some card =>
        if negb (Token how =? 0)
        then (a' <| card_token := Some (Token how) |> <| card_label := Some (Label card) |>
                 <| card_expires := ExpiresAt card |>,
              match card_token a with Some t => if t =? Token how then 0 else t | None => 0 end)
        else (a', 0)
    | None => (a', 0)
    end in
  (b <| accounts := <[org := a']> (accounts b) |>, (old, lifted)).

(** [Settle]. *)
Definition Settle (b : bank) (now : Z) (id : string) (how : Settlement) : bank * (db_error + Settled) :=
  match payments b !! id with
  | None => (b, inl ErrNotFound)
  | Some p =>
      if negb (bool_decide (State p = PaymentPending) || (bool_decide (State p = PaymentFailed) && Paid how)) then
        (b, inr {| s_Payment := p; Ended := false; OldToken := 0; Lifted := false; Twice := false |})
      else
        let p := p <| State := if Paid how then PaymentPaid else PaymentFailed |> <| Note := how_Note how |>
                   <| SettledAt := Some now |> in
        let b1 := b <| payments := <[id := p]> (payments b) |> in
        if Paid how then
          match (if bool_decide (Pm_Kind p = PaymentCharge) then Some (payPeriod b1 p)
                 else (λ b, (b, false)) <$> addCredit b1 (Pm_OrgID p) (AmountMicros p)) with
          | None => (b, inl ErrDatabase)
          | Some (b2, twice) =>
              let '(b3, (old, lifted)) := settle_paid b2 (Pm_OrgID p) how in
              (b3, inr {| s_Payment := p; Ended := true; OldToken := old; Lifted := lifted; Twice := twice |})
          end
        else
          let done := {| s_Payment := p; Ended := true; OldToken := 0; Lifted := false; Twice := false |} in
          if bool_decide (Pm_Kind p = PaymentAuto) && negb (Retry how) then
            (b1 <| accounts := alter (λ a, a <| topup_error := Some (how_Note how) |>) (Pm_OrgID p) (accounts b1) |>, inr done)
          else if bool_decide (Pm_Kind p = PaymentCharge) && negb (SaveCard p) && negb (Retry how) then
            (b1 <| charges := alter (λ c, c <| ch_error := Some (how_Note how) |>) (ChargeID p) (charges b1) |>, inr done)
          else (b1, inr done)
  end.

(** [UpdateCredit]; a [None] is left as it is. *)
Definition UpdateCredit (b : bank) (org : string) (below amount : option Z) (inv : option bool) : bank :=
  let a := default new_account (accounts b !! org) in
  let tried := bool_decide (is_Some below) || bool_decide (is_Some amount) in
  b <| accounts := <[org := a <| topup_below := default (topup_below a) below |> <| topup := default (topup a) amount |>
                              <| invoiced := default (invoiced a) inv |>
                              <| topup_error := if tried then None else topup_error a |>]> (accounts b) |>.

(** [ForgetCard]: the token it forgot, zero for none. *)
Definition ForgetCard (b : bank) (org : string) : bank * Z :=
  match accounts b !! org with
  | None => (b, 0)
  | Some a =>
      (b <| accounts := <[org := a <| card_token := None |> <| card_label := None |> <| card_expires := None |>
                                  <| topup_below := 0 |> <| topup := 0 |>]> (accounts b) |>, default 0 (card_token a))
  end.

(** The constraints of [recurring_charges]. *)
Definition charge_allowed (c : charge) : bool :=
  (0 <? ch_micros c) && (bool_decide (ch_every c = "month") || bool_decide (ch_every c = "year")).

(** [CreateCharge] and [DeleteCharge]. *)
Definition CreateCharge (b : bank) (id : string) (c : charge) : bank * option db_error :=
  if negb (charge_allowed c) then (b, Some ErrDatabase)
  else if bool_decide (is_Some (charges b !! id)) then (b, Some ErrDatabase)
  else if bool_decide (orgs b !! ch_org c = None) then (b, Some ErrNotFound)
  else (b <| accounts := <[ch_org c := default new_account (accounts b !! ch_org c)]> (accounts b) |>
          <| charges := <[id := c <| paid_periods := 0%nat |> <| ch_error := None |>]> (charges b) |>, None).

Definition DeleteCharge (b : bank) (id : string) : bank * option db_error :=
  match charges b !! id with
  | None => (b, Some ErrNotFound)
  | Some _ => (b <| charges := delete id (charges b) |>, None)
  end.

(** [queueCredit]: what each organisation's events cost its credit, taken in
    the order of the organisations. *)
Definition credit_used (events : list (string * list BillLine)) : gmap string Z :=
  foldl (λ used e, foldl (λ used l, if negb (CreditMicros l =? 0)
    then <[e.1 := add64 (default 0 (used !! e.1)) (CreditMicros l)]> used else used) used e.2) ∅ events.

Definition queueCredit (b : bank) (events : list (string * list BillLine)) : option bank :=
  let used := credit_used events in
  foldl (λ b org, match b with
    | Some b => addCredit b org (- default 0 (used !! org))
    | None => None
    end) (Some b) (sorted_keys used).

(** [DueTopUps] and [DueCharges], without their limits and order. *)
Definition DueTopUps (b : bank) (now : Z) : list (string * account) :=
  filter (λ p, bool_decide (is_Some (orgs b !! p.1)) && topUpIsDue b now p.1 p.2 = true) (map_to_list (accounts b)).

Definition DueCharges (b : bank) (now : Z) : list (string * charge) :=
  filter (λ p, match accounts b !! ch_org p.2 with Some a => chargeIsDue b now p.1 p.2 a | None => false end = true)
    (map_to_list (charges b)).

(** ** Sequences of transactions *)

Inductive bank_op :=
  | OpCreate (now : Z) (p : Payment)
  | OpTransaction (id : string) (tx : Z)
  | OpGrant (now : Z) (p : Payment)
  | OpSettle (now : Z) (id : string) (how : Settlement)
  | OpUpdate (org : string) (below amount : option Z) (inv : option bool)
  | OpForget (org : string)
  | OpCreateCharge (id : string) (c : charge)
  | OpDeleteCharge (id : string)
  | OpUse (events : list (string * list BillLine)).

Definition bank_step (b : bank) (o : bank_op) : bank :=
  match o with
  | OpCreate now p => (CreatePayment b now p).1
  | OpTransaction id tx => (SetTransaction b id tx).1
  | OpGrant now p => (Grant b now p).1
  | OpSettle now id how => (Settle b now id how).1
  | OpUpdate org below amount inv => UpdateCredit b org below amount inv
  | OpForget org => (ForgetCard b org).1
  | OpCreateCharge id c => (CreateCharge b id c).1
  | OpDeleteCharge id => (DeleteCharge b id).1
  | OpUse events => default b (queueCredit b events)
  end.
End store.

(** ** Sums over a table *)

Definition total {A} (f : A → Z) (m : gmap string A) : Z := foldr (λ kp s, f kp.2 + s) 0 (map_to_list m).

Section totals.
Context {A : Type} (f : A → Z).
Implicit Types (m : gmap string A).

Lemma total_perm (l l' : list (string * A)) : l ≡ₚ l' → foldr (λ kp s, f kp.2 + s) 0 l = foldr (λ kp s, f kp.2 + s) 0 l'.
Proof. induction 1; cbn; lia. Qed.

Lemma total_new m i x : m !! i = None → total f (<[i:=x]> m) = f x + total f m.
Proof. intros Hi. unfold total. rewrite (total_perm _ _ (map_to_list_insert m i x Hi)). done. Qed.

Lemma total_change m i x y : m !! i = Some x → total f (<[i:=y]> m) = total f m - f x + f y.
Proof.
  intros Hi. rewrite <- (insert_id m i x Hi) at 2. rewrite <- !(insert_delete_eq m i).
  rewrite !total_new by apply lookup_delete_eq. lia.
Qed.

Lemma total_insert m i y : total f (<[i:=y]> m) = total f m - from_option f 0 (m !! i) + f y.
Proof. destruct (m !! i) as [x|] eqn:Hi; cbn; [by apply total_change|]. rewrite total_new by done. lia. Qed.
End totals.

(** ** Every franc of credit was paid or granted *)

(** What a payment adds to its organisation's credit. *)
Definition credited (org : string) (p : Payment) : Z :=
  if bool_decide (Pm_OrgID p = org) && bool_decide (State p = PaymentPaid) && negb (bool_decide (Pm_Kind p = PaymentCharge))
  then AmountMicros p else 0.

Definition balance_of (b : bank) (org : string) : Z := from_option balance 0 (accounts b !! org).

(** What the events of a step took from an organisation's credit. *)
Definition used_by `{Intervals} (b : bank) (o : bank_op) (org : string) : Z :=
  match o with
  | OpUse events => match queueCredit b events with Some _ => default 0 (credit_used events !! org) | None => 0 end
  | _ => 0
  end.

Section conservation.
Context `{Intervals}.
Implicit Types (b : bank) (p : Payment).

Lemma balance_insert b org o a :
  balance_of (b <| accounts := <[o:=a]> (accounts b) |>) org = if bool_decide (org = o) then balance a else balance_of b org.
Proof.
  unfold balance_of. cbn [update accounts]. case_bool_decide as Ho; [subst; by rewrite lookup_insert_eq|].
  by rewrite lookup_insert_ne.
Qed.

Lemma addCredit_balance b org micros b' : addCredit b org micros = Some b' →
  payments b' = payments b ∧ charges b' = charges b ∧
  ∀ o, balance_of b' o = balance_of b o + if bool_decide (o = org) then micros else 0.
Proof.
  unfold addCredit. case_bool_decide; [|done]. intros [= <-]. split_and!; [done|done|]. intros o. rewrite balance_insert.
  case_bool_decide; [|lia]. subst. unfold balance_of. by destruct (accounts b !! org); cbn.
Qed.

Lemma settle_paid_balance b org how b' x : settle_paid b org how = (b', x) →
  payments b' = payments b ∧ ∀ o, balance_of b' o = balance_of b o.
Proof.
  unfold settle_paid. set (b1 := if bool_decide _ then _ else b).
  assert (payments b1 = payments b ∧ accounts b1 = accounts b) as (Hp & Ha) by (unfold b1; by case_bool_decide).
  cbn [update accounts]. rewrite Ha.
  assert (balance (default new_account (accounts b !! org)) = balance_of b org) as Hbal
    by (unfold balance_of; by destruct (accounts b !! org)).
  destruct (Card how) as [card|]; [destruct (negb (Token how =? 0))|]; intros [= <- _]; (split; [done|]); intros o;
    unfold balance_of at 1; cbn [update accounts]; (destruct (decide (o = org)) as [->|];
      [rewrite lookup_insert_eq; cbn [from_option update balance]; exact Hbal|by rewrite lookup_insert_ne by done]).
Qed.

Lemma queueCredit_balance events b b' : queueCredit b events = Some b' →
  payments b' = payments b ∧ charges b' = charges b ∧ ∀ o, balance_of b' o = balance_of b o - default 0 (credit_used events !! o).
Proof.
  unfold queueCredit. set (used := credit_used events). clearbody used. clear events.
  assert (∀ ks b b', NoDup ks → foldl (λ (ob : option bank) org, match ob with Some b => addCredit b org (- default 0 (used !! org)) | None => None end) (Some b) ks = Some b' →
    payments b' = payments b ∧ charges b' = charges b ∧
    ∀ o, balance_of b' o = balance_of b o - if bool_decide (o ∈ ks) then default 0 (used !! o) else 0) as Hks.
  { clear b b'. induction ks as [|k ks IH]; intros b b' Hnd; cbn [foldl].
    - intros [= <-]. split_and!; [done|done|]. intros o. rewrite bool_decide_eq_false_2 by apply not_elem_of_nil. lia.
    - apply NoDup_cons in Hnd as (Hk & Hnd). destruct (addCredit b k _) as [b1|] eqn:E1.
      + intros Hf. destruct (IH _ _ Hnd Hf) as (-> & -> & Hb). destruct (addCredit_balance _ _ _ _ E1) as (-> & -> & Hb1).
        split_and!; [done|done|]. intros o. rewrite Hb, Hb1. destruct (decide (o = k)) as [->|Hne].
        * rewrite (bool_decide_eq_true_2 (k = k)), (bool_decide_eq_false_2 (k ∈ ks)), (bool_decide_eq_true_2 (k ∈ k :: ks)) by (done || left). lia.
        * rewrite (bool_decide_eq_false_2 (o = k)) by done. rewrite (bool_decide_ext (o ∈ k :: ks) (o ∈ ks)); [lia|].
          rewrite elem_of_cons. naive_solver.
      + intros Hf. exfalso. clear - Hf. induction ks; cbn in Hf; [done|]. auto. }
  intros Hq. destruct (Hks _ _ _ (NoDup_sorted_keys used) Hq) as (-> & -> & Hb). split_and!; [done|done|]. intros o. rewrite Hb.
  case_bool_decide as Hin; [done|]. rewrite elem_of_sorted_keys in Hin. destruct (used !! o) eqn:E; [|done]. destruct Hin. by exists z.
Qed.

(** What one transaction does to an organisation's credit and to the payments that were paid. *)
Lemma step_conserves b o org :
  balance_of (bank_step b o) org + used_by b o org - total (credited org) (payments (bank_step b o)) =
  balance_of b org - total (credited org) (payments b).
Proof.
  destruct o as [now p|id tx|now p|now id how|o below amount inv|o|id c|id|events]; cbn [bank_step used_by].
  - unfold CreatePayment. destruct (negb (still_due _ _ _)); cbn [fst]; [lia|].
    case_bool_decide as Hx; cbn [fst]; [lia|]. destruct (violates_index _ _); cbn [fst]; [lia|].
    cbn [update payments]. rewrite total_new by (destruct (payments b !! Pm_ID p) eqn:E; [destruct Hx; eauto|done]).
    unfold credited at 1. cbn [update State]. rewrite (bool_decide_eq_false_2 (PaymentPending = PaymentPaid)) by done.
    rewrite andb_false_r. cbn [andb]. unfold balance_of. cbn [update accounts]. lia.
  - unfold SetTransaction. destruct (payments b !! id) as [p|] eqn:E; cbn [fst]; [|lia].
    destruct (negb _); cbn [fst]; [lia|]. destruct (existsb _ _); cbn [fst]; [lia|]. cbn [update payments].
    rewrite (total_change _ _ _ p) by done.
    assert (credited org (p <| TransactionID := tx |>) = credited org p) as -> by done. unfold balance_of. cbn [update accounts]. lia.
  - unfold Grant. case_bool_decide as Hx; cbn [fst]; [lia|]. set (row := {| Pm_ID := _ |}).
    destruct (addCredit _ _ _) as [b'|] eqn:E; cbn [fst]; [|lia].
    destruct (addCredit_balance _ _ _ _ E) as (-> & _ & Hb). rewrite Hb. cbn [update payments].
    rewrite total_new by (destruct (payments b !! Pm_ID p) eqn:Ep; [destruct Hx; eauto|done]).
    unfold credited at 1. cbn [row Pm_OrgID State Pm_Kind AmountMicros].
    rewrite (bool_decide_eq_true_2 (PaymentPaid = PaymentPaid)), (bool_decide_eq_false_2 (PaymentGrant = PaymentCharge)) by done.
    rewrite !andb_true_r. rewrite (bool_decide_ext (Pm_OrgID p = org) (org = Pm_OrgID p)) by done.
    change (balance_of (b <| payments := _ |>) org) with (balance_of b org). case_bool_decide; lia.
  - unfold Settle. destruct (payments b !! id) as [p|] eqn:E; cbn [fst]; [|lia].
    destruct (negb _) eqn:Hst; cbn [fst]; [lia|]. apply negb_false_iff in Hst.
    assert (Hnp : credited org p = 0).
    { unfold credited. rewrite (bool_decide_eq_false_2 (State p = PaymentPaid)); [by rewrite andb_false_r|].
      intros Hp. rewrite Hp in Hst. by apply orb_true_iff in Hst as [Hst|Hst]. }
    set (p' := p <| State := _ |> <| Note := _ |> <| SettledAt := _ |>).
    set (b1 := b <| payments := <[id:=p']> (payments b) |>).
    assert (Ht : total (credited org) (payments b1) = total (credited org) (payments b) + credited org p').
    { cbn [b1 update payments]. rewrite (total_change _ _ _ p) by done. lia. }
    assert (Hb1 : balance_of b1 org = balance_of b org) by done.
    destruct (Paid how) eqn:Hpaid.
    + assert (Hc : credited org p' = if bool_decide (org = Pm_OrgID p) && negb (bool_decide (Pm_Kind p = PaymentCharge)) then AmountMicros p else 0).
      { unfold credited, p'. cbn [update State Pm_OrgID Pm_Kind AmountMicros].
        rewrite (bool_decide_eq_true_2 (PaymentPaid = PaymentPaid)), andb_true_r by done.
        by rewrite (bool_decide_ext (Pm_OrgID p = org) (org = Pm_OrgID p)). }
      change (Pm_Kind p') with (Pm_Kind p). change (Pm_OrgID p') with (Pm_OrgID p). change (AmountMicros p') with (AmountMicros p).
      destruct (decide (Pm_Kind p = PaymentCharge)) as [Hk|Hk];
        [rewrite (bool_decide_eq_true_2 _ Hk) in *|rewrite (bool_decide_eq_false_2 _ Hk) in *].
      * destruct (payPeriod b1 p') as [b2 twice] eqn:Epp.
        assert (payments b2 = payments b1 ∧ balance_of b2 org = balance_of b1 org) as (Hp2 & Hbal2).
        { unfold payPeriod in Epp. destruct (charges b1 !! _); [case_bool_decide|]; by injection Epp as <- <-. }
        destruct (settle_paid b2 _ how) as [b3 [old lifted]] eqn:Es. destruct (settle_paid_balance _ _ _ _ _ Es) as (Hp3 & Hb3).
        cbn [fst]. rewrite Hb3, Hp3, Hp2, Hbal2, Ht, Hc, Hb1, andb_false_r. lia.
      * destruct (addCredit b1 _ _) as [b2|] eqn:Ea; cbn [fmap option_fmap option_map]; [|cbn [fst]; lia].
        destruct (addCredit_balance _ _ _ _ Ea) as (Hp2 & _ & Hbal2).
        destruct (settle_paid b2 _ how) as [b3 [old lifted]] eqn:Es. destruct (settle_paid_balance _ _ _ _ _ Es) as (Hp3 & Hb3).
        cbn [fst]. rewrite Hb3, Hp3, Hp2, Hbal2, Ht, Hc, Hb1, andb_true_r. case_bool_decide; lia.
    + assert (Hc : credited org p' = 0).
      { unfold credited, p'. cbn [update State]. rewrite (bool_decide_eq_false_2 (PaymentFailed = PaymentPaid)) by done.
        by rewrite andb_false_r. }
      destruct (bool_decide _ && negb (Retry how)); cbn [fst].
      * unfold balance_of at 1. cbn [update accounts payments]. rewrite Ht, Hc, <- Hb1. unfold balance_of.
        destruct (decide (org = Pm_OrgID p')) as [->|Hne]; [rewrite lookup_alter_eq|by rewrite lookup_alter_ne by done; lia].
        destruct (accounts b1 !! _); cbn; lia.
      * destruct (bool_decide _ && _ && _); cbn [fst]; unfold balance_of at 1; cbn [update accounts payments]; rewrite Ht, Hc, <- Hb1;
          unfold balance_of; lia.
  - unfold UpdateCredit. rewrite balance_insert. cbn [update payments]. case_bool_decide; [subst|lia].
    unfold balance_of. destruct (accounts b !! o); cbn; lia.
  - unfold ForgetCard. destruct (accounts b !! o) as [a|] eqn:E; cbn [fst]; [|lia]. rewrite balance_insert. cbn [update payments balance].
    case_bool_decide; [subst|lia]. unfold balance_of. rewrite E. cbn. lia.
  - unfold CreateCharge. destruct (negb _); cbn [fst]; [lia|]. case_bool_decide; cbn [fst]; [lia|]. case_bool_decide; cbn [fst]; [lia|]. cbn [update payments].
    unfold balance_of. cbn [update accounts]. destruct (decide (org = ch_org c)) as [->|]; [rewrite lookup_insert_eq|rewrite lookup_insert_ne by done; lia].
    destruct (accounts b !! ch_org c); cbn; lia.
  - unfold DeleteCharge. destruct (charges b !! id); cbn [fst]; [|lia]. unfold balance_of. cbn [update payments accounts]. lia.
  - destruct (queueCredit b events) as [b'|] eqn:E; cbn [default from_option id]; [|unfold id; lia]. change (id b') with b'.
    destruct (queueCredit_balance _ _ _ E) as (-> & _ & Hb). rewrite Hb. lia.
Qed.
End conservation.

Section theorems.
Context `{Intervals}.
Implicit Types (b : bank) (p : Payment).

Definition after b (ops : list bank_op) : bank := foldl bank_step b ops.

(** What requests used of an organisation's credit over a run. *)
Fixpoint used_over b (ops : list bank_op) (org : string) : Z :=
  match ops with
  | [] => 0
  | o :: ops => used_by b o org + used_over (bank_step b o) ops org
  end.

(** C16: every franc of credit was paid or granted, and is counted once: over any run of the transactions that change the money, however often and in whatever order payments are settled by webhooks, polls and charges, an organisation's balance is the sum of its paid payments and grants, charges of recurring fees left out, less what its requests used; so no settlement credits a payment twice, and a transaction that fails moves nothing. *)
Theorem credit_conserved b (ops : list bank_op) org :
  balance_of (after b ops) org =
  balance_of b org + (total (credited org) (payments (after b ops)) - total (credited org) (payments b)) - used_over b ops org.
Proof.
  unfold after. revert b. induction ops as [|o ops IH]; intros b; cbn [foldl used_over]; [lia|].
  rewrite IH. pose proof (step_conserves b o org). lia.
Qed.

(** A payment that ended is left alone, unless it failed and is paid after all. *)
Lemma Settle_ended b now id how p : payments b !! id = Some p →
  State p = PaymentPaid ∨ (State p = PaymentFailed ∧ Paid how = false) →
  Settle b now id how = (b, inr {| s_Payment := p; Ended := false; OldToken := 0; Lifted := false; Twice := false |}).
Proof. unfold Settle. intros -> [->|(-> & ->)]; done. Qed.

(** A payment ends once: whoever settles a paid one again, with whatever outcome, changes nothing and is told that it had ended; one that failed changes again only when it is paid after all; and paid is final over any run of transactions. *)
Theorem Settle_once b now id how how' p :
  payments b !! id = Some p → (Settle b now id how).1 ≠ b → Paid how = true →
  (∃ p', payments (Settle b now id how).1 !! id = Some p' ∧ State p' = PaymentPaid ∧ AmountMicros p' = AmountMicros p) ∧
  (∀ now', (Settle (Settle b now id how).1 now' id how').1 = (Settle b now id how).1) ∧
  ∀ ops p', payments (after (Settle b now id how).1 ops) !! id = Some p' → State p' = PaymentPaid.
Proof.
  intros Hp Hne Hpaid.
  assert (Hend : ∃ p', payments (Settle b now id how).1 !! id = Some p' ∧ State p' = PaymentPaid ∧ AmountMicros p' = AmountMicros p).
  { revert Hne. unfold Settle. rewrite Hp. destruct (negb _); [done|]. rewrite Hpaid.
    set (p' := p <| State := _ |> <| Note := _ |> <| SettledAt := _ |>). set (b1 := b <| payments := _ |>).
    assert (∀ b2 org, payments b2 = payments b1 → ∃ q, payments (settle_paid b2 org how).1 !! id = Some q ∧ State q = PaymentPaid ∧ AmountMicros q = AmountMicros p) as Hq.
    { intros b2 org Hb2. destruct (settle_paid b2 org how) as [b3 x] eqn:Es. destruct (settle_paid_balance _ _ _ _ _ Es) as (Hb3 & _).
      exists p'. cbn [fst]. rewrite Hb3, Hb2. split; [apply lookup_insert_eq|done]. }
    case_bool_decide.
    - destruct (payPeriod b1 p') as [b2 tw] eqn:Epp. specialize (Hq b2 (Pm_OrgID p')). 
      destruct (settle_paid b2 _ how) as [b3 [old lifted]]. intros _. apply Hq. unfold payPeriod in Epp.
      destruct (charges b1 !! _); [case_bool_decide|]; by injection Epp as <- <-.
    - destruct (addCredit b1 _ _) as [b2|] eqn:Ea; [|done]. cbn [fmap option_fmap option_map]. specialize (Hq b2 (Pm_OrgID p')).
      destruct (settle_paid b2 _ how) as [b3 [old lifted]]. intros _. apply Hq. exact (proj1 (addCredit_balance _ _ _ _ Ea)). }
  split; [done|]. destruct Hend as (p' & Hp' & Hst & _). split.
  - intros now'. rewrite (Settle_ended _ _ _ _ p'); auto.
  - assert (Hfinal : ∀ o b q, payments b !! id = Some q → State q = PaymentPaid →
      ∃ q', payments (bank_step b o) !! id = Some q' ∧ State q' = PaymentPaid).
    { clear. intros o b q Hq Hst. destruct o as [now p|i tx|now p|now i how|o below amount inv|o|i c|i|events]; cbn [bank_step].
      - unfold CreatePayment. destruct (negb _); [eauto|]. case_bool_decide as Hx; [eauto|]. destruct (violates_index _ _); [eauto|].
        exists q. cbn [fst update payments]. rewrite lookup_insert_ne; [done|]. intros Hi. apply Hx. rewrite Hi. eauto.
      - unfold SetTransaction. destruct (payments b !! i) as [p|] eqn:Ei; [|eauto]. case_bool_decide as Hs; cbn [negb]; [|eauto].
        destruct (existsb _ _); [eauto|]. exists q. cbn [fst update payments]. rewrite lookup_insert_ne; [done|]. intros ->. congruence.
      - unfold Grant. case_bool_decide as Hx; [eauto|]. destruct (addCredit _ _ _) as [b'|] eqn:Ea; [|eauto].
        destruct (addCredit_balance _ _ _ _ Ea) as (Hb & _). exists q. cbn [fst]. rewrite Hb. cbn [update payments].
        rewrite lookup_insert_ne; [done|]. intros Hi. apply Hx. rewrite Hi. eauto.
      - destruct (decide (i = id)) as [->|Hi].
        { rewrite (Settle_ended _ _ _ _ q) by auto. eauto. }
        exists q. split; [|done]. unfold Settle. destruct (payments b !! i) as [p|]; [|done]. destruct (negb _); [done|].
        set (b1 := b <| payments := _ |>). assert (payments b1 !! id = Some q) as Hb1 by (cbn [b1 update payments]; by rewrite lookup_insert_ne).
        destruct (Paid how).
        + destruct (bool_decide _).
          * destruct (payPeriod b1 _) as [b2 tw] eqn:Epp.
            assert (payments b2 = payments b1) as Hb2.
            { unfold payPeriod in Epp. destruct (charges b1 !! _); [case_bool_decide|]; by injection Epp as <- <-. }
            destruct (settle_paid b2 _ how) as [b3 [old lifted]] eqn:Es. destruct (settle_paid_balance _ _ _ _ _ Es) as (Hb3 & _).
            cbn [fst]. congruence.
          * destruct (addCredit b1 _ _) as [b2|] eqn:Ea; [|done]. cbn [fmap option_fmap option_map].
            destruct (addCredit_balance _ _ _ _ Ea) as (Hb2 & _).
            destruct (settle_paid b2 _ how) as [b3 [old lifted]] eqn:Es. destruct (settle_paid_balance _ _ _ _ _ Es) as (Hb3 & _).
            cbn [fst]. congruence.
        + destruct (bool_decide _ && negb _); [done|]. by destruct (bool_decide _ && _ && _).
      - eauto.
      - unfold ForgetCard. destruct (accounts b !! o); eauto.
      - unfold CreateCharge. destruct (negb _); [eauto|]. case_bool_decide; [eauto|]. case_bool_decide; eauto.
      - unfold DeleteCharge. destruct (charges b !! i); eauto.
      - destruct (queueCredit b events) as [b'|] eqn:Eq; [|eauto]. destruct (queueCredit_balance _ _ _ Eq) as (Hb & _).
        exists q. change (default b (Some b')) with b'. by rewrite Hb. }
    intros ops. revert p' Hp' Hst. generalize ((Settle b now id how).1) as b0. clear Hne.
    induction ops as [|o ops IH]; intros b0 q Hq Hs p' Hp'.
    + cbn in Hp'. congruence.
    + destruct (Hfinal o b0 q Hq Hs) as (q' & Hq' & Hs'). by apply (IH _ q' Hq' Hs' p').
Qed.

(** *** One charge under way *)

Record bank_ok b : Prop := {
  ok_auto : ∀ i j p q, payments b !! i = Some p → payments b !! j = Some q → one_auto p = true → one_auto q = true →
    Pm_OrgID p = Pm_OrgID q → i = j;
  ok_charge : ∀ i j p q, payments b !! i = Some p → payments b !! j = Some q → one_charge p = true → one_charge q = true →
    ChargeID p = ChargeID q → i = j;
}.

Lemma some_payment_spec b (P : Payment → bool) : some_payment b P = true ↔ ∃ i q, payments b !! i = Some q ∧ P q = true.
Proof.
  unfold some_payment. rewrite existsb_exists. split.
  - intros ([i q] & Hin & HP). exists i, q. split; [|done]. by apply list_elem_of_In, elem_of_map_to_list in Hin.
  - intros (i & q & Hi & HP). exists (i, q). split; [|done]. by apply list_elem_of_In, elem_of_map_to_list.
Qed.

(** A row that is not an open charge of a card can be written. *)
Lemma bank_ok_write b b' id p' : bank_ok b → payments b' = <[id := p']> (payments b) →
  (∀ q j, payments b !! j = Some q → j ≠ id → one_auto p' = true → one_auto q = true → Pm_OrgID p' ≠ Pm_OrgID q) →
  (∀ q j, payments b !! j = Some q → j ≠ id → one_charge p' = true → one_charge q = true → ChargeID p' ≠ ChargeID q) → bank_ok b'.
Proof.
  intros [Ha Hc] Hb H1 H2. split; intros i j p q; rewrite Hb; intros [[<- <-]|[Hi Hp]]%lookup_insert_Some [[<- <-]|[Hj Hq]]%lookup_insert_Some;
    try done; try (by apply Ha); try (by apply Hc); intros.
  - exfalso. eapply H1; eauto.
  - exfalso. eapply H1; eauto.
  - exfalso. eapply H2; eauto.
  - exfalso. eapply H2; eauto.
Qed.

Lemma bank_ok_same b b' : bank_ok b → payments b' = payments b → bank_ok b'.
Proof. intros [Ha Hc] Hb. split; intros i j p q; rewrite Hb; [apply Ha|apply Hc]. Qed.

Lemma ended_no_index p : State p ≠ PaymentPending → one_auto p = false ∧ one_charge p = false.
Proof. intros Hs. unfold one_auto, one_charge. rewrite (bool_decide_eq_false_2 _ Hs), !andb_false_r. done. Qed.

Lemma settled_payments b now id how p : payments b !! id = Some p →
  payments (Settle b now id how).1 = payments b ∨
  ∃ p', payments (Settle b now id how).1 = <[id := p']> (payments b) ∧ State p' ≠ PaymentPending ∧
        p' = p <| State := if Paid how then PaymentPaid else PaymentFailed |> <| Note := how_Note how |> <| SettledAt := Some now |>.
Proof.
  intros Hp. unfold Settle. rewrite Hp. destruct (negb _); [by left|].
  set (p' := p <| State := _ |> <| Note := _ |> <| SettledAt := _ |>). set (b1 := b <| payments := _ |>).
  assert (State p' ≠ PaymentPending) as Hs by (cbn [p' update State]; by destruct (Paid how)).
  assert (∀ b2 org x, payments b2 = payments b1 → settle_paid b2 org how = x → payments x.1 = <[id := p']> (payments b)) as Hq.
  { intros b2 org [b3 y] Hb2 Es. destruct (settle_paid_balance _ _ _ _ _ Es) as (Hb3 & _). cbn [fst]. by rewrite Hb3, Hb2. }
  destruct (Paid how).
  - destruct (bool_decide (Pm_Kind p' = PaymentCharge)).
    + destruct (payPeriod b1 p') as [b2 tw] eqn:Epp. right. exists p'. split; [|done].
      specialize (Hq b2 (Pm_OrgID p') _ ltac:(unfold payPeriod in Epp; destruct (charges b1 !! _); [case_bool_decide|]; by injection Epp as <- <-) eq_refl).
      by destruct (settle_paid b2 _ how) as [b3 [old lifted]].
    + destruct (addCredit b1 _ _) as [b2|] eqn:Ea; [|by left]. right. exists p'. split; [|done]. cbn [fmap option_fmap option_map].
      specialize (Hq b2 (Pm_OrgID p') _ (proj1 (addCredit_balance _ _ _ _ Ea)) eq_refl).
      by destruct (settle_paid b2 _ how) as [b3 [old lifted]].
  - right. exists p'. split; [|done]. destruct (bool_decide _ && negb _); [done|]. by destruct (bool_decide _ && _ && _).
Qed.

(** C33: a saved card is never charged twice at once: over any run of transactions, whatever two replicas list as due, at most one automatic top-up of an organisation is pending, and at most one charge of the saved card for a recurring charge. *)
Theorem one_charge_under_way b (ops : list bank_op) : bank_ok b → bank_ok (after b ops).
Proof.
  intros Hb. unfold after. revert b Hb. induction ops as [|o ops IH]; intros b Hb; [done|]. cbn [foldl]. apply IH. clear IH ops.
  destruct o as [now p|i tx|now p|now i how|o below amount inv|o|i c|i|events]; cbn [bank_step].
  - unfold CreatePayment. destruct (negb _); [done|]. case_bool_decide as Hx; [done|]. set (row := p <| State := _ |> <| CreatedAt := _ |> <| TransactionID := _ |> <| Note := _ |> <| SettledAt := _ |>).
    destruct (violates_index b row) eqn:Hv; [done|]. unfold violates_index in Hv. apply orb_false_iff in Hv as (Hv1 & Hv2).
    apply (bank_ok_write b _ (Pm_ID p) row Hb); [done|..]; intros q j Hj Hne Hr Hq He.
    + rewrite Hr in Hv1. cbn [andb] in Hv1. apply not_true_iff_false in Hv1. apply Hv1, some_payment_spec. exists j, q.
      rewrite Hq, He, bool_decide_eq_true_2 by done. done.
    + rewrite Hr in Hv2. cbn [andb] in Hv2. apply not_true_iff_false in Hv2. apply Hv2, some_payment_spec. exists j, q.
      rewrite Hq, He, bool_decide_eq_true_2 by done. done.
  - unfold SetTransaction. destruct (payments b !! i) as [p|] eqn:Ei; [|done]. destruct (negb _); [done|].
    destruct (existsb _ _); [done|]. apply (bank_ok_write b _ i (p <| TransactionID := tx |>) Hb); [done|..]; intros q j Hj Hne Hr Hq He.
    + apply Hne. by apply (ok_auto b Hb j i q p).
    + apply Hne. by apply (ok_charge b Hb j i q p).
  - unfold Grant. case_bool_decide as Hx; [done|]. set (row := {| Pm_ID := _ |}). destruct (addCredit _ _ _) as [b'|] eqn:Ea; [|done].
    apply (bank_ok_write b _ (Pm_ID p) row Hb); [exact (proj1 (addCredit_balance _ _ _ _ Ea))|..]; intros q j Hj Hne Hr; by destruct (ended_no_index row); [done|congruence].
  - destruct (payments b !! i) as [p|] eqn:Ei; [|by unfold Settle; rewrite Ei].
    destruct (settled_payments b now i how p Ei) as [Hs|(p' & Hs & Hn & _)]; [by apply (bank_ok_same b)|].
    apply (bank_ok_write b _ i p' Hb Hs); intros q j Hj Hne Hr; by destruct (ended_no_index p' Hn); congruence.
  - by apply (bank_ok_same b).
  - unfold ForgetCard. destruct (accounts b !! o); [by apply (bank_ok_same b)|done].
  - unfold CreateCharge. destruct (negb _); [done|]. case_bool_decide; [done|]. case_bool_decide; [done|]. by apply (bank_ok_same b).
  - unfold DeleteCharge. destruct (charges b !! i); [by apply (bank_ok_same b)|done].
  - destruct (queueCredit b events) as [b'|] eqn:Eq; [|done]. change (default b (Some b')) with b'.
    apply (bank_ok_same b); [done|]. exact (proj1 (queueCredit_balance _ _ _ Eq)).
Qed.
End theorems.

(** ** Periods *)

Section periods.
Context `{Intervals}.
Implicit Types (b : bank).

(** The period a transaction counts as paid for a recurring charge. *)
Definition counted_by b (o : bank_op) (id : string) : list Z :=
  match o with
  | OpSettle now pid how =>
      match Settle b now pid how with
      | (_, inr s) =>
          if Ended s && Paid how && negb (Twice s) && bool_decide (Pm_Kind (s_Payment s) = PaymentCharge) &&
             bool_decide (ChargeID (s_Payment s) = id)
          then match PeriodStart (s_Payment s) with Some t => [t] | None => [] end else []
      | _ => []
      end
  | _ => []
  end.

Fixpoint counted_over b (ops : list bank_op) (id : string) : list Z :=
  match ops with
  | [] => []
  | o :: ops => counted_by b o id ++ counted_over (bank_step b o) ops id
  end.

(** What a transaction leaves of a recurring charge. *)
Definition same_charge (c c' : charge) (n : nat) : Prop :=
  starts_on c' = starts_on c ∧ ch_every c' = ch_every c ∧ paid_periods c' = (paid_periods c + n)%nat.

Lemma same_charge_refl c : same_charge c c 0.
Proof. unfold same_charge. split_and!; [done|done|lia]. Qed.

Lemma settle_paid_charges b org how b' x : settle_paid b org how = (b', x) →
  charges b' = (λ c, if bool_decide (ch_org c = org) then c <| ch_error := None |> else c) <$> charges b.
Proof.
  unfold settle_paid. set (b0 := if bool_decide _ then _ else b).
  assert (charges b0 = charges b) as <- by (unfold b0; by case_bool_decide).
  destruct (Card how); [destruct (negb _)|]; by intros [= <- _].
Qed.

Lemma settle_paid_keeps b org how b' x id c : settle_paid b org how = (b', x) → charges b !! id = Some c →
  ∃ c', charges b' !! id = Some c' ∧ same_charge c c' 0.
Proof.
  intros Hs Hc. rewrite (settle_paid_charges _ _ _ _ _ Hs), lookup_fmap, Hc. eexists. split; [done|].
  unfold same_charge. case_bool_decide; cbn; (split_and!; [done|done|lia]).
Qed.

(** Counting a period advances its charge by one, and reports it. *)
Lemma payPeriod_keeps b p b' twice id c : payPeriod b p = (b', twice) → charges b !! id = Some c →
  ∃ c', charges b' !! id = Some c' ∧
    (same_charge c c' 0 ∧ (twice = true ∨ ChargeID p ≠ id) ∨
     same_charge c c' 1 ∧ twice = false ∧ ChargeID p = id ∧ PeriodStart p = Some (chargeDue c)).
Proof.
  unfold payPeriod. intros Hp Hc. destruct (charges b !! ChargeID p) as [c2|] eqn:Ec2.
  - case_bool_decide as Hd; injection Hp as <- <-; [|exists c; auto using same_charge_refl].
    cbn [update charges]. destruct (decide (ChargeID p = id)) as [Hi|Hi].
    + rewrite Hi in *. assert (c2 = c) as -> by congruence. rewrite lookup_insert_eq. eexists. split; [done|]. right.
      unfold same_charge. cbn. split_and!; try done. lia.
    + rewrite lookup_insert_ne by done. exists c. auto using same_charge_refl.
  - injection Hp as <- <-. exists c. split; [done|]. left. split; [apply same_charge_refl|]. right. intros Hi. rewrite Hi in Ec2. congruence.
Qed.

Lemma same_charge_trans c1 c2 c3 n : same_charge c1 c2 n → same_charge c2 c3 0 → same_charge c1 c3 n.
Proof. intros (A & B & C) (A' & B' & C'). unfold same_charge. rewrite A', B', C'. split_and!; [done|done|lia]. Qed.

(** The two ways a transaction can leave a charge: as it was, or one period on. *)
Definition advances (c : charge) (b' : bank) (id : string) (counted : list Z) : Prop :=
  ∃ c', charges b' !! id = Some c' ∧
    (same_charge c c' 0 ∧ counted = [] ∨ same_charge c c' 1 ∧ counted = [chargeDue c]).

Lemma advances_refl c b id : charges b !! id = Some c → advances c b id [].
Proof. exists c. auto using same_charge_refl. Qed.

Lemma Settle_failed_advances b now i how p id c : Paid how = false → payments b !! i = Some p → charges b !! id = Some c →
  advances c (Settle b now i how).1 id [].
Proof.
  intros Hf Hi Hc. unfold Settle. rewrite Hi, Hf. destruct (negb _); [by apply advances_refl|]. cbn [negb].
  destruct (bool_decide _ && negb _); [by apply advances_refl|]. destruct (bool_decide _ && _ && _); [|by apply advances_refl].
  cbn [fst update charges]. unfold advances. cbn [update charges]. destruct (decide (ChargeID p = id)) as [E|E].
  - cbn [update ChargeID]. rewrite E, lookup_alter_eq, Hc. eexists. split; [done|]. left. split; [|done].
    unfold same_charge. cbn. split_and!; [done|done|lia].
  - rewrite lookup_alter_ne by done. exists c. auto using same_charge_refl.
Qed.

Lemma Settle_advances b now i how id c : charges b !! id = Some c →
  advances c (Settle b now i how).1 id (counted_by b (OpSettle now i how) id).
Proof.
  intros Hc. cbn [counted_by]. destruct (Paid how) eqn:Hpaid; cycle 1.
  { assert (match Settle b now i how with (_, inl _) => [] | (_, inr s) => if Ended s && false && negb (Twice s) &&
      bool_decide (Pm_Kind (s_Payment s) = PaymentCharge) && bool_decide (ChargeID (s_Payment s) = id)
      then match PeriodStart (s_Payment s) with Some t => [t] | None => [] end else [] end = []) as ->
      by (destruct (Settle b now i how) as [? [?|s]]; [done|by destruct (Ended s)]).
    destruct (payments b !! i) as [p|] eqn:Hi; [by eapply Settle_failed_advances|].
    unfold Settle. rewrite Hi. by apply advances_refl. }
  unfold Settle. destruct (payments b !! i) as [p|]; [|by apply advances_refl]. destruct (negb _); [by apply advances_refl|].
  rewrite Hpaid. set (p' := p <| State := _ |> <| Note := _ |> <| SettledAt := _ |>). set (b1 := b <| payments := _ |>).
  assert (charges b1 !! id = Some c) as Hc1 by done. clearbody b1 p'. case_bool_decide as Hk.
  - destruct (payPeriod b1 p') as [b2 twice] eqn:Ep.
    destruct (payPeriod_keeps _ _ _ _ _ _ Ep Hc1) as (c2 & Hc2 & Hhow).
    destruct (settle_paid b2 _ how) as [b3 [old lifted]] eqn:Es.
    destruct (settle_paid_keeps _ _ _ _ _ _ _ Es Hc2) as (c3 & Hc3 & Hs3).
    cbn [fst Ended Twice s_Payment andb]. rewrite (bool_decide_eq_true_2 _ Hk), andb_true_r. exists c3. split; [done|].
    destruct Hhow as [(Hs & Hno)|(Hs & -> & Hi & ->)]; [left|right].
    + split; [by eapply same_charge_trans|]. destruct Hno as [->|Hno]; [done|]. by rewrite (bool_decide_eq_false_2 _ Hno), andb_false_r.
    + split; [by eapply same_charge_trans|]. by rewrite (bool_decide_eq_true_2 _ Hi).
  - destruct (addCredit b1 _ _) as [b2|] eqn:Ea; cbn [fmap option_fmap option_map]; [|by apply advances_refl].
    destruct (addCredit_balance _ _ _ _ Ea) as (_ & Hch & _).
    destruct (settle_paid b2 _ how) as [b3 [old lifted]] eqn:Es.
    destruct (settle_paid_keeps b2 _ _ _ _ id c Es ltac:(by rewrite Hch)) as (c3 & Hc3 & Hs3).
    cbn [fst Ended Twice s_Payment andb negb]. rewrite (bool_decide_eq_false_2 _ Hk). exists c3. auto.
Qed.

Lemma charges_kept b o id c : charges b !! id = Some c → o ≠ OpDeleteCharge id →
  advances c (bank_step b o) id (counted_by b o id).
Proof.
  intros Hc Hne. destruct o as [now p|i tx|now p|now i how|o below amount inv|o|i c2|i|events]; cbn [bank_step];
    [..|by apply Settle_advances| | | | |]; cbn [counted_by]; apply advances_refl.
  - unfold CreatePayment. destruct (negb _); [done|]. case_bool_decide; [done|]. by destruct (violates_index _ _).
  - unfold SetTransaction. destruct (payments b !! i); [|done]. destruct (negb _); [done|]. by destruct (existsb _ _).
  - unfold Grant. case_bool_decide; [done|]. destruct (addCredit _ _ _) as [b'|] eqn:Ea; [|done].
    destruct (addCredit_balance _ _ _ _ Ea) as (_ & Hch & _). cbn [fst]. by rewrite Hch.
  - done.
  - unfold ForgetCard. by destruct (accounts b !! o).
  - unfold CreateCharge. destruct (negb _); [done|]. case_bool_decide as Hx; [done|]. case_bool_decide; [done|].
    cbn [fst update charges]. rewrite lookup_insert_ne; [done|]. intros ->. apply Hx. eauto.
  - unfold DeleteCharge. destruct (charges b !! i); [|done]. cbn [fst update charges].
    rewrite lookup_delete_ne; [done|congruence].
  - destruct (queueCredit b events) as [b'|] eqn:Eq; [|done]. change (default b (Some b')) with b'.
    destruct (queueCredit_balance _ _ _ Eq) as (_ & Hch & _). by rewrite Hch.
Qed.

(** A recurring charge's periods are paid one after another, each once: over any run that does not delete the charge, the periods its payments counted are exactly the ones after those already paid, in order and without a gap, and paid_periods grew by their number; so a period paid twice, on the page and by the card, is counted once and reported as twice. *)
Theorem periods_counted_once b (ops : list bank_op) id c :
  charges b !! id = Some c → Forall (λ o, o ≠ OpDeleteCharge id) ops →
  ∃ c', charges (after b ops) !! id = Some c' ∧
    counted_over b ops id = map (period (starts_on c) (ch_every c)) (seq (paid_periods c) (paid_periods c' - paid_periods c)) ∧
    (paid_periods c <= paid_periods c')%nat.
Proof.
  intros Hc Hops. unfold after. revert b c Hc. induction Hops as [|o ops Ho _ IH]; intros b c Hc; cbn [foldl counted_over].
  { exists c. rewrite Nat.sub_diag. auto. }
  destruct (charges_kept b o id c Hc Ho) as (c1 & Hc1 & [((E1 & E2 & E3) & Hcount)|((E1 & E2 & E3) & Hcount)]);
    destruct (IH _ _ Hc1) as (c' & Hc' & Hl & Hle); exists c'; rewrite Hcount, Hl, E1, E2, E3;
    (split; [done|]); (split; [|lia]).
  - by rewrite Nat.add_0_r.
  - replace (paid_periods c' - paid_periods c)%nat with (S (paid_periods c' - (paid_periods c + 1))) by lia.
    cbn [seq map app]. by rewrite Nat.add_1_r.
Qed.
End periods.

(** *** Witnesses *)

Section samples.
(** Periods of thirty days from the start of time. *)
Instance sample_intervals : Intervals := {| period _ _ n := Z.of_nat n * 30 * 24 * Hour |}.

Definition sample_payment (id : string) (kind : PaymentKind) (amount : Z) : Payment :=
  {| Pm_ID := id; Pm_OrgID := "org_1"; CreatedAt := 0; Pm_Kind := kind; AmountMicros := amount; VATMicros := 0; FeeMicros := 0;
     State := PaymentPending; SaveCard := false; TransactionID := 0; Actor := "someone"; Note := ""; SettledAt := None;
     ChargeID := if bool_decide (kind = PaymentCharge) then "charge_1" else ""; Item := "";
     PeriodStart := if bool_decide (kind = PaymentCharge) then Some 0 else None; PeriodEnd := None |}.

Definition sample_charge : charge :=
  {| ch_org := "org_1"; ch_name := "a model"; ch_micros := 5000000; ch_every := "month"; starts_on := "1970-01-01";
     paid_periods := 0; ch_error := None; ch_actor := "operator" |}.

Definition sample_bank : bank :=
  {| orgs := {[ "org_1" := true ]}; accounts := {[ "org_1" := new_account <| card_token := Some 7 |> ]};
     payments := {[ "pay_1" := sample_payment "pay_1" PaymentTopUp 20000000 ]}; charges := {[ "charge_1" := sample_charge ]} |}.

Definition it_is_paid : Settlement := {| Paid := true; how_Note := ""; Card := None; Token := 0; Retry := false |}.

Lemma Settle_once_witness :
  (Settle (Settle sample_bank 5 "pay_1" it_is_paid).1 6 "pay_1" it_is_paid).1 = (Settle sample_bank 5 "pay_1" it_is_paid).1 ∧
  balance_of (Settle sample_bank 5 "pay_1" it_is_paid).1 "org_1" = 20000000.
Proof.
  split; [|vm_compute; reflexivity].
  destruct (Settle_once sample_bank 5 "pay_1" it_is_paid it_is_paid (sample_payment "pay_1" PaymentTopUp 20000000) eq_refl) as (_ & Ho & _);
    [|reflexivity|exact (Ho 6)].
  intros Hb. apply (f_equal (λ b, balance_of b "org_1")) in Hb. vm_compute in Hb. discriminate Hb.
Defined.

Lemma sample_bank_ok : bank_ok sample_bank.
Proof.
  assert (∀ i p, payments sample_bank !! i = Some p → i = "pay_1") as Hi.
  { intros i p Hp. cbn [sample_bank payments] in Hp. by apply lookup_singleton_Some in Hp as [<- _]. }
  split; intros i j p q Hp Hq _ _ _; by rewrite (Hi _ _ Hp), (Hi _ _ Hq).
Qed.

(** Two replicas that charge the card for the same period: the second is told that it is under way. *)
Definition two_replicas : list bank_op :=
  [OpCreate 100 (sample_payment "pay_2" PaymentCharge 5000000); OpCreate 101 (sample_payment "pay_3" PaymentCharge 5000000)].

Lemma one_charge_under_way_witness :
  bank_ok (after sample_bank two_replicas) ∧
  payments (after sample_bank two_replicas) !! "pay_3" = None ∧ is_Some (payments (after sample_bank two_replicas) !! "pay_2").
Proof.
  split; [apply (one_charge_under_way sample_bank two_replicas), sample_bank_ok|].
  split; [vm_compute; reflexivity|]. eexists. vm_compute. reflexivity.
Defined.

Lemma periods_counted_once_witness :
  ∃ c', charges (after sample_bank (two_replicas ++ [OpSettle 200 "pay_2" it_is_paid])) !! "charge_1" = Some c' ∧
    counted_over sample_bank (two_replicas ++ [OpSettle 200 "pay_2" it_is_paid]) "charge_1" =
      map (period "1970-01-01" "month") (seq 0 (paid_periods c' - 0)) ∧ paid_periods c' = 1%nat.
Proof.
  destruct (periods_counted_once sample_bank (two_replicas ++ [OpSettle 200 "pay_2" it_is_paid]) "charge_1" sample_charge eq_refl)
    as (c' & Hc & Hl & _); [repeat constructor; discriminate|].
  exists c'. split; [exact Hc|]. split; [exact Hl|].
  apply (f_equal (option_map paid_periods)) in Hc. vm_compute in Hc. injection Hc as Hc. symmetry. exact Hc.
Defined.
End samples.
