(* ===== verification/Filters.v ===== *)
(** * Filters and pattern rules

    [Filter], [FilterMode] and [FilterRule] of [internal/policy/policy.go],
    and the pattern filters of [internal/gateway/pattern.go], with the cache
    of compiled rules and the memory of clean segments. The regular-expression
    engine and SHA-256 are parameters. *)
From S2P Require Import Prelude Text.

(** ** Data *)

Definition FilterModeRewrite : string := "rewrite".
Definition FilterModeGate : string := "gate".
Definition FilterModePattern : string := "pattern".

Definition filterModes : list string := [FilterModeRewrite; FilterModeGate; FilterModePattern].

Definition FilterMode_Valid (m : string) : bool := bool_decide (m = "") || contains filterModes m.
Definition Gates (m : string) : bool := bool_decide (m = FilterModeGate).
Definition Rewrites (m : string) : bool := negb (Gates m).
Definition FilterMode_UsesModel (m : string) : bool := negb (bool_decide (m = FilterModePattern)).

Record FilterRule := {
  Pattern : string;
  Replace : string;
  Refuse : bool;
  Reason : string;
}.

Record Filter := {
  F_OrgID : string;
  F_Alias : string;
  F_Model : string;
  F_Mode : string;
  F_Prompt : string;
  F_Rules : list FilterRule;
  F_Shadow : bool;
  F_Description : string;
  F_CreatedAt : Z;
  F_UpdatedAt : Z;
}.

Definition Filter_UsesModel (f : Filter) : bool := FilterMode_UsesModel (F_Mode f).

Definition Filter_ReadsWith (f : Filter) : string :=
  if negb (Filter_UsesModel f) then "" else F_Model f.

Definition MaxFilterRules : Z := 64.
Definition maxFilterPatternLen : Z := 512.

(** The regular expressions of Go's [regexp], as the sources use them. *)
Class Regexp := {
  Regex : Type;
  regexp_Compile : string → string + Regex;
  FindAllStringIndex : Regex → string → list (Z * Z);
  ReplaceAllLiteralString : Regex → string → string → string;
}.

(** [Regexp.MatchString]: there is a match. *)
Definition MatchString `{Regexp} (re : Regex) (s : string) : bool :=
  negb (length (FindAllStringIndex re s) =? 0)%nat.

(** What [FilterRule.Valid] finds wrong, one case per message. *)
Inductive RuleError :=
  | NoExpression
  | ExpressionTooLong (n : Z)
  | ReplacesAndRefuses (pattern : string)
  | ReasonTooLong (pattern : string) (n : Z)
  | ReasonWithoutRefusal (pattern : string)
  | NotARegexp (pattern err : string)
  | MatchesEmpty (pattern : string).

Definition FilterRule_Valid `{Regexp} (r : FilterRule) : option RuleError :=
  if bool_decide (TrimSpace (Pattern r) = "") then Some NoExpression
  else if len (Pattern r) >? maxFilterPatternLen then Some (ExpressionTooLong (len (Pattern r)))
  else if Refuse r && negb (bool_decide (Replace r = "")) then Some (ReplacesAndRefuses (Pattern r))
  else if len (Reason r) >? MaxRefusalReasonBytes
  then Some (ReasonTooLong (Pattern r) (len (Reason r)))
  else if negb (Refuse r) && negb (bool_decide (Reason r = ""))
  then Some (ReasonWithoutRefusal (Pattern r))
  else match regexp_Compile (Pattern r) with
  | inl err => Some (NotARegexp (Pattern r) err)
  | inr re => if MatchString re "" then Some (MatchesEmpty (Pattern r)) else None
  end.

(** ** Pattern filters *)

Section patterns.
Context `{Regexp} `{MapRange} `{Countable Digest}.
(** [sha256] of the generation and the text. *)
Context (cleanKey : Z → string → Digest).

Record compiledRule := { re : Regex; rule : FilterRule }.

(** Why a filter's rules cannot be run. *)
Inductive CompileError :=
  | NoRules
  | BadRule (pattern err : string).

(** [compiled]. [c_remembers] says whether [clean] is set; it always points at
    the cache's one [cleanTexts], which is passed as state. *)
Record compiled := {
  c_rules : list compiledRule;
  c_err : option CompileError;
  c_remembers : bool;
  c_gen : Z;
}.

Definition minRemembered : Z := 512.
Definition maxCleanTexts : Z := 32768.

(** [cleanTexts]; a nil map is [None]. *)
Record cleanTexts := { cur : option (gset Digest); old : option (gset Digest) }.

Definition clean_zero : cleanTexts := {| cur := None; old := None |}.

Definition in_map (m : option (gset Digest)) (k : Digest) : bool := bool_decide (k ∈ default ∅ m).

Definition addLocked (t : cleanTexts) (k : Digest) : cleanTexts :=
  let t :=
    if bool_decide (cur t = None) || (maxCleanTexts <=? Z.of_nat (size (default ∅ (cur t))))
    then {| cur := Some ∅; old := cur t |} else t in
  {| cur := Some (default ∅ (cur t) ∪ {[k]}); old := old t |}.

Definition clean_has (t : cleanTexts) (k : Digest) : bool * cleanTexts :=
  if in_map (cur t) k then (true, t)
  else if in_map (old t) k then (true, addLocked t k)
  else (false, t).

(** [compileRules]. *)
Fixpoint compile_each (rules : list FilterRule) : CompileError + list compiledRule :=
  match rules with
  | [] => inr []
  | r :: rules =>
      match regexp_Compile (Pattern r) with
      | inl err => inl (BadRule (Pattern r) err)
      | inr x =>
          match compile_each rules with
          | inl err => inl err
          | inr cs => inr ({| re := x; rule := r |} :: cs)
          end
      end
  end.

Definition broken (err : CompileError) : compiled :=
  {| c_rules := []; c_err := Some err; c_remembers := false; c_gen := 0 |}.

Definition compileRules (rules : list FilterRule) : compiled :=
  match rules with
  | [] => broken NoRules
  | _ =>
      match compile_each rules with
      | inl err => broken err
      | inr cs => {| c_rules := cs; c_err := None; c_remembers := false; c_gen := 0 |}
      end
  end.

Record patternEntry := { e_updatedAt : Z; e_compiled : compiled }.

Record patternCache := {
  pc_m : gmap string patternEntry;
  pc_clean : cleanTexts;
  pc_gens : Z;
}.

Definition cache_zero : patternCache := {| pc_m := ∅; pc_clean := clean_zero; pc_gens := 0 |}.

Definition cache_key (f : Filter) : string := F_OrgID f +:+ chr 0 +:+ F_Alias f.

(** [patternCache.rulesFor]; the generations are an [atomic.Uint64]. *)
Definition rulesFor (c : patternCache) (f : Filter) : compiled * patternCache :=
  let key := cache_key f in
  let fresh :=
    let out := compileRules (F_Rules f) in
    match c_err out with
    | None =>
        let gen := (pc_gens c + 1) mod two64 in
        let out := {| c_rules := c_rules out; c_err := None; c_remembers := true; c_gen := gen |} in
        (out, {| pc_m := <[key := {| e_updatedAt := F_UpdatedAt f; e_compiled := out |}]> (pc_m c);
                 pc_clean := pc_clean c; pc_gens := gen |})
    | Some _ =>
        (out, {| pc_m := <[key := {| e_updatedAt := F_UpdatedAt f; e_compiled := out |}]> (pc_m c);
                 pc_clean := pc_clean c; pc_gens := pc_gens c |})
    end in
  match pc_m c !! key with
  | Some e => if e_updatedAt e =? F_UpdatedAt f then (e_compiled e, c) else fresh
  | None => fresh
  end.

Record patternHit := { Hit_Rule : string; Hit_Matches : Z; Hit_Refused : bool }.

(** What [runPattern] returns. *)
Inductive PatternResult :=
  | PatternBroken (err : CompileError)
  | PatternRefused (hits : list patternHit) (reason : string)
  | PatternDone (out : list string) (hits : list patternHit).

(** The scan of the segments: which to run the rules on, and the keys of the
    ones that may be remembered. *)
Fixpoint scan_texts (t : cleanTexts) (c : compiled) (i : nat) (texts : list string)
    : list nat * gmap nat Digest * cleanTexts :=
  match texts with
  | [] => ([], ∅, t)
  | s :: texts =>
      if c_remembers c && (minRemembered <=? len s) then
        let k := cleanKey (c_gen c) s in
        let '(found, t) := clean_has t k in
        let '(scan, keys, t) := scan_texts t c (S i) texts in
        if found then (scan, keys, t) else (i :: scan, <[i := k]> keys, t)
      else
        let '(scan, keys, t) := scan_texts t c (S i) texts in (i :: scan, keys, t)
  end.

Definition found (cr : compiledRule) (s : string) : nat := length (FindAllStringIndex (re cr) s).

(** The inner loop: one rule over the scanned segments. [None] is a refusal. *)
Fixpoint rule_loop (cr : compiledRule) (scan : list nat) (out : list string) (matched : list bool)
    (matches : nat) : nat * option (list string * list bool) :=
  match scan with
  | [] => (matches, Some (out, matched))
  | i :: scan =>
      let s := default "" (out !! i) in
      let n := found cr s in
      if (n =? 0)%nat then rule_loop cr scan out matched matches
      else if Refuse (rule cr) then ((matches + n)%nat, None)
      else rule_loop cr scan (<[i := ReplaceAllLiteralString (re cr) s (Replace (rule cr))]> out)
             (<[i := true]> matched) (matches + n)
  end.

Definition hit (cr : compiledRule) (matches : nat) (refused : bool) : patternHit :=
  {| Hit_Rule := Pattern (rule cr); Hit_Matches := Z.of_nat matches; Hit_Refused := refused |}.

(** The outer loop. *)
Fixpoint rules_loop (rules : list compiledRule) (scan : list nat) (out : list string)
    (matched : list bool) (hits : list patternHit) : PatternResult * list bool :=
  match rules with
  | [] => (PatternDone out hits, matched)
  | cr :: rules =>
      match rule_loop cr scan out matched 0 with
      | (matches, None) =>
          (PatternRefused (hits ++ [hit cr matches true]) (sanitizeReason (Reason (rule cr))), matched)
      | (matches, Some (out, matched)) =>
          rules_loop rules scan out matched
            (if (0 <? matches)%nat then hits ++ [hit cr matches false] else hits)
      end
  end.

(** [runPattern], with the clean segments as they are before and after. *)
Definition runPattern (t : cleanTexts) (c : compiled) (texts : list string)
    : PatternResult * cleanTexts :=
  match c_err c with
  | Some err => (PatternBroken err, t)
  | None =>
      let '(scan, keys, t) := scan_texts t c 0 texts in
      let '(result, matched) :=
        rules_loop (c_rules c) scan texts (replicate (length texts) false) [] in
      match result with
      | PatternDone _ _ =>
          (result, foldl (λ t '(i, k), if default false (matched !! i) then t else addLocked t k)
                     t (map_range keys))
      | _ => (result, t)
      end
  end.

(** A pattern filter's run: [runOne]'s branch for one. *)
Definition runPatternFilter (c : patternCache) (f : Filter) (texts : list string)
    : PatternResult * patternCache :=
  let '(rules, c) := rulesFor c f in
  let '(result, clean) := runPattern (pc_clean c) rules texts in
  (result, {| pc_m := pc_m c; pc_clean := clean; pc_gens := pc_gens c |}).

(** A sequence of requests. *)
Fixpoint run_requests (c : patternCache) (reqs : list (Filter * list string))
    : list PatternResult * patternCache :=
  match reqs with
  | [] => ([], c)
  | (f, texts) :: reqs =>
      let '(r, c) := runPatternFilter c f texts in
      let '(rs, c) := run_requests c reqs in
      (r :: rs, c)
  end.

(** The reference: the rules compiled anew and run over every segment. *)
Definition run_plain (f : Filter) (texts : list string) : PatternResult :=
  (runPattern clean_zero (compileRules (F_Rules f)) texts).1.

(** *** Lemmas *)

Definition unmatched (rules : list compiledRule) (s : string) : Prop :=
  Forall (λ cr, found cr s = 0%nat) rules.

Definition seg (out : list string) (i : nat) : string := default "" (out !! i).

Lemma rule_loop_spec cr scan out matched n n' out' matched' :
  Forall (λ i, i < length matched)%nat scan →
  rule_loop cr scan out matched n = (n', Some (out', matched')) →
  length matched' = length matched ∧
  (∀ j, j ∉ scan → seg out' j = seg out j) ∧
  (∀ j, matched' !! j ≠ Some true →
     matched !! j ≠ Some true ∧ seg out' j = seg out j ∧ (j ∈ scan → found cr (seg out j) = 0%nat)).
Proof.
  intros Hs. revert out matched n Hs. induction scan as [|i scan IH]; intros out matched n Hs; simpl.
  { intros [= <- <- <-]. set_solver. }
  inversion_clear Hs as [|?? Hi Hs']. fold (seg out i).
  destruct (found cr (seg out i) =? 0)%nat eqn:Hn.
  - intros (Hl & Ho & Hm)%IH; [|done]. apply Nat.eqb_eq in Hn. set_solver.
  - destruct (Refuse (rule cr)); [done|]. intros (Hl & Ho & Hm)%IH;
      [|eapply Forall_impl; [exact Hs'|]; intros j; by rewrite length_insert].
    rewrite length_insert in Hl. unfold seg in *.
    assert (∀ j r, j ≠ i → default "" (<[i:=r]> out !! j) = default "" (out !! j)) as Hne.
    { intros j r Hj. by rewrite list_lookup_insert_ne. }
    split; [done|split].
    + intros j [Hj1 Hj2]%not_elem_of_cons. rewrite Ho by done. by apply Hne.
    + intros j (Hj & Hj2 & Hj3)%Hm. destruct (decide (j = i)) as [->|Hji].
      { by rewrite list_lookup_insert_eq in Hj. }
      rewrite list_lookup_insert_ne in Hj by done. rewrite Hne in * by done. set_solver.
Qed.

(** Skipping segments the rule finds nothing in changes nothing. *)
Lemma rule_loop_skip cr (P : nat → Prop) `{!∀ i, Decision (P i)} scan out matched n :
  (∀ j, j ∈ scan → ¬ P j → found cr (seg out j) = 0%nat) →
  rule_loop cr (filter P scan) out matched n = rule_loop cr scan out matched n.
Proof.
  revert out matched n. induction scan as [|i scan IH]; intros out matched n Hj; [done|].
  rewrite filter_cons. destruct (decide (P i)) as [Hi|Hi].
  - simpl. fold (seg out i). case_match; [apply IH; set_solver|]. case_match; [done|].
    apply IH. intros j Hin Hnj. unfold seg.
    rewrite list_lookup_insert_ne by (intros ->; done). apply Hj; set_solver.
  - simpl. fold (seg out i). rewrite (Hj i) by set_solver. apply IH. set_solver.
Qed.

Lemma rules_loop_skip rules (P : nat → Prop) `{!∀ i, Decision (P i)} scan out matched hits :
  Forall (λ i, i < length matched)%nat scan →
  (∀ j, j ∈ scan → ¬ P j → unmatched rules (seg out j)) →
  rules_loop rules (filter P scan) out matched hits = rules_loop rules scan out matched hits.
Proof.
  revert out matched hits. induction rules as [|cr rules IH]; intros out matched hits Hs Hj; [done|].
  simpl. assert (∀ j, j ∈ scan → ¬ P j → found cr (seg out j) = 0%nat) as Hcr.
  { intros j Hin Hn. specialize (Hj j Hin Hn). by inversion Hj. }
  rewrite rule_loop_skip by done.
  destruct (rule_loop cr scan out matched 0) as [n [[out' m']|]] eqn:Hloop; [|done].
  pose proof Hloop as Hf. rewrite <- (rule_loop_skip _ P) in Hf by done.
  apply rule_loop_spec in Hf as (Hl & Ho & _).
  - apply IH; [by rewrite Hl|]. intros j Hin Hn. rewrite Ho by (rewrite list_elem_of_filter; tauto).
    specialize (Hj j Hin Hn). by inversion Hj.
  - apply Forall_forall. intros j [_ Hin]%list_elem_of_filter. by eapply Forall_forall in Hs.
Qed.

Lemma rules_loop_unmatched rules scan out matched hits out' hits' matched' j :
  Forall (λ i, i < length matched)%nat scan → j ∈ scan →
  rules_loop rules scan out matched hits = (PatternDone out' hits', matched') →
  matched' !! j ≠ Some true → unmatched rules (seg out j) ∧ matched !! j ≠ Some true.
Proof.
  intros Hs Hj. revert out matched hits Hs.
  induction rules as [|cr rules IH]; intros out matched hits Hs; simpl.
  { intros [= <- <- <-] ?. split; [constructor|done]. }
  destruct (rule_loop cr scan out matched 0) as [n [[out1 m1]|]] eqn:Hloop; [|done].
  apply rule_loop_spec in Hloop as (Hl & _ & Hm); [|done]. intros Hr Hne.
  apply IH in Hr as [Hu Hm1]; [|by rewrite Hl|done].
  destruct (Hm j Hm1) as (Hm0 & Hseg & Hf). split; [|done].
  constructor; [auto|]. by rewrite Hseg in Hu.
Qed.

(** What is remembered, in either generation of the memory. *)
Definition remembered (t : cleanTexts) : gset Digest := default ∅ (cur t) ∪ default ∅ (old t).

Lemma addLocked_remembered t k d : d ∈ remembered (addLocked t k) → d ∈ remembered t ∨ d = k.
Proof. unfold addLocked, remembered. destruct (_ || _); set_solver. Qed.

Lemma clean_has_spec t k :
  let '(found, t') := clean_has t k in
  (found = true → k ∈ remembered t) ∧ (∀ d, d ∈ remembered t' → d ∈ remembered t).
Proof.
  unfold clean_has, in_map, remembered. case_bool_decide; [set_solver|].
  case_bool_decide; [|set_solver]. split; [set_solver|]. intros d Hd.
  apply addLocked_remembered in Hd as [?| ->]; [done|set_solver].
Qed.

Section memory.
(** The rules compiled under each generation. *)
Context (issued : Z → option (list compiledRule)).
Hypothesis cleanKey_inj :
  ∀ g s g' s', cleanKey g s = cleanKey g' s' → g = g' ∧ s = s'.

(** Everything remembered is a text no rule of its generation matches. *)
Definition clean_ok (t : cleanTexts) : Prop :=
  ∀ k, k ∈ remembered t →
    ∃ gen rules s, issued gen = Some rules ∧ k = cleanKey gen s ∧ unmatched rules s.

Lemma clean_ok_unmatched t gen rules s :
  clean_ok t → issued gen = Some rules → cleanKey gen s ∈ remembered t → unmatched rules s.
Proof.
  intros Ht Hi (g & r & s' & Hg & [-> ->]%cleanKey_inj & Hu)%Ht. congruence.
Qed.

Lemma clean_ok_sub t t' : (∀ d, d ∈ remembered t' → d ∈ remembered t) → clean_ok t → clean_ok t'.
Proof. intros Hsub Ht k Hk. by apply Ht, Hsub. Qed.

Lemma clean_ok_add t gen rules s :
  issued gen = Some rules → unmatched rules s → clean_ok t → clean_ok (addLocked t (cleanKey gen s)).
Proof.
  intros Hi Hu Hok k [Hin| ->]%addLocked_remembered; [by apply Hok|]. by exists gen, rules, s.
Qed.

Definition compiled_ok (c : compiled) : Prop :=
  c_remembers c = true → issued (c_gen c) = Some (c_rules c).

(** What the scan leaves: the skipped segments match no rule, and the keys are
    those of scanned segments that may be remembered. *)
Record scanned (c : compiled) (i : nat) (texts : list string) (scan : list nat)
    (keys : gmap nat Digest) (t' : cleanTexts) : Prop := {
  scanned_sub : scan `sublist_of` seq i (length texts);
  scanned_skip : ∀ j, (j < length texts)%nat → (i + j)%nat ∉ scan →
    unmatched (c_rules c) (seg texts j);
  scanned_keys : ∀ j k, keys !! (i + j)%nat = Some k → (j < length texts)%nat ∧
    k = cleanKey (c_gen c) (seg texts j) ∧ (i + j)%nat ∈ scan ∧ c_remembers c = true;
  scanned_low : ∀ j k, keys !! j = Some k → (i <= j)%nat;
  scanned_clean : clean_ok t';
}.

(** One more segment in front, scanned or not, with or without a key. *)
Lemma scanned_cons c i s texts scan keys t' (keep : bool) (ko : option Digest) :
  scanned c (S i) texts scan keys t' →
  (keep = false → unmatched (c_rules c) s) →
  (∀ k, ko = Some k → k = cleanKey (c_gen c) s ∧ c_remembers c = true ∧ keep = true) →
  scanned c i (s :: texts) (if keep then i :: scan else scan)
    (match ko with Some k => <[i := k]> keys | None => keys end) t'.
Proof.
  intros [Hsub Hskip Hkeys Hlow Hok] Hkeep Hko.
  assert (keys !! i = None) as Hi.
  { apply eq_None_not_Some. intros [k Hk]. apply Hlow in Hk. lia. }
  assert (∀ j, (i + S j)%nat = (S i + j)%nat) as HS by (intros; lia).
  assert (∀ j, (j ∈ if keep then i :: scan else scan) ↔ j ∈ scan ∨ j = i ∧ keep = true) as Hin.
  { intros j. destruct keep; set_solver. }
  split; simpl.
  - destruct keep; by constructor.
  - intros [|j] Hj; rewrite Hin.
    + rewrite Nat.add_0_r. destruct keep; [tauto|]. auto.
    + rewrite HS. intros Hn. apply (Hskip j); [lia|tauto].
  - setoid_rewrite Hin. intros [|j] k; [rewrite Nat.add_0_r|rewrite HS].
    + destruct ko as [k'|]; [|congruence]. rewrite lookup_insert_eq. intros [= <-].
      destruct (Hko k' eq_refl) as (-> & ? & ?). split; [lia|tauto].
    + destruct ko as [k'|]; [rewrite lookup_insert_ne by lia|]; intros Hk;
        apply Hkeys in Hk as (? & ? & ? & ?); (split; [lia|tauto]).
  - intros j k. destruct ko as [k'|]; [rewrite lookup_insert_Some|]; intros Hk.
    + destruct Hk as [[-> _]|[_ Hk]]; [done|]. apply Hlow in Hk. lia.
    + apply Hlow in Hk. lia.
  - done.
Qed.

Lemma scan_texts_spec c texts i t :
  compiled_ok c → clean_ok t →
  let '(scan, keys, t') := scan_texts t c i texts in scanned c i texts scan keys t'.
Proof.
  intros Hc. revert i t. induction texts as [|s texts IH]; intros i t Ht; simpl.
  { split; simpl; [done|lia|done..]. }
  destruct (c_remembers c && _) eqn:Hm; to_prop.
  - pose proof (clean_has_spec t (cleanKey (c_gen c) s)) as Hh.
    destruct (clean_has t _) as [fd t1]. destruct Hh as [Hf Hr].
    assert (clean_ok t1) as Ht1 by (by apply (clean_ok_sub t)).
    specialize (IH (S i) t1 Ht1). destruct (scan_texts t1 c (S i) texts) as [[scan keys] t'].
    destruct fd.
    + apply (scanned_cons c i s texts scan keys t' false None); [done| |done].
      intros _. eapply clean_ok_unmatched; [exact Ht|by apply Hc|auto].
    + apply (scanned_cons c i s texts scan keys t' true (Some _)); [done|done|].
      intros k [= <-]. done.
  - specialize (IH (S i) t Ht). destruct (scan_texts t c (S i) texts) as [[scan keys] t'].
    by apply (scanned_cons c i s texts scan keys t' true None).
Qed.

Lemma scan_plain c texts i t :
  c_remembers c = false → scan_texts t c i texts = (seq i (length texts), ∅, t).
Proof.
  intros Hc. revert i. induction texts as [|s texts IH]; intros i; simpl; [done|].
  by rewrite Hc, IH.
Qed.

Lemma add_clean_ok c texts (matched : list bool) keys t :
  compiled_ok c → clean_ok t →
  (∀ i k, (i, k) ∈ keys → c_remembers c = true ∧ k = cleanKey (c_gen c) (seg texts i) ∧
     (matched !! i ≠ Some true → unmatched (c_rules c) (seg texts i))) →
  clean_ok (foldl (λ t '(i, k), if default false (matched !! i) then t else addLocked t k) t keys).
Proof.
  intros Hc. revert t. induction keys as [|[i k] keys IH]; intros t Ht Hk; [done|]. simpl.
  apply IH; [|set_solver]. destruct (Hk i k) as (Hr & -> & Hu); [set_solver|].
  destruct (matched !! i) as [[]|] eqn:Hm; simpl; [done|..];
    (eapply clean_ok_add; [by apply Hc|by apply Hu|done]).
Qed.

(** A run over the segments not known to be clean gives what a run over all
    of them gives, and remembers nothing a rule matches. *)
Lemma runPattern_spec t c texts :
  compiled_ok c → clean_ok t →
  let plain := {| c_rules := c_rules c; c_err := c_err c; c_remembers := false; c_gen := 0 |} in
  (runPattern t c texts).1 = (runPattern clean_zero plain texts).1 ∧
  clean_ok (runPattern t c texts).2.
Proof.
  intros Hc Ht. simpl. unfold runPattern. simpl.
  destruct (c_err c); [by split|].
  match goal with |- context [scan_texts clean_zero ?p 0 texts] =>
    rewrite (scan_plain p texts 0 clean_zero) by done
  end.
  pose proof (scan_texts_spec c texts 0 t Hc Ht) as Hs.
  destruct (scan_texts t c 0 texts) as [[scan keys] t1].
  destruct Hs as [Hsub Hskip Hkeys _ Hok]. set (m0 := replicate (length texts) false).
  assert (Forall (λ i, i < length m0)%nat (seq 0 (length texts))) as Hall.
  { apply Forall_forall. intros i [_ Hi]%elem_of_seq. unfold m0. by rewrite length_replicate. }
  assert (rules_loop (c_rules c) scan texts m0 [] =
          rules_loop (c_rules c) (seq 0 (length texts)) texts m0 []) as Heq.
  { rewrite (sublist_is_filter _ _ Hsub) at 1 by apply NoDup_seq.
    apply rules_loop_skip; [done|]. intros j [_ Hj]%elem_of_seq. by apply Hskip. }
  destruct (rules_loop (c_rules c) scan texts m0 []) as [res matched] eqn:Hloop.
  rewrite <- Heq. destruct res as [| |out' hits']; simpl; try done. split; [done|].
  apply (add_clean_ok c texts); [done..|]. intros i k Hk%elem_of_map_range.
  destruct (Hkeys i k Hk) as (Hi & -> & Hin & Hr). simpl in Hin. split; [done|split; [done|]].
  intros Hm. eapply rules_loop_unmatched in Hloop as [Hu _]; [done| |done|done].
  apply Forall_forall. intros j Hj. eapply elem_of_sublist in Hsub; [|done].
  by eapply Forall_forall in Hall.
Qed.
End memory.

(** *** The cache over a sequence of requests *)

Section requests.
Implicit Types issued : gmap Z (list compiledRule).
Hypothesis cleanKey_inj :
  ∀ g s g' s', cleanKey g s = cleanKey g' s' → g = g' ∧ s = s'.

(** A write time names one version of a filter: the control plane sets it with
    every edit. *)
Definition versions (fs : list Filter) : Prop :=
  ∀ f g, f ∈ fs → g ∈ fs → cache_key f = cache_key g → F_UpdatedAt f = F_UpdatedAt g →
    F_Rules f = F_Rules g.

Definition compiled_from (f : Filter) (c : compiled) : Prop :=
  c_rules c = c_rules (compileRules (F_Rules f)) ∧ c_err c = c_err (compileRules (F_Rules f)).

Record cache_ok (issued : gmap Z (list compiledRule)) (fs : list Filter) (c : patternCache)
    : Prop := {
  ok_entries : ∀ key e, pc_m c !! key = Some e →
    ∃ f, f ∈ fs ∧ cache_key f = key ∧ F_UpdatedAt f = e_updatedAt e ∧
      compiled_from f (e_compiled e) ∧ compiled_ok (λ g, issued !! g) (e_compiled e);
  ok_clean : clean_ok (λ g, issued !! g) (pc_clean c);
  ok_gens : ∀ g rules, issued !! g = Some rules → g <= pc_gens c;
  ok_range : 0 <= pc_gens c < two64;
}.

Lemma compileRules_plain rules :
  compileRules rules =
  {| c_rules := c_rules (compileRules rules); c_err := c_err (compileRules rules);
     c_remembers := false; c_gen := 0 |}.
Proof. unfold compileRules, broken. destruct rules; [done|]. by destruct (compile_each _). Qed.

Lemma compiled_ok_mono issued issued' c :
  issued ⊆ issued' → compiled_ok (λ g, issued !! g) c → compiled_ok (λ g, issued' !! g) c.
Proof. intros Hsub Hc Hr. by eapply lookup_weaken; [apply Hc|]. Qed.

Lemma clean_ok_mono issued issued' t :
  issued ⊆ issued' → clean_ok (λ g, issued !! g) t → clean_ok (λ g, issued' !! g) t.
Proof.
  intros Hsub Ht k (g & r & s & Hi & -> & Hu)%Ht. exists g, r, s. split_and!; try done.
  by eapply lookup_weaken.
Qed.

Lemma rulesFor_spec issued fs c f :
  cache_ok issued fs c → f ∈ fs → versions fs → pc_gens c < two64 - 1 →
  let '(rules, c') := rulesFor c f in
  ∃ issued', issued ⊆ issued' ∧ cache_ok issued' fs c' ∧ pc_gens c' <= pc_gens c + 1 ∧
    compiled_from f rules ∧ compiled_ok (λ g, issued' !! g) rules.
Proof.
  intros [He Hc Hg Hr] Hf Hv Hlt. unfold rulesFor.
  set (out := compileRules (F_Rules f)). set (gen := (pc_gens c + 1) mod two64).
  assert (gen = pc_gens c + 1) as Hgen by (apply Z.mod_small; lia).
  set (fresh := match c_err out with Some _ => _ | None => _ end).
  assert (let '(rules, c') := fresh in ∃ issued', issued ⊆ issued' ∧ cache_ok issued' fs c' ∧
    pc_gens c' <= pc_gens c + 1 ∧ compiled_from f rules ∧ compiled_ok (λ g, issued' !! g) rules)
    as Hfresh.
  { subst fresh. destruct (c_err out) as [err|] eqn:Herr.
    - exists issued. assert (compiled_ok (λ g, issued !! g) out) as Hout.
      { unfold out. rewrite compileRules_plain. done. }
      split_and!; [done| |simpl; lia|by split|done]. split; simpl; [|done..].
      intros key e [[<- <-]|[_ ?]]%lookup_insert_Some; [|eauto]. exists f. by split_and!.
    - set (out' := {| c_rules := c_rules out; c_err := None; c_remembers := true; c_gen := gen |}).
      assert (issued !! gen = None) as Hnew.
      { apply eq_None_not_Some. intros [r Hi%Hg]. lia. }
      assert (issued ⊆ <[gen := c_rules out]> issued) as Hsub by by apply insert_subseteq.
      exists (<[gen := c_rules out]> issued).
      assert (compiled_from f out') as Hcf by (split; [done|exact (eq_sym Herr)]).
      assert (compiled_ok (λ g, <[gen := c_rules out]> issued !! g) out') as Hok.
      { intros _. apply lookup_insert_eq. }
      split_and!; [done| |simpl; lia|done|done]. split; simpl.
      + intros key e [[<- <-]|[_ Hk]]%lookup_insert_Some.
        * exists f. by split_and!.
        * destruct (He key e Hk) as (f' & ? & ? & ? & ? & ?). exists f'. split_and!; try done.
          by eapply compiled_ok_mono.
      + by eapply clean_ok_mono.
      + intros g r [[<- _]|[_ Hi%Hg]]%lookup_insert_Some; lia.
      + lia. }
  destruct (pc_m c !! cache_key f) as [e|] eqn:Hk; [|exact Hfresh].
  destruct (e_updatedAt e =? F_UpdatedAt f) eqn:Ht; [|exact Hfresh]. to_prop.
  destruct (He _ _ Hk) as (f' & Hf' & Hkey & Hat & Hfrom & Hok).
  exists issued. split_and!; [done|done|lia| |done].
  unfold compiled_from in *. by rewrite (Hv f f') by congruence.
Qed.

Lemma run_requests_spec issued fs c reqs :
  cache_ok issued fs c → (∀ r, r ∈ reqs → r.1 ∈ fs) → versions fs →
  pc_gens c + Z.of_nat (length reqs) < two64 →
  (run_requests c reqs).1 = (λ '(f, texts), run_plain f texts) <$> reqs.
Proof.
  revert issued c. induction reqs as [|[f texts] reqs IH]; intros issued c Hc Hin Hv Hlt; [done|].
  simpl in Hlt. cbn [run_requests]. unfold runPatternFilter.
  pose proof (rulesFor_spec issued fs c f Hc) as H2.
  destruct (rulesFor c f) as [rules c1].
  destruct H2 as (issued' & _ & [He Hcl Hg Hr] & Hle & [Hf1 Hf2] & Hok);
    [apply (Hin (f, texts)); left|done|lia|].
  destruct (runPattern_spec (λ g, issued' !! g) cleanKey_inj (pc_clean c1) rules texts Hok Hcl)
    as [Hres Hcl'].
  destruct (runPattern (pc_clean c1) rules texts) as [res t'].
  match goal with |- context [run_requests ?c2 reqs] =>
    pose proof (IH issued' c2) as IH2; destruct (run_requests c2 reqs) as [rs c3] end.
  simpl in *. rewrite IH2; [|by split|set_solver|done|lia]. f_equal.
  rewrite Hres. unfold run_plain. by rewrite (compileRules_plain (F_Rules f)), Hf1, Hf2.
Qed.
End requests.
End patterns.

(** ** What a run leaves *)

Section outcome.
Context `{Regexp} `{MapRange} `{Countable Digest} (cleanKey : Z → string → Digest).

Lemma compile_each_spec rules :
  (∀ r, r ∈ rules → FilterRule_Valid r = None) →
  ∃ cs, compile_each rules = inr cs ∧ rule <$> cs = rules ∧
    Forall (λ cr, regexp_Compile (Pattern (rule cr)) = inr (re cr)) cs.
Proof.
  induction rules as [|r rules IH]; intros Hv; [by exists []|].
  destruct IH as (cs & Hcs & Hr & Hall); [set_solver|].
  assert (FilterRule_Valid r = None) as Hr0 by (apply Hv; left). unfold FilterRule_Valid in Hr0.
  simpl. destruct (regexp_Compile (Pattern r)) as [err|x] eqn:Hx; [by repeat case_match|].
  rewrite Hcs. eexists. split; [done|]. split; [by rewrite <- Hr|]. by constructor.
Qed.

Lemma rule_loop_outcome cr scan out matched n :
  match rule_loop cr scan out matched n with
  | (_, None) => Refuse (rule cr) = true
  | (n', Some (out', _)) => length out' = length out ∧
      (Refuse (rule cr) = true → n' = n ∧ out' = out ∧
         ∀ i, i ∈ scan → found cr (seg out i) = 0%nat)
  end.
Proof.
  revert out matched n. induction scan as [|i scan IH]; intros out matched n; simpl; [set_solver|].
  fold (seg out i). destruct (found cr (seg out i) =? 0)%nat eqn:Hn.
  - apply Nat.eqb_eq in Hn. specialize (IH out matched n).
    destruct (rule_loop cr scan out matched n) as [n' [[out' m']|]]; [|done]. set_solver.
  - destruct (Refuse (rule cr)) eqn:Hr; [done|].
    match goal with |- context [rule_loop cr scan ?o ?m ?k] => specialize (IH o m k);
      destruct (rule_loop cr scan o m k) as [n' [[out' m']|]] end; [|congruence].
    rewrite length_insert in IH. naive_solver.
Qed.

Lemma rules_loop_outcome rules scan out matched hits :
  match (rules_loop rules scan out matched hits).1 with
  | PatternBroken _ => False
  | PatternRefused _ reason =>
      ∃ cr, cr ∈ rules ∧ Refuse (rule cr) = true ∧ reason = sanitizeReason (Reason (rule cr))
  | PatternDone out' hits' => length out' = length out ∧
      (Forall (λ cr, Refuse (rule cr) = true) rules →
         out' = out ∧ hits' = hits ∧ ∀ i, i ∈ scan → unmatched rules (seg out i))
  end.
Proof.
  revert out matched hits. induction rules as [|cr rules IH]; intros out matched hits; simpl.
  { split; [done|]. intros _. split_and!; try done. intros. by constructor. }
  pose proof (rule_loop_outcome cr scan out matched 0) as Hl.
  destruct (rule_loop cr scan out matched 0) as [n' [[out1 m1]|]]; simpl.
  - destruct Hl as [Hlen Href].
    match goal with |- context [rules_loop rules scan out1 m1 ?h] => specialize (IH out1 m1 h) end.
    destruct (rules_loop _ _ _ _ _).1; [done| |].
    + destruct IH as (cr' & ? & ?). exists cr'. set_solver.
    + destruct IH as [Hl2 IH]. split; [congruence|]. intros [Hr Hrs]%Forall_cons.
      destruct (Href Hr) as (-> & -> & Hf). destruct (IH Hrs) as (-> & -> & Hu).
      split_and!; try done. intros i Hi. constructor; [by apply Hf|by apply Hu].
  - exists cr. set_solver.
Qed.

(** A pattern filter the control plane accepted always comes to a verdict:
    its rules compile, so it is never broken. It refuses only by one of its
    own refusing rules, with that rule's reason; it never loses a segment;
    and one whose rules all refuse lets a request through only unchanged and
    only when no rule matches any of its segments. *)
Theorem accepted_filter_outcome (f : Filter) (texts : list string) :
  F_Rules f ≠ [] → (∀ r, r ∈ F_Rules f → FilterRule_Valid r = None) →
  match run_plain cleanKey f texts with
  | PatternBroken _ => False
  | PatternRefused _ reason =>
      ∃ r, r ∈ F_Rules f ∧ Refuse r = true ∧ reason = sanitizeReason (Reason r)
  | PatternDone out hits => length out = length texts ∧
      ((∀ r, r ∈ F_Rules f → Refuse r = true) →
         out = texts ∧ hits = [] ∧
         ∀ s r re, s ∈ texts → r ∈ F_Rules f → regexp_Compile (Pattern r) = inr re →
           FindAllStringIndex re s = [])
  end.
Proof.
  intros Hne Hv. destruct (compile_each_spec _ Hv) as (cs & Hcs & Hrules & Hall).
  unfold run_plain, runPattern.
  assert (compileRules (F_Rules f) =
    {| c_rules := cs; c_err := None; c_remembers := false; c_gen := 0 |}) as ->.
  { unfold compileRules. rewrite Hcs. by destruct (F_Rules f). }
  simpl. rewrite scan_plain by done.
  pose proof (rules_loop_outcome cs (seq 0 (length texts)) texts
    (replicate (length texts) false) []) as H2.
  destruct (rules_loop cs _ texts _ []) as [[err|hits reason|out hits] m]; simpl in *; [done| |].
  - destruct H2 as (cr & Hin & Href & ->). exists (rule cr). rewrite <- Hrules.
    split_and!; [by apply list_elem_of_fmap_2|done..].
  - destruct H2 as [Hl Hrest]. split; [done|]. intros Href.
    destruct Hrest as (-> & -> & Hu).
    { apply Forall_forall. intros cr Hcr. apply Href. rewrite <- Hrules.
      by apply list_elem_of_fmap_2. }
    split_and!; [done..|]. intros s r x [i Hi]%list_elem_of_lookup_1 Hr Hx.
    assert (unmatched cs s) as Hs.
    { specialize (Hu i). unfold seg in Hu. rewrite Hi in Hu. apply Hu, elem_of_seq.
      apply lookup_lt_Some in Hi. lia. }
    rewrite <- Hrules in Hr. apply list_elem_of_fmap_1 in Hr as (cr & -> & Hcr).
    unfold unmatched in Hs. rewrite Forall_forall in Hs, Hall. specialize (Hs cr Hcr).
    specialize (Hall cr Hcr). simpl in Hall. rewrite Hx in Hall. injection Hall as ->. by apply length_zero_iff_nil.
Qed.
End outcome.

(** C36: the memory of clean segments and the cache of compiled rules change
    nothing. Over any sequence of requests through any pattern filters, each
    request gets the verdict, the text and the hits it would get from rules
    compiled anew and run over every one of its segments. It holds while a
    filter's write time names one version of it, while SHA-256 tells the
    scanned texts apart, and for fewer than 2^64 runs. *)
Theorem pattern_memory_transparent `{Regexp} `{MapRange} `{Countable Digest}
    (cleanKey : Z → string → Digest) (reqs : list (Filter * list string)) :
  (∀ g s g' s', cleanKey g s = cleanKey g' s' → g = g' ∧ s = s') →
  versions reqs.*1 → Z.of_nat (length reqs) < two64 →
  (run_requests cleanKey cache_zero reqs).1 = (λ '(f, texts), run_plain cleanKey f texts) <$> reqs.
Proof.
  intros Hinj Hv Hlt. apply (run_requests_spec cleanKey Hinj ∅ reqs.*1); [|set_solver|done|done].
  split; simpl; [by intros ?? []%lookup_empty_Some| |by intros ?? []%lookup_empty_Some|done].
  intros k Hk. unfold remembered in Hk. set_solver.
Qed.

(** An engine whose expressions are single bytes, for the examples. *)
Fixpoint byte_matches (c : Ascii.ascii) (i : Z) (s : string) : list (Z * Z) :=
  match s with
  | EmptyString => []
  | String a s =>
      if bool_decide (a = c) then (i, i + 1) :: byte_matches c (i + 1) s else byte_matches c (i + 1) s
  end.

Fixpoint byte_replace (c : Ascii.ascii) (s by_ : string) : string :=
  match s with
  | EmptyString => EmptyString
  | String a s =>
      if bool_decide (a = c) then by_ +:+ byte_replace c s by_ else String a (byte_replace c s by_)
  end.

#[local] Instance byte_regexp : Regexp :=
  {| Regex := Ascii.ascii;
     regexp_Compile p := match p with String c EmptyString => inr c | _ => inl "not one byte" end;
     FindAllStringIndex c s := byte_matches c 0 s;
     ReplaceAllLiteralString := byte_replace |}.

Definition sample_filter : Filter :=
  {| F_OrgID := "org_1"; F_Alias := "ibans"; F_Model := ""; F_Mode := FilterModePattern;
     F_Prompt := "";
     F_Rules := [{| Pattern := "#"; Replace := "[number]"; Refuse := false; Reason := "" |};
                 {| Pattern := "!"; Replace := ""; Refuse := true; Reason := "a shout" |}];
     F_Shadow := false; F_Description := ""; F_CreatedAt := 0; F_UpdatedAt := 1 |}.

Definition long_text : string := String.concat "" (repeat "0123456789abcdef" 33).

Definition sample_requests : list (Filter * list string) :=
  [(sample_filter, [long_text; "call #7"]); (sample_filter, [long_text; "no!"]);
   (sample_filter, [long_text])].

Lemma pattern_memory_transparent_witness :
  (run_requests (λ g s, (g, s)) cache_zero sample_requests).1 =
  [PatternDone [long_text; "call [number]7"]
     [{| Hit_Rule := "#"; Hit_Matches := 1; Hit_Refused := false |}];
   PatternRefused [{| Hit_Rule := "!"; Hit_Matches := 1; Hit_Refused := true |}] "a shout";
   PatternDone [long_text] []].
Proof.
  rewrite (pattern_memory_transparent (λ g s, (g, s)) sample_requests).
  - vm_compute. reflexivity.
  - intros g s g' s' [= -> ->]. done.
  - intros f g Hf Hg _ _.
    assert (∀ x, x ∈ sample_requests.*1 → x = sample_filter) as Hx by (simpl; set_solver).
    by rewrite (Hx f Hf), (Hx g Hg).
  - reflexivity.
Defined.

Lemma accepted_filter_outcome_witness :
  match run_plain (λ g s, (g, s)) sample_filter ["call #7"] with
  | PatternBroken _ => False
  | PatternRefused _ reason =>
      ∃ r, r ∈ F_Rules sample_filter ∧ Refuse r = true ∧ reason = sanitizeReason (Reason r)
  | PatternDone out hits => length out = 1%nat ∧
      ((∀ r, r ∈ F_Rules sample_filter → Refuse r = true) →
         out = ["call #7"] ∧ hits = [] ∧
         ∀ s r re, s ∈ ["call #7"] → r ∈ F_Rules sample_filter →
           regexp_Compile (Pattern r) = inr re → FindAllStringIndex re s = [])
  end.
Proof.
  apply (accepted_filter_outcome (λ g s, (g, s)) sample_filter ["call #7"]); [done|].
  simpl. intros r Hr. apply elem_of_cons in Hr as [->|Hr]; [reflexivity|].
  apply list_elem_of_singleton in Hr as ->. reflexivity.
Defined.
