(* ===== verification/Routers.v ===== *)
(** * Routers, their steps and route steps

    [Router], [Step], [StepKind] and the walk of [internal/policy/router.go],
    and [Route] and [RouteMode] of [internal/policy/policy.go]. *)
From S2P Require Import Prelude Tenancy Pricing Guardrails Filters.

(** ** Route modes *)

Definition RouteModeInstruction : string := "instruction".
Definition RouteModeFallback : string := "fallback".
Definition RouteModeLatency : string := "latency".
Definition RouteModeLeastBusy : string := "least-busy".
Definition RouteModeSize : string := "size".
Definition RouteModeHeader : string := "header".

Definition routeModes : list string :=
  [RouteModeInstruction; RouteModeFallback; RouteModeLatency; RouteModeLeastBusy;
   RouteModeSize; RouteModeHeader].

Definition RouteMode_Valid (m : string) : bool := bool_decide (m = "") || contains routeModes m.

Definition RouteMode_Decides (m : string) : bool :=
  bool_decide (m = "") || bool_decide (m = RouteModeInstruction).

Definition RouteMode_Chooses (m : string) : bool :=
  RouteMode_Decides m || bool_decide (m = RouteModeHeader).

Definition RouteMode_Measures (m : string) : bool :=
  bool_decide (m = RouteModeLatency) || bool_decide (m = RouteModeLeastBusy).

Definition RouteMode_Sizes (m : string) : bool := bool_decide (m = RouteModeSize).

(** ** Routes *)

Record Route := {
  Rt_OrgID : string;
  Rt_Router : string;
  Rt_Step : string;
  Rt_Mode : string;
  Rt_Model : string;
  Rt_Prompt : string;
  Rt_Destinations : list string;
  Rt_Ceilings : gmap string Z;
  Rt_Header : string;
  Rt_Values : gmap string string;
  Rt_Fallback : string;
}.

Definition Refuses (r : Route) : bool := bool_decide (Rt_Fallback r = "").

Definition Route_Decides (r : Route) : bool :=
  RouteMode_Decides (Rt_Mode r) && (1 <? length (Rt_Destinations r))%nat.

Definition Route_Chooses (r : Route) : bool :=
  Route_Decides r || bool_decide (Rt_Mode r = RouteModeHeader).

Definition Route_ReadsWith (r : Route) : string :=
  if negb (RouteMode_Decides (Rt_Mode r)) then "" else Rt_Model r.

Definition Route_Measures (r : Route) : bool := RouteMode_Measures (Rt_Mode r).
Definition Route_Sizes (r : Route) : bool := RouteMode_Sizes (Rt_Mode r).

(** [Route.Ceiling]: a missing key reads as zero. *)
Definition Ceiling (ceilings : gmap string Z) (alias : string) : Z * bool :=
  match ceilings !! alias with
  | Some n => (n, n >? 0)
  | None => (0, false)
  end.

Definition Unbounded (destinations : list string) (ceilings : gmap string Z) : list string :=
  filter (λ alias, (Ceiling ceilings alias).2 = false) destinations.

(** ** Steps *)

Definition StepFilter : string := "filter".
Definition StepRoute : string := "route".
Definition StepRateLimit : string := "rate_limit".
Definition StepBudget : string := "budget".
Definition StepModel : string := "model".
Definition StepSystemPrompt : string := "system_prompt".

Definition stepKinds : list string :=
  [StepFilter; StepRoute; StepRateLimit; StepBudget; StepModel; StepSystemPrompt].

Definition StepKind_Limits (k : string) : bool :=
  bool_decide (k = StepRateLimit) || bool_decide (k = StepBudget).

Definition StepKind_Names (k : string) : bool :=
  bool_decide (k = StepFilter) || bool_decide (k = StepModel).

(** A step and all that follows it; a nil pointer is [None]. *)
Inductive Step := MkStep {
  St_ID : string;
  St_Kind : string;
  St_Ref : string;
  St_Requests : Z;
  St_Tokens : Z;
  St_BudgetMicros : Z;
  St_Prompt : string;
  St_Mode : string;
  St_Model : string;
  St_Destinations : list string;
  St_Ceilings : gmap string Z;
  St_Fallback : string;
  St_Header : string;
  St_Values : gmap string string;
  St_Period : string;
  St_Next : option Step;
  St_Exceeded : option Step;
  St_Branches : gmap string (option Step);
}.

Record Router := {
  Ro_OrgID : string;
  Ro_Alias : string;
  Ro_DisplayName : string;
  Ro_Description : string;
  Ro_Start : option Step;
  Ro_CreatedAt : Z;
  Ro_UpdatedAt : Z;
}.

Definition MaxStepPromptBytes : Z := 16384.
Definition MaxRoutePromptBytes : Z := 4096.
Definition MaxRouterSteps : Z := 64.
Definition MaxHeaderValues : Z := 32.
Definition MaxDestinations : Z := 16.

(** ** The walk *)

(** A function passed to a Go iterator: whether to go on, and the variables of
    the loop's body. *)
Definition Yield (S : Type) : Type := Step → S → bool * S.

(** Runs the walks one after the other, stopping at the first that stops. *)
Fixpoint walk_each {S} (walks : list (S → bool * S)) (st : S) : bool * S :=
  match walks with
  | [] => (true, st)
  | w :: walks => let '(go, st) := w st in if go then walk_each walks st else (false, st)
  end.

(** [walkSteps] from a step that is not nil. *)
Fixpoint walkSteps {S} (yield : Yield S) (s : Step) (st : S) : bool * S :=
  let walk (o : option Step) (st : S) : bool * S :=
    match o with None => (true, st) | Some n => walkSteps yield n st end in
  let branches := walk <$> St_Branches s in
  walk_each
    (yield s :: walk (St_Next s) :: walk (St_Exceeded s) ::
     omap (λ dest, branches !! dest) (sorted_keys (St_Branches s))) st.

(** The steps the walk yields when no body stops it. *)
Fixpoint stepsOf (s : Step) : list Step :=
  let below (o : option Step) : list Step := match o with None => [] | Some n => stepsOf n end in
  let branches := below <$> St_Branches s in
  s :: below (St_Next s) ++ below (St_Exceeded s) ++
    mjoin (omap (λ dest, branches !! dest) (sorted_keys (St_Branches s))).

Definition steps_below (o : option Step) : list Step :=
  match o with None => [] | Some n => stepsOf n end.

(** [Router.Steps], as the list a [range] over it visits. *)
Definition Steps (p : Router) : list Step := steps_below (Ro_Start p).

(** A [range] loop over a list with a body that may leave it. *)
Fixpoint range_list {S} (yield : Yield S) (l : list Step) (st : S) : bool * S :=
  match l with
  | [] => (true, st)
  | s :: l => let '(go, st) := yield s st in if go then range_list yield l st else (false, st)
  end.

(** ** What a router names *)

(** [Router.Uses]. *)
Definition Uses (p : Router) (kind alias : string) : bool :=
  existsb (λ s,
    bool_decide (St_Kind s = kind) && bool_decide (St_Ref s = alias) ||
    bool_decide (kind = StepModel) && bool_decide (St_Kind s = StepRoute) &&
      (bool_decide (St_Model s = alias) || contains (St_Destinations s) alias)) (Steps p).

(** [Router.Route]. *)
Definition route_of (p : Router) (s : Step) : Route :=
  {| Rt_OrgID := Ro_OrgID p; Rt_Router := Ro_Alias p; Rt_Step := St_ID s;
     Rt_Mode := St_Mode s; Rt_Model := St_Model s; Rt_Prompt := St_Prompt s;
     Rt_Destinations := St_Destinations s; Rt_Ceilings := St_Ceilings s;
     Rt_Header := St_Header s; Rt_Values := St_Values s; Rt_Fallback := St_Fallback s |}.

Definition Routes (p : Router) : list Route :=
  omap (λ s, if bool_decide (St_Kind s = StepRoute) then Some (route_of p s) else None) (Steps p).

Definition Step_RateLimit (s : Step) : RateLimit :=
  {| RL_Requests := St_Requests s; RL_Tokens := St_Tokens s; RL_Period := St_Period s |}.

Definition Step_Budget (s : Step) : Budget :=
  {| B_BudgetMicros := St_BudgetMicros s; B_Period := St_Period s |}.

(** [Router.Scopes]: what a limit step counts under. [count] returns nil when
    it made no quota, even for a windowed limit whose amounts are zero. *)
Definition Router_Scopes (p : Router) (s : Step) : list Scope :=
  let id := Ro_OrgID p +:+ "/" +:+ Ro_Alias p +:+ "/" +:+ St_ID s in
  if bool_decide (St_Kind s = StepBudget) then
    let b := Step_Budget s in
    [{| SType := ScopeRouter; SID := id; RPM := 0; TPM := 0; BudgetMicros := B_BudgetMicros b;
        SPeriod := Budget_Per b; SMeter := MeterCost; Quota := 0 |}]
  else
    let month := {| SType := ScopeRouter; SID := id; RPM := 0; TPM := 0; BudgetMicros := 0;
                    SPeriod := PeriodMonth; SMeter := MeterCost; Quota := 0 |} in
    match RateLimit_count (Step_RateLimit s) month with
    | (month, []) => [month]
    | (_, q) => q
    end.

(** The branch of a destination: nil when there is none. *)
Definition branch_of (s : Step) (dest : string) : option Step :=
  match St_Branches s !! dest with Some b => b | None => None end.

(** The models one step sends to. *)
Definition step_reaches (s : Step) : list string :=
  if bool_decide (St_Kind s = StepModel) then [St_Ref s]
  else if bool_decide (St_Kind s = StepRoute)
  then filter (λ d, branch_of s d = None) (St_Destinations s)
  else [].

(** [Router.Reaches]. *)
Definition Reaches (p : Router) : list string :=
  foldl (λ out s, foldl append_new out (step_reaches s)) [] (Steps p).

(** [Router.ReadsWith]. *)
Definition Router_ReadsWith (p : Router) : list string :=
  foldl (λ out rt, let m := Route_ReadsWith rt in
    if negb (bool_decide (m = "")) && negb (contains out m) then out ++ [m] else out)
    (Reaches p) (Routes p).

(** [Resolved.MayCallRouter]; [find] looks a model up by alias. *)
Definition MayCallRouter (r : Resolved) (p : Router) (find : string → option Model) : bool :=
  if negb (allowsModel r (Ro_Alias p)) || Key_Subscription (R_Key r) then false
  else match R_AllowedLocations r with
  | None => true
  | Some _ =>
      forallb (λ alias,
        match find alias with
        | Some m => AllowsLocation r (Location m)
        | None => false
        end) (Router_ReadsWith p)
  end.

(** ** Lemmas *)

(** One step follows another directly. *)
Inductive child : Step → Step → Prop :=
  | child_next s n : St_Next s = Some n → child s n
  | child_exceeded s n : St_Exceeded s = Some n → child s n
  | child_branch s dest n : St_Branches s !! dest = Some (Some n) → child s n.

Lemma stepsOf_unfold s :
  stepsOf s = s :: steps_below (St_Next s) ++ steps_below (St_Exceeded s) ++
    mjoin (omap (λ dest, steps_below <$> St_Branches s !! dest) (sorted_keys (St_Branches s))).
Proof.
  destruct s. cbn [stepsOf]. do 4 f_equal. apply omap_ext_fun. intros k. apply lookup_fmap.
Qed.

Lemma elem_of_stepsOf s n :
  n ∈ stepsOf s ↔ n = s ∨ ∃ c, child s c ∧ n ∈ stepsOf c.
Proof.
  rewrite stepsOf_unfold, elem_of_cons, !elem_of_app, list_elem_of_join.
  setoid_rewrite list_elem_of_omap. setoid_rewrite elem_of_sorted_keys. split.
  - intros [->|[H|[H|(l & Hn & k & _ & Hk)]]]; [by left|right..].
    + destruct (St_Next s) as [c|] eqn:?; [|set_solver]. exists c. split; [by constructor|done].
    + destruct (St_Exceeded s) as [c|] eqn:?; [|set_solver]. exists c. by split; [constructor 2|].
    + destruct (St_Branches s !! k) as [[c|]|] eqn:?; simplify_eq/=; [|set_solver].
      exists c. by split; [econstructor 3|].
  - intros [->|(c & Hc & Hn)]; [by left|right]. destruct Hc as [s c Hc|s c Hc|s k c Hc].
    + left. by rewrite Hc.
    + right. left. by rewrite Hc.
    + right. right. exists (stepsOf c). split; [done|]. exists k. by rewrite Hc.
Qed.

Lemma child_shorter s n : child s n → (length (stepsOf n) < length (stepsOf s))%nat.
Proof.
  intros Hc. rewrite (stepsOf_unfold s). simpl. rewrite !length_app.
  destruct Hc as [s n Hc|s n Hc|s k n Hc]; [rewrite Hc; simpl; lia..|].
  assert (∀ (ls : list (list Step)) l, l ∈ ls → length l <= length (mjoin ls))%nat as Hj.
  { intros ls. induction ls as [|l' ls IH]; intros l Hl; [by apply elem_of_nil in Hl|].
    simpl. rewrite length_app. apply elem_of_cons in Hl as [->|Hl]; [lia|].
    specialize (IH l Hl). lia. }
  match goal with |- context [length (mjoin ?ls)] =>
    assert (length (stepsOf n) <= length (mjoin ls))%nat; [apply Hj|lia] end.
  apply list_elem_of_omap. exists k. rewrite elem_of_sorted_keys, Hc. by split.
Qed.

(** Induction over a router's tree. *)
Lemma step_ind (P : Step → Prop) :
  (∀ s, (∀ n, child s n → P n) → P s) → ∀ s, P s.
Proof.
  intros H s. induction s as [s IH] using (well_founded_induction
    (well_founded_ltof _ (λ s, length (stepsOf s)))).
  apply H. intros n Hn. by apply IH, child_shorter.
Qed.

Section walk.
Context {S : Type} (yield : Yield S).
Implicit Types (s n : Step) (st : S).

Lemma range_list_app l1 l2 st :
  range_list yield (l1 ++ l2) st =
  let '(go, st) := range_list yield l1 st in if go then range_list yield l2 st else (false, st).
Proof.
  revert st. induction l1 as [|s l1 IH]; intros st; simpl; [done|].
  destruct (yield s st) as [[] st']; [apply IH|done].
Qed.

Definition walk_opt (o : option Step) (st : S) : bool * S :=
  match o with None => (true, st) | Some n => walkSteps yield n st end.

Lemma walkSteps_unfold s st :
  walkSteps yield s st =
  walk_each (yield s :: walk_opt (St_Next s) :: walk_opt (St_Exceeded s) ::
    omap (λ dest, walk_opt <$> St_Branches s !! dest) (sorted_keys (St_Branches s))) st.
Proof.
  destruct s. cbn [walkSteps]. do 4 f_equal. apply omap_ext_fun. intros k. apply lookup_fmap.
Qed.

(** The Go iterator visits the steps of the list, in its order, until a body
    stops it. *)
Lemma walkSteps_list s st : walkSteps yield s st = range_list yield (stepsOf s) st.
Proof.
  revert st. induction s as [s IH] using step_ind. intros st.
  rewrite walkSteps_unfold, stepsOf_unfold. simpl.
  assert (∀ o st, (∀ n, o = Some n → child s n) →
    walk_opt o st = range_list yield (steps_below o) st) as Hopt.
  { intros [n|] st' Ho; [by apply IH, Ho|done]. }
  destruct (yield s st) as [[] st1]; [|done]. rewrite !range_list_app.
  rewrite Hopt by (by constructor). destruct (range_list yield _ st1) as [[] st2]; [|done].
  rewrite range_list_app, Hopt by (by constructor 2).
  destruct (range_list yield _ st2) as [[] st3]; [|done].
  generalize st3. induction (sorted_keys (St_Branches s)) as [|k l IHl]; intros st'; [done|]. simpl.
  destruct (St_Branches s !! k) as [o|] eqn:Hk; simpl; [|apply IHl]. rewrite range_list_app.
  rewrite Hopt by (intros n ->; by econstructor 3).
  destruct (range_list yield _ st') as [[] st4]; [apply IHl|done].
Qed.
End walk.

(** *** Kinds and modes *)

Lemma Unbounded_spec dests ceilings d :
  d ∈ Unbounded dests ceilings ↔ d ∈ dests ∧ ∀ n, ceilings !! d = Some n → n <= 0.
Proof.
  unfold Unbounded, Ceiling. rewrite list_elem_of_filter.
  destruct (ceilings !! d) as [n|]; simpl; [|naive_solver].
  rewrite Z.gtb_ltb, Z.ltb_ge. naive_solver.
Qed.

(** *** Reaches *)

Lemma elem_of_append_all (out l : list string) (x : string) : x ∈ foldl append_new out l ↔ x ∈ out ∨ x ∈ l.
Proof.
  revert out. induction l as [|y l IH]; intros out; simpl; [set_solver|].
  rewrite IH, elem_of_append_new. set_solver.
Qed.

Lemma elem_of_Reaches p alias :
  alias ∈ Reaches p ↔ ∃ s, s ∈ Steps p ∧ alias ∈ step_reaches s.
Proof.
  unfold Reaches. transitivity (alias ∈ ([] : list string) ∨
    ∃ s, s ∈ Steps p ∧ alias ∈ step_reaches s); [|set_solver].
  generalize (@nil string). induction (Steps p) as [|s l IH]; intros out; simpl; [set_solver|].
  rewrite IH, elem_of_append_all. set_solver.
Qed.

Lemma elem_of_reads (rts : list Route) (out : list string) alias :
  alias ∈ foldl (λ out rt, let m := Route_ReadsWith rt in
    if negb (bool_decide (m = "")) && negb (contains out m) then out ++ [m] else out) out rts ↔
  alias ∈ out ∨ alias ≠ "" ∧ alias ∈ Route_ReadsWith <$> rts.
Proof.
  revert out. induction rts as [|rt rts IH]; intros out; [set_solver|].
  simpl foldl. rewrite IH, fmap_cons, elem_of_cons. clear IH.
  assert (alias ∈ (if negb (bool_decide (Route_ReadsWith rt = "")) &&
                      negb (contains out (Route_ReadsWith rt))
                   then out ++ [Route_ReadsWith rt] else out) ↔
          alias ∈ out ∨ alias ≠ "" ∧ alias = Route_ReadsWith rt) as ->; [|tauto].
  case_bool_decide as He; simpl; [naive_solver|].
  destruct (contains out (Route_ReadsWith rt)) eqn:Hc; simpl.
  - apply contains_spec in Hc. naive_solver.
  - rewrite elem_of_app, list_elem_of_singleton. naive_solver.
Qed.

(** The models a route step decides with. *)
Definition decides_with (s : Step) (alias : string) : Prop :=
  St_Kind s = StepRoute ∧ RouteMode_Decides (St_Mode s) = true ∧ St_Model s = alias.

Lemma elem_of_ReadsWith p alias :
  alias ∈ Router_ReadsWith p ↔
  alias ∈ Reaches p ∨ alias ≠ "" ∧ ∃ s, s ∈ Steps p ∧ decides_with s alias.
Proof.
  unfold Router_ReadsWith, decides_with. rewrite elem_of_reads, list_elem_of_fmap. unfold Routes.
  setoid_rewrite list_elem_of_omap.
  split; (intros [?|[Hne H]]; [by left|right]); (split; [done|]).
  - destruct H as (rt & -> & s & Hs & Hrt). case_bool_decide; [|done]. injection Hrt as <-.
    exists s. unfold Route_ReadsWith in *. simpl in *.
    destruct (RouteMode_Decides (St_Mode s)); done.
  - destruct H as (s & Hs & Hk & Hd & <-). exists (route_of p s).
    unfold Route_ReadsWith. simpl. rewrite Hd. split; [done|].
    exists s. split; [done|]. by rewrite bool_decide_eq_true_2.
Qed.
