(* ===== verification/RouterCheck.v ===== *)
(** * What makes a router valid

    [Router.Problem] of [internal/policy/router.go] with everything it calls,
    and the specification it decides. The control plane stores a router only
    when [Problem] finds nothing, and the gateway relies on what that means. *)
From S2P Require Import Prelude Tenancy Pricing Guardrails Filters Routers.

(** ** Messages *)

(** [RouterRefs]. *)
Record RouterRefs := {
  Refs_Models : gmap string Model;
  Refs_Filters : gmap string Filter;
}.

(** [strings.ReplaceAll s "_" " "]. *)
Fixpoint underscores_to_spaces (s : string) : string :=
  match s with
  | EmptyString => EmptyString
  | String c s =>
      String (if bool_decide (c = Ascii.ascii_of_nat 95) then Ascii.ascii_of_nat 32 else c)
        (underscores_to_spaces s)
  end.

Definition credentialHeaders : list string :=
  ["authorization"; "proxy-authorization"; "cookie"; "x-api-key"; "x-keera-key"].

Definition stepName (s : Step) : string :=
  let k := St_Kind s in
  if bool_decide (k = StepRateLimit) then "the rate limit '" +:+ St_ID s +:+ "'"
  else if bool_decide (k = StepBudget) then "the budget '" +:+ St_ID s +:+ "'"
  else if bool_decide (k = StepRoute) then "the route step '" +:+ St_ID s +:+ "'"
  else if bool_decide (k = "") then "the step '" +:+ St_ID s +:+ "'"
  else if bool_decide (St_Ref s = "") then "the " +:+ k +:+ " step '" +:+ St_ID s +:+ "'"
  else "the " +:+ k +:+ " step '" +:+ St_Ref s +:+ "'".

(** ** The checks *)

Definition answererProblem (alias : string) (refs : RouterRefs) : string :=
  match Refs_Models refs !! alias with
  | None => "is not one of this organisation's models"
  | Some m =>
      if negb (bool_decide (Kind m = KindChat))
      then "is a " +:+ Kind m +:+
           " model; a router is reached on a chat request, so it can only send to a chat model"
      else if Subscription m
      then "is paid by each person's own Claude subscription; a router cannot send a request there"
      else ""
  end.

Definition leftoverProblem (s : Step) : string :=
  let mode := "a " +:+ St_Mode s +:+ " step" in
  if RouteMode_Decides (St_Mode s) then ""
  else if negb (bool_decide (St_Model s = ""))
  then "sets a 'model', but " +:+ mode +:+ " has no deciding model"
  else if negb (bool_decide (St_Prompt s = ""))
  then "sets a 'prompt', but " +:+ mode +:+ " has no deciding model to give it to"
  else if negb (bool_decide (St_Fallback s = "")) && negb (RouteMode_Chooses (St_Mode s))
  then "sets a 'fallback', but " +:+ mode +:+ " already tries its destinations in turn, so put '"
       +:+ St_Fallback s +:+ "' in 'destinations'"
  else "".

(** The first pair [f] finds wrong, in the order of the list. *)
Fixpoint first_problem {A} (f : A → string) (l : list A) : string :=
  match l with
  | [] => ""
  | x :: l => let msg := f x in if bool_decide (msg = "") then first_problem f l else msg
  end.

Section order.
Context `{MapRange}.

Definition ceilingProblem (s : Step) : string :=
  let outside := first_problem (λ '(alias, _),
    if contains (St_Destinations s) alias then ""
    else "has a ceiling for '" +:+ alias +:+ "', which is not one of its destinations")
    (map_range (St_Ceilings s)) in
  if negb (bool_decide (outside = "")) then outside
  else match Unbounded (St_Destinations s) (St_Ceilings s) with
  | [_] => ""
  | [] => "needs one destination without a ceiling, usually the largest model, so the largest requests have somewhere to go"
  | unbounded =>
      "may leave the ceiling off only one destination, but '" +:+ join "' and '" unbounded +:+
      "' have none"
  end.

(** The loop over the values: a problem, or the destinations they reach. *)
Fixpoint values_loop (s : Step) (values : list string) (reached : gset string)
    : string + gset string :=
  match values with
  | [] => inr reached
  | value :: values =>
      let dest := default "" (St_Values s !! value) in
      if negb (validName value 32)
      then inl ("has the value '" +:+ value +:+ "', which is not usable; use up to 32 lowercase letters, digits and inner hyphens")
      else if negb (contains (St_Destinations s) dest)
      then inl ("sends the value '" +:+ value +:+ "' to '" +:+ dest +:+
                "', which is not one of its destinations")
      else values_loop s values ({[dest]} ∪ reached)
  end.

Definition headerProblem (s : Step) : string :=
  if bool_decide (St_Header s = "")
  then "needs a 'header': the request header whose value chooses the destination"
  else if negb (validHeaderName (St_Header s))
  then "reads the header '" +:+ St_Header s +:+ "', which is not a usable header name; use up to 64 letters, digits and inner hyphens"
  else if contains credentialHeaders (ToLower_ascii (St_Header s))
  then "reads the header '" +:+ St_Header s +:+ "', which carries the client's credential. Use a header of its own, such as X-Keera-Route"
  else if (size (St_Values s) =? 0)%nat
  then "needs 'values': which value of the header sends a request where"
  else if Z.of_nat (size (St_Values s)) >? MaxHeaderValues
  then "has " +:+ pretty (Z.of_nat (size (St_Values s))) +:+ " values; the limit is " +:+
       pretty MaxHeaderValues
  else match values_loop s (sorted_keys (St_Values s)) {[St_Fallback s]} with
  | inl msg => msg
  | inr reached =>
      first_problem (λ dest,
        if bool_decide (dest ∈ reached) then ""
        else "sends no value to '" +:+ dest +:+ "', and it is not the fallback, so no request can reach it")
        (St_Destinations s)
  end.

(** The loop over the destinations: a problem, or the ones seen. *)
Fixpoint destinations_loop (refs : RouterRefs) (dests : list string) (seen : gset string)
    : string + gset string :=
  match dests with
  | [] => inr seen
  | dest :: dests =>
      if bool_decide (dest ∈ seen) then inl ("names the destination '" +:+ dest +:+ "' twice")
      else
        let why := answererProblem dest refs in
        if negb (bool_decide (why = "")) then inl ("sends to '" +:+ dest +:+ "', which " +:+ why)
        else destinations_loop refs dests ({[dest]} ∪ seen)
  end.

Definition branchesProblem (s : Step) (seen : gset string) : string :=
  first_problem (λ '(dest, next),
    if negb (bool_decide (dest ∈ seen))
    then "has a branch for '" +:+ dest +:+ "', which is not one of its destinations"
    else match next with
    | None => "has an empty branch for '" +:+ dest +:+ "'; leave it out to send straight to the model"
    | Some _ => ""
    end) (map_range (St_Branches s)).

(** The switch of [routeProblem]. *)
Definition routeFieldsProblem (s : Step) : string :=
  let mode := St_Mode s in
  let n := Z.of_nat (length (St_Destinations s)) in
  if negb (size (St_Ceilings s) =? 0)%nat && negb (RouteMode_Sizes mode)
  then "sets 'ceilings', which only a step with the mode 'size' has"
  else if (negb (bool_decide (St_Header s = "")) || negb (size (St_Values s) =? 0)%nat) &&
          negb (bool_decide (mode = RouteModeHeader))
  then "sets 'header' or 'values', which only a step with the mode 'header' has"
  else if RouteMode_Decides mode && bool_decide (St_Model s = "")
  then "needs a 'model': the model that decides, best a fast one served locally"
  else if RouteMode_Decides mode && bool_decide (TrimSpace (St_Prompt s) = "")
  then "needs a 'prompt': it tells the deciding model how to choose a destination"
  else if len (St_Prompt s) >? MaxRoutePromptBytes
  then "has a prompt of " +:+ pretty (len (St_Prompt s)) +:+ " bytes; the limit is " +:+
       pretty MaxRoutePromptBytes +:+ ", since it is sent with every request"
  else if n =? 0 then "needs 'destinations': at least one model to send requests to"
  else if (n >? MaxDestinations) && RouteMode_Decides mode
  then "names " +:+ pretty n +:+ " destinations; the limit is " +:+ pretty MaxDestinations +:+
       ", since a longer list is too much for the deciding model to choose from"
  else if n >? MaxDestinations
  then "names " +:+ pretty n +:+ " destinations; the limit is " +:+ pretty MaxDestinations +:+
       ", since each one tried adds to the client's wait"
  else if negb (bool_decide (St_Fallback s = "")) &&
          negb (contains (St_Destinations s) (St_Fallback s))
  then "falls back to '" +:+ St_Fallback s +:+ "', which is not one of its destinations. The fallback has to be somewhere the step may send a request in the first place"
  else "".

Definition routeProblem (s : Step) (refs : RouterRefs) : string :=
  if negb (RouteMode_Valid (St_Mode s))
  then "has the mode '" +:+ St_Mode s +:+
       "'; use instruction, size, header, fallback, latency or least-busy"
  else if negb (bool_decide (leftoverProblem s = "")) then leftoverProblem s
  else if negb (bool_decide (routeFieldsProblem s = "")) then routeFieldsProblem s
  else match destinations_loop refs (St_Destinations s) ∅ with
  | inl msg => msg
  | inr seen =>
      if RouteMode_Sizes (St_Mode s) && negb (bool_decide (ceilingProblem s = ""))
      then ceilingProblem s
      else if bool_decide (St_Mode s = RouteModeHeader) && negb (bool_decide (headerProblem s = ""))
      then headerProblem s
      else branchesProblem s seen
  end.

(** The first switch of [Step.problem]: fields the kind does not have, and how
    the step goes on. *)
Definition shapeProblem (s : Step) : string :=
  let k := St_Kind s in
  let is_kind (x : string) := bool_decide (k = x) in
  let blank (x : string) := bool_decide (x = "") in
  if negb (StepKind_Names k) && negb (blank (St_Ref s))
  then "names '" +:+ St_Ref s +:+ "', but a " +:+ underscores_to_spaces k +:+
       " step uses nothing of the organisation's"
  else if StepKind_Names k && blank (St_Ref s)
  then "names nothing; say which " +:+ k +:+ " it uses in 'ref'"
  else if negb (is_kind StepSystemPrompt) && negb (is_kind StepRoute) && negb (blank (St_Prompt s))
  then "sets a 'prompt', which only a system prompt or route step has"
  else if negb (is_kind StepRoute) &&
          (negb (blank (St_Mode s)) || negb (blank (St_Model s)) ||
           negb (length (St_Destinations s) =? 0)%nat || negb (size (St_Ceilings s) =? 0)%nat ||
           negb (blank (St_Fallback s)) || negb (blank (St_Header s)) ||
           negb (size (St_Values s) =? 0)%nat)
  then "sets 'mode', 'model', 'destinations', 'ceilings', 'header', 'values' or 'fallback', which only a route step has"
  else if negb (is_kind StepRateLimit) && (negb (St_Requests s =? 0) || negb (St_Tokens s =? 0))
  then "sets 'requests' or 'tokens', which only a rate limit has"
  else if negb (is_kind StepBudget) && negb (St_BudgetMicros s =? 0)
  then "sets a budget, which only a budget step has"
  else if negb (StepKind_Limits k) && negb (blank (St_Period s))
  then "sets a 'period', which only a limit has"
  else if negb (StepKind_Limits k) && bool_decide (is_Some (St_Exceeded s))
  then "has an 'exceeded' branch, which only a limit has"
  else if negb (is_kind StepRoute) && negb (size (St_Branches s) =? 0)%nat
  then "has 'branches', which only a route step has"
  else if is_kind StepRoute && bool_decide (is_Some (St_Next s))
  then "has a 'next' step; after a route step, the steps go in 'branches', one per destination"
  else if is_kind StepModel && bool_decide (is_Some (St_Next s))
  then "has a 'next' step, but the request is sent to the model there, so nothing can follow"
  else if negb (is_kind StepRoute) && negb (is_kind StepModel) && negb (bool_decide (is_Some (St_Next s)))
  then "has no 'next' step; every branch has to end at a model or a route step"
  else "".

(** The second switch of [Step.problem]. *)
Definition kindProblem (s : Step) (refs : RouterRefs) : string :=
  let k := St_Kind s in
  if bool_decide (k = StepFilter) then
    match Refs_Filters refs !! St_Ref s with
    | None => "names '" +:+ St_Ref s +:+ "', which is not one of this organisation's filters"
    | Some _ => ""
    end
  else if bool_decide (k = StepRoute) then routeProblem s refs
  else if bool_decide (k = StepModel) then
    let why := answererProblem (St_Ref s) refs in
    if negb (bool_decide (why = "")) then "names '" +:+ St_Ref s +:+ "', which " +:+ why else ""
  else if bool_decide (k = StepRateLimit) then RateLimit_Problem (Step_RateLimit s)
  else if bool_decide (k = StepSystemPrompt) then
    if bool_decide (TrimSpace (St_Prompt s) = "") then "needs a 'prompt'"
    else if len (St_Prompt s) >? MaxStepPromptBytes
    then "has a prompt of " +:+ pretty (len (St_Prompt s)) +:+ " bytes; the limit is " +:+
         pretty MaxStepPromptBytes +:+ ", since it is sent with every request that passes it"
    else ""
  else if bool_decide (k = StepBudget) then Budget_Problem (Step_Budget s)
  else "".

(** [Step.problem]. *)
Definition problem (s : Step) (refs : RouterRefs) : string :=
  if negb (contains stepKinds (St_Kind s))
  then "has the kind '" +:+ St_Kind s +:+
       "'; use filter, route, rate_limit, budget, system_prompt or model"
  else if negb (bool_decide (shapeProblem s = "")) then shapeProblem s
  else kindProblem s refs.

(** The loop of [Router.Problem], with its counter and the ids seen. *)
Fixpoint steps_loop (refs : RouterRefs) (steps : list Step) (seen : gset string) (n : Z) : string :=
  match steps with
  | [] => ""
  | s :: steps =>
      let n := n + 1 in
      if n >? MaxRouterSteps then "a router may have at most " +:+ pretty MaxRouterSteps +:+ " steps"
      else if negb (validName (St_ID s) 32)
      then "the step id '" +:+ St_ID s +:+ "' is not usable; use up to 32 lowercase letters, digits and inner hyphens"
      else if bool_decide (St_ID s ∈ seen)
      then "two steps have the id '" +:+ St_ID s +:+ "'; each step needs its own"
      else if negb (bool_decide (problem s refs = "")) then stepName s +:+ " " +:+ problem s refs
      else steps_loop refs steps ({[St_ID s]} ∪ seen) n
  end.

(** [Router.Problem]; the empty string when there is none. *)
Definition Router_Problem (p : Router) (refs : RouterRefs) : string :=
  if negb (ValidAlias (Ro_Alias p))
  then "'" +:+ Ro_Alias p +:+
       "' is not a usable alias; use lowercase letters, digits and inner hyphens"
  else match Ro_Start p with
  | None => "'start' is required: a router needs at least one step, ending at a model"
  | Some _ => steps_loop refs (Steps p) ∅ 0
  end.
End order.

(** ** Warnings *)

(** A filter whose model rewrites the request. *)
Definition rewriting (refs : RouterRefs) (s : Step) : bool :=
  bool_decide (St_Kind s = StepFilter) &&
  match Refs_Filters refs !! St_Ref s with
  | Some f => Rewrites (F_Mode f) && Filter_UsesModel f && negb (F_Shadow f)
  | None => false
  end.

Definition deciding (s : Step) : bool :=
  bool_decide (St_Kind s = StepRoute) && RouteMode_Decides (St_Mode s).

(** The closure [walk] of [Router.Warnings]: the rewriting filters passed on
    the way to a step, and the messages so far. *)
Fixpoint warn_walk (refs : RouterRefs) (s : Step) (rewrites out : list string) : list string :=
  let walk (o : option Step) (rewrites out : list string) : list string :=
    match o with None => out | Some n => warn_walk refs n rewrites out end in
  let branches := walk <$> St_Branches s in
  let rewrites := if rewriting refs s then rewrites ++ [St_Ref s] else rewrites in
  let out :=
    if deciding s && negb (length rewrites =? 0)%nat
    then append_new out
           ("the route step '" +:+ St_ID s +:+ "' reads the request after the filter '" +:+
            join "', '" rewrites +:+
            "' rewrote it, so it decides on the rewritten text, not what the client sent")
    else out in
  foldl (λ out w, w rewrites out) out
    (walk (St_Next s) :: walk (St_Exceeded s) ::
     omap (λ dest, branches !! dest) (sorted_keys (St_Branches s))).

Definition Warnings (p : Router) (refs : RouterRefs) : list string :=
  match Ro_Start p with None => [] | Some s => warn_walk refs s [] [] end.

(** ** The specification *)

Section spec.
Context (refs : RouterRefs).
Implicit Types (s : Step) (p : Router).

(** A model that can answer through a router. *)
Definition answers (alias : string) : Prop :=
  ∃ m, Refs_Models refs !! alias = Some m ∧ Kind m = KindChat ∧ Subscription m = false.

(** A header step knows a usable header that carries no credential, sends each
    of its values to a destination, and leaves no destination unreachable. *)
Record header_valid s : Prop := {
  hv_name : validHeaderName (St_Header s) = true ∧
    ToLower_ascii (St_Header s) ∉ credentialHeaders;
  hv_count : 1 <= Z.of_nat (size (St_Values s)) <= MaxHeaderValues;
  hv_values : ∀ v d, St_Values s !! v = Some d → validName v 32 = true ∧ d ∈ St_Destinations s;
  hv_reached : ∀ d, d ∈ St_Destinations s →
    d = St_Fallback s ∨ ∃ v, St_Values s !! v = Some d;
}.

(** A size step bounds only destinations, and exactly one has no bound. *)
Definition sizes_valid s : Prop :=
  (∀ d n, St_Ceilings s !! d = Some n → d ∈ St_Destinations s) ∧
  ∃ d, Unbounded (St_Destinations s) (St_Ceilings s) = [d].

Record route_valid s : Prop := {
  rv_mode : RouteMode_Valid (St_Mode s) = true;
  rv_destinations : 1 <= Z.of_nat (length (St_Destinations s)) <= MaxDestinations ∧
    NoDup (St_Destinations s) ∧ ∀ d, d ∈ St_Destinations s → answers d;
  rv_decides : RouteMode_Decides (St_Mode s) = true →
    St_Model s ≠ "" ∧ TrimSpace (St_Prompt s) ≠ "";
  rv_leftover : RouteMode_Decides (St_Mode s) = false → St_Model s = "" ∧ St_Prompt s = "";
  rv_prompt : len (St_Prompt s) <= MaxRoutePromptBytes;
  rv_fallback : St_Fallback s = "" ∨
    St_Fallback s ∈ St_Destinations s ∧ RouteMode_Chooses (St_Mode s) = true;
  rv_sizes : if RouteMode_Sizes (St_Mode s) then sizes_valid s else St_Ceilings s = ∅;
  rv_header : if bool_decide (St_Mode s = RouteModeHeader) then header_valid s
    else St_Header s = "" ∧ St_Values s = ∅;
  rv_branches : ∀ d b, St_Branches s !! d = Some b → d ∈ St_Destinations s ∧ b ≠ None;
}.

(** The fields each kind of step has and lacks, and how it goes on. *)
Record shape_valid s : Prop := {
  sv_ref : St_Ref s ≠ "" ↔ St_Kind s = StepFilter ∨ St_Kind s = StepModel;
  sv_prompt : St_Prompt s ≠ "" → St_Kind s = StepSystemPrompt ∨ St_Kind s = StepRoute;
  sv_route : St_Kind s ≠ StepRoute →
    St_Mode s = "" ∧ St_Model s = "" ∧ St_Destinations s = [] ∧ St_Ceilings s = ∅ ∧
    St_Fallback s = "" ∧ St_Header s = "" ∧ St_Values s = ∅ ∧ St_Branches s = ∅;
  sv_rate : St_Kind s ≠ StepRateLimit → St_Requests s = 0 ∧ St_Tokens s = 0;
  sv_budget : St_Kind s ≠ StepBudget → St_BudgetMicros s = 0;
  sv_limit : StepKind_Limits (St_Kind s) = false → St_Period s = "" ∧ St_Exceeded s = None;
  sv_ends : St_Next s = None ↔ St_Kind s = StepRoute ∨ St_Kind s = StepModel;
}.

(** What the step does can be done. *)
Definition kind_valid s : Prop :=
  (St_Kind s = StepFilter → is_Some (Refs_Filters refs !! St_Ref s)) ∧
  (St_Kind s = StepRoute → route_valid s) ∧
  (St_Kind s = StepModel → answers (St_Ref s)) ∧
  (St_Kind s = StepRateLimit → RateLimit_Problem (Step_RateLimit s) = "") ∧
  (St_Kind s = StepSystemPrompt →
     TrimSpace (St_Prompt s) ≠ "" ∧ len (St_Prompt s) <= MaxStepPromptBytes) ∧
  (St_Kind s = StepBudget → Budget_Problem (Step_Budget s) = "").

Definition step_valid s : Prop :=
  St_Kind s ∈ stepKinds ∧ shape_valid s ∧ kind_valid s.

Definition router_valid p : Prop :=
  ValidAlias (Ro_Alias p) = true ∧ Ro_Start p ≠ None ∧
  Z.of_nat (length (Steps p)) <= MaxRouterSteps ∧
  NoDup (St_ID <$> Steps p) ∧
  ∀ s, s ∈ Steps p → validName (St_ID s) 32 = true ∧ step_valid s.

(** *** The checks decide it *)

Context `{MapRange}.

Lemma if_problem (b : bool) (msg rest : string) :
  msg ≠ "" → (if b then msg else rest) = "" ↔ b = false ∧ rest = "".
Proof. destruct b; naive_solver. Qed.

Lemma if_negb_problem (b : bool) (msg rest : string) :
  msg ≠ "" → (if b then rest else msg) = "" ↔ b = true ∧ rest = "".
Proof. destruct b; naive_solver. Qed.

Lemma chain_problem (msg rest : string) :
  (if negb (bool_decide (msg = "")) then msg else rest) = "" ↔ msg = "" ∧ rest = "".
Proof. case_bool_decide; naive_solver. Qed.

Lemma when_chain_problem (b : bool) (msg rest : string) :
  (if b && negb (bool_decide (msg = "")) then msg else rest) = "" ↔
  (b = true → msg = "") ∧ rest = "".
Proof. destruct b; simpl; [rewrite chain_problem; tauto|naive_solver]. Qed.

Lemma first_problem_none {A} (f : A → string) l : first_problem f l = "" ↔ ∀ x, x ∈ l → f x = "".
Proof.
  induction l as [|x l IH]; simpl; [set_solver|].
  case_bool_decide as Hx; [rewrite IH|]; set_solver.
Qed.

Lemma map_problem_none {A} (f : string * A → string) (m : gmap string A) :
  first_problem f (map_range m) = "" ↔ ∀ k x, m !! k = Some x → f (k, x) = "".
Proof.
  rewrite first_problem_none. setoid_rewrite <- (elem_of_map_range m).
  split; [auto|]. intros Hm [k x]. apply Hm.
Qed.

Lemma answererProblem_none alias : answererProblem alias refs = "" ↔ answers alias.
Proof.
  unfold answererProblem, answers. destruct (Refs_Models refs !! alias) as [m|]; [|naive_solver].
  rewrite !if_problem by done. rewrite negb_false_iff, bool_decide_eq_true. naive_solver.
Qed.

Lemma ceilingProblem_none s : ceilingProblem s = "" ↔ sizes_valid s.
Proof.
  unfold ceilingProblem, sizes_valid. rewrite chain_problem, map_problem_none.
  assert ((∀ k n, St_Ceilings s !! k = Some n →
    (if contains (St_Destinations s) k then ""
     else "has a ceiling for '" +:+ k +:+ "', which is not one of its destinations") = "") ↔
    ∀ d n, St_Ceilings s !! d = Some n → d ∈ St_Destinations s) as ->.
  { split; intros Hc k n Hk; specialize (Hc k n Hk).
    - apply if_negb_problem in Hc as [Hc _]; [|done]. by apply contains_spec.
    - apply contains_spec in Hc. by rewrite Hc. }
  apply and_iff_compat_l.
  destruct (Unbounded _ _) as [|d [|]]; (split; [try done; by exists d|by intros [? [=]]]).
Qed.

Lemma values_loop_spec s values reached :
  (∀ v, v ∈ values → is_Some (St_Values s !! v)) →
  match values_loop s values reached with
  | inl msg => msg ≠ "" ∧
      ¬ (∀ v d, v ∈ values → St_Values s !! v = Some d →
           validName v 32 = true ∧ d ∈ St_Destinations s)
  | inr reached' =>
      (∀ v d, v ∈ values → St_Values s !! v = Some d →
         validName v 32 = true ∧ d ∈ St_Destinations s) ∧
      ∀ d, d ∈ reached' ↔ d ∈ reached ∨ ∃ v, v ∈ values ∧ St_Values s !! v = Some d
  end.
Proof.
  revert reached. induction values as [|v values IH]; intros reached Hv; simpl; [set_solver|].
  destruct (Hv v) as [d Hd]; [left|]. rewrite Hd. simpl.
  destruct (validName v 32) eqn:Hn; simpl.
  2: { split; [done|]. intros Hall. destruct (Hall v d); [left|done|congruence]. }
  destruct (contains (St_Destinations s) d) eqn:Hc; simpl; to_prop.
  2: { split; [done|]. intros Hall. by destruct (Hall v d); [left|done|]. }
  specialize (IH ({[d]} ∪ reached)).
  destruct (values_loop s values _) as [msg|reached'].
  - destruct IH as [? Hn2]; [set_solver|]. split; [done|]. intros Hall. apply Hn2. set_solver.
  - destruct IH as [Hall Hr]; [set_solver|]. split.
    + intros v' d' [->|Hin]%elem_of_cons Hd'; [|by apply Hall]. by simplify_eq.
    + intros d'. rewrite Hr. set_solver.
Qed.

Lemma values_problem_none s :
  match values_loop s (sorted_keys (St_Values s)) {[St_Fallback s]} with
  | inl msg => msg
  | inr reached =>
      first_problem (λ dest,
        if bool_decide (dest ∈ reached) then ""
        else "sends no value to '" +:+ dest +:+ "', and it is not the fallback, so no request can reach it")
        (St_Destinations s)
  end = "" ↔
  (∀ v d, St_Values s !! v = Some d → validName v 32 = true ∧ d ∈ St_Destinations s) ∧
  (∀ d, d ∈ St_Destinations s → d = St_Fallback s ∨ ∃ v, St_Values s !! v = Some d).
Proof.
  pose proof (values_loop_spec s (sorted_keys (St_Values s)) {[St_Fallback s]}) as Hl.
  assert (∀ v d, St_Values s !! v = Some d → v ∈ sorted_keys (St_Values s)) as Hk.
  { intros v d Hd. apply elem_of_sorted_keys. eauto. }
  destruct (values_loop s _ _) as [msg|reached];
    (destruct Hl as [H1 H2]; [intros v; apply elem_of_sorted_keys|]).
  - split; [done|]. intros [Hv _]. destruct H2. eauto.
  - rewrite first_problem_none. split.
    + intros Hd. split; [eauto|]. intros d Hin. specialize (Hd d Hin).
      apply if_negb_problem in Hd as [Hd _]; [|done]. apply bool_decide_eq_true in Hd.
      apply H2 in Hd as [?%elem_of_singleton|(v & _ & ?)]; eauto.
    + intros [_ Hr] d Hin. rewrite bool_decide_eq_true_2; [done|]. apply H2.
      destruct (Hr d Hin) as [->|[v Hv]]; [left; set_solver|right; eauto].
Qed.

Lemma headerProblem_none s : headerProblem s = "" ↔ header_valid s.
Proof.
  unfold headerProblem. rewrite !if_problem by done. rewrite values_problem_none.
  rewrite bool_decide_eq_false, negb_false_iff, contains_false, Nat.eqb_neq, Z.gtb_ltb, Z.ltb_ge.
  split.
  - intros (_ & ? & ? & ? & ? & ? & ?). split; [done|lia|done|done].
  - intros [[Hn ?] ? ? ?]. split; [by intros Hh; rewrite Hh in Hn|]. split_and!; try done; lia.
Qed.

Lemma destinations_loop_spec dests seen :
  match destinations_loop refs dests seen with
  | inl msg => msg ≠ "" ∧
      ¬ (NoDup dests ∧ (∀ d, d ∈ dests → d ∉ seen ∧ answers d))
  | inr seen' =>
      (NoDup dests ∧ (∀ d, d ∈ dests → d ∉ seen ∧ answers d)) ∧
      ∀ d, d ∈ seen' ↔ d ∈ seen ∨ d ∈ dests
  end.
Proof.
  revert seen. induction dests as [|d dests IH]; intros seen; simpl.
  { split; [split; [constructor|]|]; set_solver. }
  case_bool_decide as Hd; [split; [done|]; set_solver|].
  destruct (bool_decide (answererProblem d refs = "")) eqn:Ha; simpl; to_prop.
  2: { split; [done|]. intros [_ Hall]. destruct Ha. apply answererProblem_none, Hall. left. }
  apply answererProblem_none in Ha. specialize (IH ({[d]} ∪ seen)).
  destruct (destinations_loop refs dests _) as [msg|seen']; destruct IH as [H1 H2].
  - split; [done|]. intros [[Hnd Hnd']%NoDup_cons Hall]. apply H2. split; [done|].
    intros d' Hd'. destruct (Hall d'); [by right|]. set_solver.
  - destruct H1 as [Hnd Hall]. split; [split|].
    + apply NoDup_cons. split; [|done]. intros Hin. destruct (Hall d Hin). set_solver.
    + intros d' [->|Hin]%elem_of_cons; [done|]. destruct (Hall d' Hin). set_solver.
    + intros d'. rewrite H2. set_solver.
Qed.

Lemma branchesProblem_none s seen :
  branchesProblem s seen = "" ↔ ∀ d b, St_Branches s !! d = Some b → d ∈ seen ∧ b ≠ None.
Proof.
  unfold branchesProblem. rewrite map_problem_none. split; intros Hb d b Hd; specialize (Hb d b Hd).
  - apply if_problem in Hb as [Hb1 Hb2]; [|done]. to_prop. by destruct b.
  - destruct Hb as [Hin Hne]. rewrite bool_decide_eq_true_2 by done. by destruct b.
Qed.

Lemma size_eqb_0 {A} (m : gmap string A) : (size m =? 0)%nat = bool_decide (m = ∅).
Proof.
  apply Bool.eq_iff_eq_true. rewrite Nat.eqb_eq, bool_decide_eq_true. split.
  - apply map_size_empty_inv.
  - intros ->. apply map_size_empty.
Qed.

Lemma leftoverProblem_none s :
  leftoverProblem s = "" ↔
  (RouteMode_Decides (St_Mode s) = false → St_Model s = "" ∧ St_Prompt s = "" ∧
     (St_Fallback s = "" ∨ RouteMode_Chooses (St_Mode s) = true)).
Proof.
  unfold leftoverProblem. destruct (RouteMode_Decides (St_Mode s)); [naive_solver|].
  rewrite !if_problem by done. rewrite andb_false_iff, !negb_false_iff, !bool_decide_eq_true.
  naive_solver.
Qed.

Lemma routeFieldsProblem_none s :
  routeFieldsProblem s = "" ↔
  (RouteMode_Sizes (St_Mode s) = false → St_Ceilings s = ∅) ∧
  (St_Mode s ≠ RouteModeHeader → St_Header s = "" ∧ St_Values s = ∅) ∧
  (RouteMode_Decides (St_Mode s) = true → St_Model s ≠ "" ∧ TrimSpace (St_Prompt s) ≠ "") ∧
  len (St_Prompt s) <= MaxRoutePromptBytes ∧
  1 <= Z.of_nat (length (St_Destinations s)) <= MaxDestinations ∧
  (St_Fallback s = "" ∨ St_Fallback s ∈ St_Destinations s).
Proof.
  unfold routeFieldsProblem. rewrite !if_problem by done. rewrite !size_eqb_0.
  rewrite !andb_false_iff, !orb_false_iff, !negb_false_iff, !contains_spec, !bool_decide_eq_true,
    !bool_decide_eq_false, !Z.gtb_ltb, !Z.ltb_ge, Z.eqb_neq.
  destruct (RouteMode_Sizes (St_Mode s)), (RouteMode_Decides (St_Mode s)),
    (decide (St_Mode s = RouteModeHeader)); intuition (try congruence; try lia).
Qed.
End spec.
