(* ===== verification/RouterSpec.v ===== *)
(** * The router check decides the specification

    [Router_Problem] finds nothing exactly in the routers of the specification,
    and what that means for a request that walks one. *)
From S2P Require Import Prelude Tenancy Pricing Guardrails Filters Routers RouterCheck.

Section spec.
Context `{MapRange} (refs : RouterRefs).
Implicit Types (s : Step) (p : Router).

Lemma routeProblem_none s : routeProblem s refs = "" ↔ route_valid refs s.
Proof.
  unfold routeProblem. rewrite if_problem by done.
  rewrite !chain_problem, leftoverProblem_none, routeFieldsProblem_none, negb_false_iff.
  pose proof (destinations_loop_spec refs (St_Destinations s) ∅) as Hl.
  assert (∀ d, d ∉ (∅ : gset string)) as Hemp by set_solver.
  destruct (destinations_loop refs _ ∅) as [msg|seen]; destruct Hl as [H1 H2].
  - split; [naive_solver|]. intros [? (? & ? & ?) ? ? ? ? ? ? ?]. destruct H2. auto.
  - rewrite !when_chain_problem, branchesProblem_none, ceilingProblem_none, headerProblem_none.
    assert (∀ d, d ∈ seen ↔ d ∈ St_Destinations s) as Hseen by (intros d; rewrite H2; set_solver).
    setoid_rewrite Hseen. rewrite bool_decide_eq_true. destruct H1 as [Hnd Hans]. split.
    + intros (? & Hleft & (Hc & Hh & ? & ? & ? & Hf) & Hs & Hhd & Hb).
      split; try done; [split; [done|]; split; [done|]; intros d Hd; by apply Hans|naive_solver| | |].
      * destruct Hf as [?|Hf]; [by left|].
        destruct (RouteMode_Decides (St_Mode s)) eqn:Hd; [right; unfold RouteMode_Chooses; by rewrite Hd|].
        destruct (Hleft eq_refl) as (_ & _ & [?|?]); auto.
      * destruct (RouteMode_Sizes (St_Mode s)); auto.
      * case_bool_decide; auto.
    + intros [? (? & ? & ?) ? Hleft ? Hf Hs Hhd ?]. split_and!; try done; try lia.
      * intros Hd. destruct (Hleft Hd). naive_solver.
      * intros Hz. by rewrite Hz in Hs.
      * intros Hz. by rewrite bool_decide_eq_false_2 in Hhd.
      * naive_solver.
      * intros Hz. by rewrite Hz in Hs.
      * intros Hz. by rewrite bool_decide_eq_true_2 in Hhd.
Qed.

Lemma is_Some_false {A} (o : option A) : bool_decide (is_Some o) = false ↔ o = None.
Proof. rewrite bool_decide_eq_false. symmetry. apply eq_None_not_Some. Qed.

Lemma Names_spec k : StepKind_Names k = true ↔ k = StepFilter ∨ k = StepModel.
Proof. unfold StepKind_Names. by rewrite orb_true_iff, !bool_decide_eq_true. Qed.

Lemma shapeProblem_none s : shapeProblem s = "" ↔ shape_valid s.
Proof.
  unfold shapeProblem. rewrite !if_problem by done. rewrite !size_eqb_0.
  rewrite !andb_false_iff, !orb_false_iff, !negb_false_iff, !is_Some_false, !bool_decide_eq_false,
    !bool_decide_eq_true, !Nat.eqb_eq, !Z.eqb_eq.
  pose proof (Names_spec (St_Kind s)) as Hn.
  assert (length (St_Destinations s) = 0%nat ↔ St_Destinations s = []) as -> by apply length_zero_iff_nil.
  assert (is_Some (St_Next s) ↔ St_Next s ≠ None) as -> by (symmetry; apply not_eq_None_Some).
  split.
  - intros (H1 & H2 & H3 & H4 & H5 & H6 & H7 & H8 & H9 & H10 & H11 & H12 & _). split.
    + clear -H1 H2 Hn. destruct (StepKind_Names (St_Kind s)); intuition congruence.
    + clear -H3. tauto.
    + clear -H4 H9. tauto.
    + clear -H5. tauto.
    + clear -H6. tauto.
    + clear -H7 H8. destruct (StepKind_Limits (St_Kind s)); intuition congruence.
    + clear -H10 H11 H12. tauto.
  - intros [H1 H2 H3 H4 H5 H6 H7]. split_and!; try done.
    + clear -H1 Hn. destruct (decide (St_Ref s = "")); tauto.
    + clear -H1 Hn. destruct (StepKind_Names (St_Kind s)); [right|by left]. tauto.
    + clear -H2. destruct (decide (St_Prompt s = "")); tauto.
    + clear -H3. destruct (decide (St_Kind s = StepRoute)); tauto.
    + clear -H4. destruct (decide (St_Kind s = StepRateLimit)); tauto.
    + clear -H5. destruct (decide (St_Kind s = StepBudget)); tauto.
    + clear -H6. destruct (StepKind_Limits (St_Kind s)); tauto.
    + clear -H6. destruct (StepKind_Limits (St_Kind s)); tauto.
    + clear -H3. destruct (decide (St_Kind s = StepRoute)); tauto.
    + clear -H7. destruct (decide (St_Kind s = StepRoute)); tauto.
    + clear -H7. destruct (decide (St_Kind s = StepModel)); tauto.
    + clear -H7. destruct (decide (St_Kind s = StepRoute)), (decide (St_Kind s = StepModel)); tauto.
Qed.

Lemma kindProblem_none s : St_Kind s ∈ stepKinds → kindProblem s refs = "" ↔ kind_valid refs s.
Proof.
  unfold kindProblem, kind_valid. intros Hk.
  assert (St_Kind s = StepFilter ∨ St_Kind s = StepRoute ∨ St_Kind s = StepRateLimit ∨
    St_Kind s = StepBudget ∨ St_Kind s = StepModel ∨ St_Kind s = StepSystemPrompt) as Hk'
    by (unfold stepKinds in Hk; rewrite !elem_of_cons, elem_of_nil in Hk; tauto).
  clear Hk. destruct Hk' as [-> |[-> |[-> |[-> |[-> | ->]]]]]; simpl.
  - destruct (Refs_Filters refs !! St_Ref s); [naive_solver|]. split; [done|].
    intros [Hf _]. by destruct (Hf eq_refl).
  - rewrite routeProblem_none. naive_solver.
  - naive_solver.
  - naive_solver.
  - rewrite <- answererProblem_none. case_bool_decide; simpl; naive_solver.
  - rewrite !if_problem by done. rewrite bool_decide_eq_false, Z.gtb_ltb, Z.ltb_ge. naive_solver.
Qed.

Lemma problem_none s : problem s refs = "" ↔ step_valid refs s.
Proof.
  unfold problem, step_valid. rewrite if_problem by done.
  rewrite chain_problem, shapeProblem_none, negb_false_iff, contains_spec.
  split; [intros (? & ? & ?)|intros (? & ? & ?)]; (split; [done|]); (split; [done|]);
    by apply kindProblem_none.
Qed.

Lemma steps_loop_none steps seen n :
  steps_loop refs steps seen n = "" ↔
  (steps = [] ∨ n + Z.of_nat (length steps) <= MaxRouterSteps) ∧
  NoDup (St_ID <$> steps) ∧ (∀ s, s ∈ steps → St_ID s ∉ seen) ∧
  ∀ s, s ∈ steps → validName (St_ID s) 32 = true ∧ step_valid refs s.
Proof.
  revert seen n. induction steps as [|s steps IH]; intros seen n.
  { simpl. split; [|done]. intros _. split_and!; [by left|constructor|set_solver|set_solver]. }
  cbn [steps_loop]. rewrite !if_problem by done. rewrite Z.gtb_ltb, Z.ltb_ge, negb_false_iff,
    bool_decide_eq_false.
  assert (∀ rest, (if negb (bool_decide (problem s refs = ""))
    then stepName s +:+ " " +:+ problem s refs else rest) = "" ↔ step_valid refs s ∧ rest = "")
    as Hp.
  { intros rest. rewrite <- problem_none. case_bool_decide as Hp; simpl; [naive_solver|].
    split; [|naive_solver]. intros Hc. exfalso. revert Hc. unfold stepName.
    by repeat case_bool_decide. }
  rewrite Hp, IH. clear Hp IH. rewrite fmap_cons, NoDup_cons, list_elem_of_fmap. simpl length.
  split.
  - intros (Hn & Hid & Hs & Hv & Hlen & Hnd & Hseen & Hall). split_and!.
    + right. destruct Hlen as [->|]; simpl; lia.
    + intros (s' & Heq & Hs'). apply (Hseen s' Hs'). set_solver.
    + done.
    + intros s' [->|Hs']%elem_of_cons; [done|]. specialize (Hseen s' Hs'). set_solver.
    + intros s' [->|Hs']%elem_of_cons; auto.
  - intros ([?|Hlen] & [Hni Hnd] & Hseen & Hall); [done|].
    assert (s ∈ s :: steps) as Hin by left. destruct (Hall s Hin) as [Hv Hst].
    split_and!; try done; [lia|by apply Hseen|right; lia| |].
    + intros s' Hs'. apply not_elem_of_union. split; [|apply Hseen; by right].
      intros Heq%elem_of_singleton. apply Hni. by exists s'.
    + intros s' Hs'. apply Hall. by right.
Qed.
End spec.

Lemma router_problem_valid `{MapRange} p refs : Router_Problem p refs = "" ↔ router_valid refs p.
Proof.
  unfold Router_Problem, router_valid. rewrite if_problem by done. rewrite negb_false_iff.
  unfold Steps. destruct (Ro_Start p) as [s|]; [|naive_solver]. rewrite steps_loop_none. simpl.
  assert (stepsOf s ≠ []) by (rewrite stepsOf_unfold; done).
  split.
  - intros (? & [?|?] & ? & _ & ?); [done|]. split_and!; done || lia.
  - intros (? & _ & ? & ? & ?). split_and!; try done; right; lia.
Qed.

(** ** Properties *)

(** C31: [Router_Problem] finds nothing exactly in a valid router: one with a
    usable alias and at most 64 steps, each with a usable id of its own, each
    with the fields its kind has and no others, and each able to do what it
    says. Nothing depends on the order in which Go ranges over a step's
    ceilings or branches. *)
Theorem Router_Problem_decides `{MapRange} (p : Router) (refs : RouterRefs) :
  Router_Problem p refs = "" ↔ router_valid refs p.
Proof. apply router_problem_valid. Qed.

(** ** What a valid router means for a request *)

Section valid.
Context (refs : RouterRefs) (p : Router).
Hypothesis Hvalid : ∀ s, s ∈ Steps p → step_valid refs s.

Lemma child_in s n t : child s n → s ∈ stepsOf t → n ∈ stepsOf t.
Proof.
  intros Hc. induction t as [t IH] using step_ind. rewrite !(elem_of_stepsOf t).
  intros [->|(c & Htc & Hs)]; right.
  - exists n. split; [done|]. apply elem_of_stepsOf. by left.
  - exists c. split; [done|]. by apply IH.
Qed.

Lemma child_Steps s n : child s n → s ∈ Steps p → n ∈ Steps p.
Proof. unfold Steps, steps_below. destruct (Ro_Start p); [apply child_in|set_solver]. Qed.

Lemma valid_reaches s alias : s ∈ Steps p → alias ∈ step_reaches s → answers refs alias.
Proof.
  intros Hs Ha. destruct (Hvalid s Hs) as (_ & _ & (_ & Hr & Hm & _)).
  unfold step_reaches in Ha. case_bool_decide.
  - apply list_elem_of_singleton in Ha as ->. auto.
  - case_bool_decide; [|by apply elem_of_nil in Ha]. apply list_elem_of_filter in Ha as [_ Ha].
    destruct (Hr ltac:(done)) as [_ (_ & _ & Hall)]. auto.
Qed.

(** Below every step of a valid router, some step sends the request on. *)
Lemma valid_lands s :
  s ∈ Steps p → ∃ t, t ∈ stepsOf s ∧ step_reaches t ≠ [].
Proof.
  induction s as [s IH] using step_ind. intros Hs.
  assert (∀ n, child s n → ∃ t, t ∈ stepsOf s ∧ step_reaches t ≠ []) as Hchild.
  { intros n Hn. destruct (IH n Hn) as (t & Ht & ?); [by eapply child_Steps|].
    exists t. split; [|done]. apply elem_of_stepsOf. right. by exists n. }
  destruct (St_Next s) as [n|] eqn:Hn; [apply (Hchild n); by constructor|].
  destruct (Hvalid s Hs) as (_ & Hsh & (_ & Hr & _)).
  assert (s ∈ stepsOf s) as Hin by (apply elem_of_stepsOf; by left).
  apply (sv_ends _ Hsh) in Hn as [Hk|Hk].
  - destruct (Hr Hk) as [_ (Hlen & _) _ _ _ _ _ _ Hb].
    destruct (St_Destinations s) as [|d ds] eqn:Hd; [simpl in Hlen; lia|].
    destruct (St_Branches s !! d) as [b|] eqn:Hbr.
    + destruct (Hb d b Hbr) as [_ Hne]. destruct b as [n|]; [|done].
      apply (Hchild n). by econstructor 3.
    + exists s. split; [done|]. assert (d ∈ step_reaches s) as Hd'.
      { unfold step_reaches, branch_of. rewrite Hk, bool_decide_eq_false_2, bool_decide_eq_true_2 by done.
        apply list_elem_of_filter. rewrite Hbr, Hd. split; [done|left]. }
      intros Hnil. rewrite Hnil in Hd'. by apply elem_of_nil in Hd'.
  - exists s. split; [done|]. unfold step_reaches. by rewrite Hk.
Qed.
End valid.

(** a router the control plane accepted sends every request somewhere. It
    reaches at least one model, and so does every step of it; every model it
    may reach is a chat model of the organisation that no caller's own
    subscription pays; and a step nothing follows sends to a model itself. *)
Theorem accepted_router_lands `{MapRange} (p : Router) (refs : RouterRefs) :
  Router_Problem p refs = "" →
  Reaches p ≠ [] ∧
  (∀ alias, alias ∈ Reaches p → answers refs alias) ∧
  (∀ s, s ∈ Steps p → ∃ t, t ∈ stepsOf s ∧ step_reaches t ≠ []) ∧
  (∀ s, s ∈ Steps p → (∀ n, ¬ child s n) → step_reaches s ≠ []).
Proof.
  intros (_ & Hstart & _ & _ & Hall)%router_problem_valid.
  assert (∀ s, s ∈ Steps p → step_valid refs s) as Hv by (intros s Hs; by apply Hall).
  split_and!.
  - destruct (Ro_Start p) as [s|] eqn:Hs; [|done].
    destruct (valid_lands refs p Hv s) as (t & Ht & Hne).
    { unfold Steps. rewrite Hs. apply elem_of_stepsOf. by left. }
    intros Hnil. apply Hne. apply elem_of_nil_inv. intros alias Ha.
    assert (alias ∈ Reaches p) as Hin; [|by rewrite Hnil in Hin; apply elem_of_nil in Hin].
    apply elem_of_Reaches. exists t. split; [|done]. unfold Steps. by rewrite Hs.
  - intros alias (s & Hs & Ha)%elem_of_Reaches. by eapply valid_reaches.
  - by apply (valid_lands refs p Hv).
  - intros s Hs Hno. destruct (valid_lands refs p Hv s Hs) as (t & Ht & Hne).
    apply elem_of_stepsOf in Ht as [->|(c & Hc & _)]; [done|]. by destruct (Hno c).
Qed.

(** A key may name a router exactly when the key is no subscription key,
    the router's alias is allowed, and, under a location limit, every model
    the router may send a request to and every model it decides with exists
    and runs in an allowed location. So no prompt goes through a router to a
    place the key's guardrails exclude. *)
Theorem MayCallRouter_locations (r : Resolved) (p : Router) (find : string → option Model) :
  MayCallRouter r p find = true ↔
  Key_Subscription (R_Key r) = false ∧ allowsModel r (Ro_Alias p) = true ∧
  (R_AllowedLocations r ≠ None →
   ∀ s alias, s ∈ Steps p →
     alias ∈ step_reaches s ∨ alias ≠ "" ∧ decides_with s alias →
     ∃ m, find alias = Some m ∧ AllowsLocation r (Location m) = true).
Proof.
  unfold MayCallRouter. destruct (allowsModel r (Ro_Alias p)), (Key_Subscription (R_Key r));
    simpl; [naive_solver| |naive_solver..].
  destruct (R_AllowedLocations r) eqn:Hloc; [|naive_solver].
  rewrite forallb_forall. setoid_rewrite <- list_elem_of_In.
  setoid_rewrite elem_of_ReadsWith. setoid_rewrite elem_of_Reaches. split.
  - intros Hall. split_and!; [done..|]. intros _ s alias Hs Ha.
    assert (match find alias with Some m => AllowsLocation r (Location m) | None => false end = true)
      as Hf by (apply Hall; naive_solver).
    destruct (find alias) as [m|]; [by exists m|done].
  - intros (_ & _ & Hall) alias Ha.
    assert (∃ s, s ∈ Steps p ∧ (alias ∈ step_reaches s ∨ alias ≠ "" ∧ decides_with s alias))
      as (s & Hs & Hr) by naive_solver.
    destruct (Hall ltac:(done) s alias Hs Hr) as (m & -> & Hm). done.
Qed.

(** ** The walk *)

(** [range] over a router's steps, with any body and however the body
    leaves the loop, visits the steps of the tree in the fixed order of
    [Steps]: each step before those that follow it, the next step before the
    exceeded one, and the branches in the order of their destinations. *)
Theorem walkSteps_visits {S : Type} (yield : Yield S) (s : Step) (st : S) :
  walkSteps yield s st = range_list yield (stepsOf s) st ∧
  stepsOf s = s :: steps_below (St_Next s) ++ steps_below (St_Exceeded s) ++
    mjoin (omap (λ dest, steps_below <$> St_Branches s !! dest) (sorted_keys (St_Branches s))) ∧
  Sorted string_le (sorted_keys (St_Branches s)).
Proof.
  split; [apply walkSteps_list|split; [apply stepsOf_unfold|apply Sorted_sorted_keys]].
Qed.

(** ** Warnings *)

Section warnings.
Context (refs : RouterRefs).

Definition warn_opt (o : option Step) (rewrites out : list string) : list string :=
  match o with None => out | Some n => warn_walk refs n rewrites out end.

Definition now_rewrites (s : Step) (rewrites : list string) : list string :=
  if rewriting refs s then rewrites ++ [St_Ref s] else rewrites.

(** On some way down from the step, a route step that asks a model comes after
    a filter whose model rewrote the request. *)
Inductive warned : Step → bool → Prop :=
  | warned_here s : deciding s = true → warned s true
  | warned_below s c b : child s c → warned c (b || rewriting refs s) → warned s b.

Lemma warn_walk_unfold s rewrites out :
  warn_walk refs s rewrites out =
  let rw := now_rewrites s rewrites in
  foldl (λ out w, w rw out)
    (if deciding s && negb (length rw =? 0)%nat
     then append_new out
       ("the route step '" +:+ St_ID s +:+ "' reads the request after the filter '" +:+
        join "', '" rw +:+
        "' rewrote it, so it decides on the rewritten text, not what the client sent")
     else out)
    (warn_opt (St_Next s) :: warn_opt (St_Exceeded s) ::
     omap (λ dest, warn_opt <$> St_Branches s !! dest) (sorted_keys (St_Branches s))).
Proof.
  destruct s. cbn [warn_walk]. unfold now_rewrites. cbv zeta. f_equal. do 2 f_equal.
  apply omap_ext_fun. intros k. apply lookup_fmap.
Qed.

Lemma append_new_nonempty {A} `{EqDecision A} (out : list A) x : append_new out x ≠ [].
Proof.
  unfold append_new. destruct (contains out x) eqn:Hc.
  - apply contains_spec in Hc. intros ->. by apply elem_of_nil in Hc.
  - by destruct out.
Qed.

Lemma fold_walks (ws : list (list string → list string → list string)) rw out :
  (∀ w out, w ∈ ws → out ≠ [] → w rw out ≠ []) →
  foldl (λ out w, w rw out) out ws = [] ↔ out = [] ∧ ∀ w, w ∈ ws → w rw [] = [].
Proof.
  revert out. induction ws as [|w ws IH]; intros out Hws; [set_solver|]. simpl.
  rewrite IH by (intros; apply Hws; [by right|done]). setoid_rewrite elem_of_cons. split.
  - intros [Hw Hrest]. destruct out; [naive_solver|].
    exfalso. apply (Hws w (s :: out)); [left|done|done].
  - intros [-> Hall]. split; auto.
Qed.

(** The walks of what follows a step directly. *)
Lemma elem_of_walks s (w : list string → list string → list string) :
  w ∈ (warn_opt (St_Next s) :: warn_opt (St_Exceeded s) ::
       omap (λ dest, warn_opt <$> St_Branches s !! dest) (sorted_keys (St_Branches s))) →
  w = warn_opt None ∨ ∃ c, child s c ∧ w = warn_opt (Some c).
Proof.
  rewrite !elem_of_cons, list_elem_of_omap. intros [->|[->|(k & _ & Hk)]].
  - destruct (St_Next s) as [c|] eqn:?; [right; exists c; split; [by constructor|done]|by left].
  - destruct (St_Exceeded s) as [c|] eqn:?; [right; exists c; split; [by constructor 2|done]|by left].
  - destruct (St_Branches s !! k) as [[c|]|] eqn:?; simplify_eq/=; [right|by left].
    exists c. split; [by econstructor 3|done].
Qed.

Lemma child_walk s c :
  child s c → warn_opt (Some c) ∈ (warn_opt (St_Next s) :: warn_opt (St_Exceeded s) ::
       omap (λ dest, warn_opt <$> St_Branches s !! dest) (sorted_keys (St_Branches s))).
Proof.
  rewrite !elem_of_cons, list_elem_of_omap. intros [s' n Hc|s' n Hc|s' k n Hc].
  - left. by rewrite Hc.
  - right. left. by rewrite Hc.
  - right. right. exists k. rewrite elem_of_sorted_keys, Hc. by split.
Qed.

Lemma warn_walk_spec s rewrites out :
  warn_walk refs s rewrites out = [] ↔
  out = [] ∧ ¬ warned s (negb (length rewrites =? 0)%nat).
Proof.
  revert rewrites out. induction s as [s IH] using step_ind. intros rewrites out.
  assert (negb (length (now_rewrites s rewrites) =? 0)%nat =
          negb (length rewrites =? 0)%nat || rewriting refs s) as Hrw.
  { unfold now_rewrites. destruct (rewriting refs s); [|by rewrite orb_false_r].
    rewrite length_app. simpl. rewrite orb_true_r. by destruct (length rewrites). }
  rewrite warn_walk_unfold. cbv zeta. rewrite Hrw, fold_walks.
  2: { intros w o [->|(c & Hc & ->)]%elem_of_walks Ho; [done|]. simpl. rewrite IH by done. tauto. }
  set (b := negb (length rewrites =? 0)%nat) in *.
  assert ((∀ w, w ∈ (warn_opt (St_Next s) :: warn_opt (St_Exceeded s) ::
       omap (λ dest, warn_opt <$> St_Branches s !! dest) (sorted_keys (St_Branches s))) →
       w (now_rewrites s rewrites) [] = []) ↔
     ∀ c, child s c → ¬ warned c (b || rewriting refs s)) as ->.
  { split.
    - intros Hw c Hc. specialize (Hw _ (child_walk s c Hc)). simpl in Hw.
      apply IH in Hw as [_ Hw]; [|done]. by rewrite Hrw in Hw.
    - intros Hc w [->|(c & Hch & ->)]%elem_of_walks; [done|]. simpl. apply IH; [done|].
      split; [done|]. rewrite Hrw. by apply Hc. }
  assert (warned s b ↔ deciding s = true ∧ b = true ∨
    ∃ c, child s c ∧ warned c (b || rewriting refs s)) as ->.
  { split.
    - inversion 1; subst; eauto.
    - intros [[? ->]|(c & ? & ?)]; [by constructor|by econstructor]. }
  destruct (deciding s) eqn:Hd; simpl; [|naive_solver].
  assert (rewriting refs s = false) as ->.
  { unfold deciding, rewriting in *. to_prop.
    match goal with Hk : St_Kind s = StepRoute |- _ => by rewrite Hk end. }
  rewrite orb_false_r. destruct b; [|naive_solver]. split; [|naive_solver].
  intros [Hn _]. by apply append_new_nonempty in Hn.
Qed.
End warnings.

(** Saving a router gives no warning exactly when, on no way through it, a
    route step that asks a model comes after an enforcing filter whose model
    rewrites the request, so that no decision is made on rewritten text. *)
Theorem Warnings_exact (p : Router) (refs : RouterRefs) :
  Warnings p refs = [] ↔ ∀ s, Ro_Start p = Some s → ¬ warned refs s false.
Proof.
  unfold Warnings. destruct (Ro_Start p) as [s|]; [|naive_solver].
  rewrite warn_walk_spec. simpl. naive_solver.
Qed.

(** ** The counters of the limit steps *)

Definition pipe : Ascii.ascii := Ascii.ascii_of_nat 124.

Lemma validName_no_pipe s n : validName s n = true → contains_byte pipe s = false.
Proof.
  unfold validName. case_match; [done|]. apply all_bytes_excludes.
  intros i c Hc ->. by vm_compute in Hc.
Qed.

(** The id a limit step counts under, without its meter. *)
Definition limit_id (p : Router) (s : Step) : string :=
  Ro_OrgID p +:+ "/" +:+ Ro_Alias p +:+ "/" +:+ St_ID s.

Lemma Router_Scopes_ids p s sc :
  sc ∈ Router_Scopes p s →
  SType sc = ScopeRouter ∧
  (SID sc = limit_id p s ∨ SID sc = limit_id p s +:+ String pipe (SMeter sc)).
Proof.
  unfold Router_Scopes. fold (limit_id p s).
  case_bool_decide; [intros ->%list_elem_of_singleton; auto|].
  unfold RateLimit_count. destruct (Period_Valid _); simpl; [|intros ->%list_elem_of_singleton; auto].
  destruct (quotas _ _ _ _ _) as [|x l] eqn:Hq; [intros ->%list_elem_of_singleton; auto|].
  rewrite <- Hq. intros (m & q & _ & _ & ->)%elem_of_quotas. auto.
Qed.

Lemma cut_limit_id p s m :
  contains_byte pipe (limit_id p s) = false →
  (cut_byte pipe (limit_id p s +:+ String pipe m)).1.1 = limit_id p s ∧
  (cut_byte pipe (limit_id p s)).1.1 = limit_id p s.
Proof.
  intros Hp. rewrite cut_byte_fst by done. by rewrite cut_byte_id.
Qed.

(** Two limit steps never share a counter. For organisations whose ids
    hold no slash and no bar, aliases and step ids as the router check wants
    them, a scope of one step and a scope of another have the same id only if
    organisation, router and step are the same. *)
Theorem Router_Scopes_apart (p q : Router) (s t : Step) (sc sc' : Scope) :
  (∀ r, r = p ∨ r = q → contains_byte slash (Ro_OrgID r) = false ∧
     contains_byte pipe (Ro_OrgID r) = false ∧ ValidAlias (Ro_Alias r) = true) →
  validName (St_ID s) 32 = true → validName (St_ID t) 32 = true →
  sc ∈ Router_Scopes p s → sc' ∈ Router_Scopes q t → SID sc = SID sc' →
  Ro_OrgID p = Ro_OrgID q ∧ Ro_Alias p = Ro_Alias q ∧ St_ID s = St_ID t.
Proof.
  intros Hr Hs Ht Hsc Hsc' Heq.
  assert (∀ r u, r = p ∨ r = q → validName (St_ID u) 32 = true →
    contains_byte pipe (limit_id r u) = false) as Hpipe.
  { intros r u Hru Hu. destruct (Hr r Hru) as (_ & Hb & Ha%validName_no_pipe).
    apply validName_no_pipe in Hu. unfold limit_id. rewrite !contains_byte_app. by rewrite Hb, Ha, Hu. }
  assert (limit_id p s = limit_id q t) as Hid.
  { pose proof (cut_limit_id p s (SMeter sc) (Hpipe p s ltac:(auto) Hs)) as [H1 H2].
    pose proof (cut_limit_id q t (SMeter sc') (Hpipe q t ltac:(auto) Ht)) as [H3 H4].
    rewrite <- H2. apply Router_Scopes_ids in Hsc as [_ [E1|E1]], Hsc' as [_ [E2|E2]];
      rewrite E1, E2 in Heq; congruence. }
  destruct (Hr p) as (Hps & _ & Hpa%validName_no_slash); [auto|].
  destruct (Hr q) as (Hqs & _ & Hqa%validName_no_slash); [auto|].
  unfold limit_id in Hid.
  change ("/" +:+ ?x) with (String slash x) in Hid.
  apply tool_entry_inj in Hid as [? Hid]; [|done..].
  apply tool_entry_inj in Hid as [? ?]; [|done..]. done.
Qed.

(** ** Examples *)

Definition blank_step : Step :=
  {| St_ID := ""; St_Kind := ""; St_Ref := ""; St_Requests := 0; St_Tokens := 0;
     St_BudgetMicros := 0; St_Prompt := ""; St_Mode := ""; St_Model := ""; St_Destinations := [];
     St_Ceilings := ∅; St_Fallback := ""; St_Header := ""; St_Values := ∅; St_Period := "";
     St_Next := None; St_Exceeded := None; St_Branches := ∅ |}.

(** A step that sends to a model. *)
Definition to_model (id alias : string) : Step :=
  {| St_ID := id; St_Kind := StepModel; St_Ref := alias; St_Requests := 0; St_Tokens := 0;
     St_BudgetMicros := 0; St_Prompt := ""; St_Mode := ""; St_Model := ""; St_Destinations := [];
     St_Ceilings := ∅; St_Fallback := ""; St_Header := ""; St_Values := ∅; St_Period := "";
     St_Next := None; St_Exceeded := None; St_Branches := ∅ |}.

(** A size step: short requests through a rate limit to the small model, the
    rest straight to the large one. *)
Definition sample_limit : Step :=
  {| St_ID := "per-day"; St_Kind := StepRateLimit; St_Ref := ""; St_Requests := 1000;
     St_Tokens := 0; St_BudgetMicros := 0; St_Prompt := ""; St_Mode := ""; St_Model := "";
     St_Destinations := []; St_Ceilings := ∅; St_Fallback := ""; St_Header := ""; St_Values := ∅;
     St_Period := PeriodDay; St_Next := Some (to_model "small-1" "small");
     St_Exceeded := Some (to_model "large-1" "large"); St_Branches := ∅ |}.

Definition sample_split : Step :=
  {| St_ID := "by-size"; St_Kind := StepRoute; St_Ref := ""; St_Requests := 0; St_Tokens := 0;
     St_BudgetMicros := 0; St_Prompt := ""; St_Mode := RouteModeSize; St_Model := "";
     St_Destinations := ["small"; "large"]; St_Ceilings := {["small" := 2000]}; St_Fallback := "";
     St_Header := ""; St_Values := ∅; St_Period := ""; St_Next := None; St_Exceeded := None;
     St_Branches := {["small" := Some sample_limit]} |}.

Definition sample_router : Router :=
  {| Ro_OrgID := "org_1"; Ro_Alias := "auto"; Ro_DisplayName := ""; Ro_Description := "";
     Ro_Start := Some sample_split; Ro_CreatedAt := 0; Ro_UpdatedAt := 0 |}.

Definition chat_model (alias : string) : Model :=
  {| Alias := alias; OrgID := "org_1"; Kind := KindChat; Backends := ["http://vllm:8000/v1"];
     BackendModel := alias; Provider := ""; DisplayName := ""; Description := "";
     InputMicrosPerMTok := 0; OutputMicrosPerMTok := 0; CachedInputMicrosPerMTok := 0;
     CacheWriteMicrosPerMTok := 0; LongPrompt := None; MaxContext := 0; ReleaseDate := "";
     Location := LocationOnPrem; APIKeyCiphertext := ""; APIKey := ""; HasAPIKey := false;
     Subscription := false; PlatformKey := false; Model_Billing := None; Limited := false;
     Locked := false; OrgName := ""; Enabled := true |}.

Definition sample_refs : RouterRefs :=
  {| Refs_Models := {["small" := chat_model "small"; "large" := chat_model "large"]};
     Refs_Filters := ∅ |}.

Lemma accepted_router_lands_witness :
  Router_Problem sample_router sample_refs = "" ∧ Reaches sample_router ≠ [].
Proof.
  split; [vm_compute; reflexivity|].
  apply (accepted_router_lands sample_router sample_refs). vm_compute. reflexivity.
Defined.

Lemma Router_Scopes_apart_witness :
  St_ID sample_limit = "per-day" ∧
  ∃ sc, sc ∈ Router_Scopes sample_router sample_limit ∧ Ro_Alias sample_router = "auto".
Proof.
  split; [reflexivity|].
  exists {| SType := ScopeRouter; SID := "org_1/auto/per-day|requests"; RPM := 0; TPM := 0;
     BudgetMicros := 0; SPeriod := PeriodDay; SMeter := MeterRequests; Quota := 1000 |}.
  split; [left|].
  apply (Router_Scopes_apart sample_router sample_router sample_limit sample_limit
    {| SType := ScopeRouter; SID := "org_1/auto/per-day|requests"; RPM := 0; TPM := 0;
       BudgetMicros := 0; SPeriod := PeriodDay; SMeter := MeterRequests; Quota := 1000 |}
    {| SType := ScopeRouter; SID := "org_1/auto/per-day|requests"; RPM := 0; TPM := 0;
       BudgetMicros := 0; SPeriod := PeriodDay; SMeter := MeterRequests; Quota := 1000 |});
    try reflexivity; [|left|left].
  intros r [->| ->]; split_and!; reflexivity.
Defined.
