(* ===== verification/Stable.v ===== *)
(** * Stable sorting

    [sort.SliceStable] and [slices.SortStableFunc], which the route steps rank
    destinations with. Both are documented to sort by a strict weak order and
    to keep elements that compare equal in their original order, which fixes
    the result: it is the insertion sort below. *)
From S2P Require Import Prelude.

Section sort.
Context {A : Type} (less : A → A → bool).

Fixpoint insert_stable (x : A) (l : list A) : list A :=
  match l with
  | [] => [x]
  | y :: l' => if less y x then y :: insert_stable x l' else x :: l
  end.

Definition stable_sort (l : list A) : list A := foldr insert_stable [] l.

(** [x] may come before [y]. *)
Definition weak_le (x y : A) : Prop := less y x = false.

Lemma insert_stable_perm x l : insert_stable x l ≡ₚ x :: l.
Proof.
  induction l as [|y l IH]; simpl; [done|]. destruct (less y x); [|done].
  rewrite IH. apply perm_swap.
Qed.

Lemma stable_sort_perm l : stable_sort l ≡ₚ l.
Proof. induction l as [|x l IH]; simpl; [done|]. by rewrite insert_stable_perm, IH. Qed.

(** [less] is a strict weak order. *)
Class StrictWeak : Prop := {
  less_asym : ∀ x y, less x y = true → less y x = false;
  weak_le_trans : ∀ x y z, weak_le x y → weak_le y z → weak_le x z;
}.

Context `{StrictWeak}.

Lemma less_irrefl x : less x x = false.
Proof. destruct (less x x) eqn:Hx; [|done]. by rewrite (less_asym _ _ Hx) in Hx. Qed.

Lemma stable_sort_sorted l : StronglySorted weak_le (stable_sort l).
Proof.
  induction l as [|x l IH]; simpl; [constructor|].
  induction (stable_sort l) as [|y s IHs]; simpl; [by repeat constructor|].
  apply StronglySorted_inv in IH as [Hs Hy]. destruct (less y x) eqn:Hl.
  - constructor; [auto|]. rewrite Forall_forall in *. intros z.
    rewrite insert_stable_perm. intros [->|Hz]%elem_of_cons; [by apply less_asym|auto].
  - constructor; [by constructor|]. constructor; [done|]. rewrite Forall_forall in *.
    intros z Hz. eapply weak_le_trans; [done|auto].
Qed.

(** The head of the result is the first of the best. *)
Lemma stable_sort_head l x s : stable_sort l = x :: s →
  (∀ y, y ∈ l → weak_le x y) ∧
  ∃ before after, l = before ++ x :: after ∧ ∀ y, y ∈ before → less x y = true.
Proof.
  revert x s. induction l as [|z l IH]; intros x s; simpl; [done|].
  destruct (stable_sort l) as [|y s'] eqn:Hs; simpl.
  - pose proof (stable_sort_perm l) as Hp. rewrite Hs in Hp. apply Permutation_nil in Hp as ->.
    intros [= <- <-]. split; [|exists [], []; set_solver].
    intros y ->%list_elem_of_singleton. apply less_irrefl.
  - destruct (IH y s' eq_refl) as [Hle (before & after & -> & Hb)].
    destruct (less y z) eqn:Hl; intros [= <- <-].
    + split; [intros w [->|Hw]%elem_of_cons; [by apply less_asym|auto]|].
      exists (z :: before), after. split; [done|]. intros w [->|Hw]%elem_of_cons; auto.
    + split; [|by exists [], (before ++ y :: after); set_solver].
      intros w [->|Hw]%elem_of_cons; [apply less_irrefl|].
      eapply weak_le_trans; [done|auto].
Qed.

(** Elements that compare equal keep their order. *)
Lemma stable_sort_stable (P : A → Prop) `{!∀ x, Decision (P x)} l :
  (∀ x y, P x → P y → less x y = false) → filter P (stable_sort l) = filter P l.
Proof.
  intros HP. induction l as [|x l IH]; simpl; [done|]. rewrite filter_cons, <- IH. clear IH.
  induction (stable_sort l) as [|y s IHs]; simpl; [rewrite filter_cons; by destruct (decide (P x))|].
  destruct (less y x) eqn:Hl.
  - rewrite !filter_cons, IHs. clear IHs.
    destruct (decide (P y)), (decide (P x)); try done. exfalso.
    assert (less y x = false) by auto. congruence.
  - by rewrite filter_cons.
Qed.

(** A sort changes nothing in a list already in order. *)
Lemma stable_sort_id l : StronglySorted weak_le l → stable_sort l = l.
Proof.
  induction 1 as [|x l Hs IH Hx]; simpl; [done|]. rewrite IH.
  destruct l as [|y l]; simpl; [done|].
  rewrite Forall_cons in Hx. destruct Hx as [Hx _]. unfold weak_le in Hx. by rewrite Hx.
Qed.
End sort.

(** An order on keys orders what has them. *)
#[export] Instance StrictWeak_on {A B} (f : A → B) (less : B → B → bool) :
  StrictWeak less → StrictWeak (λ x y, less (f x) (f y)).
Proof.
  intros [Ha Ht]. split; [intros; by apply Ha|]. unfold weak_le in *. intros x y z. apply Ht.
Qed.

#[export] Instance StrictWeak_ltb : StrictWeak Z.ltb.
Proof. split; [|unfold weak_le]; intros; to_prop; apply Z.ltb_ge; lia. Qed.

(** The lexicographic order of two: [cmp.Or]. *)
Definition lex {A} (less1 less2 : A → A → bool) (x y : A) : bool :=
  less1 x y || (negb (less1 y x) && less2 x y).

Lemma lex_false {A} (less1 less2 : A → A → bool) x y :
  lex less1 less2 x y = false ↔ less1 x y = false ∧ (less1 y x = true ∨ less2 x y = false).
Proof.
  unfold lex. rewrite orb_false_iff, andb_false_iff, negb_false_iff. done.
Qed.

#[export] Instance StrictWeak_lex {A} (less1 less2 : A → A → bool) :
  StrictWeak less1 → StrictWeak less2 → StrictWeak (lex less1 less2).
Proof.
  intros [Ha1 Ht1] [Ha2 Ht2]. unfold weak_le in *. split.
  - intros x y H. apply lex_false. unfold lex in H.
    apply orb_true_iff in H as [H|[H1 H2]%andb_true_iff]; to_prop; auto.
  - intros x y z H1 H2. apply lex_false. apply lex_false in H1, H2. revert H1 H2. intros [Hyx Hxy] [Hzy Hyz].
    split; [by apply (Ht1 x y z)|]. destruct (less1 x z) eqn:Hxz; [by left|right].
    destruct Hxy as [Hxy|Hxy]; [pose proof (Ht1 y z x Hzy Hxz); congruence|].
    destruct Hyz as [Hyz|Hyz]; [pose proof (Ht1 z x y Hxz Hyx); congruence|].
    by apply (Ht2 x y z).
Qed.

Lemma StrictWeak_ext {A} (less less' : A → A → bool) :
  (∀ x y, less' x y = less x y) → StrictWeak less → StrictWeak less'.
Proof.
  intros He [Ha Ht]. split; [intros x y; rewrite !He; apply Ha|].
  unfold weak_le in *. intros x y z. rewrite !He. apply Ht.
Qed.

(** [true] after [false]. *)
Definition true_last (a b : bool) : bool := negb a && b.

#[export] Instance StrictWeak_true_last : StrictWeak true_last.
Proof. split; unfold weak_le, true_last; [intros [] []|intros [] [] []]; done. Qed.

Lemma true_last_false a b : true_last b a = false ↔ (a = true → b = true).
Proof. unfold true_last. destruct a, b; simpl; intuition. Qed.

Lemma StronglySorted_impl {A} (R R' : A → A → Prop) l :
  (∀ x y, R x y → R' x y) → StronglySorted R l → StronglySorted R' l.
Proof.
  intros HR. induction 1 as [|x l Hs IH Hx]; constructor; [done|].
  eapply Forall_impl; [done|]. intros y. apply HR.
Qed.

Lemma insert_stable_fmap {A B} (f : A → B) (less : B → B → bool) x l :
  insert_stable less (f x) (f <$> l) = f <$> insert_stable (λ a b, less (f a) (f b)) x l.
Proof.
  induction l as [|y l IH]; [done|]. rewrite fmap_cons. simpl.
  destruct (less (f y) (f x)); [|done]. by rewrite IH.
Qed.

Lemma stable_sort_fmap {A B} (f : A → B) (less : B → B → bool) l :
  stable_sort less (f <$> l) = f <$> stable_sort (λ a b, less (f a) (f b)) l.
Proof.
  induction l as [|x l IH]; [done|]. rewrite fmap_cons. simpl. rewrite IH. apply insert_stable_fmap.
Qed.

Lemma insert_stable_ext {A} (less less' : A → A → bool) x l :
  (∀ y, less y x = less' y x) → insert_stable less x l = insert_stable less' x l.
Proof. intros He. induction l as [|y l IH]; simpl; [done|]. by rewrite He, IH. Qed.

Lemma stable_sort_ext {A} (less less' : A → A → bool) l :
  (∀ x y, less x y = less' x y) → stable_sort less l = stable_sort less' l.
Proof.
  intros He. induction l as [|x l IH]; simpl; [done|]. rewrite IH. by apply insert_stable_ext.
Qed.

(** Sorting by two keys, the best element is the first of the best by the
    second key among those that are best by the first. *)
Lemma stable_sort_lex_head {A} (less1 less2 : A → A → bool) (P : A → Prop)
    `{!∀ x, Decision (P x)} `{!StrictWeak less1} `{!StrictWeak less2} l x s :
  (∀ a b, P a → P b → less1 a b = false) → (∀ a b, P a → ¬ P b → less1 a b = true) →
  stable_sort (lex less1 less2) l = x :: s →
  match filter P (stable_sort less2 l) with
  | y :: _ => x = y
  | [] => ∀ a, a ∈ l → ¬ P a
  end.
Proof.
  intros Hin Hout Hsort.
  pose proof (stable_sort_perm less2 l) as Hp2. pose proof (stable_sort_perm (lex less1 less2) l) as Hp.
  destruct (stable_sort_head (lex less1 less2) l x s Hsort) as [Hmin _].
  destruct (filter P (stable_sort less2 l)) as [|y t] eqn:Hf.
  { intros a Ha HPa. assert (a ∈ filter P (stable_sort less2 l)) as Hn
      by (apply list_elem_of_filter; split; [done|by rewrite Hp2]). rewrite Hf in Hn. set_solver. }
  assert (y ∈ l ∧ P y) as [Hy HPy].
  { assert (y ∈ filter P (stable_sort less2 l)) as Hn by (rewrite Hf; left).
    apply list_elem_of_filter in Hn as [? Hn]. rewrite Hp2 in Hn. done. }
  assert (x ∈ l) as Hx by (rewrite <- Hp, Hsort; left).
  assert (P x) as HPx.
  { destruct (decide (P x)) as [|Hn]; [done|]. specialize (Hmin y Hy). unfold weak_le in Hmin.
    apply lex_false in Hmin as [Hmin _]. rewrite (Hout y x) in Hmin by done. done. }
  (* [x] and [y] compare equal by the second key *)
  assert (StronglySorted (weak_le less2) (y :: t)) as Hsorted.
  { rewrite <- Hf. pose proof (stable_sort_sorted less2 l) as Hss. revert Hss. clear.
    induction 1 as [|a m Hm IH Ha]; [constructor|]. rewrite filter_cons. case_decide; [|done].
    constructor; [done|]. rewrite Forall_forall in *. intros b [_ Hb]%list_elem_of_filter. auto. }
  assert (x ∈ y :: t) as Hxy.
  { rewrite <- Hf. apply list_elem_of_filter. split; [done|]. by rewrite Hp2. }
  assert (less2 x y = false) as Hle.
  { apply elem_of_cons in Hxy as [->|Hxt]; [apply (less_irrefl less2)|].
    apply StronglySorted_inv in Hsorted as [_ Hall]. rewrite Forall_forall in Hall.
    by apply Hall. }
  assert (less2 y x = false) as Hge.
  { specialize (Hmin y Hy). apply lex_false in Hmin as [_ [Hm|Hm]]; [|done].
    rewrite Hin in Hm by done. done. }
  (* both are the first of those *)
  set (Q := λ a, P a ∧ less2 a y = false ∧ less2 y a = false).
  assert (filter Q (stable_sort (lex less1 less2) l) = filter Q l) as HQ.
  { apply stable_sort_stable. intros a b (HPa & Ha1 & Ha2) (HPb & Hb1 & Hb2).
    apply lex_false. split; [by apply Hin|]. right.
    apply (weak_le_trans less2 b y a); done. }
  assert (filter Q (stable_sort less2 l) = filter Q l) as HQ2.
  { apply stable_sort_stable. intros a b (HPa & Ha1 & Ha2) (HPb & Hb1 & Hb2).
    apply (weak_le_trans less2 b y a); done. }
  rewrite <- HQ2, Hsort, filter_cons in HQ. rewrite decide_True in HQ by done.
  assert (filter Q (stable_sort less2 l) = filter Q (filter P (stable_sort less2 l))) as HQP.
  { rewrite list_filter_filter. apply filter_ext_in. unfold Q. tauto. }
  rewrite HQP, Hf, filter_cons in HQ.
  rewrite decide_True in HQ by (unfold Q; auto using less_irrefl). by injection HQ.
Qed.
