(* ===== verification/Accounts.v ===== *)
(** * People, organisations and sign-ins

    The rows the control plane signs people in with, and each statement or
    transaction of [internal/store/] on them: users and their memberships
    ([tenants.go], [session.go]), sessions and command-line tokens
    ([session.go], [cli.go]), sign-ins under way, sign-ups ([signup.go]), what
    a directory last said ([directory.go]) and passkeys ([passkeys.go]). Each
    takes the database's [now()]. A missing optional text is the empty string,
    as the queries read it. *)
From S2P Require Import Prelude GoTime Stable Tenancy Text Keys Control Principals.
Open Scope go_scope.

(** ** Rows *)

(** [store.User], with the column [signed_in_at]. *)
Record User := {
  U_ID : string;
  U_OrgID : string;
  U_Email : string;
  U_Name : string;
  U_ExternalID : string;
  U_Role : string;
  U_CreatedAt : Z;
  DisabledAt : option Z;
  signed_in_at : option Z;
}.

#[export] Instance User_updatable : Updatable User := λ u,
  {| U_ID := U_ID u; U_OrgID := U_OrgID u; U_Email := U_Email u; U_Name := U_Name u; U_ExternalID := U_ExternalID u;
     U_Role := U_Role u; U_CreatedAt := U_CreatedAt u; DisabledAt := DisabledAt u; signed_in_at := signed_in_at u |}.

Definition Disabled (u : User) : bool := bool_decide (is_Some (DisabledAt u)).

Record Org := { O_ID : string; O_Name : string; EmailDomain : string; Limited : bool; O_CreatedAt : Z }.

Record session := { s_user : string; s_csrf : string; s_created : Z; s_expires : Z }.
Record cli_code := { c_user : string; c_challenge : string; c_expires : Z }.
Record cli_token := { t_user : string; t_expires : Z }.

#[export] Instance session_updatable : Updatable session := λ s,
  {| s_user := s_user s; s_csrf := s_csrf s; s_created := s_created s; s_expires := s_expires s |}.
#[export] Instance cli_token_updatable : Updatable cli_token := λ t, {| t_user := t_user t; t_expires := t_expires t |}.

Record LoginFlow := {
  F_State : string;
  F_Verifier : string;
  F_Nonce : string;
  F_Provider : string;
  RedirectTo : string;
  CLIRedirect : string;
  CLIChallenge : string;
  CLIState : string;
}.

(** [LoginFlow.CLI]. *)
Definition CLI (f : LoginFlow) : bool := negb (bool_decide (CLIRedirect f = "")).

Record Signup := {
  Su_Provider : string;
  Su_ExternalID : string;
  Su_Email : string;
  Su_Name : string;
  Su_Role : string;
  Su_RefreshToken : option string;
  InvitedOrg : string;
  Su_RedirectTo : string;
}.

#[export] Instance Signup_updatable : Updatable Signup := λ s,
  {| Su_Provider := Su_Provider s; Su_ExternalID := Su_ExternalID s; Su_Email := Su_Email s; Su_Name := Su_Name s; Su_Role := Su_Role s;
     Su_RefreshToken := Su_RefreshToken s; InvitedOrg := InvitedOrg s; Su_RedirectTo := Su_RedirectTo s |}.

(** A row of [identities]. *)
Record identity_row := { refresh_token : option string; checked_at : option Z; failing_since : option Z }.

(** What lookups carry of it. *)
Record Directory := { Linked : bool; CheckedAt : Z }.

Definition Due (d : Directory) (now every : Z) : bool := Linked d && (every <=? now - CheckedAt d).

Record Passkey := {
  K_ID : string;
  K_UserID : string;
  K_Name : string;
  CredentialID : string;
  PublicKey : string;
  Algorithm : Z;
  SignCount : Z;
  K_CreatedAt : Z;
  LastUsedAt : option Z;
}.

#[export] Instance Passkey_updatable : Updatable Passkey := λ k,
  {| K_ID := K_ID k; K_UserID := K_UserID k; K_Name := K_Name k; CredentialID := CredentialID k; PublicKey := PublicKey k;
     Algorithm := Algorithm k; SignCount := SignCount k; K_CreatedAt := K_CreatedAt k; LastUsedAt := LastUsedAt k |}.

(** The tables. Tokens are named by their hashes. *)
Record people := {
  orgs : gmap string Org;
  users : gmap string User;
  sessions : gmap string session;
  cli_codes : gmap string cli_code;
  cli_tokens : gmap string cli_token;
  login_flows : gmap string (LoginFlow * Z);
  signups : gmap string (Signup * Z);
  identities : gmap string identity_row;
  passkeys : gmap string Passkey;
  passkey_links : gmap string (string * Z);
  passkey_challenges : gmap string (string * string * Z);
}.

#[export] Instance people_updatable : Updatable people := λ d,
  {| orgs := orgs d; users := users d; sessions := sessions d; cli_codes := cli_codes d; cli_tokens := cli_tokens d;
     login_flows := login_flows d; signups := signups d; identities := identities d; passkeys := passkeys d;
     passkey_links := passkey_links d; passkey_challenges := passkey_challenges d |}.

(** The errors the control plane tells apart. *)
Inductive db_error :=
  | ErrNotFound | ErrEmailTaken | ErrUserExists | ErrExternalIDTaken | ErrOrgNameTaken | ErrDomainTaken
  | ErrPasskeyTaken | ErrLastPasskey | MissingOrg | ErrDatabase.

#[export] Instance db_error_eq_dec : EqDecision db_error.
Proof. solve_decision. Defined.

(** The database's own [lower] and the order of its texts. *)
Class Collation := { lower : string → string; collate : string → string → comparison }.

(** A membership, as [Memberships] lists it. *)
Record Membership := {
  M_UserID : string;
  M_OrgID : string;
  M_OrgName : string;
  M_Role : string;
  M_Invited : bool;
  M_Disabled : bool;
}.

Record Link := { L_OrgID : string; L_Email : string; L_Name : string; L_ExternalID : string; L_Role : string }.

Implicit Types (d : people) (now : Z).

(** ** Conditions the statements share *)

(** [external_id = $1]: NULL equals nothing. *)
Definition has_identity (ext : string) (u : User) : bool := negb (bool_decide (ext = "")) && bool_decide (U_ExternalID u = ext).

Definition unlinked (u : User) : bool := bool_decide (U_ExternalID u = "").

Definition enabled (u : User) : bool := negb (Disabled u).

(** [inOrg]. *)
Definition in_org (orgID column : string) : bool := bool_decide (orgID = AnyOrg) || bool_decide (column = orgID).

Definition rows {A} (m : gmap string A) : list A := map snd (map_to_list m).

Definition user_where d (p : User → bool) : option User := head (List.filter p (rows (users d))).

(** The schema's CHECK on [users.role]. *)
Definition role_allowed (role : string) : bool := Role_Valid role.

(** Another row at the same address, or of the same identity, in one organisation. *)
Definition at_address (org email : string) (u : User) : bool := bool_decide (U_OrgID u = org) && bool_decide (U_Email u = email).
Definition of_identity (org ext : string) (u : User) : bool := bool_decide (U_OrgID u = org) && has_identity ext u.

Definition put_user d (u : User) : people := d <| users := <[U_ID u := u]> (users d) |>.

Definition lookup_row {A} (o : option A) : db_error + A := match o with Some x => inr x | None => inl ErrNotFound end.

(** ** Sign-ins *)

Definition note_sign_in d now (userID : string) : people :=
  d <| users := alter (λ u, u <| signed_in_at := Some now |>) userID (users d) |>.

Definition CreateSession d now (hash userID csrf : string) (expires : Z) : people * option db_error :=
  match users d !! userID, sessions d !! hash with
  | Some _, None =>
      ((note_sign_in d now userID) <| sessions := <[hash := {| s_user := userID; s_csrf := csrf; s_created := now; s_expires := expires |}]> (sessions d) |>, None)
  | _, _ => (d, Some ErrDatabase)
  end.

(** [directoryColumns] and [identityJoin]. *)
Definition directory_of d (u : User) : Directory :=
  match (if unlinked u then None else identities d !! U_ExternalID u) with
  | Some i => {| Linked := bool_decide (is_Some (refresh_token i)); CheckedAt := default 0 (checked_at i) |}
  | None => {| Linked := false; CheckedAt := 0 |}
  end.

Definition LookupSession d now (hash : string) : db_error + (string * Z * User * Directory) :=
  match sessions d !! hash with
  | Some s =>
      match users d !! s_user s with
      | Some u => if (now <? s_expires s) && enabled u then inr (s_csrf s, s_created s, u, directory_of d u) else inl ErrNotFound
      | None => inl ErrNotFound
      end
  | None => inl ErrNotFound
  end.

Definition DeleteSession d (hash : string) : people := d <| sessions := delete hash (sessions d) |>.

Inductive sign_in_table := T_sessions | T_cli_codes | T_cli_tokens.

Definition sign_in_tables : list sign_in_table := [T_sessions; T_cli_codes; T_cli_tokens].

(** One statement of [deleteSessionsWhere]. *)
Definition delete_from (t : sign_in_table) d (who : string → bool) : people :=
  match t with
  | T_sessions => d <| sessions := filter (λ kv, who (s_user kv.2) = false) (sessions d) |>
  | T_cli_codes => d <| cli_codes := filter (λ kv, who (c_user kv.2) = false) (cli_codes d) |>
  | T_cli_tokens => d <| cli_tokens := filter (λ kv, who (t_user kv.2) = false) (cli_tokens d) |>
  end.

(** [deleteSessionsWhere] inside a transaction. *)
Definition delete_sign_ins d (who : string → bool) : people := foldl (λ d t, delete_from t d who) d sign_in_tables.

(** The subqueries that choose whose. *)
Inductive selection := Of_user (id : string) | Of_person (id : string) | Of_identity (ext : string).

Definition selects d (s : selection) (id : string) : bool :=
  match s with
  | Of_user i => bool_decide (id = i)
  | Of_person i =>
      match users d !! id with
      | Some u => bool_decide (id = i) || match users d !! i with Some v => has_identity (U_ExternalID v) u | None => false end
      | None => false
      end
  | Of_identity ext => match users d !! id with Some u => has_identity ext u | None => false end
  end.

(** [moveSignIn]: the person's sign-in is noted whether or not the row was there. *)
Definition MoveSession d now (hash userID : string) : people * option db_error :=
  match sessions d !! hash with
  | Some s =>
      if now <? s_expires s then
        match users d !! userID with
        | Some _ => ((note_sign_in d now userID) <| sessions := <[hash := s <| s_user := userID |>]> (sessions d) |>, None)
        | None => (d, Some ErrDatabase)
        end
      else (note_sign_in d now userID, Some ErrNotFound)
  | None => (note_sign_in d now userID, Some ErrNotFound)
  end.

Definition MoveCLIToken d now (hash userID : string) : people * option db_error :=
  match cli_tokens d !! hash with
  | Some t =>
      if now <? t_expires t then
        match users d !! userID with
        | Some _ => ((note_sign_in d now userID) <| cli_tokens := <[hash := t <| t_user := userID |>]> (cli_tokens d) |>, None)
        | None => (d, Some ErrDatabase)
        end
      else (note_sign_in d now userID, Some ErrNotFound)
  | None => (note_sign_in d now userID, Some ErrNotFound)
  end.

Definition CreateCLICode d (hash userID challenge : string) (expires : Z) : people * option db_error :=
  match users d !! userID, cli_codes d !! hash with
  | Some _, None =>
      (d <| cli_codes := <[hash := {| c_user := userID; c_challenge := challenge; c_expires := expires |}]> (cli_codes d) |>, None)
  | _, _ => (d, Some ErrDatabase)
  end.

Definition TakeCLICode d now (hash : string) : people * (db_error + (string * string)) :=
  match cli_codes d !! hash with
  | Some c =>
      if now <? c_expires c then (d <| cli_codes := delete hash (cli_codes d) |>, inr (c_user c, c_challenge c)) else (d, inl ErrNotFound)
  | None => (d, inl ErrNotFound)
  end.

Definition CreateCLIToken d now (hash userID : string) (expires : Z) : people * option db_error :=
  match users d !! userID, cli_tokens d !! hash with
  | Some _, None =>
      ((note_sign_in d now userID) <| cli_tokens := <[hash := {| t_user := userID; t_expires := expires |}]> (cli_tokens d) |>, None)
  | _, _ => (d, Some ErrDatabase)
  end.

Definition LookupCLIToken d now (hash : string) : db_error + (User * Directory) :=
  match cli_tokens d !! hash with
  | Some t =>
      match users d !! t_user t with
      | Some u => if (now <? t_expires t) && enabled u then inr (u, directory_of d u) else inl ErrNotFound
      | None => inl ErrNotFound
      end
  | None => inl ErrNotFound
  end.

Definition DeleteCLIToken d (hash : string) : people := d <| cli_tokens := delete hash (cli_tokens d) |>.

(** ** Sign-ins under way *)

Definition CreateLoginFlow d (f : LoginFlow) (expires : Z) : people * option db_error :=
  match login_flows d !! F_State f with
  | None => (d <| login_flows := <[F_State f := (f, expires)]> (login_flows d) |>, None)
  | Some _ => (d, Some ErrDatabase)
  end.

Definition LoginFlowByState d now (state : string) : db_error + LoginFlow :=
  match login_flows d !! state with
  | Some (f, expires) => if now <? expires then inr f else inl ErrNotFound
  | None => inl ErrNotFound
  end.

Definition TakeLoginFlow d now (state : string) : people * (db_error + LoginFlow) :=
  match LoginFlowByState d now state with
  | inr f => (d <| login_flows := delete state (login_flows d) |>, inr f)
  | inl e => (d, inl e)
  end.

(** ** What a directory last said *)

(** [RecordDirectoryCheck]; no token keeps the one stored. *)
Definition RecordDirectoryCheck d now (ext : string) (sealed : option string) : people :=
  let kept := match identities d !! ext with Some i => refresh_token i | None => None end in
  d <| identities := <[ext := {| refresh_token := match sealed with Some t => Some t | None => kept end;
                                 checked_at := Some now; failing_since := None |}]> (identities d) |>.

Definition RecordDirectoryFailure d now (ext : string) : people * (db_error + Z) :=
  match identities d !! ext with
  | Some i =>
      let since := default now (failing_since i) in
      (d <| identities := <[ext := {| refresh_token := refresh_token i; checked_at := checked_at i; failing_since := Some since |}]> (identities d) |>,
       inr since)
  | None => (d, inl ErrNotFound)
  end.

Definition ClaimDirectoryCheck d now (ext : string) (checkedBefore : Z) : people * option string :=
  match identities d !! ext with
  | Some i =>
      match refresh_token i with
      | Some sealed =>
          if default 0 (checked_at i) <? checkedBefore then
            (d <| identities := <[ext := {| refresh_token := Some sealed; checked_at := Some now; failing_since := failing_since i |}]> (identities d) |>,
             Some sealed)
          else (d, None)
      | None => (d, None)
      end
  | None => (d, None)
  end.

Definition EndDirectoryLink d (ext : string) : people :=
  let d := d <| identities := alter (λ i, {| refresh_token := None; checked_at := checked_at i; failing_since := None |}) ext (identities d) |> in
  delete_sign_ins d (selects d (Of_identity ext)).

Definition HasRefreshToken d (ext : string) : bool :=
  match identities d !! ext with Some i => bool_decide (is_Some (refresh_token i)) | None => false end.

(** ** People *)

Section people.
Context `{Collation}.

(** [DESC NULLS LAST]. *)
Definition last_used_first (a b : option Z) : comparison :=
  match a, b with
  | Some x, Some y => Z.compare y x
  | Some _, None => Lt
  | None, Some _ => Gt
  | None, None => Eq
  end.

Definition then_by (a b : comparison) : comparison := match a with Eq => b | _ => a end.

Definition order_by {A} (c : A → A → comparison) (l : list A) : list A :=
  stable_sort (λ a b, match c a b with Lt => true | _ => false end) l.

Definition UserByExternalID d (ext : string) : db_error + User :=
  lookup_row (head (order_by (λ a b, then_by (last_used_first (signed_in_at a) (signed_in_at b))
                                   (then_by (Z.compare (U_CreatedAt a) (U_CreatedAt b)) (collate (U_ID a) (U_ID b))))
                             (List.filter (has_identity ext) (rows (users d))))).

Definition UserInOrg d (ext orgID : string) : db_error + User :=
  lookup_row (user_where d (λ u, of_identity orgID ext u && enabled u)).

Definition membership_of (row : User * Org) : Membership :=
  let '(u, o) := row in
  {| M_UserID := U_ID u; M_OrgID := U_OrgID u; M_OrgName := O_Name o; M_Role := U_Role u; M_Invited := unlinked u;
     M_Disabled := Disabled u |}.

Definition Memberships d (ext email : string) (invitations : bool) : list Membership :=
  let in_list u := has_identity ext u || (invitations && bool_decide (U_Email u = email) && unlinked u && enabled u) in
  let joined := omap (λ u, (λ o, (u, o)) <$> orgs d !! U_OrgID u) (List.filter in_list (rows (users d))) in
  map membership_of (order_by (λ a b, then_by (last_used_first (signed_in_at a.1) (signed_in_at b.1))
                                        (then_by (collate (O_Name a.2) (O_Name b.2)) (collate (O_ID a.2) (O_ID b.2)))) joined).

Definition ExternalIDsFor d (email : string) : list string :=
  remove_dups (map U_ExternalID (List.filter (λ u, bool_decide (U_Email u = email) && negb (unlinked u)) (rows (users d)))).

(** [takeInvitation]. *)
Definition takeInvitation d (orgID email name ext : string) : people * (db_error + User) :=
  match user_where d (λ u, at_address orgID email u && unlinked u && enabled u) with
  | None => (d, inl ErrNotFound)
  | Some u =>
      if existsb (of_identity orgID ext) (rows (users d)) then (d, inl ErrEmailTaken)
      else let u := u <| U_ExternalID := ext |> <| U_Name := name |> in (put_user d u, inr u)
  end.

(** [followDirectory]: its new address may be someone else's in one of the organisations. *)
Definition followDirectory d (ext email name : string) : people * option db_error :=
  let theirs := List.filter (has_identity ext) (rows (users d)) in
  if existsb (λ u, existsb (λ v, at_address (U_OrgID u) email v && negb (has_identity ext v)) (rows (users d))) theirs
  then (d, Some ErrDatabase)
  else (d <| users := (λ u, if has_identity ext u then u <| U_Email := email |> <| U_Name := name |> else u) <$> users d |>, None).

Definition SetIdentityName d (ext name : string) : people :=
  d <| users := (λ u, if has_identity ext u then u <| U_Name := name |> else u) <$> users d |>.

Definition UserByID d (userID : string) : db_error + User := lookup_row (users d !! userID).

(** [execOne] of an update of one person. *)
Definition update_user d (orgID userID : string) (f : User → User) : people * option db_error :=
  match users d !! userID with
  | Some u => if in_org orgID (U_OrgID u) then (put_user d (f u), None) else (d, Some ErrNotFound)
  | None => (d, Some ErrNotFound)
  end.

Definition SetUserRole d (orgID userID role : string) : people * option db_error :=
  match users d !! userID with
  | Some u =>
      if negb (in_org orgID (U_OrgID u)) then (d, Some ErrNotFound)
      else if negb (role_allowed role) then (d, Some ErrDatabase)
      else update_user d orgID userID (λ u, u <| U_Role := role |>)
  | None => (d, Some ErrNotFound)
  end.

Definition EnableUser d (orgID userID : string) : people * option db_error :=
  update_user d orgID userID (λ u, u <| DisabledAt := None |>).

(** [deletePasskeys]. *)
Definition deletePasskeys d (userID : string) : people :=
  d <| passkeys := filter (λ kv, K_UserID kv.2 ≠ userID) (passkeys d) |>
    <| passkey_links := filter (λ kv, kv.2.1 ≠ userID) (passkey_links d) |>
    <| passkey_challenges := filter (λ kv, kv.2.1.1 ≠ userID) (passkey_challenges d) |>.

(** [DisableUser], less the keys. *)
Definition DisableUser d now (orgID userID : string) : people * option db_error :=
  match update_user d orgID userID (λ u, u <| DisabledAt := Some (default now (DisabledAt u)) |>) with
  | (d, None) => (deletePasskeys (delete_sign_ins d (selects d (Of_user userID))) userID, None)
  | (_, Some e) => (d, Some e)
  end.

(** A row of its own for somebody new: the primary key, the identity's index and the organisation. *)
Definition insert_user d (u : User) : people * (db_error + User) :=
  if negb (role_allowed (U_Role u)) then (d, inl ErrDatabase)
  else if bool_decide (is_Some (users d !! U_ID u)) || existsb (of_identity (U_OrgID u) (U_ExternalID u)) (rows (users d))
  then (d, inl ErrExternalIDTaken)
  else if bool_decide (orgs d !! U_OrgID u = None) then (d, inl MissingOrg)
  else (put_user d u, inr u).

Definition new_user now (id org email name ext role : string) : User :=
  {| U_ID := id; U_OrgID := org; U_Email := email; U_Name := name; U_ExternalID := ext; U_Role := role; U_CreatedAt := now;
     DisabledAt := None; signed_in_at := None |}.

Definition AddUser d now (newID orgID email ext role : string) : people * (db_error + User) :=
  if negb (role_allowed role) then (d, inl ErrDatabase)
  else match user_where d (at_address orgID email) with
  | Some _ => (d, inl ErrUserExists)
  | None => insert_user d (new_user now newID orgID email "" ext role)
  end.

(** The read [LinkUser] starts with. *)
Definition linked_user d (l : Link) : db_error + User := lookup_row (user_where d (of_identity (L_OrgID l) (L_ExternalID l))).

(** The insert [LinkUser] ends with. *)
Definition insert_link d now (newID : string) (l : Link) : people * (db_error + User) :=
  if negb (role_allowed (L_Role l)) then (d, inl ErrDatabase)
  else match user_where d (at_address (L_OrgID l) (L_Email l)) with
  | Some u =>
      if negb (unlinked u) then (d, inl ErrNotFound)
      else if existsb (of_identity (L_OrgID l) (L_ExternalID l)) (rows (users d)) then (d, inl ErrDatabase)
      else let u := u <| U_ExternalID := L_ExternalID l |> <| U_Name := L_Name l |> in (put_user d u, inr u)
  | None =>
      match insert_user d (new_user now newID (L_OrgID l) (L_Email l) (L_Name l) (L_ExternalID l) (L_Role l)) with
      | (d, inl ErrExternalIDTaken) => (d, inl ErrDatabase)
      | done => done
      end
  end.

Definition ListUsers d (orgID : string) : list User :=
  order_by (λ a b, collate (U_Email a) (U_Email b)) (List.filter (λ u, bool_decide (orgID = "") || bool_decide (U_OrgID u = orgID)) (rows (users d))).

(** ** Organisations *)

Definition OrgByEmailDomain d (domain : string) : db_error + Org :=
  lookup_row (head (List.filter (λ o, negb (bool_decide (EmailDomain o = "")) && bool_decide (lower (EmailDomain o) = lower domain)) (rows (orgs d)))).

Definition OrgByID d (orgID : string) : db_error + Org := lookup_row (orgs d !! orgID).

Definition OnlyOrg d : db_error + Org := match rows (orgs d) with [o] => inr o | _ => inl ErrNotFound end.

Definition FirstOrg d : db_error + Org :=
  lookup_row (head (order_by (λ a b, then_by (Z.compare (O_CreatedAt a) (O_CreatedAt b)) (collate (O_ID a) (O_ID b))) (rows (orgs d)))).

(** [createOrg], less the first project and the template's models. *)
Definition createOrg d now (o : Org) : people * (db_error + Org) :=
  if bool_decide (is_Some (orgs d !! O_ID o)) then (d, inl ErrDatabase)
  else if existsb (λ p, negb (bool_decide (EmailDomain o = "")) && bool_decide (lower (EmailDomain p) = lower (EmailDomain o))) (rows (orgs d))
  then (d, inl ErrDomainTaken)
  else if existsb (λ p, bool_decide (lower (O_Name p) = lower (O_Name o))) (rows (orgs d)) then (d, inl ErrOrgNameTaken)
  else let o := {| O_ID := O_ID o; O_Name := O_Name o; EmailDomain := EmailDomain o; Limited := Limited o; O_CreatedAt := now |} in
       (d <| orgs := <[O_ID o := o]> (orgs d) |>, inr o).

(** What the deletion of an organisation takes with it. *)
Definition drop_org d (orgID : string) : people :=
  let gone id := match users d !! id with Some u => bool_decide (U_OrgID u = orgID) | None => false end in
  let d' := delete_sign_ins d gone in
  d' <| orgs := delete orgID (orgs d) |> <| users := filter (λ kv, U_OrgID kv.2 ≠ orgID) (users d) |>
     <| signups := (λ su, (if bool_decide (InvitedOrg su.1 = orgID) then (su.1) <| InvitedOrg := "" |> else su.1, su.2)) <$> signups d |>
     <| passkeys := filter (λ kv, gone (K_UserID kv.2) = false) (passkeys d) |>
     <| passkey_links := filter (λ kv, gone kv.2.1 = false) (passkey_links d) |>
     <| passkey_challenges := filter (λ kv, gone kv.2.1.1 = false) (passkey_challenges d) |>.

(** ** Sign-ups *)

Definition CreateSignup d (hash : string) (su : Signup) (expires : Z) : people * option db_error :=
  match signups d !! hash with
  | None => (d <| signups := <[hash := (su, expires)]> (signups d) |>, None)
  | Some _ => (d, Some ErrDatabase)
  end.

Definition signup_at d now (hash : string) : db_error + Signup :=
  match signups d !! hash with
  | Some (su, expires) => if now <? expires then inr su else inl ErrNotFound
  | None => inl ErrNotFound
  end.

(** [SignupByToken], with the inviting organisation's name. *)
Definition SignupByToken d now (hash : string) : db_error + (Signup * string) :=
  match signup_at d now hash with
  | inr su => inr (su, match orgs d !! InvitedOrg su with Some o => O_Name o | None => "" end)
  | inl e => inl e
  end.

Definition InvitationFor d (email : string) : db_error + Org :=
  match head (order_by (λ a b, then_by (Z.compare (U_CreatedAt a) (U_CreatedAt b)) (collate (U_ID a) (U_ID b)))
                (List.filter (λ u, bool_decide (U_Email u = email) && unlinked u && enabled u) (rows (users d)))) with
  | Some u => lookup_row (orgs d !! U_OrgID u)
  | None => inl ErrNotFound
  end.

Definition takeSignup d now (hash : string) : people * (db_error + Signup) :=
  match signup_at d now hash with
  | inr su => (d <| signups := delete hash (signups d) |>, inr su)
  | inl e => (d, inl e)
  end.

(** [SignUp]: a failure undoes all of it, but the caller has read the sign-up. *)
Definition SignUp d now (hash : string) (o : Org) (userID : string) : people * (option Signup * (db_error + (Org * User))) :=
  match takeSignup d now hash with
  | (_, inl e) => (d, (None, inl e))
  | (d1, inr su) =>
      match createOrg d1 now o with
      | (_, inl e) => (d, (Some su, inl e))
      | (d2, inr o) =>
          let role := if bool_decide (Su_Role su = "operator") then Su_Role su else "admin" in
          match insert_user d2 (new_user now userID (O_ID o) (Su_Email su) (Su_Name su) (Su_ExternalID su) role) with
          | (d3, inr u) => (d3, (Some su, inr (o, u)))
          | (_, inl ErrExternalIDTaken) => (d, (Some su, inl ErrEmailTaken))
          | (_, inl e) => (d, (Some su, inl e))
          end
      end
  end.

Definition JoinInvitation d now (hash : string) : people * (db_error + (Signup * User)) :=
  match takeSignup d now hash with
  | (_, inl e) => (d, inl e)
  | (d1, inr su) =>
      if bool_decide (InvitedOrg su = "") then (d, inl ErrNotFound)
      else match takeInvitation d1 (InvitedOrg su) (Su_Email su) (Su_Name su) (Su_ExternalID su) with
      | (d2, inr u) => (d2, inr (su, u))
      | (_, inl e) => (d, inl e)
      end
  end.

(** ** Passkeys *)

Definition AddPasskey d now (k : Passkey) : people * (db_error + Passkey) :=
  if bool_decide (is_Some (passkeys d !! K_ID k)) || existsb (λ q, bool_decide (CredentialID q = CredentialID k)) (rows (passkeys d))
  then (d, inl ErrPasskeyTaken)
  else if bool_decide (users d !! K_UserID k = None) then (d, inl ErrDatabase)
  else let k := k <| K_CreatedAt := now |> <| LastUsedAt := None |> in (d <| passkeys := <[K_ID k := k]> (passkeys d) |>, inr k).

Definition PasskeyByCredentialID d (cred : string) : db_error + Passkey :=
  lookup_row (head (List.filter (λ k, bool_decide (CredentialID k = cred)) (rows (passkeys d)))).

Definition PasskeyByID d (id : string) : db_error + Passkey := lookup_row (passkeys d !! id).

Definition ListPasskeys d (userID : string) : list Passkey :=
  order_by (λ a b, then_by (Z.compare (K_CreatedAt a) (K_CreatedAt b)) (collate (K_ID a) (K_ID b)))
    (List.filter (λ k, bool_decide (K_UserID k = userID)) (rows (passkeys d))).

Definition UsePasskey d now (id : string) (signCount : Z) : people * option db_error :=
  match passkeys d !! id with
  | Some k =>
      if (signCount =? 0) || (SignCount k <? signCount) then
        (d <| passkeys := <[id := k <| SignCount := signCount |> <| LastUsedAt := Some now |>]> (passkeys d) |>, None)
      else (d, Some ErrNotFound)
  | None => (d, Some ErrNotFound)
  end.

Definition DeletePasskey d (id : string) (keepOne : bool) : people * option db_error :=
  match passkeys d !! id with
  | Some k =>
      if keepOne && (length (ListPasskeys d (K_UserID k)) <=? 1)%nat then (d, Some ErrLastPasskey)
      else (d <| passkeys := delete id (passkeys d) |>, None)
  | None => (d, Some ErrNotFound)
  end.

(** The update of [MakePasskeyAccount]. *)
Definition mark_passkey_account d (userID ext : string) : people * option db_error :=
  match users d !! userID with
  | Some u =>
      if negb (unlinked u || bool_decide (U_ExternalID u = ext)) then (d, Some ErrNotFound)
      else if existsb (λ v, of_identity (U_OrgID u) ext v && negb (bool_decide (U_ID v = userID))) (rows (users d)) then (d, Some ErrDatabase)
      else (put_user d (u <| U_ExternalID := ext |>), None)
  | None => (d, Some ErrNotFound)
  end.

Definition CreatePasskeyLink d (hash userID : string) (expires : Z) : people * option db_error :=
  let links := filter (λ kv, kv.2.1 ≠ userID) (passkey_links d) in
  match users d !! userID, links !! hash with
  | Some _, None => (d <| passkey_links := <[hash := (userID, expires)]> links |>, None)
  | _, _ => (d, Some ErrDatabase)
  end.

Definition PasskeyLinkUser d now (hash : string) : db_error + User :=
  match passkey_links d !! hash with
  | Some (userID, expires) =>
      match users d !! userID with
      | Some u => if (now <? expires) && enabled u then inr u else inl ErrNotFound
      | None => inl ErrNotFound
      end
  | None => inl ErrNotFound
  end.

Definition TakePasskeyLink d now (hash : string) : people * (db_error + string) :=
  match passkey_links d !! hash with
  | Some (userID, expires) =>
      if now <? expires then (d <| passkey_links := delete hash (passkey_links d) |>, inr userID) else (d, inl ErrNotFound)
  | None => (d, inl ErrNotFound)
  end.

Definition CreatePasskeyChallenge d (id userID challenge : string) (expires : Z) : people * option db_error :=
  match users d !! userID, passkey_challenges d !! id with
  | Some _, None => (d <| passkey_challenges := <[id := (userID, challenge, expires)]> (passkey_challenges d) |>, None)
  | _, _ => (d, Some ErrDatabase)
  end.

Definition TakePasskeyChallenge d now (id : string) : people * (db_error + (string * string)) :=
  match passkey_challenges d !! id with
  | Some (userID, challenge, expires) =>
      if now <? expires then (d <| passkey_challenges := delete id (passkey_challenges d) |>, inr (userID, challenge)) else (d, inl ErrNotFound)
  | None => (d, inl ErrNotFound)
  end.
End people.

(** [PurgeExpired], as one round of it leaves the tables. *)
Definition PurgeExpired d now : people :=
  d <| sessions := filter (λ kv, now <= s_expires kv.2) (sessions d) |>
    <| login_flows := filter (λ kv, now <= kv.2.2) (login_flows d) |>
    <| cli_codes := filter (λ kv, now <= c_expires kv.2) (cli_codes d) |>
    <| cli_tokens := filter (λ kv, now <= t_expires kv.2) (cli_tokens d) |>
    <| passkey_links := filter (λ kv, now <= kv.2.2) (passkey_links d) |>
    <| passkey_challenges := filter (λ kv, now <= kv.2.2) (passkey_challenges d) |>
    <| signups := filter (λ kv, now <= kv.2.2) (signups d) |>
    <| identities := filter (λ kv, existsb (λ u, has_identity kv.1 u && enabled u) (rows (users d)) = true) (identities d) |>.
