(* ===== verification/SignIn.v ===== *)
(** * Signing in

    [internal/control/auth.go], [directory.go], [cliauth.go], [signup.go] and
    [password.go], the sign-in half of [passkeys.go], and how
    [internal/control/server.go] finds out who a request is from. Each handler
    is a program over the statements of [Accounts], the directories and the
    sign-in throttle; its answer is the cookies it sets and what it shows. Log
    lines and display-only fields are left out. *)
From S2P Require Import Prelude GoTime Tenancy Text Keys Hosting Egress Secret Control Principals Accounts.
Open Scope go_scope.

(** ** Constants *)

Definition ReservedProvider : string := "keera".
Definition PasskeyProvider : string := "passkey".
Definition DirectoryCheckEvery : Z := 15 * Minute.
Definition SignInTTL : Z := 30 * 24 * Hour.
Definition ShortSignInTTL : Z := 12 * Hour.
Definition FlowTTL : Z := 15 * Minute.
Definition CLITokenPrefix : string := "keera_cli_".
Definition CLICodeTTL : Z := 5 * Minute.
Definition signupTTL : Z := 30 * Minute.
Definition PasskeyChallengeTTL : Z := 6 * Minute.
Definition PasskeyLinkTTL : Z := 24 * Hour.
Definition passkeyStepUp : Z := 15 * Minute.
Definition ControlPrefix : string := "/control".
Definition AppCallbackPath : string := "/auth/callback".
Definition LDAPUsernameMax : Z := 256.
Definition passwordPerAccountRPM : Z := 5.
Definition maxOrgName : Z := 100.
Definition passkeyNameMax : nat := 64.

Definition operatorKeyExternalID : string := ReservedProvider +:+ ":operator-key".
Definition PasskeyExternalID (userID : string) : string := ReservedProvider +:+ ":" +:+ PasskeyProvider +:+ ":" +:+ userID.
Definition IsPasskeyAccount (ext : string) : bool := has_prefix ext (ReservedProvider +:+ ":" +:+ PasskeyProvider +:+ ":").
Definition RefreshTokenName (ext : string) : string := "refresh-token:" +:+ ext.

Definition colon_byte : Ascii.ascii := Ascii.ascii_of_nat 58.
Definition at_byte : Ascii.ascii := Ascii.ascii_of_nat 64.

(** ** Configuration *)

(** What the sign-ins read of an identity provider. *)
Record provider := {
  pv_Name : string;
  pv_DisplayName : string;
  pv_Mapping : RoleMapping;
  pv_SignUp : bool;
  pv_LDAP : bool;
}.

Definition pv_Label (p : provider) : string := if bool_decide (pv_DisplayName p = "") then pv_Name p else pv_DisplayName p.

Definition Password (p : provider) : bool := pv_LDAP p.

Definition ByName (ps : list provider) (name : string) : option provider := List.find (λ p, bool_decide (pv_Name p = name)) ps.
Definition Only (ps : list provider) : option provider := match ps with [p] => Some p | _ => None end.
Definition Names (ps : list provider) : list string := map pv_Name ps.
Definition Enabled (ps : list provider) : bool := negb (bool_decide (ps = [])).
Definition AdminFromDirectory (ps : list provider) : bool := existsb (λ p, DecidesAdmin (pv_Mapping p)) ps.
Definition SignUp_allowed (ps : list provider) : bool := existsb pv_SignUp ps.

(** The settings of [Options] the sign-ins read. *)
Record Options := {
  OperatorKey : string;
  MetricsToken : string;
  AgentsServiceKey : string;
  Secrets : Box;
  Providers : list provider;
  Passkeys : bool;
  TrustedProxies : list netip_Prefix;
  SecureCookies : bool;
  PublicURL : string;
  ChatURL : string;
  AgentsURL : string;
}.

(** [authn.Identity]. *)
Record Identity := {
  I_Provider : string;
  I_Subject : string;
  I_Email : string;
  I_Name : string;
  I_Groups : list string;
  I_RefreshToken : string;
}.

Definition ExternalID (i : Identity) : string := I_Provider i +:+ ":" +:+ I_Subject i.

(** What follows the last [@], if there is one. *)
Fixpoint after_last (c : Ascii.ascii) (s : string) : option string :=
  match s with
  | EmptyString => None
  | String a s' => match after_last c s' with Some t => Some t | None => if bool_decide (a = c) then Some s' else None end
  end.

(** ** What the programs call *)

(** Why a directory did not confirm someone: it refused, or it did not answer. *)
Inductive recheck_error := DirectoryRefused | DirectorySilent.

(** Why a password sign-in failed. *)
Inductive auth_error := ErrBadCredentials | ErrDirectoryUnreachable | ErrUnusableEntry | AuthOther (msg : string).

(** The browser's answer to a passkey request, and a new passkey. *)
Record Assertion := { A_ID : string; A_UserHandle : string; A_rest : string }.
Record Credential := { Cr_ID : string; Cr_PublicKey : string; Cr_Algorithm : Z; Cr_SignCount : Z }.

Inductive call :=
  | Db_CreateSession (hash userID csrf : string) (expires : Z)
  | Db_LookupSession (hash : string)
  | Db_DeleteSession (hash : string)
  | Db_DeleteFrom (t : sign_in_table) (who : selection)
  | Db_MoveSession (hash userID : string)
  | Db_MoveCLIToken (hash userID : string)
  | Db_CreateCLICode (hash userID challenge : string) (expires : Z)
  | Db_TakeCLICode (hash : string)
  | Db_CreateCLIToken (hash userID : string) (expires : Z)
  | Db_LookupCLIToken (hash : string)
  | Db_DeleteCLIToken (hash : string)
  | Db_CreateLoginFlow (f : LoginFlow) (expires : Z)
  | Db_LoginFlowByState (state : string)
  | Db_TakeLoginFlow (state : string)
  | Db_RecordDirectoryCheck (ext : string) (sealed : option string)
  | Db_RecordDirectoryFailure (ext : string)
  | Db_ClaimDirectoryCheck (ext : string) (checkedBefore : Z)
  | Db_EndDirectoryLink (ext : string)
  | Db_HasRefreshToken (ext : string)
  | Db_UserByExternalID (ext : string)
  | Db_UserInOrg (ext orgID : string)
  | Db_Memberships (ext email : string) (invitations : bool)
  | Db_ExternalIDsFor (email : string)
  | Db_AcceptInvitation (orgID email name ext : string)
  | Db_FollowDirectory (ext email name : string)
  | Db_SetIdentityName (ext name : string)
  | Db_UserByID (userID : string)
  | Db_SetUserRole (orgID userID role : string)
  | Db_EnableUser (orgID userID : string)
  | Db_DisableUser (orgID userID : string)
  | Db_AddUser (newID orgID email ext role : string)
  | Db_LinkedUser (l : Link)
  | Db_InsertLink (newID : string) (l : Link)
  | Db_ListUsers (orgID : string)
  | Db_OrgByEmailDomain (domain : string)
  | Db_OrgByID (orgID : string)
  | Db_OnlyOrg
  | Db_FirstOrg
  | Db_CreateOrg (o : Org)
  | Db_CreateSignup (hash : string) (su : Signup) (expires : Z)
  | Db_SignupByToken (hash : string)
  | Db_InvitationFor (email : string)
  | Db_SignUp (hash : string) (o : Org)
  | Db_JoinInvitation (hash : string)
  | Db_AddPasskey (k : Passkey)
  | Db_PasskeyByCredentialID (cred : string)
  | Db_PasskeyByID (id : string)
  | Db_ListPasskeys (userID : string)
  | Db_UsePasskey (id : string) (signCount : Z)
  | Db_DeletePasskey (id : string) (keepOne : bool)
  | Db_MarkPasskeyAccount (userID ext : string)
  | Db_CreatePasskeyLink (hash userID : string) (expires : Z)
  | Db_PasskeyLinkUser (hash : string)
  | Db_TakePasskeyLink (hash : string)
  | Db_CreatePasskeyChallenge (id userID challenge : string) (expires : Z)
  | Db_TakePasskeyChallenge (id : string)
  | Db_Audit (actor org action target id : string) (detail : list (string * string))
  | Announce (org : string)
  | Idp_Exchange (provider code : string) (f : LoginFlow)
  | Idp_Recheck (provider refreshToken : string)
  | Ldap_Lookup (provider username : string)
  | Ldap_Bind (provider dn password : string)
  | Throttle_Allow (key : string) (perMinute : Z)
  | Time_Now
  | New_ID (prefix : string)
  | New_Token
  | New_Nonce.

Definition answer (c : call) : Type :=
  match c with
  | Db_LookupSession _ => db_error + (string * Z * User * Directory)
  | Db_TakeCLICode _ | Db_TakePasskeyChallenge _ => db_error + (string * string)
  | Db_LookupCLIToken _ => db_error + (User * Directory)
  | Db_LoginFlowByState _ | Db_TakeLoginFlow _ => db_error + LoginFlow
  | Db_RecordDirectoryFailure _ => db_error + Z
  | Db_ClaimDirectoryCheck _ _ => db_error + option string
  | Db_HasRefreshToken _ => db_error + bool
  | Db_UserByExternalID _ | Db_UserInOrg _ _ | Db_AcceptInvitation _ _ _ _ | Db_UserByID _ | Db_AddUser _ _ _ _ _ | Db_LinkedUser _
  | Db_InsertLink _ _ | Db_PasskeyLinkUser _ => db_error + User
  | Db_Memberships _ _ _ => db_error + list Membership
  | Db_ExternalIDsFor _ => db_error + list string
  | Db_DisableUser _ _ => db_error + Z
  | Db_ListUsers _ => db_error + list User
  | Db_OrgByEmailDomain _ | Db_OrgByID _ | Db_OnlyOrg | Db_FirstOrg | Db_CreateOrg _ | Db_InvitationFor _ => db_error + Org
  | Db_SignupByToken _ => db_error + (Signup * string)
  | Db_SignUp _ _ => option Signup * (db_error + (Org * User))
  | Db_JoinInvitation _ => db_error + (Signup * User)
  | Db_AddPasskey _ | Db_PasskeyByCredentialID _ | Db_PasskeyByID _ => db_error + Passkey
  | Db_ListPasskeys _ => db_error + list Passkey
  | Db_TakePasskeyLink _ => db_error + string
  | Db_Audit _ _ _ _ _ _ | Announce _ => unit
  | Idp_Exchange _ _ _ => string + Identity
  | Idp_Recheck _ _ => recheck_error + (Identity * bool)
  | Ldap_Lookup _ _ => auth_error + string
  | Ldap_Bind _ _ _ => auth_error + Identity
  | Throttle_Allow _ _ => bool
  | Time_Now => Z
  | New_ID _ | New_Token | New_Nonce => string
  | _ => option db_error
  end%type.

(** ** Requests and answers *)

(** What the handlers read of a request. *)
Record request := {
  r_Method : string;
  Authorization : string;
  X_CSRF_Token : string;
  r_JSON : bool;
  c_session : option string;
  c_login : option string;
  c_org : option string;
  c_signup : option string;
  r_query : string → string;
  RemoteAddr : string;
  XForwardedFor : list string;
  r_TLS : bool;
  r_Host : string;
  request_id : string;
}.

Inductive same_site := Lax | Strict.

(** [http.Cookie]; a [MaxAge] of -1 removes it. *)
Record cookie := {
  ck_Name : string;
  ck_Value : string;
  ck_Path : string;
  ck_MaxAge : Z;
  HttpOnly : bool;
  Secure : bool;
  SameSite : same_site;
}.

Definition passkey_link : Type := string * Z.

(** What the handlers show. *)
Inductive page :=
  | Redirected (to : string)
  | Done
  | GoTo (to : string)
  | SignedOut (provider_logout_url : string)
  | TokenIssued (token : string) (expires : Z)
  | SignupInfo (email invited_org_name : string)
  | PasskeyRequest (flow challenge : string)
  | PasskeyCreation (challenge_id email challenge userID : string) (exclude : list string)
  | PasskeyStored (k : Passkey)
  | PasskeyList (ks : list Passkey)
  | PasskeyDeleted (id : string)
  | LinkIssued (link : passkey_link)
  | Switched (org_id org_name role : string)
  | UserCreated (u : User) (link : option passkey_link)
  | UserList (us : list User)
  | RoleSet (id role : string)
  | UserDisabled (id email : string) (revoked : Z)
  | UserEnabled (id email : string)
  | Metrics
  | Other.

Definition response : Type := list cookie * reply page.

(** The Go errors a sign-in ends with: [forbidden], another text, or the store's. *)
Inductive go_error := E_forbidden (msg : string) | E_text (msg : string) | E_store (e : db_error).

Definition failure_of (e : db_error) : failure :=
  match e with ErrNotFound => IsNotFound | MissingOrg => IsMissingOrg | _ => IsOther "" end.

(** [net/url], less what [Addresses] has of it: [url.PathEscape], [url.Values.Encode],
    the parts of an address, and an address of a scheme, a host and a path. *)
Record link_parts := { lk_Scheme : string; lk_Host : string; lk_Path : string; lk_User : bool }.

Class Web := {
  PathEscape : string → string;
  Encode : list (string * string) → string;
  url_parts : string → option link_parts;
  url_of : string → string → string → string;
  host_port : string → option (string * string);
  is_loopback : string → bool;
  AuthCodeURL : provider → LoginFlow → string;
  LogoutURL : provider → string → string;
  (** The message of an error of the database. *)
  store_text : db_error → string;
  (** Base64url, and the checks of a passkey's signatures. *)
  unb64 : string → option string;
  VerifyAssertion : string → Assertion → Credential → option Z;
  VerifyRegistration : string → string → option Credential;
  rune_count : string → Z;
  first_runes : nat → string → string;
}.

(** ** Programs *)

Section programs.
Context `{Unicode} `{Folding} `{SHA256} `{GCM} `{Addresses} `{Dialing} `{Web}.
Context (opts : Options).

Abbreviation P := (prog answer).

Definition refuse (e : problem) : P response := Ret ([], inl e).
Definition show (cookies : list cookie) (pg : page) : P response := Ret (cookies, inr (StatusOK, pg)).

(** [fail], for this request. *)
Definition failed (r : request) (e : db_error) : P response := refuse (fail (request_id r) (failure_of e)).

(** A statement whose error ends the handler. *)
Definition or_fail {A} (r : request) (p : P (db_error + A)) (k : A → P response) : P response :=
  x ← p; match x with inl e => failed r e | inr a => k a end.

Definition done_or_fail (r : request) (p : P (option db_error)) (k : P response) : P response :=
  x ← p; match x with Some e => failed r e | None => k end.

(** The other helper of [server.go]: [forbid] for [forbidden], else a bad request. *)
Definition Error (e : go_error) : string :=
  match e with E_forbidden msg | E_text msg => msg | E_store e => store_text e end.

Definition auditf (p : Principal) (orgID action target id : string) (detail : list (string * string)) : P unit :=
  ask (Db_Audit (Actor p) orgID action target id detail).

(** [actorOf]. *)
Definition actorOf (u : User) : Principal := (bare MethodSession "") <| P_Email := U_Email u |> <| P_UserID := U_ID u |>.

(** [newSecret]: a token and its hash. *)
Definition newSecret (prefix : string) : P (string * string) :=
  t ← ask New_Token; let token := prefix +:+ t in Ret (token, Hash token).

(** *** Cookies *)

Definition cookie_ (name value path : string) (maxAge : Z) (same : same_site) : cookie :=
  {| ck_Name := name; ck_Value := value; ck_Path := path; ck_MaxAge := maxAge; HttpOnly := true; Secure := SecureCookies opts;
     SameSite := same |}.

Definition sessionCookie : string := "keera_session".
Definition loginCookie : string := "keera_login".
Definition lastOrgCookie : string := "keera_org".
Definition signupCookie : string := "keera_signup".
Definition signInErrorCookie : string := "keera_sign_in_error".

Definition seconds (d : Z) : Z := Z.quot d Second.

Definition loginStateCookie (state : string) (maxAge : Z) : cookie := cookie_ loginCookie state (ControlPrefix +:+ "/auth") maxAge Lax.
Definition signupStateCookie (token : string) (maxAge : Z) : cookie := cookie_ signupCookie token (ControlPrefix +:+ "/auth/signup") maxAge Strict.
Definition rememberOrg (orgID : string) : cookie := cookie_ lastOrgCookie orgID "/" (365 * 24 * 60 * 60) Lax.

Definition redirect (cookies : list cookie) (to : string) : P response := Ret (cookies, inr (302, Redirected to)).

(** [signInFailed], after the cookies the handler set before. *)
Definition signInFailed (cookies : list cookie) (e : go_error) : P response :=
  redirect (cookies ++ [{| ck_Name := signInErrorCookie; ck_Value := PathEscape (Error e); ck_Path := "/"; ck_MaxAge := 60;
                           HttpOnly := false; Secure := SecureCookies opts; SameSite := Lax |}]) "/?sign_in_error=1".

(** *** The directory's answer *)

Definition Domain (email : string) : string :=
  match after_last at_byte email with Some d => ToLower d | None => "" end.

(** [directoryOf]. *)
Definition directoryOf (ext : string) : option provider :=
  let '(name, _, ok) := cut_byte colon_byte ext in if ok then ByName (Providers opts) name else None.

Definition vouchedByDirectory (ext : string) : bool :=
  let '(name, _, ok) := cut_byte colon_byte ext in ok && negb (bool_decide (name = ReservedProvider)).

Definition sealRefreshToken (ext refreshToken : string) : P (option string) :=
  if bool_decide (refreshToken = "") then Ret None
  else nonce ← ask New_Nonce; Ret (Some (Seal (Secrets opts) nonce (RefreshTokenName ext) refreshToken)).

Definition rememberDirectory (u : User) (sealed : option string) : P unit :=
  _ ← ask (Db_RecordDirectoryCheck (U_ExternalID u) sealed); Ret tt.

(** [roleAtSignIn]. *)
Definition roleAtSignIn (stored fromIDP : string) (adminFromDirectory : bool) : string * bool :=
  if negb adminFromDirectory && negb (bool_decide (fromIDP = RoleOperator)) && negb (bool_decide (stored = RoleOperator))
  then (stored, false)
  else (fromIDP, negb (bool_decide (stored = fromIDP))).

(** [directoryOrg]. *)
Definition directoryOrg (email : string) : P (db_error + string) :=
  org ← ask (Db_OrgByEmailDomain (Domain email));
  match org with
  | inr o => Ret (inr (O_ID o))
  | inl ErrNotFound =>
      if SignUp_allowed (Providers opts) then Ret (inr "")
      else
        org ← ask Db_OnlyOrg;
        match org with
        | inr o => Ret (inr (O_ID o))
        | inl ErrNotFound => Ret (inr "")
        | inl e => Ret (inl e)
        end
  | inl e => Ret (inl e)
  end.

(** [syncRole]: the person as they now stand. *)
Definition syncRole (u : User) (role : string) : P (db_error + User) :=
  let '(want, change) := roleAtSignIn (U_Role u) role (AdminFromDirectory (Providers opts)) in
  if negb change then Ret (inr u)
  else
    want ← (if bool_decide (want = RoleOperator) then Ret (inr (Some want))
            else
              home ← directoryOrg (U_Email u);
              match home with
              | inl e => Ret (inl e)
              | inr home =>
                  if bool_decide (home = U_OrgID u) then Ret (inr (Some want))
                  else if negb (bool_decide (U_Role u = RoleOperator)) then Ret (inr None)
                  else Ret (inr (Some RoleMember))
              end);
    match want with
    | inl e => Ret (inl e)
    | inr None => Ret (inr u)
    | inr (Some want) =>
        e ← ask (Db_SetUserRole (U_OrgID u) (U_ID u) want);
        Ret (match e with Some e => inl e | None => inr (u <| U_Role := want |>) end)
    end.

(** A loop that stops at the first error. *)
Fixpoint each_ok {A} (f : A → P (option db_error)) (l : list A) : P (option db_error) :=
  match l with
  | [] => Ret None
  | x :: l => e ← f x; match e with Some e => Ret (Some e) | None => each_ok f l end
  end.

(** The row of another membership, as [syncOtherRoles] builds it. *)
Definition other_row (u : User) (m : Membership) : User :=
  {| U_ID := M_UserID m; U_OrgID := M_OrgID m; U_Email := U_Email u; U_Name := ""; U_ExternalID := U_ExternalID u;
     U_Role := M_Role m; U_CreatedAt := time_zero; DisabledAt := None; signed_in_at := None |}.

Definition syncOtherRoles (u : User) (role : string) : P (option db_error) :=
  if bool_decide (U_ExternalID u = "") then Ret None
  else
    ms ← ask (Db_Memberships (U_ExternalID u) "" false);
    match ms with
    | inl e => Ret (Some e)
    | inr ms =>
        each_ok (λ m,
          if bool_decide (M_UserID m = U_ID u) then Ret None
          else
            other ← syncRole (other_row u m) role;
            match other with
            | inl e => Ret (Some e)
            | inr other =>
                _ ← (if negb (bool_decide (U_Role other = M_Role m))
                     then auditf (actorOf other) (U_OrgID other) "auth.directory_check" "user" (U_ID other)
                            [("role", U_Role other); ("role_was", M_Role m)]
                     else Ret tt);
                Ret None
            end) ms
    end.

(** [directoryFailed]: whether the person stays signed in. *)
Definition directoryFailed (u : User) (refused : bool) : P bool :=
  over ← (if refused then Ret true
          else
            since ← ask (Db_RecordDirectoryFailure (U_ExternalID u));
            match since with
            | inl _ => Ret false
            | inr since => now ← ask Time_Now; Ret (negb (now - since <? ShortSignInTTL))
            end);
  if negb over then Ret true
  else
    e ← ask (Db_EndDirectoryLink (U_ExternalID u));
    match e with
    | Some _ => Ret false
    | None =>
        _ ← auditf (actorOf u) (U_OrgID u) "auth.directory_check" "user" (U_ID u) [("signed_out", "true")];
        Ret false
    end.

(** What [checkDirectory] does with a fresh identity. *)
Definition applyIdentity (p : provider) (u : User) (i : Identity) : P (User * bool) :=
  u ← (if bool_decide (I_Name i = U_Name u) then Ret u
       else
         e ← ask (Db_SetIdentityName (U_ExternalID u) (I_Name i));
         Ret (match e with Some _ => u | None => u <| U_Name := I_Name i |> end));
  let was := U_Role u in
  let role := RoleFor (pv_Mapping p) (I_Email i) (I_Groups i) in
  synced ← syncRole u role;
  match synced with
  | inl _ => Ret (u, true)
  | inr u =>
      _ ← syncOtherRoles u role;
      _ ← (if negb (bool_decide (U_Role u = was))
           then auditf (actorOf u) (U_OrgID u) "auth.directory_check" "user" (U_ID u) [("role", U_Role u); ("role_was", was)]
           else Ret tt);
      Ret (u, true)
  end.

(** [checkDirectory]. *)
Definition checkDirectory (u : User) (d : Directory) : P (User * bool) :=
  now ← ask Time_Now;
  if negb (Due d now DirectoryCheckEvery) then Ret (u, true)
  else match directoryOf (U_ExternalID u) with
  | None => Ret (u, true)
  | Some p =>
      claimed ← ask (Db_ClaimDirectoryCheck (U_ExternalID u) (now - DirectoryCheckEvery));
      match claimed with
      | inl _ | inr None => Ret (u, true)
      | inr (Some sealed) =>
          match Open (Secrets opts) (RefreshTokenName (U_ExternalID u)) sealed with
          | inl _ => kept ← directoryFailed u true; Ret (u, kept)
          | inr refreshToken =>
              answered ← ask (Idp_Recheck (pv_Name p) refreshToken);
              match answered with
              | inl e => kept ← directoryFailed u (match e with DirectoryRefused => true | DirectorySilent => false end); Ret (u, kept)
              | inr (i, fresh) =>
                  if fresh && negb (bool_decide (ExternalID i = U_ExternalID u))
                  then kept ← directoryFailed u true; Ret (u, kept)
                  else
                    sealed ← sealRefreshToken (U_ExternalID u) (I_RefreshToken i);
                    _ ← ask (Db_RecordDirectoryCheck (U_ExternalID u) sealed);
                    if negb fresh then Ret (u, true) else applyIdentity p u i
              end
          end
      end
  end.

(** *** Who a request is from *)

Definition constantTimeEqual (presented want : string) : bool := bool_decide (Sum256 presented = Sum256 want).

Definition matchesOperatorKey (presented : string) : bool :=
  negb (bool_decide (OperatorKey opts = "")) && constantTimeEqual presented (OperatorKey opts).

Definition matchesMetricsToken (presented : string) : bool :=
  negb (bool_decide (MetricsToken opts = "")) && constantTimeEqual presented (MetricsToken opts).

(** [principalOf]. *)
Definition principalOf (via : Method) (u : User) (hash : string) : Principal :=
  {| Via := via; P_UserID := U_ID u; P_Email := U_Email u; P_Name := U_Name u; P_Role := U_Role u; P_OrgID := U_OrgID u;
     CSRF := ""; CredentialHash := hash; SignedInAt := time_zero |}.

(** [sessionPrincipal]; [None] is an error. *)
Definition sessionPrincipal (r : request) : P (option Principal) :=
  match c_session r with
  | None => Ret None
  | Some value =>
      if bool_decide (value = "") then Ret None
      else
        let hash := Hash value in
        su ← ask (Db_LookupSession hash);
        match su with
        | inl _ => Ret None
        | inr (csrf, created, u, d) =>
            checked ← checkDirectory u d;
            let '(u, ok) := checked : User * bool in
            Ret (if ok then Some ((principalOf MethodSession u hash) <| CSRF := csrf |> <| SignedInAt := created |>) else None)
        end
  end.

(** [rowInRequestedOrg]. *)
Definition rowInRequestedOrg (r : request) (u : User) : P (db_error + User) :=
  let want := r_query r "org_id" in
  if bool_decide (want = "") || bool_decide (want = U_OrgID u) || bool_decide (U_ExternalID u = "") || bool_decide (U_Role u = RoleOperator)
  then Ret (inr u)
  else
    other ← ask (Db_UserInOrg (U_ExternalID u) want);
    Ret (match other with inl ErrNotFound => inr u | other => other end).

(** [cliPrincipal]. *)
Definition cliPrincipal (r : request) (token : string) : P (option Principal) :=
  let hash := Hash token in
  tu ← ask (Db_LookupCLIToken hash);
  match tu with
  | inl _ => Ret None
  | inr (u, d) =>
      checked ← checkDirectory u d;
      let '(u, ok) := checked : User * bool in
      if negb ok then Ret None
      else
        u ← rowInRequestedOrg r u;
        Ret (match u with inl _ => None | inr u => Some (principalOf MethodCLI u hash) end)
  end.

(** [principal]. *)
Definition principal (r : request) : P (option Principal) :=
  match FromHeader (Authorization r) with
  | Some presented =>
      if matchesOperatorKey presented then Ret (Some (bare MethodOperatorKey RoleOperator))
      else if has_prefix presented CLITokenPrefix then cliPrincipal r presented
      else Ret None
  | None => sessionPrincipal r
  end.

Definition handler : Type := request → Principal → P response.

Definition safeMethod (m : string) : bool :=
  bool_decide (m = "GET") || bool_decide (m = "HEAD") || bool_decide (m = "OPTIONS").

(** [withPrincipal]. *)
Definition withPrincipal (r : request) (p : Principal) (next : handler) : P response :=
  if bool_decide (Via p = MethodSession) && negb (safeMethod (r_Method r)) && negb (bool_decide (X_CSRF_Token r = CSRF p))
  then refuse {| p_status := StatusForbidden; p_type := "permission_error"; p_code := "csrf";
                 p_message := "this request is missing its CSRF token; reload the page and try again" |}
  else next r p.

(** [authenticated]. *)
Definition authenticated (next : handler) (r : request) : P response :=
  p ← principal r;
  match p with
  | None => refuse (unauthorized "unauthenticated" "sign in, or send the operator key as 'Authorization: Bearer <key>'")
  | Some p => withPrincipal r p next
  end.

(** [serviceAuthenticated] of [agents.go]. *)
Definition serviceAuthenticated (next : handler) (r : request) : P response :=
  if bool_decide (AgentsServiceKey opts = "")
  then refuse (switchedOff "agents_disabled" "this deployment does not work with Keera Agents; its operator turns it on with KEERA_AGENTS_SERVICE_KEY")
  else
    match FromHeader (Authorization r) with
    | Some presented =>
        if constantTimeEqual presented (AgentsServiceKey opts) then next r (bare MethodService "")
        else refuse (unauthorized "unauthenticated" "this route is for Keera Agents; send its service key as 'Authorization: Bearer <key>'")
    | None => refuse (unauthorized "unauthenticated" "this route is for Keera Agents; send its service key as 'Authorization: Bearer <key>'")
    end.

Definition serveMetrics : handler := λ r p,
  if Unrestricted p then show [] Metrics
  else refuse (forbid "metrics span every organisation; only an operator can read them").

(** [metricsRoute]. *)
Definition metricsRoute (r : request) : P response :=
  match FromHeader (Authorization r) with
  | Some presented => if matchesMetricsToken presented then show [] Metrics else authenticated serveMetrics r
  | None => authenticated serveMetrics r
  end.

(** *** The throttle *)

Definition trustedProxy (a : Addr) (trusted : list netip_Prefix) : bool := existsb (λ p, Contains p (Unmap a)) trusted.

(** The loop of [clientIP] over the hops, the last one first. *)
Fixpoint client_hops (hops : list string) (client : Addr) (trusted : list netip_Prefix) : Addr :=
  match hops with
  | [] => client
  | hop :: hops =>
      match netip_ParseAddr (TrimSpace hop) with
      | None => client
      | Some a => if trustedProxy a trusted then client_hops hops a trusted else a
      end
  end.

(** [clientIP]. *)
Definition clientIP (r : request) (trusted : list netip_Prefix) : string :=
  match net_SplitHostPort (RemoteAddr r) with
  | None => RemoteAddr r
  | Some host =>
      match netip_ParseAddr host with
      | None => host
      | Some peer =>
          if negb (trustedProxy peer trusted) then host
          else Addr_String (Unmap (client_hops (rev (flat_map (split_byte comma) (XForwardedFor r))) peer trusted))
      end
  end.

Definition tooMany (msg : string) : problem :=
  {| p_status := StatusTooManyRequests; p_type := "rate_limit_error"; p_code := "rate_limit_exceeded"; p_message := msg |}.

(** [throttle]. *)
Definition throttle (name : string) (perMinute : Z) (msg : string) (next : request → P response) (r : request) : P response :=
  ok ← ask (Throttle_Allow (name +:+ "|" +:+ clientIP r (TrustedProxies opts)) perMinute);
  if ok : bool then next r else refuse (tooMany msg).
End programs.
