(* ===== verification/Login.v ===== *)
(** * The ways in

    The handlers a browser or a command line signs in through:
    [internal/control/auth.go], [cliauth.go], [password.go], [signup.go] and
    the sign-ins of [passkeys.go], with [LinkUser] of
    [internal/store/session.go]. Bodies are read before the program starts; an
    unreadable one is its own answer. *)
From S2P Require Import Prelude GoTime Tenancy Text Keys Hosting Egress Secret Control Principals Accounts SignIn.
Open Scope go_scope.

Section programs.
Context `{Unicode} `{Folding} `{SHA256} `{GCM} `{Addresses} `{Dialing} `{Web}.
Context (opts : Options).

Abbreviation P := (prog answer).
Abbreviation providers := (Providers opts).

(** A body as [readJSON] left it. *)
Definition with_body {A} (body : problem + A) (k : A → P response) : P response :=
  match body with inl e => refuse e | inr a => k a end.

(** [readSignedOutJSON]. *)
Definition with_json_body {A} (r : request) (body : problem + A) (k : A → P response) : P response :=
  if r_JSON r then with_body body k
  else refuse (invalid 415 "" "send the request as application/json").

Definition flow_columns (state verifier nonce provider next redirect_ challenge cli_state : string) : LoginFlow :=
  {| F_State := state; F_Verifier := verifier; F_Nonce := nonce; F_Provider := provider; RedirectTo := next;
     CLIRedirect := redirect_; CLIChallenge := challenge; CLIState := cli_state |}.

(** *** Where a sign-in goes *)

(** [safeRedirect]. *)
Definition safeRedirect (next : string) : string :=
  if bool_decide (next = "") || negb (has_prefix next "/") || contains_byte (Ascii.ascii_of_nat 92) next then ""
  else match url_parts next with
  | None => ""
  | Some u =>
      if negb (bool_decide (lk_Scheme u = "")) || negb (bool_decide (lk_Host u = "")) || negb (has_prefix (lk_Path u) "/") then "" else next
  end.

Record cliLogin := { cl_Redirect : string; cl_Challenge : string; cl_State : string }.

Definition no_cli : cliLogin := {| cl_Redirect := ""; cl_Challenge := ""; cl_State := "" |}.

(** [app]: the hint and the origin. *)
Definition apps : list (string * string) := [("chat", ChatURL opts); ("agents", AgentsURL opts)].

Definition appFor (raw : string) (apps : list (string * string)) : option (string * string) :=
  List.find (λ a, negb (bool_decide (a.2 = "")) && bool_decide (raw = a.2 +:+ AppCallbackPath)) apps.

Definition panelHint (c : cliLogin) (apps : list (string * string)) : string :=
  if bool_decide (cl_Redirect c = "") then ""
  else match appFor (cl_Redirect c) apps with Some a => "." +:+ a.1 | None => ".cli" end.

Definition loopback_refused : string :=
  "a command-line sign-in has to come back to a loopback address such as http://127.0.0.1:1234/callback".

(** [strings.Trim] and [strings.TrimRight] of the bytes of a set. *)
Fixpoint trim_bytes (set : Ascii.ascii → bool) (s : string) : string :=
  match s with
  | String c s' => if set c then trim_bytes set s' else s
  | EmptyString => s
  end.

Definition trim_bytes_right (set : Ascii.ascii → bool) (s : string) : string := str_rev (trim_bytes set (str_rev s)).

Definition bracket (c : Ascii.ascii) : bool := bool_decide (c = Ascii.ascii_of_nat 91) || bool_decide (c = Ascii.ascii_of_nat 93).

(** [loopbackRedirect]. *)
Definition loopbackRedirect (raw : string) : string + string :=
  if bool_decide (raw = "") then inl loopback_refused
  else match url_parts raw with
  | None => inl loopback_refused
  | Some u =>
      if negb (bool_decide (lk_Scheme u = "http")) || bool_decide (lk_Host u = "") then inl loopback_refused
      else match host_port (lk_Host u) with
      | None => inl loopback_refused
      | Some (host, port) =>
          if bool_decide (port = "") then inl loopback_refused
          else if negb (is_loopback (trim_bytes_right bracket (trim_bytes bracket host))) then inl loopback_refused
          else if lk_User u || negb (has_prefix (lk_Path u) "/") then inl loopback_refused
          else inr (url_of (lk_Scheme u) (lk_Host u) (lk_Path u))
      end
  end.

(** [strings.HasSuffix]. *)
Definition has_suffix (s suf : string) : bool := has_prefix (str_rev s) (str_rev suf).

(** [handOverTo]. *)
Definition handOverTo (raw : string) (apps : list (string * string)) : string + string :=
  match appFor raw apps with
  | Some _ => inr raw
  | None =>
      match loopbackRedirect raw with
      | inr to => inr to
      | inl e =>
          if has_suffix raw AppCallbackPath
          then inl "this sign-in came from a Keera Chat or Keera Agents this gateway does not know; an operator allows it by setting KEERA_CHAT_URL or KEERA_AGENTS_URL"
          else inl e
      end
  end.

Definition validChallenge (s : string) : bool := Encoded32 s.

(** [cliLoginFrom]. *)
Definition cliLoginFrom (q : string → string) (apps : list (string * string)) : string + cliLogin :=
  let c := {| cl_Redirect := TrimSpace (q "cli_redirect"); cl_Challenge := TrimSpace (q "cli_challenge"); cl_State := TrimSpace (q "cli_state") |} in
  if bool_decide (cl_Redirect c = "") && bool_decide (cl_Challenge c = "") && bool_decide (cl_State c = "") then inr no_cli
  else match handOverTo (cl_Redirect c) apps with
  | inl e => inl e
  | inr to =>
      if negb (validChallenge (cl_Challenge c)) then inl "this sign-in was started without a usable proof key; update the keera command line"
      else if bool_decide (cl_State c = "") || (128 <? len (cl_State c)) then inl "this sign-in was started without a usable state; update the keera command line"
      else inr {| cl_Redirect := to; cl_Challenge := cl_Challenge c; cl_State := cl_State c |}
  end.

(** [cliHandOver]: the code's own row names the person and the challenge. *)
Definition cliHandOver (f : LoginFlow) (u : User) : P (db_error + string) :=
  code ← newSecret "";
  let '(code, hash) := code : string * string in
  now ← ask Time_Now;
  e ← ask (Db_CreateCLICode hash (U_ID u) (CLIChallenge f) (now + CLICodeTTL));
  Ret (match e with Some e => inl e | None => inr (CLIRedirect f +:+ "?" +:+ Encode [("code", code); ("state", CLIState f)]) end).

(** [signInTTL]. *)
Definition signInTTL (u : User) : P (db_error + Z) :=
  if bool_decide (U_ExternalID u = operatorKeyExternalID) then Ret (inr ShortSignInTTL)
  else match directoryOf opts (U_ExternalID u) with
  | None => Ret (inr SignInTTL)
  | Some _ =>
      linked ← ask (Db_HasRefreshToken (U_ExternalID u));
      Ret (match linked with inl e => inl e | inr l => inr (if l : bool then SignInTTL else ShortSignInTTL) end)
  end.

(** [startSession]: the cookies it sets. *)
Definition startSession (u : User) : P (db_error + list cookie) :=
  ttl ← signInTTL u;
  match ttl with
  | inl e => Ret (inl e)
  | inr ttl =>
      token ← newSecret "";
      let '(token, hash) := token : string * string in
      csrf ← ask New_Token;
      now ← ask Time_Now;
      e ← ask (Db_CreateSession hash (U_ID u) csrf (now + ttl));
      Ret (match e with
           | Some e => inl e
           | None => inr [cookie_ opts sessionCookie token "/" (seconds ttl) Lax; rememberOrg opts (U_OrgID u)]
           end)
  end.

(** [signedIn]: the cookies, once there is a session. *)
Definition signedIn (u : User) (was : string) (cli : bool) (entry : list (string * string)) : P (db_error + list cookie) :=
  cookies ← startSession u;
  match cookies with
  | inl e => Ret (inl e)
  | inr cookies =>
      _ ← auditf (actorOf u) (U_OrgID u) "auth.sign_in" "user" (U_ID u)
            (entry ++ [("role", U_Role u)] ++ (if cli then [("client", "command line")] else []) ++
             (if negb (bool_decide (was = "")) && negb (bool_decide (was = U_Role u)) then [("role_was", was)] else []));
      Ret (inr cookies)
  end.

(** *** Which row a sign-in is *)

(** [LinkUser]. *)
Definition LinkUser (newID : string) (l : Link) : P (db_error + User) :=
  u ← ask (Db_LinkedUser l);
  match u with
  | inr u =>
      if negb (EqualFold (U_Email u) (L_Email l)) || negb (bool_decide (U_Name u = L_Name l)) then
        e ← ask (Db_FollowDirectory (L_ExternalID l) (L_Email l) (L_Name l));
        Ret (match e with Some e => inl e | None => inr (u <| U_Email := L_Email l |> <| U_Name := L_Name l |>) end)
      else Ret (inr u)
  | inl ErrNotFound =>
      u ← ask (Db_InsertLink newID l);
      Ret (match u with inl ErrNotFound => inl ErrEmailTaken | u => u end)
  | inl e => Ret (inl e)
  end.

(** [linkIdentity]: the person and the role they had. *)
Definition linkIdentity (p : provider) (i : Identity) (orgID : string) : P (go_error + (User * string)) :=
  let role := RoleFor (pv_Mapping p) (I_Email i) (I_Groups i) in
  id ← ask (New_ID "user");
  u ← LinkUser id {| L_OrgID := orgID; L_Email := I_Email i; L_Name := I_Name i; L_ExternalID := ExternalID i; L_Role := role |};
  match u with
  | inl ErrEmailTaken =>
      Ret (inl (E_forbidden (I_Email i +:+ " already belongs to an account linked to a different identity; sign in the way that account was created, or ask an operator to move it")))
  | inl e => Ret (inl (E_store e))
  | inr u =>
      if Disabled u then
        Ret (inl (E_forbidden "your access to Keera has been turned off; ask an administrator of your organisation"))
      else
        synced ← syncRole opts u role;
        match synced with
        | inl e => Ret (inl (E_store e))
        | inr u' =>
            e ← syncOtherRoles opts u' role;
            Ret (match e with Some e => inl (E_store e) | None => inr (u', U_Role u) end)
        end
  end.

(** [lastOrg]; the list is not empty. *)
Definition lastOrg (r : request) (ms : list Membership) : string :=
  let here := match c_org r with
              | Some v => List.find (λ m, bool_decide (M_OrgID m = v) && negb (M_Disabled m)) ms
              | None => None
              end in
  match here with
  | Some m => M_OrgID m
  | None =>
      match List.find (λ m, negb (M_Disabled m)) ms with
      | Some m => M_OrgID m
      | None => match ms with m :: _ => M_OrgID m | [] => "" end
      end
  end.

(** [sameIdentity]. *)
Definition sameIdentity (i : Identity) : P (option go_error) :=
  others ← ask (Db_ExternalIDsFor (I_Email i));
  match others with
  | inl e => Ret (Some (E_store e))
  | inr others =>
      match List.find (λ ext, negb (bool_decide (ext = ExternalID i)) && vouchedByDirectory ext) others with
      | None => Ret None
      | Some ext =>
          let name := (cut_byte colon_byte ext).1.1 in
          let name := match ByName providers name with Some p => pv_Label p | None => name end in
          Ret (Some (E_text (I_Email i +:+ " signs in through " +:+ name +:+ ", the way it first signed in; sign in that way")))
      end
  end.

(** [placement]. *)
Inductive placement := In_org (orgID : string) | Sign_up (invited : string).

(** [orgFor]. *)
Definition orgFor (r : request) (p : provider) (i : Identity) : P (go_error + placement) :=
  ms ← ask (Db_Memberships (ExternalID i) "" false);
  match ms with
  | inl e => Ret (inl (E_store e))
  | inr (_ :: _ as ms) => Ret (inr (In_org (lastOrg r ms)))
  | inr [] =>
      other ← sameIdentity i;
      match other with
      | Some e => Ret (inl e)
      | None =>
          org ← ask (Db_OrgByEmailDomain (Domain (I_Email i)));
          match org with
          | inr o => Ret (inr (In_org (O_ID o)))
          | inl ErrNotFound =>
              if pv_SignUp p then
                org ← ask (Db_InvitationFor (I_Email i));
                Ret (match org with
                     | inr o => inr (Sign_up (O_ID o))
                     | inl ErrNotFound => inr (Sign_up "")
                     | inl e => inl (E_store e)
                     end)
              else
                let none := inl (E_text ("no organisation matches " +:+ Domain (I_Email i) +:+ "; an operator has to create one and set its email domain")) in
                if SignUp_allowed providers then Ret none
                else
                  org ← ask Db_OnlyOrg;
                  Ret (match org with
                       | inr o => inr (In_org (O_ID o))
                       | inl ErrNotFound => none
                       | inl e => inl (E_store e)
                       end)
          | inl e => Ret (inl (E_store e))
          end
      end
  end.

(** *** Through an identity provider *)

(** [passkeyLogin]. *)
Definition passkeyLogin (name : string) : bool :=
  Passkeys opts && (bool_decide (name = PasskeyProvider) || (bool_decide (name = "") && negb (Enabled providers))).

(** [providerFor]. *)
Definition providerFor (name : string) : string + provider :=
  if bool_decide (name = "") then
    match Only providers with
    | Some p => if negb (Passkeys opts) then inr p
                else inl ("this gateway has more than one way to sign in, so a sign-in has to name one of: " +:+
                          join ", " (Names providers ++ [PasskeyProvider]))
    | None => inl ("this gateway has more than one way to sign in, so a sign-in has to name one of: " +:+
                   join ", " (Names providers ++ (if Passkeys opts then [PasskeyProvider] else [])))
    end
  else match ByName providers name with
  | Some p => inr p
  | None => inl "this sign-in names an identity provider this gateway does not have"
  end.

(** [newPasskeyFlow]. *)
Definition newPasskeyFlow (cli : cliLogin) (next : string) : P (db_error + LoginFlow) :=
  state ← ask New_Token;
  challenge ← ask New_Token;
  let f := flow_columns state "" challenge PasskeyProvider next (cl_Redirect cli) (cl_Challenge cli) (cl_State cli) in
  now ← ask Time_Now;
  e ← ask (Db_CreateLoginFlow f (now + FlowTTL));
  Ret (match e with Some e => inl e | None => inr f end).

(** [startPasskeyLogin]. *)
Definition startPasskeyLogin (r : request) : P response :=
  match cliLoginFrom (r_query r) apps with
  | inl e => signInFailed opts [] (E_text e)
  | inr cli =>
      or_fail r (newPasskeyFlow cli (safeRedirect (r_query r "next"))) (λ f,
        redirect [] ("/#passkey-sign-in=" +:+ F_State f +:+ panelHint cli apps))
  end.

(** [startPasswordLogin]; the unused halves of [NewFlow] are not drawn. *)
Definition startPasswordLogin (r : request) (p : provider) (cli : cliLogin) : P response :=
  state ← ask New_Token;
  now ← ask Time_Now;
  let f := flow_columns state "" "" (pv_Name p) (safeRedirect (r_query r "next")) (cl_Redirect cli) (cl_Challenge cli) (cl_State cli) in
  done_or_fail r (ask (Db_CreateLoginFlow f (now + FlowTTL)))
    (redirect [] ("/#password-sign-in=" +:+ pv_Name p +:+ "." +:+ F_State f +:+ panelHint cli apps)).

(** [login]. *)
Definition login (r : request) : P response :=
  if passkeyLogin (r_query r "provider") then startPasskeyLogin r
  else if negb (Enabled providers) then
    refuse (switchedOff "sso_disabled" "no identity provider is configured; sign in with the operator key, or set KEERA_OIDC_PROVIDERS")
  else match providerFor (r_query r "provider") with
  | inl e => signInFailed opts [] (E_text e)
  | inr p =>
      match cliLoginFrom (r_query r) apps with
      | inl e => signInFailed opts [] (E_text e)
      | inr cli =>
          if Password p then startPasswordLogin r p cli
          else
            state ← ask New_Token;
            verifier ← ask New_Token;
            nonce ← ask New_Token;
            let f := flow_columns state verifier nonce (pv_Name p) (safeRedirect (r_query r "next"))
                       (cl_Redirect cli) (cl_Challenge cli) (cl_State cli) in
            now ← ask Time_Now;
            done_or_fail r (ask (Db_CreateLoginFlow f (now + FlowTTL)))
              (redirect [loginStateCookie opts state (seconds FlowTTL)] (AuthCodeURL p f))
      end
  end.

(** [publicOrigin]. *)
Definition publicOrigin (r : request) : string :=
  let own := (if r_TLS r then "https" else "http") +:+ "://" +:+ r_Host r in
  if bool_decide (PublicURL opts = "") then own
  else match url_parts (PublicURL opts) with
  | None => own
  | Some u =>
      if bool_decide (lk_Host u = "") then own
      else lk_Scheme u +:+ "://" +:+ lk_Host u +:+ trim_bytes_right (λ c, bool_decide (c = slash)) (lk_Path u)
  end.

(** What [callback] does with an identity the provider vouched for. *)
Definition callback_signed_in (r : request) (cookies : list cookie) (p : provider) (f : LoginFlow) (i : Identity) (orgID : string) : P response :=
  linked ← linkIdentity p i orgID;
  match linked with
  | inl (E_forbidden msg) => signInFailed opts cookies (E_forbidden msg)
  | inl (E_store e) => Ret (cookies, inl (fail (request_id r) (failure_of e)))
  | inl (E_text msg) => Ret (cookies, inl (fail (request_id r) (IsOther msg)))
  | inr (u, was) =>
      sealed ← sealRefreshToken opts (U_ExternalID u) (I_RefreshToken i);
      _ ← rememberDirectory u sealed;
      signed ← signedIn u was (CLI f) [("via", "sso"); ("provider", I_Provider i)];
      match signed with
      | inl e => Ret (cookies, inl (fail (request_id r) (failure_of e)))
      | inr session =>
          if CLI f then
            to ← cliHandOver f u;
            match to with
            | inl e => Ret (cookies ++ session, inl (fail (request_id r) (failure_of e)))
            | inr to => redirect (cookies ++ session) to
            end
          else redirect (cookies ++ session) (if bool_decide (RedirectTo f = "") then "/" else RedirectTo f)
      end
  end.

(** [startSignup]. *)
Definition startSignup (r : request) (cookies : list cookie) (p : provider) (i : Identity) (invited next : string) : P response :=
  sealed ← sealRefreshToken opts (ExternalID i) (I_RefreshToken i);
  token ← ask New_Token;
  now ← ask Time_Now;
  e ← ask (Db_CreateSignup (Hash token)
        {| Su_Provider := pv_Name p; Su_ExternalID := ExternalID i; Su_Email := I_Email i; Su_Name := I_Name i;
           Su_Role := RoleFor (pv_Mapping p) (I_Email i) (I_Groups i); Su_RefreshToken := sealed; InvitedOrg := invited;
           Su_RedirectTo := next |} (now + signupTTL));
  match e with
  | Some e => Ret (cookies, inl (fail (request_id r) (failure_of e)))
  | None => redirect (cookies ++ [signupStateCookie opts token (seconds signupTTL)]) "/?sign_up=1"
  end.

(** What [callback] does once the state matched; [q] reads the query. *)
Definition callback_flow (r : request) (cookies : list cookie) (f : LoginFlow) : P response :=
  match ByName providers (F_Provider f) with
  | None => signInFailed opts cookies (E_text "the identity provider this sign-in started against is no longer configured")
  | Some p =>
      if Password p then signInFailed opts cookies (E_text (pv_Label p +:+ " sign-in asks for a password, not a redirect"))
      else
        identity ← ask (Idp_Exchange (pv_Name p) (r_query r "code") f);
        match identity with
        | inl msg => signInFailed opts cookies (E_text msg)
        | inr i =>
            place ← orgFor r p i;
            match place with
            | inl e => signInFailed opts cookies e
            | inr (Sign_up invited) =>
                if CLI f then
                  signInFailed opts cookies (E_text ("there is no organisation for " +:+ I_Email i +:+ " yet; open " +:+ publicOrigin r +:+
                    " in a browser to create or join one, then run keera login again"))
                else startSignup r cookies p i invited (RedirectTo f)
            | inr (In_org orgID) => callback_signed_in r cookies p f i orgID
            end
        end
  end.

(** [callback]. *)
Definition callback (r : request) : P response :=
  if negb (Enabled providers) then signInFailed opts [] (E_text "no identity provider is configured")
  else
    let refused := r_query r "error" in
    let state := r_query r "state" in
    let matches := match c_login r with Some v => negb (bool_decide (state = "")) && bool_decide (v = state) | None => false end in
    if negb matches then
      signInFailed opts [] (E_text (if negb (bool_decide (refused = "")) then "the identity provider refused the sign-in"
                                    else "this sign-in was started in another browser or tab; start it again here"))
    else
      let cookies := [loginStateCookie opts "" (-1)] in
      f ← ask (Db_TakeLoginFlow state);
      match f with
      | inl _ => signInFailed opts cookies (E_text "this sign-in link has expired or was already used")
      | inr f =>
          if negb (bool_decide (refused = "")) then
            let d := r_query r "error_description" in
            signInFailed opts cookies (E_text (if bool_decide (d = "") then refused else d))
          else callback_flow r cookies f
      end.

(** *** With the operator key *)

(** [operatorKeyOrg]. *)
Definition operatorKeyOrg : P (db_error + string) :=
  u ← ask (Db_UserByExternalID operatorKeyExternalID);
  match u with
  | inr u => Ret (inr (U_OrgID u))
  | inl ErrNotFound =>
      org ← ask Db_FirstOrg;
      match org with
      | inr o => Ret (inr (O_ID o))
      | inl ErrNotFound =>
          id ← ask (New_ID "org");
          org ← ask (Db_CreateOrg {| O_ID := id; O_Name := "Keera"; EmailDomain := ""; Limited := false; O_CreatedAt := time_zero |});
          match org with
          | inl e => Ret (inl e)
          | inr o => _ ← ask (Announce (O_ID o)); Ret (inr (O_ID o))
          end
      | inl e => Ret (inl e)
      end
  | inl e => Ret (inl e)
  end.

(** [localLogin], of the key in the body. *)
Definition localLogin (r : request) (body : problem + string) : P response :=
  with_body body (λ key,
    if negb (matchesOperatorKey opts (TrimSpace key)) then refuse (unauthorized "invalid_api_key" "that operator key is not valid")
    else
      or_fail r operatorKeyOrg (λ orgID,
        id ← ask (New_ID "user");
        or_fail r (LinkUser id {| L_OrgID := orgID; L_Email := "operator@localhost"; L_Name := ""; L_ExternalID := operatorKeyExternalID; L_Role := RoleOperator |}) (λ u,
          or_fail r (syncRole opts u RoleOperator) (λ u,
            or_fail r (startSession u) (λ session,
              _ ← auditf (bare MethodOperatorKey "") (U_OrgID u) "auth.sign_in" "user" (U_ID u) [("via", "operator key")];
              show session Done))))).

(** *** From the command line *)

(** [CLIChallenge]: the S256 challenge of a verifier. *)
Definition s256 (verifier : string) : string := EncodeToString (map (λ c, Z.of_nat (byte_val c)) (String.list_ascii_of_string (Hash verifier))).

(** [cliToken], of the code, the verifier and the label. *)
Definition cliToken (r : request) (body : problem + (string * string * string)) : P response :=
  with_body body (λ '(code, verifier, label),
    if bool_decide (code = "") || bool_decide (verifier = "")
    then refuse (badRequest "a 'code' and the 'verifier' that redeems it are required")
    else
      taken ← ask (Db_TakeCLICode (Hash code));
      match taken with
      | inl _ => refuse (unauthorized "invalid_code" "this sign-in has expired or was already completed; run 'keera login' again")
      | inr (userID, challenge) =>
          if negb (bool_decide (s256 verifier = challenge))
          then refuse (unauthorized "invalid_verifier" "this sign-in was completed by a different process than the one that started it")
          else
            or_fail r (ask (Db_UserByID userID)) (λ u,
              token ← newSecret CLITokenPrefix;
              let '(token, hash) := token : string * string in
              or_fail r (signInTTL u) (λ ttl,
                now ← ask Time_Now;
                let expires := now + ttl in
                done_or_fail r (ask (Db_CreateCLIToken hash (U_ID u) expires))
                  (_ ← auditf ((bare MethodCLI "") <| P_Email := U_Email u |> <| P_UserID := U_ID u |>) (U_OrgID u) "auth.cli_token" "user" (U_ID u)
                        [("label", label); ("expires_at", pretty expires)];
                   show [] (TokenIssued token expires))))
      end).

(** *** Signing out *)

(** [deleteSessionsWhere] outside a transaction. *)
Definition deleteSessionsWhere (who : selection) : P (option db_error) :=
  (fix go tables := match tables with
   | [] => Ret None
   | t :: tables => e ← ask (Db_DeleteFrom t who); match e with Some e => Ret (Some e) | None => go tables end
   end) sign_in_tables.

(** [providerOf]. *)
Definition providerOf (userID : string) : P (option provider) :=
  if bool_decide (userID = "") || negb (Enabled providers) then Ret None
  else
    u ← ask (Db_UserByID userID);
    Ret (match u with inl _ => None | inr u => directoryOf opts (U_ExternalID u) end).

(** [logout]. *)
Definition logout : handler := λ r p,
  let finish :=
    pv ← providerOf (P_UserID p);
    show [cookie_ opts sessionCookie "" "/" (-1) Lax] (SignedOut (match pv with Some pv => LogoutURL pv (PublicURL opts) | None => "" end)) in
  if bool_decide (r_query r "all" = "1") && negb (bool_decide (P_UserID p = "")) then
    done_or_fail r (deleteSessionsWhere (Of_person (P_UserID p)))
      (_ ← auditf p (P_OrgID p) "auth.sign_out_everywhere" "user" (P_UserID p) []; finish)
  else if (0 <? len (CredentialHash p)) && bool_decide (Via p = MethodCLI) then
    done_or_fail r (ask (Db_DeleteCLIToken (CredentialHash p))) finish
  else if 0 <? len (CredentialHash p) then
    done_or_fail r (ask (Db_DeleteSession (CredentialHash p))) finish
  else finish.

(** *** With a password *)

Definition passwordNameBucket : string := "password-name|".
Definition passwordEntryBucket : string := "password-entry|".
Definition passwordThrottled : string := "too many sign-in attempts for this account; wait a minute".

(** [Authenticate] of [ldap.go]: the search, the entry's bucket, the bind.
    [ldapPasswordMax] is the longest password. *)
Definition ldapPasswordMax : Z := 1024.

Inductive password_error := AccountThrottled | Auth (e : auth_error).

Definition Authenticate (p : provider) (username password : string) : P (password_error + Identity) :=
  let username := TrimSpace username in
  if bool_decide (username = "") || bool_decide (password = "") || (LDAPUsernameMax <? len username) || (ldapPasswordMax <? len password)
  then Ret (inl (Auth ErrBadCredentials))
  else
    dn ← ask (Ldap_Lookup (pv_Name p) username);
    match dn with
    | inl e => Ret (inl (Auth e))
    | inr dn =>
        ok ← ask (Throttle_Allow (passwordEntryBucket +:+ pv_Name p +:+ "|" +:+ dn) passwordPerAccountRPM);
        if negb (ok : bool) then Ret (inl AccountThrottled)
        else
          i ← ask (Ldap_Bind (pv_Name p) dn password);
          Ret (match i with inl e => inl (Auth e) | inr i => inr i end)
    end.

(** The name's bucket, then the directory. *)
Definition passwordIdentity (p : provider) (username password : string) : P (password_error + Identity) :=
  let name := ToLower (TrimSpace username) in
  ok ← (if len name <=? LDAPUsernameMax then ask (Throttle_Allow (passwordNameBucket +:+ pv_Name p +:+ "|" +:+ name) passwordPerAccountRPM)
        else Ret true);
  if negb (ok : bool) then Ret (inl AccountThrottled) else Authenticate p username password.

(** The sign-in of a password that was right. *)
Definition password_signed_in (r : request) (p : provider) (f : LoginFlow) (i : Identity) : P response :=
  place ← orgFor r p i;
  match place with
  | inl e => refuse (forbid (Error e))
  | inr (Sign_up _) => refuse (forbid ("there is no organisation for " +:+ I_Email i +:+ " yet; ask an operator"))
  | inr (In_org orgID) =>
      linked ← linkIdentity p i orgID;
      match linked with
      | inl (E_forbidden msg) => refuse (forbid msg)
      | inl (E_store e) => failed r e
      | inl (E_text msg) => refuse (fail (request_id r) (IsOther msg))
      | inr (u, was) =>
          sealed ← sealRefreshToken opts (U_ExternalID u) (I_RefreshToken i);
          _ ← rememberDirectory u sealed;
          or_fail r (signedIn u was (CLI f) [("via", "password"); ("provider", I_Provider i)]) (λ session,
            if CLI f then
              to ← cliHandOver f u;
              match to with
              | inl e => Ret (session, inl (fail (request_id r) (failure_of e)))
              | inr to => show session (GoTo to)
              end
            else show session (GoTo (if bool_decide (RedirectTo f = "") then "/" else RedirectTo f)))
      end
  end.

(** [passwordSignIn], of the provider, the flow, the username, the password and where to go. *)
Definition passwordSignIn (r : request) (body : problem + (string * string * string * string * string)) : P response :=
  with_json_body r body (λ '(name, flow, username, password, next),
    match ByName providers name with
    | None => refuse (badRequest (name +:+ " is not a password sign-in on this gateway"))
    | Some p =>
        if negb (Password p) then refuse (badRequest (name +:+ " is not a password sign-in on this gateway"))
        else
          f ← (if bool_decide (flow = "") then Ret (Some (flow_columns "" "" "" (pv_Name p) (safeRedirect next) "" "" ""))
               else
                 f ← ask (Db_LoginFlowByState flow);
                 Ret (match f with inr f => if bool_decide (F_Provider f = pv_Name p) then Some f else None | inl _ => None end));
          match f with
          | None => refuse (unauthorized "invalid_flow" "this sign-in has expired; start again")
          | Some f =>
              i ← passwordIdentity p username password;
              match i with
              | inl AccountThrottled => refuse (tooMany passwordThrottled)
              | inl (Auth ErrBadCredentials) => refuse (unauthorized "invalid_credentials" "that username and password were not accepted")
              | inl (Auth ErrDirectoryUnreachable) =>
                  refuse {| p_status := 503; p_type := "api_error"; p_code := "directory_unreachable";
                            p_message := "the directory did not answer; try again in a moment" |}
              | inl (Auth ErrUnusableEntry) =>
                  refuse (forbid "this directory account cannot be used to sign in to Keera; ask your administrator")
              | inl (Auth (AuthOther msg)) => refuse (forbid msg)
              | inr i =>
                  if bool_decide (flow = "") then password_signed_in r p f i
                  else
                    f ← ask (Db_TakeLoginFlow flow);
                    match f with
                    | inl _ => refuse (unauthorized "invalid_flow" "this sign-in has expired; start again")
                    | inr f => password_signed_in r p f i
                    end
              end
          end
    end).

(** *** Signing up *)

Definition signupGone : problem :=
  unauthorized "signup_expired" "this sign-up has expired or was finished in another tab; sign in again".

(** [signupHash]. *)
Definition signupHash (r : request) (k : string → P response) : P response :=
  match c_signup r with
  | Some v => if bool_decide (v = "") then refuse signupGone else k (Hash v)
  | None => refuse signupGone
  end.

(** [signupInfo]. *)
Definition signupInfo (r : request) : P response :=
  signupHash r (λ hash,
    su ← ask (Db_SignupByToken hash);
    match su with
    | inl ErrNotFound => refuse signupGone
    | inl e => failed r e
    | inr (su, name) => show [] (SignupInfo (Su_Email su) (if bool_decide (InvitedOrg su = "") then "" else name))
    end).

(** [createSignedUpOrg]. *)
Definition createSignedUpOrg (hash name : string) : P (db_error + (Signup * (Org * User))) :=
  id ← ask (New_ID "org");
  let org n := {| O_ID := id; O_Name := n; EmailDomain := ""; Limited := true; O_CreatedAt := time_zero |} in
  first ← ask (Db_SignUp hash (org name));
  done ← (match first : option Signup * (db_error + (Org * User)) with
          | (Some su, inl ErrOrgNameTaken) => ask (Db_SignUp hash (org (name +:+ " (" +:+ Su_Email su +:+ ")")))
          | done => Ret done
          end);
  Ret (match done : option Signup * (db_error + (Org * User)) with
       | (Some su, inr created) => inr (su, created)
       | (_, inl e) => inl e
       | (None, inr _) => inl ErrDatabase
       end).

(** The end of [completeSignup]. *)
Definition signup_signed_in (r : request) (su : Signup) (u : User) (created : option Org) : P response :=
  let gone := [signupStateCookie opts "" (-1)] in
  _ ← rememberDirectory u (Su_RefreshToken su);
  synced ← (match created with None => syncRole opts u (Su_Role su) | Some _ => Ret (inr u) end);
  match synced with
  | inl e => Ret (gone, inl (fail (request_id r) (failure_of e)))
  | inr u =>
      _ ← (match created with
           | Some o =>
               _ ← auditf (actorOf u) (O_ID o) "org.create" "org" (O_ID o) [("name", O_Name o); ("via", "signup"); ("limited", if Limited o then "true" else "false")];
               ask (Announce (O_ID o))
           | None => Ret tt
           end);
      signed ← signedIn u "" false [("via", "sso"); ("provider", Su_Provider su); ("signup", match created with Some _ => "created" | None => "joined" end)];
      match signed with
      | inl e => Ret (gone, inl (fail (request_id r) (failure_of e)))
      | inr session => show (gone ++ session) (GoTo (if bool_decide (Su_RedirectTo su = "") then "/" else Su_RedirectTo su))
      end
  end.

(** [completeSignup], of whether to join and the organisation's name. *)
Definition completeSignup (r : request) (body : problem + (bool * string)) : P response :=
  signupHash r (λ hash,
    with_body body (λ '(join_, name),
      if join_ : bool then
        joined ← ask (Db_JoinInvitation hash);
        match joined with
        | inr (su, u) => signup_signed_in r su u None
        | inl ErrNotFound => refuse (conflict "invitation_gone" "that invitation is no longer there, or the sign-up expired; sign in again")
        | inl ErrEmailTaken => refuse (conflict "already_signed_up" "this sign-in already has an account; sign in again to use it")
        | inl e => failed r e
        end
      else
        let name := TrimSpace name in
        if bool_decide (name = "") || (maxOrgName <? rune_count name)
        then refuse (badRequest "give your organisation a name of up to 100 characters")
        else
          created ← createSignedUpOrg hash name;
          match created with
          | inr (su, (o, u)) => signup_signed_in r su u (Some o)
          | inl ErrNotFound => refuse signupGone
          | inl ErrEmailTaken => refuse (conflict "already_signed_up" "this sign-in already has an account; sign in again to use it")
          | inl e => failed r e
          end)).
End programs.
