(* ===== verification/SignInRules.v ===== *)
(** * Who a request is from, and who stays signed in

    Theorems about every run of the programs of SignIn and Login: which
    requests a handler behind [authenticated] is reached by, when the
    re-check of a directory signs someone out and what that leaves, and what
    a failure of the database tells a browser. *)
From S2P Require Import Prelude GoTime Tenancy Text Keys Hosting Egress Secret Control Principals Accounts SignIn Login.
Open Scope go_scope.

Abbreviation history := (list (event (R := answer))).

Section rules.
Context `{Unicode} `{Folding} `{SHA256} `{GCM} `{Addresses} `{Dialing} `{Web}.
Context (opts : Options).

Abbreviation follows h p Q := (always (λ _ _, True) h p Q).

(** ** The person a credential is of *)

(** The row [v] a request acts as, from the row [u] its credential found: the
    same person in the same organisation, with the role of the row, or the one
    the request's own re-check of the directory gave it. *)
Definition acts_as (h : history) (u v : User) : Prop :=
  U_ID v = U_ID u ∧ U_ExternalID v = U_ExternalID u ∧ U_OrgID v = U_OrgID u ∧ U_Email v = U_Email u ∧
  (U_Role v = U_Role u ∨ answered (R := answer) (Db_SetUserRole (U_OrgID u) (U_ID u) (U_Role v)) None ∈ h).

(** The requests that are from somebody. *)
Inductive identified (r : request) (h : history) : Principal → Prop :=
  | key_holder k : FromHeader (Authorization r) = Some k → matchesOperatorKey opts k = true →
      identified r h (bare MethodOperatorKey RoleOperator)
  | session_holder value csrf created u d v : FromHeader (Authorization r) = None → c_session r = Some value → value ≠ "" →
      answered (R := answer) (Db_LookupSession (Hash value)) (inr (csrf, created, u, d)) ∈ h → acts_as h u v →
      identified r h ((principalOf MethodSession v (Hash value)) <| CSRF := csrf |> <| SignedInAt := created |>)
  | token_holder token u d v w : FromHeader (Authorization r) = Some token → has_prefix token CLITokenPrefix = true →
      answered (R := answer) (Db_LookupCLIToken (Hash token)) (inr (u, d)) ∈ h → acts_as h u v →
      w = v ∨ answered (R := answer) (Db_UserInOrg (U_ExternalID u) (r_query r "org_id")) (inr w) ∈ h →
      identified r h (principalOf MethodCLI w (Hash token)).

(** A state-changing request on a cookie carries the session's token. *)
Definition csrf_carried (r : request) (p : Principal) : Prop :=
  Via p = MethodSession → safeMethod (r_Method r) = false → X_CSRF_Token r = CSRF p.

Lemma acts_as_refl h u : acts_as h u u.
Proof. repeat split. by left. Qed.

Lemma acts_as_more h l u v : acts_as h u v → acts_as (h ++ l) u v.
Proof. intros (?&?&?&?&Hr). repeat split; try done. destruct Hr; [by left|right]. apply elem_of_app. by left. Qed.

Lemma last_of (h : history) e : e ∈ h ++ [e].
Proof. apply elem_of_app. right. by left. Qed.

(** A program of which nothing matters. *)
Lemma follows_any {A} h (p : prog answer A) (Q : history → A → Prop) : (∀ h a, Q h a) → follows h p Q.
Proof. intros HQ. revert h. induction p as [a|c k IH]; intros h; [apply HQ|]. split; [done|]. intros x. apply IH. Qed.

Lemma follows_then {A B} h (p : prog answer A) (f : A → prog answer B) Q :
  (∀ l a, follows (h ++ l) (f a) Q) → follows h (p ≫= f) Q.
Proof. intros Hf. apply (always_cut _ _ _ _ (λ _ _, True)); [by apply follows_any|]. auto. Qed.

Lemma always_conj {A} (ok1 ok2 : history → call → Prop) h (p : prog answer A) Q1 Q2 :
  always ok1 h p Q1 → always ok2 h p Q2 → always ok2 h p (λ h a, Q1 h a ∧ Q2 h a).
Proof. induction p as [a|c k IH] in h |- *; [done|]. intros (_ & H1k) (Hc & H2k). split; [done|]. intros x. by apply IH. Qed.

Lemma syncRole_acts h u role :
  follows h (syncRole opts u role) (λ h' v, match v with inr v => acts_as h' u v | inl _ => True end).
Proof.
  unfold syncRole. destruct (roleAtSignIn _ _ _) as [want change]. destruct (negb change); [apply acts_as_refl|].
  apply follows_then. intros l [e|[w|]]; [exact I| |apply acts_as_refl].
  apply always_ask; [exact I|]. intros [e|]; [exact I|]. repeat split. right. apply last_of.
Qed.

Lemma applyIdentity_acts h p u i : follows h (applyIdentity opts p u i) (λ h' '(v, ok), acts_as h' u v ∧ ok = true).
Proof.
  unfold applyIdentity. cbv zeta. apply (always_cut _ _ _ _ (λ h' v, acts_as h' u v ∧ U_Role v = U_Role u)).
  { case_bool_decide; [by split; [apply acts_as_refl|]|]. apply always_ask; [exact I|]. intros [e|]; (split; [|done]); repeat split; by left. }
  intros l v (Hv & Hrole). eapply always_cut; [apply syncRole_acts|]. cbv beta. intros l2 [e|w] Hw; [split; [by apply acts_as_more|done]|].
  apply follows_then. intros l3 _. apply follows_then. intros l4 _. split; [|done]. do 2 apply acts_as_more.
  destruct Hv as (Hi&He&Ho&Hm&_), Hw as (Hi2&He2&Ho2&Hm2&Hr2). repeat split; try congruence.
  rewrite <- Hrole, <- Hi, <- Ho. exact Hr2.
Qed.

Lemma checkDirectory_acts h u d : follows h (checkDirectory opts u d) (λ h' '(v, _), acts_as h' u v).
Proof.
  pose proof (λ h, acts_as_refl h u) as Hrefl. unfold checkDirectory. apply always_ask; [exact I|]. intros now.
  destruct (negb _); [apply Hrefl|]. destruct (directoryOf _ _) as [p|]; [|apply Hrefl]. apply always_ask; [exact I|].
  intros [e|[sealed|]]; [apply Hrefl| |apply Hrefl]. destruct (Open _ _ _) as [e|token].
  { apply follows_then. intros l kept. apply Hrefl. }
  apply always_ask; [exact I|]. intros [e|(i & fresh)]; [apply follows_then; intros l kept; apply Hrefl|].
  destruct (fresh && _); [apply follows_then; intros l kept; apply Hrefl|]. apply follows_then. intros l sealed'.
  apply always_ask; [exact I|]. intros recorded. destruct (negb fresh); [apply Hrefl|].
  eapply always_mono; [|apply applyIdentity_acts]. intros h' (v & ok) (Hv & _). exact Hv.
Qed.

Lemma principal_identified h r : follows h (principal opts r) (λ h' p, match p with Some p => identified r h' p | None => True end).
Proof.
  unfold principal. destruct (FromHeader _) as [token|] eqn:Hf.
  - destruct (matchesOperatorKey _ _) eqn:Hm; [by eapply key_holder|]. destruct (has_prefix _ _) eqn:Hp; [|exact I].
    unfold cliPrincipal. cbv zeta. apply always_ask; [exact I|]. intros [e|(u & d)]; [exact I|].
    eapply always_cut; [apply checkDirectory_acts|]. cbv beta. intros l [v ok] Hv. destruct (negb ok); [exact I|].
    match goal with |- always _ ?h1 _ _ => assert (answered (R := answer) (Db_LookupCLIToken (Hash token)) (inr (u, d)) ∈ h1) as Hin end.
    { apply elem_of_app. left. apply last_of. }
    unfold rowInRequestedOrg. cbv zeta. destruct (_ || _); [eapply token_holder; eauto|].
    apply always_bind, always_ask; [exact I|]. intros other.
    assert (∀ w, w = v ∨ other = inr w → identified r (((h ++ [answered (R := answer) (Db_LookupCLIToken (Hash token)) (inr (u, d))]) ++ l) ++
      [answered (R := answer) (Db_UserInOrg (U_ExternalID v) (r_query r "org_id")) other]) (principalOf MethodCLI w (Hash token))) as Hid.
    { intros w Hw. eapply token_holder; [done|done|apply elem_of_app; left; exact Hin|by apply acts_as_more|].
      destruct Hw as [->| ->]; [by left|right]. destruct Hv as (_ & He & _). rewrite <- He. apply last_of. }
    destruct other as [[]|w]; first [exact I|apply Hid; auto].
  - unfold sessionPrincipal. destruct (c_session r) as [value|] eqn:Hc; [|exact I]. case_bool_decide as Hne; [exact I|]. cbv zeta.
    apply always_ask; [exact I|]. intros [e|[[[csrf created] u] d]]; [exact I|].
    eapply always_cut; [apply checkDirectory_acts|]. cbv beta. intros l [v ok] Hv. destruct ok; [|exact I].
    eapply session_holder; [done..| |done]. apply elem_of_app. left. apply last_of.
Qed.

(** C9: A handler behind [authenticated] is reached by nobody else's request.
    Whatever ran, either the handler did not start and the answer, if there is
    one, is a refusal; or the request presented the operator key (never where
    none is configured), or a cookie or a command-line token whose hash the
    database looked up just before, and the handler acts as that row (or, for
    a token, as a row of the same identity in the organisation asked for),
    with the role the row holds; and a state-changing request on a cookie
    carried the token of its session. *)
Theorem authenticated_admits next r tr q : steps (authenticated opts next r) tr q →
  ((∃ p, steps (principal opts r) tr p) ∧ ∀ x, q = Ret x → ∃ e, x = ([], inl e) ∧ (p_status e = 401 ∨ p_status e = 403)) ∨
  (∃ p tr1 tr2, tr = tr1 ++ tr2 ∧ identified r tr1 p ∧ csrf_carried r p ∧ steps (next r p) tr2 q).
Proof.
  intros Hs. apply steps_bind in Hs as [(c & k & Hs & ->)|(a & tr1 & tr2 & -> & Hs & Hrest)]; [left; split; [by eexists|done]|].
  pose proof (always_result _ _ _ _ [] _ (principal_identified [] r) Hs) as Hid. cbn [app] in Hid.
  assert (∀ e, steps (refuse e) tr2 q → tr2 = [] ∧ q = refuse e) as Hret by (intros e He; exact (steps_inv _ _ _ He)).
  destruct a as [p|].
  - unfold withPrincipal in Hrest. destruct (_ && _) eqn:Hcsrf.
    + apply Hret in Hrest as (-> & ->). rewrite app_nil_r. left. split; [by eexists|]. intros x [= <-]. eexists. split; [done|by right].
    + right. exists p, tr1, tr2. split_and!; [done..| |done]. intros Hvia Hsafe.
      rewrite Hsafe, (bool_decide_eq_true_2 _ Hvia) in Hcsrf. cbn in Hcsrf. by apply negb_false_iff, bool_decide_eq_true in Hcsrf.
  - apply Hret in Hrest as (-> & ->). rewrite app_nil_r. left. split; [by eexists|]. intros x [= <-]. eexists. split; [done|by left].
Qed.

(** ** Who a directory still vouches for *)

(** What an answer of the directory about [ext] ends: it refused, it answered
    about somebody else, or the token kept for it cannot be opened. *)
Definition disowns (ext : string) (e : event (R := answer)) : bool :=
  let '(existT c x) := e in
  match c as c return answer c → bool with
  | Idp_Recheck _ _ => λ x,
      match x with
      | inl DirectoryRefused => true
      | inl DirectorySilent => false
      | inr (i, fresh) => fresh && negb (bool_decide (ExternalID i = ext))
      end
  | Db_ClaimDirectoryCheck _ _ => λ x,
      match x with
      | inr (Some sealed) => match Open (Secrets opts) (RefreshTokenName ext) sealed with inl _ => true | inr _ => false end
      | _ => false
      end
  | _ => λ _, false
  end x.

(** A failure recorded as one that began [ShortSignInTTL] before the clock
    read next. *)
Definition outlasted (e : event (R := answer)) (rest : history) : bool :=
  let '(existT c x) := e in
  match c as c return answer c → bool with
  | Db_RecordDirectoryFailure _ => λ x,
      match x, rest with
      | inl _, _ => false
      | inr since, existT Time_Now now :: _ => ShortSignInTTL <=? now - since
      | inr _, _ => false
      end
  | _ => λ _, false
  end x.

(** Whether what happened signs the person out. *)
Fixpoint signs_out (ext : string) (h : history) : bool :=
  match h with
  | [] => false
  | e :: rest => disowns ext e || outlasted e rest || signs_out ext rest
  end.

(** The calls that say nothing of the directory; those among them that end no
    sign-in. *)
Definition silent (c : call) : bool :=
  match c with Idp_Recheck _ _ | Db_ClaimDirectoryCheck _ _ | Db_RecordDirectoryFailure _ | Time_Now => false | _ => true end.

Definition spares (c : call) : bool := match c with Db_EndDirectoryLink _ => false | _ => true end.

Definition aside (c : call) : bool := silent c && spares c.

(** No sign-in was ended. *)
Definition spared (h : history) : Prop := Forall (λ e, spares (projT1 e) = true) h.

Lemma aside_silent (l : history) : Forall (λ e, aside (projT1 e) = true) l → Forall (λ e, silent (projT1 e) = true) l.
Proof. intros Hl. eapply Forall_impl; [exact Hl|]. by intros e [? _]%andb_true_iff. Qed.

Lemma aside_spared (l : history) : Forall (λ e, aside (projT1 e) = true) l → spared l.
Proof. intros Hl. eapply Forall_impl; [exact Hl|]. by intros e [_ ?]%andb_true_iff. Qed.

Lemma signs_out_silent ext h l : Forall (λ e, silent (projT1 e) = true) l → signs_out ext (h ++ l) = signs_out ext h.
Proof.
  intros Hl. induction h as [|e h IH]; cbn [app signs_out].
  - induction Hl as [|[c x] l Hc _ IH]; [done|]. cbn [signs_out]. rewrite IH. by destruct c.
  - rewrite IH. f_equal. f_equal. destruct e as [c x], c; try done. destruct x as [e|since]; [done|]. destruct h as [|e2 h]; [|done].
    destruct Hl as [|[c x] l Hc _]; [done|]. by destruct c.
Qed.

(** Programs that only make such calls. *)
Abbreviation beside h p := (always (λ _ c, aside c = true) h p (λ _ _, True)).

Lemma beside_events {A} h (p : prog answer A) : beside h p → follows h p (λ h' _, ∃ l, h' = h ++ l ∧ Forall (λ e, aside (projT1 e) = true) l).
Proof.
  induction p as [a|c k IH] in h |- *; [intros _; exists []; by rewrite app_nil_r|]. intros (Hc & Hk). split; [exact I|]. intros x.
  eapply always_mono; [|exact (IH x _ (Hk x))]. cbv beta. intros h' _ (l & -> & Hl). exists (answered c x :: l).
  rewrite <- app_assoc. split; [done|by constructor].
Qed.

Ltac beside_step :=
  lazymatch goal with
  | |- always _ _ (Ret _) _ => exact I
  | |- always _ _ (ask _) _ => split; [reflexivity|intros ?; exact I]
  | |- always _ _ (auditf _ _ _ _ _ _) _ => split; [reflexivity|intros ?; exact I]
  | |- always _ _ (ask _ ≫= _) _ => apply always_ask; [reflexivity|intros ?]
  | |- always _ _ (mbind _ (Ret _)) _ => apply always_bind; cbn [always]; cbv beta
  | |- always _ _ (mbind _ _) _ => apply (always_cut _ _ _ _ (λ _ _, True)); [|intros ? ? _]
  | |- always _ _ (match ?x with _ => _ end) _ => destruct x
  | |- always _ _ (let '_ := ?x in _) _ => destruct x
  end.
Ltac beside_walk := repeat (beside_step; cbv beta); try exact I.

Lemma beside_syncRole h u role : beside h (syncRole opts u role).
Proof. unfold syncRole, directoryOrg. beside_walk. Qed.

Lemma beside_each_ok {A} (f : A → prog answer (option db_error)) l : (∀ h x, beside h (f x)) → ∀ h, beside h (each_ok f l).
Proof.
  intros Hf. induction l as [|x l IH]; intros h; cbn [each_ok]; [exact I|].
  apply (always_cut _ _ _ _ (λ _ _, True)); [apply Hf|]. intros l' [e|] _; [exact I|apply IH].
Qed.

Lemma beside_applyIdentity h p u i : beside h (applyIdentity opts p u i).
Proof.
  unfold applyIdentity, syncOtherRoles. cbv zeta. beside_walk; try apply beside_syncRole.
  apply beside_each_ok. intros h' m. beside_walk. apply beside_syncRole.
Qed.

(** The end of all sign-ins of an identity, as the database answered it. *)
Definition link_ended (u : User) (x : option db_error) : event (R := answer) := answered (Db_EndDirectoryLink (U_ExternalID u)) x.

Definition link_audited (u : User) : event (R := answer) :=
  answered (Db_Audit (Actor (actorOf u)) (U_OrgID u) "auth.directory_check" "user" (U_ID u) [("signed_out", "true")]) tt.

(** What [checkDirectory] ends with, by what happened: someone who is refused
    had their sign-ins ended, or the database failed at it. *)
Definition right_verdict (u : User) (h : history) (kept : bool) : Prop :=
  kept = negb (signs_out (U_ExternalID u) h) ∧
  if kept then spared h
  else ∃ h0, spared h0 ∧ (h = h0 ++ [link_ended u None; link_audited u] ∨ ∃ e, h = h0 ++ [link_ended u (Some e)]).

Lemma ends_link h u (refused : bool) :
  follows h (if refused then Ret true
             else ask (R := answer) (Db_RecordDirectoryFailure (U_ExternalID u)) ≫= λ since : db_error + Z,
               match since with
               | inl _ => Ret false
               | inr since => ask (R := answer) Time_Now ≫= λ now : Z, Ret (negb (now - since <? ShortSignInTTL))
               end) (λ h' over, spared h' ∧ signs_out (U_ExternalID u) h' = over) →
  follows h (directoryFailed u refused) (right_verdict u).
Proof.
  intros Hp. unfold directoryFailed, right_verdict. eapply always_cut; [exact Hp|]. cbv beta. intros l [] [Hsp Hh]; [|by cbn; rewrite Hh].
  cbn [negb]. apply always_ask; [exact I|].
  set (g := h ++ l) in *. clearbody g. intros [e|]; [|apply always_ask; [exact I|]; intros []]; cbn [always]; rewrite <- ?app_assoc; rewrite signs_out_silent by (by repeat constructor); rewrite Hh;
    (split; [done|]); eexists; (split; [exact Hsp|]); [right; by exists e|by left].
Qed.

Lemma checkDirectory_verdict u d : follows [] (checkDirectory opts u d) (λ h '(_, kept), right_verdict u h kept).
Proof.
  unfold checkDirectory. apply always_ask; [exact I|]. intros now. destruct (negb _); [split; [done|by repeat constructor]|].
  destruct (directoryOf _ _) as [p|]; [|split; [done|by repeat constructor]].
  apply always_ask; [exact I|]. intros [e|[sealed|]]; [split; [done|by repeat constructor]| |split; [done|by repeat constructor]]. destruct (Open _ _ _) as [e|token] eqn:Ho.
  { eapply always_cut; [apply (ends_link _ _ true); (split; [by repeat constructor|cbn; by rewrite Ho])|]. intros l kept Hk. exact Hk. }
  apply always_ask; [exact I|]. intros [[]|(i & fresh)].
  - eapply always_cut; [apply (ends_link _ _ true); (split; [by repeat constructor|cbn; by rewrite Ho])|]. intros l kept Hk. exact Hk.
  - eapply always_cut; [apply (ends_link _ _ false)|intros l kept Hk; exact Hk]. apply always_ask; [exact I|].
    intros [e|since]; [split; [by repeat constructor|cbn; by rewrite Ho]|]. apply always_ask; [exact I|]. intros now2.
    split; [by repeat constructor|]. cbn. rewrite Ho. cbn.
    rewrite orb_false_r. destruct (now2 - since <? ShortSignInTTL) eqn:Hlt; cbn; lia.
  - destruct (fresh && _) eqn:Hf.
    { eapply always_cut; [apply (ends_link _ _ true); (split; [by repeat constructor|cbn; by rewrite Ho, Hf])|]. intros l kept Hk. exact Hk. }
    assert (∀ l, Forall (λ e, aside (projT1 e) = true) l → right_verdict u ((([] ++ [answered (R := answer) Time_Now now]) ++
      [answered (R := answer) (Db_ClaimDirectoryCheck (U_ExternalID u) (now - DirectoryCheckEvery)) (inr (Some sealed))]) ++
      [answered (R := answer) (Idp_Recheck (pv_Name p) token) (inr (i, fresh))] ++ l) true) as Hkept.
    { intros l Hl. split; [|by repeat constructor; apply aside_spared]. rewrite app_assoc, signs_out_silent by (by apply aside_silent). cbn. by rewrite Ho, Hf. }
    eapply always_cut; [apply beside_events; unfold sealRefreshToken; beside_walk|]. cbv beta. intros l1 sealed2 (l & E & Hl). apply app_inv_head in E as ->.
    apply always_ask; [exact I|]. intros recorded. destruct (negb fresh).
    + cbn [always]. rewrite <- !app_assoc. rewrite <- !app_assoc in Hkept. apply Hkept. apply Forall_app. split; [done|]. by repeat constructor.
    + eapply always_mono; [|eapply always_conj; [apply beside_events, beside_applyIdentity|apply applyIdentity_acts]].
      cbv beta. intros h' [v ok] ((l2 & -> & Hl2) & _ & ->). rewrite <- !app_assoc. rewrite <- !app_assoc in Hkept. apply Hkept.
      apply Forall_app. split; [done|]. constructor; done.
Qed.

(** C10: The re-check of a directory refuses exactly whom the directory no
    longer vouches for. The request that asked is refused just when the directory
    refused the person, answered about somebody else, gave a token that cannot be
    opened any more, or has not answered for [ShortSignInTTL]; whatever else
    fails, an outage or the bookkeeping, keeps them. Someone kept has no sign-in
    ended. For someone refused, the last thing done is to end all sign-ins of
    their identity: the database did, and it is in the audit log, or it failed at
    it and nothing was ended, though the request is refused all the same. *)
Theorem checkDirectory_signs_out u d tr v kept : steps (checkDirectory opts u d) tr (Ret (v, kept)) →
  kept = negb (signs_out (U_ExternalID u) tr) ∧
  if kept then spared tr
  else ∃ h, spared h ∧ (tr = h ++ [link_ended u None; link_audited u] ∨ ∃ e, tr = h ++ [link_ended u (Some e)]).
Proof. intros Hs. exact (always_result _ _ _ _ [] _ (checkDirectory_verdict u d) Hs). Qed.

(** When the database fails at it, the refusal holds for that request only: the
    check was claimed before, so the next request of the same session is not due
    one and is let in, until [DirectoryCheckEvery] has passed. *)
Lemma failed_end_lets_in d now ext before d' sealed later hash csrf created u dir :
  ClaimDirectoryCheck d now ext before = (d', Some sealed) → later < now + DirectoryCheckEvery →
  LookupSession d' later hash = inr (csrf, created, u, dir) → U_ExternalID u = ext →
  steps (checkDirectory opts u dir) [answered (R := answer) Time_Now later] (Ret (u, true)).
Proof.
  intros Hc Hl Hs <-. assert (Due dir later DirectoryCheckEvery = false) as Hd.
  { unfold ClaimDirectoryCheck in Hc. destruct (identities d !! _) as [i|] eqn:Hi; [|done]. revert Hc.
    destruct (refresh_token i); [|done]. destruct (_ <? _); [|done]. intros [= <- _]. unfold LookupSession in Hs.
    destruct (sessions _ !! hash) as [ss|]; [|done]. destruct (users _ !! _) as [w|]; [|done]. destruct (_ && _); [|done]. simplify_eq.
    unfold directory_of, Due. destruct (unlinked u); [done|]. cbn [identities update]. rewrite lookup_insert_eq. cbn. by apply Z.leb_gt; lia. }
  unfold checkDirectory. apply steps_call. cbn [mbind prog_mbind prog_bind]. rewrite Hd. constructor.
Qed.

(** *** What a failure of the database tells *)

(** [fail] keeps the words of a driver's error from its caller. A sign-in
    whose organisation could not be looked up does not: [passwordSignIn]
    answers with them, and [callback] leaves them in a cookie its page reads. *)
Lemma sign_in_shows_store_words r p f i e code cookies :
  steps (password_signed_in opts r p f i) [answered (R := answer) (Db_Memberships (ExternalID i) "" false) (inl e)]
    (Ret ([], inl (forbid (store_text e)))) ∧
  (ByName (Providers opts) (F_Provider f) = Some p → Password p = false → code = r_query r "code" →
   ∃ cs, steps (callback_flow opts r cookies f)
     [answered (R := answer) (Idp_Exchange (pv_Name p) code f) (inr i); answered (R := answer) (Db_Memberships (ExternalID i) "" false) (inl e)]
     (Ret (cs, inr (302, Redirected "/?sign_in_error=1"))) ∧
   PathEscape (store_text e) ∈ map ck_Value cs).
Proof.
  split; [unfold password_signed_in, orgFor; by repeat constructor|]. intros Hp Hpw ->. eexists. unfold callback_flow. rewrite Hp, Hpw. split.
  - unfold orgFor. apply steps_call. apply steps_call. constructor.
  - rewrite map_app. apply elem_of_app. right. by left.
Qed.
End rules.

(** ** The end of someone's sign-ins *)

Lemma elsewhere_sign_ins d ext : users (EndDirectoryLink d ext) = users d ∧
  sessions (EndDirectoryLink d ext) = filter (λ kv, selects d (Of_identity ext) (s_user kv.2) = false) (sessions d) ∧
  cli_tokens (EndDirectoryLink d ext) = filter (λ kv, selects d (Of_identity ext) (t_user kv.2) = false) (cli_tokens d) ∧
  cli_codes (EndDirectoryLink d ext) = filter (λ kv, selects d (Of_identity ext) (c_user kv.2) = false) (cli_codes d) ∧
  identities (EndDirectoryLink d ext) = alter (λ i, {| refresh_token := None; checked_at := checked_at i; failing_since := None |}) ext (identities d).
Proof. done. Qed.

(** A statement's rows, less those of the people it chooses. *)
Lemma filtered_row {A} (chosen : string → bool) (who : A → string) (m : gmap string A) hash :
  filter (λ kv, chosen (who kv.2) = false) m !! hash =
  match m !! hash with Some s => if chosen (who s) then None else Some s | None => None end.
Proof.
  rewrite map_lookup_filter. destruct (m !! hash) as [s|]; [|done]. cbn [mbind option_bind snd].
  case_guard as Hg; cbn; [by rewrite Hg|]. by destruct (chosen (who s)).
Qed.

Lemma selected d ext id u : users d !! id = Some u → ext ≠ "" → selects d (Of_identity ext) id = bool_decide (U_ExternalID u = ext).
Proof. intros Hu Hne. unfold selects, has_identity. rewrite Hu. by rewrite (bool_decide_eq_false_2 (ext = "")) by done. Qed.

Lemma directory_kept d ext u : U_ExternalID u ≠ ext → directory_of (EndDirectoryLink d ext) u = directory_of d u.
Proof.
  intros Hne. unfold directory_of. destruct (elsewhere_sign_ins d ext) as (_ & _ & _ & _ & ->). by rewrite lookup_alter_ne by done.
Qed.

(** C20: Ending the link of an identity to its directory leaves none of its
    sign-ins and touches nobody else's. Afterwards no session, no token of a
    command line and no waiting code resolves to a row of the identity, in
    any organisation, and no re-check of it can be claimed before it signs in
    again; while every session and token of other identities resolves to the
    row it did. *)
Theorem EndDirectoryLink_ends d ext now (Hext : ext ≠ "") :
  (∀ hash csrf created u dir, LookupSession (EndDirectoryLink d ext) now hash = inr (csrf, created, u, dir) ↔
     LookupSession d now hash = inr (csrf, created, u, dir) ∧ U_ExternalID u ≠ ext) ∧
  (∀ hash u dir, LookupCLIToken (EndDirectoryLink d ext) now hash = inr (u, dir) ↔
     LookupCLIToken d now hash = inr (u, dir) ∧ U_ExternalID u ≠ ext) ∧
  (∀ hash id challenge u, (TakeCLICode (EndDirectoryLink d ext) now hash).2 = inr (id, challenge) → users d !! id = Some u → U_ExternalID u ≠ ext) ∧
  (∀ before, (ClaimDirectoryCheck (EndDirectoryLink d ext) now ext before).2 = None).
Proof.
  destruct (elsewhere_sign_ins d ext) as (Hu & Hs & Ht & Hc & Hi). split_and!.
  - intros hash csrf created u dir. unfold LookupSession. rewrite Hs, Hu, filtered_row. destruct (sessions d !! hash) as [s|]; [|naive_solver].
    destruct (users d !! s_user s) as [v|] eqn:Hv; [|destruct (selects _ _ _); rewrite ?Hv; naive_solver]. rewrite (selected _ _ _ _ Hv Hext).
    case_bool_decide as He; [destruct (_ && _); naive_solver|]. rewrite Hv, directory_kept by done. destruct (_ && _); naive_solver.
  - intros hash u dir. unfold LookupCLIToken. rewrite Ht, Hu, filtered_row. destruct (cli_tokens d !! hash) as [s|]; [|naive_solver].
    destruct (users d !! t_user s) as [v|] eqn:Hv; [|destruct (selects _ _ _); rewrite ?Hv; naive_solver]. rewrite (selected _ _ _ _ Hv Hext).
    case_bool_decide as He; [destruct (_ && _); naive_solver|]. rewrite Hv, directory_kept by done. destruct (_ && _); naive_solver.
  - intros hash id challenge u. unfold TakeCLICode. rewrite Hc, filtered_row. destruct (cli_codes d !! hash) as [s|]; [|done].
    destruct (selects _ _ _) eqn:Hsel; [done|]. destruct (now <? c_expires s); [|done]. intros [= <- _] Hv. rewrite (selected _ _ _ _ Hv Hext) in Hsel.
    by apply bool_decide_eq_false in Hsel.
  - intros before. unfold ClaimDirectoryCheck. rewrite Hi, lookup_alter_eq. by destruct (identities d !! ext).
Qed.
