(* ===== verification/People.v ===== *)
(** * Looking after people

    The handlers about people who have an account: [internal/control/users.go],
    switching organisations ([memberships.go]), and passkeys
    ([passkeys.go]), with the whole list of programs that touch the rows of
    [Accounts]. *)
From S2P Require Import Prelude GoTime Tenancy Text Keys Hosting Egress Secret Control Principals Accounts SignIn Login.
Open Scope go_scope.

Section programs.
Context `{Unicode} `{Folding} `{SHA256} `{GCM} `{Addresses} `{Dialing} `{Web}.
Context (opts : Options).

Abbreviation P := (prog answer).
Abbreviation providers := (Providers opts).

(** A guard of [Principals] that refuses. *)
Definition guard_ (e : option problem) (k : P response) : P response := match e with Some e => refuse e | None => k end.

(** [refuse] of [server.go]: 403 for [forbidden], else 400. *)
Definition refuse_error (e : go_error) : problem :=
  match e with E_forbidden msg => forbid msg | e => badRequest (Error e) end.

(** *** Adding and changing people *)

(** [newUserRole]. *)
Definition newUserRole (ext role : string) (unrestricted : bool) : go_error + string :=
  let '(name, subject, _) := cut_byte colon_byte ext in
  if negb (bool_decide (ext = "")) && negb unrestricted then
    inl (E_forbidden "only an operator can set 'external_id'; leave it out, and the person is linked to their identity on their first sign-in")
  else if negb (bool_decide (ext = "")) && (bool_decide (name = "") || bool_decide (subject = "")) then
    inl (E_text "'external_id' is the identity provider's name and the person's subject there, as <provider>:<subject>, such as google:1234567890")
  else
    let r := if bool_decide (role = "") then RoleMember else role in
    if Role_Valid r then inr r else inl (E_text "'role' must be admin or member").

(** [newUserSignIn]: whether it is a passkey account. *)
Definition newUserSignIn (requested ext : string) (sso passkeys : bool) : go_error + string :=
  let signIn := if bool_decide (requested = "") then (if negb sso && passkeys then PasskeyProvider else "sso") else requested in
  if bool_decide (signIn = "sso") then
    if sso then inr signIn
    else inl (E_text ("this gateway has no identity provider, so nobody could sign in to that account; " +:+
                      (if passkeys then "add a passkey account instead" else "configure one, or turn on KEERA_PASSKEYS and add a passkey account")))
  else if bool_decide (signIn = PasskeyProvider) then
    if bool_decide (ext = "") then inr signIn else inl (E_text "a passkey account has no 'external_id'")
  else inl (E_text "'sign_in' must be sso or passkey").

(** [mayGrant]. *)
Definition mayGrant (role : string) : option problem :=
  if negb (Assignable role) then
    Some (forbid "the operator role is granted by KEERA_OPERATORS or a group in KEERA_OIDC_<NAME>_OPERATOR_GROUPS, and cannot be assigned here")
  else if AdminFromDirectory providers then
    Some (forbid "roles come from the identity provider on this deployment: change this person's group membership in the directory, or unset KEERA_OIDC_<NAME>_ADMIN_GROUPS to assign roles here")
  else None.

Definition forbidOperator (email : string) : problem :=
  forbid (email +:+ " is an operator through the gateway's configuration; remove the address from KEERA_OPERATORS, or the person from a group in KEERA_OIDC_<NAME>_OPERATOR_GROUPS").

(** [passkeysOff]. *)
Definition passkeysOff : option problem :=
  if Passkeys opts then None else Some (switchedOff "passkeys_disabled" "passkeys are off on this gateway; set KEERA_PASSKEYS=true").

(** [mayVouchFor]. *)
Definition mayVouchFor (r : request) (p : Principal) (orgID email : string) : P (option problem) :=
  if Unrestricted p then Ret None
  else
    org ← ask (Db_OrgByID orgID);
    Ret (match org with
         | inl e => Some (fail (request_id r) (failure_of e))
         | inr o =>
             if bool_decide (EmailDomain o = "") then None
             else
               let domain := match CutPrefix (EmailDomain o) "@" with Some d => d | None => EmailDomain o end in
               if EqualFold (Domain email) domain then None
               else Some (forbid (email +:+ " is not at " +:+ EmailDomain o +:+
                      ", this organisation's domain; only an operator can create a passkey account at another domain"))
         end).

(** [issuePasskeyLink]. *)
Definition issuePasskeyLink (r : request) (p : Principal) (u : User) : P (db_error + passkey_link) :=
  link ← newSecret "";
  let '(token, hash) := link : string * string in
  now ← ask Time_Now;
  let expires := now + PasskeyLinkTTL in
  e ← ask (Db_CreatePasskeyLink hash (U_ID u) expires);
  match e with
  | Some e => Ret (inl e)
  | None =>
      _ ← auditf p (U_OrgID u) "user.passkey_link" "user" (U_ID u) [("email", U_Email u); ("expires_at", pretty expires)];
      Ret (inr (publicOrigin opts r +:+ "/#passkey-setup=" +:+ token, expires))
  end.

(** A new person, as the audit log keeps them. *)
Definition written (u : User) : list (string * string) :=
  let unless_empty name value := if bool_decide (value = "") then [] else [(name, value)] in
  [("id", U_ID u); ("org_id", U_OrgID u); ("email", U_Email u)] ++ unless_empty "name" (U_Name u) ++
  unless_empty "external_id" (U_ExternalID u) ++ [("role", U_Role u); ("created_at", pretty (U_CreatedAt u))].

(** What [addUser] answers once the row is there. *)
Definition user_added (r : request) (p : Principal) (orgID : string) (passkey : bool) (u : User) : P response :=
  _ ← auditf p orgID "user.create" "user" (U_ID u) (written u);
  if negb passkey then Ret ([], inr (StatusCreated, UserCreated u None))
  else or_fail r (issuePasskeyLink r p u) (λ link, Ret ([], inr (StatusCreated, UserCreated u (Some link)))).

(** [addUser], of the organisation, the address, the identity, the role and the way in. *)
Definition addUser (body : problem + (string * string * string * string * string)) : handler := λ r p,
  with_body body (λ '(org_id, email, ext, role, sign_in),
    let email := ToLower (TrimSpace email) in
    if bool_decide (email = "") then refuse (badRequest "'email' is required")
    else match orgToAdmin p org_id with
    | inl e => refuse e
    | inr orgID =>
        match newUserRole ext role (Unrestricted p) with
        | inl e => refuse (refuse_error e)
        | inr role =>
            guard_ (if bool_decide (role = RoleMember) then None else mayGrant role)
              (userID ← ask (New_ID "user");
               match newUserSignIn sign_in ext (Enabled providers) (Passkeys opts) with
               | inl e => refuse (refuse_error e)
               | inr signIn =>
                   let passkey := bool_decide (signIn = PasskeyProvider) in
                   vouched ← (if negb passkey then Ret None
                              else match passkeysOff with Some e => Ret (Some e) | None => mayVouchFor r p orgID email end);
                   guard_ vouched
                     (u ← ask (Db_AddUser userID orgID email (if passkey then PasskeyExternalID userID else ext) role);
                      match u with
                      | inl ErrUserExists =>
                          refuse (conflict "user_exists" (email +:+ " is already in this organisation; change their role with PATCH /control/v1/users/{id} or keera user role"))
                      | inl ErrExternalIDTaken => refuse (conflict "external_id_taken" "someone in this organisation already has that 'external_id'")
                      | inl e => failed r e
                      | inr u => user_added r p orgID passkey u
                      end)
               end)
        end
    end).

(** [listUsers]. *)
Definition listUsers : handler := λ r p,
  match scopeOrg p (r_query r "org_id") with
  | inl e => refuse e
  | inr orgID => or_fail r (ask (Db_ListUsers orgID)) (λ us, show [] (UserList us))
  end.

(** [userToAdminister]. *)
Definition userToAdminister (r : request) (p : Principal) (userID : string) (k : User → P response) : P response :=
  or_fail r (ask (Db_UserByID userID)) (λ u, guard_ (requireOwnerAdmin (request_id r) p (U_OrgID u)) (k u)).

(** [userToSwitch]. *)
Definition userToSwitch (r : request) (p : Principal) (userID verb : string) (k : User → P response) : P response :=
  userToAdminister r p userID (λ u,
    if bool_decide (U_ID u = P_UserID p) then refuse (forbid ("you cannot " +:+ verb +:+ " yourself"))
    else if bool_decide (U_Role u = RoleOperator) then refuse (forbidOperator (U_Email u))
    else k u).

(** [updateUser], of the role. *)
Definition updateUser (userID : string) (body : problem + string) : handler := λ r p,
  with_body body (λ role,
    if negb (Role_Valid role) then refuse (badRequest "'role' must be admin or member")
    else guard_ (mayGrant role)
      (userToAdminister r p userID (λ u,
         if bool_decide (U_Role u = RoleOperator) then refuse (forbidOperator (U_Email u))
         else if bool_decide (U_ID u = P_UserID p) && negb (bool_decide (role = P_Role p))
         then refuse (forbid "you cannot change your own role")
         else
           done_or_fail r (ask (Db_SetUserRole (writeOrg p) userID role))
             (_ ← deleteSessionsWhere (Of_user userID);
              _ ← auditf p (U_OrgID u) "user.set_role" "user" userID [("role", role)];
              show [] (RoleSet userID role))))).

(** [disableUser]. *)
Definition disableUser (userID : string) : handler := λ r p,
  userToSwitch r p userID "disable" (λ u,
    or_fail r (ask (Db_DisableUser (writeOrg p) (U_ID u))) (λ revoked,
      _ ← ask (Announce (U_OrgID u));
      _ ← auditf p (U_OrgID u) "user.disable" "user" (U_ID u) [("email", U_Email u); ("revoked_keys", pretty revoked)];
      show [] (UserDisabled (U_ID u) (U_Email u) revoked))).

(** [enableUser]. *)
Definition enableUser (userID : string) : handler := λ r p,
  userToSwitch r p userID "enable" (λ u,
    done_or_fail r (ask (Db_EnableUser (writeOrg p) (U_ID u)))
      (_ ← auditf p (U_OrgID u) "user.enable" "user" (U_ID u) [("email", U_Email u)];
       show [] (UserEnabled (U_ID u) (U_Email u)))).

(** *** Switching organisations *)

(** The loop over the memberships keeps the last that matches. *)
Definition membership_in (ms : list Membership) (orgID : string) : option Membership :=
  foldl (λ m n, if bool_decide (M_OrgID n = orgID) then Some n else m) None ms.

(** The end of [switchOrg], once the row to be in is known. *)
Definition switch_to (r : request) (p : Principal) (m : Membership) (cur target : User) : P response :=
  let was := U_Role target in
  let isOp := bool_decide (U_Role cur = RoleOperator) in
  let want := if isOp then RoleOperator else RoleMember in
  let continue (target : User) : P response :=
    moved ← (if bool_decide (Via p = MethodCLI) then (ask (Db_MoveCLIToken (CredentialHash p) (U_ID target)) : P (option db_error))
             else ask (Db_MoveSession (CredentialHash p) (U_ID target)));
    match moved with
    | Some ErrNotFound => refuse (unauthorized "unauthenticated" "this sign-in has expired; sign in again")
    | Some e => failed r e
    | None =>
        _ ← auditf ((bare (Via p) "") <| P_Email := U_Email target |> <| P_UserID := U_ID target |>) (U_OrgID target) "auth.switch_org" "user" (U_ID target)
              ([("role", U_Role target)] ++ (if M_Invited m then [("joined", "true")] else []) ++
               (if bool_decide (was = U_Role target) then [] else [("role_was", was)]) ++
               (if bool_decide (Via p = MethodCLI) then [("client", "command line")] else []));
        show (if bool_decide (Via p = MethodSession) then [rememberOrg opts (U_OrgID target)] else [])
          (Switched (U_OrgID target) (M_OrgName m) (U_Role target))
    end in
  if Bool.eqb isOp (bool_decide (U_Role target = RoleOperator)) then continue target
  else done_or_fail r (ask (Db_SetUserRole (U_OrgID target) (U_ID target) want)) (continue (target <| U_Role := want |>)).

(** [switchOrg], of the organisation. *)
Definition switchOrg (body : problem + string) : handler := λ r p,
  with_body body (λ org_id,
    if bool_decide (P_UserID p = "") || (len (CredentialHash p) =? 0)
    then refuse (badRequest "the operator key works in every organisation; name one with org_id on each request instead")
    else if bool_decide (org_id = "") then refuse (badRequest "'org_id' is required")
    else
      or_fail r (ask (Db_UserByID (P_UserID p))) (λ cur,
        or_fail r (ask (Db_Memberships (U_ExternalID cur) (U_Email cur) (vouchedByDirectory (U_ExternalID cur)))) (λ ms,
          match membership_in ms org_id with
          | None => refuse (invalid StatusNotFound "not_a_member" "you are not in that organisation; GET /control/v1/me lists the ones you are in")
          | Some m =>
              if M_Disabled m then refuse (forbid ("your access to " +:+ M_OrgName m +:+ " has been turned off; ask an administrator there"))
              else if bool_decide (M_OrgID m = U_OrgID cur) then show [] (Switched (U_OrgID cur) (M_OrgName m) (U_Role cur))
              else
                target ← (if M_Invited m then ask (Db_AcceptInvitation (M_OrgID m) (U_Email cur) (U_Name cur) (U_ExternalID cur))
                          else ask (Db_UserByID (M_UserID m)));
                match target : db_error + User with
                | inl ErrNotFound | inl ErrEmailTaken => refuse (conflict "invitation_gone" "that invitation is no longer there")
                | inl e => failed r e
                | inr target => switch_to r p m cur target
                end
          end))).

(** *** Passkeys *)

Definition withPasskeys (next : handler) : handler := λ r p, guard_ passkeysOff (next r p).
Definition withPasskeysSignedOut (next : request → P response) (r : request) : P response := guard_ passkeysOff (next r).

(** [passkeySignInOptions], of the flow and where to go. *)
Definition passkeySignInOptions (body : problem + (string * string)) (r : request) : P response :=
  with_json_body r body (λ '(flow, next),
    if negb (bool_decide (flow = "")) then
      f ← ask (Db_LoginFlowByState flow);
      match f with
      | inr f =>
          if bool_decide (F_Provider f = PasskeyProvider) then show [] (PasskeyRequest (F_State f) (F_Nonce f))
          else refuse (unauthorized "invalid_flow" "this sign-in link has expired or was already used")
      | inl _ => refuse (unauthorized "invalid_flow" "this sign-in link has expired or was already used")
      end
    else or_fail r (newPasskeyFlow no_cli (safeRedirect next)) (λ f, show [] (PasskeyRequest (F_State f) (F_Nonce f)))).

(** Why [checkPasskey] refused. *)
Inductive passkey_error := ErrPasskey | errUserDisabled | PasskeyStore (e : db_error).

Definition credentialOf (k : Passkey) : Credential :=
  {| Cr_ID := CredentialID k; Cr_PublicKey := PublicKey k; Cr_Algorithm := Algorithm k; Cr_SignCount := SignCount k |}.

(** [Assertion.OwnedBy]. *)
Definition OwnedBy (a : Assertion) (userID : string) : bool :=
  bool_decide (A_UserHandle a = "") || match unb64 (A_UserHandle a) with Some got => bool_decide (got = userID) | None => false end.

(** [checkPasskey]. *)
Definition checkPasskey (challenge : string) (a : Assertion) : P (passkey_error + (User * Passkey)) :=
  match unb64 (A_ID a) with
  | None => Ret (inl ErrPasskey)
  | Some cred =>
      if bool_decide (cred = "") then Ret (inl ErrPasskey)
      else
        k ← ask (Db_PasskeyByCredentialID cred);
        match k with
        | inl e => Ret (inl (PasskeyStore e))
        | inr k =>
            if negb (OwnedBy a (K_UserID k)) then Ret (inl ErrPasskey)
            else match VerifyAssertion challenge a (credentialOf k) with
            | None => Ret (inl ErrPasskey)
            | Some count =>
                u ← ask (Db_UserByID (K_UserID k));
                match u with
                | inl e => Ret (inl (PasskeyStore e))
                | inr u =>
                    if negb (IsPasskeyAccount (U_ExternalID u)) then Ret (inl ErrPasskey)
                    else if Disabled u then Ret (inl errUserDisabled)
                    else
                      e ← ask (Db_UsePasskey (K_ID k) count);
                      Ret (match e with
                           | Some ErrNotFound => inl ErrPasskey
                           | Some e => inl (PasskeyStore e)
                           | None => inr (u, k)
                           end)
                end
            end
        end
  end.

Definition passkeyRefused : string := "that passkey was not accepted; try again, or ask an administrator for a new set-up link".
Definition passkeyLinkGone : string :=
  "this set-up link has expired, was already used, or was replaced by a newer one; ask an administrator for a new one".
Definition passkeyStale : string := "this passkey request has expired; start again".

(** [passkeySignIn]. *)
Definition passkeySignIn (body : problem + (string * Assertion)) (r : request) : P response :=
  with_json_body r body (λ '(flow, credential),
    f ← ask (Db_TakeLoginFlow flow);
    match f with
    | inl _ => refuse (unauthorized "invalid_flow" "this sign-in has expired; start again")
    | inr f =>
        if negb (bool_decide (F_Provider f = PasskeyProvider)) then refuse (unauthorized "invalid_flow" "this sign-in has expired; start again")
        else
          checked ← checkPasskey (F_Nonce f) credential;
          match checked with
          | inl ErrPasskey | inl (PasskeyStore ErrNotFound) => refuse (unauthorized "passkey_refused" passkeyRefused)
          | inl errUserDisabled => refuse (forbid "your access to Keera has been turned off; ask an administrator of your organisation")
          | inl (PasskeyStore e) => failed r e
          | inr (u, k) =>
              or_fail r (syncRole opts u RoleMember) (λ u',
                or_fail r (signedIn opts u' (U_Role u) (CLI f) [("via", "passkey"); ("passkey", K_Name k)]) (λ session,
                  if CLI f then
                    to ← cliHandOver f u';
                    match to with
                    | inl e => Ret (session, inl (fail (request_id r) (failure_of e)))
                    | inr to => show session (GoTo to)
                    end
                  else show session (GoTo (if bool_decide (RedirectTo f = "") then "/" else RedirectTo f))))
          end
    end).

(** [registrationOptions]. *)
Definition registrationOptions (r : request) (u : User) : P response :=
  or_fail r (ask (Db_ListPasskeys (U_ID u))) (λ existing,
    challenge ← ask New_Token;
    id ← ask (New_ID "challenge");
    now ← ask Time_Now;
    done_or_fail r (ask (Db_CreatePasskeyChallenge id (U_ID u) challenge (now + PasskeyChallengeTTL)))
      (show [] (PasskeyCreation id (U_Email u) challenge (U_ID u) (map CredentialID existing)))).

(** [passkeySetupOptions], of the link's token. *)
Definition passkeySetupOptions (body : problem + string) (r : request) : P response :=
  with_json_body r body (λ token,
    u ← ask (Db_PasskeyLinkUser (Hash token));
    match u with
    | inl _ => refuse (unauthorized "invalid_link" passkeyLinkGone)
    | inr u =>
        if IsPasskeyAccount (U_ExternalID u) then registrationOptions r u
        else refuse (unauthorized "invalid_link" passkeyLinkGone)
    end).

(** What both ways of adding a passkey send: the challenge, a name, the browser's answer. *)
Definition registration : Type := string * string * string.

(** [verifyRegistration]. *)
Definition verifyRegistration (reg : registration) : P (problem + (string * Credential)) :=
  let '(challengeID, _, credential) := reg in
  taken ← ask (Db_TakePasskeyChallenge challengeID);
  Ret (match taken with
       | inl _ => inl (badRequest passkeyStale)
       | inr (userID, challenge) =>
           match VerifyRegistration challenge credential with
           | None => inl (badRequest "the browser's answer was not accepted; try again, in an up-to-date browser")
           | Some cred => inr (userID, cred)
           end
       end).

Definition passkey_exists : problem := conflict "passkey_exists" "that passkey is already registered".

(** [storePasskey]. *)
Definition storePasskey (r : request) (p : Principal) (u : User) (cred : Credential) (name via : string) : P (problem + Passkey) :=
  let name := if bool_decide (TrimSpace name = "") then "Passkey" else TrimSpace name in
  let name := if Z.of_nat passkeyNameMax <? rune_count name then first_runes passkeyNameMax name else name in
  id ← ask (New_ID "passkey");
  k ← ask (Db_AddPasskey {| K_ID := id; K_UserID := U_ID u; K_Name := name; CredentialID := Cr_ID cred; PublicKey := Cr_PublicKey cred;
                            Algorithm := Cr_Algorithm cred; SignCount := Cr_SignCount cred; K_CreatedAt := time_zero; LastUsedAt := None |});
  match k with
  | inl ErrPasskeyTaken => Ret (inl passkey_exists)
  | inl e => Ret (inl (fail (request_id r) (failure_of e)))
  | inr k =>
      _ ← auditf p (U_OrgID u) "passkey.create" "user" (U_ID u) [("passkey", K_ID k); ("name", K_Name k); ("via", via)];
      Ret (inr k)
  end.

(** [passkeySetup]. *)
Definition passkeySetup (body : problem + (registration * string)) (r : request) : P response :=
  with_json_body r body (λ '(reg, token),
    verified ← verifyRegistration reg;
    match verified with
    | inl e => refuse e
    | inr (userID, cred) =>
        known ← ask (Db_PasskeyByCredentialID (Cr_ID cred));
        match known with
        | inr _ => refuse passkey_exists
        | inl _ =>
            linkUser ← ask (Db_TakePasskeyLink (Hash token));
            match linkUser with
            | inl _ => refuse (unauthorized "invalid_link" passkeyLinkGone)
            | inr linkUser =>
                if negb (bool_decide (linkUser = userID)) then refuse (unauthorized "invalid_link" passkeyLinkGone)
                else
                  or_fail r (ask (Db_UserByID userID)) (λ u,
                    if Disabled u || negb (IsPasskeyAccount (U_ExternalID u)) then refuse (unauthorized "invalid_link" passkeyLinkGone)
                    else
                      stored ← storePasskey r (actorOf u) u cred reg.1.2 "set-up link";
                      match stored with
                      | inl e => refuse e
                      | inr _ =>
                          or_fail r (syncRole opts u RoleMember) (λ u,
                            or_fail r (startSession opts u) (λ session, show session (GoTo "/")))
                      end)
            end
        end
    end).

(** [ownPasskeyAccount]. *)
Definition ownPasskeyAccount (r : request) (p : Principal) (k : User → P response) : P response :=
  if bool_decide (P_UserID p = "") then refuse (forbid "the operator key is nobody, so it has no passkeys")
  else if negb (bool_decide (Via p = MethodSession)) then refuse (forbid "add a passkey in the panel, not from the command line")
  else
    now ← ask Time_Now;
    if passkeyStepUp <? now - SignedInAt p then
      refuse {| p_status := StatusForbidden; p_type := "permission_error"; p_code := "sign_in_again";
                p_message := "sign out and in again to add a passkey; it needs a sign-in from the last 15 minutes" |}
    else
      or_fail r (ask (Db_UserByID (P_UserID p))) (λ u,
        if IsPasskeyAccount (U_ExternalID u) then k u
        else refuse (forbid "you sign in through your identity provider, so your account has no passkeys")).

Definition ownPasskeyOptions : handler := λ r p, ownPasskeyAccount r p (registrationOptions r).

(** [addOwnPasskey]. *)
Definition addOwnPasskey (body : problem + registration) : handler := λ r p,
  with_body body (λ reg,
    ownPasskeyAccount r p (λ u,
      verified ← verifyRegistration reg;
      match verified with
      | inl e => refuse e
      | inr (userID, cred) =>
          if negb (bool_decide (userID = U_ID u)) then refuse (badRequest passkeyStale)
          else
            stored ← storePasskey r p u cred reg.1.2 "signed in";
            match stored with
            | inl e => refuse e
            | inr k => Ret ([], inr (StatusCreated, PasskeyStored k))
            end
      end)).

(** [listPasskeys]. *)
Definition listPasskeys : handler := λ r p,
  let asked := r_query r "user_id" in
  let userID := if bool_decide (asked = "") then P_UserID p else asked in
  let list_ := or_fail r (ask (Db_ListPasskeys userID)) (λ ks, show [] (PasskeyList ks)) in
  if bool_decide (userID = "") then refuse (badRequest "pass user_id: the operator key has no passkeys of its own")
  else if bool_decide (userID = P_UserID p) then list_
  else userToAdminister r p userID (λ _, list_).

(** [deletePasskey]. *)
Definition deletePasskey (id : string) : handler := λ r p,
  or_fail r (ask (Db_PasskeyByID id)) (λ k,
    or_fail r (ask (Db_UserByID (K_UserID k))) (λ owner,
      let own := bool_decide (K_UserID k = P_UserID p) in
      guard_ (if own then None else requireOwnerAdmin (request_id r) p (U_OrgID owner))
        (e ← ask (Db_DeletePasskey (K_ID k) own);
         match e with
         | Some ErrLastPasskey =>
             refuse (conflict "last_passkey" "this is your only passkey; add another one first, or ask an administrator to remove it")
         | Some e => failed r e
         | None =>
             _ ← (if own then Ret None else deleteSessionsWhere (Of_user (U_ID owner)));
             _ ← auditf p (U_OrgID owner) "passkey.delete" "user" (U_ID owner) [("passkey", K_ID k); ("name", K_Name k); ("email", U_Email owner)];
             show [] (PasskeyDeleted (K_ID k))
         end))).

(** What [MakePasskeyAccount] failed with: a directory account, or the store's error. *)
Definition MakePasskeyAccount (userID ext : string) : P (option (option db_error)) :=
  e ← ask (Db_MarkPasskeyAccount userID ext);
  match e with
  | Some ErrNotFound =>
      u ← ask (Db_UserByID userID);
      Ret (Some (match u with inl e => Some e | inr _ => None end))
  | Some e => Ret (Some (Some e))
  | None => Ret None
  end.

(** [issuePasskeyLinkRoute]. *)
Definition issuePasskeyLinkRoute (userID : string) : handler := λ r p,
  userToAdminister r p userID (λ u,
    if bool_decide (U_Role u = RoleOperator) then
      refuse (forbid (U_Email u +:+ " is an operator, which comes from the configuration; a passkey account cannot hold that role"))
    else if Disabled u then refuse (conflict "user_disabled" (U_Email u +:+ " is disabled; enable them first"))
    else
      vouched ← mayVouchFor r p (U_OrgID u) (U_Email u);
      guard_ vouched
        (made ← MakePasskeyAccount (U_ID u) (PasskeyExternalID (U_ID u));
         match made with
         | Some None =>
             refuse (conflict "directory_account" (U_Email u +:+ " signs in through an identity provider, and a directory account does not get passkeys: leaving the directory has to lock them out"))
         | Some (Some e) => failed r e
         | None => or_fail r (issuePasskeyLink r p u) (λ link, Ret ([], inr (StatusCreated, LinkIssued link)))
         end)).

(** ** The routes *)

(** The authenticated routes about people, with what they read of the body and the path. *)
Inductive route :=
  | Logout
  | SwitchOrg (body : problem + string)
  | AddUser_ (body : problem + (string * string * string * string * string))
  | ListUsers_
  | UpdateUser (id : string) (body : problem + string)
  | DisableUser_ (id : string)
  | EnableUser_ (id : string)
  | PasskeyLink (id : string)
  | ListPasskeys_
  | OwnPasskeyOptions
  | AddOwnPasskey (body : problem + registration)
  | DeletePasskey_ (id : string)
  | Unrelated.

(** The handler of a route; the other routes leave these rows alone. *)
Definition handler_of (rt : route) : handler :=
  match rt with
  | Logout => logout opts
  | SwitchOrg body => switchOrg body
  | AddUser_ body => addUser body
  | ListUsers_ => listUsers
  | UpdateUser id body => updateUser id body
  | DisableUser_ id => disableUser id
  | EnableUser_ id => enableUser id
  | PasskeyLink id => withPasskeys (issuePasskeyLinkRoute id)
  | ListPasskeys_ => withPasskeys listPasskeys
  | OwnPasskeyOptions => withPasskeys ownPasskeyOptions
  | AddOwnPasskey body => withPasskeys (addOwnPasskey body)
  | DeletePasskey_ id => withPasskeys (deletePasskey id)
  | Unrelated => λ _ _, show [] Other
  end.

(** The routes of [mux] that sign someone in, and the authenticated ones. *)
Inductive entry :=
  | Get_login
  | Get_callback
  | Post_local (body : problem + string)
  | Post_cli_token (body : problem + (string * string * string))
  | Post_password (body : problem + (string * string * string * string * string))
  | Post_passkey_options (body : problem + (string * string))
  | Post_passkey_sign_in (body : problem + (string * Assertion))
  | Post_setup_options (body : problem + string)
  | Post_setup (body : problem + (registration * string))
  | Get_signup
  | Post_signup (body : problem + (bool * string))
  | Get_metrics
  | Authenticated (rt : route)
  | Service.

Definition signInRPM : Z := 10.
Definition flowRPM : Z := 30.
Definition signInThrottled : string := "too many sign-in attempts from this address; wait a moment and try again".

(** [public]. *)
Definition public (name : string) (rpm : Z) (h : request → P response) (r : request) : P response := throttle opts name rpm signInThrottled h r.

Definition program (e : entry) (r : request) : P response :=
  match e with
  | Get_login => public "login" flowRPM (login opts) r
  | Get_callback => public "callback" flowRPM (callback opts) r
  | Post_local body => public "local" signInRPM (λ r, localLogin opts r body) r
  | Post_cli_token body => public "cli_token" signInRPM (λ r, cliToken opts r body) r
  | Post_password body => public "password" signInRPM (λ r, passwordSignIn opts r body) r
  | Post_passkey_options body => public "passkey_options" flowRPM (withPasskeysSignedOut (passkeySignInOptions body)) r
  | Post_passkey_sign_in body => public "passkey_sign_in" signInRPM (withPasskeysSignedOut (passkeySignIn body)) r
  | Post_setup_options body => public "passkey_setup_options" signInRPM (withPasskeysSignedOut (passkeySetupOptions body)) r
  | Post_setup body => public "passkey_setup" signInRPM (withPasskeysSignedOut (passkeySetup body)) r
  | Get_signup => public "signup_info" signInRPM signupInfo r
  | Post_signup body => public "signup" signInRPM (λ r, completeSignup opts r body) r
  | Get_metrics => metricsRoute opts r
  | Authenticated rt => authenticated opts (handler_of rt) r
  | Service => serviceAuthenticated opts (λ _ _, show [] Other) r
  end.
End programs.
