(* ===== verification/PeopleRuns.v ===== *)
(** * What the programs about people may do

    Theorems about every run of the programs of SignIn, Login and People,
    whatever the database and the directories answer and wherever a replica
    dies. A run that makes someone an operator has seen why: a directory that
    said so, a row or a sign-up that said so before, or the operator key. A
    run that signs someone in has seen proof of who they are. *)
From S2P Require Import Prelude GoTime Tenancy Text Keys Hosting Egress Secret Control Principals Accounts SignIn Login People.
Open Scope go_scope.

(** ** What a run has seen *)

Abbreviation history := (list (event (R := answer))).

(** The identity a row had when it was read or written, by its id. *)
Definition idents_of (e : event (R := answer)) : list (string * string) :=
  let '(existT c x) := e in
  match c as c return answer c → list (string * string) with
  | Db_LookupSession _ => λ x, match x with inr (_, _, u, _) => [(U_ID u, U_ExternalID u)] | inl _ => [] end
  | Db_LookupCLIToken _ => λ x, match x with inr (u, _) => [(U_ID u, U_ExternalID u)] | inl _ => [] end
  | Db_UserByID _ => λ x, match x with inr u => [(U_ID u, U_ExternalID u)] | inl _ => [] end
  | Db_LinkedUser l | Db_InsertLink _ l => λ x, match x with inr u => [(U_ID u, L_ExternalID l)] | inl _ => [] end
  | Db_AcceptInvitation _ _ _ ext => λ x, match x with inr u => [(U_ID u, ext)] | inl _ => [] end
  | Db_JoinInvitation _ => λ x, match x with inr (su, u) => [(U_ID u, Su_ExternalID su)] | inl _ => [] end
  | Db_Memberships ext _ invitations => λ x,
      match x with inr ms => map (λ m, (M_UserID m, ext)) (List.filter (λ m, negb (invitations && M_Invited m)) ms) | inl _ => [] end
  | _ => λ _, []
  end x.

(** The rows read by their id. *)
Definition by_id_of (e : event (R := answer)) : list (string * User) :=
  let '(existT c x) := e in
  match c as c return answer c → list (string * User) with
  | Db_UserByID id => λ x, match x with inr u => [(id, u)] | inl _ => [] end
  | _ => λ _, []
  end x.

(** The sign-ups used. *)
Definition signups_of (e : event (R := answer)) : list Signup :=
  let '(existT c x) := e in
  match c as c return answer c → list Signup with
  | Db_JoinInvitation _ => λ x, match x with inr (su, _) => [su] | inl _ => [] end
  | _ => λ _, []
  end x.

(** The rows [LinkUser] found or made, by the identity it was asked for. *)
Definition linked_of (e : event (R := answer)) : list (string * User) :=
  let '(existT c x) := e in
  match c as c return answer c → list (string * User) with
  | Db_LinkedUser l | Db_InsertLink _ l => λ x, match x with inr u => [(L_ExternalID l, u)] | inl _ => [] end
  | _ => λ _, []
  end x.

(** The identities a directory vouched for, to sign someone in. *)
Definition vouched_of (e : event (R := answer)) : list string :=
  let '(existT c x) := e in
  match c as c return answer c → list string with
  | Idp_Exchange _ _ _ | Ldap_Bind _ _ _ => λ x, match x with inr i => [ExternalID i] | inl _ => [] end
  | _ => λ _, []
  end x.

(** The people a sign-up made or let join, by the hash of its token. *)
Definition joined_of (e : event (R := answer)) : list (string * string) :=
  let '(existT c x) := e in
  match c as c return answer c → list (string * string) with
  | Db_JoinInvitation hash => λ x, match x with inr (_, u) => [(hash, U_ID u)] | inl _ => [] end
  | Db_SignUp hash _ => λ x, match x with (Some _, inr (_, u)) => [(hash, U_ID u)] | _ => [] end
  | _ => λ _, []
  end x.

(** What was single-use and is used up: set-up links, codes of the command
    line, and flows; and the passkeys read and used. *)
Definition links_of (e : event (R := answer)) : list (string * string) :=
  let '(existT c x) := e in
  match c as c return answer c → list (string * string) with
  | Db_TakePasskeyLink hash => λ x, match x with inr id => [(hash, id)] | inl _ => [] end
  | _ => λ _, []
  end x.

Definition codes_of (e : event (R := answer)) : list (string * string * string) :=
  let '(existT c x) := e in
  match c as c return answer c → list (string * string * string) with
  | Db_TakeCLICode hash => λ x, match x with inr (id, challenge) => [(hash, id, challenge)] | inl _ => [] end
  | _ => λ _, []
  end x.

Definition flows_of (e : event (R := answer)) : list LoginFlow :=
  let '(existT c x) := e in
  match c as c return answer c → list LoginFlow with
  | Db_TakeLoginFlow _ => λ x, match x with inr f => [f] | inl _ => [] end
  | _ => λ _, []
  end x.

Definition passkeys_of (e : event (R := answer)) : list Passkey :=
  let '(existT c x) := e in
  match c as c return answer c → list Passkey with
  | Db_PasskeyByCredentialID _ => λ x, match x with inr k => [k] | inl _ => [] end
  | _ => λ _, []
  end x.

Definition uses_of (e : event (R := answer)) : list (string * Z) :=
  let '(existT c x) := e in
  match c as c return answer c → list (string * Z) with
  | Db_UsePasskey id count => λ x, match x with None => [(id, count)] | Some _ => [] end
  | _ => λ _, []
  end x.

Inductive knows (h : history) : string → string → Prop :=
  | knows_row id ext : (id, ext) ∈ flat_map idents_of h → knows h id ext
  | knows_by_id id u ext : (id, u) ∈ flat_map by_id_of h → knows h id ext → knows h (U_ID u) ext.

Lemma elem_of_flat_map {A B} (f : A → list B) l y : y ∈ flat_map f l ↔ ∃ x, x ∈ l ∧ y ∈ f x.
Proof. rewrite list_elem_of_In, in_flat_map. setoid_rewrite list_elem_of_In. done. Qed.

Lemma seen_more {B} (f : event (R := answer) → list B) (h l : history) x : x ∈ flat_map f h → x ∈ flat_map f (h ++ l).
Proof. rewrite flat_map_app, elem_of_app. by left. Qed.

Lemma seen_last {B} (f : event (R := answer) → list B) (h : history) e x : x ∈ f e → x ∈ flat_map f (h ++ [e]).
Proof. rewrite flat_map_app, elem_of_app. cbn. rewrite app_nil_r. by right. Qed.

Lemma knows_more h l id ext : knows h id ext → knows (h ++ l) id ext.
Proof.
  induction 1 as [id ext Hk|id u ext Hu _ IH]; [apply knows_row|apply (knows_by_id _ id)];
    eauto using seen_more.
Qed.

Section runs.
Context `{Unicode} `{Folding} `{SHA256} `{GCM} `{Addresses} `{Dialing} `{Web}.
Context (opts : Options).

(** The identities a directory's answer makes operators. *)
Definition role_of (name : string) (i : Identity) : string :=
  match ByName (Providers opts) name with Some p => RoleFor (pv_Mapping p) (I_Email i) (I_Groups i) | None => "" end.

Definition operator_identity (name : string) (i : Identity) : list string :=
  if bool_decide (role_of name i = RoleOperator) then [ExternalID i] else [].

Definition granted_of (e : event (R := answer)) : list string :=
  let '(existT c x) := e in
  match c as c return answer c → list string with
  | Idp_Exchange name _ _ => λ x, match x with inr i => operator_identity name i | inl _ => [] end
  | Idp_Recheck name _ => λ x, match x with inr (i, true) => operator_identity name i | _ => [] end
  | Ldap_Bind name _ _ => λ x, match x with inr i => operator_identity name i | inl _ => [] end
  | _ => λ _, []
  end x.

(** Why an identity may be an operator's; [by_key] when the operator key was presented. *)
Inductive grants (by_key : Prop) (h : history) : string → Prop :=
  | by_directory ext : ext ∈ flat_map granted_of h → grants by_key h ext
  | by_row id u : (id, u) ∈ flat_map by_id_of h → U_Role u = RoleOperator → grants by_key h (U_ExternalID u)
  | by_signup su : su ∈ flat_map signups_of h → Su_Role su = RoleOperator → grants by_key h (Su_ExternalID su)
  | by_link asked u : (asked, u) ∈ flat_map linked_of h → grants by_key h asked → grants by_key h (U_ExternalID u)
  | by_operator_key : by_key → grants by_key h operatorKeyExternalID.

Lemma grants_more by_key h l ext : grants by_key h ext → grants by_key (h ++ l) ext.
Proof.
  induction 1 as [ext Hd|id u Hu Ho|su Hs Ho|asked u Hu _ IH|Hk]; eauto using by_directory, by_row, by_signup, by_link, by_operator_key, seen_more.
Qed.

(** Why someone is signed in: a directory vouched for the identity of their
    row; the operator key was presented; a passkey of theirs signed the
    challenge of a flow that is used up, and its counter moved on; they hold
    the token of a sign-up that is used up ([cookie]), or of a set-up link. *)
Inductive proven (by_key : Prop) (cookie : option string) (h : history) (id : string) : Prop :=
  | with_directory ext : ext ∈ flat_map vouched_of h → knows h id ext → proven by_key cookie h id
  | with_operator_key : by_key → knows h id operatorKeyExternalID → proven by_key cookie h id
  | with_passkey f k a count u : f ∈ flat_map flows_of h → F_Provider f = PasskeyProvider → k ∈ flat_map passkeys_of h →
      VerifyAssertion (F_Nonce f) a (credentialOf k) = Some count → (K_ID k, count) ∈ flat_map uses_of h →
      (K_UserID k, u) ∈ flat_map by_id_of h → id = U_ID u → proven by_key cookie h id
  | with_signup v : cookie = Some v → (Hash v, id) ∈ flat_map joined_of h → proven by_key cookie h id
  | with_link token userID u : (Hash token, userID) ∈ flat_map links_of h → (userID, u) ∈ flat_map by_id_of h → id = U_ID u → proven by_key cookie h id.

Lemma proven_more by_key cookie h l id : proven by_key cookie h id → proven by_key cookie (h ++ l) id.
Proof.
  destruct 1; [eapply with_directory|eapply with_operator_key|eapply with_passkey|eapply with_signup|eapply with_link];
    eauto using seen_more, knows_more.
Qed.

(** Why a command line gets its token: it presented the code of a finished
    sign-in, with the verifier whose challenge started it. *)
Definition redeemed (h : history) (id : string) : Prop :=
  ∃ code verifier userID u, (Hash code, userID, s256 verifier) ∈ flat_map codes_of h ∧ (userID, u) ∈ flat_map by_id_of h ∧ id = U_ID u.

Lemma redeemed_more h l id : redeemed h id → redeemed (h ++ l) id.
Proof. intros (code & verifier & userID & u & ? & ? & ?). exists code, verifier, userID, u. eauto using seen_more. Qed.

(** What a call may do: it makes no operator without knowing why, and signs
    nobody in without knowing who they are. *)
Definition careful (by_key : Prop) (cookie : option string) (h : history) (c : call) : Prop :=
  match c with
  | Db_CreateSession _ id _ _ | Db_CreateCLICode _ id _ _ => proven by_key cookie h id
  | Db_CreateCLIToken _ id _ => redeemed h id
  | Db_SetUserRole _ id role => role = RoleOperator → ∃ ext, grants by_key h ext ∧ knows h id ext
  | Db_InsertLink _ l => L_Role l = RoleOperator → grants by_key h (L_ExternalID l)
  | Db_AddUser _ _ _ _ role => role ≠ RoleOperator
  | Db_CreateSignup _ su _ => Su_Role su = RoleOperator → grants by_key h (Su_ExternalID su)
  | _ => True
  end.

(** A person may be made an operator. *)
Definition may_operate (by_key : Prop) (h : history) (id : string) : Prop := ∃ ext, grants by_key h ext ∧ knows h id ext.

Lemma may_operate_more by_key h l id : may_operate by_key h id → may_operate by_key (h ++ l) id.
Proof. intros (ext & ? & ?). exists ext. eauto using grants_more, knows_more. Qed.

Context (by_key : Prop) (cookie : option string).

Abbreviation calm h p := (always (careful by_key cookie) h p (λ _ _, True)).

Lemma always_seq {A B} h (p : prog answer A) (f : A → prog answer B) Q :
  calm h p → (∀ l a, always (careful by_key cookie) (h ++ l) (f a) Q) → always (careful by_key cookie) h (p ≫= f) Q.
Proof. intros Hp Hf. by eapply always_cut. Qed.

Lemma calm_auditf h p orgID action target id detail : calm h (auditf p orgID action target id detail).
Proof. split; [exact I|]. done. Qed.

(** Steps through a program whose calls are fine whatever was seen. *)
Ltac calm_step :=
  lazymatch goal with
  | |- always _ _ (Ret _) _ => exact I
  | |- always _ _ (ask _) _ => split; [try exact I|intros ?; exact I]
  | |- always _ _ (auditf _ _ _ _ _ _) _ => apply calm_auditf
  | |- always _ _ (ask _ ≫= _) _ => apply always_ask; [try exact I|intros ?]
  | |- always _ _ (mbind _ (Ret _)) _ => apply always_bind; cbn [always]; cbv beta
  | |- always _ _ (mbind _ _) _ => apply always_seq; [|intros ? ?]
  | |- always _ _ (match ?x with _ => _ end) _ => destruct x
  | |- always _ _ (let '_ := ?x in _) _ => destruct x
  end.
Ltac calm_walk := repeat (calm_step; cbv beta); try exact I.

Lemma calm_directoryOrg h email : calm h (directoryOrg opts email).
Proof. unfold directoryOrg. calm_walk. Qed.

(** The row of the same person, as what a program returns of it. *)
Definition same_person (u v : User) : Prop := U_ID v = U_ID u ∧ U_ExternalID v = U_ExternalID u.

Lemma syncRole_runs h u role : (role = RoleOperator → may_operate by_key h (U_ID u)) →
  always (careful by_key cookie) h (syncRole opts u role) (λ _ v, match v with inr v => same_person u v | inl _ => True end).
Proof.
  intros Hr. unfold syncRole. destruct (roleAtSignIn _ _ _) as [want change] eqn:Ew. destruct change; [|by split]. cbn [negb].
  assert (want = role) as ->.
  { unfold roleAtSignIn in Ew. by destruct (_ && _); injection Ew as <- ?. }
  apply (always_cut _ _ _ _ (λ h' w, match w with inr (Some w) => w = RoleOperator → role = RoleOperator | _ => True end)).
  - destruct (decide (role = RoleOperator)) as [Ho|Ho]; [rewrite bool_decide_eq_true_2 by done; exact (λ _, Ho)|].
    rewrite bool_decide_eq_false_2 by done. apply always_seq; [apply calm_directoryOrg|]. intros l [e|home]; [exact I|].
    case_bool_decide; [exact (λ E, E)|]. destruct (negb _); [exact I|]. intro E. discriminate E.
  - intros l [e|[w|]] Hw; [exact I| |by split]. apply always_ask; [|intros [e|]; by split]. intros Ho. apply may_operate_more. auto.
Qed.

Lemma calm_syncRole h u role : (role = RoleOperator → may_operate by_key h (U_ID u)) → calm h (syncRole opts u role).
Proof. intros Hr. eapply always_mono; [|by apply syncRole_runs]. done. Qed.

Lemma calm_each_ok {A} (f : A → prog answer (option db_error)) l : ∀ h,
  (∀ l' x, x ∈ l → calm (h ++ l') (f x)) → calm h (each_ok f l).
Proof.
  induction l as [|x l IH]; intros h Hf; cbn [each_ok]; [exact I|].
  apply always_seq; [rewrite <- (app_nil_r h); apply Hf; left|]. intros l1 [e|]; [exact I|].
  apply IH. intros l2 y Hy. rewrite <- app_assoc. apply Hf. by right.
Qed.

Lemma calm_syncOtherRoles h u role : (role = RoleOperator → grants by_key h (U_ExternalID u)) → calm h (syncOtherRoles opts u role).
Proof.
  intros Hr. unfold syncOtherRoles. case_bool_decide; [exact I|]. apply always_ask; [exact I|]. intros [e|ms]; [exact I|].
  apply calm_each_ok. intros l m Hm. case_bool_decide; [exact I|]. apply always_seq.
  - apply calm_syncRole. intros Ho. apply may_operate_more. exists (U_ExternalID u). split; [by apply grants_more, Hr|].
    apply knows_row, seen_last. cbn. apply list_elem_of_In, in_map_iff. exists m. split; [done|]. apply filter_In.
    split; [by apply list_elem_of_In|done].
  - intros l2 [e|other]; [exact I|]. destruct (negb _); [|exact I]. apply always_seq; [apply calm_auditf|done].
Qed.

Lemma calm_directoryFailed h u refused : calm h (directoryFailed u refused).
Proof. unfold directoryFailed. destruct refused; calm_walk. Qed.

Lemma calm_sealRefreshToken h ext t : calm h (sealRefreshToken opts ext t).
Proof. unfold sealRefreshToken. calm_walk. Qed.

Lemma applyIdentity_runs h p u i :
  (RoleFor (pv_Mapping p) (I_Email i) (I_Groups i) = RoleOperator → grants by_key h (U_ExternalID u)) →
  knows h (U_ID u) (U_ExternalID u) →
  always (careful by_key cookie) h (applyIdentity opts p u i) (λ _ '(v, _), same_person u v).
Proof.
  intros Hg Hk. unfold applyIdentity. cbv zeta. apply (always_cut _ _ _ _ (λ _ v, same_person u v)).
  { case_bool_decide; [by split|]. apply always_ask; [exact I|]. intros [e|]; by split. }
  intros l v (Hid & Hext). eapply always_cut.
  - apply syncRole_runs. intros Ho. exists (U_ExternalID u). rewrite Hid. split; [by apply grants_more, Hg|by apply knows_more].
  - cbv beta. intros l2 [e|w] Hw; [by split|]. destruct Hw as (Hid2 & Hext2). apply always_seq.
    + apply calm_syncOtherRoles. intros Ho. rewrite Hext2, Hext. by apply grants_more, grants_more, Hg.
    + intros l3 _. apply always_seq; [destruct (negb _); [apply calm_auditf|exact I]|]. intros l4 _. split; congruence.
Qed.

Lemma checkDirectory_runs h u d : knows h (U_ID u) (U_ExternalID u) →
  always (careful by_key cookie) h (checkDirectory opts u d) (λ _ '(v, _), same_person u v).
Proof.
  intros Hk. unfold checkDirectory. apply always_ask; [exact I|]. intros now. destruct (negb (Due _ _ _)); [by split|].
  destruct (directoryOf _ _) as [p|] eqn:Hp; [|by split]. apply always_ask; [exact I|].
  intros [e|[sealed|]]; [by split| |by split]. destruct (Open _ _ _) as [e|token].
  { apply always_seq; [apply calm_directoryFailed|]. by split. }
  apply always_ask; [exact I|]. intros [e|(i & fresh)].
  { apply always_seq; [apply calm_directoryFailed|]. by split. }
  destruct (fresh && _) eqn:Hf; [apply always_seq; [apply calm_directoryFailed|by split]|].
  apply always_seq; [apply calm_sealRefreshToken|]. intros l sealed'. apply always_ask; [exact I|]. intros recorded.
  destruct fresh; [|by split]. cbn [negb]. apply andb_false_iff in Hf as [Hf|Hf]; [done|]. apply negb_false_iff, bool_decide_eq_true in Hf.
  apply applyIdentity_runs; [|by repeat apply knows_more].
  intros Ho. do 2 apply grants_more. apply by_directory, seen_last. cbn. unfold operator_identity, role_of.
  assert (ByName (Providers opts) (pv_Name p) = Some p) as ->.
  { unfold directoryOf in Hp. destruct (cut_byte _ _) as [[name ?] []]; [|done]. assert (pv_Name p = name) as ->; [|done].
    apply List.find_some in Hp as (_ & Hb). by apply bool_decide_eq_true in Hb. }
  rewrite bool_decide_eq_true_2 by done. rewrite Hf. by left.
Qed.

Lemma principal_runs h r : calm h (principal opts r).
Proof.
  unfold principal, cliPrincipal, sessionPrincipal, rowInRequestedOrg. destruct (FromHeader _) as [presented|].
  - destruct (matchesOperatorKey _ _); [exact I|]. destruct (has_prefix _ _); [|exact I].
    apply always_ask; [exact I|]. intros [e|(u & d)]; [exact I|]. apply always_seq.
    { eapply always_mono; [|apply checkDirectory_runs, knows_row, seen_last; by left]. done. }
    intros l [v ok]. calm_walk.
  - destruct (c_session r) as [value|]; [|exact I]. case_bool_decide; [exact I|].
    apply always_ask; [exact I|]. intros [e|[[[csrf created] u] d]]; [exact I|]. apply always_seq.
    { eapply always_mono; [|apply checkDirectory_runs, knows_row, seen_last; by left]. done. }
    intros l [v ok]. exact I.
Qed.

(** *** Signing in *)

Ltac calm_unfold :=
  progress unfold or_fail, done_or_fail, with_body, with_json_body, guard_, refuse, failed, show, redirect, signInFailed, newSecret, rememberDirectory.

Ltac calm_all := repeat first [calm_step; cbv beta | calm_unfold; cbv beta | solve [auto with calm]]; try exact I.

Create HintDb calm.
#[local] Hint Resolve calm_auditf calm_directoryOrg calm_directoryFailed calm_sealRefreshToken principal_runs : calm.

Ltac proven_before := solve [repeat first [assumption | apply proven_more]].
#[local] Hint Extern 2 (proven _ _ _ _) =>
  first [proven_before | match goal with E : U_ID ?v = U_ID _ |- proven _ _ _ (U_ID ?v) => rewrite E; proven_before end] : calm.
#[local] Hint Extern 2 (redeemed _ _) => solve [repeat first [assumption | apply redeemed_more]] : calm.
#[local] Hint Extern 1 (careful _ _ _ _) => progress cbn [careful] : calm.

Lemma calm_signInTTL h u : calm h (signInTTL opts u).
Proof. unfold signInTTL. calm_all. Qed.
#[local] Hint Resolve calm_signInTTL : calm.

Lemma calm_startSession h u : proven by_key cookie h (U_ID u) → calm h (startSession opts u).
Proof. intros Hp. unfold startSession. calm_all. Qed.
#[local] Hint Resolve calm_startSession : calm.

Lemma calm_signedIn h u was cli entry : proven by_key cookie h (U_ID u) → calm h (signedIn opts u was cli entry).
Proof. intros Hp. unfold signedIn. calm_all. Qed.

Lemma calm_cliHandOver h f u : proven by_key cookie h (U_ID u) → calm h (cliHandOver f u).
Proof. intros Hp. unfold cliHandOver. calm_all. Qed.

Lemma calm_newPasskeyFlow h cli next : calm h (newPasskeyFlow cli next).
Proof. unfold newPasskeyFlow. calm_all. Qed.

Lemma calm_deleteSessionsWhere h who : calm h (deleteSessionsWhere who).
Proof. unfold deleteSessionsWhere, sign_in_tables. cbv beta iota fix. calm_all. Qed.

Lemma calm_providerOf h u : calm h (providerOf opts u).
Proof. unfold providerOf. calm_all. Qed.
#[local] Hint Resolve calm_signedIn calm_cliHandOver calm_newPasskeyFlow calm_deleteSessionsWhere calm_providerOf : calm.

Lemma calm_sameIdentity h i : calm h (sameIdentity opts i).
Proof. unfold sameIdentity. calm_all. Qed.
#[local] Hint Resolve calm_sameIdentity : calm.

Lemma calm_orgFor h r p i : calm h (orgFor opts r p i).
Proof. unfold orgFor. calm_all. Qed.

Lemma calm_operatorKeyOrg h : calm h operatorKeyOrg.
Proof. unfold operatorKeyOrg. calm_all. Qed.
#[local] Hint Resolve calm_orgFor calm_operatorKeyOrg : calm.

(** The row a sign-in is linked to. *)
Definition linked (h : history) (ext : string) (u : User) : Prop := knows h (U_ID u) ext ∧ (grants by_key h ext → grants by_key h (U_ExternalID u)).

Lemma LinkUser_runs h newID l : (L_Role l = RoleOperator → grants by_key h (L_ExternalID l)) →
  always (careful by_key cookie) h (LinkUser newID l) (λ h' u, match u with inr u => linked h' (L_ExternalID l) u | inl _ => True end).
Proof.
  intros Hl. unfold LinkUser. apply always_ask; [exact I|]. intros [e|u].
  - destruct e; try exact I. apply always_ask; [intros Ho; by apply grants_more, Hl|].
    intros [[]|u]; try exact I. split; [apply knows_row, seen_last; by left|]. apply by_link, seen_last. by left.
  - assert (linked (h ++ [answered (R := answer) (Db_LinkedUser l) (inr u)]) (L_ExternalID l) u) as (Hk & Hg).
    { split; [apply knows_row, seen_last; by left|]. apply by_link, seen_last. by left. }
    destruct (_ || _); [|done]. apply always_ask; [exact I|]. intros [e|]; [exact I|]. split; [by apply knows_more|].
    cbn. apply by_link, seen_more, seen_last. by left.
Qed.

Lemma linkIdentity_runs h p i orgID :
  (RoleFor (pv_Mapping p) (I_Email i) (I_Groups i) = RoleOperator → grants by_key h (ExternalID i)) →
  always (careful by_key cookie) h (linkIdentity opts p i orgID)
    (λ h' x, match x with inr (u, _) => knows h' (U_ID u) (ExternalID i) | inl _ => True end).
Proof.
  intros Hg. unfold linkIdentity. cbv zeta. apply always_ask; [exact I|]. intros id.
  eapply always_cut; [apply LinkUser_runs; intros Ho; by apply grants_more, Hg|]. cbn [L_ExternalID]. intros l [e|u] Hu; [by destruct e|].
  destruct Hu as (Hk & Hl). destruct (Disabled u); [exact I|]. eapply always_cut.
  - apply syncRole_runs. intros Ho. exists (ExternalID i). split; [by do 2 apply grants_more; apply Hg|done].
  - cbv beta. intros l2 [e|v] Hv; [exact I|]. destruct Hv as (Hid & Hext). apply always_seq.
    + apply calm_syncOtherRoles. intros Ho. rewrite Hext. apply grants_more, Hl. by do 2 apply grants_more; apply Hg.
    + intros l3 [e|]; [exact I|]. cbn [always]. rewrite Hid. by do 2 apply knows_more.
Qed.

(** An identity a directory just vouched for. *)
Definition vouched (h : history) (p : provider) (i : Identity) : Prop :=
  ExternalID i ∈ flat_map vouched_of h ∧ (RoleFor (pv_Mapping p) (I_Email i) (I_Groups i) = RoleOperator → grants by_key h (ExternalID i)).

Lemma vouched_more h l p i : vouched h p i → vouched (h ++ l) p i.
Proof. intros (? & Hg). split; [by apply seen_more|]. intros Ho. by apply grants_more, Hg. Qed.

Lemma calm_callback_signed_in h r cookies p f i orgID : vouched h p i → calm h (callback_signed_in opts r cookies p f i orgID).
Proof.
  intros (Hv & Hg). unfold callback_signed_in. eapply always_cut; [by apply linkIdentity_runs|]. cbv beta. intros l [e|[u was]] Hk.
  { destruct e; calm_all. }
  assert (proven by_key cookie (h ++ l) (U_ID u)) as Hp by (eapply with_directory; [by apply seen_more|done]). calm_all.
Qed.

Lemma calm_password_signed_in h r p f i : vouched h p i → calm h (password_signed_in opts r p f i).
Proof.
  intros Hi. unfold password_signed_in. apply always_seq; [auto with calm|]. intros l x. destruct x as [e|[orgID|invited]]; [exact I| |exact I].
  destruct (vouched_more _ l _ _ Hi) as (Hv & Hg). eapply always_cut; [by apply linkIdentity_runs|]. cbv beta. intros l2 [e|[u was]] Hk.
  { destruct e; calm_all. }
  assert (proven by_key cookie ((h ++ l) ++ l2) (U_ID u)) as Hp by (eapply with_directory; [by apply seen_more|done]). calm_all.
Qed.

Lemma calm_startSignup h r cookies p i invited next :
  (RoleFor (pv_Mapping p) (I_Email i) (I_Groups i) = RoleOperator → grants by_key h (ExternalID i)) →
  calm h (startSignup opts r cookies p i invited next).
Proof.
  intros Hg. unfold startSignup. apply always_seq; [auto with calm|]. intros l sealed. apply always_ask; [exact I|]. intros token.
  apply always_ask; [exact I|]. intros now. apply always_ask; [intros Ho; by do 3 apply grants_more; apply Hg|]. intros [e|]; exact I.
Qed.

(** An identity a directory just gave. *)
Lemma ByName_named name p : ByName (Providers opts) name = Some p → pv_Name p = name.
Proof. intros Hp. apply List.find_some in Hp as (_ & Hb). by apply bool_decide_eq_true in Hb. Qed.

Lemma operator_identity_in name p i : ByName (Providers opts) name = Some p →
  RoleFor (pv_Mapping p) (I_Email i) (I_Groups i) = RoleOperator → ExternalID i ∈ operator_identity (pv_Name p) i.
Proof.
  intros Hp Ho. unfold operator_identity, role_of. rewrite (ByName_named _ _ Hp), Hp, bool_decide_eq_true_2 by done. by left.
Qed.

Lemma calm_callback h r : calm h (callback opts r).
Proof.
  unfold callback. destruct (negb (Enabled _)); [exact I|]. cbv zeta. destruct (negb _); [exact I|].
  apply always_ask; [exact I|]. intros [e|f]; [exact I|]. destruct (negb _); [exact I|].
  unfold callback_flow. destruct (ByName _ _) as [p|] eqn:Hp; [|exact I]. destruct (Password p); [exact I|].
  apply always_ask; [exact I|]. intros [msg|i]; [exact I|].
  match goal with |- always _ (?h1 ++ [?e]) _ _ => assert (vouched (h1 ++ [e]) p i) as Hv end.
  { split; [apply seen_last; by left|]. intros Ho. apply by_directory, seen_last. exact (operator_identity_in _ _ _ Hp Ho). }
  apply always_seq; [auto with calm|]. intros l [e|[orgID|invited]]; [exact I|by apply calm_callback_signed_in, vouched_more|].
  destruct (CLI f); [exact I|]. apply calm_startSignup. by apply vouched_more.
Qed.

Lemma passwordIdentity_runs h name p username password : ByName (Providers opts) name = Some p →
  always (careful by_key cookie) h (passwordIdentity p username password) (λ h' i,
    match i with inr i => vouched h' p i | inl _ => True end).
Proof.
  intros Hp. unfold passwordIdentity. cbv zeta. apply always_seq; [destruct (_ <=? _); calm_all|]. intros l ok. destruct (negb ok); [exact I|].
  unfold Authenticate. cbv zeta. destruct (_ || _); [exact I|]. apply always_ask; [exact I|]. intros [e|dn]; [exact I|].
  apply always_ask; [exact I|]. intros ok2. destruct (negb ok2); [exact I|]. apply always_ask; [exact I|]. intros [e|i]; [exact I|].
  split; [apply seen_last; by left|]. intros Ho. apply by_directory, seen_last. exact (operator_identity_in _ _ _ Hp Ho).
Qed.

Lemma calm_passwordSignIn h r body : calm h (passwordSignIn opts r body).
Proof.
  unfold passwordSignIn, with_json_body, with_body. destruct (r_JSON r); [|exact I]. destruct body as [e|[[[[name flow] username] password] next]]; [exact I|].
  destruct (ByName _ _) as [p|] eqn:Hp; [|exact I]. destruct (negb _); [exact I|].
  apply always_seq; [case_bool_decide; calm_all|]. intros l [f|]; [|exact I].
  eapply always_cut; [by eapply passwordIdentity_runs|]. cbv beta. intros l2 [[|[]]|i] Hg; try exact I.
  case_bool_decide; [by apply calm_password_signed_in|]. apply always_ask; [exact I|]. intros [e|f2]; [exact I|].
  by apply calm_password_signed_in, vouched_more.
Qed.

Lemma calm_localLogin h r body : (∀ key, body = inr key → matchesOperatorKey opts (TrimSpace key) = true → by_key) → calm h (localLogin opts r body).
Proof.
  intros Hkey. unfold localLogin, with_body. destruct body as [e|key]; [exact I|]. destruct (matchesOperatorKey _ _) eqn:Hm; [|exact I].
  specialize (Hkey key eq_refl Hm). cbn [negb]. unfold or_fail at 1. apply always_seq; [auto with calm|]. intros l [e|orgID]; [exact I|].
  apply always_ask; [exact I|]. intros id. unfold or_fail at 1.
  eapply always_cut; [apply LinkUser_runs; intros _; by apply by_operator_key|]. cbn [L_ExternalID]. intros l2 [e|u] Hu; [exact I|].
  destruct Hu as (Hk & _). pose proof (with_operator_key _ cookie _ _ Hkey Hk) as Hp. unfold or_fail at 1. eapply always_cut; [apply syncRole_runs; intros _; exists operatorKeyExternalID; split; [by apply by_operator_key|done]|].
  cbv beta. intros l3 [e|v] Hv; [exact I|]. destruct Hv as (Hid & _). calm_all.
Qed.

Lemma calm_signup_signed_in h r su u created : proven by_key cookie h (U_ID u) →
  (created = None → Su_Role su = RoleOperator → may_operate by_key h (U_ID u)) →
  calm h (signup_signed_in opts r su u created).
Proof.
  intros Hp Hs. unfold signup_signed_in. apply always_seq; [unfold rememberDirectory; calm_all|]. intros l _.
  apply (always_cut _ _ _ _ (λ _ v, match v with inr v => same_person u v | inl _ => True end)).
  - destruct created; [by split|]. apply syncRole_runs. intros Ho. by apply may_operate_more, Hs.
  - intros l2 [e|v] Hv; [exact I|]. destruct Hv as (Hid & _). calm_all.
Qed.

Lemma createSignedUpOrg_runs h hash name :
  always (careful by_key cookie) h (createSignedUpOrg hash name)
    (λ h' x, match x with inr (_, (_, u)) => (hash, U_ID u) ∈ flat_map joined_of h' | inl _ => True end).
Proof.
  unfold createSignedUpOrg. apply always_ask; [exact I|]. intros id. cbv zeta. apply always_ask; [exact I|]. intros [su done].
  assert (∀ h o su o' u, (hash, U_ID u) ∈ flat_map joined_of (h ++ [answered (R := answer) (Db_SignUp hash o) (Some su, inr (o', u))])) as Hin
    by (intros; apply seen_last; by left).
  destruct su as [su|], done as [e|[o u]]; try (apply always_bind; first [exact I|apply Hin]).
  destruct e; try exact I. apply always_bind. split; [exact I|]. intros [[su2|] [e|[o u]]]; [exact I|apply Hin|exact I|exact I].
Qed.

Lemma calm_completeSignup h r body : cookie = c_signup r → calm h (completeSignup opts r body).
Proof.
  intros Hc. unfold completeSignup, signupHash, with_body. destruct (c_signup r) as [v|]; [|exact I]. case_bool_decide; [exact I|].
  destruct body as [e|[[] name]]; [exact I|..].
  - apply always_ask; [exact I|]. intros [[]|[su u]]; try exact I. apply calm_signup_signed_in.
    + apply (with_signup _ _ _ _ v Hc), seen_last. by left.
    + intros _ Ho. exists (Su_ExternalID su). split; [apply by_signup; [apply seen_last; by left|done]|apply knows_row, seen_last; by left].
  - cbv zeta. destruct (_ || _); [exact I|]. eapply always_cut; [apply createSignedUpOrg_runs|]. cbv beta.
    intros l [[]|[su [o u]]] Hin; try exact I. apply calm_signup_signed_in; [|done]. by apply (with_signup _ _ _ _ v Hc).
Qed.

(** *** The routes about people *)

#[local] Hint Resolve calm_callback calm_passwordSignIn calm_completeSignup : calm.

Lemma calm_login h r : calm h (login opts r).
Proof. unfold login, startPasskeyLogin, startPasswordLogin. calm_all. Qed.

Lemma calm_cliToken h r body : calm h (cliToken opts r body).
Proof.
  unfold cliToken, with_body. destruct body as [e|[[code verifier] label]]; [exact I|]. destruct (_ || _); [exact I|].
  apply always_ask; [exact I|]. intros [e|[userID challenge]]; [exact I|]. destruct (negb _) eqn:Hv; [exact I|].
  apply negb_false_iff, bool_decide_eq_true in Hv as <-. unfold or_fail at 1. apply always_ask; [exact I|]. intros [e|u]; [exact I|].
  match goal with |- always _ ?h1 _ _ => assert (redeemed h1 (U_ID u)) as Hr end; [|calm_all].
  exists code, verifier, userID, u. split_and!; [apply seen_more, seen_last; by left|apply seen_last; by left|done].
Qed.

Lemma calm_signupInfo h r : calm h (signupInfo r).
Proof. unfold signupInfo, signupHash. calm_all. Qed.

Lemma calm_logout h r p : calm h (logout opts r p).
Proof. unfold logout. cbv zeta. calm_all. Qed.
#[local] Hint Resolve calm_login calm_cliToken calm_signupInfo calm_logout : calm.

Lemma calm_mayVouchFor h r p orgID email : calm h (mayVouchFor r p orgID email).
Proof. unfold mayVouchFor. calm_all. Qed.

Lemma calm_issuePasskeyLink h r p u : calm h (issuePasskeyLink opts r p u).
Proof. unfold issuePasskeyLink. cbv zeta. calm_all. Qed.
#[local] Hint Resolve calm_mayVouchFor calm_issuePasskeyLink : calm.

Lemma calm_userToAdminister h r p id k : (∀ l u, calm (h ++ l) (k u)) → calm h (userToAdminister r p id k).
Proof. intros Hk. unfold userToAdminister, or_fail, guard_. apply always_ask; [exact I|]. intros [e|u]; [exact I|]. destruct (requireOwnerAdmin _ _ _); [exact I|apply Hk]. Qed.

Lemma calm_userToSwitch h r p id verb k : (∀ l u, calm (h ++ l) (k u)) → calm h (userToSwitch r p id verb k).
Proof. intros Hk. apply calm_userToAdminister. intros l u. case_bool_decide; [exact I|]. case_bool_decide; [exact I|]. apply Hk. Qed.

Lemma Assignable_not_operator role : Assignable role = true → role ≠ RoleOperator.
Proof. intros Ha ->. discriminate Ha. Qed.

Lemma mayGrant_assignable role : mayGrant opts role = None → role ≠ RoleOperator.
Proof. unfold mayGrant. destruct (Assignable role) eqn:Ha; [|done]. intros _. by apply Assignable_not_operator. Qed.

Lemma calm_addUser h body r p : calm h (addUser opts body r p).
Proof.
  unfold addUser, with_body. destruct body as [e|[[[[org_id email] ext] role] sign_in]]; [exact I|]. cbv zeta.
  case_bool_decide; [exact I|]. destruct (orgToAdmin _ _) as [e|orgID]; [exact I|]. destruct (newUserRole _ _ _) as [e|role']; [exact I|].
  unfold guard_ at 1. destruct (if bool_decide (role' = RoleMember) then None else mayGrant opts role') eqn:Hg; [exact I|].
  assert (role' ≠ RoleOperator) as Hne.
  { case_bool_decide as Hm; [subst role'; discriminate|by apply mayGrant_assignable]. }
  apply always_ask; [exact I|]. intros id. destruct (newUserSignIn _ _ _ _); [exact I|].
  apply always_seq; [destruct (negb _); [exact I|destruct (passkeysOff opts); calm_all]|]. intros l vouched. unfold guard_. destruct vouched; [exact I|].
  apply always_ask; [exact Hne|]. intros [[]|u]; try exact I. unfold user_added. calm_all.
Qed.

Lemma calm_updateUser h id body r p : calm h (updateUser opts id body r p).
Proof.
  unfold updateUser, with_body. destruct body as [e|role]; [exact I|]. destruct (negb _); [exact I|]. unfold guard_ at 1.
  destruct (mayGrant opts role) eqn:Hg; [exact I|]. apply calm_userToAdminister. intros l u. case_bool_decide; [exact I|].
  destruct (_ && _); [exact I|]. unfold done_or_fail. apply always_ask.
  { intros Ho. by apply mayGrant_assignable in Hg. }
  intros x. calm_all.
Qed.

Lemma calm_switch_to h r p m cur target :
  (U_Role cur = RoleOperator → may_operate by_key h (U_ID target)) → calm h (switch_to opts r p m cur target).
Proof.
  intros Hc. unfold switch_to. cbv zeta. destruct (Bool.eqb _ _); [calm_all|]. unfold done_or_fail. apply always_ask; [|intros x; calm_all].
  intros Ho. case_bool_decide as Hop; [by apply Hc|discriminate Ho].
Qed.

Lemma membership_in_elem ms org_id m : membership_in ms org_id = Some m → m ∈ ms.
Proof.
  unfold membership_in. enough (∀ acc, foldl (λ m n, if bool_decide (M_OrgID n = org_id) then Some n else m) acc ms = Some m → m ∈ ms ∨ acc = Some m) as He.
  { intros Hm. by destruct (He None Hm). }
  induction ms as [|n ms IH]; intros acc; cbn; [by right|]. intros [Hin|Hacc]%IH; [left; by right|].
  case_bool_decide; [injection Hacc as ->; left; by left|by right].
Qed.

Lemma calm_switchOrg h body r p : calm h (switchOrg opts body r p).
Proof.
  unfold switchOrg, with_body. destruct body as [e|org_id]; [exact I|]. destruct (_ || _); [exact I|]. case_bool_decide; [exact I|].
  unfold or_fail at 1. apply always_ask; [exact I|]. intros [e|cur]; [exact I|]. unfold or_fail at 1. apply always_ask; [exact I|].
  intros [e|ms]; [exact I|]. destruct (membership_in ms org_id) as [m|] eqn:Hm; [|exact I]. destruct (M_Disabled m); [exact I|].
  case_bool_decide; [exact I|].
  match goal with |- always _ ?h0 _ _ => set (h2 := h0); assert (U_Role cur = RoleOperator → grants by_key h2 (U_ExternalID cur)) as Hg end.
  { intros Ho. apply (by_row _ _ (P_UserID p)); [|done]. subst h2. apply seen_more, seen_last. by left. }
  apply (always_cut _ _ _ _ (λ h' t, match t with inr t => knows h' (U_ID t) (U_ExternalID cur) | inl _ => True end)).
  - destruct (M_Invited m) eqn:Hi.
    + apply always_ask; [exact I|]. intros [e|t]; [exact I|]. apply knows_row, seen_last. by left.
    + apply always_ask; [exact I|]. intros [e|t]; [exact I|]. apply (knows_by_id _ (M_UserID m)); [apply seen_last; by left|].
      apply knows_more, knows_row. subst h2. apply seen_last. cbn. apply list_elem_of_In, in_map_iff. exists m. split; [done|].
      apply filter_In. rewrite Hi, andb_false_r. split; [|done]. by apply list_elem_of_In, (membership_in_elem _ org_id).
  - intros l [[]|t] Ht; try exact I. apply calm_switch_to. intros Ho. exists (U_ExternalID cur). split; [by apply grants_more, Hg|done].
Qed.

Lemma calm_verifyRegistration h reg : calm h (verifyRegistration reg).
Proof. unfold verifyRegistration. calm_all. Qed.

Lemma calm_storePasskey h r p u cred name via : calm h (storePasskey r p u cred name via).
Proof. unfold storePasskey. cbv zeta. calm_all. Qed.

Lemma calm_registrationOptions h r u : calm h (registrationOptions r u).
Proof. unfold registrationOptions. calm_all. Qed.

(** A passkey that signed a challenge. *)
Definition signed_with (h : history) (challenge : string) (u : User) : Prop :=
  ∃ k a count, k ∈ flat_map passkeys_of h ∧ VerifyAssertion challenge a (credentialOf k) = Some count ∧
    (K_ID k, count) ∈ flat_map uses_of h ∧ (K_UserID k, u) ∈ flat_map by_id_of h.

Lemma checkPasskey_runs h challenge a :
  always (careful by_key cookie) h (checkPasskey challenge a) (λ h' x, match x with inr (u, _) => signed_with h' challenge u | inl _ => True end).
Proof.
  unfold checkPasskey. destruct (unb64 _) as [cred|]; [|exact I]. case_bool_decide; [exact I|]. apply always_ask; [exact I|].
  intros [e|k]; [exact I|]. destruct (negb _); [exact I|]. destruct (VerifyAssertion _ _ _) as [count|] eqn:Hv; [|exact I].
  apply always_ask; [exact I|]. intros [e|u]; [exact I|]. destruct (negb _); [exact I|]. destruct (Disabled u); [exact I|].
  apply always_ask; [exact I|]. intros [[]|]; try exact I. exists k, a, count.
  split_and!; [apply seen_more, seen_more, seen_last; by left|done|apply seen_last; by left|apply seen_more, seen_last; by left].
Qed.

#[local] Hint Resolve calm_addUser calm_updateUser calm_switchOrg calm_verifyRegistration calm_storePasskey calm_registrationOptions : calm.

Lemma member_is_no_operator h id : RoleMember = RoleOperator → may_operate by_key h id.
Proof. discriminate. Qed.

Lemma syncRole_member h u : always (careful by_key cookie) h (syncRole opts u RoleMember) (λ _ v, match v with inr v => same_person u v | inl _ => True end).
Proof. apply syncRole_runs, member_is_no_operator. Qed.

Lemma calm_passkeySignIn h body r : calm h (passkeySignIn opts body r).
Proof.
  unfold passkeySignIn, with_json_body, with_body. destruct (r_JSON r); [|exact I]. destruct body as [e|[flow cred]]; [exact I|].
  apply always_ask; [exact I|]. intros [e|f]; [exact I|]. destruct (negb _) eqn:Hf; [exact I|]. apply negb_false_iff, bool_decide_eq_true in Hf.
  eapply always_cut; [apply checkPasskey_runs|]. cbv beta. intros l [[| |[]]|[u k]]; try exact (λ _, I). intros (k' & a & count & Hk & Hv & Hu & Hi).
  match goal with |- always _ ?h1 _ _ => assert (proven by_key cookie h1 (U_ID u)) as Hp end.
  { eapply with_passkey; [|exact Hf|done..]. apply seen_more, seen_last. by left. }
  unfold or_fail at 1. eapply always_cut; [apply syncRole_member|]. cbv beta. intros l2 [e|v] Hs; [exact I|]. destruct Hs as (Hid & _). calm_all.
Qed.

Lemma calm_passkeySetup h body r : calm h (passkeySetup opts body r).
Proof.
  unfold passkeySetup, with_json_body, with_body. destruct (r_JSON r); [|exact I]. destruct body as [e|[reg token]]; [exact I|].
  apply always_seq; [auto with calm|]. intros l [e|[userID cred]]; [exact I|]. apply always_ask; [exact I|]. intros [e|k]; [|exact I].
  apply always_ask; [exact I|]. intros [e2|linkUser]; [exact I|]. destruct (negb _) eqn:Hl; [exact I|].
  apply negb_false_iff, bool_decide_eq_true in Hl as ->. unfold or_fail at 1.
  apply always_ask; [exact I|]. intros [e3|u]; [exact I|]. destruct (_ || _); [exact I|].
  match goal with |- always _ ?h1 _ _ => assert (proven by_key cookie h1 (U_ID u)) as Hp end.
  { eapply with_link; [apply seen_more, seen_last; by left|apply seen_last; by left|done]. }
  apply always_seq; [auto with calm|]. intros l2 [e4|k]; [exact I|]. unfold or_fail at 1.
  eapply always_cut; [apply syncRole_member|]. cbv beta. intros l3 [e5|v] Hs; [exact I|]. destruct Hs as (Hid & _). calm_all.
Qed.

Lemma calm_ownPasskeyAccount h r p k : (∀ l u, calm (h ++ l) (k u)) → calm h (ownPasskeyAccount r p k).
Proof.
  intros Hk. unfold ownPasskeyAccount. case_bool_decide; [exact I|]. destruct (negb _); [exact I|]. apply always_ask; [exact I|]. intros now.
  destruct (_ <? _); [exact I|]. unfold or_fail. apply always_ask; [exact I|]. intros [e|u]; [exact I|]. destruct (IsPasskeyAccount _); [|exact I].
  rewrite <- app_assoc. apply Hk.
Qed.
#[local] Hint Resolve calm_passkeySignIn calm_passkeySetup : calm.

Lemma calm_handler h rt r p : calm h (handler_of opts rt r p).
Proof.
  destruct rt; cbn [handler_of]; unfold withPasskeys, guard_; try (destruct (passkeysOff opts); [exact I|]); auto with calm.
  - unfold listUsers. calm_all.
  - apply calm_userToSwitch. intros l u. calm_all.
  - apply calm_userToSwitch. intros l u. calm_all.
  - apply calm_userToAdminister. intros l u. unfold MakePasskeyAccount. calm_all.
  - unfold listPasskeys. cbv zeta. repeat case_bool_decide; first [exact I|apply calm_userToAdminister; intros l u; calm_all|calm_all].
  - apply calm_ownPasskeyAccount. intros l u. auto with calm.
  - unfold addOwnPasskey, with_body. destruct body; [exact I|]. apply calm_ownPasskeyAccount. intros l u. calm_all.
  - unfold deletePasskey. cbv zeta. calm_all.
  - exact I.
Qed.
#[local] Hint Resolve calm_handler : calm.

Lemma calm_authenticated h next r : (∀ l p, calm (h ++ l) (next r p)) → calm h (authenticated opts next r).
Proof.
  intros Hn. unfold authenticated, withPrincipal. apply always_seq; [auto with calm|]. intros l [p|]; [|exact I].
  destruct (_ && _); [exact I|apply Hn].
Qed.

(** Every program about people is careful; the operator key grants what it
    grants only to a request that presents it. *)
Lemma people_program_careful h e r : cookie = c_signup r → (∀ body key, e = Post_local body → body = inr key → matchesOperatorKey opts (TrimSpace key) = true → by_key) →
  calm h (program opts e r).
Proof.
  intros Hc Hkey. destruct e; cbn [program]; unfold public, throttle, withPasskeysSignedOut, guard_;
    try (apply always_ask; [exact I|]; intros ok; destruct ok; [|exact I]); try (destruct (passkeysOff opts); [exact I|]); auto with calm.
  - apply calm_localLogin. eauto.
  - unfold passkeySignInOptions. calm_all.
  - unfold passkeySetupOptions. calm_all.
  - unfold metricsRoute, serveMetrics. destruct (FromHeader _); [destruct (matchesMetricsToken _ _); [exact I|]|];
      apply calm_authenticated; intros l p; destruct (Unrestricted p); exact I.
  - apply calm_authenticated. auto with calm.
  - unfold serviceAuthenticated. case_bool_decide; [exact I|]. destruct (FromHeader _); [destruct (constantTimeEqual _ _)|]; exact I.
Qed.
End runs.
