(* ===== verification/PeopleWorld.v ===== *)
(** * Operators come from the configuration

    Any number of requests run at once on one database, over any number of
    replicas: each step of a run is one of its calls, answered. A replica may
    die at any point, and a statement's answer may be lost whether or not it
    ran. Organisations are deleted and expired rows purged meanwhile. *)
From S2P Require Import Prelude GoTime Stable Tenancy Text Keys Hosting Egress Secret Control Principals Accounts SignIn Login People PeopleRuns.
Open Scope go_scope.

(** ** The database's answers *)

Section database.
Context `{Collation}.

(** What a statement finds besides the rows: the time, how many keys a person
    had, and the id a transaction draws. *)
Record moment := { m_now : Z; m_revoked : Z; m_fresh : string }.

(** A statement run at a moment; [None] for a call that is none. *)
Definition db_exec (m : moment) (d : people) (c : call) : option (people * answer c) :=
  let now := m_now m in
  match c as c return option (people * answer c) with
  | Db_CreateSession hash userID csrf expires => Some (CreateSession d now hash userID csrf expires)
  | Db_LookupSession hash => Some (d, LookupSession d now hash)
  | Db_DeleteSession hash => Some (DeleteSession d hash, None)
  | Db_DeleteFrom t who => Some (delete_from t d (selects d who), None)
  | Db_MoveSession hash userID => Some (MoveSession d now hash userID)
  | Db_MoveCLIToken hash userID => Some (MoveCLIToken d now hash userID)
  | Db_CreateCLICode hash userID challenge expires => Some (CreateCLICode d hash userID challenge expires)
  | Db_TakeCLICode hash => Some (TakeCLICode d now hash)
  | Db_CreateCLIToken hash userID expires => Some (CreateCLIToken d now hash userID expires)
  | Db_LookupCLIToken hash => Some (d, LookupCLIToken d now hash)
  | Db_DeleteCLIToken hash => Some (DeleteCLIToken d hash, None)
  | Db_CreateLoginFlow f expires => Some (CreateLoginFlow d f expires)
  | Db_LoginFlowByState state => Some (d, LoginFlowByState d now state)
  | Db_TakeLoginFlow state => Some (TakeLoginFlow d now state)
  | Db_RecordDirectoryCheck ext sealed => Some (RecordDirectoryCheck d now ext sealed, None)
  | Db_RecordDirectoryFailure ext => Some (RecordDirectoryFailure d now ext)
  | Db_ClaimDirectoryCheck ext before => Some (let '(d, x) := ClaimDirectoryCheck d now ext before in (d, inr x))
  | Db_EndDirectoryLink ext => Some (EndDirectoryLink d ext, None)
  | Db_HasRefreshToken ext => Some (d, inr (HasRefreshToken d ext))
  | Db_UserByExternalID ext => Some (d, UserByExternalID d ext)
  | Db_UserInOrg ext orgID => Some (d, UserInOrg d ext orgID)
  | Db_Memberships ext email invitations => Some (d, inr (Memberships d ext email invitations))
  | Db_ExternalIDsFor email => Some (d, inr (ExternalIDsFor d email))
  | Db_AcceptInvitation orgID email name ext => Some (takeInvitation d orgID email name ext)
  | Db_FollowDirectory ext email name => Some (followDirectory d ext email name)
  | Db_SetIdentityName ext name => Some (SetIdentityName d ext name, None)
  | Db_UserByID userID => Some (d, UserByID d userID)
  | Db_SetUserRole orgID userID role => Some (SetUserRole d orgID userID role)
  | Db_EnableUser orgID userID => Some (EnableUser d orgID userID)
  | Db_DisableUser orgID userID =>
      Some (let '(d, e) := DisableUser d now orgID userID in (d, match e with Some e => inl e | None => inr (m_revoked m) end))
  | Db_AddUser newID orgID email ext role => Some (AddUser d now newID orgID email ext role)
  | Db_LinkedUser l => Some (d, linked_user d l)
  | Db_InsertLink newID l => Some (insert_link d now newID l)
  | Db_ListUsers orgID => Some (d, inr (ListUsers d orgID))
  | Db_OrgByEmailDomain domain => Some (d, OrgByEmailDomain d domain)
  | Db_OrgByID orgID => Some (d, OrgByID d orgID)
  | Db_OnlyOrg => Some (d, OnlyOrg d)
  | Db_FirstOrg => Some (d, FirstOrg d)
  | Db_CreateOrg o => Some (createOrg d now o)
  | Db_CreateSignup hash su expires => Some (CreateSignup d hash su expires)
  | Db_SignupByToken hash => Some (d, SignupByToken d now hash)
  | Db_InvitationFor email => Some (d, InvitationFor d email)
  | Db_SignUp hash o => Some (SignUp d now hash o (m_fresh m))
  | Db_JoinInvitation hash => Some (JoinInvitation d now hash)
  | Db_AddPasskey k => Some (AddPasskey d now k)
  | Db_PasskeyByCredentialID cred => Some (d, PasskeyByCredentialID d cred)
  | Db_PasskeyByID id => Some (d, PasskeyByID d id)
  | Db_ListPasskeys userID => Some (d, inr (ListPasskeys d userID))
  | Db_UsePasskey id signCount => Some (UsePasskey d now id signCount)
  | Db_DeletePasskey id keepOne => Some (DeletePasskey d id keepOne)
  | Db_MarkPasskeyAccount userID ext => Some (mark_passkey_account d userID ext)
  | Db_CreatePasskeyLink hash userID expires => Some (CreatePasskeyLink d hash userID expires)
  | Db_PasskeyLinkUser hash => Some (d, PasskeyLinkUser d now hash)
  | Db_TakePasskeyLink hash => Some (TakePasskeyLink d now hash)
  | Db_CreatePasskeyChallenge id userID challenge expires => Some (CreatePasskeyChallenge d id userID challenge expires)
  | Db_TakePasskeyChallenge id => Some (TakePasskeyChallenge d now id)
  | _ => None
  end.

(** A statement whose answer did not arrive. *)
Definition lost (c : call) : option (answer c) :=
  match c as c return option (answer c) with
  | Db_Audit _ _ _ _ _ _ | Announce _ | Idp_Exchange _ _ _ | Idp_Recheck _ _ | Ldap_Lookup _ _ | Ldap_Bind _ _ _
  | Throttle_Allow _ _ | Time_Now | New_ID _ | New_Token | New_Nonce => None
  | Db_SignUp _ _ => Some (None, inl ErrDatabase)
  | Db_LookupSession _ | Db_TakeCLICode _ | Db_TakePasskeyChallenge _ | Db_LookupCLIToken _ | Db_LoginFlowByState _ | Db_TakeLoginFlow _
  | Db_RecordDirectoryFailure _ | Db_ClaimDirectoryCheck _ _ | Db_HasRefreshToken _ | Db_UserByExternalID _ | Db_UserInOrg _ _
  | Db_AcceptInvitation _ _ _ _ | Db_UserByID _ | Db_AddUser _ _ _ _ _ | Db_LinkedUser _ | Db_InsertLink _ _ | Db_PasskeyLinkUser _
  | Db_Memberships _ _ _ | Db_ExternalIDsFor _ | Db_DisableUser _ _ | Db_ListUsers _ | Db_OrgByEmailDomain _ | Db_OrgByID _ | Db_OnlyOrg
  | Db_FirstOrg | Db_CreateOrg _ | Db_InvitationFor _ | Db_SignupByToken _ | Db_JoinInvitation _ | Db_AddPasskey _
  | Db_PasskeyByCredentialID _ | Db_PasskeyByID _ | Db_ListPasskeys _ | Db_TakePasskeyLink _ => Some (inl ErrDatabase)
  | _ => Some (Some ErrDatabase)
  end.

(** The ids of people a statement may add. *)
Definition new_ids (m : moment) (c : call) : list string :=
  match c with
  | Db_AddUser newID _ _ _ _ | Db_InsertLink newID _ => [newID]
  | Db_SignUp _ _ => [m_fresh m]
  | _ => []
  end.

(** An answer to a call, and what it makes of the database, where the ids
    [gone] were given out to people whose organisation was deleted since: no
    id is drawn twice. *)
Inductive answers (gone : gset string) (d : people) : ∀ c, answer c → people → Prop :=
  | done_now m c d' x : (∀ id, id ∈ new_ids m c → id ∉ gone) → db_exec m d c = Some (d', x) → answers gone d c x d'
  | lost_before c x : lost c = Some x → answers gone d c x d
  | lost_after m c d' x x' : (∀ id, id ∈ new_ids m c → id ∉ gone) → db_exec m d c = Some (d', x') → lost c = Some x → answers gone d c x d'
  | elsewhere c x : lost c = None → answers gone d c x d.

(** ** What a call makes of the people *)

(** The same person, identity and role. *)
Definition kept (u u' : User) : Prop := U_ID u' = U_ID u ∧ U_ExternalID u' = U_ExternalID u ∧ U_Role u' = U_Role u.

Definition touched (f f' : gmap string User) : Prop :=
  ∀ id, match f !! id with
        | Some u => ∃ u', f' !! id = Some u' ∧ kept u u'
        | None => f' !! id = None
        end.

(** Why a new row has its role. *)
Definition added_as (d : people) (c : call) (u : User) : Prop :=
  match c with
  | Db_AddUser _ _ _ _ role => U_Role u = role
  | Db_InsertLink _ l => U_Role u = L_Role l ∧ U_ExternalID u = L_ExternalID l
  | Db_SignUp hash _ => ∃ su expires, signups d !! hash = Some (su, expires) ∧ U_ExternalID u = Su_ExternalID su ∧
      (U_Role u = RoleOperator → Su_Role su = RoleOperator)
  | _ => False
  end.

Inductive users_change (m : moment) (d : people) (c : call) : gmap string User → Prop :=
  | users_touched f : touched (users d) f → users_change m d c f
  | users_adopted id u u' : users d !! id = Some u → U_ExternalID u = "" → U_ID u' = U_ID u → U_Role u' = U_Role u →
      users_change m d c (<[id := u']> (users d))
  | users_role id u org role : c = Db_SetUserRole org id role → users d !! id = Some u →
      users_change m d c (<[id := u <| U_Role := role |>]> (users d))
  | users_added u : users d !! U_ID u = None → U_ID u ∈ new_ids m c → added_as d c u → users_change m d c (<[U_ID u := u]> (users d)).

Lemma touched_refl f : touched f f.
Proof. intros id. destruct (f !! id); [|done]. eexists. done. Qed.

Lemma touched_insert f id u u' : f !! id = Some u → kept u u' → touched f (<[id := u']> f).
Proof.
  intros Hu Hk j. destruct (decide (id = j)) as [<-|Hne].
  - rewrite Hu, lookup_insert_eq. eauto.
  - rewrite lookup_insert_ne by done. destruct (f !! j); [|done]. eexists. done.
Qed.

Lemma touched_fmap f (g : User → User) : (∀ u, kept u (g u)) → touched f (g <$> f).
Proof. intros Hg id. rewrite lookup_fmap. destruct (f !! id); cbn; eauto. Qed.

Lemma touched_alter f (g : User → User) id : (∀ u, kept u (g u)) → touched f (alter g id f).
Proof.
  intros Hg j. destruct (decide (id = j)) as [<-|Hne].
  - rewrite lookup_alter_eq. destruct (f !! id); cbn; eauto.
  - rewrite lookup_alter_ne by done. destruct (f !! j); [|done]. eexists. done.
Qed.

Lemma users_same m d c : users_change m d c (users d).
Proof. apply users_touched, touched_refl. Qed.

Definition well_named (d : people) : Prop := ∀ id u, users d !! id = Some u → U_ID u = id.

Lemma user_where_some d p u : well_named d → user_where d p = Some u → users d !! U_ID u = Some u ∧ p u = true.
Proof.
  intros Hn Hu. unfold user_where, rows in Hu. assert (In u (List.filter p (map snd (map_to_list (users d))))) as Hin.
  { destruct (List.filter _ _); [done|]. injection Hu as ->. by left. }
  apply filter_In in Hin as (Hin & Hp). split; [|done]. apply in_map_iff in Hin as ((id & v) & <- & Hin). cbn.
  apply list_elem_of_In, elem_of_map_to_list in Hin. by rewrite (Hn _ _ Hin).
Qed.

Lemma insert_user_change d u d' x : insert_user d u = (d', x) →
  (d' = d ∧ ∃ e, x = inl e) ∨ (x = inr u ∧ d' = put_user d u ∧ users d !! U_ID u = None).
Proof.
  unfold insert_user. destruct (negb _); [intros [= <- <-]; eauto|]. destruct (_ || _) eqn:Hx; [intros [= <- <-]; eauto|].
  apply orb_false_iff in Hx as (Hx & _). apply bool_decide_eq_false in Hx.
  destruct (bool_decide (orgs d !! _ = _)); intros [= <- <-]; [eauto|]. right. split_and!; [done..|]. destruct (users d !! U_ID u); [|done]. exfalso. eauto.
Qed.

Lemma update_user_touched d org id f d' e : (∀ u, kept u (f u)) → well_named d → update_user d org id f = (d', e) → touched (users d) (users d').
Proof.
  intros Hf Hn. unfold update_user. destruct (users d !! id) as [u|] eqn:Hu; [|intros [= <- _]; apply touched_refl].
  destruct (in_org _ _); intros [= <- _]; [|apply touched_refl]. unfold put_user. cbn [update users].
  eapply touched_insert; [|done]. destruct (Hf u) as (-> & _). by rewrite (Hn _ _ Hu).
Qed.

Lemma delete_sign_ins_users d who : users (delete_sign_ins d who) = users d.
Proof. done. Qed.

Lemma takeInvitation_change m d c org email name ext d' x : well_named d → takeInvitation d org email name ext = (d', x) →
  users_change m d c (users d') ∧ signups d' = signups d ∧ (∀ u, x = inr u → U_ExternalID u = ext ∧ users d' !! U_ID u = Some u).
Proof.
  intros Hn. unfold takeInvitation. destruct (user_where _ _) as [u|] eqn:Hu.
  - apply user_where_some in Hu as (Hu & Hp); [|done]. to_prop. destruct (existsb _ _); intros [= <- <-]; [split_and!; [apply users_same|done..]|].
    split_and!; [|done|intros v [= <-]; split; [done|apply lookup_insert_eq]].
    eapply users_adopted; [exact Hu| |done..]. by unfold unlinked in *; to_prop.
  - intros [= <- <-]. split_and!; [apply users_same|done..].
Qed.

Lemma insert_link_change m d c newID l d' x : well_named d → c = Db_InsertLink newID l → insert_link d (m_now m) newID l = (d', x) →
  users_change m d c (users d') ∧ signups d' = signups d ∧ (∀ u, x = inr u → U_ExternalID u = L_ExternalID l ∧ users d' !! U_ID u = Some u).
Proof.
  intros Hn ->. unfold insert_link. destruct (negb _); [intros [= <- <-]; split_and!; [apply users_same|done..]|].
  destruct (user_where _ _) as [u|] eqn:Hu.
  - apply user_where_some in Hu as (Hu & _); [|done]. destruct (unlinked u) eqn:Hl; cbn [negb].
    + destruct (existsb _ _); intros [= <- <-]; [split_and!; [apply users_same|done..]|].
      split_and!; [|done|intros v [= <-]; split; [done|apply lookup_insert_eq]].
      eapply users_adopted; [exact Hu| |done..]. by unfold unlinked in Hl; to_prop.
    + intros [= <- <-]. split_and!; [apply users_same|done..].
  - destruct (insert_user _ _) as [d1 x1] eqn:Hi. destruct (insert_user_change _ _ _ _ Hi) as [(-> & e & ->)|(-> & -> & Hnone)].
    + intros Hd. assert (d' = d ∧ ∃ e, x = inl e) as (-> & e' & ->) by (destruct e; injection Hd as <- <-; eauto).
      split_and!; [apply users_same|done..].
    + intros [= <- <-]. split_and!; [|done|intros v [= <-]; split; [done|apply lookup_insert_eq]].
      apply (users_added _ _ _ (new_user _ _ _ _ _ _ _)); [done|by left|done].
Qed.

Lemma SignUp_change m d c hash o d' x : c = Db_SignUp hash o → SignUp d (m_now m) hash o (m_fresh m) = (d', x) →
  users_change m d c (users d') ∧ (∀ h su, signups d' !! h = Some su → signups d !! h = Some su).
Proof.
  intros ->. unfold SignUp, takeSignup, signup_at. destruct (signups d !! hash) as [[su ex]|] eqn:Hs; [|intros [= <- <-]; split; [apply users_same|done]].
  destruct (m_now m <? ex); [|intros [= <- <-]; split; [apply users_same|done]].
  destruct (createOrg _ _ _) as [d2 [e|o']] eqn:Hc; [intros [= <- <-]; split; [apply users_same|done]|].
  assert (users d2 = users d ∧ signups d2 = delete hash (signups d)) as (Hu2 & Hs2).
  { unfold createOrg in Hc. repeat case_match; by injection Hc as <- _. }
  destruct (insert_user _ _) as [d3 x3] eqn:Hi. destruct (insert_user_change _ _ _ _ Hi) as [(-> & e & ->)|(-> & -> & Hnone)].
  - intros Hd. assert (d' = d) as -> by (destruct e; by injection Hd as <- _). split; [apply users_same|done].
  - intros [= <- <-]. split.
    + unfold put_user. cbn [update users]. rewrite Hu2. apply (users_added _ _ _ (new_user _ _ _ _ _ _ _)); [by rewrite <- Hu2|by left|].
      exists su, ex. split_and!; [done..|]. cbn. case_bool_decide; [by subst|discriminate].
    + intros h su' Hh. unfold put_user in Hh. cbn [update signups] in Hh. rewrite Hs2 in Hh. by apply lookup_delete_Some in Hh as (_ & ?).
Qed.

Lemma JoinInvitation_change m d c hash d' x : well_named d → JoinInvitation d (m_now m) hash = (d', x) →
  users_change m d c (users d') ∧ (∀ h su, signups d' !! h = Some su → signups d !! h = Some su) ∧
  (∀ su u, x = inr (su, u) → U_ExternalID u = Su_ExternalID su ∧ users d' !! U_ID u = Some u ∧ ∃ h ex, signups d !! h = Some (su, ex)).
Proof.
  intros Hn. unfold JoinInvitation, takeSignup, signup_at.
  destruct (signups d !! hash) as [[su ex]|] eqn:Hs; [|intros [= <- <-]; split_and!; [apply users_same|done..]].
  destruct (m_now m <? ex); [|intros [= <- <-]; split_and!; [apply users_same|done..]].
  case_bool_decide; [intros [= <- <-]; split_and!; [apply users_same|done..]|].
  destruct (takeInvitation _ _ _ _ _) as [d2 x2] eqn:Ht.
  apply (takeInvitation_change m _ c) in Ht as (Hc & Hsu & Hx); [|exact Hn].
  destruct x2 as [e|u]; intros [= <- <-]; [split_and!; [apply users_same|done..]|]. split_and!.
  - clear -Hc. destruct Hc as [f Hf|id u0 u' Hu He Hi Hr|id u0 org role Hc Hu|u0 Hnone Hin Hadd]; cbn [update users] in *.
    + by apply users_touched.
    + by eapply users_adopted.
    + by eapply users_role.
    + apply users_added; [done..|]. destruct c; try done. destruct Hadd as (su' & ex' & Hl & Hrest). exists su', ex'. split; [|done].
      cbn in Hl. by apply lookup_delete_Some in Hl as (_ & ?).
  - intros h su' Hh. rewrite Hsu in Hh. cbn in Hh. by apply lookup_delete_Some in Hh as (_ & ?).
  - intros su' u' [= <- <-]. destruct (Hx u eq_refl) as (He & Hu). split_and!; [done..|]. eauto.
Qed.

(** *** Any statement *)

Lemma exec_users m d c d' x : well_named d → db_exec m d c = Some (d', x) → users_change m d c (users d').
Proof.
  intros Hn.
  assert (∀ d2 : people, users d2 = users d → users_change m d c (users d2)) as Hsame by (intros d2 ->; apply users_same).
  assert (∀ id, touched (users d) (alter (λ u, u <| signed_in_at := Some (m_now m) |>) id (users d))) as Hnote by (intros id; by apply touched_alter).
  destruct c; cbn [db_exec]; try discriminate; intros He%(inj Some); try (by injection He as <- <-; apply Hsame; try destruct t).
  all: try (unfold CreateSession, CreateCLIToken, CreateCLICode, TakeCLICode, CreateLoginFlow, TakeLoginFlow, RecordDirectoryFailure,
    ClaimDirectoryCheck, createOrg, CreateSignup, AddPasskey, UsePasskey, DeletePasskey, CreatePasskeyLink, TakePasskeyLink,
    CreatePasskeyChallenge, TakePasskeyChallenge, MoveSession, MoveCLIToken in He;
    repeat case_match; simplify_eq; first [apply Hsame; done|apply users_touched; apply Hnote]).
  all: try (injection He as <- <-; apply users_touched; apply touched_fmap; intros u; unfold kept; by destruct (has_identity _ u)).
  - by apply (takeInvitation_change m d _ _ _ _ _ _ _ Hn He).
  - unfold followDirectory in He. destruct (existsb _ _); injection He as <- _; [by apply Hsame|]. apply users_touched, touched_fmap.
    intros u. unfold kept. by destruct (has_identity _ u).
  - unfold SetUserRole in He. destruct (users d !! userID) as [u|] eqn:Hu; [|injection He as <- _; by apply Hsame].
    destruct (negb _) eqn:Hin; [injection He as <- _; by apply Hsame|]. apply negb_false_iff in Hin. destruct (negb _); [injection He as <- _; by apply Hsame|].
    unfold update_user in He. rewrite Hu, Hin in He. injection He as <- _. unfold put_user. cbn [update users U_ID]. rewrite (Hn _ _ Hu).
    by eapply users_role.
  - apply users_touched. eapply update_user_touched; [|done..]. done.
  - destruct (DisableUser _ _ _ _) as [d2 e2] eqn:Hd. injection He as <- _. unfold DisableUser in Hd.
    destruct (update_user _ _ _ _) as [d3 e3] eqn:Hu. apply update_user_touched in Hu; [|done..]. destruct e3; injection Hd as <- _; [by apply Hsame|].
    by apply users_touched.
  - unfold AddUser in He. destruct (negb _); [injection He as <- _; by apply Hsame|]. destruct (user_where _ _); [injection He as <- _; by apply Hsame|].
    destruct (insert_user_change _ _ _ _ He) as [(-> & _)|(_ & -> & Hnone)]; [by apply Hsame|].
    apply (users_added _ _ _ (new_user _ _ _ _ _ _ _)); [done|by left|done].
  - by apply (insert_link_change _ _ _ _ _ _ _ Hn eq_refl He).
  - by apply (SignUp_change _ _ _ _ _ _ _ eq_refl He).
  - by apply (JoinInvitation_change _ _ _ _ _ _ Hn He).
  - unfold mark_passkey_account in He. destruct (users d !! userID) as [u|] eqn:Hu; [|injection He as <- _; by apply Hsame].
    destruct (negb _) eqn:Hl; [injection He as <- _; by apply Hsame|]. destruct (existsb _ _); injection He as <- _; [by apply Hsame|].
    unfold put_user. cbn [update users U_ID]. rewrite (Hn _ _ Hu). apply negb_false_iff, orb_true_iff in Hl as [Hl|Hl].
    + eapply users_adopted; [exact Hu| |done..]. by apply bool_decide_eq_true in Hl.
    + apply bool_decide_eq_true in Hl. apply users_touched. eapply touched_insert; [exact Hu|]. unfold kept. by rewrite Hl.
Qed.

Lemma exec_signups m d c d' x h su ex : well_named d → db_exec m d c = Some (d', x) → signups d' !! h = Some (su, ex) →
  signups d !! h = Some (su, ex) ∨ c = Db_CreateSignup h su ex.
Proof.
  intros Hn. destruct c; cbn [db_exec]; try discriminate; intros He%(inj Some) Hs; try (left; by injection He as <- <-; try destruct t).
  all: try (left; unfold CreateSession, CreateCLIToken, CreateCLICode, TakeCLICode, CreateLoginFlow, TakeLoginFlow, RecordDirectoryFailure,
    ClaimDirectoryCheck, createOrg, AddPasskey, UsePasskey, DeletePasskey, CreatePasskeyLink, TakePasskeyLink, followDirectory, SetUserRole,
    EnableUser, DisableUser, update_user, AddUser, insert_user, mark_passkey_account,
    CreatePasskeyChallenge, TakePasskeyChallenge, MoveSession, MoveCLIToken in He;
    repeat case_match; simplify_eq; done).
  - left. apply (takeInvitation_change m _ (Db_AcceptInvitation "" "" "" "") _ _ _ _ _ _ Hn) in He as (_ & Hsu & _). by rewrite Hsu in Hs.
  - left. apply (insert_link_change _ _ _ _ _ _ _ Hn eq_refl) in He as (_ & Hsu & _). by rewrite Hsu in Hs.
  - unfold CreateSignup in He. destruct (signups d !! hash); injection He as <- _; [by left|].
    cbn [update signups] in Hs. apply lookup_insert_Some in Hs as [(-> & [= -> ->])|(_ & Hs)]; auto.
  - left. apply (SignUp_change _ _ _ _ _ _ _ eq_refl) in He as (_ & Hsu). auto.
  - left. apply (JoinInvitation_change m _ (Db_JoinInvitation "") _ _ _ Hn) in He as (_ & Hsu & _). auto.
Qed.

(** What an answer shows is what the rows are. *)
Lemma Memberships_identity d ext email invitations mb : well_named d → mb ∈ Memberships d ext email invitations →
  negb (invitations && M_Invited mb) = true → ext ≠ "" → ∃ u, users d !! M_UserID mb = Some u ∧ U_ExternalID u = ext.
Proof.
  intros Hn Hm Hi He. unfold Memberships in Hm. apply list_elem_of_fmap in Hm as ((u & o) & -> & Hm).
  unfold order_by in Hm. rewrite Stable.stable_sort_perm in Hm. apply list_elem_of_omap in Hm as (v & Hv & Ho).
  apply list_elem_of_In, filter_In in Hv as (Hv & Hf). destruct (orgs d !! U_OrgID v); [|done]. injection Ho as -> ->.
  unfold rows in Hv. apply in_map_iff in Hv as ((id & w) & <- & Hin). apply list_elem_of_In, elem_of_map_to_list in Hin. cbn in *.
  exists w. rewrite (Hn _ _ Hin). split; [done|]. apply orb_true_iff in Hf as [Hf|Hf].
  - unfold has_identity in Hf. by to_prop.
  - exfalso. destruct invitations; [|done]. cbn in Hf, Hi. destruct (unlinked w); [done|]. by rewrite andb_false_r in Hf.
Qed.

Lemma linked_user_identity d l u : well_named d → linked_user d l = inr u → U_ExternalID u = L_ExternalID l ∧ users d !! U_ID u = Some u.
Proof.
  intros Hn. unfold linked_user, lookup_row. destruct (user_where _ _) as [v|] eqn:Hv; [|done]. intros [= <-].
  apply user_where_some in Hv as (Hv & Hp); [|done]. split; [|done]. unfold of_identity, has_identity in Hp. by to_prop.
Qed.

Lemma exec_idents m d c d' x id ext : well_named d → db_exec m d c = Some (d', x) → (id, ext) ∈ idents_of (answered c x) → ext ≠ "" →
  ∃ u, users d' !! id = Some u ∧ U_ExternalID u = ext.
Proof.
  intros Hn He Hin Hne. destruct c; cbn [db_exec] in He; try discriminate; apply (inj Some) in He; cbn in Hin; try (by apply elem_of_nil in Hin).
  - injection He as <- <-. unfold LookupSession in Hin. destruct (sessions d !! hash) as [s|]; [|by apply elem_of_nil in Hin].
    destruct (users d !! s_user s) as [u|] eqn:Hu; [|by apply elem_of_nil in Hin]. destruct (_ && _); [|by apply elem_of_nil in Hin].
    apply list_elem_of_singleton in Hin as [= -> ->]. exists u. by rewrite (Hn _ _ Hu).
  - injection He as <- <-. unfold LookupCLIToken in Hin. destruct (cli_tokens d !! hash) as [s|]; [|by apply elem_of_nil in Hin].
    destruct (users d !! t_user s) as [u|] eqn:Hu; [|by apply elem_of_nil in Hin]. destruct (_ && _); [|by apply elem_of_nil in Hin].
    apply list_elem_of_singleton in Hin as [= -> ->]. exists u. by rewrite (Hn _ _ Hu).
  - injection He as <- <-. apply list_elem_of_fmap in Hin as (mb & [= -> ->] & Hmb). apply list_elem_of_In, filter_In in Hmb as (Hmb & Hi).
    apply list_elem_of_In in Hmb. by eapply Memberships_identity.
  - destruct x as [e|u]; [by apply elem_of_nil in Hin|]. apply list_elem_of_singleton in Hin as [= -> ->].
    apply (takeInvitation_change m _ (Db_AcceptInvitation "" "" "" "") _ _ _ _ _ _ Hn) in He as (_ & _ & Hx).
    destruct (Hx u eq_refl) as (? & ?). eauto.
  - injection He as <- <-. unfold UserByID, lookup_row in Hin. destruct (users d !! userID) as [u|] eqn:Hu; [|by apply elem_of_nil in Hin].
    apply list_elem_of_singleton in Hin as [= -> ->]. exists u. by rewrite (Hn _ _ Hu).
  - injection He as <- <-. destruct (linked_user d l) as [e|u] eqn:Hl; [by apply elem_of_nil in Hin|]. apply list_elem_of_singleton in Hin as [= -> ->].
    destruct (linked_user_identity _ _ _ Hn Hl). eauto.
  - destruct x as [e|u]; [by apply elem_of_nil in Hin|]. apply list_elem_of_singleton in Hin as [= -> ->].
    apply (insert_link_change _ _ _ _ _ _ _ Hn eq_refl) in He as (_ & _ & Hx). destruct (Hx u eq_refl). eauto.
  - destruct x as [e|[su u]]; [by apply elem_of_nil in Hin|]. apply list_elem_of_singleton in Hin as [= -> ->].
    apply (JoinInvitation_change m _ (Db_JoinInvitation "") _ _ _ Hn) in He as (_ & _ & Hx). destruct (Hx su u eq_refl) as (? & ? & _). eauto.
Qed.

Lemma exec_by_id m d c d' x id u : well_named d → db_exec m d c = Some (d', x) → (id, u) ∈ by_id_of (answered c x) →
  d' = d ∧ users d !! id = Some u.
Proof.
  intros Hn He Hin. destruct c; cbn [db_exec] in He; try discriminate; apply (inj Some) in He; cbn in Hin; try (by apply elem_of_nil in Hin).
  injection He as <- <-. unfold UserByID, lookup_row in Hin. destruct (users d !! userID) as [v|] eqn:Hu; [|by apply elem_of_nil in Hin].
  by apply list_elem_of_singleton in Hin as [= -> ->].
Qed.

Lemma exec_used m d c d' x su : well_named d → db_exec m d c = Some (d', x) → su ∈ signups_of (answered c x) →
  ∃ h ex, signups d !! h = Some (su, ex).
Proof.
  intros Hn He Hin. destruct c; cbn [db_exec] in He; try discriminate; apply (inj Some) in He; cbn in Hin; try (by apply elem_of_nil in Hin).
  destruct x as [e|[su' u]]; [by apply elem_of_nil in Hin|]. apply list_elem_of_singleton in Hin as ->.
  apply (JoinInvitation_change m _ (Db_JoinInvitation "") _ _ _ Hn) in He as (_ & _ & Hx). by destruct (Hx su' u eq_refl) as (_ & _ & ?).
Qed.

Lemma exec_linked m d c d' x asked u : well_named d → db_exec m d c = Some (d', x) → (asked, u) ∈ linked_of (answered c x) → U_ExternalID u = asked.
Proof.
  intros Hn He Hin. destruct c; cbn [db_exec] in He; try discriminate; apply (inj Some) in He; cbn in Hin; try (by apply elem_of_nil in Hin).
  - injection He as <- <-. destruct (linked_user d l) as [e|v] eqn:Hl; [by apply elem_of_nil in Hin|].
    apply list_elem_of_singleton in Hin as [= -> ->]. by destruct (linked_user_identity _ _ _ Hn Hl).
  - destruct x as [e|v]; [by apply elem_of_nil in Hin|]. apply list_elem_of_singleton in Hin as [= -> ->].
    apply (insert_link_change _ _ _ _ _ _ _ Hn eq_refl) in He as (_ & _ & Hx). by destruct (Hx v eq_refl).
Qed.

Lemma lost_shows_nothing c x : lost c = Some x →
  idents_of (answered c x) = [] ∧ by_id_of (answered c x) = [] ∧ signups_of (answered c x) = [] ∧ linked_of (answered c x) = [].
Proof. destruct c; cbn; try discriminate; intros [= <-]; done. Qed.

Lemma elsewhere_shows_nothing c x : lost c = None →
  idents_of (answered c x) = [] ∧ by_id_of (answered c x) = [] ∧ signups_of (answered c x) = [] ∧ linked_of (answered c x) = [].
Proof. destruct c; cbn; try discriminate; done. Qed.
End database.

(** ** A deployment *)

Section world.
Context `{Collation} `{Unicode} `{Folding} `{SHA256} `{GCM} `{Addresses} `{Dialing} `{Web}.
Context (opts : Options).

(** A request under way: what it did, and what is left of it. *)
Record thread := { t_entry : entry; t_request : request; seen : list (event (R := answer)); left_ : prog answer response }.

Record world := { w_people : people; w_gone : gset string; w_threads : list thread }.

Definition people_of (d : people) (orgID : string) : gset string := dom (filter (λ kv, U_OrgID kv.2 = orgID) (users d)).

Inductive world_step : world → world → Prop :=
  | w_start w e r :
      world_step w {| w_people := w_people w; w_gone := w_gone w;
        w_threads := w_threads w ++ [{| t_entry := e; t_request := r; seen := []; left_ := program opts e r |}] |}
  | w_call w i e r h c k x d' :
      w_threads w !! i = Some {| t_entry := e; t_request := r; seen := h; left_ := Do c k |} → answers (w_gone w) (w_people w) c x d' →
      world_step w {| w_people := d'; w_gone := w_gone w;
        w_threads := <[i := {| t_entry := e; t_request := r; seen := h ++ [answered c x]; left_ := k x |}]> (w_threads w) |}
  | w_purge w now : world_step w {| w_people := PurgeExpired (w_people w) now; w_gone := w_gone w; w_threads := w_threads w |}
  (** An organisation is deleted, with its people. *)
  | w_drop w orgID :
      world_step w {| w_people := drop_org (w_people w) orgID; w_gone := w_gone w ∪ people_of (w_people w) orgID; w_threads := w_threads w |}.

Inductive reachable : world → Prop :=
  | r_start d : users d = ∅ → signups d = ∅ → reachable {| w_people := d; w_gone := ∅; w_threads := [] |}
  | r_step w w' : reachable w → world_step w w' → reachable w'.

(** A sign-in with the operator key in its body. *)
Definition presents_key (e : entry) : Prop := ∃ key, e = Post_local (inr key) ∧ matchesOperatorKey opts (TrimSpace key) = true.

(** Why an identity may be an operator's: a directory answered a request about
    it with claims the configuration maps to the role, or it is the stand-in
    of the operator key, and the key was presented. *)
Definition configured (ts : list thread) (ext : string) : Prop :=
  ∃ i t, ts !! i = Some t ∧
    (ext ∈ flat_map (granted_of opts) (seen t) ∨ (presents_key (t_entry t) ∧ ext = operatorKeyExternalID)).

(** ** The invariant *)

(** The row keeps the identity it had, unless it is gone. *)
Definition settled_identity (w : world) (id ext : string) : Prop :=
  id ∈ w_gone w ∨ ∃ u, users (w_people w) !! id = Some u ∧ U_ExternalID u = ext.

Record world_ok (w : world) : Prop := {
  ok_named : well_named (w_people w);
  ok_gone : ∀ id, id ∈ w_gone w → users (w_people w) !! id = None;
  ok_operators : ∀ id u, users (w_people w) !! id = Some u → U_Role u = RoleOperator → configured (w_threads w) (U_ExternalID u);
  ok_signups : ∀ h su ex, signups (w_people w) !! h = Some (su, ex) → Su_Role su = RoleOperator → configured (w_threads w) (Su_ExternalID su);
  ok_careful : ∀ i t, w_threads w !! i = Some t →
    always (careful opts (presents_key (t_entry t)) (c_signup (t_request t))) (seen t) (left_ t) (λ _ _, True);
  ok_idents : ∀ i t id ext, w_threads w !! i = Some t → (id, ext) ∈ flat_map idents_of (seen t) → ext ≠ "" → settled_identity w id ext;
  ok_by_id : ∀ i t id u, w_threads w !! i = Some t → (id, u) ∈ flat_map by_id_of (seen t) →
    U_ID u = id ∧ (U_Role u = RoleOperator → configured (w_threads w) (U_ExternalID u));
  ok_used : ∀ i t su, w_threads w !! i = Some t → su ∈ flat_map signups_of (seen t) → Su_Role su = RoleOperator →
    configured (w_threads w) (Su_ExternalID su);
  ok_linked : ∀ i t asked u, w_threads w !! i = Some t → (asked, u) ∈ flat_map linked_of (seen t) → U_ExternalID u = asked;
}.

Lemma granted_not_empty e ext : ext ∈ granted_of opts e → ext ≠ "".
Proof.
  assert (∀ name i, ext ∈ operator_identity opts name i → ext ≠ "") as Hop.
  { intros name i Hin. unfold operator_identity in Hin. case_bool_decide; [|by apply elem_of_nil in Hin].
    apply list_elem_of_singleton in Hin as ->. unfold ExternalID. by destruct (I_Provider i). }
  destruct e as [c x]. destruct c; cbn; try (by intros ?%elem_of_nil); destruct x as [|x]; try (by intros ?%elem_of_nil); [eauto| |eauto].
  destruct x as [i []]; [eauto|by intros ?%elem_of_nil].
Qed.

Lemma configured_not_empty ts ext : configured ts ext → ext ≠ "".
Proof.
  intros (i & t & _ & [Hin|(_ & ->)]); [|done]. apply elem_of_flat_map in Hin as (e & _ & Hin). by eapply granted_not_empty.
Qed.

(** What a run knows is so. *)
Lemma grants_configured w i t ext : world_ok w → w_threads w !! i = Some t →
  grants opts (presents_key (t_entry t)) (seen t) ext → configured (w_threads w) ext.
Proof.
  intros Hok Ht. induction 1 as [ext Hd|id u Hu Ho|su Hs Ho|asked u Hu _ IH|Hk].
  - exists i, t. auto.
  - by apply (ok_by_id _ Hok _ _ _ _ Ht Hu).
  - by apply (ok_used _ Hok _ _ _ Ht Hs).
  - by rewrite (ok_linked _ Hok _ _ _ _ Ht Hu).
  - exists i, t. auto.
Qed.

Lemma knows_settled w i t id ext : world_ok w → w_threads w !! i = Some t → knows (seen t) id ext → ext ≠ "" → settled_identity w id ext.
Proof.
  intros Hok Ht. induction 1 as [id ext Hk|id u ext Hu _ IH]; intros Hne; [by eapply ok_idents|].
  destruct (ok_by_id _ Hok _ _ _ _ Ht Hu) as (-> & _). auto.
Qed.

(** *** What stays as the world goes on *)

(** More is seen, never less. *)
Definition grows (ts ts' : list thread) : Prop :=
  ∀ i t, ts !! i = Some t → ∃ t' l, ts' !! i = Some t' ∧ t_entry t' = t_entry t ∧ seen t' = seen t ++ l.

Lemma configured_grows ts ts' ext : grows ts ts' → configured ts ext → configured ts' ext.
Proof.
  intros Hg (i & t & Ht & Hc). destruct (Hg i t Ht) as (t' & l & Ht' & He & Hs). exists i, t'. split; [done|].
  rewrite He, Hs. destruct Hc as [Hc|Hc]; [left; by apply seen_more|by right].
Qed.

Lemma grows_start ts t : grows ts (ts ++ [t]).
Proof. intros i t' Ht. exists t', []. rewrite app_nil_r, lookup_app_l by (by eapply lookup_lt_Some). done. Qed.

Section one_call.
Context (w : world) (i : nat) (e : entry) (r : request) (h : list (event (R := answer))) (c : call) (x : answer c)
  (k : answer c → prog answer response) (d' : people).
Context (Hok : world_ok w) (Hi : w_threads w !! i = Some {| t_entry := e; t_request := r; seen := h; left_ := Do c k |}).
Context (Ha : answers (w_gone w) (w_people w) c x d').

Abbreviation t' := {| t_entry := e; t_request := r; seen := h ++ [answered (R := answer) c x]; left_ := k x |}.
Abbreviation ts' := (<[i := t']> (w_threads w)).
Abbreviation w' := {| w_people := d'; w_gone := w_gone w; w_threads := ts' |}.

Lemma grows_call : grows (w_threads w) ts'.
Proof.
  intros j t Ht. destruct (decide (i = j)) as [<-|Hne].
  - rewrite Hi in Ht. injection Ht as <-. rewrite list_lookup_insert_eq by (by eapply lookup_lt_Some). by eexists _, _.
  - rewrite list_lookup_insert_ne by done. exists t, []. by rewrite app_nil_r.
Qed.

Lemma thread_of j t : ts' !! j = Some t → (j = i ∧ t = t') ∨ w_threads w !! j = Some t.
Proof.
  destruct (decide (i = j)) as [<-|Hne]; [|rewrite list_lookup_insert_ne by done; by right].
  rewrite list_lookup_insert_eq by (by eapply lookup_lt_Some). intros [= <-]. by left.
Qed.

(** What any run has seen after the call: it saw it before, or the call showed it. *)
Lemma seen_after {B} (f : event (R := answer) → list B) j t y : ts' !! j = Some t → y ∈ flat_map f (seen t) →
  (∃ j t, w_threads w !! j = Some t ∧ y ∈ flat_map f (seen t)) ∨ y ∈ f (answered c x).
Proof.
  intros Ht Hy. destruct (thread_of j t Ht) as [(-> & ->)|Hold]; [|eauto]. cbn in Hy.
  rewrite flat_map_app in Hy. apply elem_of_app in Hy as [Hy|Hy]; [left; by eexists _, _|]. cbn in Hy. rewrite app_nil_r in Hy. by right.
Qed.

Lemma people_call_careful : careful opts (presents_key e) (c_signup r) h c.
Proof. exact (proj1 (ok_careful _ Hok i _ Hi)). Qed.

(** The rows after the call, and why. *)
Lemma answers_change : ∃ m, users_change m (w_people w) c (users d') ∧ (∀ id, id ∈ new_ids m c → id ∉ w_gone w ∨ users d' = users (w_people w)) ∧
  (∀ hash su ex, signups d' !! hash = Some (su, ex) → signups (w_people w) !! hash = Some (su, ex) ∨ c = Db_CreateSignup hash su ex).
Proof.
  destruct Ha as [m c' d2 x' Hf He|c' x' Hl|m c' d2 x' x2 Hf He Hl|c' x' Hl].
  - exists m. split_and!; [by eapply exec_users; [apply Hok|]|intros id Hid; left; by apply Hf|intros; by eapply exec_signups; [apply Hok|..]].
  - exists {| m_now := 0; m_revoked := 0; m_fresh := "" |}. split_and!; [apply users_same|by right|by left].
  - exists m. split_and!; [by eapply exec_users; [apply Hok|]|intros id Hid; left; by apply Hf|intros; by eapply exec_signups; [apply Hok|..]].
  - exists {| m_now := 0; m_revoked := 0; m_fresh := "" |}. split_and!; [apply users_same|by right|by left].
Qed.

(** A row after the call comes from one before it, or is new. *)
Lemma row_after id u' : users d' !! id = Some u' →
  (∃ u, users (w_people w) !! id = Some u ∧ U_ID u' = U_ID u ∧ (U_ExternalID u' = U_ExternalID u ∨ U_ExternalID u = "") ∧
    (U_Role u' = U_Role u ∨ (U_ExternalID u' = U_ExternalID u ∧ ∃ org, c = Db_SetUserRole org id (U_Role u')))) ∨
  (users (w_people w) !! id = None ∧ U_ID u' = id ∧ (id ∉ w_gone w) ∧ added_as (w_people w) c u').
Proof.
  intros Hu'. destruct answers_change as (m & Hc & Hnew & _).
  destruct Hc as [f Hf|id0 u u1 Hu He Hid Hr|id0 u org role Hset Hu|u Hnone Hin Hadd].
  - specialize (Hf id). destruct (users (w_people w) !! id) as [u|]; [|congruence]. destruct Hf as (u1 & Hu1 & Hk1 & Hk2 & Hk3).
    rewrite Hu' in Hu1. injection Hu1 as <-. left. exists u. auto.
  - apply lookup_insert_Some in Hu' as [(-> & <-)|(Hne & Hu')]; left; eauto 10.
  - apply lookup_insert_Some in Hu' as [(-> & <-)|(Hne & Hu')]; left; [|eauto 10]. exists u. split_and!; [done..|by left|]. right. split; [done|]. by exists org.
  - apply lookup_insert_Some in Hu' as [(<- & <-)|(Hne & Hu')]; [|left; eauto 10]. right. split_and!; [done..| |done].
    destruct (Hnew _ Hin) as [Hg|Hs]; [done|]. exfalso. assert (users (w_people w) !! U_ID u = Some u) as Hx; [|congruence].
    rewrite <- Hs. apply lookup_insert_eq.
Qed.

(** A row before the call is still there, with the identity it had. *)
Lemma row_before id u : users (w_people w) !! id = Some u →
  ∃ u', users d' !! id = Some u' ∧ (U_ExternalID u ≠ "" → U_ExternalID u' = U_ExternalID u).
Proof.
  intros Hu. destruct answers_change as (m & Hc & _ & _).
  destruct Hc as [f Hf|id0 v u1 Hv He Hid Hr|id0 v org role Hset Hv|v Hnone Hin Hadd].
  - specialize (Hf id). rewrite Hu in Hf. destruct Hf as (u1 & Hu1 & _ & He & _). eauto.
  - destruct (decide (id0 = id)) as [->|Hne]; [|exists u; by rewrite lookup_insert_ne].
    rewrite lookup_insert_eq. exists u1. split; [done|]. intros Hn. congruence.
  - destruct (decide (id0 = id)) as [->|Hne]; [|exists u; by rewrite lookup_insert_ne].
    rewrite lookup_insert_eq. eexists. split; [done|]. cbn. congruence.
  - exists u. rewrite lookup_insert_ne by congruence. done.
Qed.

Lemma settled_after id ext : ext ≠ "" → settled_identity w id ext → settled_identity w' id ext.
Proof.
  intros Hne [Hg|(u & Hu & He)]; [by left|]. right. destruct (row_before id u Hu) as (u' & Hu' & Hk). exists u'. split; [done|].
  rewrite Hk; congruence.
Qed.

(** Every operator after the call is one the configuration made. *)
Lemma operators_after id u' : users d' !! id = Some u' → U_Role u' = RoleOperator → configured ts' (U_ExternalID u').
Proof.
  intros Hu' Ho. apply (configured_grows _ _ _ grows_call). pose proof people_call_careful as Hca.
  destruct (row_after id u' Hu') as [(u & Hu & _ & He & [Hr|(Hsame & org & Hset)])|(Hnone & Hid & Hg & Hadd)].
  - assert (configured (w_threads w) (U_ExternalID u)) as Hc by (eapply ok_operators; [done..|congruence]).
    destruct He as [->|He]; [done|]. rewrite He in Hc. by apply configured_not_empty in Hc.
  - subst c. destruct (Hca Ho) as (ext & Hgr & Hk). pose proof (grants_configured w i _ ext Hok Hi Hgr) as Hc.
    destruct (knows_settled w i _ id ext Hok Hi Hk (configured_not_empty _ _ Hc)) as [Hgone|(v & Hv & Hve)].
    + rewrite (ok_gone _ Hok _ Hgone) in Hu. done.
    + rewrite Hu in Hv. injection Hv as <-. congruence.
  - destruct c; try done; cbn in Hadd, Hca.
    + congruence.
    + destruct Hadd as (Hr & ->). apply (grants_configured w i _ _ Hok Hi). apply Hca. congruence.
    + destruct Hadd as (su & ex & Hs & -> & Hr). eapply ok_signups; eauto.
Qed.

Lemma signups_after hash su ex : signups d' !! hash = Some (su, ex) → Su_Role su = RoleOperator → configured ts' (Su_ExternalID su).
Proof.
  intros Hs Ho. apply (configured_grows _ _ _ grows_call). destruct answers_change as (m & _ & _ & Hsu). pose proof people_call_careful as Hca.
  destruct (Hsu _ _ _ Hs) as [Hold|Hc]; [by eapply ok_signups|]. subst c. apply (grants_configured w i _ _ Hok Hi). by apply Hca.
Qed.

(** What the call showed is so. *)
Lemma shown_idents id ext : (id, ext) ∈ idents_of (answered c x) → ext ≠ "" → settled_identity w' id ext.
Proof.
  intros Hin Hne. destruct Ha as [m c' d2 x' Hf He|c' x' Hl|m c' d2 x' x2 Hf He Hl|c' x' Hl].
  - right. by eapply exec_idents; [apply Hok|..].
  - destruct (lost_shows_nothing _ _ Hl) as (Hn & _). rewrite Hn in Hin. by apply elem_of_nil in Hin.
  - destruct (lost_shows_nothing _ _ Hl) as (Hn & _). rewrite Hn in Hin. by apply elem_of_nil in Hin.
  - destruct (elsewhere_shows_nothing _ x' Hl) as (Hn & _). rewrite Hn in Hin. by apply elem_of_nil in Hin.
Qed.

Lemma shown_by_id id u : (id, u) ∈ by_id_of (answered c x) → users (w_people w) !! id = Some u.
Proof.
  intros Hin. destruct Ha as [m c' d2 x' Hf He|c' x' Hl|m c' d2 x' x2 Hf He Hl|c' x' Hl].
  - by eapply exec_by_id in He as (_ & ?); [|apply Hok|exact Hin].
  - destruct (lost_shows_nothing _ _ Hl) as (_ & Hn & _). rewrite Hn in Hin. by apply elem_of_nil in Hin.
  - destruct (lost_shows_nothing _ _ Hl) as (_ & Hn & _). rewrite Hn in Hin. by apply elem_of_nil in Hin.
  - destruct (elsewhere_shows_nothing _ x' Hl) as (_ & Hn & _). rewrite Hn in Hin. by apply elem_of_nil in Hin.
Qed.

Lemma shown_used su : su ∈ signups_of (answered c x) → ∃ hash ex, signups (w_people w) !! hash = Some (su, ex).
Proof.
  intros Hin. destruct Ha as [m c' d2 x' Hf He|c' x' Hl|m c' d2 x' x2 Hf He Hl|c' x' Hl].
  - by eapply exec_used in He; [|apply Hok|exact Hin].
  - destruct (lost_shows_nothing _ _ Hl) as (_ & _ & Hn & _). rewrite Hn in Hin. by apply elem_of_nil in Hin.
  - destruct (lost_shows_nothing _ _ Hl) as (_ & _ & Hn & _). rewrite Hn in Hin. by apply elem_of_nil in Hin.
  - destruct (elsewhere_shows_nothing _ x' Hl) as (_ & _ & Hn & _). rewrite Hn in Hin. by apply elem_of_nil in Hin.
Qed.

Lemma shown_linked asked u : (asked, u) ∈ linked_of (answered c x) → U_ExternalID u = asked.
Proof.
  intros Hin. destruct Ha as [m c' d2 x' Hf He|c' x' Hl|m c' d2 x' x2 Hf He Hl|c' x' Hl].
  - by eapply exec_linked in He; [|apply Hok|exact Hin].
  - destruct (lost_shows_nothing _ _ Hl) as (_ & _ & _ & Hn). rewrite Hn in Hin. by apply elem_of_nil in Hin.
  - destruct (lost_shows_nothing _ _ Hl) as (_ & _ & _ & Hn). rewrite Hn in Hin. by apply elem_of_nil in Hin.
  - destruct (elsewhere_shows_nothing _ x' Hl) as (_ & _ & _ & Hn). rewrite Hn in Hin. by apply elem_of_nil in Hin.
Qed.

Lemma people_call_ok : world_ok w'.
Proof.
  split; cbn [w_people w_gone w_threads].
  - intros id u' Hu'. destruct (row_after id u' Hu') as [(u & Hu & -> & _)|(_ & ? & _)]; [by apply (ok_named _ Hok)|done].
  - intros id Hg. destruct (users d' !! id) as [u'|] eqn:Hu'; [|done].
    destruct (row_after id u' Hu') as [(u & Hu & _)|(_ & _ & Hn & _)]; [rewrite (ok_gone _ Hok _ Hg) in Hu; done|done].
  - exact operators_after.
  - exact signups_after.
  - intros j t Ht. destruct (thread_of j t Ht) as [(-> & ->)|Hold]; [|by eapply ok_careful]. cbn.
    exact (proj2 (ok_careful _ Hok i _ Hi) x).
  - intros j t id ext Ht Hin Hne. destruct (seen_after _ _ _ _ Ht Hin) as [(j0 & t0 & Ht0 & Hin0)|Hnew].
    + apply settled_after; [done|]. by eapply ok_idents.
    + by apply shown_idents.
  - intros j t id u Ht Hin. destruct (seen_after _ _ _ _ Ht Hin) as [(j0 & t0 & Ht0 & Hin0)|Hnew].
    + destruct (ok_by_id _ Hok _ _ _ _ Ht0 Hin0) as (Hid & Hg). split; [done|]. intros Ho. by apply (configured_grows _ _ _ grows_call), Hg.
    + apply shown_by_id in Hnew. split; [by apply (ok_named _ Hok)|]. intros Ho. apply (configured_grows _ _ _ grows_call).
      by eapply ok_operators.
  - intros j t su Ht Hin Ho. apply (configured_grows _ _ _ grows_call). destruct (seen_after _ _ _ _ Ht Hin) as [(j0 & t0 & Ht0 & Hin0)|Hnew].
    + by eapply ok_used.
    + destruct (shown_used su Hnew) as (hash & ex & Hs). by eapply ok_signups.
  - intros j t asked u Ht Hin. destruct (seen_after _ _ _ _ Ht Hin) as [(j0 & t0 & Ht0 & Hin0)|Hnew]; [by eapply ok_linked|by apply shown_linked].
Qed.
End one_call.

(** *** The steps that are no request's *)

Lemma people_start_ok w e r : world_ok w →
  world_ok {| w_people := w_people w; w_gone := w_gone w;
    w_threads := w_threads w ++ [{| t_entry := e; t_request := r; seen := []; left_ := program opts e r |}] |}.
Proof.
  intros Hok. set (t0 := {| t_entry := e; t_request := r; seen := []; left_ := program opts e r |}).
  assert (∀ j t, (w_threads w ++ [t0]) !! j = Some t → w_threads w !! j = Some t ∨ t = t0) as Hof.
  { intros j t. rewrite lookup_app. destruct (w_threads w !! j); [by left|]. intros Ht. right. by apply list_lookup_singleton_Some in Ht as (_ & <-). }
  pose proof (λ ext, configured_grows _ _ ext (grows_start (w_threads w) t0)) as Hg.
  split; cbn [w_people w_gone w_threads].
  - apply Hok.
  - apply Hok.
  - intros id u Hu Ho. by eapply Hg, ok_operators.
  - intros h su ex Hs Ho. by eapply Hg, ok_signups.
  - intros j t Ht. destruct (Hof j t Ht) as [Hold| ->]; [by eapply ok_careful|]. apply people_program_careful; [done|].
    intros body key -> -> Hk. by exists key.
  - intros j t id ext Ht Hin Hne. destruct (Hof j t Ht) as [Hold| ->]; [exact (ok_idents _ Hok _ _ _ _ Hold Hin Hne)|by apply elem_of_nil in Hin].
  - intros j t id u Ht Hin. destruct (Hof j t Ht) as [Hold| ->]; [|by apply elem_of_nil in Hin].
    destruct (ok_by_id _ Hok _ _ _ _ Hold Hin). auto.
  - intros j t su Ht Hin Ho. destruct (Hof j t Ht) as [Hold| ->]; [by eapply Hg, ok_used|by apply elem_of_nil in Hin].
  - intros j t asked u Ht Hin. destruct (Hof j t Ht) as [Hold| ->]; [by eapply ok_linked|by apply elem_of_nil in Hin].
Qed.

Lemma purge_ok w now : world_ok w → world_ok {| w_people := PurgeExpired (w_people w) now; w_gone := w_gone w; w_threads := w_threads w |}.
Proof.
  intros []. split; cbn [w_people w_gone w_threads]; try done. intros h su ex Hs. unfold PurgeExpired in Hs. cbn [signups update] in Hs.
  apply map_lookup_filter_Some in Hs as (Hs & _). eauto.
Qed.

Lemma drop_ok w orgID : world_ok w →
  world_ok {| w_people := drop_org (w_people w) orgID; w_gone := w_gone w ∪ people_of (w_people w) orgID; w_threads := w_threads w |}.
Proof.
  intros Hok.
  assert (∀ id u, users (drop_org (w_people w) orgID) !! id = Some u → users (w_people w) !! id = Some u ∧ U_OrgID u ≠ orgID) as Hof.
  { intros id u Hu. by apply map_lookup_filter_Some in Hu. }
  split; cbn [w_people w_gone w_threads]; try apply Hok.
  - intros id u (Hu & _)%Hof. by apply (ok_named _ Hok).
  - intros id [Hg|Hg]%elem_of_union; destruct (users (drop_org _ _) !! id) as [u|] eqn:Hu; try done; apply Hof in Hu as (Hu & Hn).
    + by rewrite (ok_gone _ Hok _ Hg) in Hu.
    + unfold people_of in Hg. apply elem_of_dom in Hg as (v & Hv). apply map_lookup_filter_Some in Hv as (Hv & Ho). cbn in Ho. congruence.
  - intros id u (Hu & _)%Hof. exact (ok_operators _ Hok _ _ Hu).
  - intros h su ex Hs Ho. unfold drop_org in Hs. cbn [signups update] in Hs. rewrite lookup_fmap in Hs.
    destruct (signups (w_people w) !! h) as [[su0 ex0]|] eqn:Hs0; [|done]. injection Hs as <- _. cbn in *.
    case_bool_decide; cbn in *; by eapply ok_signups.
  - intros j t id ext Ht Hin Hne. destruct (ok_idents _ Hok _ _ _ _ Ht Hin Hne) as [Hg|(u & Hu & He)]; [left; set_solver|].
    destruct (decide (U_OrgID u = orgID)) as [Ho|Ho].
    + left. cbn. apply elem_of_union_r. unfold people_of. apply elem_of_dom. exists u. by apply map_lookup_filter_Some.
    + right. exists u. split; [|done]. by apply map_lookup_filter_Some.
Qed.

Lemma people_reachable_ok w : reachable w → world_ok w.
Proof.
  induction 1 as [d Hu Hs|w w' Hr IH Hst].
  - split; cbn [w_people w_gone w_threads]; try (by intros; simplify_map_eq).
    + intros id u. by rewrite Hu, lookup_empty.
    + intros id u. by rewrite Hu, lookup_empty.
    + intros h su ex. by rewrite Hs, lookup_empty.
  - destruct Hst; [by apply people_start_ok|eapply people_call_ok; eauto|by apply purge_ok|by apply drop_ok].
Qed.

(** C4: Nobody is made an operator of the instance by anything but its
    configuration. However many sign-ins, sign-ups, invitations, invitation
    links, role changes, passkey set-ups and deletions of organisations
    interleave on one database, with statements lost and replicas dying
    between any two of them, a row with the operator role belongs to an
    identity that a configured directory vouched for with claims which
    [RoleMapping] maps to that role, in a sign-in or a re-check, or to the
    stand-in of the operator key, in a request that presented the key. *)
Theorem operators_are_configured w id u :
  reachable w → users (w_people w) !! id = Some u → U_Role u = RoleOperator → configured (w_threads w) (U_ExternalID u).
Proof. intros Hr%people_reachable_ok. by apply ok_operators. Qed.

(** Who a call signs in: with a session, or with the code a command line or
    an app redeems. *)
Definition signs_in (c : call) : option string :=
  match c with Db_CreateSession _ id _ _ | Db_CreateCLICode _ id _ _ => Some id | _ => None end.

Lemma run_careful e r tr left before c x after : steps (program opts e r) tr left → tr = before ++ answered c x :: after →
  careful opts (presents_key e) (c_signup r) before c.
Proof.
  intros Hs Htr. eapply (always_call _ _ _ _ _ []); [|exact Hs|exact Htr]. apply people_program_careful; [done|]. intros body key -> -> Hk. by exists key.
Qed.

(** C8: No program signs anyone in without proof of who they are. At whatever
    point of whatever run of any program a session or a hand-over code is
    made for a row, the run has seen one of these: a directory vouched for
    the row's identity, the request presented the operator key, a registered
    passkey of the row signed the challenge of a flow the run used up and its
    counter moved on, the request holds the cookie of a sign-up the run used
    up and that made or let in the row, or the request holds the token of a
    set-up link of the row, which the run used up. *)
Theorem sign_ins_are_proven e r tr left before c x after id :
  steps (program opts e r) tr left → tr = before ++ answered c x :: after → signs_in c = Some id →
  proven (presents_key e) (c_signup r) before id.
Proof. intros Hs Htr. pose proof (run_careful _ _ _ _ _ _ _ _ Hs Htr) as Hc. destruct c; try discriminate; intros [= <-]; exact Hc. Qed.

(** C19: A long-lived token of a command line is only made by redeeming a code
    that a finished sign-in put in the database, with the verifier whose S256
    challenge that sign-in was started with; the token is that person's. So a
    code that leaked on its way to a loopback address is worth nothing. *)
Theorem tokens_are_redeemed e r tr left before hash id expires x after :
  steps (program opts e r) tr left → tr = before ++ answered (Db_CreateCLIToken hash id expires) x :: after → redeemed before id.
Proof. intros Hs Htr. exact (run_careful _ _ _ _ _ _ _ _ Hs Htr). Qed.
End world.
