(* ===== verification/PeopleSamples.v ===== *)
(** * A small deployment

    Concrete instances of what the sign-ins rely on, a configuration with one
    directory, and a driver that runs a program to its end against a database,
    for the witnesses. *)
From S2P Require Import Prelude GoTime Stable Tenancy Text Keys Hosting Egress Secret Control Principals Accounts SignIn Login SignInRules People PeopleRuns PeopleWorld.
Open Scope go_scope.

#[local] Existing Instance toy_cipher.

#[local] Instance sample_collation : Collation := {| lower := ToLower_ascii; collate := String.compare |}.
#[local] Instance sample_unicode : Unicode := {| ToLower := ToLower_ascii; ToUpper s := s; Quote s := s |}.
#[local] Instance sample_folding : Folding := {| EqualFold a b := bool_decide (ToLower_ascii a = ToLower_ascii b) |}.
#[local] Instance sample_digest : SHA256 := {| Sum256 s := "#" +:+ s |}.
#[local] Instance sample_addresses : Addresses :=
  {| url_Parse s := Some {| url_Scheme := "https"; url_Host := s; url_Hostname := s; url_user := false |};
     netip_ParseAddr _ := None |}.
#[local] Instance sample_dialing : Dialing :=
  {| netip_ParsePrefix _ := None; net_SplitHostPort s := Some s; Addr_String _ := "" |}.
#[local] Instance sample_web : Web :=
  {| PathEscape s := s; Encode ps := join "&" (map (λ p, p.1 +:+ "=" +:+ p.2) ps);
     url_parts s := Some {| lk_Scheme := "http"; lk_Host := "127.0.0.1:80"; lk_Path := "/"; lk_User := false |};
     url_of scheme host path := scheme +:+ "://" +:+ host +:+ path;
     host_port s := Some (s, "80"); is_loopback s := bool_decide (s = "127.0.0.1:80");
     AuthCodeURL p f := "https://idp.example/" +:+ F_State f; LogoutURL _ _ := "";
     store_text _ := "the store's words"; unb64 := Some;
     VerifyAssertion _ a k := if bool_decide (A_rest a = "signed") then Some (Cr_SignCount k + 1) else None;
     VerifyRegistration c r := Some {| Cr_ID := r; Cr_PublicKey := "key"; Cr_Algorithm := -7; Cr_SignCount := 0 |};
     rune_count s := len s; first_runes n s := take_str n s |}.

Definition sample_directory : provider :=
  {| pv_Name := "corp"; pv_DisplayName := ""; pv_SignUp := false; pv_LDAP := true;
     pv_Mapping := {| OperatorGroups := ["platform"]; AdminGroups := ["leads"]; OperatorEmails := []; Default := RoleMember |} |}.

Definition sample_options : Options :=
  {| OperatorKey := "the-operator-key"; MetricsToken := "metrics"; AgentsServiceKey := "agents";
     Secrets := {| aead := "key"; previous := [] |}; Providers := [sample_directory]; Passkeys := true; TrustedProxies := [];
     SecureCookies := true; PublicURL := "https://keera.example"; ChatURL := ""; AgentsURL := "" |}.

Definition sample_request : request :=
  {| r_Method := "POST"; Authorization := ""; X_CSRF_Token := ""; r_JSON := true; c_session := None; c_login := None; c_org := None;
     c_signup := None; r_query _ := ""; RemoteAddr := "192.0.2.1"; XForwardedFor := []; r_TLS := true; r_Host := "keera.example"; request_id := "r1" |}.

Definition sample_org : Org := {| O_ID := "org-1"; O_Name := "Example"; EmailDomain := "example.com"; Limited := false; O_CreatedAt := 0 |}.

Definition no_people : people :=
  {| orgs := {["org-1" := sample_org]}; users := ∅; sessions := ∅; cli_codes := ∅; cli_tokens := ∅; login_flows := ∅; signups := ∅;
     identities := ∅; passkeys := ∅; passkey_links := ∅; passkey_challenges := ∅ |}.

(** Someone of the group [platform], in the directory. *)
Definition sample_identity : Identity :=
  {| I_Provider := "corp"; I_Subject := "ada"; I_Email := "ada@example.com"; I_Name := "Ada"; I_Groups := ["platform"]; I_RefreshToken := "uid=ada" |}.

(** What answers the calls that are no statements. *)
Definition sample_world (i : Identity) (c : call) : answer c :=
  match c as c return answer c with
  | Idp_Exchange _ _ _ => inr i
  | Idp_Recheck _ _ => inr (i, true)
  | Ldap_Lookup _ username => inr ("uid=" +:+ username)
  | Ldap_Bind _ _ password => if bool_decide (password = "right") then inr i else inl ErrBadCredentials
  | Throttle_Allow _ _ => true
  | Time_Now => 1
  | New_ID prefix => prefix +:+ "-1"
  | New_Token => "token"
  | New_Nonce => "nonce-nonce-"
  | Db_LookupSession _ | Db_TakeCLICode _ | Db_TakePasskeyChallenge _ | Db_LookupCLIToken _ | Db_LoginFlowByState _ | Db_TakeLoginFlow _
  | Db_RecordDirectoryFailure _ | Db_ClaimDirectoryCheck _ _ | Db_HasRefreshToken _ | Db_UserByExternalID _ | Db_UserInOrg _ _
  | Db_AcceptInvitation _ _ _ _ | Db_UserByID _ | Db_AddUser _ _ _ _ _ | Db_LinkedUser _ | Db_InsertLink _ _ | Db_PasskeyLinkUser _
  | Db_Memberships _ _ _ | Db_ExternalIDsFor _ | Db_DisableUser _ _ | Db_ListUsers _ | Db_OrgByEmailDomain _ | Db_OrgByID _ | Db_OnlyOrg
  | Db_FirstOrg | Db_CreateOrg _ | Db_InvitationFor _ | Db_SignupByToken _ | Db_JoinInvitation _ | Db_AddPasskey _
  | Db_PasskeyByCredentialID _ | Db_PasskeyByID _ | Db_ListPasskeys _ | Db_TakePasskeyLink _ => inl ErrDatabase
  | Db_SignUp _ _ => (None, inl ErrDatabase)
  | Db_Audit _ _ _ _ _ _ | Announce _ => tt
  | _ => None
  end.

(** ** Running a program *)

Section drive.
Context (m : moment) (outside : ∀ c, answer c).

(** A program run, each statement answered by the database. *)
Fixpoint drive (fuel : nat) (d : people) (h : list (event (R := answer))) (p : prog answer response) :
  people * list (event (R := answer)) * prog answer response :=
  match fuel, p with
  | S fuel, Do c k =>
      match db_exec m d c with
      | Some (d', x) => drive fuel d' (h ++ [answered (R := answer) c x]) (k x)
      | None => drive fuel d (h ++ [answered (R := answer) c (outside c)]) (k (outside c))
      end
  | _, _ => (d, h, p)
  end.

Lemma no_statement d c : db_exec m d c = None → lost c = None.
Proof. destruct c; cbn; try discriminate; done. Qed.

(** What is run is reachable. *)
Lemma drive_reachable fuel d h p e r : ∀ ts,
  reachable sample_options {| w_people := d; w_gone := ∅; w_threads := ts ++ [{| t_entry := e; t_request := r; seen := h; left_ := p |}] |} →
  let '(d', h', p') := drive fuel d h p in
  reachable sample_options {| w_people := d'; w_gone := ∅; w_threads := ts ++ [{| t_entry := e; t_request := r; seen := h'; left_ := p' |}] |}.
Proof.
  induction fuel as [|fuel IH] in d, h, p |- *; intros ts Hr; [done|]. destruct p as [a|c k]; [done|]. cbn [drive].
  assert (∀ d' x, answers ∅ d c x d' → reachable sample_options {| w_people := d'; w_gone := ∅;
    w_threads := ts ++ [{| t_entry := e; t_request := r; seen := h ++ [answered c x]; left_ := k x |}] |}) as Hstep.
  { intros d' x Ha. eapply r_step; [exact Hr|]. pose proof (w_call sample_options
      {| w_people := d; w_gone := ∅; w_threads := ts ++ [{| t_entry := e; t_request := r; seen := h; left_ := Do c k |}] |}
      (length ts) e r h c k x d') as Hs. cbn [w_people w_gone w_threads] in Hs.
    rewrite list_insert_alter, alter_app_r_alt, Nat.sub_diag in Hs by done.
    apply Hs; [|done]. by rewrite lookup_app_r, Nat.sub_diag. }
  destruct (db_exec m d c) as [[d' x]|] eqn:He.
  - apply IH, Hstep. eapply done_now; [|exact He]. intros; by apply not_elem_of_empty.
  - apply IH, Hstep. apply elsewhere. by apply (no_statement d).
Qed.

Lemma drive_steps fuel d h p : let '(d', h', p') := drive fuel d h p in ∃ tr, h' = h ++ tr ∧ steps p tr p'.
Proof.
  assert (∀ (d : people) (h : list (event (R := answer))) (p : prog answer response), ∃ tr, h = h ++ tr ∧ steps p tr p) as Hnil by (intros _ h' p'; exists []; rewrite app_nil_r; split; [done|constructor]).
  induction fuel as [|fuel IH] in d, h, p |- *; [by apply Hnil|]. destruct p as [a|c k]; [by apply Hnil|]. cbn [drive].
  assert (∀ d' x, let '(_, h', p') := drive fuel d' (h ++ [answered (R := answer) c x]) (k x) in ∃ tr, h' = h ++ tr ∧ steps (Do c k) tr p') as Hk.
  { intros d' x. specialize (IH d' (h ++ [answered (R := answer) c x]) (k x)). destruct (drive _ _ _ _) as [[d2 h2] p2].
    destruct IH as (tr & -> & Hs). exists (answered c x :: tr). rewrite <- app_assoc. split; [done|by constructor]. }
  destruct (db_exec m d c) as [[d' x]|]; apply Hk.
Qed.
End drive.

Definition the_moment : moment := {| m_now := 1; m_revoked := 0; m_fresh := "user-9" |}.

(** A request that arrives at a database, and is run. *)
Definition ran_from (d : people) (i : Identity) (e : entry) : people * list (event (R := answer)) * prog answer response :=
  drive the_moment (sample_world i) 100 d [] (program sample_options e sample_request).

Definition ran : Identity → entry → people * list (event (R := answer)) * prog answer response := ran_from no_people.

Lemma ran_steps d i e : let '(_, h, p) := ran_from d i e in steps (program sample_options e sample_request) h p.
Proof.
  unfold ran_from. pose proof (drive_steps the_moment (sample_world i) 100 d [] (program sample_options e sample_request)) as Hs.
  destruct (drive _ _ _ _ _ _) as [[d' h] p]. by destruct Hs as (tr & -> & Hs).
Qed.

Lemma ran_reachable i e : let '(d, h, p) := ran i e in
  reachable sample_options {| w_people := d; w_gone := ∅; w_threads := [{| t_entry := e; t_request := sample_request; seen := h; left_ := p |}] |}.
Proof.
  unfold ran, ran_from. apply (drive_reachable _ _ _ _ _ _ _ _ []). cbn [app].
  apply (r_step _ {| w_people := no_people; w_gone := ∅; w_threads := [] |}); [by apply r_start|].
  exact (w_start _ {| w_people := no_people; w_gone := ∅; w_threads := [] |} e sample_request).
Qed.

Definition right_password : entry := Post_password (inr ("corp", "", "ada", "right", "")).

Definition ran_world (i : Identity) (e : entry) : world :=
  let '(d, h, p) := ran i e in
  {| w_people := d; w_gone := ∅; w_threads := [{| t_entry := e; t_request := sample_request; seen := h; left_ := p |}] |}.

(** Ada, whose group the configuration maps to the operators, signs in with
    her password. *)
Lemma operators_are_configured_witness :
  let w := ran_world sample_identity right_password in
  ∃ u, users (w_people w) !! "user-1" = Some u ∧ U_Role u = RoleOperator ∧ configured sample_options (w_threads w) (U_ExternalID u).
Proof.
  cbv zeta. assert (∃ u, users (w_people (ran_world sample_identity right_password)) !! "user-1" = Some u ∧ U_Role u = RoleOperator)
    as (u & Hu & Ho) by (eexists; split; vm_compute; reflexivity).
  exists u. split; [exact Hu|]. split; [exact Ho|].
  apply (operators_are_configured _ _ "user-1"); [|exact Hu|exact Ho].
  pose proof (ran_reachable sample_identity right_password) as Hr. unfold ran_world. destruct (ran _ _) as [[d h] p]. exact Hr.
Defined.

(** What a finished run did, its [n]th call taken out. *)
Lemma ran_middle d i e n ev : (ran_from d i e).1.2 !! n = Some ev →
  steps (program sample_options e sample_request) ((take n (ran_from d i e).1.2) ++ ev :: drop (S n) (ran_from d i e).1.2) (ran_from d i e).2.
Proof.
  intros Hev. rewrite (take_drop_middle _ _ _ Hev). pose proof (ran_steps d i e) as Hs. by destruct (ran_from d i e) as [[d' h] p].
Qed.

Lemma sign_ins_are_proven_witness : ∃ n c x,
  (ran_from no_people sample_identity right_password).1.2 !! n = Some (answered c x) ∧ signs_in c = Some "user-1" ∧
  proven (presents_key sample_options right_password) None (take n (ran_from no_people sample_identity right_password).1.2) "user-1".
Proof.
  exists 18%nat, (Db_CreateSession "#token" "user-1" "token" 2592000000000001), None.
  assert ((ran_from no_people sample_identity right_password).1.2 !! 18%nat =
    Some (answered (R := answer) (Db_CreateSession "#token" "user-1" "token" 2592000000000001) None)) as He by (vm_compute; reflexivity).
  split; [exact He|]. split; [reflexivity|].
  eapply (sign_ins_are_proven sample_options right_password sample_request _ _ _ (Db_CreateSession "#token" "user-1" "token" 2592000000000001) None);
    [exact (ran_middle no_people sample_identity right_password 18 _ He)|reflexivity|reflexivity].
Defined.

Definition ada : User :=
  {| U_ID := "user-1"; U_OrgID := "org-1"; U_Email := "ada@example.com"; U_Name := "Ada"; U_ExternalID := "corp:ada"; U_Role := RoleMember;
     U_CreatedAt := 0; DisabledAt := None; signed_in_at := None |}.

(** Ada signed in for her command line, whose verifier is [v]. *)
Definition code_waits : people :=
  no_people <| users := {["user-1" := ada]} |>
    <| cli_codes := {["#c" := {| c_user := "user-1"; c_challenge := s256 "v"; c_expires := 100 |}]} |>.

Definition redeem : entry := Post_cli_token (inr ("c", "v", "laptop")).

Lemma tokens_are_redeemed_witness : ∃ n hash id expires x,
  (ran_from code_waits sample_identity redeem).1.2 !! n = Some (answered (Db_CreateCLIToken hash id expires) x) ∧
  redeemed (take n (ran_from code_waits sample_identity redeem).1.2) id.
Proof.
  exists 6%nat, ("#" +:+ CLITokenPrefix +:+ "token"), "user-1", (1 + ShortSignInTTL), None.
  assert ((ran_from code_waits sample_identity redeem).1.2 !! 6%nat =
    Some (answered (R := answer) (Db_CreateCLIToken ("#" +:+ CLITokenPrefix +:+ "token") "user-1" (1 + ShortSignInTTL)) None)) as He
    by (vm_compute; reflexivity).
  split; [exact He|]. eapply (tokens_are_redeemed sample_options redeem sample_request);
    [exact (ran_middle code_waits sample_identity redeem 6 _ He)|reflexivity].
Defined.

(** Ada is signed in to the panel, and her directory was last asked two hours
    ago. *)
Definition signed_in : people :=
  no_people <| users := {["user-1" := ada]} |>
    <| sessions := {["#cookie" := {| s_user := "user-1"; s_csrf := "csrf"; s_created := 0; s_expires := 100 * Hour |}]} |>
    <| identities := {["corp:ada" := {| refresh_token := Some (Seal (Secrets sample_options) "nonce-nonce-" (RefreshTokenName "corp:ada") "uid=ada");
                                       checked_at := Some 0; failing_since := None |}]} |>.

Definition later : moment := {| m_now := 2 * Hour; m_revoked := 0; m_fresh := "" |}.

(** The directory, two hours on: what it answers a re-check with. *)
Definition asked_again (recheck : recheck_error + (Identity * bool)) (c : call) : answer c :=
  match c as c return answer c with
  | Idp_Recheck _ _ => recheck
  | Time_Now => 2 * Hour
  | c => sample_world sample_identity c
  end.

Definition panel_request : request :=
  {| r_Method := "POST"; Authorization := ""; X_CSRF_Token := "csrf"; r_JSON := true; c_session := Some "cookie"; c_login := None; c_org := None;
     c_signup := None; r_query _ := ""; RemoteAddr := "192.0.2.1"; XForwardedFor := []; r_TLS := true; r_Host := "keera.example"; request_id := "r1" |}.

Definition panel_answer : handler := λ _ p, show [] (Switched (P_OrgID p) (P_Email p) (P_Role p)).

(** Her request reaches the handler, as an operator since the directory says so. *)
Lemma authenticated_admits_witness : ∃ tr q,
  steps (authenticated sample_options panel_answer panel_request) tr q ∧
  q = Ret ([], inr (200, Switched "org-1" "ada@example.com" RoleOperator)) ∧
  (((∃ p, steps (principal sample_options panel_request) tr p) ∧ ∀ x, q = Ret x → ∃ e, x = ([], inl e) ∧ (p_status e = 401 ∨ p_status e = 403)) ∨
   (∃ p tr1 tr2, tr = tr1 ++ tr2 ∧ identified sample_options panel_request tr1 p ∧ csrf_carried panel_request p ∧ steps (panel_answer panel_request p) tr2 q)).
Proof.
  pose (ran := drive later (asked_again (inr (sample_identity, true))) 100 signed_in [] (authenticated sample_options panel_answer panel_request)).
  assert (steps (authenticated sample_options panel_answer panel_request) ran.1.2 ran.2) as Hs.
  { pose proof (drive_steps later (asked_again (inr (sample_identity, true))) 100 signed_in [] (authenticated sample_options panel_answer panel_request)) as Hd.
    unfold ran. destruct (drive _ _ _ _ _ _) as [[d h] p]. by destruct Hd as (tr & -> & ?). }
  exists ran.1.2, ran.2. split; [exact Hs|]. split; [vm_compute; reflexivity|]. exact (authenticated_admits sample_options panel_answer panel_request _ _ Hs).
Defined.

(** The directory refuses Ada. *)
Lemma checkDirectory_signs_out_witness : ∃ tr v, steps (checkDirectory sample_options ada {| Linked := true; CheckedAt := 0 |}) tr (Ret (v, false)) ∧
  signs_out sample_options "corp:ada" tr = true ∧
  ∃ h, spared h ∧ (tr = h ++ [link_ended ada None; link_audited ada] ∨ ∃ e, tr = h ++ [link_ended ada (Some e)]).
Proof.
  pose (sealed := Seal (Secrets sample_options) "nonce-nonce-" (RefreshTokenName "corp:ada") "uid=ada").
  pose (tr := [answered (R := answer) Time_Now (2 * Hour); answered (Db_ClaimDirectoryCheck "corp:ada" (2 * Hour - DirectoryCheckEvery)) (inr (Some sealed));
    answered (Idp_Recheck "corp" "uid=ada") (inl DirectoryRefused); answered (Db_EndDirectoryLink "corp:ada") None;
    answered (Db_Audit (Actor (actorOf ada)) "org-1" "auth.directory_check" "user" "user-1" [("signed_out", "true")]) tt]).
  assert (steps (checkDirectory sample_options ada {| Linked := true; CheckedAt := 0 |}) tr (Ret (ada, false))) as Hs by (repeat constructor).
  exists tr, ada. destruct (checkDirectory_signs_out sample_options _ _ _ _ _ Hs) as (Hv & He). split; [exact Hs|].
  split; [by apply negb_false_iff|exact He].
Defined.

Lemma EndDirectoryLink_ends_witness :
  LookupSession signed_in 1 "#cookie" = inr ("csrf", 0, ada, {| Linked := true; CheckedAt := 0 |}) ∧
  ¬ ∃ csrf created dir, LookupSession (EndDirectoryLink signed_in "corp:ada") 1 "#cookie" = inr (csrf, created, ada, dir).
Proof.
  split; [vm_compute; reflexivity|]. intros (csrf & created & dir & Hl).
  destruct (EndDirectoryLink_ends signed_in "corp:ada" 1) as (Hs & _); [discriminate|]. apply Hs in Hl as (_ & Hne). by apply Hne.
Defined.
