(* ===== verification/Num.v ===== *)
(** * Floating-point numbers

    What the rate limiters compute with [float64]. The operations are a
    class with two instances: IEEE 754 binary64 as the machine has it, and the
    rationals, on which the same definitions compute without rounding. The
    theorems about amounts are over the rationals, and say what the limiters
    promise up to rounding; those about decisions and their order hold for
    both. *)
From S2P Require Import Prelude GoTime.
From Stdlib Require Export Floats.SpecFloat QArith Qround Lqa.
#[global] Open Scope Z_scope.

Class Num (T : Type) := {
  of_Z : Z → T;
  num_add : T → T → T;
  num_sub : T → T → T;
  num_mul : T → T → T;
  num_div : T → T → T;
  num_ltb : T → T → bool;
  num_leb : T → T → bool;
  num_eqb : T → T → bool;
  num_min : T → T → T;
  (** [int(x)], towards zero. *)
  num_trunc : T → Z;
  (** Lua's [math.floor]. *)
  num_floor : T → Z;
  (** Lua's [math.ceil]. *)
  num_ceil : T → Z;
  (** Go's [math.Round], half away from zero, as an integer. *)
  num_round : T → Z;
}.

(** A fraction rounded half away from zero. *)
Definition half_away (a b : Z) : Z := Z.sgn a * ((2 * Z.abs a + b) / (2 * b)).

(** ** The rationals *)

#[export] Instance Num_Q : Num Q :=
  {| of_Z := inject_Z; num_add := Qplus; num_sub := Qminus; num_mul := Qmult; num_div := Qdiv;
     num_ltb x y := negb (Qle_bool y x); num_leb := Qle_bool; num_eqb := Qeq_bool;
     num_min x y := if Qle_bool x y then x else y;
     num_trunc x := Z.quot (Qnum x) (Zpos (Qden x));
     num_floor := Qfloor; num_ceil := Qceiling;
     num_round x := half_away (Qnum x) (Zpos (Qden x)) |}.

(** ** Binary64 *)

Definition float64 : Type := spec_float.

Definition prec64 : Z := 53.
Definition emax64 : Z := 1024.

(** The integer a float rounds to, by [round] on a quotient of integers. A NaN
    or an infinity gives the smallest [int64], as the amd64 conversion does. *)
Definition float_round (round : Z → Z → Z) (x : float64) : Z :=
  match x with
  | S754_zero _ => 0
  | S754_finite s m e =>
      let m := if s then - Zpos m else Zpos m in
      if 0 <=? e then m * 2 ^ e else round m (2 ^ (- e))
  | _ => - two63
  end.

#[export] Instance Num_float64 : Num float64 :=
  {| of_Z z := binary_normalize prec64 emax64 z 0 false;
     num_add := SFadd prec64 emax64; num_sub := SFsub prec64 emax64;
     num_mul := SFmul prec64 emax64; num_div := SFdiv prec64 emax64;
     num_ltb := SFltb; num_leb := SFleb; num_eqb := SFeqb;
     num_min x y :=
       match SFcompare x y with
       | Some Lt => x
       | Some Gt => y
       | Some Eq => match x with S754_zero true => x | _ => y end
       | None => S754_nan
       end;
     num_trunc := float_round Z.quot;
     num_floor := float_round Z.div;
     num_ceil := float_round (λ a b, - (- a / b));
     num_round := float_round half_away |}.

(** ** Durations *)

Section seconds.
Context `{Num T}.

(** [Duration.Seconds]. *)
Definition Seconds (d : Z) : T :=
  num_add (of_Z (Z.quot d Second)) (num_div (of_Z (Z.rem d Second)) (of_Z 1000000000)).
End seconds.

(** *** Lemmas on the rational instance *)

Open Scope Q_scope.

Lemma Qle_bool_false x y : Qle_bool x y = false ↔ y < x.
Proof.
  split.
  - intros H. apply Qnot_le_lt. intros Hle. apply Qle_bool_iff in Hle. congruence.
  - intros H. destruct (Qle_bool x y) eqn:Hc; [|done]. apply Qle_bool_iff in Hc. lra.
Qed.

Lemma num_ltb_Q (x y : Q) : num_ltb x y = true ↔ x < y.
Proof. simpl. rewrite negb_true_iff. apply Qle_bool_false. Qed.

Lemma num_leb_Q (x y : Q) : num_leb x y = true ↔ x <= y.
Proof. apply Qle_bool_iff. Qed.

Lemma num_min_Q (x y : Q) :
  num_min x y <= x ∧ num_min x y <= y ∧ (num_min x y == x ∨ num_min x y == y).
Proof.
  simpl. destruct (Qle_bool x y) eqn:H.
  - apply Qle_bool_iff in H. split; [lra|split; [done|left; lra]].
  - apply Qle_bool_false in H. split; [lra|split; [lra|right; lra]].
Qed.

Lemma inject_Z_lt a b : (a < b)%Z ↔ inject_Z a < inject_Z b.
Proof. by rewrite Zlt_Qlt. Qed.

Lemma Seconds_Q (d : Z) : Seconds d == inject_Z d / inject_Z 1000000000.
Proof.
  unfold Seconds. simpl. change Second with 1000000000%Z.
  rewrite (Z.quot_rem' d 1000000000) at 3. rewrite inject_Z_plus, inject_Z_mult. field.
Qed.

Lemma num_trunc_Q (x : Q) : 0 <= x →
  inject_Z (num_trunc x) <= x ∧ x < inject_Z (num_trunc x + 1).
Proof.
  intros Hx. assert (num_trunc x = Qfloor x) as ->.
  { destruct x as [a b]. simpl. apply Z.quot_div_nonneg; [|lia].
    unfold Qle in Hx. simpl in Hx. lia. }
  split; [apply Qfloor_le|apply Qlt_floor].
Qed.

Lemma num_round_Q (x : Q) (a b : Z) : (0 <= a)%Z → (0 < b)%Z → x == inject_Z a / inject_Z b →
  num_round x = ((2 * a + b) / (2 * b))%Z.
Proof.
  intros Ha Hb Hx. destruct x as [n d]. cbn [num_round Num_Q Qnum Qden]. unfold half_away.
  assert (n * b = a * Zpos d)%Z as Heq.
  { assert (inject_Z n * inject_Z b == inject_Z a * inject_Z (Zpos d)) as H.
    { assert ((n # d) == inject_Z n / inject_Z (Zpos d)) as Hn by (apply Qmake_Qdiv). rewrite Hn in Hx.
      assert (~ inject_Z (Zpos d) == 0) by (intros H0; unfold Qeq in H0; cbn in H0; lia).
      assert (~ inject_Z b == 0) by (intros H0; unfold Qeq in H0; cbn in H0; lia).
      transitivity (inject_Z n / inject_Z (Zpos d) * inject_Z (Zpos d) * inject_Z b); [by field|]. rewrite Hx. by field. }
    rewrite <- !inject_Z_mult in H. exact (proj1 (inject_Z_injective _ _) H). }
  assert (0 <= n)%Z by nia. assert (Z.abs n = n)%Z as -> by lia.
  assert (Z.sgn n * ((2 * n + Z.pos d) / (2 * Z.pos d)) = (2 * n + Z.pos d) / (2 * Z.pos d))%Z as ->.
  { destruct (decide (n = 0)%Z) as [->|]; [|replace (Z.sgn n) with 1%Z by lia; lia]. cbn. rewrite Z.div_small; lia. }
  rewrite <- (Z.div_mul_cancel_r (2 * n + Zpos d) (2 * Zpos d) b) by lia.
  rewrite <- (Z.div_mul_cancel_r (2 * a + b) (2 * b) (Zpos d)) by lia.
  f_equal; lia.
Qed.
Close Scope Q_scope.
