(* ===== verification/Replies.v ===== *)
(** * What a small model answered

    [internal/gateway/filter_reply.go] and [internal/gateway/choice.go]: how a
    rewrite filter's, a gate's and a route step's answers are read, and
    [readDecision] and [chosenDestination] of [internal/gateway/route.go]. *)
From S2P Require Import Prelude Num Tenancy Text RouterCheck.

(** ** The standard library's tables and decoders *)

(** One position of a completion's [logprobs]: the token, its log-probability
    and the alternatives. *)
Record position (T : Type) := { pos_token : string; pos_logprob : T; pos_top : list (string * T) }.
Arguments pos_token {T}.
Arguments pos_logprob {T}.
Arguments pos_top {T}.

(** [encoding/json] on the three shapes the answers are decoded into: the
    contents of the choices' messages, the positions of the choices'
    [logprobs], and an array of strings. [inl] is the decoder's error. *)
Class Completions (T : Type) := {
  json_contents : string → string + list string;
  json_logprobs : string → string + list (list (position T));
  json_strings : string → string + list string;
}.

(** ** Strings *)

Definition in_set (cutset : string) (a : Ascii.ascii) : bool := contains_byte a cutset.

(** [strings.TrimLeft s cutset] for an ASCII cutset. *)
Fixpoint TrimLeft (cutset s : string) : string :=
  match s with
  | String a s' => if in_set cutset a then TrimLeft cutset s' else s
  | EmptyString => EmptyString
  end.

(** [strings.Trim s cutset]. *)
Definition Trim (cutset s : string) : string :=
  str_rev (TrimLeft cutset (str_rev (TrimLeft cutset s))).

(** [strings.IndexByte] and [strings.LastIndexByte]. *)
Fixpoint IndexByte (c : Ascii.ascii) (s : string) : option nat :=
  match s with
  | EmptyString => None
  | String a s => if bool_decide (a = c) then Some O else S <$> IndexByte c s
  end.

Definition LastIndexByte (c : Ascii.ascii) (s : string) : option nat :=
  (λ i, (String.length s - 1 - i)%nat) <$> IndexByte c (str_rev s).

(** [strings.Index]. *)
Definition Index (s sub : string) : option nat := String.index 0 sub s.

Definition tab : string := chr 9.
Definition newline : string := chr 10.
Definition return_ : string := chr 13.
Definition em_dash : string := bytes [226; 128; 148].
Definition white : string := " " +:+ tab +:+ newline +:+ return_.

(** ** Verdicts *)

Definition filterRefusalToken : string := "REFUSED".

Definition gateRefusalTokens : list string := [filterRefusalToken; "REFUSE"].
Definition gateAllowTokens : list string := ["ALLOW"; "ALLOWED"].

Definition gateUnwrittenReason : string :=
  "the guardrail refused this request without saying what it found".

(** The loop over the separators of [verdictReason]. *)
Fixpoint cut_any (rest : string) (seps : list string) : option string :=
  match seps with
  | [] => None
  | sep :: seps => match CutPrefix rest sep with Some after => Some after | None => cut_any rest seps end
  end.

Definition verdictReason (s word : string) : option string :=
  let s := Trim ("`*#>_" +:+ white) s in
  if (String.length s <? String.length word)%nat
    || negb (EqualFold (take_str (String.length word) s) word) then None
  else
    let rest := TrimLeft "`*_" (drop_str (String.length word) s) in
    if bool_decide (rest = "") then Some ""
    else sanitizeReason <$> cut_any rest [":"; "."; em_dash; "-"; " "; tab; newline; return_].

Definition refusalReason (s : string) : option string := verdictReason s filterRefusalToken.

Fixpoint anyVerdict (s : string) (words : list string) : option string :=
  match words with
  | [] => None
  | word :: words =>
      match verdictReason s word with Some reason => Some reason | None => anyVerdict s words end
  end.

(** The loop of [unanimousRefusal], from slot [i]. *)
Fixpoint unanimous_loop (out sent : list string) (i : nat) (reason : string) : option string :=
  match out with
  | [] => Some reason
  | s :: out =>
      match refusalReason s with
      | None => None
      | Some r =>
          if bool_decide (sent !! i = Some s) then None
          else unanimous_loop out sent (S i) (if bool_decide (reason = "") then r else reason)
      end
  end.

Definition unanimousRefusal (out sent : list string) : option string :=
  match out with [] => None | _ => unanimous_loop out sent 0 "" end.

(** [filterRefusedError] and the other errors. *)
Inductive FilterError :=
  | FilterRefusedError (reason : string)
  | FilterTooLargeError (msg : string)
  | OtherError (msg : string).

Section answers.
Context `{Num T} `{MapRange} `{Unicode} `{!Completions T}.
(** [math.Exp]. *)
Context (Exp : T → T).

(** ** The written answer *)

Definition completionText (raw : string) : string + string :=
  match json_contents raw with
  | inl err => inl ("its answer was not a completion: " +:+ err)
  | inr [] => inl "its answer carried no completion"
  | inr (content :: _) =>
      let text := TrimSpace content in
      if bool_decide (text = "") then inl "it answered with nothing" else inr text
  end.

Definition open_bracket : Ascii.ascii := Ascii.ascii_of_nat 91.
Definition close_bracket : Ascii.ascii := Ascii.ascii_of_nat 93.

(** [text[start:end+1]] of [parseFilterReply], when there is such a slice. *)
Definition bracketed (text : string) : option string :=
  match IndexByte open_bracket text, LastIndexByte close_bracket text with
  | Some start, Some stop =>
      if (stop <? start)%nat then None else Some (String.substring start (stop + 1 - start) text)
  | _, _ => None
  end.

(** The array part of [parseFilterReply]. *)
Definition parse_array (text : string) (sent : list string) : FilterError + list string :=
  match bracketed text with
  | None => inl (OtherError ("it answered with prose rather than a JSON array; " +:+
      "this filter's model may be too small to follow the format"))
  | Some array =>
      match json_strings array with
      | inl err => inl (OtherError ("its answer was not a JSON array of strings: " +:+ err))
      | inr out =>
          match unanimousRefusal out sent with
          | Some reason => inl (FilterRefusedError reason)
          | None =>
              if (length out =? length sent)%nat then inr out
              else inl (OtherError ("it returned " +:+ pretty (length out) +:+
                " segments where the request had " +:+ pretty (length sent) +:+
                ", so part of the request would have been lost"))
          end
      end
  end.

Definition parseFilterReply (raw : string) (sent : list string) : FilterError + list string :=
  match completionText raw with
  | inl err => inl (OtherError err)
  | inr text =>
      match refusalReason text with
      | Some reason =>
          if negb (length sent =? 1)%nat || negb (bool_decide (sent !! 0%nat = Some text))
          then inl (FilterRefusedError reason)
          else parse_array text sent
      | None => parse_array text sent
      end
  end.

(** ** The first token's distribution *)

(** [keep] of [firstToken]. *)
Definition keep (seen : gmap string T) (token : string) (logprob : T) : gmap string T :=
  match seen !! token with
  | Some was => if num_ltb was logprob then <[token := logprob]> seen else seen
  | None => <[token := logprob]> seen
  end.

Definition firstToken (raw : string) : option (gmap string T) :=
  match json_logprobs raw with
  | inr ((first :: _) :: _) =>
      Some (foldl (λ seen alt, keep seen alt.1 alt.2)
        (keep ∅ (pos_token first) (pos_logprob first)) (pos_top first))
  | _ => None
  end.

(** The highest log-probability of an answer; [None] is negative infinity. *)
Definition highest (l : list (string * T)) (classify : string → option nat) : option T :=
  foldl (λ high '(token, logprob),
    if bool_decide (is_Some (classify token)) &&
       match high with None => true | Some h => num_ltb h logprob end
    then Some logprob else high) None l.

(** The weights and their total. *)
Definition weigh (l : list (string * T)) (n : nat) (classify : string → option nat) (high : T)
    : list T * T :=
  foldl (λ '(weights, total) '(token, logprob),
    match classify token with
    | Some i =>
        if (n <=? i)%nat then (weights, total)
        else
          let w := Exp (num_sub logprob high) in
          (alter (λ v, num_add v w) i weights, num_add total w)
    | None => (weights, total)
    end) (repeat (of_Z 0) n, of_Z 0) l.

Definition weight (weights : list T) (i : nat) : T := default (of_Z 0) (weights !! i).

(** [for i, w := range weights { if w > weights[best] { best = i } }]. *)
Definition best_of (weights : list T) : nat :=
  foldl (λ best i, if num_ltb (weight weights best) (weight weights i) then i else best)
    O (seq 0 (length weights)).

Definition pick (seen : gmap string T) (n : nat) (classify : string → option nat)
    : option (nat * T) :=
  match highest (map_range seen) classify with
  | None => None
  | Some high =>
      let '(weights, total) := weigh (map_range seen) n classify high in
      let best := best_of weights in
      if num_eqb (weight weights best) (of_Z 0) then None
      else Some (best, num_div (weight weights best) total)
  end.

Definition labelIndex (token : string) (n : nat) : option nat :=
  match TrimSpace token with
  | String c EmptyString =>
      let c := if (97 <=? byte_val c)%nat && (byte_val c <=? 122)%nat
        then (byte_val c - 32)%nat else byte_val c in
      (* subtraction of bytes wraps around *)
      let i := ((c + 191) mod 256)%nat in
      if (n <=? i)%nat then None else Some i
  | _ => None
  end.

Definition begins (a b : string) : bool := has_prefix a b || has_prefix b a.

Definition verdictAllow : nat := 0%nat.
Definition verdictRefuse : nat := 1%nat.

Definition verdictIndex (token : string) : option nat :=
  let t := ToUpper (TrimSpace token) in
  if bool_decide (t = "") then None
  else if begins t "ALLOW" then Some verdictAllow
  else if begins t filterRefusalToken then Some verdictRefuse
  else None.

Definition readChoice (raw : string) (n : nat) : option (nat * T) :=
  match firstToken raw with
  | None => None
  | Some seen => pick seen n (λ token, labelIndex token n)
  end.

Definition readVerdict (raw : string) : option (bool * T) :=
  match firstToken raw with
  | None => None
  | Some seen =>
      match pick seen 2 verdictIndex with
      | Some (i, share) => Some (bool_decide (i = verdictAllow), share)
      | None => None
      end
  end.

(** ** A gate's verdict *)

(** [parseGateReply]: the share, and [None] when the request may go. *)
Definition parseGateReply (raw : string) : T * option FilterError :=
  let read := readVerdict raw in
  let share := match read with Some (_, share) => share | None => of_Z 0 end in
  match completionText raw with
  | inl err =>
      match read with
      | None => (of_Z 0, Some (OtherError err))
      | Some (true, share) => (share, None)
      | Some (false, share) => (share, Some (FilterRefusedError gateUnwrittenReason))
      end
  | inr text =>
      match anyVerdict text gateRefusalTokens with
      | Some reason => (share, Some (FilterRefusedError reason))
      | None =>
          if bool_decide (is_Some (anyVerdict text gateAllowTokens)) then (share, None)
          else if has_prefix text "[" then
            (share, Some (OtherError ("it answered with a rewrite rather than a verdict; a gate is " +:+
              "asked whether a request may go, so its instruction has to say what to refuse " +:+
              "rather than what to replace")))
          else match read with
          | Some (true, share) => (share, None)
          | Some (false, share) =>
              let reason := sanitizeReason text in
              (share, Some (FilterRefusedError
                (if bool_decide (reason = "") then gateUnwrittenReason else reason)))
          | None => (of_Z 0, Some (OtherError
              ("it answered neither ALLOW nor REFUSED; this filter's model may be too " +:+
               "small to hold the format, or its instruction may be asking for something other " +:+
               "than a verdict")))
          end
      end
  end.

(** ** A route step's decision *)

Definition isAliasByte (s : string) (i : Z) : bool :=
  if (i <? 0) || (len s <=? i) then false
  else match String.get (Z.to_nat i) s with
  | Some c => is_lower c || is_digit c || bool_decide (c = hyphen) || bool_decide (c = slash)
  | None => false
  end.

(** The first destination the answer is the name of. *)
Fixpoint named_exactly (cleaned : string) (destinations : list string) : option string :=
  match destinations with
  | [] => None
  | alias :: destinations =>
      if bool_decide (cleaned = ToLower alias) then Some alias
      else named_exactly cleaned destinations
  end.

(** Whether [alias] counts as named in the sentence [lower]: its first
    occurrence is not part of a longer name. *)
Definition mentioned (lower alias : string) : bool :=
  match Index lower (ToLower alias) with
  | None => false
  | Some at_ =>
      negb (isAliasByte lower (Z.of_nat at_ - 1) || isAliasByte lower (Z.of_nat at_ + len alias))
  end.

(** The loop that looks for a name inside a sentence. *)
Fixpoint mention_loop (lower : string) (destinations : list string) (found : string) (matches : nat)
    : option string :=
  match destinations with
  | [] => if (matches =? 1)%nat then Some found else None
  | alias :: destinations =>
      if negb (mentioned lower alias) then mention_loop lower destinations found matches
      else if (1 <? S matches)%nat then None
      else mention_loop lower destinations alias (S matches)
  end.

Definition name_cutset : string :=
  "`*#>_-" +:+ chr 34 +:+ "'.,:;! " +:+ tab +:+ newline +:+ return_.

Definition chosenDestination (text : string) (destinations : list string) : option string :=
  match named_exactly (ToLower (Trim name_cutset (TrimSpace text))) destinations with
  | Some alias => Some alias
  | None => mention_loop (ToLower text) destinations "" 0
  end.

(** An error, and whether it is [unreadable]: worth asking again by name. *)
Record DecideError := { de_msg : string; de_unreadable : bool }.

Definition readDecision (raw : string) (offered : list string) (byLetter : bool)
    : DecideError + string * T :=
  let written :=
    match completionText raw with
    | inl err => inl {| de_msg := err; de_unreadable := byLetter |}
    | inr text =>
        if byLetter then
          match labelIndex text (length offered) with
          | Some i => inr (default "" (offered !! i), of_Z 0)
          | None => inl {| de_msg := "it answered with neither a distribution nor one " +:+
              "of the letters it was offered"; de_unreadable := true |}
          end
        else match chosenDestination text offered with
        | Some chosen => inr (chosen, of_Z 0)
        | None => inl {| de_msg := "it answered with something that names none of this " +:+
            "router's destinations; the model it decides with may be too small to hold the " +:+
            "format, or its instruction may be asking for something other than a choice";
            de_unreadable := false |}
        end
    end in
  if byLetter then
    match readChoice raw (length offered) with
    | Some (i, share) => inr (default "" (offered !! i), share)
    | None => written
    end
  else written.
End answers.

(** ** Lemmas *)

(** *** Bounds, for any numbers *)

Section bounds.
Context `{Num T} `{MapRange} `{Unicode} `{!Completions T} (Exp : T → T).

Lemma labelIndex_lt token n i : labelIndex token n = Some i → (i < n)%nat.
Proof.
  unfold labelIndex. destruct (TrimSpace token) as [|c [|]]; try done.
  destruct (n <=? _)%nat eqn:Hn; [done|]. intros [= <-]. by apply Nat.leb_gt.
Qed.

Lemma weigh_length l n classify high : length (weigh Exp l n classify high).1 = n.
Proof.
  unfold weigh.
  assert (∀ ws total, length ws = n → length (foldl (λ '(weights, total) '(token, logprob),
    match classify token with
    | Some i => if (n <=? i)%nat then (weights, total)
        else let w := Exp (num_sub logprob high) in
          (alter (λ v, num_add v w) i weights, num_add total w)
    | None => (weights, total) end) (ws, total) l).1 = n) as Hw.
  { induction l as [|[token lp] l IH]; intros ws total Hl; simpl; [done|].
    destruct (classify token) as [i|]; [|by apply IH]. destruct (n <=? i)%nat; [by apply IH|].
    apply IH. by rewrite length_alter. }
  apply Hw, repeat_length.
Qed.

Lemma best_of_lt weights : weights ≠ [] → (best_of weights < length weights)%nat.
Proof.
  intros Hne. unfold best_of.
  assert (∀ l b, (b < length weights)%nat → (∀ i, i ∈ l → (i < length weights)%nat) →
    (foldl (λ best i, if num_ltb (weight weights best) (weight weights i) then i else best) b l
      < length weights)%nat) as Hb.
  { induction l as [|i l IH]; intros b Hb Hl; simpl; [done|].
    apply IH; [|set_solver]. destruct (num_ltb _ _); [apply Hl; set_solver|done]. }
  apply Hb; [by destruct weights; [|simpl; lia]|]. intros i Hi%elem_of_seq. lia.
Qed.

Lemma highest_some l classify high :
  highest l classify = Some high → ∃ token lp, (token, lp) ∈ l ∧ is_Some (classify token).
Proof.
  unfold highest.
  assert (∀ h0, (∀ high, h0 = Some high → ∃ token lp, (token, lp) ∈ l ∧ is_Some (classify token)) →
    foldl (λ high '(token, logprob),
      if bool_decide (is_Some (classify token)) &&
         match high with None => true | Some h => num_ltb h logprob end
      then Some logprob else high) h0 l = Some high →
    ∃ token lp, (token, lp) ∈ l ∧ is_Some (classify token)) as Hh; [|by apply Hh].
  induction l as [|[token lp] l IH]; intros h0 Hh0 Hf; simpl in *; [by apply (Hh0 high)|].
  destruct (decide (is_Some (classify token))) as [Hs|Hn].
  { exists token, lp. split; [left|done]. }
  rewrite bool_decide_eq_false_2 in Hf by done. simpl in Hf.
  destruct (IH h0) as (t & p & Hin & Hs); [|done|].
  - intros h Hh. destruct (Hh0 h Hh) as (t & p & [[= -> ->]|Hin]%elem_of_cons & Hs); [done|eauto].
  - exists t, p. split; [by right|done].
Qed.

Lemma pick_lt seen n classify i share :
  (∀ token j, classify token = Some j → (j < n)%nat) →
  pick Exp seen n classify = Some (i, share) → (i < n)%nat.
Proof.
  intros Hc. unfold pick. destruct (highest _ _) as [high|] eqn:Hh; [|done].
  apply highest_some in Hh as (token & lp & _ & j & Hj). apply Hc in Hj.
  pose proof (weigh_length (map_range seen) n classify high) as Hl.
  destruct (weigh _ _ _ _ _) as [weights total]. simpl in Hl.
  destruct (num_eqb _ _); [done|]. intros [= <- _]. rewrite <- Hl. apply best_of_lt.
  intros ->. simpl in Hl. lia.
Qed.

Lemma named_exactly_in cleaned destinations alias :
  named_exactly cleaned destinations = Some alias →
  alias ∈ destinations ∧ cleaned = ToLower alias.
Proof.
  induction destinations as [|a destinations IH]; simpl; [done|].
  case_bool_decide; [intros [= ->]; split; [left|done]|].
  intros [? ?]%IH. split; [by right|done].
Qed.

Lemma mention_loop_spec lower destinations found matches alias :
  mention_loop lower destinations found matches = Some alias →
  (matches = 1%nat ∧ alias = found ∧ Forall (λ d, mentioned lower d = false) destinations) ∨
  (matches = 0%nat ∧ ∃ before after, destinations = before ++ alias :: after ∧
    mentioned lower alias = true ∧ Forall (λ d, mentioned lower d = false) (before ++ after)).
Proof.
  revert found matches. induction destinations as [|d destinations IH]; intros found matches; simpl.
  - destruct (matches =? 1)%nat eqn:Hm; [|done]. apply Nat.eqb_eq in Hm as ->.
    intros [= ->]. by left.
  - destruct (mentioned lower d) eqn:Hd; simpl.
    + destruct matches as [|[|matches]]; simpl; [|done..].
      intros [(_ & -> & Hall)|(? & _)]%IH; [|done]. right. split; [done|].
      by exists [], destinations.
    + intros [(-> & -> & Hall)|(-> & before & after & -> & Ha & Hall)]%IH.
      * left. split; [done|]. split; [done|]. by constructor.
      * right. split; [done|]. exists (d :: before), after. split; [done|]. split; [done|].
        simpl. by constructor.
Qed.
End bounds.

(** *** The likeliest answer, over the rationals *)

Lemma lookup_repeat {A} (x : A) n j : (j < n)%nat → repeat x n !! j = Some x.
Proof. revert j. induction n as [|n IH]; intros [|j] Hj; simpl; [lia..|done|apply IH; lia]. Qed.

Section likeliest.
Context (Exp : Q → Q).
Local Open Scope Q_scope.

(** The probability, up to a common factor, of the tokens of one answer. *)
Definition mass (l : list (string * Q)) (classify : string → option nat) (high : Q) (i : nat) : Q :=
  foldr (λ '(token, logprob) sum,
    (if bool_decide (classify token = Some i) then Exp (logprob - high) else 0) + sum) 0 l.

(** The probability of every token that is one of [n] answers. *)
Definition mass_below (l : list (string * Q)) (n : nat) (classify : string → option nat) (high : Q)
    : Q :=
  foldr (λ '(token, logprob) sum,
    (if match classify token with Some i => (i <? n)%nat | None => false end
     then Exp (logprob - high) else 0) + sum) 0 l.

Lemma mass_cons token lp l classify high i :
  mass ((token, lp) :: l) classify high i =
  (if bool_decide (classify token = Some i) then Exp (lp - high) else 0) + mass l classify high i.
Proof. done. Qed.

Lemma mass_below_cons token lp l n classify high :
  mass_below ((token, lp) :: l) n classify high =
  (if match classify token with Some i => (i <? n)%nat | None => false end
   then Exp (lp - high) else 0) + mass_below l n classify high.
Proof. done. Qed.

Lemma weight_alter weights (i j : nat) (w : Q) : (i < length weights)%nat →
  weight (alter (λ v, num_add v w) i weights) j ==
  weight weights j + (if decide (i = j) then w else 0).
Proof.
  intros Hi. unfold weight. rewrite list_lookup_alter. destruct (decide (i = j)) as [->|Hij].
  - destruct (lookup_lt_is_Some_2 weights j Hi) as [v ->]. simpl. lra.
  - simpl. lra.
Qed.

Lemma weigh_spec l n classify high :
  (∀ j, (j < n)%nat → weight (weigh Exp l n classify high).1 j == mass l classify high j) ∧
  (weigh Exp l n classify high).2 == mass_below l n classify high.
Proof.
  unfold weigh.
  assert (∀ ws total, length ws = n →
    let r := foldl (λ '(weights, total) '(token, logprob),
      match classify token with
      | Some i => if (n <=? i)%nat then (weights, total)
          else let w := Exp (num_sub logprob high) in
            (alter (λ v, num_add v w) i weights, num_add total w)
      | None => (weights, total) end) (ws, total) l in
    (∀ j, (j < n)%nat → weight r.1 j == weight ws j + mass l classify high j) ∧
    r.2 == total + mass_below l n classify high) as Hw.
  { induction l as [|[token lp] l IH]; intros ws total Hl; cbn [foldl mass mass_below foldr].
    - split; [intros; simpl; lra|simpl; lra].
    - destruct (classify token) as [i|].
      + destruct (n <=? i)%nat eqn:Hn.
        * apply Nat.leb_le in Hn. destruct (IH ws total Hl) as [H1 H2]. split.
          -- intros j Hj. rewrite (H1 j Hj), bool_decide_eq_false_2 by (intros [= ->]; lia).
             unfold mass. lra.
          -- rewrite H2, (proj2 (Nat.ltb_ge i n)) by done. unfold mass_below. lra.
        * apply Nat.leb_gt in Hn.
          destruct (IH (alter (λ v, num_add v (Exp (num_sub lp high))) i ws)
            (num_add total (Exp (num_sub lp high)))) as [H1 H2]; [by rewrite length_alter|]. split.
          -- intros j Hj. rewrite (H1 j Hj), weight_alter by (by rewrite Hl). unfold mass. simpl num_sub.
             destruct (decide (i = j)) as [->|Hij].
             ++ rewrite bool_decide_eq_true_2 by done. lra.
             ++ rewrite bool_decide_eq_false_2 by congruence. lra.
          -- rewrite H2, (proj2 (Nat.ltb_lt i n)) by done. simpl. unfold mass_below. lra.
      + destruct (IH ws total Hl) as [H1 H2]. split.
        * intros j Hj. rewrite (H1 j Hj), bool_decide_eq_false_2 by done. unfold mass. lra.
        * rewrite H2. unfold mass_below. lra. }
  destruct (Hw (repeat (of_Z 0) n) (of_Z 0)) as [H1 H2]; [apply repeat_length|]. split.
  - intros j Hj. rewrite (H1 j Hj). unfold weight.
    rewrite lookup_repeat by done. cbn [default from_option id of_Z Num_Q]. unfold inject_Z. lra.
  - rewrite H2. cbn [of_Z Num_Q]. unfold inject_Z. lra.
Qed.

Lemma best_of_spec (weights : list Q) (x : nat) : (x < length weights)%nat →
  weight weights x <= weight weights (best_of weights) ∧
  ((x < best_of weights)%nat → weight weights x < weight weights (best_of weights)).
Proof.
  unfold best_of.
  assert (∀ m b, (b <= m)%nat →
    (∀ j, (j < m)%nat → weight weights j <= weight weights b ∧
      ((j < b)%nat → weight weights j < weight weights b)) →
    ∀ k j, (j < m + k)%nat →
      let r := foldl (λ best i, if num_ltb (weight weights best) (weight weights i) then i else best)
        b (seq m k) in
      weight weights j <= weight weights r ∧ ((j < r)%nat → weight weights j < weight weights r))
    as Hb.
  { intros m b Hbm Hm k. revert m b Hbm Hm. induction k as [|k IH]; intros m b Hbm Hm j Hj.
    { simpl. apply Hm. lia. }
    cbn [seq foldl]. destruct (num_ltb (weight weights b) (weight weights m)) eqn:Hlt.
    - apply num_ltb_Q in Hlt. apply (IH (S m) m); [lia| |lia].
      intros i Hi. destruct (decide (i = m)) as [->|]; [split; [lra|lia]|].
      destruct (Hm i) as [Hle _]; [lia|]. split; [lra|intros; lra].
    - assert (¬ weight weights b < weight weights m) as Hge
        by (intros Hx; apply num_ltb_Q in Hx; congruence).
      apply (IH (S m) b); [lia| |lia].
      intros i Hi. destruct (decide (i = m)) as [->|]; [split; [lra|lia]|]. apply Hm. lia. }
  intros Hx. apply (Hb O O); [lia|lia|simpl; lia].
Qed.

Hypothesis Exp_pos : ∀ x, 0 < Exp x.

Lemma mass_nonneg l classify high i : 0 <= mass l classify high i.
Proof.
  induction l as [|[token lp] l IH]; [simpl; lra|]. rewrite mass_cons.
  pose proof (Exp_pos (lp - high)). case_bool_decide; lra.
Qed.

Lemma mass_le_below l n classify high i : (i < n)%nat →
  mass l classify high i <= mass_below l n classify high.
Proof.
  intros Hi. induction l as [|[token lp] l IH]; [simpl; lra|]. rewrite mass_cons, mass_below_cons.
  pose proof (Exp_pos (lp - high)). case_bool_decide as Hc.
  - rewrite Hc, (proj2 (Nat.ltb_lt i n)) by done. lra.
  - destruct (match classify token with Some i => (i <? n)%nat | None => false end); lra.
Qed.

(** What [pick] picks. *)
Record picked (l : list (string * Q)) (n : nat) (classify : string → option nat) (high : Q)
    (i : nat) (share : Q) : Prop := {
  pk_in : (i < n)%nat;
  pk_most : ∀ j, (j < n)%nat → mass l classify high j <= mass l classify high i;
  pk_first : ∀ j, (j < i)%nat → mass l classify high j < mass l classify high i;
  pk_share : share * mass_below l n classify high == mass l classify high i;
  pk_range : 0 < share <= 1;
}.

Lemma pick_picked `{MapRange} (seen : gmap string Q) n classify i share :
  (∀ token j, classify token = Some j → (j < n)%nat) →
  pick Exp seen n classify = Some (i, share) →
  ∃ high, highest (map_range seen) classify = Some high ∧
    picked (map_range seen) n classify high i share.
Proof.
  intros Hc Hpick. pose proof (pick_lt Exp seen n classify i share Hc Hpick) as Hi.
  unfold pick in Hpick. destruct (highest _ _) as [high|] eqn:Hh; [|done].
  exists high. split; [done|].
  pose proof (weigh_length Exp (map_range seen) n classify high) as Hl.
  destruct (weigh_spec (map_range seen) n classify high) as [Hw Ht].
  destruct (weigh Exp _ _ _ _) as [weights total]. simpl in Hl, Hw, Ht.
  destruct (num_eqb _ _) eqn:Hz; [done|]. injection Hpick as Hb Hs.
  pose proof (best_of_spec weights) as Hbest. rewrite Hb in Hbest.
  rewrite Hb in Hs, Hz. simpl num_div in Hs.
  assert (~ weight weights i == 0) as Hne
    by (intros E%Qeq_bool_iff; change (Qeq_bool (weight weights i) 0 = false) in Hz; congruence).
  pose proof (Hw i Hi) as Hwi. pose proof (mass_nonneg (map_range seen) classify high i).
  pose proof (mass_le_below (map_range seen) n classify high i Hi) as Hle.
  rewrite <- Ht in Hle. rewrite Hwi in Hne.
  assert (0 < mass (map_range seen) classify high i) as Hpos by lra.
  assert (0 < total) as Htp by lra.
  split.
  - done.
  - intros j Hj. rewrite <- (Hw j Hj), <- Hwi. apply Hbest. lia.
  - intros j Hj. rewrite <- (Hw j), <- Hwi by lia. apply Hbest; lia.
  - rewrite <- Hs, <- Ht, Hwi. field. lra.
  - rewrite <- Hs, Hwi. split.
    + apply Qlt_shift_div_l; lra.
    + apply Qle_shift_div_r; lra.
Qed.
End likeliest.

(** *** Text that begins with a bracket *)

Lemma TrimLeft_last cutset x c : in_set cutset c = false →
  ∃ x', TrimLeft cutset (x +:+ String c "") = x' +:+ String c "".
Proof.
  intros Hc. induction x as [|a x IH].
  - exists "". rewrite !str_app_nil_l. simpl. by rewrite Hc.
  - rewrite str_app_cons. simpl. destruct (in_set cutset a); [done|].
    exists (String a x). by rewrite str_app_cons.
Qed.

Lemma Trim_keeps_first cutset c s : in_set cutset c = false →
  ∃ s', Trim cutset (String c s) = String c s'.
Proof.
  intros Hc. unfold Trim. simpl TrimLeft at 2. rewrite Hc, str_rev_cons.
  destruct (TrimLeft_last cutset (str_rev s) c Hc) as [x' ->].
  exists (str_rev x'). by rewrite str_rev_app.
Qed.

Lemma bracketed_first text array : bracketed text = Some array →
  text = array → ∃ s, text = String open_bracket s.
Proof.
  unfold bracketed. destruct (IndexByte open_bracket text) as [[|i]|] eqn:Hi; [|..|done].
  - intros _ _. destruct text as [|a s]; [done|]. simpl in Hi.
    case_bool_decide; [subst; by exists s|]. by destruct (IndexByte open_bracket s).
  - destruct (LastIndexByte close_bracket text) as [j|]; [|done].
    destruct (j <? S i)%nat eqn:Hlt; [done|]. intros [= <-] Heq. exfalso.
    destruct text as [|a s]; [done|]. apply (f_equal String.length) in Heq.
    assert (∀ m n s, (String.length (String.substring m n s) <= String.length s - m)%nat) as Hsub.
    { clear. intros m. induction m as [|m IH].
      - induction n as [|n IHn]; intros [|a s]; simpl; try lia. specialize (IHn s). lia.
      - intros n [|a s]; simpl; [lia|]. apply IH. }
    specialize (Hsub (S i) (j + 1 - S i)%nat (String a s)). simpl String.length in *. lia.
Qed.

Lemma bracket_no_verdict s : refusalReason (String open_bracket s) = None.
Proof.
  unfold refusalReason, verdictReason.
  destruct (Trim_keeps_first ("`*#>_" +:+ white) open_bracket s) as [s' ->]; [done|].
  match goal with |- (if ?b then _ else _) = _ => assert (b = true) as ->; [|done] end.
  apply orb_true_iff. right. apply negb_true_iff, bool_decide_eq_false.
  intros E. apply (f_equal (String.get 0)) in E. vm_compute in E. discriminate E.
Qed.

(** ** Properties *)

Lemma unanimous_some out sent i reason r :
  unanimous_loop out sent i reason = Some r →
  ∀ j s, out !! j = Some s → is_Some (refusalReason s) ∧ sent !! (i + j)%nat ≠ Some s.
Proof.
  revert i reason. induction out as [|x out IH]; intros i reason; simpl; [done|].
  destruct (refusalReason x) as [rx|] eqn:Hx; [|done]. case_bool_decide as Hs; [done|].
  intros Hrest [|j] s Hj.
  - injection Hj as <-. rewrite Nat.add_0_r. by rewrite Hx.
  - replace (i + S j)%nat with (S i + j)%nat by lia. by apply (IH _ _ Hrest).
Qed.

Lemma unanimous_none out sent i reason :
  unanimous_loop out sent i reason = None →
  ∃ j s, out !! j = Some s ∧ (refusalReason s = None ∨ sent !! (i + j)%nat = Some s).
Proof.
  revert i reason. induction out as [|x out IH]; intros i reason; simpl; [done|].
  destruct (refusalReason x) as [rx|] eqn:Hx; [|by exists 0%nat, x; auto].
  case_bool_decide as Hs; [intros _; exists 0%nat, x; rewrite Nat.add_0_r; auto|].
  intros (j & s & Hj & Hor)%IH. exists (S j), s. split; [done|].
  by replace (i + S j)%nat with (S i + j)%nat by lia.
Qed.

(** A rewrite loses no part of the request, and an echo is not a refusal.
    What [parseFilterReply] returns has exactly as many segments as were sent
    and is what the model's array decodes to, where not every slot is a
    refusal. And an array that repeats the segments as sent is returned as
    it is, even when every segment reads like a refusal. *)
Theorem parseFilterReply_faithful `{Num T} `{MapRange} `{Unicode} `{!Completions T}
    (raw : string) (sent : list string) :
  sent ≠ [] →
  (∀ out, parseFilterReply raw sent = inr out → length out = length sent ∧
    ∃ text array j s, completionText raw = inr text ∧ bracketed text = Some array ∧
      json_strings array = inr out ∧
      out !! j = Some s ∧ (refusalReason s = None ∨ sent !! j = Some s)) ∧
  (∀ text, completionText raw = inr text → bracketed text = Some text →
    json_strings text = inr sent → parseFilterReply raw sent = inr sent).
Proof.
  intros Hsent.
  assert (∀ text out, parse_array text sent = inr out → length out = length sent ∧
    ∃ array j s, bracketed text = Some array ∧ json_strings array = inr out ∧
      out !! j = Some s ∧ (refusalReason s = None ∨ sent !! j = Some s)) as Harr.
  { intros text out. unfold parse_array. destruct (bracketed text) as [array|]; [|done].
    destruct (json_strings array) as [|o] eqn:Hj; [done|].
    destruct (unanimousRefusal o sent) eqn:Hu; [done|].
    destruct (_ =? _)%nat eqn:Hl; [|done]. intros [= <-]. apply Nat.eqb_eq in Hl. split; [done|].
    unfold unanimousRefusal in Hu. destruct o as [|x o].
    { by destruct sent. }
    apply unanimous_none in Hu as (j & s & Hlk & Hor). by exists array, j, s. }
  split.
  - intros out. unfold parseFilterReply. destruct (completionText raw) as [|text] eqn:Hc; [done|].
    intros Hp. destruct (Harr text out) as (Hl & array & j & s & Hrest); [by repeat case_match|].
    split; [done|]. by exists text, array, j, s.
  - intros text Hc Hb Hj. unfold parseFilterReply. rewrite Hc.
    destruct (bracketed_first text text Hb eq_refl) as [rest ->]. rewrite bracket_no_verdict.
    unfold parse_array. rewrite Hb, Hj.
    destruct (unanimousRefusal sent sent) as [r|] eqn:Hu.
    + exfalso. unfold unanimousRefusal in Hu. destruct sent as [|x sent]; [done|].
      by destruct (unanimous_some _ _ _ _ _ Hu 0%nat x eq_refl) as [_ []].
    + by rewrite Nat.eqb_refl.
Qed.

(** a gate lets a request go only by saying so. When [parseGateReply]
    allows, either the model wrote an allow word standing alone at the start,
    and no refusal word; or it wrote neither word, nor an array, and among the
    tokens its answer could have begun with those of ALLOW were together at
    least as likely as those of REFUSED. The share reported is then theirs
    among the two. So a written refusal is never outvoted, and an answer that
    cannot be read refuses. *)
Theorem parseGateReply_allows `{MapRange} `{Unicode} `{!Completions Q} (Exp : Q → Q)
    (raw : string) (share : Q) :
  (∀ x, 0 < Exp x)%Q →
  parseGateReply Exp raw = (share, None) →
  (∃ text, completionText raw = inr text ∧ anyVerdict text gateRefusalTokens = None ∧
     is_Some (anyVerdict text gateAllowTokens)) ∨
  (∃ seen high, firstToken raw = Some seen ∧ highest (map_range seen) verdictIndex = Some high ∧
     (mass Exp (map_range seen) verdictIndex high verdictRefuse <=
      mass Exp (map_range seen) verdictIndex high verdictAllow)%Q ∧
     (share * mass_below Exp (map_range seen) 2 verdictIndex high ==
      mass Exp (map_range seen) verdictIndex high verdictAllow)%Q ∧
     (∀ text, completionText raw = inr text → anyVerdict text gateRefusalTokens = None ∧
       anyVerdict text gateAllowTokens = None ∧ has_prefix text "[" = false)).
Proof.
  intros Hpos Hp.
  assert (∀ sh, readVerdict Exp raw = Some (true, sh) → ∃ seen high, firstToken raw = Some seen ∧
     highest (map_range seen) verdictIndex = Some high ∧
     (mass Exp (map_range seen) verdictIndex high verdictRefuse <=
      mass Exp (map_range seen) verdictIndex high verdictAllow)%Q ∧
     (sh * mass_below Exp (map_range seen) 2 verdictIndex high ==
      mass Exp (map_range seen) verdictIndex high verdictAllow)%Q) as Hread.
  { intros sh. unfold readVerdict. destruct (firstToken raw) as [seen|]; [|done].
    destruct (pick Exp seen 2 verdictIndex) as [[i s]|] eqn:Hpick; [|done].
    intros [= Hi <-]. case_bool_decide as Hi'; [subst i|done].
    apply (pick_picked Exp Hpos) in Hpick as (high & Hh & [_ Hmost _ Hshare _]).
    - exists seen, high. do 2 (split; [done|]). split; [|done]. apply Hmost. unfold verdictRefuse. lia.
    - intros token j. unfold verdictIndex. case_bool_decide; [done|].
      repeat case_match; intros [= <-]; unfold verdictAllow, verdictRefuse; lia. }
  unfold parseGateReply in Hp.
  destruct (completionText raw) as [err|text] eqn:Ht.
  - right. destruct (readVerdict Exp raw) as [[[] s]|] eqn:Hr; try done. injection Hp as <-.
    destruct (Hread s eq_refl) as (seen & high & Hd). exists seen, high.
    destruct_and! Hd. done.
  - destruct (anyVerdict text gateRefusalTokens) eqn:Href; [done|].
    case_bool_decide as Hal; [left; by exists text|].
    destruct (has_prefix text "[") eqn:Hbr; [done|].
    destruct (readVerdict Exp raw) as [[[] s]|] eqn:Hr; try done. injection Hp as <-.
    right. destruct (Hread s eq_refl) as (seen & high & Hd). exists seen, high.
    destruct_and! Hd. do 4 (split; [done|]). intros ? [= <-].
    split; [done|]. split; [by apply eq_None_not_Some|done].
Qed.

(** What is read is on offer. *)
Lemma readDecision_spec `{Num T} `{MapRange} `{Unicode} `{!Completions T} (Exp : T → T)
    (raw : string) (offered : list string) (byLetter : bool) (alias : string) (share : T) :
  readDecision Exp raw offered byLetter = inr (alias, share) →
  alias ∈ offered ∧
  (byLetter = false → ∃ text, completionText raw = inr text ∧
    (ToLower (Trim name_cutset (TrimSpace text)) = ToLower alias ∨
     ∃ before after, offered = before ++ alias :: after ∧ mentioned (ToLower text) alias = true ∧
       Forall (λ d, mentioned (ToLower text) d = false) (before ++ after))).
Proof.
  intros Hr.
  assert (∀ i, (i < length offered)%nat → default "" (offered !! i) ∈ offered) as Hin.
  { intros i Hi. destruct (lookup_lt_is_Some_2 offered i Hi) as [d Hd]. rewrite Hd.
    by eapply list_elem_of_lookup_2. }
  unfold readDecision in Hr. destruct byLetter.
  - split; [|done].
    assert (match completionText raw with
      | inl err => inl {| de_msg := err; de_unreadable := true |}
      | inr text => match labelIndex text (length offered) with
        | Some i => inr (default "" (offered !! i), of_Z 0)
        | None => inl {| de_msg := "it answered with neither a distribution nor one " +:+
              "of the letters it was offered"; de_unreadable := true |} end end = inr (alias, share) →
      alias ∈ offered) as Hwritten.
    { destruct (completionText raw) as [|text]; [done|].
      destruct (labelIndex text (length offered)) as [i|] eqn:Hl; [|done].
      intros [= <- _]. by apply Hin, (labelIndex_lt text). }
    destruct (readChoice Exp raw (length offered)) as [[i s]|] eqn:Hc; [|by apply Hwritten].
    injection Hr as <- <-. apply Hin. unfold readChoice in Hc.
    destruct (firstToken raw) as [seen|]; [|done].
    eapply pick_lt; [|exact Hc]. intros token j. apply labelIndex_lt.
  - destruct (completionText raw) as [|text] eqn:Ht; [done|].
    destruct (chosenDestination text offered) as [d|] eqn:Hd; [|done]. injection Hr as -> _.
    unfold chosenDestination in Hd. destruct (named_exactly _ _) as [d|] eqn:Hn.
    + injection Hd as ->. apply named_exactly_in in Hn as [Hin' Hname].
      split; [done|]. intros _. exists text. split; [done|]. by left.
    + apply mention_loop_spec in Hd as [(? & _)|(_ & before & after & -> & Hm & Hall)]; [done|].
      split; [set_solver|]. intros _. exists text. split; [done|]. right. by exists before, after.
Qed.

(** A route step's model cannot be talked into a model it was not offered.
    Whatever it answers, by letter or by name, what [readDecision] reads is
    one of the destinations offered; by name, the answer either is that name,
    or that is the only destination it mentions. *)
Theorem readDecision_offered `{Num T} `{MapRange} `{Unicode} `{!Completions T} (Exp : T → T)
    (raw : string) (offered : list string) (byLetter : bool) (alias : string) (share : T) :
  readDecision Exp raw offered byLetter = inr (alias, share) →
  alias ∈ offered ∧
  (byLetter = false → ∃ text, completionText raw = inr text ∧
    (ToLower (Trim name_cutset (TrimSpace text)) = ToLower alias ∨
     ∃ before after, offered = before ++ alias :: after ∧ mentioned (ToLower text) alias = true ∧
       Forall (λ d, mentioned (ToLower text) d = false) (before ++ after))).
Proof. apply readDecision_spec. Qed.

(** ** Examples *)

(** An instance on ASCII, and replies that are the text itself. *)
Fixpoint ToUpper_ascii (s : string) : string :=
  match s with
  | EmptyString => EmptyString
  | String c s =>
      String (if is_lower c then Ascii.ascii_of_nat (byte_val c - 32) else c) (ToUpper_ascii s)
  end.

#[local] Instance ascii_unicode : Unicode :=
  {| ToLower := ToLower_ascii; ToUpper := ToUpper_ascii; Quote s := chr 34 +:+ s +:+ chr 34 |}.

#[local] Instance plain_completions : Completions Q :=
  {| json_contents raw := inr [raw];
     json_logprobs raw := inr [[{| pos_token := "AL"; pos_logprob := inject_Z (-1);
       pos_top := [("AL", inject_Z (-1)); ("REF", inject_Z (-2))] |}]];
     json_strings s := inr [s] |}.

Definition sample_exp (x : Q) : Q := if Qle_bool 0 x then 1 + x else 1 / (1 - x).

Lemma sample_exp_pos x : (0 < sample_exp x)%Q.
Proof.
  unfold sample_exp. destruct (Qle_bool 0 x) eqn:Hx.
  - apply Qle_bool_iff in Hx. lra.
  - apply Qle_bool_false in Hx. apply Qlt_shift_div_l; lra.
Qed.

Lemma parseGateReply_allows_witness :
  let raw := "Certainly, I will check it" in
  ∃ seen high, firstToken raw = Some seen ∧ highest (map_range seen) verdictIndex = Some high ∧
    (mass sample_exp (map_range seen) verdictIndex high verdictRefuse <=
     mass sample_exp (map_range seen) verdictIndex high verdictAllow)%Q.
Proof.
  cbv zeta.
  destruct (parseGateReply_allows sample_exp "Certainly, I will check it"
    (parseGateReply sample_exp "Certainly, I will check it").1 sample_exp_pos) as [H|H].
  - vm_compute. reflexivity.
  - exfalso. destruct H as (text & Ht & _ & Ha). vm_compute in Ht. injection Ht as <-.
    vm_compute in Ha. destruct Ha as [x Hx]. discriminate Hx.
  - destruct H as (seen & high & H1 & H2 & H3 & _). exists seen, high.
    split; [exact H1|]. split; [exact H2|exact H3].
Defined.

Lemma readDecision_offered_witness :
  readDecision sample_exp "I would use keera-small-eu here." ["keera-small"; "keera-small-eu"] false =
    inr ("keera-small-eu", 0%Q) ∧
  "keera-small-eu" ∈ ["keera-small"; "keera-small-eu"].
Proof.
  assert (readDecision sample_exp "I would use keera-small-eu here."
    ["keera-small"; "keera-small-eu"] false = inr ("keera-small-eu", 0%Q)) as H
    by (vm_compute; reflexivity).
  split; [exact H|]. apply (readDecision_offered sample_exp _ _ false _ _ H).
Defined.

Lemma parseFilterReply_faithful_witness :
  parseFilterReply "[a]" ["[a]"] = inr ["[a]"] ∧ length ["[a]"] = length ["[a]"].
Proof.
  destruct (parseFilterReply_faithful "[a]" ["[a]"]) as [H1 H2]; [discriminate|].
  assert (parseFilterReply "[a]" ["[a]"] = inr ["[a]"]) as H
    by (apply (H2 "[a]"); vm_compute; reflexivity).
  split; [exact H|]. apply (H1 _ H).
Defined.

(** An answer that names two destinations is read as the longer one when the
    shorter is only mentioned later: the first occurrence decides. *)
Lemma chosen_names_two :
  chosenDestination "keera-small-eu is better than keera-small" ["keera-small"; "keera-small-eu"] =
  Some "keera-small-eu".
Proof. vm_compute. reflexivity. Qed.
