(* ===== verification/Sse.v ===== *)
(** * Streams of events

    How an upstream's server-sent events reach the client: [sse.go], [native.go]
    and [events.go] of [internal/gateway/]. Reading lines through a bounded
    buffer, forwarding a stream event by event while watching what it says,
    renaming the model in a chunk, and the writers that flush and ping. A
    stream is its bytes and how it ended; the JSON decoder is a parameter. *)
From S2P Require Import Prelude GoTime Num Tenancy Pricing Text Keys RouterCheck Replies.
Open Scope go_scope.

(** ** Usage records *)

Record tokenUsage := {
  InputTokens : Z;
  OutputTokens : Z;
  CachedTokens : Z;
  CacheWriteTokens : Z;
  CacheWriteHourTokens : Z;
}.

(** [tokenUsage.cached] and [tokenUsage.tokens]; a nil record is [None]. *)
Definition cached (u : option tokenUsage) : Z := match u with Some u => CachedTokens u | None => 0 end.

Definition tokens (u : option tokenUsage) : Tokens :=
  match u with
  | Some u => {| Input := InputTokens u; CachedInput := CachedTokens u; CacheWrite := CacheWriteTokens u;
                 CacheWriteHour := CacheWriteHourTokens u; Output := OutputTokens u |}
  | None => {| Input := 0; CachedInput := 0; CacheWrite := 0; CacheWriteHour := 0; Output := 0 |}
  end.

(** ** Reading lines *)

Definition line_end : Ascii.ascii := Ascii.ascii_of_nat 10.

Definition readBuffer : nat := Z.to_nat 32768.

(** How a [ReadSlice] returned: at a newline, with the buffer full of a line
    that goes on, or at the end of the stream. *)
Inductive slice_end := Found | Full | Ended.

(** [bufio.Reader.ReadSlice('\n')] with a buffer of [n] bytes: what it returns,
    and the rest of the stream. *)
Fixpoint ReadSlice (n : nat) (s : string) : string * string * slice_end :=
  match n, s with
  | O, _ => (EmptyString, s, Full)
  | S _, EmptyString => (EmptyString, EmptyString, Ended)
  | S n, String.String c s =>
      if bool_decide (c = line_end) then (String.String c EmptyString, s, Found)
      else let '(frag, rest, o) := ReadSlice n s in (String.String c frag, rest, o)
  end.

(** What [sseLines.next] returns: a line, the rest, and whether the stream
    ended with it; or [errEventTooLarge]. *)
Inductive next_line := Line (l rest : string) (last : bool) | TooLarge.

(** [sseLines.next] with [part] held so far; the fuel is the bytes left and one. *)
Fixpoint next (fuel : nat) (limit : Z) (part s : string) : next_line :=
  match fuel with
  | O => TooLarge
  | S fuel =>
      match ReadSlice readBuffer s with
      | (frag, rest, Full) =>
          if len part + len frag >? limit then TooLarge else next fuel limit (part +:+ frag) rest
      | (frag, rest, o) =>
          Line (part +:+ frag) rest (match o with Ended => true | _ => false end)
      end
  end.

Definition errEventTooLarge : string := "the upstream sent one event larger than the gateway holds".

(** [eachLine] over a stream that ends with [e], [None] for EOF: [line] and
    [end_] change a state and may fail. The fuel is the bytes left and one. *)
Fixpoint eachLine {A} (fuel : nat) (limit : Z) (line : A → string → A * option string) (end_ : A → A * option string)
    (a : A) (s : string) (e : option string) : A * option string :=
  match fuel with
  | O => (a, Some errEventTooLarge)
  | S fuel =>
      let '(l, rest, stopped) :=
        match next (S (String.length s)) limit EmptyString s with
        | Line l rest false => (l, rest, None)
        | Line l rest true => (l, rest, Some e)
        | TooLarge => (EmptyString, s, Some (Some errEventTooLarge))
        end in
      let '(a, err) := if bool_decide (l = EmptyString) then (a, None) else line a l in
      match err with
      | Some err => (a, Some err)
      | None =>
          match stopped with
          | None => eachLine fuel limit line end_ a rest e
          | Some readErr => let '(a, err) := end_ a in (a, match err with Some err => Some err | None => readErr end)
          end
      end
  end.

(** ** Writing *)

(** What reached the client, in order. *)
Inductive sent := Wrote (s : string) | Flushed.

Definition written (out : list sent) : string :=
  foldr (λ x s, match x with Wrote w => w +:+ s | Flushed => s end) EmptyString out.

(** ** Finding and renaming the model *)

Definition dataPrefix : string := "data:".
Definition doneMarker : string := "[DONE]".
Definition quoted_key (k : string) : string := chr 34 +:+ k +:+ chr 34.
Definition usageKey : string := quoted_key "usage".
Definition deltaKey : string := quoted_key "delta".
Definition finishKey : string := quoted_key "finish_reason".
Definition errorKey : string := quoted_key "error".
Definition modelKey : string := quoted_key "model" +:+ ":".

(** The first loop of [modelValue]: the blanks before the value. *)
Fixpoint skip_blanks (s : string) : nat :=
  match s with
  | String.String c s => if (Z.of_nat (byte_val c) =? 32) || (Z.of_nat (byte_val c) =? 9) then S (skip_blanks s) else O
  | EmptyString => O
  end.

(** The second: the bytes of a string up to its closing quote. *)
Fixpoint to_quote (s : string) : option nat :=
  match s with
  | EmptyString => None
  | String.String c s =>
      if (byte_val c =? 34)%nat then Some O
      else if (byte_val c =? 92)%nat then
        match s with
        | String.String _ s => S <$> (S <$> to_quote s)
        | EmptyString => None
        end
      else S <$> to_quote s
  end.

(** [modelValue]: where the model's value starts and ends. *)
Definition modelValue (raw : string) : option (nat * nat) :=
  match Index raw modelKey with
  | None => None
  | Some i =>
      let start := (i + String.length modelKey)%nat in
      let start := (start + skip_blanks (drop_str start raw))%nat in
      match drop_str start raw with
      | String.String c s =>
          if (byte_val c =? 34)%nat
          then (λ n, (start, S (S (start + n)))) <$> to_quote s
          else None
      | EmptyString => None
      end
  end.

(** [appendRenamed] to an empty buffer. *)
Definition renamed (raw name : string) (start end_ : nat) : string :=
  take_str start raw +:+ name +:+ drop_str end_ raw.

(** [TrimRight] of the line ends. *)
Definition is_line_end (c : Ascii.ascii) : bool := (byte_val c =? 13)%nat || (byte_val c =? 10)%nat.

Definition TrimRight_ends (s : string) : string :=
  str_rev ((fix drop (s : string) :=
    match s with
    | String.String c s' => if is_line_end c then drop s' else s
    | EmptyString => EmptyString
    end) (str_rev s)).

(** The blanks [hasValue] skips. *)
Definition TrimLeft_blanks (s : string) : string := TrimLeft white s.

(** [hasValue]. *)
Definition hasValue (payload key : string) : bool :=
  match Index payload key with
  | None => false
  | Some i =>
      let rest := TrimLeft_blanks (drop_str (i + String.length key) payload) in
      match CutPrefix rest ":" with
      | None => false
      | Some rest => negb (has_prefix (TrimLeft_blanks rest) "null")
      end
  end.

Definition hasUsage (payload : string) : bool := hasValue payload usageKey.

(** ** What a chunk says *)

(** A choice of a chunk, as [generated] reads it. *)
Record choice := {
  ch_text : string;
  ch_content : string;
  ch_reasoning_content : string;
  ch_reasoning : string;
  ch_tool_calls : nat;
}.

(** [json.Unmarshal] into the structs of [inspect], [generated] and
    [upstreamText], and [json.Marshal] of a string. *)
Class Chunks := {
  usage_chunk : string → option (option tokenUsage * nat);
  choices_of : string → list choice;
  error_envelope : string → option (option string * string * string);
  Marshal_name : string → string;
}.

(** A stream's answer so far. [cut] is why it is not a whole answer. *)
Record streamStats := {
  st_usage : option tokenUsage;
  deltas : Z;
  firstAt : option Z;
  partial : bool;
  cut : option string;
}.

Definition streamStats_zero : streamStats :=
  {| st_usage := None; deltas := 0; firstAt := None; partial := false; cut := None |}.

#[export] Instance streamStats_updatable : Updatable streamStats := λ s,
  {| st_usage := st_usage s; deltas := deltas s; firstAt := firstAt s; partial := partial s; cut := cut s |}.

(** [endedFailure]. *)
Definition endedFailure (upstreamErr : string) (ended : bool) : option string :=
  if negb (bool_decide (upstreamErr = "")) then Some ("the model failed while answering: " +:+ upstreamErr)
  else if negb ended then Some "the model's answer stopped before it was finished"
  else None.

(** [ssePipe], with what it wrote. *)
Record ssePipe := {
  out : list sent;
  p_name : option string;
  dropUsage : bool;
  stats : streamStats;
  p_event : string;
  usageOnly : bool;
  p_generated : bool;
  finished : bool;
  upstreamErr : string;
}.

#[export] Instance ssePipe_updatable : Updatable ssePipe := λ p,
  {| out := out p; p_name := p_name p; dropUsage := dropUsage p; stats := stats p; p_event := p_event p;
     usageOnly := usageOnly p; p_generated := p_generated p; finished := finished p; upstreamErr := upstreamErr p |}.

Definition maxEventBytes : Z := 1048576.

Section pipe.
Context `{Chunks}.
(** Why the n-th write to the client fails, if it does; and the clock at it. *)
Context (write_fails : nat → option string) (clock : nat → Z).

(** [upstreamText]. *)
Definition upstreamText (raw : string) : string :=
  let fallback := let text := TrimSpace raw in if len text <? 2048 then text else "" in
  match error_envelope raw with
  | Some (err, message, detail) =>
      match err with
      | Some m => if negb (bool_decide (m = "")) then m
                  else if negb (bool_decide (message = "")) then message
                  else if negb (bool_decide (detail = "")) then detail else fallback
      | None => if negb (bool_decide (message = "")) then message
                else if negb (bool_decide (detail = "")) then detail else fallback
      end
  | None => fallback
  end.

(** [inspect]: the statistics it leaves, and whether the event only has usage. *)
Definition inspect (payload : string) (st : streamStats) (usageOnly : bool) : streamStats * bool :=
  let st := if bool_decide (is_Some (Index payload deltaKey)) then st <| deltas := add64 (deltas st) 1 |> else st in
  if negb (hasUsage payload) then (st, usageOnly)
  else match usage_chunk payload with
       | Some (Some u, choices) => (st <| st_usage := Some u |>, (choices =? 0)%nat)
       | _ => (st, usageOnly)
       end.

(** [generated]. *)
Definition wrote_token (c : choice) : bool :=
  negb (bool_decide (ch_text c = "")) || negb (bool_decide (ch_content c = "")) ||
  negb (bool_decide (ch_reasoning_content c = "")) || negb (bool_decide (ch_reasoning c = "")) ||
  (0 <? ch_tool_calls c)%nat.

Definition generated (payload : string) : bool := existsb wrote_token (choices_of payload).

(** A write: what was sent, and why it failed. *)
Definition Write (out : list sent) (s : string) : list sent * option string :=
  match write_fails (length out) with Some err => (out, Some err) | None => (out ++ [Wrote s], None) end.

(** The bytes [emit] sends for an event. *)
Definition rename_event (name : option string) (event : string) : string :=
  match name with
  | Some name => match modelValue event with Some (start, end_) => renamed event name start end_ | None => event end
  | None => event
  end.

(** [ssePipe.emit]. *)
Definition emit (p : ssePipe) : ssePipe * option string :=
  if bool_decide (p_event p = "") then (p, None)
  else
    let clear p := p <| p_event := "" |> <| usageOnly := false |> in
    if negb (usageOnly p) || negb (dropUsage p) then
      let p := if p_generated p && bool_decide (firstAt (stats p) = None)
               then p <| stats := (stats p) <| firstAt := Some (clock (length (out p))) |> |> else p in
      match Write (out p) (rename_event (p_name p) (p_event p)) with
      | (_, Some err) => (p, Some err)
      | (o, None) => (clear (p <| out := o ++ [Flushed] |>), None)
      end
    else (clear p, None).

(** What [add] reads in one line. *)
Definition read_line (p : ssePipe) (trimmed : string) : ssePipe :=
  match CutPrefix trimmed dataPrefix with
  | None => p
  | Some rest =>
      let payload := TrimSpace rest in
      if bool_decide (payload = doneMarker) then p
      else
        let '(st, only) := inspect payload (stats p) (usageOnly p) in
        let p := p <| stats := st |> <| usageOnly := only |>
                   <| p_generated := p_generated p || generated payload |>
                   <| finished := finished p || hasValue payload finishKey |> in
        if hasValue payload errorKey then p <| upstreamErr := upstreamText payload |> else p
  end.

(** [ssePipe.add]. *)
Definition add (p : ssePipe) (line : string) : ssePipe * option string :=
  let p := p <| p_event := p_event p +:+ line |> in
  let trimmed := TrimRight_ends line in
  if bool_decide (trimmed = "") then emit p
  else
    let p := read_line p trimmed in
    if len (p_event p) >? maxEventBytes then emit p else (p, None).

Definition new_pipe (alias : string) (dropUsageEvent : bool) : ssePipe :=
  {| out := []; p_name := if bool_decide (alias = "") then None else Some (Marshal_name alias);
     dropUsage := dropUsageEvent; stats := streamStats_zero; p_event := ""; usageOnly := false;
     p_generated := false; finished := false; upstreamErr := "" |}.

(** [pipeSSE]: the pipe it leaves, with what it sent, and its error. *)
Definition pipeSSE (alias : string) (dropUsageEvent : bool) (limit : Z) (s : string) (e : option string)
    : ssePipe * option string :=
  let '(p, err) := eachLine (S (String.length s)) limit add emit (new_pipe alias dropUsageEvent) s e in
  (p <| stats := (stats p) <| cut := endedFailure (upstreamErr p) (finished p) |> |>, err).
End pipe.

(** [renameModel]. *)
Definition renameModel `{Chunks} (raw alias : string) : string :=
  match modelValue raw with
  | Some (start, end_) => renamed raw (Marshal_name alias) start end_
  | None => raw
  end.

(** ** Reading payloads *)

Section scan.
Context {A : Type} (fn : A → string → A * option string) (limit : Z).

(** [complete] of [scanSSE], over the payload so far. *)
Definition complete (st : string * A) : (string * A) * option string :=
  let '(data, a) := st in
  if bool_decide (data = "") then (st, None)
  else if bool_decide (TrimSpace data = doneMarker) then (("", a), None)
  else let '(a, err) := fn a data in (("", a), err).

(** The line function of [scanSSE]. *)
Definition scan_line (st : string * A) (line : string) : (string * A) * option string :=
  let '(data, a) := st in
  let trimmed := TrimRight_ends line in
  if bool_decide (trimmed = "") then complete st
  else match CutPrefix trimmed dataPrefix with
       | None => (st, None)
       | Some rest =>
           let chunk := TrimSpace rest in
           if len data + len chunk >? limit then (st, Some errEventTooLarge)
           else (((if bool_decide (data = "") then data else data +:+ newline) +:+ chunk, a), None)
       end.

Definition scanSSE (a : A) (s : string) (e : option string) : A * option string :=
  let '((_, a), err) := eachLine (S (String.length s)) limit scan_line complete ("", a) s e in (a, err).
End scan.

(** ** A provider's own stream *)

(** [nativeStream]: what watches it. *)
Class NativeStream (N : Type) := {
  ns_event : N → string → N * option string;
  ns_counts : N → option tokenUsage * Z * bool;
  ns_failure : N → option string;
}.

Section native.
Context `{NativeStream N}.
Context (write_fails : nat → option string) (clock : nat → Z) (limit : Z).

(** What [pipeNative] holds. *)
Record native_pipe := {
  np_out : list sent;
  np_ns : N;
  np_firstAt : option Z;
  np_event : string;
  np_head : string;
  np_data : string;
}.

Definition native_emit (p : native_pipe) : native_pipe * option string :=
  if bool_decide (np_event p = "") then (p, None)
  else
    let '(ns, repl) := if bool_decide (np_data p = "") then (np_ns p, None) else ns_event (np_ns p) (np_data p) in
    let o := match repl with
             | Some repl => np_head p +:+ dataPrefix +:+ " " +:+ repl +:+ newline +:+ newline
             | None => np_event p
             end in
    let firstAt := match np_firstAt p with
                   | Some t => Some t
                   | None => if 0 <? (ns_counts ns).1.2 then Some (clock (length (np_out p))) else None
                   end in
    let '(sent, err) := Write write_fails (np_out p) o in
    ({| np_out := sent ++ [Flushed]; np_ns := ns; np_firstAt := firstAt; np_event := ""; np_head := ""; np_data := "" |}, err).

Definition native_add (p : native_pipe) (line : string) : native_pipe * option string :=
  if len (np_event p) + len line >? limit then (p, Some errEventTooLarge)
  else
    let trimmed := TrimRight_ends line in
    let event := np_event p +:+ line in
    let with_ event head data :=
      {| np_out := np_out p; np_ns := np_ns p; np_firstAt := np_firstAt p; np_event := event; np_head := head; np_data := data |} in
    if bool_decide (trimmed = "") then native_emit (with_ event (np_head p) (np_data p))
    else match CutPrefix trimmed dataPrefix with
         | Some rest =>
             (with_ event (np_head p)
                ((if bool_decide (np_data p = "") then np_data p else np_data p +:+ newline) +:+ TrimSpace rest), None)
         | None => (with_ event (np_head p +:+ trimmed +:+ newline) (np_data p), None)
         end.

(** [pipeNative]. *)
Definition pipeNative (ns : N) (s : string) (e : option string) : list sent * streamStats * option string :=
  let '(p, err) := eachLine (S (String.length s)) limit native_add native_emit
    {| np_out := []; np_ns := ns; np_firstAt := None; np_event := ""; np_head := ""; np_data := "" |} s e in
  let '(usage, n, part) := ns_counts (np_ns p) in
  (np_out p, {| st_usage := usage; deltas := n; firstAt := np_firstAt p; partial := part; cut := ns_failure (np_ns p) |}, err).
End native.

(** ** Chunks of a translated stream *)

(** [oaiToolCallDelta] and [oaiStreamChunk]. *)
Record tool_delta := { td_Index : option Z; td_ID : string; td_Name : string; td_Arguments : string }.

Record stream_chunk := {
  sc_content : string;
  sc_reasoning : bool;
  sc_toolCalls : list tool_delta;
  sc_finishReason : string;
  sc_hasChoice : bool;
  sc_usage : option tokenUsage;
  sc_failed : bool;
}.

(** [chatChunks]. *)
Record chatChunks := {
  cc_finishReason : string;
  cc_usage : option tokenUsage;
  cc_deltas : Z;
  cc_firstAt : option Z;
  cc_upstreamErr : string;
}.

#[export] Instance chatChunks_updatable : Updatable chatChunks := λ c,
  {| cc_finishReason := cc_finishReason c; cc_usage := cc_usage c; cc_deltas := cc_deltas c;
     cc_firstAt := cc_firstAt c; cc_upstreamErr := cc_upstreamErr c |}.

Section fold_chunks.
Context `{Chunks}.
(** [readStreamChunk], the JSON decoder's part of it; and what takes the text and the tool calls. *)
Context (readStreamChunk : string → option stream_chunk).
Context {A : Type} (text : A → string → A * option string) (tool : A → Z → tool_delta → A * option string).

Fixpoint tools_loop (a : A) (calls : list tool_delta) : A * option string :=
  match calls with
  | [] => (a, None)
  | tc :: calls =>
      match tool a (default 0 (td_Index tc)) tc with
      | (a, Some err) => (a, Some err)
      | (a, None) => tools_loop a calls
      end
  end.

(** [chatChunks.fold], at the time it reads. *)
Definition fold_chunk (c : chatChunks) (a : A) (payload : string) (now : Z) : chatChunks * A * option string :=
  match readStreamChunk payload with
  | None => (c, a, None)
  | Some chunk =>
      let c := match sc_usage chunk with Some u => c <| cc_usage := Some u |> | None => c end in
      if sc_failed chunk then (c <| cc_upstreamErr := upstreamText payload |>, a, None)
      else if negb (sc_hasChoice chunk) then (c, a, None)
      else
        let wrote := negb (bool_decide (sc_content chunk = "")) || sc_reasoning chunk ||
                     negb (bool_decide (sc_toolCalls chunk = [])) in
        let c := if wrote
                 then (if bool_decide (cc_firstAt c = None) then c <| cc_firstAt := Some now |> else c)
                        <| cc_deltas := add64 (cc_deltas c) 1 |>
                 else c in
        let c := if bool_decide (sc_finishReason chunk = "") then c else c <| cc_finishReason := sc_finishReason chunk |> in
        match (if bool_decide (sc_content chunk = "") then (a, None) else text a (sc_content chunk)) with
        | (a, Some err) => (c, a, Some err)
        | (a, None) => let '(a, err) := tools_loop a (sc_toolCalls chunk) in (c, a, err)
        end
  end.

(** [chatChunks.failure]. *)
Definition chunks_failure (c : chatChunks) : option string :=
  endedFailure (cc_upstreamErr c) (negb (bool_decide (cc_finishReason c = ""))).
End fold_chunks.

#[export] Instance tool_delta_eq_dec : EqDecision tool_delta.
Proof. solve_decision. Defined.

(** [frame]. *)
Definition frame (name data : string) : string :=
  "event: " +:+ name +:+ newline +:+ "data: " +:+ data +:+ newline +:+ newline.

Definition pingEvent : string := frame "ping" ("{" +:+ quoted_key "type" +:+ ":" +:+ quoted_key "ping" +:+ "}").

(** ** Flushing *)

(** [flushBeforeRead], with what reached the client. *)
Record flusher := { fl_out : list sent; fl_pending : bool; fl_waiting : bool }.

(** [flushBeforeRead.flush]. *)
Definition fl_flush (f : flusher) : flusher :=
  if fl_pending f
  then {| fl_out := fl_out f ++ [Flushed]; fl_pending := false; fl_waiting := fl_waiting f |}
  else f.

(** What runs under the lock: a write, a [Read] that starts to wait, one that
    returned, and the flushes. *)
Inductive fl_op := FlWrite (s : string) | FlRead | FlReturned | FlLater | FlNow.

Definition fl_step (f : flusher) (o : fl_op) : flusher :=
  match o with
  | FlWrite s => {| fl_out := fl_out f ++ [Wrote s]; fl_pending := fl_pending f; fl_waiting := fl_waiting f |}
  | FlRead => let f := fl_flush f in {| fl_out := fl_out f; fl_pending := fl_pending f; fl_waiting := true |}
  | FlReturned => {| fl_out := fl_out f; fl_pending := fl_pending f; fl_waiting := false |}
  | FlLater =>
      let f := {| fl_out := fl_out f; fl_pending := true; fl_waiting := fl_waiting f |} in
      if fl_waiting f then fl_flush f else f
  | FlNow => fl_flush f
  end.

(** ** Pings *)

(** [pinger], with what it wrote and when the timer is set for. *)
Record pinger := {
  pg_out : list sent;
  pg_last : Z;
  pg_err : option string;
  pg_stopped : bool;
  pg_timer : option Z;
}.

Section ping.
Context (write_fails : nat → option string) (every : Z).

Definition newPinger (now : Z) : pinger :=
  {| pg_out := []; pg_last := now; pg_err := None; pg_stopped := false;
     pg_timer := if every <=? 0 then None else Some (now + every) |}.

(** [pinger.write]: the pinger, and its error. *)
Definition ping_write (p : pinger) (ev : string) (now : Z) : pinger * option string :=
  match pg_err p with
  | Some err => (p, Some err)
  | None =>
      match Write write_fails (pg_out p) ev with
      | (_, Some err) =>
          ({| pg_out := pg_out p; pg_last := now; pg_err := Some err; pg_stopped := pg_stopped p; pg_timer := pg_timer p |}, Some err)
      | (o, None) =>
          ({| pg_out := o ++ [Flushed]; pg_last := now; pg_err := None; pg_stopped := pg_stopped p; pg_timer := pg_timer p |}, None)
      end
  end.

(** [pinger.tick]. *)
Definition ping_tick (p : pinger) (now : Z) : pinger :=
  if pg_stopped p || bool_decide (is_Some (pg_err p)) then p
  else
    let quiet := now - pg_last p in
    if every <=? quiet then
      match Write write_fails (pg_out p) pingEvent with
      | (_, Some err) =>
          {| pg_out := pg_out p; pg_last := pg_last p; pg_err := Some err; pg_stopped := pg_stopped p; pg_timer := pg_timer p |}
      | (o, None) =>
          {| pg_out := o ++ [Flushed]; pg_last := now; pg_err := None; pg_stopped := pg_stopped p; pg_timer := Some (now + every) |}
      end
    else {| pg_out := pg_out p; pg_last := pg_last p; pg_err := None; pg_stopped := pg_stopped p;
            pg_timer := Some (now + (every - quiet)) |}.

(** [pinger.stop]. *)
Definition ping_stop (p : pinger) : pinger * option string :=
  ({| pg_out := pg_out p; pg_last := pg_last p; pg_err := pg_err p; pg_stopped := true; pg_timer := None |}, pg_err p).
End ping.

(** ** Blocks *)

(** [blocks]; [open] is [None] for [-1]. *)
Record blocks := { b_open : option Z; b_isTool : bool; b_tool : Z }.

(** [blocks.enter]: does the fragment need the open block closed, and another opened? *)
Definition enters (b : blocks) (isTool : bool) (index : Z) : bool :=
  negb (bool_decide (is_Some (b_open b)) && Bool.eqb (b_isTool b) isTool && (negb isTool || (b_tool b =? index))).

(** ** Lines *)

(** The lines of a stream, each with its newline; the last may have none. *)
Fixpoint lines_of (s : string) : list string :=
  match s with
  | EmptyString => []
  | String.String c s =>
      if bool_decide (c = line_end) then String.String c EmptyString :: lines_of s
      else match lines_of s with
           | l :: ls => String.String c l :: ls
           | [] => [String.String c EmptyString]
           end
  end.

Definition concat_str (ls : list string) : string := foldr (λ l s, l +:+ s) EmptyString ls.

(** What [eachLine] does to the lines of a stream that ends with [e]. *)
Fixpoint run_lines {A} (line : A → string → A * option string) (end_ : A → A * option string) (a : A)
    (ls : list string) (e : option string) : A * option string :=
  match ls with
  | [] => let '(a, err) := end_ a in (a, match err with Some err => Some err | None => e end)
  | l :: ls => match line a l with
               | (a, Some err) => (a, Some err)
               | (a, None) => run_lines line end_ a ls e
               end
  end.

Definition ends_line (l : string) : Prop := ∃ t, l = t +:+ String.String line_end EmptyString.

Lemma lines_concat s : concat_str (lines_of s) = s.
Proof.
  induction s as [|c s IH]; [done|]. cbn [lines_of]. case_bool_decide.
  - unfold concat_str in *. cbn [foldr]. by rewrite IH.
  - unfold concat_str in *. destruct (lines_of s) as [|l ls]; cbn [foldr] in *; by subst s.
Qed.

Lemma lines_nil s : lines_of s = [] → s = EmptyString.
Proof. intros Hs. rewrite <- (lines_concat s), Hs. done. Qed.

Lemma lines_nonempty s : Forall (λ l, l ≠ EmptyString) (lines_of s).
Proof.
  induction s as [|c s IH]; [constructor|]. cbn [lines_of]. case_bool_decide; [by constructor|].
  destruct (lines_of s) as [|l ls]; [by repeat constructor|]. inversion IH; subst. by constructor.
Qed.

(** A line and the stream after it. *)
Lemma lines_cons t rest :
  contains_byte line_end t = false → lines_of (t +:+ String.String line_end rest) = (t +:+ chr 10) :: lines_of rest.
Proof.
  induction t as [|c t IH]; intros Ht.
  - rewrite str_app_nil_l. cbn [lines_of]. by rewrite bool_decide_eq_true_2.
  - cbn in Ht. apply orb_false_iff in Ht as (Hc & Ht). rewrite str_app_cons. cbn [lines_of]. rewrite Hc, IH by done. done.
Qed.

Lemma lines_last t : contains_byte line_end t = false → t ≠ EmptyString → lines_of t = [t].
Proof.
  induction t as [|c t IH]; intros Ht; [done|]. intros _. cbn in Ht. apply orb_false_iff in Ht as (Hc & Ht).
  cbn [lines_of]. rewrite Hc. destruct t as [|d t]; [done|]. by rewrite IH.
Qed.

Lemma ReadSlice_spec n s :
  match ReadSlice n s with
  | (frag, rest, o) =>
      match o with
      | Found => ∃ f, frag = f +:+ chr 10 ∧ contains_byte line_end f = false ∧ s = f +:+ String.String line_end rest
      | Full => s = frag +:+ rest ∧ contains_byte line_end frag = false ∧ String.length frag = n
      | Ended => rest = EmptyString ∧ frag = s ∧ contains_byte line_end s = false ∧ (String.length s < n)%nat
      end
  end.
Proof.
  revert s. induction n as [|n IH]; intros s; [by destruct s|]. destruct s as [|c s]; [cbn; repeat split; lia|].
  cbn [ReadSlice]. case_bool_decide as Hc.
  - subst. exists EmptyString. done.
  - specialize (IH s). destruct (ReadSlice n s) as [[frag rest] o]. destruct o.
    + destruct IH as (f & -> & Hf & ->). exists (String.String c f). split_and!; [done| |done].
      cbn. by rewrite bool_decide_eq_false_2.
    + destruct IH as (-> & Hf & <-). split_and!; [done| |done]. cbn. by rewrite bool_decide_eq_false_2.
    + destruct IH as (-> & -> & Hf & Hl). split_and!; [done|done| |cbn; lia]. cbn. by rewrite bool_decide_eq_false_2.
Qed.

Lemma length_app_str a b : String.length (a +:+ b) = (String.length a + String.length b)%nat.
Proof. pose proof (len_app a b) as Hl. unfold len in Hl. lia. Qed.

(** A line that is not too long is read as one, whatever the buffer holds. *)
Lemma next_line_spec fuel limit : ∀ part s,
  (String.length s < fuel)%nat →
  (∀ l ls, lines_of s = l :: ls → len part + len l <= limit) →
  match lines_of s with
  | [] => next fuel limit part s = Line part EmptyString true
  | l :: ls => (next fuel limit part s = Line (part +:+ l) (concat_str ls) false ∧ lines_of (concat_str ls) = ls) ∨
               (next fuel limit part s = Line (part +:+ l) EmptyString true ∧ ls = [])
  end.
Proof.
  induction fuel as [|fuel IH]; intros part s Hf Hl; [lia|].
  cbn [next]. pose proof (ReadSlice_spec readBuffer s) as Hs.
  destruct (ReadSlice readBuffer s) as [[frag rest] o]. destruct o.
  - destruct Hs as (f & -> & Hnl & ->). rewrite lines_cons by done. left. by rewrite lines_concat.
  - destruct Hs as (-> & Hnl & Hlen).
    assert (Hfrag : frag ≠ EmptyString) by (intros ->; unfold readBuffer in Hlen; cbn in Hlen; lia).
    assert (Hsplit : lines_of (frag +:+ rest) = match lines_of rest with [] => [frag] | l :: ls => (frag +:+ l) :: ls end).
    { clear - Hnl Hfrag. induction frag as [|c frag IHf]; [done|]. cbn in Hnl. apply orb_false_iff in Hnl as (Hc & Hnl).
      rewrite str_app_cons. cbn [lines_of]. rewrite Hc. destruct frag as [|d frag].
      - rewrite str_app_nil_l. by destruct (lines_of rest).
      - rewrite IHf by done. by destruct (lines_of rest). }
    rewrite Hsplit in Hl |- *.
    assert (Hpart : (len part + len frag >? limit) = false).
    { rewrite Z.gtb_ltb, Z.ltb_ge. destruct (lines_of rest) as [|l ls]; [by apply (Hl _ _ eq_refl)|].
      pose proof (Hl _ _ eq_refl) as Hl'. rewrite len_app in Hl'. unfold len in *. lia. }
    rewrite Hpart. specialize (IH (part +:+ frag) rest).
    rewrite length_app_str in Hf.
    destruct (lines_of rest) as [|l ls] eqn:Er.
    + right. split; [|done]. apply IH; [destruct frag; cbn in *; [done|lia]|done].
    + rewrite <- str_app_assoc. apply IH; [destruct frag; cbn in *; [done|lia]|].
      intros l' ls' [= <- <-]. pose proof (Hl _ _ eq_refl) as Hl'. rewrite !len_app in *. lia.
  - destruct Hs as (-> & -> & Hnl & _). destruct s as [|c s]; [by rewrite str_app_nil_r|].
    rewrite lines_last by done. by right.
Qed.

(** What [eachLine] does is a fold over the lines of the stream. *)
Lemma eachLine_run {A} limit line end_ e : ∀ n (a : A) s,
  (String.length s < n)%nat → Forall (λ l, len l <= limit) (lines_of s) →
  eachLine n limit line end_ a s e = run_lines line end_ a (lines_of s) e.
Proof.
  induction n as [|n IH]; intros a s Hn Hlim; [lia|]. cbn [eachLine].
  pose proof (next_line_spec (S (String.length s)) limit EmptyString s ltac:(lia)) as Hnext.
  rewrite Forall_forall in Hlim.
  assert (Hlim' : ∀ l ls, lines_of s = l :: ls → len "" + len l <= limit).
  { intros l ls Hs. specialize (Hlim l). rewrite Hs in Hlim. unfold len at 1. cbn. apply Hlim. left. }
  specialize (Hnext Hlim'). pose proof (lines_nonempty s) as Hne.
  destruct (lines_of s) as [|l ls] eqn:El; cbn [run_lines].
  - rewrite Hnext. done.
  - inversion Hne as [|? ? Hl _]; subst. rewrite str_app_nil_l in Hnext. destruct Hnext as [(Hx & Hls)|(Hx & ->)]; rewrite Hx.
    + rewrite bool_decide_eq_false_2 by done. destruct (line a l) as [a' [err|]]; [done|].
      rewrite IH; [by rewrite Hls| |].
      * rewrite <- (lines_concat s), El in Hn. change (concat_str (l :: ls)) with (l +:+ concat_str ls) in Hn.
        rewrite length_app_str in Hn. destruct l; [done|]. cbn [String.length] in Hn. lia.
      * rewrite Hls, Forall_forall. intros x Hin. apply Hlim. by right.
    + rewrite bool_decide_eq_false_2 by done. by destruct (line a l) as [a' [err|]].
Qed.

(** ** What a piped stream sends *)

Section piped.
Context `{Chunks}.
Context (write_fails : nat → option string) (clock : nat → Z).

(** Does a line leave the event one that only has usage? *)
Definition line_only (only : bool) (line : string) : bool :=
  match CutPrefix (TrimRight_ends line) dataPrefix with
  | None => only
  | Some rest =>
      let payload := TrimSpace rest in
      if bool_decide (payload = doneMarker) then only else (inspect payload streamStats_zero only).2
  end.

Definition usage_only (ls : list string) : bool := foldl line_only false ls.

(** The events of a stream, each as its lines: one ends at a blank line, or when it is too large to hold. *)
Fixpoint events (acc ls : list string) : list (list string) :=
  match ls with
  | [] => match acc with [] => [] | _ => [acc] end
  | l :: ls =>
      let acc := acc ++ [l] in
      if bool_decide (TrimRight_ends l = "") || (len (concat_str acc) >? maxEventBytes) then acc :: events [] ls
      else events acc ls
  end.

(** What is sent for them: every event but the usage-only ones that are to be dropped, with the model renamed. *)
Definition sent_events (name : option string) (drop : bool) (evs : list (list string)) : list string :=
  map (rename_event name ∘ concat_str) (filter (λ ev, negb (usage_only ev && drop) = true) evs).

(** Writes until one fails. *)
Fixpoint deliver (o : list sent) (ws : list string) : list sent * option string :=
  match ws with
  | [] => (o, None)
  | w :: ws => match write_fails (length o) with
               | Some err => (o, Some err)
               | None => deliver (o ++ [Wrote w; Flushed]) ws
               end
  end.

Lemma concat_app ls l : concat_str (ls ++ [l]) = concat_str ls +:+ l.
Proof.
  unfold concat_str. induction ls as [|x ls IH]; cbn [foldr app].
  - by rewrite str_app_nil_l, str_app_nil_r.
  - by rewrite IH, str_app_assoc.
Qed.

Lemma inspect_only payload st st' only : (inspect payload st only).2 = (inspect payload st' only).2.
Proof. unfold inspect. destruct (negb (hasUsage payload)); [done|]. by destruct (usage_chunk payload) as [[[u|] n]|]. Qed.

Lemma read_line_keeps p trimmed :
  out (read_line p trimmed) = out p ∧ p_name (read_line p trimmed) = p_name p ∧
  dropUsage (read_line p trimmed) = dropUsage p ∧ p_event (read_line p trimmed) = p_event p ∧
  usageOnly (read_line p trimmed) =
    match CutPrefix trimmed dataPrefix with
    | None => usageOnly p
    | Some rest => if bool_decide (TrimSpace rest = doneMarker) then usageOnly p
                   else (inspect (TrimSpace rest) streamStats_zero (usageOnly p)).2
    end.
Proof.
  unfold read_line. destruct (CutPrefix _ _) as [rest|]; [|done]. case_bool_decide; [done|].
  destruct (inspect _ (stats p) _) as [st only] eqn:Ei. rewrite (inspect_only _ streamStats_zero (stats p)), Ei.
  by destruct (hasValue _ errorKey).
Qed.

(** Forwarding a gathered event. *)
Lemma emit_spec p : p_event p ≠ "" →
  emit write_fails clock p =
  if usageOnly p && dropUsage p then (p <| p_event := "" |> <| usageOnly := false |>, None)
  else let p' := if p_generated p && bool_decide (firstAt (stats p) = None)
                 then p <| stats := (stats p) <| firstAt := Some (clock (length (out p))) |> |> else p in
       match write_fails (length (out p)) with
       | Some err => (p', Some err)
       | None => (p' <| out := out p ++ [Wrote (rename_event (p_name p) (p_event p)); Flushed] |>
                     <| p_event := "" |> <| usageOnly := false |>, None)
       end.
Proof.
  intros He. unfold emit. rewrite bool_decide_eq_false_2 by done.
  destruct (usageOnly p) eqn:E1, (dropUsage p) eqn:E2; cbn [negb orb andb]; try done.
  all: destruct (_ && bool_decide _) eqn:Ef; unfold Write; cbn [update out p_name p_event];
    destruct (write_fails (length (out p))); try done; by rewrite <- app_assoc.
Qed.

(** What [emit] leaves, seen from outside. *)
Lemma emit_sends p acc : p_event p = concat_str acc → Forall (λ l, l ≠ EmptyString) acc → acc ≠ [] →
  usageOnly p = usage_only acc →
  let '(p', err) := emit write_fails clock p in
  deliver (out p) (sent_events (p_name p) (dropUsage p) [acc]) = (out p', err) ∧
  (err = None → p_name p' = p_name p ∧ dropUsage p' = dropUsage p ∧ p_event p' = "" ∧ usageOnly p' = false).
Proof.
  intros He Hne Hacc Hu. rewrite emit_spec.
  2: { rewrite He. destruct acc as [|l acc]; [done|]. inversion Hne; subst. cbn. by destruct l. }
  rewrite Hu. unfold sent_events. destruct (usage_only acc && dropUsage p) eqn:Ed.
  - rewrite filter_cons_False by (rewrite Ed; done). done.
  - rewrite filter_cons_True by (by rewrite Ed). cbn [filter map deliver]. cbn [compose]. rewrite He.
    destruct (_ && bool_decide _); destruct (write_fails (length (out p))); done.
Qed.

Lemma deliver_app ws1 ws2 : ∀ o, deliver o (ws1 ++ ws2) =
  match deliver o ws1 with (o, Some err) => (o, Some err) | (o, None) => deliver o ws2 end.
Proof.
  induction ws1 as [|w ws1 IH]; intros o; cbn; [by destruct ws2|]. by destruct (write_fails (length o)).
Qed.

Lemma sent_app name drop evs1 evs2 : sent_events name drop (evs1 ++ evs2) = sent_events name drop evs1 ++ sent_events name drop evs2.
Proof. unfold sent_events. by rewrite filter_app, map_app. Qed.

Lemma run_pipe ls e : ∀ p acc, Forall (λ l, l ≠ EmptyString) ls → Forall (λ l, l ≠ EmptyString) acc →
  p_event p = concat_str acc → usageOnly p = usage_only acc →
  let '(p', err) := run_lines (add write_fails clock) (emit write_fails clock) p ls e in
  let '(o, failed) := deliver (out p) (sent_events (p_name p) (dropUsage p) (events acc ls)) in
  out p' = o ∧ err = match failed with Some w => Some w | None => e end.
Proof.
  induction ls as [|l ls IH]; intros p acc Hls Hacc He Hu; cbn [run_lines events].
  - destruct acc as [|x acc].
    + unfold emit. rewrite He. done.
    + pose proof (emit_sends p (x :: acc) He Hacc ltac:(done) Hu) as Hem.
      destruct (emit _ _ p) as [p' err]. destruct Hem as (-> & _). done.
  - inversion Hls as [|? ? Hl Hls']; subst.
    set (p1 := p <| p_event := p_event p +:+ l |>). set (p2 := read_line p1 (TrimRight_ends l)).
    assert (Hacc' : Forall (λ l, l ≠ EmptyString) (acc ++ [l])) by (apply Forall_app; auto).
    assert (He1 : p_event p1 = concat_str (acc ++ [l])) by (unfold p1; cbn; by rewrite concat_app, He).
    destruct (read_line_keeps p1 (TrimRight_ends l)) as (Ho2 & Hn2 & Hd2 & He2 & Hu2). fold p2 in Ho2, Hn2, Hd2, He2, Hu2.
    assert (Hu' : usageOnly p2 = usage_only (acc ++ [l])).
    { rewrite Hu2. unfold usage_only. rewrite foldl_app. cbn [foldl]. unfold line_only at 1. cbn. by rewrite Hu. }
    assert (Hblank : TrimRight_ends l = "" → usageOnly p1 = usage_only (acc ++ [l])).
    { intros Hb. rewrite <- Hu', Hu2, Hb. done. }
    unfold add. fold p1. fold p2.
    (* forwarding now, from [q] *)
    assert (Hnow : ∀ q, out q = out p → p_name q = p_name p → dropUsage q = dropUsage p →
      p_event q = concat_str (acc ++ [l]) → usageOnly q = usage_only (acc ++ [l]) →
      let '(p', err) := match emit write_fails clock q with
                        | (a, Some err) => (a, Some err)
                        | (a, None) => run_lines (add write_fails clock) (emit write_fails clock) a ls e end in
      let '(o, failed) := deliver (out p) (sent_events (p_name p) (dropUsage p) ((acc ++ [l]) :: events [] ls)) in
      out p' = o ∧ err = match failed with Some w => Some w | None => e end).
    { intros q Hq1 Hq2 Hq3 Hq4 Hq5. change ((acc ++ [l]) :: events [] ls) with ([acc ++ [l]] ++ events [] ls).
      rewrite sent_app, deliver_app, <- Hq1, <- Hq2, <- Hq3.
      pose proof (emit_sends q (acc ++ [l]) Hq4 Hacc' ltac:(by destruct acc) Hq5) as Hem.
      destruct (emit _ _ q) as [q' err]. destruct Hem as (-> & Hok). destruct err; [done|].
      destruct (Hok eq_refl) as (<- & <- & Hev & Hus). apply IH; [done|done|done|done]. }
    destruct (decide (TrimRight_ends l = "")) as [Hb|Hb].
    + rewrite (bool_decide_eq_true_2 _ Hb). cbn [orb]. by apply Hnow; auto.
    + rewrite (bool_decide_eq_false_2 _ Hb). cbn [orb]. rewrite He2, He1.
      destruct (len (concat_str (acc ++ [l])) >? maxEventBytes).
      * apply Hnow; auto. by rewrite He2.
      * pose proof (IH p2 (acc ++ [l]) Hls' Hacc' ltac:(by rewrite He2) Hu') as Hrec.
        rewrite Ho2, Hn2, Hd2 in Hrec. exact Hrec.
Qed.

(** C32: when no line of it is longer than the limit, a piped stream reaches the client event by event: what is written is every event of the upstream in order, each followed by a flush, with only the model's name in it replaced and only the usage-only chunk the gateway asked for itself left out, up to the first write that fails, whose error it returns; and nothing in how the bytes came or how the buffer was filled matters. Without a rename or a chunk to drop, the client gets the upstream's bytes exactly. *)
Theorem pipeSSE_sends alias dropUsageEvent limit s e :
  Forall (λ l, len l <= limit) (lines_of s) →
  let '(p, err) := pipeSSE write_fails clock alias dropUsageEvent limit s e in
  let name := if bool_decide (alias = "") then None else Some (Marshal_name alias) in
  let '(o, failed) := deliver [] (sent_events name dropUsageEvent (events [] (lines_of s))) in
  out p = o ∧ err = match failed with Some w => Some w | None => e end ∧
  (alias = "" → dropUsageEvent = false → failed = None → written (out p) = s).
Proof.
  intros Hlim. unfold pipeSSE. rewrite eachLine_run by (done || lia).
  pose proof (run_pipe (lines_of s) e (new_pipe alias dropUsageEvent) [] (lines_nonempty s) ltac:(constructor) eq_refl eq_refl) as Hrun.
  destruct (run_lines _ _ _ _ _) as [p err]. cbn [new_pipe p_name dropUsage out] in Hrun.
  destruct (deliver _ _) as [o failed] eqn:Ed. destruct Hrun as (Ho & He). cbn [update out]. split_and!; [done|done|].
  intros -> -> ->. rewrite Ho. rewrite bool_decide_eq_true_2 in Ed by done.
  assert (Hw : ∀ ws o1 o2, deliver o1 ws = (o2, None) → written o2 = written o1 +:+ concat_str ws).
  { assert (Hwa : ∀ a b, written (a ++ b) = written a +:+ written b).
    { unfold written. induction a as [|[w|] a IHa]; intros b; cbn [foldr app]; [by rewrite str_app_nil_l| |apply IHa].
      by rewrite IHa, str_app_assoc. }
    induction ws as [|w ws IH]; cbn; intros o1 o2; [intros [= <-]; by rewrite str_app_nil_r|].
    destruct (write_fails (length o1)); [done|]. intros ->%IH. rewrite Hwa, str_app_assoc. f_equal.
    unfold written. cbn [foldr]. by rewrite str_app_nil_r. }
  apply Hw in Ed. rewrite Ed. cbn [written foldr]. rewrite str_app_nil_l.
  assert (Hall : ∀ ls acc, concat_str (sent_events None false (events acc ls)) = concat_str acc +:+ concat_str ls).
  { assert (Hs : ∀ evs, sent_events None false evs = map concat_str evs).
    { intros evs. unfold sent_events. induction evs as [|ev evs IH]; [done|]. rewrite filter_cons_True by (by rewrite andb_false_r).
      cbn [map]. by rewrite IH. }
    induction ls as [|l ls IH]; intros acc; cbn [events].
    - rewrite Hs, str_app_nil_r. destruct acc; [done|]. unfold concat_str at 1. cbn [map foldr]. by rewrite str_app_nil_r.
    - destruct (bool_decide _ || _).
      + rewrite Hs. cbn [map]. change (concat_str (?x :: ?xs)) with (x +:+ concat_str xs). 
        rewrite <- Hs, IH, concat_app, str_app_assoc. done.
      + rewrite IH, concat_app, str_app_assoc. done. }
  rewrite Hall. cbn. rewrite str_app_nil_l. apply lines_concat.
Qed.
End piped.

(** ** Lines that are too long *)

Lemma ReadSlice_length n s : (String.length (ReadSlice n s).1.1 <= n)%nat.
Proof.
  revert s. induction n as [|n IH]; intros s; [by destruct s|]. destruct s as [|c s]; cbn; [lia|]. case_bool_decide; cbn; [lia|].
  specialize (IH s). destruct (ReadSlice n s) as [[frag rest] o]. cbn in *. lia.
Qed.

Lemma next_too_large fuel limit : ∀ part s l ls,
  (String.length s < fuel)%nat → len part <= limit → lines_of s = l :: ls →
  len part + len l > limit + Z.of_nat readBuffer → next fuel limit part s = TooLarge.
Proof.
  induction fuel as [|fuel IH]; intros part s l ls Hf Hp Hs Hl; [done|]. cbn [next].
  pose proof (ReadSlice_spec readBuffer s) as Hr. pose proof (ReadSlice_length readBuffer s) as Hn.
  destruct (ReadSlice readBuffer s) as [[frag rest] o]. cbn [fst] in Hn. destruct o.
  - destruct Hr as (f & -> & Hnl & ->). rewrite lines_cons in Hs by done. injection Hs as <- <-. unfold len in Hl, Hp. lia.
  - destruct Hr as (-> & Hnl & Hlen). rewrite Z.gtb_ltb. destruct (limit <? len part + len frag) eqn:Hlt; [done|]. to_prop.
    rewrite length_app_str in Hf.
    assert (Hsplit : ∃ l', l = frag +:+ l' ∧ (lines_of rest = l' :: ls ∨ l' = EmptyString)).
    { revert l Hs Hl. clear - Hnl Hlen. assert (Hfrag : frag ≠ EmptyString) by (intros ->; unfold readBuffer in Hlen; cbn in Hlen; lia).
      intros l Hs _. revert l Hs. clear Hlen. induction frag as [|c frag IHf]; [done|]. intros l.
      cbn in Hnl. apply orb_false_iff in Hnl as (Hc & Hnl). rewrite str_app_cons. cbn [lines_of]. rewrite Hc.
      destruct frag as [|d frag].
      - rewrite str_app_nil_l. destruct (lines_of rest) as [|x xs]; intros [= <- <-].
        + exists EmptyString. rewrite str_app_cons. auto.
        + exists x. rewrite str_app_cons, str_app_nil_l. auto.
      - destruct (lines_of (String.String d frag +:+ rest)) as [|x xs] eqn:E; intros [= <- <-].
        + apply lines_nil in E. by rewrite str_app_cons in E.
        + destruct (IHf Hnl ltac:(done) x) as (l' & -> & Hl'); [done|]. exists l'. split; [|done]. by rewrite str_app_cons. }
    destruct Hsplit as (l' & -> & Hrest). rewrite len_app in Hl.
    destruct Hrest as [Hrest| ->].
    + apply (IH _ _ l' ls); [|by rewrite len_app|done|rewrite len_app; lia].
      destruct frag; [unfold readBuffer in Hlen; cbn in Hlen; lia|cbn [String.length] in Hf; lia].
    + unfold len in *. cbn [String.length] in Hl. lia.
  - destruct Hr as (-> & -> & Hnl & Hlt). destruct s as [|c s]; [done|]. rewrite lines_last in Hs by done.
    injection Hs as <- <-. unfold len in *. lia.
Qed.

(** A stream is read line by line whatever the buffer: no line is read as two or joined with the next, EOF ends it and a failed read is returned after the end was told; and a line over the limit by more than one buffer ends it before that line, so an upstream that sends no newline cannot fill memory. *)
Theorem eachLine_reads {A} limit (line : A → string → A * option string) end_ (a : A) s e :
  0 <= limit →
  (Forall (λ l, len l <= limit) (lines_of s) →
     eachLine (S (String.length s)) limit line end_ a s e = run_lines line end_ a (lines_of s) e) ∧
  ∀ ls l rest, lines_of s = ls ++ l :: rest → Forall (λ l, len l <= limit) ls → len l > limit + Z.of_nat readBuffer →
    eachLine (S (String.length s)) limit line end_ a s e = run_lines line end_ a ls (Some errEventTooLarge).
Proof.
  intros Hlim. split; [intros; apply eachLine_run; [lia|done]|].
  assert (Hgen : ∀ n a s ls l rest, (String.length s < n)%nat → lines_of s = ls ++ l :: rest → Forall (λ l, len l <= limit) ls →
    len l > limit + Z.of_nat readBuffer →
    eachLine n limit line end_ a s e = run_lines line end_ a ls (Some errEventTooLarge)).
  { clear a s. induction n as [|n IH]; intros a s ls l rest Hn Hs Hls Hl; [lia|]. cbn [eachLine].
    destruct ls as [|x ls]; cbn [app] in Hs.
    - rewrite (next_too_large _ limit EmptyString s l rest); [|lia|done|done|exact Hl].
      rewrite bool_decide_eq_true_2 by done. done.
    - inversion Hls as [|? ? Hx Hls']; subst.
      pose proof (next_line_spec (S (String.length s)) limit EmptyString s ltac:(lia)) as Hnext.
      pose proof (lines_nonempty s) as Hne. rewrite Hs in Hnext, Hne. inversion Hne; subst.
      destruct Hnext as [(Hx' & Hrest)|(_ & Hnil)].
      { intros l0 ls0 [= <- <-]. exact Hx. }
      + rewrite Hx', str_app_nil_l, bool_decide_eq_false_2 by done. cbn [run_lines].
        destruct (line a x) as [a' [err|]]; [done|]. apply (IH _ _ _ l rest); [|by rewrite Hrest|done|done].
        rewrite <- (lines_concat s), Hs in Hn. change (concat_str (x :: ?xs)) with (x +:+ concat_str xs) in Hn.
        rewrite length_app_str in Hn. destruct x; [done|]. cbn [String.length] in Hn. lia.
      + by destruct ls. }
  intros ls l rest Hs Hls Hl. apply (Hgen _ _ _ _ l rest); auto.
Qed.

(** ** Renaming *)

Lemma to_quote_spec k : ∀ s n, (String.length s < k)%nat → to_quote s = Some n →
  ∃ inner rest, s = inner +:+ String.String (Ascii.ascii_of_nat 34) rest ∧ String.length inner = n.
Proof.
  induction k as [|k IH]; intros s n Hk; [lia|]. destruct s as [|c s]; [done|]. cbn [to_quote].
  destruct (byte_val c =? 34)%nat eqn:Eq.
  - intros [= <-]. exists EmptyString, s. apply Nat.eqb_eq in Eq. split; [|done].
    rewrite str_app_nil_l. f_equal. rewrite <- (Ascii.ascii_nat_embedding c). unfold byte_val in Eq. by rewrite Eq.
  - destruct (byte_val c =? 92)%nat.
    + destruct s as [|d s]; [done|]. intros (n' & (n2 & Hn & ->)%fmap_Some & ->)%fmap_Some.
      apply IH in Hn as (inner & rest & -> & <-); [|cbn in Hk; lia].
      exists (String.String c (String.String d inner)), rest. by rewrite !str_app_cons.
    + intros (n' & Hn & ->)%fmap_Some. apply IH in Hn as (inner & rest & -> & <-); [|cbn in Hk; lia].
      exists (String.String c inner), rest. by rewrite str_app_cons.
Qed.

Lemma take_drop_at a b : take_str (String.length a) (a +:+ b) = a ∧ drop_str (String.length a) (a +:+ b) = b.
Proof. split; [apply take_str_app|apply drop_str_app]. Qed.

Lemma skip_blanks_spec s : ∃ blanks rest, s = blanks +:+ rest ∧ String.length blanks = skip_blanks s ∧
  all_chars (λ c, byte_val c = 32%nat ∨ byte_val c = 9%nat) blanks.
Proof.
  induction s as [|c s (blanks & rest & -> & Hl & Hb)].
  { exists EmptyString, EmptyString. split_and!; [done|done|constructor]. }
  cbn [skip_blanks]. destruct (_ || _) eqn:E.
  2: { exists EmptyString, (String.String c (blanks +:+ rest)). split_and!; [done|done|constructor]. }
  exists (String.String c blanks), rest. rewrite str_app_cons. split_and!; [done|cbn; lia|].
  constructor; [|done]. apply orb_true_iff in E as [E|E]; apply Z.eqb_eq in E; lia.
Qed.

Lemma Index_spec s sub i : Index s sub = Some i → ∃ pre after, s = pre +:+ sub +:+ after ∧ String.length pre = i.
Proof.
  unfold Index. revert i. induction s as [|c s IH]; intros i; cbn [String.index].
  - destruct sub; [|done]. intros [= <-]. by exists EmptyString, EmptyString.
  - destruct (String.prefix sub (String.String c s)) eqn:Ep.
    + intros [= <-]. apply has_prefix_spec in Ep as (after & ->). exists EmptyString, after. by rewrite str_app_nil_l.
    + destruct (String.index 0 sub s) as [j|]; [|done]. intros [= <-].
      destruct (IH j eq_refl) as (pre & after & -> & <-). exists (String.String c pre), after. by rewrite str_app_cons.
Qed.

(** Where [modelValue] finds a value, it is the string after the first model key. *)
Lemma modelValue_spec raw a b : modelValue raw = Some (a, b) →
  ∃ i pre blanks inner post, Index raw modelKey = Some i ∧ String.length pre = i ∧
    raw = pre +:+ modelKey +:+ blanks +:+ chr 34 +:+ inner +:+ chr 34 +:+ post ∧
    all_chars (λ c, byte_val c = 32%nat ∨ byte_val c = 9%nat) blanks ∧
    take_str a raw = pre +:+ modelKey +:+ blanks ∧ drop_str b raw = post.
Proof.
  unfold modelValue. destruct (Index raw modelKey) as [i|] eqn:Ei; [|done].
  destruct (Index_spec _ _ _ Ei) as (pre & after & -> & Hpre).
  assert (drop_str (i + String.length modelKey) (pre +:+ modelKey +:+ after) = after) as Hd.
  { rewrite <- Hpre, <- length_app_str, <- str_app_assoc. apply drop_str_app. }
  rewrite Hd. destruct (skip_blanks_spec after) as (blanks & rest & -> & Hl & Hb). rewrite <- Hl.
  set (front := pre +:+ modelKey +:+ blanks).
  assert (pre +:+ modelKey +:+ blanks +:+ rest = front +:+ rest) as Hf by (unfold front; by rewrite !str_app_assoc).
  assert ((i + String.length modelKey + String.length blanks)%nat = String.length front) as ->.
  { unfold front. rewrite !length_app_str. lia. }
  rewrite Hf, drop_str_app. destruct rest as [|c rest]; [done|]. destruct (byte_val c =? 34)%nat eqn:Eq; [|done].
  intros (n & Hn & [= -> ->])%fmap_Some.
  apply (to_quote_spec (S (String.length rest))) in Hn as (inner & post & -> & <-); [|lia].
  assert (String.String c (inner +:+ String.String (Ascii.ascii_of_nat 34) post) = chr 34 +:+ inner +:+ chr 34 +:+ post) as Hq.
  { apply Nat.eqb_eq in Eq. assert (c = Ascii.ascii_of_nat 34) as ->.
    { rewrite <- (Ascii.ascii_nat_embedding c). unfold byte_val in Eq. by rewrite Eq. }
    unfold chr. by rewrite !str_app_cons, !str_app_nil_l. }
  exists i, pre, blanks, inner, post. rewrite Hq in *. split_and!; try done.
  - apply take_str_app.
  - rewrite <- (str_app_assoc front), <- (str_app_assoc _ inner), <- (str_app_assoc _ (chr 34)).
    assert (S (S (String.length front + String.length inner)) = String.length (((front +:+ chr 34) +:+ inner) +:+ chr 34)) as ->.
    { rewrite !length_app_str. cbn. lia. }
    apply drop_str_app.
Qed.

(** Renaming changes the model's name alone: what the client gets of an answer or a chunk is the upstream's bytes with the string after the first model key replaced by the alias, encoded; a document without one is returned as it is. *)
Theorem renameModel_only `{Chunks} raw alias :
  renameModel raw alias = raw ∨
  ∃ i pre blanks inner post, Index raw modelKey = Some i ∧ String.length pre = i ∧
    all_chars (λ c, byte_val c = 32%nat ∨ byte_val c = 9%nat) blanks ∧
    raw = pre +:+ modelKey +:+ blanks +:+ chr 34 +:+ inner +:+ chr 34 +:+ post ∧
    renameModel raw alias = pre +:+ modelKey +:+ blanks +:+ Marshal_name alias +:+ post.
Proof.
  unfold renameModel. destruct (modelValue raw) as [[a b]|] eqn:Em; [right|by left].
  apply modelValue_spec in Em as (i & pre & blanks & inner & post & Hi & Hpre & Hraw & Hb & Ht & Hd).
  exists i, pre, blanks, inner, post. split_and!; try done. unfold renamed. rewrite Ht, Hd. by rewrite !str_app_assoc.
Qed.

(** ** The payloads of a stream *)

Definition join_data (data chunk : string) : string :=
  (if bool_decide (data = "") then data else data +:+ newline) +:+ chunk.

(** What a line adds to a payload. *)
Definition data_of (l : string) : option string := TrimSpace <$> CutPrefix (TrimRight_ends l) dataPrefix.

Definition ended_payload (data : string) : list string :=
  if bool_decide (data = "") || bool_decide (TrimSpace data = doneMarker) then [] else [data].

(** The payloads of a stream's lines: an event's data lines joined, without the terminator. *)
Fixpoint payloads (data : string) (ls : list string) : list string :=
  match ls with
  | [] => ended_payload data
  | l :: ls =>
      if bool_decide (TrimRight_ends l = "") then ended_payload data ++ payloads "" ls
      else payloads (match data_of l with Some chunk => join_data data chunk | None => data end) ls
  end.

(** No payload goes over the limit while it is joined. *)
Fixpoint payloads_fit (limit : Z) (data : string) (ls : list string) : Prop :=
  match ls with
  | [] => True
  | l :: ls =>
      if bool_decide (TrimRight_ends l = "") then payloads_fit limit "" ls
      else match data_of l with
           | Some chunk => len data + len chunk <= limit ∧ payloads_fit limit (join_data data chunk) ls
           | None => payloads_fit limit data ls
           end
  end.

Section payload_theorems.
Context {A : Type} (fn : A → string → A * option string) (limit : Z).

(** Calls until one fails. *)
Fixpoint call_each (a : A) (ps : list string) : A * option string :=
  match ps with
  | [] => (a, None)
  | p :: ps => match fn a p with (a, Some err) => (a, Some err) | (a, None) => call_each a ps end
  end.

Lemma call_each_app ps1 ps2 : ∀ a,
  call_each a (ps1 ++ ps2) = match call_each a ps1 with (a, Some err) => (a, Some err) | (a, None) => call_each a ps2 end.
Proof.
  induction ps1 as [|p ps1 IH]; intros a; cbn; [done|]. by destruct (fn a p) as [a' [err|]].
Qed.

Lemma complete_calls data a :
  let '((data', a'), err) := complete fn (data, a) in
  (a', err) = call_each a (ended_payload data) ∧ data' = "".
Proof.
  unfold complete, ended_payload. case_bool_decide as Hd; [by subst|]. cbn [orb]. case_bool_decide; [done|].
  cbn [call_each]. by destruct (fn a data) as [a' [err|]].
Qed.

Lemma run_scan ls e : ∀ data a, payloads_fit limit data ls →
  let '((_, a'), err) := run_lines (scan_line fn limit) (complete fn) (data, a) ls e in
  (a', err) = match call_each a (payloads data ls) with (a, Some err) => (a, Some err) | (a, None) => (a, e) end.
Proof.
  induction ls as [|l ls IH]; intros data a Hfit; cbn [run_lines payloads].
  - pose proof (complete_calls data a) as Hc. destruct (complete fn (data, a)) as [[data' a'] err]. destruct Hc as (<- & _).
    by destruct err.
  - cbn [payloads_fit] in Hfit. unfold scan_line at 1. case_bool_decide as Hb.
    + pose proof (complete_calls data a) as Hc. destruct (complete fn (data, a)) as [[data' a'] err]. destruct Hc as (Hc & ->).
      rewrite call_each_app, <- Hc. destruct err; [done|]. by apply IH.
    + unfold data_of in *. destruct (CutPrefix _ _) as [rest|]; cbn [fmap option_fmap option_map] in *; [|by apply IH].
      destruct Hfit as (Hl & Hfit). rewrite Z.gtb_ltb, (proj2 (Z.ltb_ge _ _)) by done. by apply IH.
Qed.

(** A translated stream's payloads are read whole and once: [scanSSE] calls its function with exactly the payloads of the stream, each event's data lines joined by newlines, in order and without the terminator, until a call fails, however the bytes came; the last event counts without its blank line. *)
Theorem scanSSE_payloads a s e :
  Forall (λ l, len l <= limit) (lines_of s) → payloads_fit limit "" (lines_of s) →
  scanSSE fn limit a s e =
  match call_each a (payloads "" (lines_of s)) with (a, Some err) => (a, Some err) | (a, None) => (a, e) end.
Proof.
  intros Hlim Hfit. unfold scanSSE. rewrite eachLine_run by (done || lia).
  pose proof (run_scan (lines_of s) e "" a Hfit) as Hr. destruct (run_lines _ _ _ _ _) as [[d a'] err]. exact Hr.
Qed.
End payload_theorems.

(** ** Flushes and pings *)

(** Nothing the client is to get is held back while the gateway waits for the upstream: over any steps of the writer, whenever a read waits, every flush asked for has happened, and what was asked for is flushed before the wait begins. *)
Theorem flushBeforeRead_holds_nothing (ops : list fl_op) :
  let f := foldl fl_step {| fl_out := []; fl_pending := false; fl_waiting := false |} ops in
  (fl_waiting f = true → fl_pending f = false) ∧
  fl_pending (fl_step f FlRead) = false ∧
  (fl_pending f = true → last (fl_out (fl_step f FlRead)) = Some Flushed) ∧
  (fl_waiting f = true → last (fl_out (fl_step f FlLater)) = Some Flushed).
Proof.
  intros f. assert (fl_waiting f = true → fl_pending f = false) as Hinv.
  { unfold f. clear f. induction ops as [|o ops IH] using rev_ind; [done|]. rewrite foldl_app. cbn [foldl].
    set (g := foldl _ _ ops) in *. clearbody g. destruct g as [o' [] []]; destruct o; cbn in *; intuition congruence. }
  split_and!; [done| | |].
  - cbn [fl_step fl_pending]. unfold fl_flush. by destruct (fl_pending f) eqn:Hp.
  - intros Hp. cbn [fl_step fl_out]. unfold fl_flush. rewrite Hp. cbn [fl_out]. apply last_snoc.
  - intros Hw. cbn [fl_step]. rewrite Hw. unfold fl_flush. cbn [fl_pending fl_waiting fl_out]. apply last_snoc.
Qed.

(** What happens to a pinger: an event to write, or the timer. *)
Inductive ping_op := PWrite (ev : string) (now : Z) | PTick (now : Z).

Definition ping_step (write_fails : nat → option string) (every : Z) (p : pinger) (o : ping_op) : pinger :=
  match o with PWrite ev now => (ping_write write_fails p ev now).1 | PTick now => ping_tick write_fails every p now end.

(** Once a write to the client fails nothing more is written, and the error stays; a ping is written only when nothing else was for the whole interval, and with the timer running there is never more than the interval without a write. *)
Theorem pinger_quiet write_fails every (p : pinger) (o : ping_op) :
  let p' := ping_step write_fails every p o in
  (is_Some (pg_err p) → pg_out p' = pg_out p ∧ pg_err p' = pg_err p) ∧
  (∀ now, o = PTick now → pg_out p' ≠ pg_out p →
     pg_err p = None ∧ pg_stopped p = false ∧ every <= now - pg_last p ∧ pg_out p' = pg_out p ++ [Wrote pingEvent; Flushed]) ∧
  (∀ now, o = PTick now → pg_stopped p = false → pg_err p' = None → pg_timer p' = Some (pg_last p' + every)).
Proof.
  intros p'. unfold p', ping_step. destruct o as [ev now|now].
  - split_and!; [|done|done]. intros [err He]. unfold ping_write. by rewrite He.
  - unfold ping_tick. split_and!.
    + intros [err He]. rewrite He, bool_decide_eq_true_2, orb_true_r by eauto. done.
    + intros now' [= <-]. destruct (pg_stopped p) eqn:Es; [by intros []|]. case_bool_decide as He; [by intros []|]. cbn [orb].
      destruct (every <=? now - pg_last p) eqn:Eq; [|by intros []]. to_prop. unfold Write.
      destruct (write_fails _); [by intros []|].
      cbn [pg_out]. intros _. split_and!; [|done|done|by rewrite <- app_assoc]. destruct (pg_err p); [|done]. destruct He; eauto.
    + intros now' [= <-] Hs. rewrite Hs. cbn [orb]. case_bool_decide as He; [intros Hn; rewrite Hn in He; by destruct He|].
      destruct (every <=? now - pg_last p); [|cbn; intros _; f_equal; lia]. unfold Write.
      by destruct (write_fails _).
Qed.

(** *** Witnesses *)

Section samples.
Instance sample_chunks : Chunks :=
  {| usage_chunk s := if bool_decide (is_Some (Index s "choices")) then Some (None, 1%nat)
       else Some (Some {| InputTokens := 7; OutputTokens := 3; CachedTokens := 0; CacheWriteTokens := 0; CacheWriteHourTokens := 0 |}, 0%nat);
     choices_of s := []; error_envelope s := None; Marshal_name s := chr 34 +:+ s +:+ chr 34 |}.

Definition never : nat → option string := λ _, None.

Definition sample_chunk : string := "data: {" +:+ modelKey +:+ " " +:+ quoted_key "backend" +:+ "}" +:+ newline +:+ newline.
Definition sample_usage : string := "data: {" +:+ usageKey +:+ ":{}}" +:+ newline +:+ newline.
Definition sample_stream : string := sample_chunk +:+ sample_usage +:+ "data: [DONE]" +:+ newline +:+ newline.

Lemma sample_lines : Forall (λ l, len l <= 100) (lines_of sample_stream).
Proof. vm_compute. repeat constructor; discriminate. Qed.

Lemma pipeSSE_sends_witness :
  written (out (pipeSSE never (λ _, 0) "" false 100 sample_stream None).1) = sample_stream ∧
  out (pipeSSE never (λ _, 0) "mine" true 100 sample_stream None).1 =
    [Wrote ("data: {" +:+ modelKey +:+ " " +:+ quoted_key "mine" +:+ "}" +:+ newline +:+ newline); Flushed;
     Wrote ("data: [DONE]" +:+ newline +:+ newline); Flushed].
Proof.
  split.
  - pose proof (pipeSSE_sends never (λ _, 0) "" false 100 sample_stream None sample_lines) as Hs.
    destruct (pipeSSE _ _ _ _ _ _ _) as [p err]. cbv zeta in Hs.
    match type of Hs with context [deliver ?w ?o ?l] => destruct (deliver w o l) as [o' failed] eqn:Ed end.
    destruct Hs as (_ & _ & Hw). apply Hw; [reflexivity|reflexivity|]. apply (f_equal snd) in Ed. vm_compute in Ed. exact (eq_sym Ed).
  - vm_compute. reflexivity.
Defined.

Lemma eachLine_reads_witness :
  eachLine (S (String.length sample_stream)) 100 (λ (a : list string) l, (a ++ [l], None)) (λ a, (a, None)) [] sample_stream None =
  (lines_of sample_stream, None).
Proof.
  rewrite (proj1 (eachLine_reads 100 _ _ [] sample_stream None ltac:(lia)) sample_lines). vm_compute. reflexivity.
Defined.

Lemma scanSSE_payloads_witness :
  scanSSE (λ (a : list string) p, (a ++ [p], None)) 100 [] sample_stream None =
  (["{" +:+ modelKey +:+ " " +:+ quoted_key "backend" +:+ "}"; "{" +:+ usageKey +:+ ":{}}"], None).
Proof.
  rewrite (scanSSE_payloads _ 100 [] sample_stream None sample_lines); [vm_compute; reflexivity|].
  vm_compute. repeat split; discriminate.
Defined.
End samples.
