(* ===== verification/Routing.v ===== *)
(** * Route steps

    How a route step places a request: [internal/gateway/route.go],
    [size.go], [header.go] and [load.go]. A size step ranks by the text's
    length, a header step looks its destination up, a trying step orders by
    what was measured, and an instruction step asks a model. *)
From S2P Require Import Prelude GoTime Num Stable Tenancy Pricing Guardrails Text Hosting Filters Routers.
From S2P Require Import RouterCheck Replies Guard.
Open Scope go_scope.

(** ** Refusals *)

Record refusal := {
  R_status : Z;
  R_typ : string;
  R_code : string;
  R_msg : string;
  R_advise : bool;
  R_retry : Z;
}.

Definition invalidBody (msg : string) : refusal :=
  {| R_status := 400; R_typ := "invalid_request_error"; R_code := "invalid_body"; R_msg := msg;
     R_advise := false; R_retry := 0 |}.

Definition unreadableBody (who err : string) : refusal :=
  {| R_status := 400; R_typ := "invalid_request_error"; R_code := "invalid_body";
     R_msg := who +:+ ", and this request could not be read: " +:+ err;
     R_advise := true; R_retry := 0 |}.

Definition noDestination (msg : string) : refusal :=
  {| R_status := 503; R_typ := "server_error"; R_code := "router_destination_unavailable";
     R_msg := msg +:+ ". Nothing was sent to a model"; R_advise := true; R_retry := 0 |}.

(** ** Measured destinations *)

Definition loadHalfLife : Z := 30 * Second.
Definition loadStale : Z := 5 * Minute.
Definition loadPenalty : Z := 30 * Second.

Record destLoad := { inflight : Z; ewma : Z; dl_at : Z; failedAt : Z }.

Definition destLoad_zero : destLoad :=
  {| inflight := 0; ewma := 0; dl_at := time_zero; failedAt := time_zero |}.

(** [loads], by model key. [get] makes the zero record on first use, which a
    missing one reads as. *)
Abbreviation loads := (gmap string destLoad).

Definition load_get (l : loads) (key : string) : destLoad := default destLoad_zero (l !! key).

Definition set_inflight (l : loads) (key : string) (n : Z) : loads :=
  let d := load_get l key in
  <[key := {| inflight := n; ewma := ewma d; dl_at := dl_at d; failedAt := failedAt d |}]> l.

(** The function [begin] returns: which destination it ends a request of, and
    whether it was called. *)
Record release := { rel_key : string; rel_done : bool }.

Definition begin (l : loads) (key : string) : release * loads :=
  ({| rel_key := key; rel_done := false |}, set_inflight l key (inflight (load_get l key) ⊕ 1)).

Definition release_call (r : release) (l : loads) : release * loads :=
  if rel_done r then (r, l)
  else ({| rel_key := rel_key r; rel_done := true |},
        set_inflight l (rel_key r) (inflight (load_get l (rel_key r)) ⊖ 1)).

Section observe.
Context `{Num T}.
(** [math.Exp2]. *)
Context (Exp2 : T → T).

(** The decayed average, [age] after the last update. *)
Definition blend (age old new : Z) : Z :=
  let w := Exp2 (num_div (num_mul (of_Z (-1)) (Seconds age)) (Seconds loadHalfLife)) in
  num_trunc (num_add (num_mul w (of_Z old)) (num_mul (num_sub (of_Z 1) w) (of_Z new))).

Definition observe (l : loads) (key : string) (ttft now : Z) : loads :=
  if ttft <=? 0 then l
  else
    let d := load_get l key in
    let age := time_sub now (dl_at d) in
    let e := if IsZero (dl_at d) || (age >=? loadStale) || (age <? 0) then ttft
             else blend age (ewma d) ttft in
    <[key := {| inflight := inflight d; ewma := e; dl_at := now; failedAt := failedAt d |}]> l.
End observe.

Definition fail (l : loads) (key : string) (now : Z) : loads :=
  let d := load_get l key in
  <[key := {| inflight := inflight d; ewma := ewma d; dl_at := dl_at d; failedAt := now |}]> l.

Record reading := { rd_inflight : Z; latency : Z; known : bool; failing : bool }.

Definition read (l : loads) (key : string) (now : Z) : reading :=
  let d := load_get l key in
  let age := time_sub now (dl_at d) in
  let fresh := negb (IsZero (dl_at d)) && (age >=? 0) && (age <? loadStale) in
  {| rd_inflight := inflight d;
     latency := if fresh then ewma d else 0;
     known := fresh;
     failing := negb (IsZero (failedAt d)) && (time_sub now (failedAt d) <? loadPenalty) |}.

#[export] Instance reading_eq_dec : EqDecision reading.
Proof. solve_decision. Defined.

(** The comparison of [order]. *)
Definition load_less (mode : string) (a b : reading) : bool :=
  if negb (eqb (failing a) (failing b)) then negb (failing a)
  else if bool_decide (mode = RouteModeLeastBusy) then rd_inflight a <? rd_inflight b
  else if negb (eqb (known a) (known b)) then negb (known a)
  else latency a <? latency b.

Definition order (l : loads) (mode : string) (aliases : list string) (key : string → string)
    (now : Z) : list string :=
  if (length aliases <? 2)%nat || negb (RouteMode_Measures mode) then aliases
  else stable_sort (λ a b, load_less mode (read l (key a) now) (read l (key b) now)) aliases.

Definition orderByLoad (l : loads) (rt : Route) (aliases : list string) (now : Z) : list string :=
  order l (Rt_Mode rt) aliases (ModelKey (Rt_OrgID rt)) now.

(** ** Decisions *)

Definition RouterChose : string := "chose".
Definition RouterFellBack : string := "fallback".
Definition RouterError : string := "error".

Record routeDecision := {
  d_alias : string;
  d_outcome : string;
  d_chain : list string;
  d_micros : Z;
  d_bills : list BillLine;
  d_why : string;
}.

Definition routeDecision_zero : routeDecision :=
  {| d_alias := ""; d_outcome := ""; d_chain := []; d_micros := 0; d_bills := []; d_why := "" |}.

Definition chose : routeDecision :=
  {| d_alias := ""; d_outcome := RouterChose; d_chain := []; d_micros := 0; d_bills := [];
     d_why := "" |}.

Definition set_outcome (d : routeDecision) (outcome : string) : routeDecision :=
  {| d_alias := d_alias d; d_outcome := outcome; d_chain := d_chain d; d_micros := d_micros d;
     d_bills := d_bills d; d_why := d_why d |}.

Definition set_chain (d : routeDecision) (chain : list string) : routeDecision :=
  {| d_alias := d_alias d; d_outcome := d_outcome d; d_chain := chain; d_micros := d_micros d;
     d_bills := d_bills d; d_why := d_why d |}.

Definition set_why (d : routeDecision) (why : string) : routeDecision :=
  {| d_alias := d_alias d; d_outcome := d_outcome d; d_chain := d_chain d; d_micros := d_micros d;
     d_bills := d_bills d; d_why := why |}.

Definition place (d : routeDecision) (alias : string) (chain : list string) : routeDecision :=
  {| d_alias := alias; d_outcome := d_outcome d; d_chain := chain; d_micros := d_micros d;
     d_bills := d_bills d; d_why := d_why d |}.

Definition stepSubject (rt : Route) : string :=
  "the route step '" +:+ Rt_Step rt +:+ "' of the router '" +:+ Rt_Router rt +:+ "'".

Section route.
Context `{Source} `{Unicode}.

(** [Server.sortDestinations]. *)
Definition sortDestinations (rt : Route) : list string * list string :=
  foldl (λ '(kept, dropped) alias,
    let why := chatProblem (src_Model (Rt_OrgID rt) alias) in
    if negb (bool_decide (why = "")) then (kept, dropped ++ [alias +:+ " " +:+ why])
    else (kept ++ [alias], dropped)) ([], []) (Rt_Destinations rt).

(** [Server.allLocked]: the last destination, when every one is locked. *)
Fixpoint all_locked_loop (orgID : string) (destinations : list string) (last : option Model)
    : option Model :=
  match destinations with
  | [] => last
  | alias :: destinations =>
      match src_Model orgID alias with
      | Some m => if Locked m then all_locked_loop orgID destinations (Some m) else None
      | None => None
      end
  end.

Definition allLocked (rt : Route) : option Model :=
  all_locked_loop (Rt_OrgID rt) (Rt_Destinations rt) None.

(** [Server.nowhere]. *)
Definition nowhere (rt : Route) (why : string) : refusal :=
  match allLocked rt with
  | Some m =>
      {| R_status := 403; R_typ := "permission_error"; R_code := "org_limited";
         R_msg := "every destination of " +:+ stepSubject rt +:+ " " +:+ lockedReason m +:+ "; " +:+
           LockedMessage (OrgName m);
         R_advise := false; R_retry := 0 |}
  | None => noDestination why
  end.

(** [Server.routeFallback]. *)
Definition routeFallback (rt : Route) (d : routeDecision) : routeDecision * option refusal :=
  if Refuses rt then
    let how := if bool_decide (Rt_Mode rt = RouteModeHeader)
      then "chooses the model by the header " +:+ Rt_Header rt
      else "reads each request to choose which model answers it" in
    (set_outcome d RouterError,
     Some {| R_status := 503; R_typ := "server_error"; R_code := "router_undecided";
       R_msg := stepSubject rt +:+ " " +:+ how +:+ ", and it could not choose for this one - " +:+
         d_why d +:+ ". It has no fallback destination, so nothing was sent to a model";
       R_advise := true; R_retry := 0 |})
  else (place (set_outcome d RouterFellBack) (Rt_Fallback rt) [Rt_Fallback rt], None).

(** ** Trying steps *)

(** [Server.chain]. *)
Definition chain (l : loads) (now : Z) (rt : Route) : routeDecision * option refusal :=
  let '(kept, dropped) := sortDestinations rt in
  let d := set_chain chose (orderByLoad l rt kept now) in
  match d_chain d with
  | [] =>
      if RouteMode_Decides (Rt_Mode rt) && negb (Refuses rt) then
        routeFallback rt (set_why d ("its destination " +:+ join "; " dropped))
      else
        (set_outcome d RouterError,
         Some (nowhere rt (stepSubject rt +:+ " sends each request to the first of its " +:+
           "destinations that can answer it, and none of them can: " +:+ join "; " dropped)))
  | first :: _ => (place d first (d_chain d), None)
  end.

(** ** Size steps *)

(** [sizeTier]: [sizeFits], [sizeOverCeiling], [sizeTooLarge]. *)
Definition sizeFits : Z := 0.
Definition sizeOverCeiling : Z := 1.
Definition sizeTooLarge : Z := 2.

Definition estimateTokens (texts : list string) : Z :=
  quot64 (foldl (λ n t, n ⊕ len t) 0 texts) bytesPerToken.

Record ranked := { rk_alias : string; tier : Z; ceiling : Z }.

(** [cmp.Compare] and [cmp.Or]. *)
Definition Compare (a b : Z) : Z := if a <? b then -1 else if b <? a then 1 else 0.
Definition cmp_Or (a b : Z) : Z := if a =? 0 then b else a.

Definition byCeiling (a b : Z) : Z :=
  Compare (if a =? 0 then MaxInt else a) (if b =? 0 then MaxInt else b).

(** One destination's place for a request of [tokens]. *)
Definition rank (rt : Route) (tokens : Z) (alias : string) (m : Model) : ranked :=
  let '(ceiling, bounded) := Ceiling (Rt_Ceilings rt) alias in
  {| rk_alias := alias; ceiling := ceiling;
     tier := if (MaxContext m >? 0) && (tokens >? MaxContext m) then sizeTooLarge
             else if bounded && (tokens >? ceiling) then sizeOverCeiling
             else sizeFits |}.

Definition ranked_less (a c : ranked) : bool :=
  cmp_Or (Compare (tier a) (tier c)) (byCeiling (ceiling a) (ceiling c)) <? 0.

(** The order [sized] tries the serveable destinations in. *)
Definition size_order (rt : Route) (tokens : Z) : list ranked :=
  stable_sort ranked_less
    (omap (λ alias, rank rt tokens alias <$> serveable (Rt_OrgID rt) alias) (Rt_Destinations rt)).

(** [Server.sized]; [texts] is what [extractText] reads, or its error. *)
Definition sized (rt : Route) (texts : string + list string) : routeDecision * option refusal :=
  match texts with
  | inl err => (chose, Some (unreadableBody (stepSubject rt +:+
      " chooses the model by how much text is " +:+ "in the request") err))
  | inr texts =>
      let tokens := estimateTokens texts in
      match size_order rt tokens with
      | [] => (set_outcome chose RouterError,
          Some (nowhere rt (stepSubject rt +:+ " chooses between its destinations by how " +:+
            "much text is in the request, and none of them can answer one - every one is " +:+
            "missing, disabled, of another kind, or has no backend")))
      | (first :: _) as order =>
          (place chose (rk_alias first) (rk_alias <$> order), None)
      end
  end.

(** [sizeBands]. *)
Record sizeBand := { band_alias : string; from : Z; to : Z; dead : bool }.

Definition ceiling_less (a b : string * Z) : bool := byCeiling a.2 b.2 <? 0.

Fixpoint bands_loop (order : list (string * Z)) (floor : Z) : list sizeBand :=
  match order with
  | [] => []
  | (alias, ceiling) :: order =>
      let is_dead := (ceiling >? 0) && (ceiling <=? floor) in
      {| band_alias := alias; from := floor; to := ceiling; dead := is_dead |} ::
      bands_loop order (if is_dead then floor else if ceiling >? 0 then ceiling else floor)
  end.

Definition sizeBands (rt : Route) (aliases : list string) : list sizeBand :=
  bands_loop (stable_sort ceiling_less
    ((λ alias, (alias, (Ceiling (Rt_Ceilings rt) alias).1)) <$> aliases)) 0.

(** ** Header steps *)

(** [strings.ToValidUTF8 s ""]: runs of bytes that start no rune go. *)
Fixpoint to_valid_fuel (fuel : nat) (s : string) : string :=
  match fuel, s with
  | S fuel, String a s' =>
      match Text.decode_rune s with
      | Some (r, rest) =>
          (if (r =? Text.RuneError) && (String.length rest =? String.length s')%nat then ""
           else String.substring 0 (String.length s - String.length rest) s) +:+
          to_valid_fuel fuel rest
      | None => ""
      end
  | _, _ => ""
  end.

Definition ToValidUTF8 (s : string) : string := to_valid_fuel (String.length s) s.

Definition quoteValue (v : string) : string :=
  Quote (if len v >? 64 then ToValidUTF8 (Text.take_str 64 v) +:+ Text.ellipsis else v).

Definition headerUndecided (rt : Route) (why : string) : refusal :=
  {| R_status := 400; R_typ := "invalid_request_error"; R_code := "router_undecided";
     R_msg := stepSubject rt +:+ " chooses the model by a request header, and " +:+ why +:+
       ". Send " +:+ Rt_Header rt +:+ " with one of: " +:+ join ", " (sorted_keys (Rt_Values rt)) +:+
       ". Nothing was sent to a model";
     R_advise := false; R_retry := 0 |}.

(** Which destination the header's values name, or why none. *)
Definition header_choice (rt : Route) (sent : list string) : string + string :=
  match sent with
  | [] => inl ("the request did not send the header " +:+ Rt_Header rt)
  | [v] =>
      match Rt_Values rt !! ToLower (TrimSpace v) with
      | Some alias => inr alias
      | None => inl ("the header " +:+ Rt_Header rt +:+ " says " +:+ quoteValue v +:+
          ", which is not one of the step's values")
      end
  | _ => inl ("the request sent the header " +:+ Rt_Header rt +:+ " more than once")
  end.

(** [Server.byHeader]; [sent] is [h.Values(rt.Header)]. *)
Definition byHeader (rt : Route) (sent : list string) : routeDecision * option refusal :=
  match header_choice rt sent with
  | inl why =>
      let d := set_why chose why in
      if Refuses rt then (set_outcome d RouterError, Some (headerUndecided rt why))
      else routeFallback rt d
  | inr alias =>
      let why := chatProblem (src_Model (Rt_OrgID rt) alias) in
      if negb (bool_decide (why = "")) then
        routeFallback rt (set_why chose ("the header " +:+ Rt_Header rt +:+ " says " +:+
          quoteValue (default "" (sent !! 0%nat)) +:+ ", which " +:+ "sends it to '" +:+ alias +:+
          "', and that model " +:+ why))
      else (place chose alias [alias], None)
  end.
End route.

(** ** Instruction steps *)

Definition routeWindowBytes : Z := 24576.
Definition routeOutputTokens : Z := 64.
Definition maxRouteResponseBytes : Z := 65536.

(** The loop of [routeWindow], from the end: how many of the newest segments
    fit the budget. *)
Fixpoint window_loop (rev_texts : list string) (budget : Z) : nat :=
  match rev_texts with
  | [] => O
  | text :: rest =>
      let budget := budget ⊖ len text in
      if budget <? 0 then O else S (window_loop rest budget)
  end.

(** [first] starts at the last segment, so one is always kept. *)
Definition routeWindow (texts : list string) : list string :=
  match texts with
  | [] => []
  | _ => drop (length texts - Nat.max 1 (window_loop (reverse texts) routeWindowBytes)) texts
  end.

Definition labelled (offered : list string) : bool :=
  (0 <? length offered)%nat && (length offered <=? String.length choiceLetters)%nat.

Record decision (T : Type) := {
  dc_alias : string;
  dc_confidence : T;
  dc_micros : Z;
  dc_bills : list BillLine;
}.
Arguments dc_alias {T}.
Arguments dc_confidence {T}.
Arguments dc_micros {T}.
Arguments dc_bills {T}.

Section decide.
Context `{Num T} `{MapRange} `{Source} `{Unicode} `{!Completions T} `{Wire}.
Context (Exp : T → T).

Definition no_decision (micros : Z) (bills : list BillLine) : decision T :=
  {| dc_alias := ""; dc_confidence := of_Z 0; dc_micros := micros; dc_bills := bills |}.

(** [Server.destinationList], before the trailing newline is trimmed: a line
    for each destination. *)
Definition destination_line (orgID : string) (byLetter : bool) (i : nat) (alias : string) : string :=
  let about := match src_Model orgID alias with Some m => Description m | None => "" end in
  "  " +:+ (if byLetter then choice_letter i +:+ ") " else "") +:+ alias +:+
  (if bool_decide (about = "") then "" else " - " +:+ about) +:+ newline.

Definition destinationList (orgID : string) (offered : list string) (byLetter : bool) : string :=
  str_rev (TrimLeft newline (str_rev
    (foldl (λ b s, b +:+ s) "" (imap (destination_line orgID byLetter) offered)))).

(** The question [decideOnce] asks. *)
Definition route_question (rt : Route) (offered texts : list string) (byLetter : bool)
    : guardQuestion :=
  let answer := if byLetter then routeByLetter else routeByName in
  {| gq_instruction := TrimSpace (Rt_Prompt rt) +:+ newline +:+
       routeProtocol (destinationList (Rt_OrgID rt) offered byLetter) answer.1 answer.2;
     gq_input := json_array texts;
     gq_outputTokens := if byLetter then 1 else routeOutputTokens;
     gq_timeout := "30s"; gq_limit := maxRouteResponseBytes;
     gq_subject := "the model it decides with";
     gq_decision := if byLetter then Some (routeQuestion (Rt_OrgID rt) (Rt_Prompt rt) offered)
                    else None |}.

(** [Server.decideOnce]. *)
Definition decideOnce (w : World) (rt : Route) (m : Model) (offered texts : list string)
    (byLetter : bool) : decision T * option DecideError * World :=
  let ask := route_question rt offered texts byLetter in
  if too_large ask m then
    (no_decision 0 [], Some {| de_msg := "the request is about " +:+ pretty (gq_tokens ask m).1 +:+
       " tokens of text and the model " +:+ "it decides with, '" +:+ Alias m +:+
       "', has a context of " +:+ pretty (MaxContext m); de_unreadable := false |}, w)
  else
    let '(ans, err, w) := askGuard w m ask byLetter in
    let d := no_decision (ga_micros ans) (ga_bills ans) in
    match err with
    | Some err => (d, Some {| de_msg := err; de_unreadable := false |}, w)
    | None =>
        if 300 <=? ga_status ans then
          (d, Some {| de_msg := "the model it decides with answered " +:+
             upstreamComplaint (ga_raw ans) (ga_status ans);
             de_unreadable := rejectsLogprobs (ga_status ans) |}, w)
        else match readDecision Exp (ga_raw ans) offered byLetter with
        | inl err => (d, Some err, w)
        | inr (alias, confidence) =>
            ({| dc_alias := alias; dc_confidence := confidence; dc_micros := ga_micros ans;
                dc_bills := ga_bills ans |}, None, w)
        end
    end.

(** [Server.decide]. *)
Definition decide_ (w : World) (rt : Route) (m : Model) (offered texts : list string)
    : decision T * option string * World :=
  match offered with
  | [] => (no_decision 0 [], Some ("none of this step's destinations can be served, so " +:+
             "there was nothing to choose between"), w)
  | _ =>
      let decides := bool_decide (Kind m = KindDecision) in
      let byLetter := labelled offered && (decides || readsLogprobs w m) in
      let '(d, err, w) := decideOnce w rt m offered texts byLetter in
      if negb byLetter || decides then (d, de_msg <$> err, w)
      else match err with
      | Some e =>
          if de_unreadable e then
            let w := dropLogprobs w m in
            let '(retry, retryErr, w) := decideOnce w rt m offered texts false in
            ({| dc_alias := dc_alias retry; dc_confidence := dc_confidence retry;
                dc_micros := dc_micros retry ⊕ dc_micros d;
                dc_bills := dc_bills retry ++ dc_bills d |}, de_msg <$> retryErr, w)
          else (d, Some (de_msg e), w)
      | None =>
          if num_eqb (dc_confidence d) (of_Z 0) then (d, None, dropLogprobs w m) else (d, None, w)
      end
  end.

(** Whether the client hung up by the last call. *)
Definition gone (w : World) : bool :=
  match w_calls w with O => false | S n => wire_gone n end.

(** The end of [Server.route]: the step's model decides. *)
Definition instruct_decide (w : World) (rt : Route) (m : Model) (offered texts : list string)
    : routeDecision * option refusal * World :=
  let '(answer, err, w) := decide_ w rt m offered texts in
  let d := {| d_alias := ""; d_outcome := RouterChose; d_chain := [];
              d_micros := dc_micros answer; d_bills := dc_bills answer; d_why := "" |} in
  match err with
  | Some err =>
      if gone w then (set_outcome d RouterError, None, w) else (routeFallback rt (set_why d err), w)
  | None => (place d (dc_alias answer) [dc_alias answer], None, w)
  end.

(** [Server.route] for an instruction step. *)
Definition instruct (w : World) (rt : Route) (texts : string + list string)
    : routeDecision * option refusal * World :=
  let '(offered, _) := sortDestinations rt in
  match offered with
  | [one] => (place chose one offered, None, w)
  | _ =>
      match texts with
      | inl err => (set_outcome chose RouterError, Some (unreadableBody (stepSubject rt +:+
          " reads the request to choose which model " +:+ "answers it") err), w)
      | inr texts =>
          match routeWindow texts with
          | [] => (routeFallback rt (set_why chose "the request carried no text to read"), w)
          | texts =>
              let found := src_Model (Rt_OrgID rt) (Rt_Model rt) in
              let why := readerProblem found true in
              let unusable := (routeFallback rt (set_why chose
                ("the model it decides with, '" +:+ Rt_Model rt +:+ "', " +:+ why)), w) in
              match found with
              | Some m =>
                  if negb (bool_decide (why = "")) then unusable
                  else instruct_decide w rt m offered texts
              | None => unusable
              end
          end
      end
  end.

(** [Server.route]: [texts] is what [extractText] reads of the body, [sent]
    the values of the step's header, [now] when the loads are read. *)
Definition route (w : World) (l : loads) (now : Z) (rt : Route) (texts : string + list string)
    (sent : list string) : routeDecision * option refusal * World :=
  if Route_Sizes rt then (sized rt texts, w)
  else if bool_decide (Rt_Mode rt = RouteModeHeader) then (byHeader rt sent, w)
  else if negb (Route_Decides rt) then (chain l now rt, w)
  else instruct w rt texts.
End decide.

(** ** After forwarding *)

(** What [settle] reads of [forwarded]: the model last tried, whether it gave
    an error or a status, and its place in the chain. *)
Record forwarded := { fw_alias : string; fw_err : bool; fw_status : option Z; fw_at : Z }.

Definition settle (d : routeDecision) (f : forwarded) : routeDecision :=
  let outcome :=
    if fw_err f || match fw_status f with Some n => n >=? 500 | None => false end then RouterError
    else if (fw_at f >? 0) || bool_decide (d_outcome d = RouterFellBack) then RouterFellBack
    else RouterChose in
  set_outcome (place d (fw_alias f) (d_chain d)) outcome.

(** [Server.destinations]. *)
Definition destinations `{Source} (orgID : string) (model : Model) (d : routeDecision) : list Model :=
  if (length (d_chain d) <? 2)%nat then [model]
  else match omap (serveable orgID) (d_chain d) with
  | [] => [model]
  | out => out
  end.

(** ** Lemmas *)

(** *** The order of measured destinations *)

Definition busy_less : reading → reading → bool :=
  lex (λ a b, true_last (failing a) (failing b)) (λ a b, rd_inflight a <? rd_inflight b).

Definition latency_less : reading → reading → bool :=
  lex (λ a b, true_last (failing a) (failing b))
    (lex (λ a b, true_last (known a) (known b)) (λ a b, latency a <? latency b)).

Lemma load_less_lex mode a b : load_less mode a b =
  if bool_decide (mode = RouteModeLeastBusy) then busy_less a b else latency_less a b.
Proof.
  unfold load_less, busy_less, latency_less, lex, true_last.
  case_bool_decide; destruct (failing a), (failing b), (known a), (known b); simpl; done.
Qed.

#[export] Instance StrictWeak_load_less mode : StrictWeak (load_less mode).
Proof.
  apply (StrictWeak_ext (if bool_decide (mode = RouteModeLeastBusy) then busy_less else latency_less)).
  - intros a b. rewrite load_less_lex. by case_bool_decide.
  - case_bool_decide; unfold busy_less, latency_less; apply _.
Qed.

(** What it means that a destination is ranked no later than another. *)
Lemma load_less_false mode a b : load_less mode b a = false ↔
  (failing a = true → failing b = true) ∧
  (failing a = failing b →
   if bool_decide (mode = RouteModeLeastBusy) then rd_inflight a <= rd_inflight b
   else (known a = true → known b = true) ∧ (known a = known b → latency a <= latency b)).
Proof.
  unfold load_less. case_bool_decide;
    destruct (failing a), (failing b), (known a), (known b); simpl;
    rewrite ?Z.ltb_ge; naive_solver.
Qed.

(** Measured steps try the destinations they should first. The order of a
    latency or least-busy step is a rearrangement of the serveable
    destinations, where one that just failed comes after all that did not,
    and then: on a least-busy step, fewer requests in flight come first; on a
    latency step, one without a recent measurement comes first and then the
    lowest time to first token. Destinations that measure the same keep the
    order the administrator wrote, and other steps keep it altogether. *)
Theorem order_ranks (l : loads) (mode : string) (aliases : list string) (key : string → string)
    (now : Z) :
  let rd a := read l (key a) now in
  let sorted := order l mode aliases key now in
  sorted ≡ₚ aliases ∧
  (RouteMode_Measures mode = false → sorted = aliases) ∧
  (RouteMode_Measures mode = true → StronglySorted (λ a b,
     (failing (rd a) = true → failing (rd b) = true) ∧
     (failing (rd a) = failing (rd b) →
      if bool_decide (mode = RouteModeLeastBusy) then rd_inflight (rd a) <= rd_inflight (rd b)
      else (known (rd a) = true → known (rd b) = true) ∧
           (known (rd a) = known (rd b) → latency (rd a) <= latency (rd b)))) sorted) ∧
  (∀ r, filter (λ a, rd a = r) sorted = filter (λ a, rd a = r) aliases).
Proof.
  intros rd sorted.
  assert (sorted = aliases ∧ (length aliases < 2)%nat ∨ sorted = aliases ∧ RouteMode_Measures mode = false ∨
    RouteMode_Measures mode = true ∧ sorted = stable_sort (λ a b, load_less mode (rd a) (rd b)) aliases)
    as Hs.
  { unfold sorted, order. destruct (length aliases <? 2)%nat eqn:Hl.
    - left. split; [done|]. by apply Nat.ltb_lt.
    - simpl. destruct (RouteMode_Measures mode); simpl; auto. }
  assert (StrictWeak (λ a b, load_less mode (rd a) (rd b))) as Hw by apply _.
  split; [|split; [|split]].
  - destruct Hs as [[-> _]|[[-> _]|[_ ->]]]; [done..|apply stable_sort_perm].
  - intros Hm. destruct Hs as [[-> _]|[[-> _]|[Hm' _]]]; [done..|congruence].
  - intros Hm. destruct Hs as [[-> Hl]|[[_ Hm']|[_ ->]]]; [|congruence|].
    + destruct aliases as [|x [|]]; simpl in Hl; [constructor|by repeat constructor|lia].
    + pose proof (stable_sort_sorted (λ a b, load_less mode (rd a) (rd b)) aliases) as Hsorted.
      eapply StronglySorted_impl; [|exact Hsorted]. intros a b Hab. by apply load_less_false.
  - intros r. destruct Hs as [[-> _]|[[-> _]|[_ ->]]]; [done..|].
    apply stable_sort_stable. intros x y Hx Hy. rewrite Hx, Hy.
    apply (less_irrefl (load_less mode)).
Qed.

(** *** Size steps *)

(** What no ceiling sorts as. *)
Definition bound (ceiling : Z) : Z := if ceiling =? 0 then MaxInt else ceiling.

Definition bound_less (a b : Z) : bool := bound a <? bound b.

Lemma byCeiling_less a b : (byCeiling a b <? 0) = bound_less a b.
Proof.
  unfold byCeiling, Compare, bound_less, bound. generalize (if a =? 0 then MaxInt else a).
  intros x. generalize (if b =? 0 then MaxInt else b). intros y.
  destruct (x <? y) eqn:H1; [done|]. by destruct (y <? x).
Qed.

Lemma ranked_less_lex a b :
  ranked_less a b = lex (λ a b, tier a <? tier b) (λ a b, bound_less (ceiling a) (ceiling b)) a b.
Proof.
  unfold ranked_less, lex, cmp_Or. rewrite <- byCeiling_less. unfold Compare.
  destruct (tier a <? tier b) eqn:H1; [done|]. destruct (tier b <? tier a) eqn:H2; [done|]. done.
Qed.

#[export] Instance StrictWeak_bound : StrictWeak bound_less.
Proof. unfold bound_less. apply (StrictWeak_on bound Z.ltb), _. Qed.

#[export] Instance StrictWeak_ranked : StrictWeak ranked_less.
Proof.
  eapply StrictWeak_ext; [apply ranked_less_lex|]. apply StrictWeak_lex.
  - apply (StrictWeak_on tier Z.ltb), _.
  - apply (StrictWeak_on ceiling bound_less), _.
Qed.

Section sizes.
Context `{Source} `{Unicode} (rt : Route).

Abbreviation serves alias := (serveable (Rt_OrgID rt) alias).

Lemma omap_fmap_some {A B C} (g : A → option B) (f : A → B → C) (h : C → A) (l : list A) :
  (∀ a b, h (f a b) = a) → h <$> omap (λ a, f a <$> g a) l = filter (λ a, is_Some (g a)) l.
Proof.
  intros Hh. induction l as [|a l IH]; [done|]. rewrite filter_cons. csimpl.
  destruct (g a) as [b|]; csimpl.
  - by rewrite Hh, IH.
  - done.
Qed.

Lemma rk_alias_rank tokens alias m : rk_alias (rank rt tokens alias m) = alias.
Proof. unfold rank. by destruct (Ceiling _ _). Qed.

Lemma size_order_perm tokens :
  rk_alias <$> size_order rt tokens ≡ₚ filter (λ a, is_Some (serves a)) (Rt_Destinations rt).
Proof.
  unfold size_order. rewrite stable_sort_perm. rewrite (omap_fmap_some _ _ rk_alias); [done|].
  intros. apply rk_alias_rank.
Qed.

Lemma elem_of_candidates tokens r :
  r ∈ omap (λ alias, rank rt tokens alias <$> serves alias) (Rt_Destinations rt) ↔
  ∃ alias m, alias ∈ Rt_Destinations rt ∧ serves alias = Some m ∧ r = rank rt tokens alias m.
Proof.
  rewrite list_elem_of_omap. split.
  - intros (alias & Hin & Hr). destruct (serves alias) as [m|] eqn:Hm; [|done].
    injection Hr as <-. by exists alias, m.
  - intros (alias & m & Hin & Hm & ->). exists alias. by rewrite Hm.
Qed.

(** *** Bands *)

(** A request of [tokens] is one the band is first choice for. *)
Definition in_band (tokens : Z) (b : sizeBand) : Prop :=
  dead b = false ∧ from b < tokens ∧ (to b = 0 ∨ tokens <= to b).

#[local] Instance in_band_dec tokens b : Decision (in_band tokens b).
Proof. unfold in_band. apply _. Defined.

Definition under (tokens ceiling : Z) : Prop := ceiling = 0 ∨ tokens <= ceiling.

#[local] Instance under_dec tokens ceiling : Decision (under tokens ceiling).
Proof. unfold under. apply _. Defined.

Lemma bands_head tokens (order : list (string * Z)) floor :
  floor < tokens → (∀ p, p ∈ order → 0 <= p.2) →
  band_alias <$> head (filter (in_band tokens) (bands_loop order floor)) =
  fst <$> head (filter (λ p, under tokens p.2) order).
Proof.
  revert floor. induction order as [|[alias c] order IH]; intros floor Hf Hc; [done|].
  simpl bands_loop. rewrite !filter_cons. assert (0 <= c) by (apply (Hc (alias, c)); left).
  unfold under at 1. unfold in_band at 1. simpl.
  destruct (decide (c = 0 ∨ tokens <= c)) as [Hu|Hn].
  - rewrite decide_True; [done|]. split; [|done].
    apply andb_false_iff. rewrite Z.gtb_ltb, Z.ltb_ge, Z.leb_gt. lia.
  - rewrite decide_False by (intros (_ & _ & Hx); done). apply IH; [|intros; apply Hc; by right].
    destruct (_ && _); [done|]. destruct (c >? 0); lia.
Qed.
End sizes.

(** A size step that cannot read the request's body refuses it and still
    records that it chose: an instruction step records an error there. *)
Lemma sized_unreadable `{Source} `{Unicode} (rt : Route) (err : string) :
  d_outcome (sized rt (inl err)).1 = RouterChose ∧ is_Some (sized rt (inl err)).2.
Proof. split; [done|by eexists]. Qed.

(** A size step prefers the right destination. When [sized] places a
    request, its chain is exactly the destinations that can answer, headed by
    the chosen one; and the chosen one is best: none that can answer fits the
    request strictly better, and of those that fit as well none has a
    smaller ceiling, nor is any written before it with the same. *)
Theorem sized_choice `{Source} `{Unicode} (rt : Route) (texts : list string) (d : routeDecision) :
  sized rt (inr texts) = (d, None) →
  let rank a m := rank rt (estimateTokens texts) a m in
  d_chain d ≡ₚ filter (λ a, is_Some (serveable (Rt_OrgID rt) a)) (Rt_Destinations rt) ∧
  head (d_chain d) = Some (d_alias d) ∧
  ∃ m before after,
    serveable (Rt_OrgID rt) (d_alias d) = Some m ∧
    Rt_Destinations rt = before ++ d_alias d :: after ∧
    ∀ a m', a ∈ Rt_Destinations rt → serveable (Rt_OrgID rt) a = Some m' →
      tier (rank (d_alias d) m) <= tier (rank a m') ∧
      (tier (rank (d_alias d) m) = tier (rank a m') →
       bound (ceiling (rank (d_alias d) m)) <= bound (ceiling (rank a m')) ∧
       (a ∈ before → bound (ceiling (rank (d_alias d) m)) < bound (ceiling (rank a m')))).
Proof.
  intros Hs. cbv zeta. pose proof (size_order_perm rt (estimateTokens texts)) as Hperm.
  unfold sized in Hs. destruct (size_order rt (estimateTokens texts)) as [|first rest] eqn:Ho; [done|].
  injection Hs as <-. cbn [place d_chain d_alias chose]. split; [exact Hperm|]. split; [done|].
  unfold size_order in Ho. destruct (stable_sort_head _ _ _ _ Ho) as [Hmin (b & a & Hl & Hb)].
  assert (first ∈ omap (λ alias, rank rt (estimateTokens texts) alias <$> serveable (Rt_OrgID rt) alias)
    (Rt_Destinations rt)) as Hin by (rewrite Hl; set_solver).
  set (f := λ alias, rank rt (estimateTokens texts) alias <$> serveable (Rt_OrgID rt) alias) in *.
  assert (∃ before alias after, Rt_Destinations rt = before ++ alias :: after ∧ f alias = Some first ∧
    ∀ r a, a ∈ before → f a = Some r → r ∈ b) as (before & alias & after & Hd & Hf & Hbefore).
  { exact (omap_app_inv _ _ _ _ _ Hl). }
  unfold f in Hf. destruct (serveable (Rt_OrgID rt) alias) as [m|] eqn:Hm; [|done].
  injection Hf as Hf. assert (rk_alias first = alias) as -> by (rewrite <- Hf; apply rk_alias_rank).
  exists m, before, after. split; [done|]. split; [done|]. intros x m' Hx Hm'.
  assert (f x = Some (rank rt (estimateTokens texts) x m')) as Hfx by (unfold f; by rewrite Hm').
  assert (weak_le ranked_less first (rank rt (estimateTokens texts) x m')) as Hle.
  { apply Hmin, list_elem_of_omap. by exists x. }
  unfold weak_le in Hle. rewrite ranked_less_lex in Hle. apply lex_false in Hle as [Ht Hc].
  rewrite Hf. to_prop. split; [done|]. intros Heq. unfold bound_less in Hc.
  split; [destruct Hc; to_prop; lia|]. intros Hxb.
  specialize (Hb _ (Hbefore _ x Hxb Hfx)). rewrite ranked_less_lex in Hb. unfold lex in Hb.
  apply orb_true_iff in Hb as [Hb|[_ Hb]%andb_true_iff]; unfold bound_less in Hb; to_prop; lia.
Qed.

Lemma filter_of_fmap {A B} (f : A → B) (P : B → Prop) `{!∀ x, Decision (P x)} (l : list A) :
  filter P (f <$> l) = f <$> filter (λ a, P (f a)) l.
Proof.
  induction l as [|a l IH]; [done|]. rewrite fmap_cons, !filter_cons, IH.
  by destruct (decide (P (f a))).
Qed.

Lemma Ceiling_pair ceilings a :
  Ceiling ceilings a = ((Ceiling ceilings a).1, (Ceiling ceilings a).1 >? 0).
Proof. unfold Ceiling. by destruct (ceilings !! a). Qed.

(** *** The first choice, when every destination can answer *)

Section first_choice.
Context `{Source} `{Unicode} (rt : Route) (tokens : Z).
Hypothesis Hall : ∀ a, a ∈ Rt_Destinations rt → ∃ m, serveable (Rt_OrgID rt) a = Some m ∧
  (MaxContext m <= 0 ∨ tokens <= MaxContext m).
Hypothesis Hceil : ∀ a, 0 <= (Ceiling (Rt_Ceilings rt) a).1 <= MaxInt.

Definition ceiling_of (a : string) : Z := (Ceiling (Rt_Ceilings rt) a).1.

Definition meant_for (a : string) : Prop := under tokens (ceiling_of a).

#[local] Instance meant_for_dec a : Decision (meant_for a).
Proof. unfold meant_for, under. apply _. Defined.

Definition meant_first (a b : string) : bool := true_last (negb (bool_decide (meant_for a)))
  (negb (bool_decide (meant_for b))).

Lemma rank_meant a m : MaxContext m <= 0 ∨ tokens <= MaxContext m →
  rank rt tokens a m = {| rk_alias := a; tier := if bool_decide (meant_for a) then 0 else 1;
                          ceiling := ceiling_of a |}.
Proof.
  intros Hctx. pose proof (Hceil a) as Hc. unfold rank. rewrite Ceiling_pair.
  fold (ceiling_of a) in *.
  assert ((MaxContext m >? 0) && (tokens >? MaxContext m) = false) as ->
    by (apply andb_false_iff; rewrite !Z.gtb_ltb, !Z.ltb_ge; lia).
  f_equal. rewrite !Z.gtb_ltb. unfold meant_for, under in *.
  case_bool_decide; destruct (0 <? ceiling_of a) eqn:?, (ceiling_of a <? tokens) eqn:?; to_prop;
    simpl; done || lia.
Qed.

Lemma size_order_meant :
  rk_alias <$> size_order rt tokens =
  stable_sort (lex meant_first (λ a b, bound_less (ceiling_of a) (ceiling_of b)))
    (Rt_Destinations rt).
Proof.
  unfold size_order.
  assert (omap (λ alias, rank rt tokens alias <$> serveable (Rt_OrgID rt) alias) (Rt_Destinations rt) =
    (λ a, {| rk_alias := a; tier := if bool_decide (meant_for a) then 0 else 1;
             ceiling := ceiling_of a |}) <$> Rt_Destinations rt) as ->.
  { revert Hall. induction (Rt_Destinations rt) as [|a ds IH]; intros Hds; [done|]. csimpl.
    destruct (Hds a) as (m & Hm & Hctx); [left|]. rewrite Hm. csimpl.
    rewrite IH by (intros; apply Hds; by right). by rewrite rank_meant. }
  rewrite stable_sort_fmap, <- list_fmap_compose, list_fmap_id. apply stable_sort_ext.
  intros x y. rewrite ranked_less_lex. unfold lex, meant_first, true_last. simpl.
  by destruct (bool_decide (meant_for x)), (bool_decide (meant_for y)).
Qed.

Lemma first_meant alias rest :
  rk_alias <$> size_order rt tokens = alias :: rest →
  match filter meant_for (stable_sort (λ a b, bound_less (ceiling_of a) (ceiling_of b))
    (Rt_Destinations rt)) with
  | a :: _ => alias = a
  | [] => ∀ a, a ∈ Rt_Destinations rt → ¬ meant_for a
  end.
Proof.
  rewrite size_order_meant.
  pose proof (StrictWeak_on (λ a, negb (bool_decide (meant_for a))) true_last _) as Hw.
  apply (stable_sort_lex_head meant_first (λ a b, bound_less (ceiling_of a) (ceiling_of b)) meant_for).
  - intros a b Ha Hb. unfold meant_first, true_last.
    by rewrite (bool_decide_eq_true_2 (meant_for b)), andb_false_r.
  - intros a b Ha Hb. unfold meant_first, true_last.
    by rewrite (bool_decide_eq_true_2 (meant_for a)), (bool_decide_eq_false_2 (meant_for b)).
Qed.
End first_choice.

(** The bands a check shows are what a size step does. When every
    destination can answer and holds the request, the destination [sized]
    chooses for a request of one token or more is the one of the first band
    of [sizeBands] that is not dead and has the size; and when no band has
    it, every destination has a ceiling and the request is above it. *)
Theorem sizeBands_describe_sized `{Source} `{Unicode} (rt : Route) (texts : list string)
    (d : routeDecision) :
  let tokens := estimateTokens texts in
  (∀ a, a ∈ Rt_Destinations rt → ∃ m, serveable (Rt_OrgID rt) a = Some m ∧
     (MaxContext m <= 0 ∨ tokens <= MaxContext m)) →
  (∀ a, 0 <= (Ceiling (Rt_Ceilings rt) a).1 <= MaxInt) →
  0 < tokens →
  sized rt (inr texts) = (d, None) →
  match filter (in_band tokens) (sizeBands rt (Rt_Destinations rt)) with
  | b :: _ => d_alias d = band_alias b
  | [] => ∀ a, a ∈ Rt_Destinations rt → 0 < (Ceiling (Rt_Ceilings rt) a).1 < tokens
  end.
Proof.
  intros tokens Hall Hceil Htok Hs.
  unfold sized in Hs. fold tokens in Hs. destruct (size_order rt tokens) as [|first rest] eqn:Ho; [done|].
  injection Hs as <-. cbn [place d_alias].
  pose proof (first_meant rt tokens Hall Hceil (rk_alias first) (rk_alias <$> rest)) as Hfirst.
  rewrite Ho in Hfirst. specialize (Hfirst eq_refl).
  pose proof (bands_head tokens (stable_sort ceiling_less
    ((λ a, (a, (Ceiling (Rt_Ceilings rt) a).1)) <$> Rt_Destinations rt)) 0 Htok) as Hbands.
  fold (sizeBands rt (Rt_Destinations rt)) in Hbands.
  assert (∀ p, p ∈ stable_sort ceiling_less ((λ a, (a, (Ceiling (Rt_Ceilings rt) a).1)) <$>
    Rt_Destinations rt) → 0 <= p.2) as Hnn.
  { intros p. rewrite stable_sort_perm. intros (a & -> & _)%list_elem_of_fmap. apply Hceil. }
  specialize (Hbands Hnn). rewrite stable_sort_fmap in Hbands.
  rewrite (stable_sort_ext _ (λ a b, bound_less (ceiling_of rt a) (ceiling_of rt b))) in Hbands
    by (intros; apply byCeiling_less).
  rewrite filter_of_fmap in Hbands.
  rewrite (filter_ext_in _ (meant_for rt tokens)) in Hbands by done.
  destruct (filter (meant_for rt tokens) _) as [|a s]; simpl in Hbands.
  - destruct (filter (in_band tokens) _); [|done]. intros a Ha. specialize (Hfirst a Ha).
    unfold meant_for, under, ceiling_of in Hfirst. specialize (Hceil a). lia.
  - destruct (filter (in_band tokens) _) as [|b t]; [done|]. injection Hbands as ->. done.
Qed.

(** *** Where a step may send a request *)

Section lands.
Context `{Source} `{Unicode}.

Lemma chatProblem_found found : chatProblem found = "" → is_Some found.
Proof. destruct found; [by eexists|done]. Qed.

Lemma serveable_chat orgID alias :
  is_Some (serveable orgID alias) ↔ chatProblem (src_Model orgID alias) = "".
Proof.
  unfold serveable. case_bool_decide as Hc; [|by split; [intros []|]].
  split; [done|]. intros _. by apply chatProblem_found.
Qed.

Lemma sortDestinations_kept rt :
  (sortDestinations rt).1 =
  filter (λ a, is_Some (serveable (Rt_OrgID rt) a)) (Rt_Destinations rt).
Proof.
  unfold sortDestinations.
  assert (∀ ds kept dropped, (foldl (λ '(kept, dropped) alias,
    let why := chatProblem (src_Model (Rt_OrgID rt) alias) in
    if negb (bool_decide (why = "")) then (kept, dropped ++ [alias +:+ " " +:+ why])
    else (kept ++ [alias], dropped)) (kept, dropped) ds).1 =
    kept ++ filter (λ a, is_Some (serveable (Rt_OrgID rt) a)) ds) as Hs; [|apply Hs].
  induction ds as [|a ds IH]; intros kept dropped; simpl; [by rewrite app_nil_r|].
  rewrite filter_cons. case_bool_decide as Hc; simpl; rewrite IH.
  - rewrite decide_True by (by apply serveable_chat). by rewrite <- app_assoc.
  - rewrite decide_False; [done|]. by rewrite serveable_chat.
Qed.

(** The models a decision may name: the step's serveable destinations, or its
    fallback once it fell back. *)
Definition may_try (rt : Route) (d : routeDecision) (a : string) : Prop :=
  (a ∈ Rt_Destinations rt ∧ is_Some (serveable (Rt_OrgID rt) a)) ∨
  (d_outcome d = RouterFellBack ∧ a = Rt_Fallback rt ∧ Refuses rt = false).

(** A decision with its refusal: refused ones are recorded as errors ([unread]
    excepts a size step's unreadable body), others placed. *)
Definition placed (rt : Route) (unread : bool) (r : routeDecision * option refusal) : Prop :=
  match r.2 with
  | Some _ => d_outcome r.1 = if unread then RouterChose else RouterError
  | None => d_outcome r.1 ∈ [RouterChose; RouterFellBack] ∧
      head (d_chain r.1) = Some (d_alias r.1) ∧ ∀ a, a ∈ d_chain r.1 → may_try rt r.1 a
  end.

Lemma routeFallback_placed rt d : placed rt false (routeFallback rt d).
Proof.
  unfold placed, routeFallback. destruct (Refuses rt) eqn:Hr; [done|]. simpl.
  split; [set_solver|]. split; [done|].
  intros a ->%list_elem_of_singleton. by right.
Qed.

Lemma orderByLoad_perm l rt aliases now : orderByLoad l rt aliases now ≡ₚ aliases.
Proof. unfold orderByLoad, order. destruct (_ || _); [done|apply stable_sort_perm]. Qed.

Lemma chain_placed l now rt : placed rt false (chain l now rt).
Proof.
  unfold chain. destruct (sortDestinations rt) as [kept dropped] eqn:Hs.
  apply (f_equal fst) in Hs. rewrite sortDestinations_kept in Hs. cbn [fst] in Hs.
  simpl d_chain. destruct (orderByLoad l rt kept now) as [|first rest] eqn:Ho.
  - destruct (_ && _); [apply routeFallback_placed|done].
  - split; [set_solver|]. split; [done|]. intros a Ha. left. simpl in Ha.
    rewrite <- Ho, orderByLoad_perm, <- Hs in Ha. by apply list_elem_of_filter in Ha as [? ?].
Qed.

Lemma sized_placed rt texts : placed rt (match texts with inl _ => true | _ => false end) (sized rt texts).
Proof.
  unfold sized. destruct texts as [err|texts]; [done|].
  destruct (size_order rt _) as [|first rest] eqn:Ho; [done|].
  split; [set_solver|]. split; [done|]. intros a Ha. left. cbn [place d_chain chose fst] in Ha.
  rewrite <- Ho, size_order_perm in Ha. by apply list_elem_of_filter in Ha as [? ?].
Qed.

Lemma byHeader_placed rt sent :
  (∀ v a, Rt_Values rt !! v = Some a → a ∈ Rt_Destinations rt) → placed rt false (byHeader rt sent).
Proof.
  intros Hv. unfold byHeader. destruct (header_choice rt sent) as [why|alias] eqn:Hc.
  - destruct (Refuses rt); [done|apply routeFallback_placed].
  - case_bool_decide as Hp; simpl; [|apply routeFallback_placed].
    split; [set_solver|]. split; [done|]. intros a ->%list_elem_of_singleton. left.
    split; [|by apply serveable_chat]. unfold header_choice in Hc.
    destruct sent as [|v [|]]; [done| |done].
    destruct (Rt_Values rt !! _) as [b|] eqn:Hb; [|done]. injection Hc as ->. by eapply Hv.
Qed.
End lands.

Section instruct.
Context `{Num T} `{MapRange} `{Source} `{Unicode} `{!Completions T} `{Wire} (Exp : T → T).

Lemma decideOnce_offered w rt m offered texts byLetter d w' :
  decideOnce Exp w rt m offered texts byLetter = (d, None, w') → dc_alias d ∈ offered.
Proof.
  unfold decideOnce. destruct (too_large _ _); [done|].
  destruct (askGuard _ _ _ _) as [[ans [err|]] w1]; [done|].
  destruct (300 <=? ga_status ans); [done|].
  destruct (readDecision _ _ _ _) as [err|[alias share]] eqn:Hr; [done|]. intros [= <- <-].
  by apply readDecision_spec in Hr as [Hin _].
Qed.

Lemma decide_offered w rt m offered texts d w' :
  decide_ Exp w rt m offered texts = (d, None, w') → dc_alias d ∈ offered.
Proof.
  unfold decide_. destruct offered as [|o offered]; [done|].
  set (byLetter := _ && _).
  destruct (decideOnce _ _ _ _ _ _ byLetter) as [[d1 [e|]] w1] eqn:Hd.
  - destruct (negb byLetter || _); [done|]. destruct (de_unreadable e); [|done].
    destruct (decideOnce _ (dropLogprobs w1 m) _ _ _ _ false) as [[d2 [e2|]] w2] eqn:Hd2; [done|].
    intros [= <- <-]. by apply decideOnce_offered in Hd2.
  - apply decideOnce_offered in Hd. destruct (negb byLetter || _); [by intros [= <- _]|].
    destruct (num_eqb _ _); by intros [= <- _].
Qed.

Definition hung_up (d : routeDecision) (ref : option refusal) (w : World) : Prop :=
  gone w = true ∧ ref = None ∧ d_outcome d = RouterError ∧ d_chain d = [].

Lemma instruct_decide_placed w rt m offered texts d ref w' :
  (∀ a, a ∈ offered → a ∈ Rt_Destinations rt ∧ is_Some (serveable (Rt_OrgID rt) a)) →
  instruct_decide Exp w rt m offered texts = (d, ref, w') →
  placed rt false (d, ref) ∨ hung_up d ref w'.
Proof.
  intros Hoff. unfold instruct_decide.
  destruct (decide_ Exp w rt m offered texts) as [[answer [err|]] w1] eqn:Hd.
  - destruct (gone w1) eqn:Hg; [intros [= <- <- <-]; by right|].
    intros Hr. injection Hr as Hr <-. left. rewrite <- Hr. apply routeFallback_placed.
  - intros [= <- <- <-]. left. split; [set_solver|]. split; [done|]. cbn [place d_chain fst].
    intros a ->%list_elem_of_singleton. left. by apply Hoff, (decide_offered w rt m offered texts _ w1).
Qed.

Lemma instruct_placed w rt texts d ref w' :
  instruct Exp w rt texts = (d, ref, w') → placed rt false (d, ref) ∨ hung_up d ref w'.
Proof.
  unfold instruct. destruct (sortDestinations rt) as [offered dropped] eqn:Hs.
  apply (f_equal fst) in Hs. rewrite sortDestinations_kept in Hs. cbn [fst] in Hs.
  assert (∀ a, a ∈ offered → a ∈ Rt_Destinations rt ∧ is_Some (serveable (Rt_OrgID rt) a)) as Hoff.
  { intros a. rewrite <- Hs, list_elem_of_filter. tauto. }
  assert (∀ d0 w0, (routeFallback rt d0, w0) = (d, ref, w') → placed rt false (d, ref)) as Hfb.
  { intros d0 w0 Hr. injection Hr as Hr _. rewrite <- Hr. apply routeFallback_placed. }
  assert (match texts with
      | inl err => (set_outcome chose RouterError, Some (unreadableBody (stepSubject rt +:+
          " reads the request to choose which model " +:+ "answers it") err), w)
      | inr texts =>
          match routeWindow texts with
          | [] => (routeFallback rt (set_why chose "the request carried no text to read"), w)
          | texts =>
              let found := src_Model (Rt_OrgID rt) (Rt_Model rt) in
              let why := readerProblem found true in
              let unusable := (routeFallback rt (set_why chose
                ("the model it decides with, '" +:+ Rt_Model rt +:+ "', " +:+ why)), w) in
              match found with
              | Some m =>
                  if negb (bool_decide (why = "")) then unusable
                  else instruct_decide Exp w rt m offered texts
              | None => unusable
              end
          end
      end = (d, ref, w') → placed rt false (d, ref) ∨ hung_up d ref w') as Hask.
  { destruct texts as [err|texts]; [intros [= <- <- <-]; by left|].
    destruct (routeWindow texts) as [|t ts]; [intros E; left; exact (Hfb _ _ E)|]. cbv zeta.
    destruct (src_Model (Rt_OrgID rt) (Rt_Model rt)) as [m|]; [|intros E; left; exact (Hfb _ _ E)].
    destruct (negb (bool_decide _)); [intros E; left; exact (Hfb _ _ E)|].
    by apply instruct_decide_placed. }
  destruct offered as [|one [|two offered]]; [exact Hask| |exact Hask].
  intros [= <- <- <-]. left. split; [set_solver|]. split; [done|].
  intros a Ha. left. by apply Hoff.
Qed.
End instruct.

(** How any step places a request. *)
Lemma route_placed `{Num T} `{MapRange} `{Source} `{Unicode} `{!Completions T} `{Wire}
    (Exp : T → T) (w w' : World) (l : loads) (now : Z) (rt : Route) (texts : string + list string)
    (sent : list string) (d : routeDecision) (ref : option refusal) :
  (∀ v a, Rt_Values rt !! v = Some a → a ∈ Rt_Destinations rt) →
  route Exp w l now rt texts sent = (d, ref, w') →
  placed rt (Route_Sizes rt && match texts with inl _ => true | _ => false end) (d, ref) ∨
  hung_up d ref w'.
Proof.
  intros Hv Hr. unfold route in Hr.
  assert (∀ u x, (x, w) = (d, ref, w') → placed rt u x → placed rt u (d, ref)) as Hx.
  { intros u x E. injection E as -> _. done. }
  destruct (Route_Sizes rt); [left; eapply Hx; [exact Hr|apply sized_placed]|].
  case_bool_decide; [left; eapply Hx; [exact Hr|by apply byHeader_placed]|].
  destruct (negb (Route_Decides rt)); [left; eapply Hx; [exact Hr|apply chain_placed]|].
  by eapply instruct_placed.
Qed.

(** A route step only ever sends a request where it may go. Whatever its
    mode, what was measured, what the request says and what any model answers:
    a decision that is not refused names a chain headed by the chosen model,
    and every model of the chain is a destination of the step that can answer
    now, or the step's fallback, which a step that refuses does not have. A
    refusal is recorded as an error, except that a size step records a body
    it could not read as a choice. Nothing else ends without a placement, but
    an instruction step whose client hung up. *)
Theorem route_lands `{Num T} `{MapRange} `{Source} `{Unicode} `{!Completions T} `{Wire}
    (Exp : T → T) (w w' : World) (l : loads) (now : Z) (rt : Route) (texts : string + list string)
    (sent : list string) (d : routeDecision) (ref : option refusal) :
  (∀ v a, Rt_Values rt !! v = Some a → a ∈ Rt_Destinations rt) →
  route Exp w l now rt texts sent = (d, ref, w') →
  placed rt (Route_Sizes rt && match texts with inl _ => true | _ => false end) (d, ref) ∨
  hung_up d ref w'.
Proof. apply route_placed. Qed.

(** *** The decayed average *)

Lemma blend_between (Exp2 : Q → Q) age old new :
  (∀ x, x <= 0 → 0 <= Exp2 x <= 1)%Q → 0 <= age → 0 <= old → 0 <= new →
  Z.min old new <= blend Exp2 age old new <= Z.max old new.
Proof.
  intros HE Hage Hold Hnew. unfold blend.
  set (w := Exp2 _).
  assert (0 <= w <= 1)%Q as Hw.
  { apply HE. cbn [num_div num_mul of_Z Num_Q].
    pose proof (Seconds_Q age) as Ha. pose proof (Seconds_Q loadHalfLife) as Hh.
    rewrite Ha, Hh. assert (0 <= inject_Z age)%Q as Hage'
      by (change 0%Q with (inject_Z 0); by rewrite <- Zle_Qle).
    change (inject_Z loadHalfLife) with (inject_Z 30000000000). unfold inject_Z in *.
    assert ((-1 # 1) * ((age # 1) / (1000000000 # 1)) / ((30000000000 # 1) / (1000000000 # 1)) ==
      (-1 # 30000000000) * (age # 1))%Q as -> by field. lra. }
  cbn [num_add num_mul num_sub of_Z Num_Q].
  assert (0 <= inject_Z old)%Q as Ho by (change 0%Q with (inject_Z 0); by rewrite <- Zle_Qle).
  assert (0 <= inject_Z new)%Q as Hn by (change 0%Q with (inject_Z 0); by rewrite <- Zle_Qle).
  assert (inject_Z (Z.min old new) <= w * inject_Z old + (inject_Z 1 - w) * inject_Z new <=
    inject_Z (Z.max old new))%Q as Hb.
  { change (inject_Z 1) with 1%Q. destruct (Z.le_ge_cases old new) as [Hle|Hle].
    - rewrite Z.min_l, Z.max_r by done. rewrite Zle_Qle in Hle. split; nra.
    - rewrite Z.min_r, Z.max_l by done. rewrite Zle_Qle in Hle. split; nra. }
  destruct (num_trunc_Q (w * inject_Z old + (inject_Z 1 - w) * inject_Z new)) as [Ht1 Ht2].
  { change (inject_Z 1) with 1%Q. nra. }
  split.
  - destruct Hb as [Hb _]. assert (inject_Z (Z.min old new) <
      inject_Z (num_trunc (w * inject_Z old + (inject_Z 1 - w) * inject_Z new)%Q + 1))%Q as Hlt by lra.
    apply inject_Z_lt in Hlt. lia.
  - destruct Hb as [_ Hb]. rewrite Zle_Qle. lra.
Qed.

(** A destination's measured latency stays what was measured. After
    [observe], a fresh average is between the average it had and the new
    measurement, an absent or stale one is the new measurement, and no other
    destination's record or count changes; a measurement that is not positive
    changes nothing. *)
Theorem observe_between (Exp2 : Q → Q) (l : loads) (key : string) (ttft now : Z) :
  (∀ x, x <= 0 → 0 <= Exp2 x <= 1)%Q → 0 <= ewma (load_get l key) →
  let l' := observe Exp2 l key ttft now in
  (ttft <= 0 → l' = l) ∧
  (0 < ttft →
     (known (read l key now) = true →
        Z.min (latency (read l key now)) ttft <= ewma (load_get l' key) <=
        Z.max (latency (read l key now)) ttft) ∧
     (known (read l key now) = false → ewma (load_get l' key) = ttft)) ∧
  (∀ k, k ≠ key → load_get l' k = load_get l k) ∧
  (∀ k, inflight (load_get l' k) = inflight (load_get l k)).
Proof.
  intros HE He. cbv zeta. unfold observe. destruct (ttft <=? 0) eqn:Ht; to_prop.
  { split; [done|]. split; [lia|done]. }
  set (d := load_get l key) in *. set (age := time_sub now (dl_at d)).
  assert (∀ x, load_get (<[key := x]> l) key = x) as Hget
    by (intros x; unfold load_get; by rewrite lookup_insert_eq).
  assert (∀ x k, k ≠ key → load_get (<[key := x]> l) k = load_get l k) as Hother
    by (intros x k Hk; unfold load_get; by rewrite lookup_insert_ne).
  split; [lia|]. split; [|split; [by apply Hother|]].
  - intros _. rewrite Hget. cbn [ewma]. unfold read. fold d age. cbn [known latency].
    rewrite !Z.geb_leb. destruct (IsZero (dl_at d)); cbn [negb andb orb]; [done|].
    destruct (0 <=? age) eqn:Ha; to_prop.
    + rewrite (proj2 (Z.ltb_ge age 0)), orb_false_r by done. rewrite <- Z.ltb_antisym || idtac.
      destruct (loadStale <=? age) eqn:Hs; to_prop.
      * rewrite (proj2 (Z.ltb_ge age loadStale)) by done. done.
      * rewrite (proj2 (Z.ltb_lt age loadStale)) by done. split; [|done]. intros _.
        apply blend_between; [done|done|done|lia].
    + rewrite (proj2 (Z.ltb_lt age 0)), orb_true_r by done. done.
  - intros k. destruct (decide (k = key)) as [->|Hk]; [by rewrite Hget|by rewrite Hother].
Qed.

(** ** Examples *)

#[local] Existing Instance ascii_unicode.
#[local] Existing Instance plain_completions.

Definition sample_chat (alias : string) (context : Z) (description : string) : Model :=
  {| Alias := alias; OrgID := "org_1"; Kind := KindChat; Backends := ["http://vllm:8000/v1"];
     BackendModel := alias; Provider := ""; DisplayName := alias; Description := description;
     InputMicrosPerMTok := 100000; OutputMicrosPerMTok := 400000; CachedInputMicrosPerMTok := 0;
     CacheWriteMicrosPerMTok := 0; LongPrompt := None; MaxContext := context; ReleaseDate := "";
     Location := LocationOnPrem; APIKeyCiphertext := ""; APIKey := ""; HasAPIKey := false;
     Subscription := false; PlatformKey := false; Model_Billing := None; Limited := false;
     Locked := false; OrgName := ""; Enabled := true |}.

#[local] Instance sample_source : Source :=
  {| src_Model org alias :=
       if bool_decide (org = "org_1" ∧ alias = "small") then Some (sample_chat "small" 8000 "quick")
       else if bool_decide (org = "org_1" ∧ alias = "large") then Some (sample_chat "large" 0 "clever")
       else None;
     src_Filter _ _ := None; src_Router _ _ := None |}.

(** A backend that answers every question with the letter B. *)
#[local] Instance sample_wire : Wire :=
  {| json_array texts := join " " texts;
     json_guardRequest m instruction input _ _ := instruction +:+ input;
     json_decisionRequest _ q input := dq_Instructions q +:+ input;
     wire_send _ _ _ _ := Answered 200 "B"; wire_gone _ := false;
     chatFromDecision raw _ := inr raw; usageFromResponse _ := None;
     countedTokens _ _ := Tokens_zero; upstreamComplaint _ status := pretty status |}.

Definition sample_route (mode : string) : Route :=
  {| Rt_OrgID := "org_1"; Rt_Router := "auto"; Rt_Step := "size"; Rt_Mode := mode;
     Rt_Model := "small"; Rt_Prompt := "Hard questions go to large.";
     Rt_Destinations := ["large"; "small"]; Rt_Ceilings := {["small" := 1000]};
     Rt_Header := ""; Rt_Values := ∅; Rt_Fallback := "large" |}.

Lemma sample_sized :
  sized (sample_route RouteModeSize) (inr ["a short question"]) =
  (place chose "small" ["small"; "large"], None).
Proof. vm_compute. reflexivity. Qed.

Lemma sized_choice_witness :
  head ["small"; "large"] = Some "small" ∧
  ["small"; "large"] ≡ₚ filter (λ a, is_Some (serveable "org_1" a)) ["large"; "small"].
Proof.
  destruct (sized_choice (sample_route RouteModeSize) ["a short question"]
    (place chose "small" ["small"; "large"]) sample_sized) as (H1 & H2 & _).
  split; [exact H2|exact H1].
Defined.

Lemma sample_route_serves (a : string) :
  a ∈ Rt_Destinations (sample_route RouteModeSize) →
  ∃ m, serveable "org_1" a = Some m ∧ (MaxContext m <= 0 ∨ 5 <= MaxContext m).
Proof.
  intros [->|[->|[]%elem_of_nil]%elem_of_cons]%elem_of_cons; eexists; (split; [vm_compute; reflexivity|]);
    simpl; lia.
Qed.

Lemma sizeBands_describe_sized_witness :
  match filter (in_band 5) (sizeBands (sample_route RouteModeSize) ["large"; "small"]) with
  | b :: _ => "small" = band_alias b
  | [] => False
  end.
Proof.
  assert (0 < estimateTokens ["a short question"]) as Hpos by (vm_compute; reflexivity).
  assert (∀ a, 0 <= (Ceiling (Rt_Ceilings (sample_route RouteModeSize)) a).1 <= MaxInt) as Hc.
  { intros a. unfold Ceiling. destruct (Rt_Ceilings (sample_route RouteModeSize) !! a) as [n|] eqn:Hn.
    - change (({["small" := 1000]} : gmap string Z) !! a = Some n) in Hn.
      apply lookup_singleton_Some in Hn as [_ <-]. vm_compute. split; discriminate.
    - vm_compute. split; discriminate. }
  pose proof (sizeBands_describe_sized (sample_route RouteModeSize) ["a short question"]
    (place chose "small" ["small"; "large"]) sample_route_serves Hc Hpos sample_sized) as H.
  vm_compute in H. vm_compute. exact H.
Defined.

(** The lettered question is answered by name, which asks twice. *)
Definition sample_world : World := {| w_calls := 0; w_noLogprobs := ∅ |}.

Lemma route_lands_witness :
  let r := route sample_exp sample_world ∅ 0 (sample_route RouteModeInstruction)
    (inr ["Prove Fermat's last theorem."]) [] in
  placed (sample_route RouteModeInstruction) false r.1 ∨ hung_up r.1.1 r.1.2 r.2.
Proof.
  cbv zeta.
  apply (route_lands sample_exp sample_world _ ∅ 0 (sample_route RouteModeInstruction)
    (inr ["Prove Fermat's last theorem."]) []).
  - intros v a Ha. change ((∅ : gmap string string) !! v = Some a) in Ha.
    by rewrite lookup_empty in Ha.
  - destruct (route _ _ _ _ _ _ _) as [[d ref] w']. reflexivity.
Defined.

Lemma observe_between_witness :
  let l := observe (λ _, 1 # 2)%Q ∅ "org_1/small" 800 0 in
  ewma (load_get (observe (λ _, 1 # 2)%Q l "org_1/small" 400 Second) "org_1/small") = 600 ∧
  400 <= ewma (load_get (observe (λ _, 1 # 2)%Q l "org_1/small" 400 Second) "org_1/small") <= 800.
Proof.
  cbv zeta. split; [vm_compute; reflexivity|].
  destruct (observe_between (λ _, 1 # 2)%Q (observe (λ _, 1 # 2)%Q ∅ "org_1/small" 800 0)
    "org_1/small" 400 Second) as (_ & H & _).
  - intros x _. split; vm_compute; discriminate.
  - vm_compute. discriminate.
  - destruct (H ltac:(vm_compute; reflexivity)) as [H1 _].
    specialize (H1 ltac:(vm_compute; reflexivity)). vm_compute in H1. vm_compute. exact H1.
Defined.
