(* ===== verification/FilterChain.v ===== *)
(** * Chains of filters

    [internal/gateway/filter.go]: the question a filter's model is asked, one
    run of a filter, and the chain a request passes. An enforcing filter fails
    closed; one in shadow is only recorded. *)
From S2P Require Import Prelude Num Tenancy Pricing Guardrails Text Filters Routers RouterCheck.
From S2P Require Import Replies Guard Routing.
Open Scope go_scope.

(** ** Runs *)

Definition FilterPass : string := "pass".
Definition FilterRewrite : string := "rewrite".
Definition FilterRefuse : string := "refuse".
Definition FilterErrored : string := "error".

(** [store.FilterRun], without the latency. *)
Record FilterRun := {
  FR_Filter : string;
  FR_Mode : string;
  FR_Shadow : bool;
  FR_Outcome : string;
  FR_CostMicros : Z;
  FR_Segments : nat;
  FR_Changed : nat;
}.

Record filterRun := {
  applied : list string;
  fr_micros : Z;
  fr_bills : list BillLine;
  runs : list FilterRun;
  rewrote : bool;
}.

Definition filterRun_zero : filterRun :=
  {| applied := []; fr_micros := 0; fr_bills := []; runs := []; rewrote := false |}.

(** [filterRun.add]: a later chain's runs. *)
Definition run_add (r o : filterRun) : filterRun :=
  {| applied := applied r ++ applied o; fr_micros := fr_micros r ⊕ fr_micros o;
     fr_bills := fr_bills r ++ fr_bills o; runs := runs r ++ runs o; rewrote := rewrote r |}.

Record filterCost := { fc_micros : Z; fc_bills : list BillLine }.

Definition filterCost_zero : filterCost := {| fc_micros := 0; fc_bills := [] |}.

(** [run.micros += cost.micros], and the bills. *)
Definition run_spend (r : filterRun) (c : filterCost) : filterRun :=
  {| applied := applied r; fr_micros := fr_micros r ⊕ fc_micros c;
     fr_bills := fr_bills r ++ fc_bills c; runs := runs r; rewrote := rewrote r |}.

Definition run_applied (r : filterRun) (alias : string) : filterRun :=
  {| applied := applied r ++ [alias]; fr_micros := fr_micros r; fr_bills := fr_bills r;
     runs := runs r; rewrote := rewrote r |}.

Definition run_rewrote (r : filterRun) : filterRun :=
  {| applied := applied r; fr_micros := fr_micros r; fr_bills := fr_bills r; runs := runs r;
     rewrote := true |}.

(** [Server.noteFilter]: the row; metrics and trace are left out. *)
Definition noteFilter (r : filterRun) (f : Filter) (outcome : string) (micros : Z)
    (segments changed : nat) : filterRun :=
  {| applied := applied r; fr_micros := fr_micros r; fr_bills := fr_bills r;
     runs := runs r ++ [{| FR_Filter := F_Alias f; FR_Mode := F_Mode f; FR_Shadow := F_Shadow f;
       FR_Outcome := outcome; FR_CostMicros := micros; FR_Segments := segments;
       FR_Changed := changed |}];
     rewrote := rewrote r |}.

(** [changedSegments]; [None] is a gate's nil. *)
Fixpoint changed_from (before after : list string) : nat :=
  match before, after with
  | b :: before, a :: after =>
      ((if bool_decide (a = b) then 0 else 1) + changed_from before after)%nat
  | _, _ => 0%nat
  end.

Definition changedSegments (before : list string) (after : option (list string)) : nat :=
  match after with None => 0%nat | Some after => changed_from before after end.

(** ** Refusals *)

Definition filterUnavailable (by_ alias why : string) : refusal :=
  {| R_status := 503; R_typ := "server_error"; R_code := "filter_unavailable";
     R_msg := by_ +:+ " filters every request through '" +:+ alias +:+ "' " +:+
       "before it is forwarded, and that filter cannot run: " +:+ why +:+
       ". Nothing was sent to the " +:+ "model";
     R_advise := true; R_retry := 0 |}.

Definition codeFilterRefused : string := "filter_refused".

Definition filterRefused (by_ : string) (f : Filter) (reason : string) : refusal :=
  let msg :=
    if Gates (F_Mode f) then
      by_ +:+ " checks every request against '" +:+ F_Alias f +:+ "' " +:+
      "before it is forwarded, and it refused this one"
    else if negb (Filter_UsesModel f) then
      by_ +:+ " checks every request against the rules " +:+ "in '" +:+ F_Alias f +:+
      "' before it is forwarded, and one of them matched this request"
    else
      by_ +:+ " filters every request through '" +:+ F_Alias f +:+ "' " +:+
      "before it is forwarded, and that filter refused this one" in
  {| R_status := 403; R_typ := "permission_error"; R_code := codeFilterRefused;
     R_msg := msg +:+ (if bool_decide (reason = "") then "" else ", saying: " +:+ reason) +:+
       ". Nothing was sent to the model";
     R_advise := true; R_retry := 0 |}.

Definition error_text (err : FilterError) : string :=
  match err with
  | FilterRefusedError reason =>
      if bool_decide (reason = "") then "the filter refused this request"
      else "the filter refused this request: " +:+ reason
  | FilterTooLargeError msg => msg
  | OtherError msg => msg
  end.

Definition filterFailed (f : Filter) (err : FilterError) : refusal :=
  match err with
  | FilterTooLargeError msg =>
      {| R_status := 413; R_typ := "invalid_request_error"; R_code := "filter_input_too_large";
         R_msg := msg; R_advise := true; R_retry := 0 |}
  | _ =>
      let what := if Gates (F_Mode f) then "could not judge this request"
        else if negb (Filter_UsesModel f) then "could not be applied to this request"
        else "could not rewrite this request" in
      {| R_status := 502; R_typ := "server_error"; R_code := "filter_failed";
         R_msg := "the filter '" +:+ F_Alias f +:+ "' " +:+ what +:+
           ", so nothing was sent to the model: " +:+ error_text err;
         R_advise := true; R_retry := 0 |}
  end.

Definition notRebuilt (err : string) : refusal :=
  {| R_status := 502; R_typ := "server_error"; R_code := "filter_failed";
     R_msg := "the filtered request could not be rebuilt, so nothing was sent " +:+
       "to the model: " +:+ err;
     R_advise := true; R_retry := 0 |}.

(** ** One filter's model *)

Definition gateOutputTokens : Z := 192.
Definition maxFilterResponseBytes : Z := 33554432.

Definition rewriteAllowance (input : string) (texts : list string) : Z :=
  (quot64 (len input) bytesPerToken ⊕ (Z.of_nat (length texts) ⊗ 8)) ⊕ 512.

Definition filterTooLargeMessage (f : Filter) (m : Model) (inputTokens : Z) : string :=
  if Gates (F_Mode f) then
    "this request is about " +:+ pretty inputTokens +:+ " tokens of text, and the gate '" +:+
    F_Alias f +:+ "' has to " +:+ "read all of it through '" +:+ Alias m +:+ "', whose context is " +:+
    pretty (MaxContext m) +:+ ". Send less in one request, or " +:+
    "give the gate a model with a larger context"
  else
    "this request is about " +:+ pretty inputTokens +:+ " tokens of text, and the filter '" +:+
    F_Alias f +:+ "' has to " +:+ "read it and write it back through '" +:+ Alias m +:+
    "', whose context is " +:+ pretty (MaxContext m) +:+ ". Send less in one " +:+
    "request, or give the filter a model with a larger context".

(** What [fmt.Sprintf] appends for an argument its format does not use. *)
Definition extra_int (n : nat) : string := "%!(EXTRA int=" +:+ pretty n +:+ ")".

(** [strings.TrimSpace(f.Prompt) + "\n" + fmt.Sprintf(protocol, n, n)]: the
    gate's protocol states the number of segments once. *)
Definition filter_instruction (f : Filter) (n : nat) : string :=
  TrimSpace (F_Prompt f) +:+ newline +:+
  (if Gates (F_Mode f) then gateProtocol n +:+ extra_int n else rewriteProtocol n).

Section filters.
Context `{Num T} `{MapRange} `{Source} `{Unicode} `{!Completions T} `{Wire}.
Context `{Regexp} `{Countable Digest} (cleanKey : Z → string → Digest).
Context (Exp : T → T).

(** What a filter's run reads and changes of the server. *)
Record FilterState := { fs_world : World; fs_patterns : patternCache (Digest := Digest) }.

Definition filter_question (f : Filter) (texts : list string) : guardQuestion :=
  let input := json_array texts in
  {| gq_instruction := filter_instruction f (length texts);
     gq_input := input;
     gq_outputTokens := if Gates (F_Mode f) then gateOutputTokens else rewriteAllowance input texts;
     gq_timeout := "2m0s"; gq_limit := maxFilterResponseBytes; gq_subject := "the filter's model";
     gq_decision := if Gates (F_Mode f) then Some (gateDecision (F_Prompt f)) else None |}.

(** The call of [runFilter], asked again without logprobs if they were
    refused: the answer, the whole cost, and the error. *)
Definition ask_filter (w : World) (m : Model) (ask : guardQuestion) (logprobs : bool)
    : guardAnswer * filterCost * option string * World :=
  let '(ans, err, w) := askGuard w m ask logprobs in
  let cost := {| fc_micros := ga_micros ans; fc_bills := ga_bills ans |} in
  if bool_decide (err = None) && logprobs && rejectsLogprobs (ga_status ans) then
    let '(ans, err, w) := askGuard (dropLogprobs w m) m ask false in
    (ans, {| fc_micros := fc_micros cost ⊕ ga_micros ans; fc_bills := fc_bills cost ++ ga_bills ans |},
     err, w)
  else (ans, cost, err, w).

(** [Server.runFilter]: the segments ([None] for a gate), the cost, and the
    error. *)
Definition runFilter (w : World) (f : Filter) (m : Model) (texts : list string)
    : option (list string) * filterCost * option FilterError * World :=
  let gate := Gates (F_Mode f) in
  let ask := filter_question f texts in
  if too_large ask m then
    (None, filterCost_zero, Some (FilterTooLargeError (filterTooLargeMessage f m (gq_tokens ask m).1)), w)
  else
    let logprobs := gate && negb (bool_decide (Kind m = KindDecision)) && readsLogprobs w m in
    let '(ans, cost, err, w) := ask_filter w m ask logprobs in
    match err with
    | Some err => (None, cost, Some (OtherError err), w)
    | None =>
        if 300 <=? ga_status ans then
          (None, cost, Some (OtherError ("its model answered " +:+
             upstreamComplaint (ga_raw ans) (ga_status ans))), w)
        else if gate then (None, cost, (parseGateReply Exp (ga_raw ans)).2, w)
        else match parseFilterReply (ga_raw ans) texts with
        | inl err => (None, cost, Some err, w)
        | inr out => (Some out, cost, None, w)
        end
    end.

(** [compileErr]'s text, which a broken pattern filter fails with. *)
Definition compile_text (err : CompileError) : string :=
  match err with
  | NoRules => "it has no rules, so it would read every request " +:+
      "the guardrail covers and change nothing"
  | BadRule pattern err =>
      "its rule " +:+ Quote pattern +:+ " is not a valid regular expression: " +:+ err
  end.

(** [Server.runOne]. *)
Definition runOne (st : FilterState) (f : Filter) (m : Model) (texts : list string)
    : option (list string) * filterCost * option FilterError * FilterState :=
  if Filter_UsesModel f then
    let '(out, cost, err, w) := runFilter (fs_world st) f m texts in
    (out, cost, err, {| fs_world := w; fs_patterns := fs_patterns st |})
  else
    let '(result, c) := runPatternFilter cleanKey (fs_patterns st) f texts in
    let st := {| fs_world := fs_world st; fs_patterns := c |} in
    match result with
    | PatternBroken err => (None, filterCost_zero, Some (OtherError (compile_text err)), st)
    | PatternRefused _ reason => (None, filterCost_zero, Some (FilterRefusedError reason), st)
    | PatternDone out _ => (Some out, filterCost_zero, None, st)
    end.

(** [Server.filterModel]: the model, and why it cannot be used. *)
Definition filterModel (f : Filter) : Model * string :=
  if negb (Filter_UsesModel f) then (Model_zero, "")
  else
    let m := src_Model (F_OrgID f) (F_Model f) in
    let why := readerProblem m (Gates (F_Mode f)) in
    (default Model_zero m,
     if bool_decide (why = "") then ""
     else "the model it runs on, '" +:+ F_Model f +:+ "', " +:+ why).

(** ** The chain *)

(** What [chainFilter] returns: the texts for the next filter if they change,
    the refusal, and whether the chain stops. *)
Record ChainStep := { cs_out : option (list string); cs_ref : option refusal; cs_stop : bool }.

(** The outcome of a run that was made: the row's outcome, the refusal and
    the number of segments changed. *)
Definition run_outcome (by_ : string) (f : Filter) (texts : list string)
    (out : option (list string)) (err : option FilterError) : string * option refusal * nat :=
  match err with
  | Some (FilterRefusedError reason) => (FilterRefuse, Some (filterRefused by_ f reason), 0%nat)
  | Some err => (FilterErrored, Some (filterFailed f err), 0%nat)
  | None =>
      let changed := changedSegments texts out in
      (if (0 <? changed)%nat then FilterRewrite else FilterPass, None, changed)
  end.

(** The end of [chainFilter], once the row is written. *)
Definition chain_end (run : filterRun) (f : Filter) (out : option (list string))
    (ref : option refusal) (changed : nat) : filterRun * ChainStep :=
  if F_Shadow f then (run, {| cs_out := None; cs_ref := None; cs_stop := false |})
  else match ref with
  | Some ref => (run, {| cs_out := None; cs_ref := Some ref; cs_stop := true |})
  | None =>
      (run_applied run (F_Alias f),
       {| cs_out := if (changed =? 0)%nat then None else out; cs_ref := None; cs_stop := false |})
  end.

(** [Server.chainFilter]. *)
Definition chainFilter (st : FilterState) (run : filterRun) (orgID alias by_ : string)
    (texts : list string) : filterRun * ChainStep * FilterState :=
  match src_Filter orgID alias with
  | None =>
      (run, {| cs_out := None; cs_ref := Some (filterUnavailable by_ alias
         "no filter of that alias exists in this organisation any more"); cs_stop := true |}, st)
  | Some f =>
      let '(m, broken) := filterModel f in
      if negb (bool_decide (broken = "")) then
        let run := noteFilter run f FilterErrored 0 (length texts) 0 in
        let '(run, step) := chain_end run f None (Some (filterUnavailable by_ alias broken)) 0 in
        (run, step, st)
      else
        let '(out, cost, err, st) := runOne st f m texts in
        let run := run_spend run cost in
        if negb (bool_decide (is_Some err)) || negb (gone (fs_world st)) then
          let '(outcome, ref, changed) := run_outcome by_ f texts out err in
          let run := noteFilter run f outcome (fc_micros cost) (length texts) changed in
          let '(run, step) := chain_end run f out ref changed in
          (run, step, st)
        else (run, {| cs_out := None; cs_ref := None; cs_stop := true |}, st)
  end.

(** The loop of [applyFilters]: [inl] when the chain stopped. *)
Fixpoint chain_loop (st : FilterState) (run : filterRun) (orgID by_ : string)
    (aliases texts : list string) (rewritten : bool)
    : filterRun * (option refusal + list string * bool) * FilterState :=
  match aliases with
  | [] => (run, inr (texts, rewritten), st)
  | alias :: aliases =>
      let '(run, step, st) := chainFilter st run orgID alias by_ texts in
      if cs_stop step then (run, inl (cs_ref step), st)
      else match cs_out step with
      | Some out => chain_loop st run orgID by_ aliases out true
      | None => chain_loop st run orgID by_ aliases texts rewritten
      end
  end.

(** How text is taken out of a body and put back. *)
Context {Body : Type} (extract : Body → string + list string)
  (apply_texts : Body → list string → string + Body).

(** [Server.applyFilters], with the body as it leaves it. *)
Definition applyFilters (st : FilterState) (orgID : string) (aliases : list string) (by_ : string)
    (b : Body) : filterRun * option refusal * Body * FilterState :=
  match aliases with
  | [] => (filterRun_zero, None, b, st)
  | _ =>
      match extract b with
      | inl err =>
          (filterRun_zero, Some (unreadableBody (by_ +:+
             " filters every request before it is forwarded") err), b, st)
      | inr [] => (filterRun_zero, None, b, st)
      | inr texts =>
          let '(run, r, st) := chain_loop st filterRun_zero orgID by_ aliases texts false in
          match r with
          | inl ref => (run, ref, b, st)
          | inr (_, false) => (run, None, b, st)
          | inr (texts, true) =>
              match apply_texts b texts with
              | inl err => (run, Some (notRebuilt err), b, st)
              | inr b => (run_rewrote run, None, b, st)
              end
          end
      end
  end.
End filters.

(** ** Lemmas *)

Section chains.
Context `{Num T} `{MapRange} `{Source} `{Unicode} `{!Completions T} `{Wire}.
Context `{Regexp} `{Countable Digest} (cleanKey : Z → string → Digest) (Exp : T → T).
Context (orgID by_ : string).
Implicit Types (st : FilterState (Digest := Digest)).

Abbreviation run_one := (runOne cleanKey Exp).
Abbreviation chain_filter := (λ st run alias texts, chainFilter cleanKey Exp st run orgID alias by_ texts).

(** What a filter that passed leaves of the texts. *)
Definition left_by (texts : list string) (out : option (list string)) : list string :=
  if (changedSegments texts out =? 0)%nat then texts else default texts out.

(** A chain every enforcing filter of which ran and passed. *)
Inductive passes : FilterState → list string → list string → FilterState → list string → Prop :=
  | passes_none st texts : passes st [] texts st texts
  | passes_broken st alias f aliases texts st' texts' :
      src_Filter orgID alias = Some f → F_Shadow f = true → (filterModel f).2 ≠ "" →
      passes st aliases texts st' texts' → passes st (alias :: aliases) texts st' texts'
  | passes_shadow st alias f aliases texts out cost err st1 st' texts' :
      src_Filter orgID alias = Some f → F_Shadow f = true → (filterModel f).2 = "" →
      run_one st f (filterModel f).1 texts = (out, cost, err, st1) →
      passes st1 aliases texts st' texts' → passes st (alias :: aliases) texts st' texts'
  | passes_enforced st alias f aliases texts out cost st1 st' texts' :
      src_Filter orgID alias = Some f → F_Shadow f = false → (filterModel f).2 = "" →
      run_one st f (filterModel f).1 texts = (out, cost, None, st1) →
      passes st1 aliases (left_by texts out) st' texts' →
      passes st (alias :: aliases) texts st' texts'.

(** The alias an enforcing filter is named by in the response. *)
Definition enforced (alias : string) : option string :=
  match src_Filter orgID alias with
  | Some f => if F_Shadow f then None else Some (F_Alias f)
  | None => None
  end.

Definition costs (rs : list FilterRun) : Z := foldr (λ r n, FR_CostMicros r + n) 0 rs.

Lemma costs_app rs1 rs2 : costs (rs1 ++ rs2) = costs rs1 + costs rs2.
Proof. induction rs1 as [|r rs1 IH]; [done|]. cbn [costs foldr app]. fold (costs (rs1 ++ rs2)). fold (costs rs1). lia. Qed.

(** Every amount spent has its row. *)
Definition accounted (run : filterRun) : Prop := fr_micros run = wrap64 (costs (runs run)).

Lemma chain_end_accounted run f out ref changed :
  accounted run → accounted (chain_end run f out ref changed).1.
Proof. unfold chain_end. by destruct (F_Shadow f), ref. Qed.

Lemma note_accounted run cost f outcome segments changed :
  accounted run →
  accounted (noteFilter (run_spend run cost) f outcome (fc_micros cost) segments changed).
Proof.
  unfold accounted, noteFilter, run_spend. cbn [fr_micros runs]. intros ->.
  rewrite costs_app. cbn [costs foldr FR_CostMicros]. unfold add64. rewrite wrap64_add_l.
  f_equal. lia.
Qed.

Lemma chainFilter_accounted st run alias texts run' step st' :
  accounted run → chain_filter st run alias texts = (run', step, st') →
  accounted run' ∨ (gone (fs_world st') = true ∧ cs_stop step = true ∧ cs_ref step = None).
Proof.
  intros Hacc. unfold chainFilter. destruct (src_Filter orgID alias) as [f|]; [|intros [= <- <- <-]; by left].
  destruct (filterModel f) as [m broken]. destruct (negb (bool_decide (broken = ""))) eqn:Hb.
  - destruct (chain_end _ _ _ _ _) as [r s] eqn:He. intros [= <- <- <-]. left.
    apply (f_equal fst) in He. cbn [fst] in He. rewrite <- He. apply chain_end_accounted.
    unfold accounted, noteFilter in *. cbn [fr_micros runs]. rewrite Hacc, costs_app.
    cbn [costs foldr FR_CostMicros]. f_equal. lia.
  - destruct (runOne _ _ _ _ _ _) as [[[out cost] err] st1].
    destruct (negb (bool_decide (is_Some err)) || negb (gone (fs_world st1))) eqn:Hg.
    + destruct (run_outcome by_ f texts out err) as [[outcome ref] changed].
      destruct (chain_end _ _ _ _ _) as [r s] eqn:He. intros [= <- <- <-]. left.
      apply (f_equal fst) in He. cbn [fst] in He. rewrite <- He.
      by apply chain_end_accounted, note_accounted.
    + intros [= <- <- <-]. right. apply orb_false_iff in Hg as [_ Hg]. apply negb_false_iff in Hg. done.
Qed.

Lemma chain_loop_accounted aliases st run texts rw run' r st' :
  accounted run → chain_loop cleanKey Exp st run orgID by_ aliases texts rw = (run', r, st') →
  accounted run' ∨ (gone (fs_world st') = true ∧ r = inl None).
Proof.
  revert st run texts rw. induction aliases as [|alias aliases IH]; intros st run texts rw Hacc; simpl.
  { intros [= <- <- <-]. by left. }
  destruct (chainFilter _ _ _ _ _ _ _ _) as [[run1 step] st1] eqn:Hc.
  apply chainFilter_accounted in Hc; [|done].
  destruct (cs_stop step) eqn:Hstop.
  - intros [= <- <- <-]. destruct Hc as [|(? & _ & ->)]; [by left|by right].
  - destruct Hc as [Hacc1|(_ & ? & _)]; [|done].
    destruct (cs_out step); by apply IH.
Qed.

(** *** Passing *)

(** One filter that does not stop the chain. *)
Lemma chainFilter_passes st run alias texts run' step st1 :
  chain_filter st run alias texts = (run', step, st1) → cs_stop step = false →
  applied run' = applied run ++ option_list (enforced alias) ∧
  (cs_out step = None ∨ ∃ out, cs_out step = Some out) ∧
  ∀ aliases st' texts', passes st1 aliases (default texts (cs_out step)) st' texts' →
    passes st (alias :: aliases) texts st' texts'.
Proof.
  unfold chainFilter, enforced. destruct (src_Filter orgID alias) as [f|] eqn:Hf; [|by intros [= <- <- <-]].
  destruct (filterModel f) as [m broken] eqn:Hm.
  assert (∀ run, (applied run = applied run ++ option_list None)) as Happ
    by (intros; by rewrite app_nil_r).
  destruct (negb (bool_decide (broken = ""))) eqn:Hb; to_prop.
  - unfold chain_end. destruct (F_Shadow f) eqn:Hs; intros [= <- <- <-]; [|done]. intros _.
    split; [exact (Happ run)|]. split; [by left|]. intros aliases st' texts' Hp.
    eapply passes_broken; [done|done|by rewrite Hm|done].
  - destruct (runOne _ _ _ _ _ _) as [[[out cost] err] st2] eqn:Hr.
    destruct (negb (bool_decide (is_Some err)) || _); [|by intros [= <- <- <-]].
    destruct (run_outcome by_ f texts out err) as [[outcome ref] changed] eqn:Ho.
    unfold chain_end. destruct (F_Shadow f) eqn:Hs.
    + intros [= <- <- <-] _. split; [exact (Happ run)|]. split; [by left|].
      intros aliases st' texts' Hp. eapply passes_shadow; rewrite ?Hm; done.
    + destruct ref as [ref|]; intros [= <- <- <-]; [done|]. intros _. split; [done|].
      unfold run_outcome in Ho. destruct err as [[]|]; [done..|]. injection Ho as _ <-.
      split; [cbn [cs_out]; destruct (_ =? _)%nat; [by left|destruct out; eauto]|].
      intros aliases st' texts' Hp. eapply passes_enforced; rewrite ?Hm; [done..|].
      unfold left_by. cbn [cs_out] in Hp. by destruct (_ =? _)%nat.
Qed.

Lemma chain_loop_passes aliases st run texts rw run' texts' rw' st' :
  chain_loop cleanKey Exp st run orgID by_ aliases texts rw = (run', inr (texts', rw'), st') →
  passes st aliases texts st' texts' ∧ applied run' = applied run ++ omap enforced aliases ∧
  (rw' = false → texts' = texts).
Proof.
  revert st run texts rw. induction aliases as [|alias aliases IH]; intros st run texts rw.
  { intros [= <- <- <- <-]. split; [constructor|]. split; [|done]. simpl. by rewrite app_nil_r. }
  cbn [chain_loop]. destruct (chainFilter _ _ _ _ _ _ _ _) as [[run1 step] st1] eqn:Hc.
  destruct (cs_stop step) eqn:Hstop; [done|].
  apply chainFilter_passes in Hc as (Ha & Hout & Hp); [|done].
  intros Hl.
  assert (passes st1 aliases (default texts (cs_out step)) st' texts' ∧
    applied run' = applied run1 ++ omap enforced aliases ∧
    (cs_out step = None → rw' = false → texts' = texts) ∧
    (∀ out, cs_out step = Some out → rw' = true)) as (Hp1 & Ha1 & Hn & Hs).
  { destruct (cs_out step) as [out|].
    - destruct (IH _ _ _ _ Hl) as (? & ? & _). split; [done|]. split; [done|]. split; [done|].
      intros _ _. revert Hl. clear. revert st1 run1 out.
      assert (∀ st run texts, chain_loop cleanKey Exp st run orgID by_ aliases texts true =
        (run', inr (texts', rw'), st') → rw' = true) as Htrue; [|intros; by eapply Htrue].
      induction aliases as [|a aliases IH]; intros st run texts; simpl; [by intros [= _ _ <- _]|].
      destruct (chainFilter _ _ _ _ _ _ _ _) as [[r s] x]. destruct (cs_stop s); [done|].
      destruct (cs_out s); apply IH.
    - destruct (IH _ _ _ _ Hl) as (? & ? & ?). done. }
  split; [by apply Hp|]. split.
  - rewrite Ha1, Ha, <- app_assoc. f_equal. cbn [omap list_omap]. by destruct (enforced alias).
  - intros Hrw. destruct Hout as [Ho|[out Ho]]; [by apply Hn|]. specialize (Hs out Ho). congruence.
Qed.

(** A chain stops without a refusal only when the client has gone. *)
Lemma chain_loop_hung aliases st run texts rw run' st' :
  chain_loop cleanKey Exp st run orgID by_ aliases texts rw = (run', inl None, st') →
  gone (fs_world st') = true.
Proof.
  revert st run texts rw. induction aliases as [|alias aliases IH]; intros st run texts rw; simpl; [done|].
  destruct (chainFilter _ _ _ _ _ _ _ _) as [[run1 step] st1] eqn:Hc.
  destruct (cs_stop step) eqn:Hstop; [|destruct (cs_out step); apply IH].
  intros [= -> Hnone ->]. revert Hc Hstop Hnone. unfold chainFilter.
  destruct (src_Filter orgID alias) as [f|]; [|by intros [= <- <- <-]].
  destruct (filterModel f) as [m broken]. destruct (negb (bool_decide (broken = ""))).
  { unfold chain_end. by destruct (F_Shadow f); intros [= <- <- <-]. }
  destruct (runOne _ _ _ _ _ _) as [[[out cost] err] st2].
  destruct (negb (bool_decide (is_Some err)) || negb (gone (fs_world st2))) eqn:Hg.
  - destruct (run_outcome by_ f texts out err) as [[outcome ref] changed].
    unfold chain_end. by destruct (F_Shadow f); [|destruct ref]; intros [= <- <- <-].
  - intros [= <- <- <-] _ _. apply orb_false_iff in Hg as [_ Hg]. by apply negb_false_iff in Hg.
Qed.

Lemma chain_loop_rewrote aliases st run texts rw :
  rewrote (chain_loop cleanKey Exp st run orgID by_ aliases texts rw).1.1 = rewrote run.
Proof.
  revert st run texts rw. induction aliases as [|alias aliases IH]; intros st run texts rw; [done|].
  cbn [chain_loop].
  assert (rewrote (chainFilter cleanKey Exp st run orgID alias by_ texts).1.1 = rewrote run) as Hc.
  { unfold chainFilter. destruct (src_Filter orgID alias) as [f|]; [|done].
    destruct (filterModel f) as [m broken]. unfold chain_end, run_outcome.
    destruct (negb (bool_decide (broken = ""))); [by destruct (F_Shadow f)|].
    destruct (runOne _ _ _ _ _ _) as [[[out cost] err] st2].
    destruct (_ || _); [|done]. destruct err as [[]|]; by destruct (F_Shadow f). }
  destruct (chainFilter _ _ _ _ _ _ _ _) as [[run1 step] st1]. cbn [fst] in Hc.
  destruct (cs_stop step); [done|]. destruct (cs_out step); rewrite IH; done.
Qed.
End chains.

(** ** Properties *)

(** C11: enforcing filters fail closed. When [applyFilters] lets a request
    through, either its client has gone and nothing changed, or it carried no
    text, or every enforcing filter of the chain exists, has a usable model,
    ran, in order, on the text the one before it left, and neither refused
    nor failed; those, and no filter in shadow, are the ones the response
    names. The body that goes on carries exactly what the last enforcing
    rewrite left, or is untouched. *)
Theorem applyFilters_fail_closed `{Num T} `{MapRange} `{Source} `{Unicode} `{!Completions T} `{Wire}
    `{Regexp} `{Countable Digest} (cleanKey : Z → string → Digest) (Exp : T → T)
    {Body : Type} (extract : Body → string + list string)
    (apply_texts : Body → list string → string + Body)
    (st st' : FilterState (Digest := Digest)) (orgID by_ : string) (aliases : list string)
    (b b' : Body) (run : filterRun) :
  applyFilters cleanKey Exp extract apply_texts st orgID aliases by_ b = (run, None, b', st') →
  aliases = [] ∧ b' = b ∨ extract b = inr [] ∧ b' = b ∨
  gone (fs_world st') = true ∧ b' = b ∨
  ∃ texts texts', extract b = inr texts ∧
    passes cleanKey Exp orgID st aliases texts st' texts' ∧
    applied run = omap (enforced orgID) aliases ∧
    (b' = b ∧ texts' = texts ∨ apply_texts b texts' = inr b').
Proof.
  unfold applyFilters. destruct aliases as [|alias aliases]; [intros [= <- <- <-]; by left|].
  destruct (extract b) as [err|[|text texts]] eqn:Hx; [done|intros [= <- <- <-]; right; by left|].
  destruct (chain_loop _ _ _ _ _ _ _ _ _) as [[run1 r] st1] eqn:Hl.
  destruct r as [ref|[texts' []]]; intros Hr.
  - injection Hr as <- -> <- <-. right. right. left. split; [|done].
    by apply chain_loop_hung in Hl.
  - destruct (apply_texts b texts') as [err|b1] eqn:Ha; [done|]. injection Hr as <- <- <-.
    right. right. right. apply chain_loop_passes in Hl as (Hp & Happ & _).
    exists (text :: texts), texts'. split; [done|]. split; [done|]. split; [done|]. by right.
  - injection Hr as <- <- <-. right. right. right. apply chain_loop_passes in Hl as (Hp & Happ & Ht).
    exists (text :: texts), texts'. split; [done|]. split; [done|]. split; [done|].
    left. split; [done|by apply Ht].
Qed.

(** filters are paid for and recorded on every outcome. Unless the client
    hung up, what a chain spent is what its rows say it spent, filter by
    filter, whether the chain passed, refused or failed, shadow filters
    included; and a chain that refuses has changed nothing of the body. *)
Theorem applyFilters_accounted `{Num T} `{MapRange} `{Source} `{Unicode} `{!Completions T} `{Wire}
    `{Regexp} `{Countable Digest} (cleanKey : Z → string → Digest) (Exp : T → T)
    {Body : Type} (extract : Body → string + list string)
    (apply_texts : Body → list string → string + Body)
    (st st' : FilterState (Digest := Digest)) (orgID by_ : string) (aliases : list string)
    (b b' : Body) (run : filterRun) (ref : option refusal) :
  applyFilters cleanKey Exp extract apply_texts st orgID aliases by_ b = (run, ref, b', st') →
  (fr_micros run = wrap64 (costs (runs run)) ∨ gone (fs_world st') = true ∧ ref = None) ∧
  (is_Some ref → b' = b ∧ rewrote run = false).
Proof.
  unfold applyFilters. destruct aliases as [|alias aliases].
  { intros [= <- <- <- <-]. split; [by left|]. by intros []. }
  destruct (extract b) as [err|[|text texts]]; [intros [= <- <- <- <-]; split; [by left|done]|
    intros [= <- <- <- <-]; split; [by left|by intros []]|].
  pose proof (chain_loop_rewrote cleanKey Exp orgID by_ (alias :: aliases) st filterRun_zero
    (text :: texts) false) as Hrw.
  destruct (chain_loop _ _ _ _ _ _ _ _ _) as [[run1 r] st1] eqn:Hl. cbn [fst] in Hrw.
  apply chain_loop_accounted in Hl; [|done]. unfold accounted in Hl.
  destruct r as [ref1|[texts' []]].
  - intros [= <- <- <- <-]. split; [|done]. destruct Hl as [Hl|[Hg [= ->]]]; [by left|by right].
  - destruct Hl as [Hl|[_ ?]]; [|done].
    destruct (apply_texts b texts'); intros [= <- <- <- <-]; (split; [by left|]); [done|by intros []].
  - destruct Hl as [Hl|[_ ?]]; [|done]. intros [= <- <- <- <-]. split; [by left|by intros []].
Qed.

(** ** Examples *)

#[local] Existing Instance ascii_unicode.
#[local] Existing Instance plain_completions.
#[local] Existing Instance sample_wire.
#[local] Existing Instance byte_regexp.

(** A filter in shadow that would refuse every shout. *)
Definition sample_shadow : Filter :=
  {| F_OrgID := "org_1"; F_Alias := "shouts"; F_Model := ""; F_Mode := FilterModePattern;
     F_Prompt := "";
     F_Rules := [{| Pattern := "!"; Replace := ""; Refuse := true; Reason := "a shout" |}];
     F_Shadow := true; F_Description := ""; F_CreatedAt := 0; F_UpdatedAt := 1 |}.

Definition sample_redact : Filter :=
  {| F_OrgID := "org_1"; F_Alias := "redact"; F_Model := ""; F_Mode := FilterModePattern;
     F_Prompt := "";
     F_Rules := [{| Pattern := "#"; Replace := "[number]"; Refuse := false; Reason := "" |}];
     F_Shadow := false; F_Description := ""; F_CreatedAt := 0; F_UpdatedAt := 1 |}.

#[local] Instance filter_source : Source :=
  {| src_Model _ _ := None;
     src_Filter _ alias :=
       if bool_decide (alias = "shouts") then Some sample_shadow
       else if bool_decide (alias = "redact") then Some sample_redact else None;
     src_Router _ _ := None |}.

Definition sample_state : FilterState (Digest := Z * string) :=
  {| fs_world := sample_world; fs_patterns := cache_zero |}.

(** A body is its texts. *)
Definition sample_apply (b : list string) (texts : list string) : string + list string := inr texts.

Definition sample_applied (aliases : list string) (b : list string) :=
  applyFilters (λ g s, (g, s)) sample_exp (λ b, inr b) sample_apply sample_state "org_1" aliases
    "a guardrail on this key" b.

Lemma applyFilters_fail_closed_witness :
  let '(run, ref, b, st) := sample_applied ["shouts"; "redact"] ["call #7!"] in
  ref = None ∧ b = ["call [number]7!"] ∧ applied run = ["redact"] ∧
  ∃ texts', passes (λ g s, (g, s)) sample_exp "org_1" sample_state ["shouts"; "redact"] ["call #7!"]
    st texts'.
Proof.
  destruct (sample_applied ["shouts"; "redact"] ["call #7!"]) as [[[run ref] b] st] eqn:He.
  assert (ref = None) as -> by (apply (f_equal (λ x, x.1.1.2)) in He; vm_compute in He; symmetry; exact He).
  assert (b = ["call [number]7!"]) as Hb
    by (apply (f_equal (λ x, x.1.2)) in He; vm_compute in He; symmetry; exact He).
  assert (gone (fs_world st) = false) as Hg
    by (apply (f_equal (λ x, gone (fs_world x.2))) in He; vm_compute in He; symmetry; exact He).
  pose proof (applyFilters_fail_closed (λ g s, (g, s)) sample_exp (λ b, inr b) sample_apply sample_state
    st "org_1" "a guardrail on this key" ["shouts"; "redact"] ["call #7!"] b run He) as H.
  destruct H as [[H _]|[[H _]|[[H _]|H]]]; [discriminate H|discriminate H|rewrite Hg in H; discriminate H|].
  destruct H as (texts & texts' & Ht & Hp & Ha & _). injection Ht as <-.
  split; [reflexivity|]. split; [exact Hb|]. split; [rewrite Ha; vm_compute; reflexivity|].
  exists texts'. exact Hp.
Defined.

Lemma applyFilters_accounted_witness :
  let '(run, ref, b, st) := sample_applied ["redact"; "missing"] ["call #7!"] in
  is_Some ref ∧ b = ["call #7!"] ∧ fr_micros run = wrap64 (costs (runs run)).
Proof.
  destruct (sample_applied ["redact"; "missing"] ["call #7!"]) as [[[run ref] b] st] eqn:He.
  assert (is_Some ref) as Hr
    by (apply (f_equal (λ x, x.1.1.2)) in He; vm_compute in He; rewrite <- He; eexists; reflexivity).
  destruct (applyFilters_accounted (λ g s, (g, s)) sample_exp (λ b, inr b) sample_apply sample_state
    st "org_1" "a guardrail on this key" ["redact"; "missing"] ["call #7!"] b run ref He) as [H1 H2].
  destruct (H2 Hr) as [Hb _]. split; [exact Hr|]. split; [exact Hb|].
  destruct H1 as [H1|[_ H1]]; [exact H1|]. rewrite H1 in Hr. destruct Hr as [x Hx]. discriminate Hx.
Defined.

(** Every gate's instruction ends with what [fmt] says of the argument its
    format leaves over. *)
Lemma gate_instruction_extra (f : Filter) (n : nat) :
  Gates (F_Mode f) = true → ∃ s, filter_instruction f n = s +:+ "%!(EXTRA int=" +:+ pretty n +:+ ")".
Proof.
  intros Hg. exists (TrimSpace (F_Prompt f) +:+ newline +:+ gateProtocol n).
  unfold filter_instruction. by rewrite Hg, !str_app_assoc.
Qed.
