(* ===== verification/Limiter.v ===== *)
(** * The in-memory token buckets

    [internal/ratelimit/limiter.go]. The state is the map of buckets; the
    mutex makes each operation one step. *)
From Stdlib Require Import Qminmax.
From S2P Require Import Prelude GoTime Num.
#[local] Open Scope Z_scope.

(** [Requirement]. *)
Record Requirement := { Req_Key : string; Req_PerMinute : Z; Req_Take : bool }.

(** What the gateway asks of a rate limiter: [gateway.Limiter]. *)
Class RateLimiter (T L : Type) := {
  rl_Admit : L → list Requirement → Z → Z * L;
  rl_ChargeAll : L → list Requirement → T → Z → L;
  rl_Remaining : L → string → Z → Z → Z * L;
  rl_Retry : L → string → Z → Z → Z * L;
}.

Section limiter.
Context `{Num T}.

(** ** Buckets *)

Record bucket := {
  tokens : T;
  perSec : T;
  burst : T;
  last : Z;
  lastSeen : Z;
}.

(** The buckets by key. *)
Abbreviation Limiter := (gmap string bucket).

Definition set_tokens (b : bucket) (t : T) : bucket :=
  {| tokens := t; perSec := perSec b; burst := burst b; last := last b; lastSeen := lastSeen b |}.

(** [bucket.refill]. *)
Definition refill (b : bucket) (now : Z) : bucket :=
  let elapsed := Seconds (time_sub now (last b)) in
  if num_ltb (of_Z 0) elapsed
  then {| tokens := num_min (burst b) (num_add (tokens b) (num_mul elapsed (perSec b)));
          perSec := perSec b; burst := burst b; last := now; lastSeen := now |}
  else {| tokens := tokens b; perSec := perSec b; burst := burst b; last := last b;
          lastSeen := now |}.

(** [rate]. *)
Definition rate (perMinute : Z) : T * T :=
  (num_div (of_Z perMinute) (of_Z 60), of_Z perMinute).

(** The bucket [Limiter.get] returns; it is also stored under the key. *)
Definition bucket_at (l : Limiter) (key : string) (perMinute now : Z) : bucket :=
  let '(ps, bst) := rate perMinute in
  match l !! key with
  | None => {| tokens := bst; perSec := ps; burst := bst; last := now; lastSeen := now |}
  | Some b =>
      let b :=
        if negb (num_eqb (perSec b) ps)
        then {| tokens := num_min (tokens b) bst; perSec := ps; burst := bst; last := last b;
                lastSeen := lastSeen b |}
        else b in
      refill b now
  end.

Definition get (l : Limiter) (key : string) (perMinute now : Z) : bucket * Limiter :=
  let b := bucket_at l key perMinute now in (b, <[key := b]> l).

Definition take_one (b : bucket) : bucket := set_tokens b (num_sub (tokens b) (of_Z 1)).

(** [Limiter.Allow]. *)
Definition Allow (l : Limiter) (key : string) (perMinute now : Z) : bool * Limiter :=
  if perMinute <=? 0 then (true, l)
  else
    let '(b, l) := get l key perMinute now in
    if num_ltb (tokens b) (of_Z 1) then (false, l) else (true, <[key := take_one b]> l).

(** [holds]. *)
Definition holds (take : bool) (t : T) : bool :=
  if take then num_leb (of_Z 1) t else num_ltb (of_Z 0) t.

(** The first loop of [Admit]: the index of the first requirement that fails. *)
Fixpoint admit_check (l : Limiter) (reqs : list Requirement) (now : Z) (i : Z) : Z * Limiter :=
  match reqs with
  | [] => (-1, l)
  | req :: reqs =>
      if Req_PerMinute req <=? 0 then admit_check l reqs now (i + 1)
      else
        let '(b, l) := get l (Req_Key req) (Req_PerMinute req) now in
        if negb (holds (Req_Take req) (tokens b)) then (i, l)
        else admit_check l reqs now (i + 1)
  end.

(** The second loop of [Admit]. *)
Fixpoint admit_take (l : Limiter) (reqs : list Requirement) (now : Z) : Limiter :=
  match reqs with
  | [] => l
  | req :: reqs =>
      if (Req_PerMinute req <=? 0) || negb (Req_Take req) then admit_take l reqs now
      else
        let '(b, l) := get l (Req_Key req) (Req_PerMinute req) now in
        admit_take (<[Req_Key req := take_one b]> l) reqs now
  end.

(** [Limiter.Admit]. *)
Definition Admit (l : Limiter) (reqs : list Requirement) (now : Z) : Z * Limiter :=
  let '(i, l) := admit_check l reqs now 0 in
  if i >=? 0 then (i, l) else (-1, admit_take l reqs now).

(** [Limiter.ChargeAll]. *)
Definition ChargeAll (l : Limiter) (reqs : list Requirement) (n : T) (now : Z) : Limiter :=
  if num_eqb n (of_Z 0) then l
  else foldl (λ l req,
    if Req_PerMinute req >? 0
    then let '(b, l) := get l (Req_Key req) (Req_PerMinute req) now in
         <[Req_Key req := set_tokens b (num_sub (tokens b) n)]> l
    else l) l reqs.

(** [remaining]. *)
Definition remaining (t : T) : Z := if num_ltb (of_Z 0) t then num_trunc t else 0.

(** [retryAfter]. *)
Definition retryAfter (t ps : T) : Z :=
  if num_leb (of_Z 1) t || num_eqb ps (of_Z 0) then 0
  else num_trunc (num_mul (num_div (num_sub (of_Z 1) t) ps) (of_Z Second)).

(** [Limiter.Remaining]. *)
Definition Remaining (l : Limiter) (key : string) (perMinute now : Z) : Z * Limiter :=
  if perMinute <=? 0 then (-1, l)
  else let '(b, l) := get l key perMinute now in (remaining (tokens b), l).

(** [Limiter.Retry]. *)
Definition Retry (l : Limiter) (key : string) (perMinute now : Z) : Z * Limiter :=
  if perMinute <=? 0 then (0, l)
  else let '(b, l) := get l key perMinute now in (retryAfter (tokens b) (perSec b), l).

(** [Limiter.Sweep]. *)
Definition Sweep (l : Limiter) (idle now : Z) : Limiter :=
  filter (λ '(_, b), time_sub now (lastSeen b) <= idle) l.

#[export] Instance Limiter_RateLimiter : RateLimiter T Limiter :=
  {| rl_Admit := Admit; rl_ChargeAll := ChargeAll; rl_Remaining := Remaining; rl_Retry := Retry |}.

End limiter.

(** ** Lemmas, on exact numbers *)

#[local] Open Scope Q_scope.

Section exact.
(** The rate limit in force for each key. *)
Context (limit : string → Z).
Implicit Types (l : gmap string (bucket (T := Q))) (key : string) (now later d : Z).

Definition limitQ key : Q := inject_Z (limit key).

(** What drips into a key's bucket in a duration. *)
Definition gain key d : Q := Seconds d * (limitQ key / inject_Z 60).

(** What a key's bucket holds at an instant. *)
Definition bal l key now : Q := tokens (bucket_at l key (limit key) now).

(** A bucket kept at its key's rate, not above its burst, as of [now]. *)
Record tuned key (b : bucket (T := Q)) now : Prop := {
  tuned_perSec : perSec b == limitQ key / inject_Z 60;
  tuned_burst : burst b == limitQ key;
  tuned_tokens : tokens b <= limitQ key;
  tuned_last : (last b <= now)%Z;
  tuned_seen : (last b <= lastSeen b <= now)%Z;
}.

Definition limiter_ok l now : Prop :=
  ∀ key b, l !! key = Some b → (0 < limit key)%Z ∧ tuned key b now.

(** The requests ask for each key at the rate in force. *)
Definition reqs_ok (reqs : list Requirement) : Prop :=
  ∀ req, req ∈ reqs → (0 < Req_PerMinute req)%Z → Req_PerMinute req = limit (Req_Key req).

Lemma limitQ_pos key : (0 < limit key)%Z → 0 < limitQ key.
Proof. intros H. unfold limitQ. change 0 with (inject_Z 0). by rewrite <- Zlt_Qlt. Qed.

Lemma gain_spec key d :
  gain key d == inject_Z d * (limitQ key / inject_Z 60 / inject_Z 1000000000).
Proof. unfold gain. rewrite Seconds_Q. field. Qed.

Lemma gain_add key d e : gain key (d + e) == gain key d + gain key e.
Proof. rewrite !gain_spec, inject_Z_plus. ring. Qed.

Lemma gain_nonneg key d : (0 < limit key)%Z → (0 <= d)%Z → 0 <= gain key d.
Proof.
  intros H%limitQ_pos Hd. rewrite gain_spec. apply Qmult_le_0_compat.
  - change 0 with (inject_Z 0). by rewrite <- Zle_Qle.
  - repeat (apply Qle_shift_div_l; [done|]; rewrite Qmult_0_l). apply Qlt_le_weak, H.
Qed.

Lemma gain_mono key d e : (0 < limit key)%Z → (d <= e)%Z → gain key d <= gain key e.
Proof.
  intros H Hde. replace e with (d + (e - d))%Z by lia. rewrite gain_add.
  assert (0 <= gain key (e - d)) by (apply gain_nonneg; [done|lia]). lra.
Qed.

Lemma gain_minute key : gain key Minute == limitQ key.
Proof.
  rewrite gain_spec. assert (inject_Z Minute == inject_Z 60 * inject_Z 1000000000) as -> by done.
  field.
Qed.

Lemma time_sub_bounds now t :
  (t <= now)%Z → (0 <= time_sub now t <= now - t)%Z.
Proof. unfold time_sub, min_duration, max_duration, two63. lia. Qed.

Lemma time_sub_exact now t : (0 <= now - t <= max_duration)%Z → time_sub now t = (now - t)%Z.
Proof. unfold time_sub, min_duration. unfold max_duration, two63 in *. lia. Qed.

Lemma Seconds_pos d : num_ltb (of_Z 0 : Q) (Seconds d) = (0 <? d)%Z.
Proof.
  apply Bool.eq_iff_eq_true. rewrite num_ltb_Q, Z.ltb_lt, Seconds_Q. simpl.
  rewrite Zlt_Qlt. unfold Qdiv.
  assert (inject_Z 0 == inject_Z 0 * / inject_Z 1000000000) as E by done. rewrite E at 1.
  by rewrite Qmult_lt_r.
Qed.

(** What [get] makes of a bucket that is kept at its key's rate. *)
Lemma refill_spec key b now :
  tuned key b now → (0 < limit key)%Z →
  let b' := refill b now in
  tuned key b' now ∧ last b' = now ∧ lastSeen b' = now ∧
  tokens b' <= tokens b + gain key (time_sub now (last b)) ∧
  (tokens b' == limitQ key ∨ tokens b' == tokens b + gain key (time_sub now (last b))).
Proof.
  intros [Hp Hb Ht Hl Hs] Hpos. unfold refill. rewrite Seconds_pos.
  pose proof (time_sub_bounds now (last b) Hl).
  destruct (0 <? time_sub now (last b))%Z eqn:He; to_prop; simpl.
  - pose proof (num_min_Q (burst b)
      (tokens b + Seconds (time_sub now (last b)) * perSec b)) as (H1 & H2 & H3).
    set (m := num_min (burst b) _) in *. change (if Qle_bool _ _ then _ else _) with m.
    assert (Seconds (time_sub now (last b)) * perSec b == gain key (time_sub now (last b))) as Hg
      by (unfold gain; by rewrite Hp).
    rewrite Hg, Hb in *. split_and!; try done.
  - assert (last b = now) as Heq.
    { unfold time_sub, min_duration, max_duration, two63 in *. lia. }
    assert (time_sub now (last b) = 0)%Z as -> by lia.
    assert (gain key 0 == 0) as Hg by (rewrite gain_spec; change (inject_Z 0) with 0; ring).
    rewrite Hg. split_and!; try done; try lia; try lra.
Qed.

Lemma bucket_at_some l key b now :
  tuned key b now → (0 < limit key)%Z → l !! key = Some b →
  bucket_at l key (limit key) now = refill b now.
Proof.
  intros [Hp Hb _ _ _] Hpos Hl. unfold bucket_at, rate. rewrite Hl. cbn [num_eqb num_div of_Z Num_Q].
  assert (Qeq_bool (perSec b) (inject_Z (limit key) / inject_Z 60) = true) as ->; [|done].
  by apply Qeq_bool_iff.
Qed.

Lemma tuned_later key b now later : tuned key b now → (now <= later)%Z → tuned key b later.
Proof. intros [? ? ? ? ?] ?. split; done || lia. Qed.

Lemma limiter_ok_later l now later : limiter_ok l now → (now <= later)%Z → limiter_ok l later.
Proof. intros Hl Hle key b Hb. destruct (Hl key b Hb). eauto using tuned_later. Qed.

Lemma bucket_at_tuned l key now :
  limiter_ok l now → (0 < limit key)%Z →
  let b := bucket_at l key (limit key) now in
  tuned key b now ∧ last b = now ∧ lastSeen b = now.
Proof.
  intros Hok Hpos. destruct (l !! key) as [b|] eqn:Hl.
  - destruct (Hok key b Hl) as [_ Ht]. rewrite (bucket_at_some l key b now) by done.
    destruct (refill_spec key b now Ht Hpos) as (? & ? & ? & _). done.
  - unfold bucket_at, rate. rewrite Hl. simpl. split_and!; try done.
    split; simpl; first [done|apply Qle_refl|lia].
Qed.

Lemma bal_none l key now : l !! key = None → bal l key now == limitQ key.
Proof. intros Hl. unfold bal, bucket_at, rate. by rewrite Hl. Qed.

Lemma bal_some l key b now :
  limiter_ok l now → l !! key = Some b →
  bal l key now <= limitQ key ∧
  bal l key now <= tokens b + gain key (time_sub now (last b)) ∧
  (bal l key now == limitQ key ∨
   bal l key now == tokens b + gain key (time_sub now (last b))).
Proof.
  intros Hok Hl. destruct (Hok key b Hl) as [Hpos Ht]. unfold bal.
  rewrite (bucket_at_some l key b now) by done.
  destruct (refill_spec key b now Ht Hpos) as ([_ _ ? _ _] & _ & _ & ? & ?). done.
Qed.

Lemma bal_le_limit l key now : limiter_ok l now → bal l key now <= limitQ key.
Proof.
  intros Hok. destruct (l !! key) as [b|] eqn:Hl.
  - by destruct (bal_some l key b now Hok Hl).
  - rewrite bal_none by done. apply Qle_refl.
Qed.

(** A bucket just brought up to date holds what is stored in it. *)
Lemma bal_stored l key b now :
  tuned key b now → (0 < limit key)%Z → last b = now → bal (<[key := b]> l) key now == tokens b.
Proof.
  intros Ht Hpos Hl. unfold bal.
  rewrite (bucket_at_some _ key b now Ht Hpos) by apply lookup_insert_eq.
  unfold refill. rewrite Seconds_pos, Hl.
  assert (time_sub now now = 0)%Z as -> by (unfold time_sub, min_duration, max_duration, two63; lia).
  simpl. apply Qeq_refl.
Qed.

Lemma bal_other l key key' b now : key ≠ key' → bal (<[key' := b]> l) key now = bal l key now.
Proof. intros Hne. unfold bal, bucket_at, rate. by rewrite lookup_insert_ne. Qed.

Lemma limiter_ok_insert l key b now :
  limiter_ok l now → tuned key b now → (0 < limit key)%Z → limiter_ok (<[key := b]> l) now.
Proof. intros Hok Ht Hpos k b' [[<- <-]|[_ Hl]]%lookup_insert_Some; [done|by apply Hok]. Qed.

(** Time only adds what drips in. *)
Lemma bal_later l key now later :
  limiter_ok l now → (0 < limit key)%Z → (now <= later)%Z →
  bal l key later <= bal l key now + gain key (later - now).
Proof.
  intros Hok Hpos Hle. assert (0 <= gain key (later - now)) as Hg by (apply gain_nonneg; [done|lia]).
  pose proof (bal_le_limit l key later (limiter_ok_later _ _ _ Hok Hle)).
  destruct (l !! key) as [b|] eqn:Hl.
  - destruct (bal_some l key b now Hok Hl) as (_ & _ & [H1|H1]); [lra|].
    destruct (bal_some l key b later) as (_ & H2 & _); [by eapply limiter_ok_later|done|].
    destruct (Hok key b Hl) as [_ [_ _ _ Hlast _]].
    assert (gain key (time_sub later (last b)) <=
            gain key (time_sub now (last b)) + gain key (later - now)); [|lra].
    rewrite <- gain_add. apply gain_mono; [done|].
    unfold time_sub, min_duration, max_duration, two63 in *. lia.
  - pose proof (bal_none l key later Hl). pose proof (bal_none l key now Hl). lra.
Qed.

(** [later] is less than the longest duration, some 292 years, after [now] and
    after every bucket's last refill. *)
Definition within l now later : Prop :=
  (later - now <= max_duration)%Z ∧
  ∀ key b, l !! key = Some b → (later - last b <= max_duration)%Z.

(** Two limiters that answer alike from [now] on. *)
Definition agree now l l' : Prop :=
  (∀ key, bal l' key now == bal l key now) ∧
  (∀ key later, (now <= later)%Z → within l now later → bal l' key later == bal l key later) ∧
  (∀ later, within l now later → within l' now later).

Lemma agree_refl now l : agree now l l.
Proof. split_and!; intros; done || apply Qeq_refl. Qed.

Lemma agree_trans now l1 l2 l3 : agree now l1 l2 → agree now l2 l3 → agree now l1 l3.
Proof.
  intros (H1 & H2 & H3) (H4 & H5 & H6). split_and!; [intros k|intros k later Ht Hw|auto].
  - by rewrite H4.
  - rewrite H5; auto.
Qed.

(** Bringing a bucket up to date changes no answer. *)
Lemma touch_agree l key now :
  limiter_ok l now → (0 < limit key)%Z →
  let l' := <[key := bucket_at l key (limit key) now]> l in
  limiter_ok l' now ∧ agree now l l'.
Proof.
  intros Hok Hpos l'. destruct (bucket_at_tuned l key now Hok Hpos) as (Ht & Hl & Hs).
  assert (limiter_ok l' now) as Hok' by by apply limiter_ok_insert.
  split; [done|]. split_and!.
  - intros k. destruct (decide (k = key)) as [->|]; [|unfold l'; by rewrite bal_other].
    unfold l'. by rewrite bal_stored.
  - intros k later Hle [Hw1 Hw2]. destruct (decide (k = key)) as [->|]; [|unfold l'; by rewrite bal_other].
    assert (l' !! key = Some (bucket_at l key (limit key) now)) as Hl' by apply lookup_insert_eq.
    destruct (bal_some l' key _ later (limiter_ok_later _ _ _ Hok' Hle) Hl') as (A1 & A2 & A3).
    fold (bal l key now) in A2, A3. rewrite Hl, time_sub_exact in A2, A3 by lia.
    assert (0 <= gain key (later - now)) as Hg by (apply gain_nonneg; [done|lia]).
    destruct (l !! key) as [b|] eqn:Hb.
    + destruct (Hok key b Hb) as [_ [_ _ Htok Hlast _]].
      destruct (bal_some l key b now Hok Hb) as (B1 & B2 & B3).
      destruct (bal_some l key b later (limiter_ok_later _ _ _ Hok Hle) Hb) as (C1 & C2 & C3).
      specialize (Hw2 key b Hb). rewrite time_sub_exact in B2, B3, C2, C3 by lia.
      assert (gain key (later - last b) == gain key (now - last b) + gain key (later - now)) as E.
      { rewrite <- gain_add. by replace (now - last b + (later - now))%Z with (later - last b)%Z by lia. }
      destruct A3, B3, C3; lra.
    + pose proof (bal_none l key now Hb). pose proof (bal_none l key later Hb).
      destruct A3; lra.
  - intros later [Hw1 Hw2]. split; [done|].
    intros k b [[<- <-]|[_ Hk]]%lookup_insert_Some; [lia|eauto].
Qed.

(** A requirement holds of the balances. *)
Definition satisfied l (req : Requirement) now : Prop :=
  (Req_PerMinute req <= 0)%Z ∨
  if Req_Take req then 1 <= bal l (Req_Key req) now else 0 < bal l (Req_Key req) now.

Lemma satisfied_agree l l' req now : agree now l l' → satisfied l' req now ↔ satisfied l req now.
Proof. intros (Hb & _). unfold satisfied. destruct (Req_Take req); by rewrite (Hb (Req_Key req)). Qed.

Lemma holds_bal take l key now :
  holds take (tokens (bucket_at l key (limit key) now)) = true ↔
  if take then 1 <= bal l key now else 0 < bal l key now.
Proof. unfold holds. destruct take; [apply num_leb_Q|apply num_ltb_Q]. Qed.

Lemma admit_check_spec l reqs now i :
  limiter_ok l now → reqs_ok reqs →
  let '(r, l') := admit_check l reqs now i in
  limiter_ok l' now ∧ agree now l l' ∧
  (r = (-1)%Z ∧ (∀ req, req ∈ reqs → satisfied l req now) ∨
   ∃ j req, r = (i + Z.of_nat j)%Z ∧ reqs !! j = Some req ∧ ¬ satisfied l req now ∧
     ∀ j' req', (j' < j)%nat → reqs !! j' = Some req' → satisfied l req' now).
Proof.
  intros Hok Hreqs. revert l i Hok. induction reqs as [|req reqs IH]; intros l i Hok.
  { simpl. split; [done|]. split; [apply agree_refl|]. left. split; [done|]. set_solver. }
  assert (reqs_ok reqs) as Hreqs' by (intros r Hr; apply Hreqs; by right).
  specialize (IH Hreqs'). cbn [admit_check].
  assert (∀ l', agree now l l' → satisfied l req now →
    (let '(r, l'') := admit_check l' reqs now (i + 1) in
     limiter_ok l'' now ∧ agree now l' l'' ∧
     (r = (-1)%Z ∧ (∀ req, req ∈ reqs → satisfied l' req now) ∨
      ∃ j req, r = (i + 1 + Z.of_nat j)%Z ∧ reqs !! j = Some req ∧ ¬ satisfied l' req now ∧
        ∀ j' req', (j' < j)%nat → reqs !! j' = Some req' → satisfied l' req' now)) →
    (let '(r, l'') := admit_check l' reqs now (i + 1) in
     limiter_ok l'' now ∧ agree now l l'' ∧
     (r = (-1)%Z ∧ (∀ r, r ∈ req :: reqs → satisfied l r now) ∨
      ∃ j r', r = (i + Z.of_nat j)%Z ∧ (req :: reqs) !! j = Some r' ∧ ¬ satisfied l r' now ∧
        ∀ j' req', (j' < j)%nat → (req :: reqs) !! j' = Some req' → satisfied l req' now)))
    as Hnext.
  { intros l' Hag Hsat. destruct (admit_check l' reqs now (i + 1)) as [r l''].
    intros (? & Hag' & H). split; [done|]. split; [by eapply agree_trans|].
    setoid_rewrite (satisfied_agree l l') in H; [|done..].
    destruct H as [[-> Hall]|(j & r' & -> & Hj & Hn & Hbefore)].
    - left. split; [done|]. intros r [->|Hr]%elem_of_cons; auto.
    - right. exists (S j), r'. split; [lia|]. split; [done|]. split; [done|].
      intros [|j'] r'' Hlt Hr''; simpl in Hr''; [by simplify_eq|]. eapply Hbefore; [|done]. lia. }
  destruct (Req_PerMinute req <=? 0)%Z eqn:Hp; to_prop.
  { apply Hnext; [apply agree_refl|by left|by apply IH]. }
  assert (Req_PerMinute req = limit (Req_Key req)) as Hlim by (apply Hreqs; [left|lia]).
  unfold get. rewrite Hlim in *.
  destruct (touch_agree l (Req_Key req) now Hok Hp) as [Hok' Hag].
  destruct (holds _ _) eqn:Hh; simpl.
  - apply Hnext; [done| |by apply IH]. right. by apply holds_bal.
  - split; [done|]. split; [done|]. right. exists 0%nat, req.
    split; [lia|]. split; [done|]. split; [|intros; lia].
    intros [?|Hs]; [lia|]. apply holds_bal in Hs. congruence.
Qed.

(** How many units of a key's bucket the requirements take. *)
Definition takes key (reqs : list Requirement) : Z :=
  Z.of_nat (length (filter (λ req, Req_Key req = key ∧ (0 < Req_PerMinute req)%Z ∧
    Req_Take req = true) reqs)).

Lemma takes_cons key req reqs :
  takes key (req :: reqs) =
  ((if bool_decide (Req_Key req = key ∧ (0 < Req_PerMinute req)%Z ∧ Req_Take req = true)
    then 1 else 0) + takes key reqs)%Z.
Proof.
  unfold takes. rewrite filter_cons. case_decide as Hd.
  - rewrite bool_decide_eq_true_2 by done. simpl length. lia.
  - rewrite bool_decide_eq_false_2 by done. lia.
Qed.

(** Taking [n] from a bucket brought up to date. *)
Lemma spend_spec l key (n : Q) now :
  limiter_ok l now → (0 < limit key)%Z → 0 <= n →
  let b := bucket_at l key (limit key) now in
  let l' := <[key := set_tokens b (tokens b - n)]> (<[key := b]> l) in
  limiter_ok l' now ∧
  ∀ k, bal l' k now == bal l k now - (if bool_decide (k = key) then n else 0).
Proof.
  intros Hok Hpos Hn b l'. destruct (bucket_at_tuned l key now Hok Hpos) as (Ht & Hl & Hs).
  destruct (touch_agree l key now Hok Hpos) as [Hok1 (Hag & _)].
  assert (tuned key (set_tokens b (tokens b - n)) now) as Ht'.
  { destruct Ht. split; try done. simpl. unfold b. lra. }
  split; [by apply limiter_ok_insert|]. intros k. case_bool_decide as Hk.
  - subst k. unfold l'. rewrite bal_stored by done. simpl. unfold b. fold (bal l key now). lra.
  - unfold l'. rewrite bal_other by done. pose proof (Hag k) as E. fold b in E. lra.
Qed.

Lemma inject_Z_0_1 (b : bool) : inject_Z (if b then 1 else 0)%Z = if b then 1 else 0.
Proof. by destruct b. Qed.

Lemma admit_take_spec l reqs now :
  limiter_ok l now → reqs_ok reqs →
  limiter_ok (admit_take l reqs now) now ∧
  ∀ key, bal (admit_take l reqs now) key now == bal l key now - inject_Z (takes key reqs).
Proof.
  intros Hok Hreqs. revert l Hok. induction reqs as [|req reqs IH]; intros l Hok.
  { split; [done|]. intros key. simpl. change (inject_Z (takes key [])) with 0. ring. }
  assert (reqs_ok reqs) as Hreqs' by (intros r Hr; apply Hreqs; by right).
  specialize (IH Hreqs'). cbn [admit_take]. setoid_rewrite takes_cons.
  setoid_rewrite inject_Z_plus. setoid_rewrite inject_Z_0_1.
  destruct ((Req_PerMinute req <=? 0)%Z || negb (Req_Take req)) eqn:Hc.
  - destruct (IH l Hok) as [H1 H2]. split; [done|]. intros key. rewrite H2.
    rewrite bool_decide_eq_false_2; [ring|]. intros (_ & ? & Ht).
    rewrite Ht, orb_false_r in Hc. to_prop. lia.
  - to_prop. assert (Req_PerMinute req = limit (Req_Key req)) as Hlim by (apply Hreqs; [left|lia]).
    unfold get, take_one. rewrite Hlim in *.
    destruct (spend_spec l (Req_Key req) 1 now Hok) as [Hok' Hb]; [lia|done|].
    destruct (IH _ Hok') as [H1 H2]. split; [done|]. intros key. rewrite H2, Hb.
    assert (bool_decide (key = Req_Key req) =
      bool_decide (Req_Key req = key ∧ (0 < limit (Req_Key req))%Z ∧ Req_Take req = true)) as ->.
    { apply bool_decide_ext. split; [intros ->; split_and!; [done|lia|done]|by intros [-> _]]. }
    ring.
Qed.

(** How many requirements charge a key's bucket. *)
Definition charges key (reqs : list Requirement) : Z :=
  Z.of_nat (length (filter (λ req, Req_Key req = key ∧ (0 < Req_PerMinute req)%Z) reqs)).

Lemma charges_cons key req reqs :
  charges key (req :: reqs) =
  ((if bool_decide (Req_Key req = key ∧ (0 < Req_PerMinute req)%Z) then 1 else 0) +
   charges key reqs)%Z.
Proof.
  unfold charges. rewrite filter_cons. case_decide as Hd.
  - rewrite bool_decide_eq_true_2 by done. simpl length. lia.
  - rewrite bool_decide_eq_false_2 by done. lia.
Qed.

Lemma ChargeAll_spec l reqs (n : Q) now :
  limiter_ok l now → reqs_ok reqs → 0 <= n →
  limiter_ok (ChargeAll l reqs n now) now ∧
  ∀ key, bal (ChargeAll l reqs n now) key now == bal l key now - n * inject_Z (charges key reqs).
Proof.
  intros Hok Hreqs Hn. unfold ChargeAll. destruct (num_eqb n _) eqn:Hz.
  { apply Qeq_bool_iff in Hz. split; [done|]. intros key. rewrite Hz.
    change (of_Z 0) with 0. ring. }
  clear Hz. revert l Hok. induction reqs as [|req reqs IH]; intros l Hok.
  { split; [done|]. intros key. simpl. change (inject_Z (charges key [])) with 0. ring. }
  assert (reqs_ok reqs) as Hreqs' by (intros r Hr; apply Hreqs; by right).
  specialize (IH Hreqs'). cbn [foldl]. setoid_rewrite charges_cons.
  setoid_rewrite inject_Z_plus. setoid_rewrite inject_Z_0_1.
  destruct (Req_PerMinute req >? 0)%Z eqn:Hc; to_prop.
  - assert (Req_PerMinute req = limit (Req_Key req)) as Hlim by (apply Hreqs; [left|lia]).
    unfold get at 2 4. rewrite Hlim in *.
    destruct (spend_spec l (Req_Key req) n now Hok) as [Hok' Hb]; [lia|done|].
    destruct (IH _ Hok') as [H1 H2]. split; [done|]. intros key. rewrite H2, Hb.
    assert (bool_decide (key = Req_Key req) =
      bool_decide (Req_Key req = key ∧ (0 < limit (Req_Key req))%Z)) as ->.
    { apply bool_decide_ext. split; [intros ->; split; [done|lia]|by intros [-> _]]. }
    destruct (bool_decide _); ring.
  - destruct (IH l Hok) as [H1 H2]. split; [done|]. intros key. rewrite H2.
    rewrite bool_decide_eq_false_2 by lia. ring.
Qed.

(** Everything [Admit] does. *)
Lemma Admit_spec l reqs now :
  limiter_ok l now → reqs_ok reqs →
  let '(i, l') := Admit l reqs now in
  limiter_ok l' now ∧
  (i = (-1)%Z ∧ (∀ req, req ∈ reqs → satisfied l req now) ∧
     (∀ key, bal l' key now == bal l key now - inject_Z (takes key reqs)) ∨
   ∃ j req, i = Z.of_nat j ∧ reqs !! j = Some req ∧ ¬ satisfied l req now ∧
     (∀ j' req', (j' < j)%nat → reqs !! j' = Some req' → satisfied l req' now) ∧
     agree now l l').
Proof.
  intros Hok Hreqs. unfold Admit. pose proof (admit_check_spec l reqs now 0 Hok Hreqs) as H.
  destruct (admit_check l reqs now 0) as [r l1].
  destruct H as (Hok1 & Hag & [[-> Hall]|(j & req & -> & H1 & H2 & H3)]).
  - simpl. destruct (admit_take_spec l1 reqs now Hok1 Hreqs) as [Hok2 Hb]. split; [done|].
    left. split; [done|]. split; [done|]. intros key. rewrite Hb.
    pose proof (proj1 Hag key). lra.
  - rewrite Z.add_0_l. assert ((Z.of_nat j >=? 0)%Z = true) as -> by (rewrite Z.geb_leb; apply Z.leb_le, Nat2Z.is_nonneg). split; [done|].
    right. exists j, req. by split_and!.
Qed.

(** *** Runs *)

(** What can happen to a limiter, one step at a time. *)
Inductive limiter_op :=
  | OpAllow (key : string) (perMinute : Z)
  | OpAdmit (reqs : list Requirement)
  | OpCharge (reqs : list Requirement) (n : Q)
  | OpRemaining (key : string) (perMinute : Z)
  | OpRetry (key : string) (perMinute : Z)
  | OpSweep (idle : Z).

Definition op_step (l : gmap string (bucket (T := Q))) (op : limiter_op) (now : Z)
    : Z * gmap string bucket :=
  match op with
  | OpAllow key perMinute => let '(ok, l) := Allow l key perMinute now in (if ok then -1 else 0, l)%Z
  | OpAdmit reqs => Admit l reqs now
  | OpCharge reqs n => (0%Z, ChargeAll l reqs n now)
  | OpRemaining key perMinute => Remaining l key perMinute now
  | OpRetry key perMinute => Retry l key perMinute now
  | OpSweep idle => (0%Z, Sweep l idle now)
  end.

(** The units of [key]'s bucket an operation admits requests for. *)
Definition admitted key (op : limiter_op) (answer : Z) : Z :=
  match op with
  | OpAllow k perMinute => if (answer =? -1)%Z && bool_decide (k = key ∧ (0 < perMinute)%Z) then 1 else 0
  | OpAdmit reqs => if (answer =? -1)%Z then takes key reqs else 0
  | _ => 0
  end.

(** A run of operations, each with its instant: the units of [key] admitted,
    and the buckets at the end. *)
Fixpoint run key (ops : list (Z * limiter_op)) l : Z * gmap string bucket :=
  match ops with
  | [] => (0%Z, l)
  | (now, op) :: ops =>
      let '(answer, l) := op_step l op now in
      let '(n, l) := run key ops l in
      ((admitted key op answer + n)%Z, l)
  end.

(** The operations as the gateway makes them: each names a key with the limit
    it has, a request takes at most one unit of a key, a charge takes something
    away, and a sweep forgets what nobody touched for a minute at least. *)
Definition op_ok key (op : limiter_op) : Prop :=
  match op with
  | OpAdmit reqs => reqs_ok reqs ∧ (takes key reqs <= 1)%Z
  | OpCharge reqs n => reqs_ok reqs ∧ 0 <= n
  | OpAllow k perMinute | OpRemaining k perMinute | OpRetry k perMinute => (0 < perMinute)%Z → perMinute = limit k
  | OpSweep idle => (Minute <= idle)%Z
  end.

Lemma takes_satisfied key reqs l now :
  (0 < takes key reqs)%Z → reqs_ok reqs → (∀ req, req ∈ reqs → satisfied l req now) →
  1 <= bal l key now.
Proof.
  unfold takes. intros Hp Hreqs Hall. destruct (filter _ reqs) as [|req rest] eqn:Hf; [simpl in Hp; lia|].
  assert (req ∈ filter (λ req, Req_Key req = key ∧ (0 < Req_PerMinute req)%Z ∧
    Req_Take req = true) reqs) as ((<- & Hpos & Ht) & Hin)%list_elem_of_filter
    by (rewrite Hf; left).
  destruct (Hall req Hin) as [?|Hs]; [lia|]. by rewrite Ht in Hs.
Qed.

Lemma Sweep_lookup l idle now key b :
  Sweep l idle now !! key = Some b ↔ l !! key = Some b ∧ (time_sub now (lastSeen b) <= idle)%Z.
Proof. unfold Sweep. by rewrite map_lookup_filter_Some. Qed.

(** Every bucket of [l'] is one of [l], or was brought up to date at [now]. *)
Definition stamped now l l' : Prop :=
  ∀ key, l' !! key = l !! key ∨ ∃ b, l' !! key = Some b ∧ last b = now.

Lemma stamped_refl now l : stamped now l l.
Proof. by left. Qed.

Lemma stamped_trans now l1 l2 l3 : stamped now l1 l2 → stamped now l2 l3 → stamped now l1 l3.
Proof. intros H1 H2 key. destruct (H2 key) as [->|?]; [apply H1|by right]. Qed.

Lemma stamped_insert now l key b : last b = now → stamped now l (<[key := b]> l).
Proof.
  intros Hb k. destruct (decide (k = key)) as [->|]; [right|left; by rewrite lookup_insert_ne].
  exists b. by rewrite lookup_insert_eq.
Qed.

Lemma bucket_at_last l key now :
  limiter_ok l now → (0 < limit key)%Z → last (bucket_at l key (limit key) now) = now.
Proof. intros Hok Hpos. by destruct (bucket_at_tuned l key now Hok Hpos) as (_ & ? & _). Qed.

Lemma admit_check_stamped l reqs now i :
  limiter_ok l now → reqs_ok reqs → stamped now l (admit_check l reqs now i).2.
Proof.
  revert l i. induction reqs as [|req reqs IH]; intros l i Hok Hreqs; [apply stamped_refl|].
  assert (reqs_ok reqs) as Hreqs' by (intros r Hr; apply Hreqs; by right).
  cbn [admit_check]. destruct (Req_PerMinute req <=? 0)%Z eqn:Hp; [by apply IH|]. to_prop.
  assert (Req_PerMinute req = limit (Req_Key req)) as Hlim by (apply Hreqs; [left|lia]).
  unfold get. rewrite Hlim in *. destruct (touch_agree l (Req_Key req) now Hok Hp) as [Hok' _].
  assert (stamped now l (<[Req_Key req := bucket_at l (Req_Key req) (limit (Req_Key req)) now]> l))
    as Hst by (by apply stamped_insert, bucket_at_last).
  destruct (negb _); [done|]. eapply stamped_trans; [exact Hst|by apply IH].
Qed.

Lemma spend_stamped l key t now :
  limiter_ok l now → (0 < limit key)%Z →
  let b := bucket_at l key (limit key) now in
  stamped now l (<[key := set_tokens b t]> (<[key := b]> l)).
Proof. intros Hok Hpos b. rewrite insert_insert_eq. by apply stamped_insert, bucket_at_last. Qed.

Lemma admit_take_stamped l reqs now :
  limiter_ok l now → reqs_ok reqs → stamped now l (admit_take l reqs now).
Proof.
  revert l. induction reqs as [|req reqs IH]; intros l Hok Hreqs; [apply stamped_refl|].
  assert (reqs_ok reqs) as Hreqs' by (intros r Hr; apply Hreqs; by right).
  cbn [admit_take]. destruct ((Req_PerMinute req <=? 0)%Z || _) eqn:Hc; [by apply IH|]. to_prop.
  assert (Req_PerMinute req = limit (Req_Key req)) as Hlim by (apply Hreqs; [left|lia]).
  unfold get, take_one. rewrite Hlim in *.
  destruct (spend_spec l (Req_Key req) 1 now Hok) as [Hok' _]; [lia|done|].
  eapply stamped_trans; [apply (spend_stamped l (Req_Key req)); [done|lia]|by apply IH].
Qed.

Lemma ChargeAll_stamped l reqs (n : Q) now :
  limiter_ok l now → reqs_ok reqs → 0 <= n → stamped now l (ChargeAll l reqs n now).
Proof.
  intros Hok Hreqs Hn. unfold ChargeAll. destruct (num_eqb n _); [apply stamped_refl|].
  revert l Hok. induction reqs as [|req reqs IH]; intros l Hok; [apply stamped_refl|].
  assert (reqs_ok reqs) as Hreqs' by (intros r Hr; apply Hreqs; by right).
  cbn [foldl]. destruct (Req_PerMinute req >? 0)%Z eqn:Hc; [|by apply IH]. to_prop.
  assert (Req_PerMinute req = limit (Req_Key req)) as Hlim by (apply Hreqs; [left|lia]).
  unfold get at 2. rewrite Hlim in *.
  destruct (spend_spec l (Req_Key req) n now Hok) as [Hok' _]; [lia|done|].
  eapply stamped_trans; [apply (spend_stamped l (Req_Key req)); [done|lia]|by apply IH].
Qed.

(** *** Room

    What a key's bucket could still let through if its debt were forgiven: a
    sweep may forgive it, and nothing else adds to it but time. *)
Definition room l key now : Q :=
  match l !! key with
  | None => limitQ key
  | Some b => Qmin (limitQ key) (Qmax 0 (tokens b) + gain key (time_sub now (last b)))
  end.

Lemma Qmax_0 q : q <= 0 ∧ Qmax 0 q == 0 ∨ 0 <= q ∧ Qmax 0 q == q.
Proof. destruct (Q.max_spec 0 q) as [[? ?]|[? ?]]; [right|left]; split; (done || lra). Qed.

Lemma Qmin_cases p q : p <= q ∧ Qmin p q == p ∨ q <= p ∧ Qmin p q == q.
Proof. destruct (Q.min_spec p q) as [[? ?]|[? ?]]; [left|right]; split; (done || lra). Qed.

Lemma room_range l key now : limiter_ok l now → (0 < limit key)%Z →
  0 <= room l key now ∧ bal l key now <= room l key now ∧ room l key now <= limitQ key.
Proof.
  intros Hok Hpos. pose proof (limitQ_pos key Hpos). unfold room. destruct (l !! key) as [b|] eqn:Hl.
  - destruct (Hok key b Hl) as [_ [_ _ _ Hlast _]].
    assert (0 <= gain key (time_sub now (last b))) by (by apply gain_nonneg, time_sub_bounds).
    destruct (bal_some l key b now Hok Hl) as (H1 & H2 & _).
    destruct (Qmax_0 (tokens b)) as [[? ?]|[? ?]];
      destruct (Qmin_cases (limitQ key) (Qmax 0 (tokens b) + gain key (time_sub now (last b)))) as [[? ?]|[? ?]]; split_and!; lra.
  - pose proof (bal_none l key now Hl). split_and!; lra.
Qed.

(** A bucket brought up to date has what it holds. *)
Lemma room_stamped_at l key b now : limiter_ok l now → (0 < limit key)%Z → l !! key = Some b → last b = now →
  room l key now == Qmax 0 (bal l key now).
Proof.
  intros Hok Hpos Hl Hlast. destruct (Hok key b Hl) as [_ Ht]. pose proof (limitQ_pos key Hpos).
  pose proof (bal_stored l key b now Ht Hpos Hlast) as E. rewrite insert_id in E by done.
  destruct Ht as [_ _ Htok _ _]. unfold room. rewrite Hl, Hlast.
  assert (time_sub now now = 0)%Z as -> by (unfold time_sub, min_duration, max_duration, two63; lia).
  assert (gain key 0 == 0) as Hg by (rewrite gain_spec; change (inject_Z 0) with 0; ring).
  destruct (Qmax_0 (tokens b)) as [[? ?]|[? ?]], (Qmax_0 (bal l key now)) as [[? ?]|[? ?]];
    destruct (Qmin_cases (limitQ key) (Qmax 0 (tokens b) + gain key 0)) as [[? ?]|[? ?]]; lra.
Qed.

(** What is taken from a bucket that has it is taken from its room. *)
Lemma room_taken l l' key (n : Q) now :
  limiter_ok l now → limiter_ok l' now → (0 < limit key)%Z → stamped now l l' →
  0 <= n → n + bal l' key now <= bal l key now → n == 0 ∨ n <= bal l key now ∧ bal l' key now == bal l key now - n →
  n + room l' key now <= room l key now.
Proof.
  intros Hok Hok' Hpos Hst Hn Hle Hcase. destruct (room_range l key now Hok Hpos) as (Hr0 & Hrb & _).
  destruct (Hst key) as [E|(b & E & Hlast)].
  - assert (bal l' key now = bal l key now) as Eb by (unfold bal, bucket_at; by rewrite E).
    assert (room l' key now = room l key now) as Er by (unfold room; by rewrite E). rewrite Eb in *. rewrite Er. lra.
  - rewrite (room_stamped_at l' key b now) by done. destruct (Qmax_0 (bal l' key now)) as [[? ?]|[? ?]]; lra.
Qed.

Lemma room_later l key now later :
  limiter_ok l now → (0 < limit key)%Z → (now <= later)%Z →
  room l key later <= room l key now + gain key (later - now).
Proof.
  intros Hok Hpos Hle. assert (0 <= gain key (later - now)) as Hg by (apply gain_nonneg; [done|lia]).
  unfold room. destruct (l !! key) as [b|] eqn:Hl; [|lra]. destruct (Hok key b Hl) as [_ [_ _ _ Hlast _]].
  assert (gain key (time_sub later (last b)) <= gain key (time_sub now (last b)) + gain key (later - now)).
  { rewrite <- gain_add. apply gain_mono; [done|]. unfold time_sub, min_duration, max_duration, two63 in *. lia. }
  destruct (Qmin_cases (limitQ key) (Qmax 0 (tokens b) + gain key (time_sub later (last b)))) as [[? ?]|[? ?]],
    (Qmin_cases (limitQ key) (Qmax 0 (tokens b) + gain key (time_sub now (last b)))) as [[? ?]|[? ?]]; lra.
Qed.

Lemma room_sweep l idle now key :
  limiter_ok l now → (0 < limit key)%Z → (Minute <= idle)%Z →
  limiter_ok (Sweep l idle now) now ∧ room (Sweep l idle now) key now <= room l key now.
Proof.
  intros Hok Hpos Hidle. split; [intros k b [Hl _]%Sweep_lookup; by apply Hok|].
  unfold room. destruct (Sweep l idle now !! key) as [b|] eqn:Hs.
  { apply Sweep_lookup in Hs as [-> _]. apply Qle_refl. }
  destruct (l !! key) as [b|] eqn:Hl; [|apply Qle_refl]. destruct (Hok key b Hl) as [_ [_ _ _ Hlast Hseen]].
  destruct (decide (time_sub now (lastSeen b) <= idle)%Z) as [Hi|Hi].
  { assert (Sweep l idle now !! key = Some b) by by apply Sweep_lookup. congruence. }
  assert (gain key Minute <= gain key (time_sub now (last b))) as Hg.
  { apply gain_mono; [done|]. unfold time_sub, min_duration, max_duration, two63 in *. lia. }
  rewrite gain_minute in Hg. destruct (Qmax_0 (tokens b)) as [[? ?]|[? ?]];
    destruct (Qmin_cases (limitQ key) (Qmax 0 (tokens b) + gain key (time_sub now (last b)))) as [[? ?]|[? ?]]; lra.
Qed.

Lemma Admit_stamped l reqs now : limiter_ok l now → reqs_ok reqs → stamped now l (Admit l reqs now).2.
Proof.
  intros Hok Hreqs. unfold Admit. pose proof (admit_check_stamped l reqs now 0 Hok Hreqs) as Hc.
  pose proof (admit_check_spec l reqs now 0 Hok Hreqs) as Hc2.
  destruct (admit_check l reqs now 0) as [r l1]. destruct Hc2 as [Hok1 _].
  destruct (r >=? 0)%Z; [done|]. eapply stamped_trans; [done|by apply admit_take_stamped].
Qed.

(** [Allow] takes one unit, or finds less than one. *)
Lemma Allow_spec l k now : limiter_ok l now → (0 < limit k)%Z →
  let '(ok, l') := Allow l k (limit k) now in
  limiter_ok l' now ∧ stamped now l l' ∧ ok = negb (num_ltb (bal l k now) (of_Z 1)) ∧
  ∀ key, bal l' key now == bal l key now - (if ok && bool_decide (key = k) then 1 else 0).
Proof.
  intros Hok Hpos. unfold Allow, get. assert ((limit k <=? 0)%Z = false) as -> by (by apply Z.leb_gt).
  fold (bal l k now). destruct (num_ltb (bal l k now) (of_Z 1)) eqn:Hlt.
  - destruct (touch_agree l k now Hok Hpos) as [Hok' (Hag & _)].
    split_and!; [done|by apply stamped_insert, bucket_at_last|done|]. intros key. cbn [andb]. specialize (Hag key). lra.
  - unfold take_one. destruct (spend_spec l k 1 now Hok Hpos) as [Hok' Hb]; [lra|].
    split_and!; [done|by apply (spend_stamped l k)|done|]. intros key. cbn [andb]. specialize (Hb key). exact Hb.
Qed.

(** One operation: what it admits to a bucket is taken from the bucket's room. *)
Lemma op_step_spec key l op now :
  limiter_ok l now → (0 < limit key)%Z → op_ok key op →
  let '(answer, l') := op_step l op now in
  limiter_ok l' now ∧ inject_Z (admitted key op answer) + room l' key now <= room l key now.
Proof.
  intros Hok Hpos Hop.
  assert (∀ l' (n : Z), limiter_ok l' now → stamped now l l' → (0 <= n)%Z → inject_Z n + bal l' key now <= bal l key now →
    inject_Z n == 0 ∨ inject_Z n <= bal l key now ∧ bal l' key now == bal l key now - inject_Z n →
    limiter_ok l' now ∧ inject_Z n + room l' key now <= room l key now) as Htaken.
  { intros l' n Hok' Hst Hn Hle Hcase. split; [done|]. apply room_taken; try done.
    change 0 with (inject_Z 0). by rewrite <- Zle_Qle. }
  assert (limiter_ok l now ∧ inject_Z 0 + room l key now <= room l key now) as Hidle.
  { split; [done|]. change (inject_Z 0) with 0. lra. }
  assert (∀ k (per : Z), ((0 < per)%Z → per = limit k) → (per <=? 0)%Z = false →
    let l' := <[k := bucket_at l k per now]> l in limiter_ok l' now ∧ inject_Z 0 + room l' key now <= room l key now) as Hask.
  { intros k per Hper Hlt%Z.leb_gt. assert (per = limit k) as -> by auto.
    destruct (touch_agree l k now Hok Hlt) as [Hok' (Hag & _)]. specialize (Hag key).
    apply (Htaken _ 0%Z); [done|by apply stamped_insert, bucket_at_last|done|change (inject_Z 0) with 0; lra|by left]. }
  destruct op as [k per|reqs|reqs n|k per|k per|idle]; cbn [op_step admitted op_ok] in *.
  - destruct (per <=? 0)%Z eqn:Hp.
    { unfold Allow. rewrite Hp. rewrite bool_decide_eq_false_2 by lia. rewrite andb_false_r. exact Hidle. }
    assert (per = limit k) as -> by (apply Hop; lia). apply Z.leb_gt in Hp.
    pose proof (Allow_spec l k now Hok Hp) as Ha. destruct (Allow l k (limit k) now) as [ok l'].
    destruct Ha as (Hok' & Hst & -> & Hb). specialize (Hb key). destruct (num_ltb (bal l k now) (of_Z 1)) eqn:Hlt; cbn [negb andb] in *.
    + apply (Htaken l' 0%Z); [done..|change (inject_Z 0) with 0; lra|by left].
    + change (-1 =? -1)%Z with true. cbn [andb]. destruct (decide (k = key)) as [->|Hne].
      * rewrite (bool_decide_eq_true_2 (key = key)) in Hb by done. rewrite bool_decide_eq_true_2 by done.
        assert (1 <= bal l key now) as H1 by (by apply Qle_bool_iff, negb_false_iff).
        apply (Htaken l' 1%Z); [done..| |right]; change (inject_Z 1) with 1; [lra|split; lra].
      * rewrite (bool_decide_eq_false_2 (key = k)) in Hb by done. rewrite bool_decide_eq_false_2 by tauto.
        apply (Htaken l' 0%Z); [done..|change (inject_Z 0) with 0; lra|by left].
  - destruct Hop as [Hreqs Hone]. pose proof (Admit_spec l reqs now Hok Hreqs) as H. pose proof (Admit_stamped l reqs now Hok Hreqs) as Hst.
    destruct (Admit l reqs now) as [i l']. simpl in Hst.
    destruct H as [Hok' [(-> & Hall & Hbal)|(j & req & -> & _ & _ & _ & (Hag & _))]].
    + rewrite Z.eqb_refl. specialize (Hbal key). assert (0 <= takes key reqs)%Z as Htk by (unfold takes; lia).
      apply Htaken; [done..|lra|]. destruct (decide (takes key reqs = 0)%Z) as [E|E]; [left; by rewrite E|right].
      split; [|done]. assert (takes key reqs = 1)%Z as -> by lia. change (inject_Z 1) with 1. apply (takes_satisfied key reqs); [lia|done|done].
    + assert ((Z.of_nat j =? -1)%Z = false) as -> by (apply Z.eqb_neq; pose proof (Nat2Z.is_nonneg j); lia). specialize (Hag key).
      apply (Htaken l' 0%Z); [done..|change (inject_Z 0) with 0; lra|by left].
  - destruct Hop as (Hreqs & Hn). destruct (ChargeAll_spec l reqs n now Hok Hreqs Hn) as [Hok' Hbal]. specialize (Hbal key).
    assert (0 <= n * inject_Z (charges key reqs)).
    { apply Qmult_le_0_compat; [done|]. change 0 with (inject_Z 0). rewrite <- Zle_Qle. unfold charges. lia. }
    apply (Htaken _ 0%Z); [done|by apply ChargeAll_stamped|done|change (inject_Z 0) with 0; lra|by left].
  - unfold Remaining, get. destruct (per <=? 0)%Z eqn:Hp; [exact Hidle|by apply Hask].
  - unfold Retry, get. destruct (per <=? 0)%Z eqn:Hp; [exact Hidle|by apply Hask].
  - destruct (room_sweep l idle now key Hok Hpos Hop) as [Hok' Hr]. split; [done|]. change (inject_Z 0) with 0. lra.
Qed.

(** The operations come in order, the first no earlier than [t]. *)
Fixpoint ordered (t : Z) (ops : list (Z * limiter_op)) : Prop :=
  match ops with
  | [] => True
  | (now, _) :: ops => (t <= now)%Z ∧ ordered now ops
  end.

(** The instant of the last operation. *)
Fixpoint end_of (t : Z) (ops : list (Z * limiter_op)) : Z :=
  match ops with [] => t | (now, _) :: ops => end_of now ops end.

Lemma end_of_le t ops : ordered t ops → (t <= end_of t ops)%Z.
Proof.
  revert t. induction ops as [|[now op] ops IH]; intros t; simpl; [lia|].
  intros [? ?%IH]. lia.
Qed.

Lemma run_bound key l t ops :
  limiter_ok l t → (0 < limit key)%Z → ordered t ops → (∀ e, e ∈ ops → op_ok key e.2) →
  let '(n, l') := run key ops l in
  limiter_ok l' (end_of t ops) ∧
  inject_Z n + room l' key (end_of t ops) <= room l key t + gain key (end_of t ops - t).
Proof.
  revert l t. induction ops as [|[now op] ops IH]; intros l t Hok Hpos Hord Hops; simpl.
  { split; [done|]. rewrite Z.sub_diag, (gain_spec key 0). change (inject_Z 0) with 0. lra. }
  destruct Hord as [Hle Hord]. pose proof (room_later l key t now Hok Hpos Hle) as Hlater.
  assert (limiter_ok l now) as Hok1 by by eapply limiter_ok_later.
  pose proof (op_step_spec key l op now Hok1 Hpos (Hops (now, op) ltac:(left))) as H.
  destruct (op_step l op now) as [answer l1]. destruct H as (Hok2 & Hroom).
  specialize (IH l1 now Hok2 Hpos Hord ltac:(intros e He; apply Hops; by right)).
  destruct (run key ops l1) as [n l2]. destruct IH as [H1 H2]. split; [done|].
  rewrite inject_Z_plus. pose proof (end_of_le now ops Hord).
  assert (gain key (end_of now ops - t) ==
          gain key (now - t) + gain key (end_of now ops - now)) as Hg.
  { rewrite <- gain_add. by replace (now - t + (end_of now ops - now))%Z with (end_of now ops - t)%Z by lia. }
  lra.
Qed.

Lemma Retry_bal l key now :
  limiter_ok l now → (0 < limit key)%Z →
  let '(d, l') := Retry l key (limit key) now in
  let x := (1 - bal l key now) / (limitQ key / inject_Z 60) * inject_Z 1000000000 in
  agree now l l' ∧ limiter_ok l' now ∧ (∃ b, l' !! key = Some b ∧ last b = now) ∧
  (1 <= bal l key now ∧ d = 0%Z ∨
   bal l key now < 1 ∧ 0 < x ∧ inject_Z d <= x ∧ x < inject_Z (d + 1)).
Proof.
  intros Hok Hpos. unfold Retry, get.
  assert ((limit key <=? 0)%Z = false) as -> by (apply Z.leb_gt; lia).
  destruct (touch_agree l key now Hok Hpos) as [Hok' Hag].
  destruct (bucket_at_tuned l key now Hok Hpos) as ([Hps _ _ _ _] & Hlast & _).
  split; [done|]. split; [done|]. split.
  { eexists. split; [apply lookup_insert_eq|done]. }
  pose proof (limitQ_pos key Hpos) as Hl.
  assert (0 < limitQ key / inject_Z 60) as Hr by (apply Qlt_shift_div_l; [done|lra]).
  unfold retryAfter. fold (bal l key now).
  destruct (num_leb (of_Z 1) (bal l key now)) eqn:H1; cbn [orb].
  { left. split; [by apply num_leb_Q|done]. }
  right. assert (bal l key now < 1) as Hlt by (by apply Qle_bool_false).
  match goal with |- context [num_eqb ?p ?z] => assert (num_eqb p z = false) as -> end.
  { destruct (num_eqb _ _) eqn:E; [|done]. apply Qeq_bool_iff in E. rewrite E in Hps.
    change (of_Z 0) with 0 in Hps. lra. }
  cbn [num_mul num_div num_sub of_Z Num_Q].
  set (x := (1 - bal l key now) / (limitQ key / inject_Z 60) * inject_Z 1000000000).
  set (y := (inject_Z 1 - bal l key now) / perSec (bucket_at l key (limit key) now) * inject_Z Second).
  assert (y == x) as Hxy by (unfold x, y; rewrite Hps; apply Qeq_refl).
  assert (0 < x) as Hx.
  { unfold x. apply Qmult_lt_0_compat; [|done]. apply Qlt_shift_div_l; [done|]. lra. }
  destruct (num_trunc_Q y) as [A B]; [lra|]. split_and!; lra.
Qed.
End exact.

(** ** Properties *)

(** C15: the in-memory limiter keeps its promise, computed with exact numbers
    in place of float64. While the limit of a key stays what it is, any
    operations in the order of time - single units ([Allow]), requests decided
    against many buckets at once, charges after the fact, questions, and sweeps
    of what nobody touched for a minute - let at most one full minute's limit
    plus the limit's share of the time through its bucket. A charge into debt
    that a sweep forgives lets no more through, and a bucket may be new, kept
    or swept at the start. *)
Theorem limiter_conformance (limit : string → Z) (key : string)
    (l : gmap string (bucket (T := Q))) (t : Z) (ops : list (Z * limiter_op)) :
  (0 < limit key)%Z → limiter_ok limit l t → ordered t ops →
  (∀ e, e ∈ ops → op_ok limit key e.2) →
  inject_Z (run key ops l).1 <=
  inject_Z (limit key) * (1 + inject_Z (end_of t ops - t) / inject_Z Minute).
Proof.
  intros Hpos Hok Hord Hops. pose proof (run_bound limit key l t ops Hok Hpos Hord Hops) as H.
  destruct (run key ops l) as [n l']. destruct H as [H1 H2]. simpl.
  destruct (room_range limit l key t Hok Hpos) as (_ & _ & H3). destruct (room_range limit l' key _ H1 Hpos) as (H4 & _).
  rewrite gain_spec in H2. unfold limitQ in *.
  assert (inject_Z (end_of t ops - t) * (inject_Z (limit key) / inject_Z 60 / inject_Z 1000000000) ==
          inject_Z (limit key) * (inject_Z (end_of t ops - t) / inject_Z Minute)) as E.
  { assert (inject_Z Minute == inject_Z 60 * inject_Z 1000000000) as -> by done. field. }
  rewrite E in H2. lra.
Qed.

(** [Admit] decides every requirement at once. When all hold it takes
    exactly one unit for each that takes one. Otherwise it names the first
    that does not hold, and the refusal is free: no bucket answers
    differently, then or later, than if the request had not been made. *)
Theorem Admit_all_or_nothing (limit : string → Z) (l : gmap string (bucket (T := Q)))
    (reqs : list Requirement) (now : Z) :
  limiter_ok limit l now → reqs_ok limit reqs →
  let '(i, l') := Admit l reqs now in
  (i = (-1)%Z ∧ (∀ req, req ∈ reqs → satisfied limit l req now) ∧
     (∀ key, bal limit l' key now == bal limit l key now - inject_Z (takes key reqs))) ∨
  (∃ j req, i = Z.of_nat j ∧ reqs !! j = Some req ∧ ¬ satisfied limit l req now ∧
     (∀ j' req', (j' < j)%nat → reqs !! j' = Some req' → satisfied limit l req' now) ∧
     ∀ key later, (now <= later)%Z → within l now later →
       bal limit l' key later == bal limit l key later).
Proof.
  intros Hok Hreqs. pose proof (Admit_spec limit l reqs now Hok Hreqs) as H.
  destruct (Admit l reqs now) as [i l'].
  destruct H as [_ [H|(j & req & ? & ? & ? & ? & (_ & Hag & _))]]; [by left|right].
  exists j, req. split_and!; done.
Qed.

(** A charge after the fact takes its amount from every limited bucket
    once per requirement, into debt if it must, and from no other. *)
Theorem ChargeAll_takes (limit : string → Z) (l : gmap string (bucket (T := Q)))
    (reqs : list Requirement) (n : Q) (now : Z) (key : string) :
  limiter_ok limit l now → reqs_ok limit reqs → 0 <= n →
  bal limit (ChargeAll l reqs n now) key now ==
  bal limit l key now - n * inject_Z (charges key reqs).
Proof. intros Hok Hreqs Hn. by apply ChargeAll_spec. Qed.

(** [Retry] is right to the nanosecond. If nothing else takes from the
    bucket, it holds a whole unit one nanosecond after the wait it names, and
    at no instant before the wait is over. *)
Theorem Retry_right (limit : string → Z) (l : gmap string (bucket (T := Q)))
    (key : string) (now later : Z) :
  limiter_ok limit l now → (0 < limit key)%Z → (now <= later <= now + max_duration)%Z →
  let '(d, l') := Retry l key (limit key) now in
  ((now + d < later)%Z → 1 <= bal limit l' key later) ∧
  ((later < now + d)%Z → bal limit l' key later < 1).
Proof.
  intros Hok Hpos Hlater. pose proof (Retry_bal limit l key now Hok Hpos) as H.
  destruct (Retry l key (limit key) now) as [d l'].
  destruct H as ((Hag & _) & Hok' & (b & Hb & Hlast) & H).
  destruct (Hok' key b Hb) as [_ Ht].
  pose proof (bal_stored limit l' key b now Ht Hpos Hlast) as Hst. rewrite insert_id in Hst by done.
  specialize (Hag key). assert (now <= later)%Z as Hle by lia.
  destruct (bal_some limit l' key b later (limiter_ok_later _ _ _ _ Hok' Hle) Hb) as (B1 & B2 & B3).
  rewrite Hlast, time_sub_exact in B2, B3 by lia.
  assert (1 <= limitQ limit key) as Hone.
  { unfold limitQ. change 1 with (inject_Z 1). rewrite <- Zle_Qle. lia. }
  assert (0 <= gain limit key (later - now)) by (apply gain_nonneg; [done|lia]).
  set (r := limitQ limit key / inject_Z 60) in *.
  assert (0 < r) as Hr by (unfold r; apply Qlt_shift_div_l; [done|lra]).
  set (x := (1 - bal limit l key now) / r * inject_Z 1000000000) in *.
  assert (∀ z, inject_Z z * (r / inject_Z 1000000000) == gain limit key z) as Hg
    by (intros z; by rewrite gain_spec).
  assert (x * (r / inject_Z 1000000000) == 1 - bal limit l key now) as Hx.
  { unfold x. field. intros E. lra. }
  assert (0 < r / inject_Z 1000000000) as Hrr by (apply Qlt_shift_div_l; [done|lra]).
  split; intros Hd.
  - destruct H as [[H1 _]|(_ & _ & _ & Hup)]; [destruct B3; lra|].
    assert (x < inject_Z (later - now)) as Hlt.
    { eapply Qlt_le_trans; [exact Hup|]. rewrite <- Zle_Qle. lia. }
    apply (Qmult_lt_r _ _ _ Hrr) in Hlt. rewrite Hx, Hg in Hlt. destruct B3; lra.
  - destruct H as [[_ ->]|(_ & _ & Hlo & _)]; [lia|].
    assert (inject_Z (later - now) < x) as Hlt.
    { eapply Qlt_le_trans; [|exact Hlo]. rewrite <- Zlt_Qlt. lia. }
    apply (Qmult_lt_r _ _ _ Hrr) in Hlt. rewrite Hx, Hg in Hlt. lra.
Qed.

(** ** Examples *)

Definition sample_limit_of (key : string) : Z := 60.

Definition ask (key : string) : list Requirement :=
  [{| Req_Key := key; Req_PerMinute := 60; Req_Take := true |}].

Definition sample_ops : list (Z * limiter_op) :=
  [(0, OpAdmit (ask "org:acme:rpm")); (1, OpCharge (ask "org:acme:rpm") 58); (2, OpAllow "org:acme:rpm" 60);
   (3, OpAllow "org:acme:rpm" 60); (4, OpSweep Minute); (5, OpRemaining "org:acme:rpm" 60)]%Z.

Lemma empty_ok t : limiter_ok sample_limit_of ∅ t.
Proof. intros key b Hb. by apply lookup_empty_Some in Hb. Qed.

Lemma ask_ok key : reqs_ok sample_limit_of (ask key).
Proof. intros req ->%list_elem_of_singleton _. done. Qed.

Lemma limiter_conformance_witness :
  (run "org:acme:rpm" sample_ops ∅).1 = 2%Z ∧
  inject_Z (run "org:acme:rpm" sample_ops ∅).1 <=
  inject_Z 60 * (1 + inject_Z 5 / inject_Z Minute).
Proof.
  split; [vm_compute; reflexivity|].
  apply (limiter_conformance sample_limit_of "org:acme:rpm" ∅ 0 sample_ops).
  - reflexivity.
  - apply empty_ok.
  - repeat split; discriminate.
  - intros e He. repeat (apply elem_of_cons in He as [->|He]); [..|by apply elem_of_nil in He].
    + split; [apply ask_ok|vm_compute; discriminate].
    + split; [apply ask_ok|discriminate].
    + intros _. reflexivity.
    + intros _. reflexivity.
    + vm_compute. discriminate.
    + intros _. reflexivity.
Defined.

Lemma Admit_all_or_nothing_witness :
  (Admit (T := Q) ∅ (ask "k") 0).1 = (-1)%Z ∧
  ∀ key, bal sample_limit_of (Admit ∅ (ask "k") 0).2 key 0 ==
    bal sample_limit_of ∅ key 0 - inject_Z (takes key (ask "k")).
Proof.
  split; [vm_compute; reflexivity|].
  pose proof (Admit_all_or_nothing sample_limit_of ∅ (ask "k") 0 (empty_ok 0) (ask_ok "k")) as H.
  assert ((Admit (T := Q) ∅ (ask "k") 0).1 = (-1)%Z) as E by (vm_compute; reflexivity).
  destruct (Admit ∅ (ask "k") 0) as [i l']. simpl in E. subst i.
  destruct H as [(_ & _ & H)|(j & _ & H & _)]; [exact H|lia].
Defined.

Lemma ChargeAll_takes_witness :
  bal sample_limit_of (ChargeAll ∅ (ask "k") 100 0) "k" 0 ==
  bal sample_limit_of ∅ "k" 0 - 100 * inject_Z (charges "k" (ask "k")).
Proof. apply ChargeAll_takes; [apply empty_ok|apply ask_ok|discriminate]. Defined.

Lemma Retry_right_witness :
  let l := ChargeAll (T := Q) ∅ (ask "k") 60 0 in
  (Retry l "k" 60 0).1 = Second ∧ 1 <= bal sample_limit_of (Retry l "k" 60 0).2 "k" (Second + 1).
Proof.
  intros l. split; [vm_compute; reflexivity|].
  assert (limiter_ok sample_limit_of l 0) as Hok
    by (apply ChargeAll_spec; [apply empty_ok|apply ask_ok|discriminate]).
  assert ((Retry l "k" 60 0).1 = Second) as E by (vm_compute; reflexivity).
  pose proof (Retry_right sample_limit_of l "k" 0 (Second + 1) Hok eq_refl) as H.
  change (sample_limit_of "k") with 60%Z in H.
  destruct (Retry l "k" 60 0) as [d l']. simpl in E. subst d.
  apply H; [vm_compute; split; discriminate|lia].
Defined.
