(* ===== verification/RedisLimiter.v ===== *)
(** * The token buckets kept in Redis

    [internal/ratelimit/redis.go]: the two Lua scripts, on the hashes they
    read and write, and the limiter that runs them, which decides with the
    in-memory buckets of [Limiter] whenever Redis does not answer. The replicas
    share the hashes; what becomes of each round trip is a parameter. *)
From S2P Require Import Prelude GoTime Num Limiter.
From Stdlib Require Import QArith.Qminmax.
#[local] Open Scope Z_scope.

(** One bucket's hash: the tokens, the time they are as of, in milliseconds,
    and until when Redis keeps it, by its own clock, as [PEXPIRE] said. *)
Record hash (T : Type) := { h_t : T; h_ts : Z; h_until : option Z }.
Arguments h_t {T}. Arguments h_ts {T}. Arguments h_until {T}.

(** The hashes Redis still has once its clock says [server]. *)
Definition expired {T} (server : Z) (h : hash T) : bool :=
  match h_until h with Some until => until <? server | None => false end.

Definition unexpired {T} (server : Z) (rd : gmap string (hash T)) : gmap string (hash T) :=
  filter (λ kv, expired server kv.2 = false) rd.

(** What becomes of a script: its answer arrives, or it ran and the answer was
    lost, or it never ran. *)
Inductive round_trip := Arrived | AnswerLost | NeverRan.

(** The fate of each round trip, the clock of Redis at it, in milliseconds, and
    the wall clock at each reading. *)
Class Link := { fate : nat → round_trip; server : nat → Z; wall : nat → Z }.

Definition restFor : Z := 5 * Second.
Definition complainEvery : Z := Minute.
Definition maxChargeKeys : nat := 256.

Section redis.
Context `{Num T}.

(** The hashes, by full key. *)
Abbreviation store := (gmap string (hash T)).

(** ** The scripts *)

(** [refillSource]: the tokens, uncapped, and the time to store with them. *)
Definition script_refill (rd : store) (key : string) (now : Z) (perSec burst : T) : T * Z :=
  match rd !! key with
  | None => (burst, now)
  | Some h =>
      let elapsed := num_div (of_Z (now - h_ts h)) (of_Z 1000) in
      if num_ltb (of_Z 0) elapsed then (num_add (h_t h) (num_mul elapsed perSec), now)
      else (h_t h, h_ts h)
  end.

(** [if t > burst then t = burst end]. *)
Definition cap (t burst : T) : T := if num_ltb burst t then burst else t.

(** [math.ceil(burst / perSec * 1000) + 60000]. *)
Definition want_ttl (perSec burst : T) : Z :=
  num_ceil (num_mul (num_div burst perSec) (of_Z 1000)) + 60000.

(** A script's arguments for one bucket. *)
Record admit_arg := { aa_key : string; aa_perSec : T; aa_burst : T; aa_take : Z }.

(** The script's locals: [live], [ts] and [ttl] by key, [order], [tokens]. *)
Record admit_locals := {
  al_live : gmap string T;
  al_ts : gmap string Z;
  al_ttl : gmap string Z;
  al_order : list string;
  al_tokens : list T;
}.

Definition locals_zero : admit_locals :=
  {| al_live := ∅; al_ts := ∅; al_ttl := ∅; al_order := []; al_tokens := [] |}.

(** One round of [admitSource]'s first loop. *)
Definition admit_refill (rd : store) (now : Z) (s : admit_locals) (a : admit_arg) : admit_locals :=
  let '(t, ts, order) :=
    match al_live s !! aa_key a with
    | Some t => (t, al_ts s, al_order s)
    | None =>
        let '(t, at_) := script_refill rd (aa_key a) now (aa_perSec a) (aa_burst a) in
        (t, <[aa_key a := at_]> (al_ts s), al_order s ++ [aa_key a])
    end in
  let t := cap t (aa_burst a) in
  {| al_live := <[aa_key a := t]> (al_live s); al_ts := ts;
     al_ttl :=
       if num_ltb (of_Z 0) (aa_perSec a) then
         let want := want_ttl (aa_perSec a) (aa_burst a) in
         match al_ttl s !! aa_key a with
         | Some ttl => if want >? ttl then <[aa_key a := want]> (al_ttl s) else al_ttl s
         | None => <[aa_key a := want]> (al_ttl s)
         end
       else al_ttl s;
     al_order := order; al_tokens := al_tokens s ++ [t] |}.

(** The second loop: the first bucket that does not hold, from 0. *)
Fixpoint admit_failed (args : list admit_arg) (tokens : list T) (i : Z) : Z :=
  match args, tokens with
  | a :: args, t :: tokens =>
      if (aa_take a =? 1) && num_ltb t (of_Z 1) || (aa_take a =? 0) && num_leb t (of_Z 0) then i
      else admit_failed args tokens (i + 1)
  | _, _ => -1
  end.

(** The third loop. *)
Definition admit_charge (live : gmap string T) (a : admit_arg) : gmap string T :=
  if aa_take a =? 1 then
    match live !! aa_key a with
    | Some t => <[aa_key a := num_sub t (of_Z 1)]> live
    | None => live
    end
  else live.

Definition zero_T : T := of_Z 0.

(** [HSET] and [PEXPIRE]: without a new deadline the key keeps the one it had. *)
Definition write_back (clock_ : Z) (s : admit_locals) (live : gmap string T) (rd : store) (key : string) : store :=
  <[key := {| h_t := default zero_T (live !! key); h_ts := default 0 (al_ts s !! key);
              h_until := match al_ttl s !! key with
                         | Some ttl => Some (clock_ + ttl)
                         | None => rd !! key ≫= h_until
                         end |}]> rd.

(** [math.floor(t * 1000)]. *)
Definition thousandths (t : T) : Z := num_floor (num_mul t (of_Z 1000)).

(** [admitSource], run when the clock of Redis says [clock_]: its answer, and the
    hashes it leaves. *)
Definition admit_script (clock_ : Z) (rd : store) (now : Z) (args : list admit_arg) : list Z * store :=
  let s := foldl (admit_refill rd now) locals_zero args in
  let failed := admit_failed args (al_tokens s) 0 in
  let live := if failed <? 0 then foldl admit_charge (al_live s) args else al_live s in
  (failed :: ((λ a, thousandths (default zero_T (live !! aa_key a))) <$> args),
   foldl (write_back clock_ s live) rd (al_order s)).

Record charge_arg := { ca_key : string; ca_n : T; ca_perSec : T; ca_burst : T }.

(** One round of [chargeSource]. *)
Definition charge_one (clock_ now : Z) (st : store * list Z) (a : charge_arg) : store * list Z :=
  let '(rd, out) := st in
  let n := num_div (ca_n a) (of_Z 1000) in
  let '(t, ts) := script_refill rd (ca_key a) now (ca_perSec a) (ca_burst a) in
  let t := num_sub (cap t (ca_burst a)) n in
  (<[ca_key a := {| h_t := t; h_ts := ts;
                    h_until := if num_ltb (of_Z 0) (ca_perSec a)
                               then Some (clock_ + want_ttl (ca_perSec a) (ca_burst a))
                               else rd !! ca_key a ≫= h_until |}]> rd,
   out ++ [thousandths t]).

(** [chargeSource]. *)
Definition charge_script (clock_ : Z) (rd : store) (now : Z) (args : list charge_arg) : list Z * store :=
  let '(rd, out) := foldl (charge_one clock_ now) (rd, []) args in (out, rd).

(** ** The limiter *)

(** [view]. *)
Record view := { v_tokens : T; v_at : Z; v_seen : Z }.

(** [owed]. *)
Record owed := { ow_req : Requirement; ow_n : T }.

(** [Redis], with the hashes it and the other replicas write, and how many
    round trips and clock readings there have been. *)
Record Redis := {
  r_store : store;
  r_local : gmap string (bucket (T := T));
  r_view : gmap string view;
  r_complain : Z;
  r_resting : Z;
  r_owed : gmap string owed;
  r_trips : nat;
  r_reads : nat;
}.

#[export] Instance Redis_updatable : Updatable Redis := λ r,
  {| r_store := r_store r; r_local := r_local r; r_view := r_view r; r_complain := r_complain r;
     r_resting := r_resting r; r_owed := r_owed r; r_trips := r_trips r; r_reads := r_reads r |}.

Section ops.
Context `{Link} `{MapRange} (prefix : string) (chargeEvery : Z).

(** [Redis.key]. *)
Definition key (k : string) : string := prefix +:+ ":rl:" +:+ k.

(** [Redis.admitArgs], from index [i] on: the arguments, and the index of
    each. *)
Fixpoint admitArgs (reqs : list Requirement) (i : Z) : list (admit_arg * Z) :=
  match reqs with
  | [] => []
  | req :: reqs =>
      if Req_PerMinute req <=? 0 then admitArgs reqs (i + 1)
      else
        let '(perSec, burst) := rate (Req_PerMinute req) in
        ({| aa_key := key (Req_Key req); aa_perSec := perSec; aa_burst := burst;
            aa_take := if Req_Take req then 1 else 0 |}, i) :: admitArgs reqs (i + 1)
  end.

(** [time.Now()]. *)
Definition clock (r : Redis) : Z * Redis := (wall (r_reads r), r <| r_reads := S (r_reads r) |>).

(** [Redis.skip]. *)
Definition skip (r : Redis) : bool * Redis :=
  let '(now, r) := clock r in (now <? r_resting r, r).

(** [Redis.degrade], without the log line. *)
Definition degrade (r : Redis) : Redis :=
  let '(now, r) := clock r in
  let quiet := time_sub now (r_complain r) <? complainEvery in
  (r <| r_resting := now + restFor |>) <| r_complain := if quiet then r_complain r else now |>.

(** [Redis.remember]. *)
Definition remember (r : Redis) (keys : list string) (tokens : list Z) (now : Z) : Redis :=
  r <| r_view := foldl (λ m '(k, t),
    <[k := {| v_tokens := num_div (of_Z t) (of_Z 1000); v_at := now; v_seen := now |}]> m)
    (r_view r) (zip keys tokens) |>.

(** A script's round trip: Redis runs it on what it still has, and its answer
    counts if it arrives with one number for each that is expected. *)
Definition run_script (r : Redis) (script : Z → store → list Z * store) (expect : nat)
    : option (list Z) * Redis :=
  let clock_ := server (r_trips r) in
  let '(out, rd) := script clock_ (unexpired clock_ (r_store r)) in
  let r' := r <| r_trips := S (r_trips r) |> in
  match fate (r_trips r) with
  | Arrived => (if bool_decide (length out = expect) then Some out else None, r' <| r_store := rd |>)
  | AnswerLost => (None, r' <| r_store := rd |>)
  | NeverRan => (None, r')
  end.

(** Deciding with the in-memory buckets. *)
Definition local_Admit (r : Redis) (reqs : list Requirement) (now : Z) : Z * Redis :=
  let '(i, l) := Limiter.Admit (r_local r) reqs now in (i, r <| r_local := l |>).

(** [Redis.Admit]. *)
Definition Admit (r : Redis) (reqs : list Requirement) (now : Z) : Z * Redis :=
  let args := admitArgs reqs 0 in
  match args with
  | [] => (-1, r)
  | _ =>
      let '(resting, r) := skip r in
      if resting then local_Admit r reqs now
      else
        match run_script r (λ clock_ rd, admit_script clock_ rd (UnixMilli now) args.*1) (S (length args)) with
        | (Some (failed :: tokens), r) =>
            let r := remember r (aa_key <$> args.*1) tokens now in
            (if failed >=? 0 then default (-1) (args.*2 !! Z.to_nat failed) else -1, r)
        | (_, r) => local_Admit (degrade r) reqs now
        end
  end.

(** [Redis.chargeLocal]; each requirement comes with its amount. *)
Definition chargeLocal (r : Redis) (reqs : list (Requirement * T)) (now : Z) : Redis :=
  r <| r_local := foldl (λ l '(req, n), Limiter.ChargeAll l [req] n now) (r_local r) reqs |>.

Definition charge_args (reqs : list (Requirement * T)) : list charge_arg :=
  omap (λ '(req, n),
    if Req_PerMinute req <=? 0 then None
    else
      let '(perSec, burst) := rate (Req_PerMinute req) in
      Some {| ca_key := key (Req_Key req); ca_n := num_mul n (of_Z 1000); ca_perSec := perSec;
              ca_burst := burst |}) reqs.

(** [Redis.charge]. *)
Definition charge (r : Redis) (reqs : list (Requirement * T)) (now : Z) : Redis :=
  let args := charge_args reqs in
  match args with
  | [] => r
  | _ =>
      let '(resting, r) := skip r in
      if resting then chargeLocal r reqs now
      else
        match run_script r (λ clock_ rd, charge_script clock_ rd (UnixMilli now) args) (length args) with
        | (Some out, r) => remember r (ca_key <$> args) out now
        | (None, r) => chargeLocal (degrade r) reqs now
        end
  end.

(** What [ChargeAll] holds of one charge. *)
Definition owe (n : T) (m : gmap string owed) (req : Requirement) : gmap string owed :=
  if Req_PerMinute req <=? 0 then m
  else
    let before := match m !! Req_Key req with Some o => ow_n o | None => zero_T end in
    <[Req_Key req := {| ow_req := req; ow_n := num_add before n |}]> m.

(** [Redis.ChargeAll]. *)
Definition ChargeAll (r : Redis) (reqs : list Requirement) (n : T) (now : Z) : Redis :=
  if num_eqb n (of_Z 0) then r
  else if chargeEvery <=? 0 then charge r ((λ req, (req, n)) <$> reqs) now
  else r <| r_owed := foldl (owe n) (r_owed r) reqs |>.

(** The loop of [Redis.Flush], with the charges gathered so far. *)
Fixpoint flush_loop (r : Redis) (held : list owed) (batch : list (Requirement * T)) (now : Z) : Redis :=
  match held with
  | [] => match batch with [] => r | _ => charge r batch now end
  | o :: held =>
      let batch := batch ++ [(ow_req o, ow_n o)] in
      if (length batch =? maxChargeKeys)%nat then flush_loop (charge r batch now) held [] now
      else flush_loop r held batch now
  end.

(** [Redis.Flush]. *)
Definition Flush (r : Redis) (now : Z) : Redis :=
  flush_loop (r <| r_owed := ∅ |>) (map_range (r_owed r)).*2 [] now.

(** [Redis.extrapolate]. *)
Definition extrapolate (r : Redis) (k : string) (perMinute now : Z) : option T * Redis :=
  match r_view r !! key k with
  | None => (None, r)
  | Some v =>
      let r := r <| r_view := <[key k := {| v_tokens := v_tokens v; v_at := v_at v; v_seen := now |}]>
                    (r_view r) |> in
      let '(perSec, burst) := rate perMinute in
      let elapsed := Seconds (time_sub now (v_at v)) in
      let t := if num_ltb (of_Z 0) elapsed then num_add (v_tokens v) (num_mul elapsed perSec)
               else v_tokens v in
      (Some (num_min t burst), r)
  end.

(** [Redis.Remaining]. *)
Definition Remaining (r : Redis) (k : string) (perMinute now : Z) : Z * Redis :=
  if perMinute <=? 0 then (-1, r)
  else
    match extrapolate r k perMinute now with
    | (Some t, r) => (remaining t, r)
    | (None, r) =>
        let '(n, l) := Limiter.Remaining (r_local r) k perMinute now in (n, r <| r_local := l |>)
    end.

(** [Redis.Retry]. *)
Definition Retry (r : Redis) (k : string) (perMinute now : Z) : Z * Redis :=
  if perMinute <=? 0 then (0, r)
  else
    match extrapolate r k perMinute now with
    | (Some t, r) => (retryAfter t (rate perMinute).1, r)
    | (None, r) =>
        let '(n, l) := Limiter.Retry (r_local r) k perMinute now in (n, r <| r_local := l |>)
    end.

(** [Redis.Sweep]. *)
Definition Sweep (r : Redis) (idle now : Z) : Redis :=
  (r <| r_local := Limiter.Sweep (r_local r) idle now |>)
    <| r_view := filter (λ '(_, v), time_sub now (v_seen v) <= idle) (r_view r) |>.

#[export] Instance Redis_RateLimiter : RateLimiter T Redis :=
  {| rl_Admit := Admit; rl_ChargeAll := ChargeAll; rl_Remaining := Remaining; rl_Retry := Retry |}.
End ops.
End redis.

(** ** Lemmas, on exact numbers *)

#[local] Open Scope Q_scope.

(** The scripts keep every bucket for two minutes: a minute to fill, and one
    more. *)
Lemma want_ttl_two_minutes (perMinute : Z) :
  (0 < perMinute)%Z → want_ttl (rate (T := Q) perMinute).1 (rate perMinute).2 = 120000%Z.
Proof.
  intros Hp. unfold want_ttl, rate. cbn [fst snd num_div num_mul num_ceil of_Z Num_Q].
  assert (inject_Z perMinute / (inject_Z perMinute / inject_Z 60) * inject_Z 1000 == inject_Z 60000) as ->.
  { change (inject_Z 60) with 60. change (inject_Z 1000) with 1000. change (inject_Z 60000) with 60000.
    field. intros E. assert (0 < inject_Z perMinute) by (change 0 with (inject_Z 0); by rewrite <- Zlt_Qlt). lra. }
  by rewrite Qceiling_Z.
Qed.

(** How long Redis keeps a bucket nobody asks for. *)
Definition kept_for : Z := 120000%Z.

Section exact.
Context (limit : string → Z) (prefix : string).
Implicit Types (rd : gmap string (hash Q)) (k : string) (now later : Z).

(** What a key's hash holds, at an instant in milliseconds. *)
Definition rbal rd k now : Q :=
  let '(t, _) := script_refill rd (key prefix k) now (rate (limit k)).1 (rate (limit k)).2 in
  cap t (rate (T := Q) (limit k)).2.

(** A hash that is not above its key's burst, as of [now]. *)
Definition hash_ok k (h : hash Q) now : Prop :=
  (0 < limit k)%Z ∧ h_t h <= limitQ limit k ∧ (h_ts h <= now)%Z.

Definition redis_ok rd now : Prop := ∀ k h, rd !! key prefix k = Some h → hash_ok k h now.

(** What drips in, in milliseconds. *)
Definition drip k (ms : Z) : Q := inject_Z ms / 1000 * (limitQ limit k / inject_Z 60).

Lemma key_inj k k' : key prefix k = key prefix k' → k = k'.
Proof.
  unfold key. induction prefix as [|c s IH]; rewrite ?str_app_nil_l, ?str_app_cons; intros [=]; auto.
Qed.

Lemma cap_Q (t b : Q) : cap t b <= t ∧ cap t b <= b ∧ (cap t b == t ∨ cap t b == b).
Proof.
  unfold cap. destruct (num_ltb b t) eqn:Hc.
  - apply num_ltb_Q in Hc. split_and!; [lra|lra|by right].
  - split_and!; [lra| |by left]. apply Qnot_lt_le. intros Hlt. apply num_ltb_Q in Hlt. congruence.
Qed.

Lemma drip_gain k ms : drip k ms == gain limit k (ms * Millisecond).
Proof.
  unfold drip, gain. rewrite Seconds_Q. assert (inject_Z (ms * Millisecond) == inject_Z ms * 1000000) as ->
    by (rewrite inject_Z_mult; done).
  change (inject_Z 1000000000) with 1000000000. field.
Qed.

Lemma drip_add k a b : drip k (a + b) == drip k a + drip k b.
Proof. unfold drip. rewrite inject_Z_plus. field. Qed.

Lemma drip_nonneg k ms : (0 < limit k)%Z → (0 <= ms)%Z → 0 <= drip k ms.
Proof.
  intros Hl Hms. rewrite drip_gain. apply gain_nonneg; [done|]. unfold Millisecond. lia.
Qed.

(** What the script reads from a hash, with what has dripped in. *)
Lemma script_refill_some rd k h now :
  rd !! key prefix k = Some h → (h_ts h <= now)%Z →
  let '(t, ts) := script_refill rd (key prefix k) now (rate (limit k)).1 (rate (T := Q) (limit k)).2 in
  t == h_t h + drip k (now - h_ts h) ∧ ts = now.
Proof.
  intros Hh Hle. unfold script_refill. rewrite Hh. cbn [num_div of_Z Num_Q].
  assert (num_ltb (inject_Z 0) (inject_Z (now - h_ts h) / inject_Z 1000) = (0 <? now - h_ts h)%Z) as ->.
  { apply Bool.eq_iff_eq_true. rewrite num_ltb_Q, Z.ltb_lt, inject_Z_lt.
    change (inject_Z 1000) with 1000. change (inject_Z 0) with 0.
    assert (inject_Z (now - h_ts h) / 1000 == inject_Z (now - h_ts h) * (1 # 1000)) as -> by field.
    split; intros Hlt; lra. }
  destruct (0 <? now - h_ts h)%Z eqn:Hc; to_prop; simpl.
  - split; [|done]. unfold drip, limitQ. change (inject_Z 1000) with 1000. field.
  - assert (now - h_ts h = 0)%Z as -> by lia. split; [|lia].
    assert (drip k 0 == 0) by (unfold drip; change (inject_Z 0) with 0; field). lra.
Qed.

Lemma rbal_none rd k now : rd !! key prefix k = None → rbal rd k now == limitQ limit k.
Proof.
  intros Hn. unfold rbal, script_refill. rewrite Hn. pose proof (cap_Q (limitQ limit k) (limitQ limit k)).
  change (rate (limit k)).2 with (limitQ limit k). tauto.
Qed.

Lemma rbal_some rd k h now :
  redis_ok rd now → rd !! key prefix k = Some h →
  rbal rd k now <= limitQ limit k ∧ rbal rd k now <= h_t h + drip k (now - h_ts h) ∧
  (rbal rd k now == limitQ limit k ∨ rbal rd k now == h_t h + drip k (now - h_ts h)).
Proof.
  intros Hok Hh. destruct (Hok k h Hh) as (_ & _ & Hle). unfold rbal.
  pose proof (script_refill_some rd k h now Hh Hle) as Hr.
  destruct (script_refill _ _ _ _ _) as [t ts]. destruct Hr as [Ht _].
  pose proof (cap_Q t (rate (limit k)).2) as (H1 & H2 & H3).
  change (rate (limit k)).2 with (limitQ limit k) in *.
  split_and!; [done|lra|]. destruct H3; [right|left]; lra.
Qed.

Lemma rbal_le_limit rd k now : redis_ok rd now → rbal rd k now <= limitQ limit k.
Proof.
  intros Hok. destruct (rd !! key prefix k) as [h|] eqn:Hh; [by apply (rbal_some rd k h now)|].
  rewrite rbal_none by done. lra.
Qed.

Lemma redis_ok_later rd now later : redis_ok rd now → (now <= later)%Z → redis_ok rd later.
Proof. intros Hok Hle k h Hh. destruct (Hok k h Hh) as (? & ? & ?). split_and!; [done|done|lia]. Qed.

(** Time adds what drips in, up to the limit. *)
Lemma rbal_later rd k now later :
  redis_ok rd now → (0 < limit k)%Z → (now <= later)%Z →
  rbal rd k later == Qmin (limitQ limit k) (rbal rd k now + drip k (later - now)).
Proof.
  intros Hok Hpos Hle. assert (0 <= drip k (later - now)) as Hd by (apply drip_nonneg; [done|lia]).
  destruct (rd !! key prefix k) as [h|] eqn:Hh.
  - destruct (rbal_some rd k h now Hok Hh) as (A1 & A2 & A3).
    destruct (rbal_some rd k h later (redis_ok_later _ _ _ Hok Hle) Hh) as (B1 & B2 & B3).
    assert (drip k (later - h_ts h) == drip k (now - h_ts h) + drip k (later - now)) as E.
    { rewrite <- drip_add. by replace (now - h_ts h + (later - now))%Z with (later - h_ts h)%Z by lia. }
    destruct (Qlt_le_dec (limitQ limit k) (rbal rd k now + drip k (later - now))) as [Hlt|Hge].
    + rewrite Q.min_l by lra. destruct A3, B3; lra.
    + rewrite Q.min_r by lra. destruct A3, B3; lra.
  - rewrite !rbal_none by done. rewrite Q.min_l by lra. lra.
Qed.

(** A hash written at [now] holds what is stored in it. *)
Lemma rbal_written rd k h now :
  rd !! key prefix k = Some h → h_ts h = now → h_t h <= limitQ limit k → rbal rd k now == h_t h.
Proof.
  intros Hh Hts Hle. unfold rbal. pose proof (script_refill_some rd k h now Hh) as Hr.
  destruct (script_refill _ _ _ _ _) as [t ts]. destruct Hr as [Ht _]; [lia|].
  pose proof (cap_Q t (rate (limit k)).2) as (H1 & H2 & H3).
  change (rate (limit k)).2 with (limitQ limit k) in *. rewrite Hts, Z.sub_diag in Ht.
  assert (drip k 0 == 0) by (unfold drip; change (inject_Z 0) with 0; field).
  revert H1 H2 H3. generalize (cap t (limitQ limit k)). intros x H1 H2 [H3|H3]; lra.
Qed.

(** *** The admitting script *)

Definition arg_of (req : Requirement) : admit_arg (T := Q) :=
  {| aa_key := key prefix (Req_Key req); aa_perSec := (rate (Req_PerMinute req)).1;
     aa_burst := (rate (Req_PerMinute req)).2; aa_take := if Req_Take req then 1 else 0 |}.

(** Requirements the script is asked about: limited, and at the rate in force. *)
Definition asked (reqs : list Requirement) : Prop :=
  ∀ req, req ∈ reqs → Req_PerMinute req = limit (Req_Key req) ∧ (0 < limit (Req_Key req))%Z.

(** The locals after the first loop has passed [reqs]. *)
Record refilled rd now (reqs : list Requirement) (s : admit_locals (T := Q)) : Prop := {
  rf_live k t : al_live s !! key prefix k = Some t → t == rbal rd k now ∧ al_ts s !! key prefix k = Some now;
  rf_keys k : is_Some (al_live s !! key prefix k) ↔ k ∈ Req_Key <$> reqs;
  rf_order x : x ∈ al_order s ↔ ∃ k, x = key prefix k ∧ k ∈ Req_Key <$> reqs;
  rf_tokens : Forall2 (λ req t, t == rbal rd (Req_Key req) now) reqs (al_tokens s);
  rf_ttl k : (∀ ttl, al_ttl s !! key prefix k = Some ttl → ttl = kept_for) ∧
    (k ∈ Req_Key <$> reqs → al_ttl s !! key prefix k = Some kept_for);
}.

Lemma cap_idem (t b : Q) : t <= b → cap t b == t.
Proof. intros Hle. pose proof (cap_Q t b) as (H1 & H2 & [H3|H3]); [done|]. lra. Qed.

Lemma refilled_step rd now reqs s req :
  redis_ok rd now → Req_PerMinute req = limit (Req_Key req) → (0 < limit (Req_Key req))%Z → refilled rd now reqs s →
  refilled rd now (reqs ++ [req]) (admit_refill rd now s (arg_of req)).
Proof.
  intros Hok Hlim Hpos [Hlive Hkeys Horder Htoks Httl]. unfold admit_refill. cbn [arg_of aa_key aa_burst aa_perSec].
  rewrite Hlim. set (k := Req_Key req) in *.
  assert (∃ t ts order, match al_live s !! key prefix k with
    | Some t => (t, al_ts s, al_order s)
    | None =>
        let '(t, at_) := script_refill rd (key prefix k) now (rate (limit k)).1 (rate (limit k)).2 in
        (t, <[key prefix k := at_]> (al_ts s), al_order s ++ [key prefix k])
    end = (t, ts, order) ∧ cap t (rate (limit k)).2 == rbal rd k now ∧ ts !! key prefix k = Some now ∧
    (∀ k', k' ≠ k → ts !! key prefix k' = al_ts s !! key prefix k') ∧
    (∀ x, x ∈ order ↔ x ∈ al_order s ∨ x = key prefix k)) as (t & ts & order & -> & Ht & Hts & Hothers & Hord).
  { destruct (al_live s !! key prefix k) as [t|] eqn:Hl.
    - destruct (Hlive k t Hl) as [Ht Hts]. eexists _, _, _. split; [done|]. split_and!; [|done|done|].
      + rewrite cap_idem; [done|]. rewrite Ht. by apply rbal_le_limit.
      + intros x. split; [auto|]. intros [?| ->]; [done|]. apply Horder. exists k. split; [done|].
        apply Hkeys. by exists t.
    - destruct (rd !! key prefix k) as [h|] eqn:Hh.
      + pose proof (script_refill_some rd k h now Hh (proj2 (proj2 (Hok k h Hh)))) as Hr. unfold rbal.
        destruct (script_refill _ _ _ _ _) as [t at_]. destruct Hr as [_ ->].
        eexists _, _, _. split; [done|]. split_and!; [done|by rewrite lookup_insert_eq| |].
        * intros k' Hne. apply lookup_insert_ne. by intros <-%key_inj.
        * intros x. rewrite elem_of_app, list_elem_of_singleton. done.
      + unfold rbal, script_refill. rewrite Hh.
        eexists _, _, _. split; [done|]. split_and!; [done|by rewrite lookup_insert_eq| |].
        * intros k' Hne. apply lookup_insert_ne. by intros <-%key_inj.
        * intros x. rewrite elem_of_app, list_elem_of_singleton. done. }
  split; cbn [al_live al_ts al_order al_tokens al_ttl].
  - intros k' t' Hl. destruct (decide (k' = k)) as [->|Hne].
    + rewrite lookup_insert_eq in Hl. injection Hl as <-. done.
    + rewrite lookup_insert_ne in Hl by (by intros ?%key_inj). rewrite Hothers by done. by apply Hlive.
  - intros k'. rewrite fmap_app, elem_of_app. destruct (decide (k' = k)) as [->|Hne].
    + rewrite lookup_insert_eq. split; [|by eexists]. intros _. right. left.
    + rewrite lookup_insert_ne, Hkeys by (by intros ?%key_inj). simpl. rewrite list_elem_of_singleton. tauto.
  - intros x. rewrite Hord, Horder, fmap_app. setoid_rewrite elem_of_app. simpl.
    setoid_rewrite list_elem_of_singleton. naive_solver.
  - apply Forall2_app; [done|]. by constructor.
  - assert (num_ltb (of_Z 0) (rate (T := Q) (limit k)).1 = true) as ->.
    { apply num_ltb_Q. cbn. apply (Qlt_shift_div_l); [done|]. assert (0 < inject_Z (limit k)) by (change 0 with (inject_Z 0); by rewrite <- Zlt_Qlt).
      change (inject_Z 0) with 0. lra. }
    rewrite (want_ttl_two_minutes (limit k) Hpos). change 120000%Z with kept_for. intros k'. destruct (Httl k') as [H1 H2].
    destruct (Httl k) as [H3 _]. destruct (al_ttl s !! key prefix k) as [ttl|] eqn:Hk.
    + rewrite (H3 ttl eq_refl) in *. rewrite (Z.gtb_ltb kept_for kept_for), Z.ltb_irrefl. split; [done|].
      rewrite fmap_app, elem_of_app. simpl. rewrite list_elem_of_singleton. intros [?| ->]; [by apply H2|done].
    + destruct (decide (k' = k)) as [->|Hne]; [by rewrite lookup_insert_eq; split; [intros ? [= <-]|]|].
      rewrite lookup_insert_ne by (by intros ?%key_inj). split; [done|].
      rewrite fmap_app, elem_of_app. simpl. rewrite list_elem_of_singleton. intros [?|?]; [by apply H2|done].
Qed.

Lemma refilled_all rd now reqs :
  redis_ok rd now → asked reqs →
  refilled rd now reqs (foldl (admit_refill rd now) locals_zero (arg_of <$> reqs)).
Proof.
  intros Hok. assert (∀ done s, asked reqs → refilled rd now done s →
    refilled rd now (done ++ reqs) (foldl (admit_refill rd now) s (arg_of <$> reqs))) as Hgen.
  { induction reqs as [|req reqs IH]; intros dn s Ha Hs; [by rewrite app_nil_r|].
    cbn [fmap list_fmap foldl]. rewrite cons_middle, app_assoc. apply IH.
    - intros r Hr. apply Ha. by right.
    - apply refilled_step; [done|apply Ha; left|apply Ha; left|done]. }
  intros Ha. apply (Hgen [] locals_zero Ha). split; simpl.
  - intros k t. by rewrite lookup_empty.
  - intros k. rewrite lookup_empty. split; [by intros []|set_solver].
  - intros x. split; [set_solver|]. intros (k & _ & Hk). set_solver.
  - constructor.
  - intros k. rewrite lookup_empty. split; [done|set_solver].
Qed.

(** A requirement holds of the hashes. *)
Definition rsatisfied rd (req : Requirement) now : Prop :=
  if Req_Take req then 1 <= rbal rd (Req_Key req) now else 0 < rbal rd (Req_Key req) now.

Lemma arg_fails req (t x : Q) :
  t == x →
  (aa_take (arg_of req) =? 1)%Z && num_ltb t (of_Z 1) || (aa_take (arg_of req) =? 0)%Z && num_leb t (of_Z 0) = true ↔
  ¬ (if Req_Take req then 1 <= x else 0 < x).
Proof.
  intros Ht. cbn [arg_of aa_take]. destruct (Req_Take req); cbn [Z.eqb Pos.eqb andb orb].
  - rewrite orb_false_r, num_ltb_Q. change (of_Z 1) with 1. split; [lra|]. intros Hn. apply Qnot_le_lt. lra.
  - rewrite num_leb_Q. change (of_Z 0) with 0. split; [lra|]. intros Hn. apply Qnot_lt_le. lra.
Qed.

Lemma admit_failed_spec rd now reqs toks i :
  Forall2 (λ req t, t == rbal rd (Req_Key req) now) reqs toks →
  let f := admit_failed (arg_of <$> reqs) toks i in
  f = (-1)%Z ∧ (∀ req, req ∈ reqs → rsatisfied rd req now) ∨
  ∃ j req, f = (i + Z.of_nat j)%Z ∧ reqs !! j = Some req ∧ ¬ rsatisfied rd req now ∧
    ∀ j' req', (j' < j)%nat → reqs !! j' = Some req' → rsatisfied rd req' now.
Proof.
  intros Hf. revert i. induction Hf as [|req t reqs toks Ht Hf IH]; intros i.
  { left. split; [done|set_solver]. }
  cbn [fmap list_fmap admit_failed]. cbv zeta.
  destruct ((aa_take (arg_of req) =? 1)%Z && _ || _) eqn:Hc.
  - right. exists 0%nat, req. split; [lia|]. split; [done|]. split; [|intros; lia].
    by apply (arg_fails req t _ Ht).
  - assert (rsatisfied rd req now) as Hs.
    { unfold rsatisfied. pose proof (arg_fails req t _ Ht) as Ha. rewrite Hc in Ha. destruct (Req_Take req).
      - apply Qnot_lt_le. intros Hlt. apply Qlt_not_le in Hlt. by apply Ha in Hlt.
      - apply Qnot_le_lt. intros Hle. apply Qle_not_lt in Hle. by apply Ha in Hle. }
    destruct (IH (i + 1)%Z) as [[-> Hall]|(j & r & -> & Hj & Hn & Hb)]; [left|right].
    + split; [done|]. intros r [->|Hr]%elem_of_cons; auto.
    + exists (S j), r. split; [lia|]. split; [done|]. split; [done|].
      intros [|j'] r' Hlt Hr'; simpl in Hr'; [by simplify_eq|]. eapply Hb; [|done]. lia.
Qed.

Lemma admit_charge_spec reqs (live : gmap string Q) k t :
  asked reqs → live !! key prefix k = Some t →
  ∃ t', foldl admit_charge live (arg_of <$> reqs) !! key prefix k = Some t' ∧
    t' == t - inject_Z (takes k reqs).
Proof.
  revert live t. induction reqs as [|req reqs IH]; intros live t Ha Hl.
  { exists t. split; [done|]. change (inject_Z (takes k [])) with 0. ring. }
  cbn [fmap list_fmap foldl]. assert (asked reqs) as Ha' by (intros r Hr; apply Ha; by right).
  destruct (Ha req (list_elem_of_here _ _)) as [Hlim Hpos].
  setoid_rewrite takes_cons. setoid_rewrite inject_Z_plus. rewrite inject_Z_0_1.
  unfold admit_charge at 2. cbn [arg_of aa_take aa_key]. destruct (Req_Take req) eqn:Htk; cbn [Z.eqb Pos.eqb].
  - destruct (decide (Req_Key req = k)) as [Hk|Hk].
    + rewrite Hk, Hl. rewrite bool_decide_eq_true_2 by (split_and!; [done|lia|done]).
      destruct (IH (<[key prefix k := num_sub t (of_Z 1)]> live) (num_sub t (of_Z 1)) Ha')
        as (t' & -> & Ht'); [by rewrite lookup_insert_eq|].
      exists t'. split; [done|]. rewrite Ht'. cbn [num_sub of_Z Num_Q]. ring.
    + rewrite bool_decide_eq_false_2 by tauto.
      assert (∀ m : gmap string Q, m = live ∨ (∃ x, m = <[key prefix (Req_Key req) := x]> live) →
        m !! key prefix k = Some t) as Hm.
      { intros m [->|(x & ->)]; [done|]. rewrite lookup_insert_ne; [done|]. by intros ?%key_inj. }
      destruct (IH (match live !! key prefix (Req_Key req) with
        | Some t => <[key prefix (Req_Key req) := num_sub t (of_Z 1)]> live | None => live end) t Ha')
        as (t' & -> & Ht').
      { apply Hm. destruct (live !! key prefix (Req_Key req)); [right; by eexists|by left]. }
      exists t'. split; [done|]. rewrite Ht'. ring.
  - rewrite bool_decide_eq_false_2 by (intros (_ & _ & [=])).
    destruct (IH live t Ha' Hl) as (t' & -> & Ht'). exists t'. split; [done|]. rewrite Ht'. ring.
Qed.

Lemma write_back_spec c s live order rd x :
  ∃ rd', foldl (write_back c s live) rd order = rd' ∧
  (x ∉ order → rd' !! x = rd !! x) ∧
  (x ∈ order → ∃ h, rd' !! x = Some h ∧ h_t h = default zero_T (live !! x) ∧
     h_ts h = default 0%Z (al_ts s !! x) ∧ ∀ ttl, al_ttl s !! x = Some ttl → h_until h = Some (c + ttl)%Z).
Proof.
  eexists. split; [done|]. revert rd. induction order as [|k order IH]; intros rd; [split; [done|set_solver]|].
  cbn [foldl]. destruct (IH (write_back c s live rd k)) as [IH1 IH2]. split.
  - intros [Hne Hx]%not_elem_of_cons. rewrite IH1 by done. unfold write_back. by rewrite lookup_insert_ne.
  - intros Hx. destruct (decide (x ∈ order)) as [Hin|Hnin]; [by apply IH2|].
    apply elem_of_cons in Hx as [->|?]; [|done]. rewrite IH1 by done. unfold write_back.
    rewrite lookup_insert_eq. eexists. split_and!; [done..|]. by intros ttl ->.
Qed.

(** A script renews the hashes of the keys it is asked about, and leaves the
    others alone. *)
Definition renewed (c : Z) rd rd' (ks : list string) : Prop := ∀ k,
  (k ∈ ks → ∃ h, rd' !! key prefix k = Some h ∧ h_until h = Some (c + kept_for)%Z) ∧
  (k ∉ ks → rd' !! key prefix k = rd !! key prefix k).

Lemma takes_notin k reqs : k ∉ Req_Key <$> reqs → takes k reqs = 0%Z.
Proof.
  intros Hk. unfold takes. destruct (filter _ reqs) as [|req rest] eqn:Hf; [done|]. exfalso.
  assert (req ∈ filter (λ req, Req_Key req = k ∧ (0 < Req_PerMinute req)%Z ∧ Req_Take req = true) reqs)
    as ((<- & _) & Hin)%list_elem_of_filter by (rewrite Hf; left).
  apply Hk, list_elem_of_fmap. by exists req.
Qed.

(** Everything [admitSource] does. *)
Lemma admit_script_spec c rd now reqs :
  redis_ok rd now → asked reqs →
  ∃ f toks rd', admit_script c rd now (arg_of <$> reqs) = (f :: toks, rd') ∧ length toks = length reqs ∧
    redis_ok rd' now ∧ renewed c rd rd' (Req_Key <$> reqs) ∧
    (f = (-1)%Z ∧ (∀ req, req ∈ reqs → rsatisfied rd req now) ∧
       (∀ k, rbal rd' k now == rbal rd k now - inject_Z (takes k reqs)) ∨
     ∃ j req, f = Z.of_nat j ∧ reqs !! j = Some req ∧ ¬ rsatisfied rd req now ∧
       (∀ j' req', (j' < j)%nat → reqs !! j' = Some req' → rsatisfied rd req' now) ∧
       ∀ k, rbal rd' k now == rbal rd k now).
Proof.
  intros Hok Ha. unfold admit_script. pose proof (refilled_all rd now reqs Hok Ha) as [Hlive Hkeys Horder Htoks Httl].
  set (s := foldl _ _ _) in *. pose proof (admit_failed_spec rd now reqs (al_tokens s) 0 Htoks) as Hfail.
  set (f := admit_failed _ _ _) in *.
  eexists f, _, _. split; [done|]. split; [by rewrite length_fmap, length_fmap|].
  set (live := if (f <? 0)%Z then _ else _).
  (* what was left of each bucket asked about *)
  assert (∀ k, k ∈ Req_Key <$> reqs → ∃ t, live !! key prefix k = Some t ∧
    t == rbal rd k now - (if (f <? 0)%Z then inject_Z (takes k reqs) else 0)) as Hlv.
  { intros k Hk. apply Hkeys in Hk as [t Ht]. destruct (Hlive k t Ht) as [Hq _]. unfold live.
    destruct (f <? 0)%Z.
    - destruct (admit_charge_spec reqs (al_live s) k t Ha Ht) as (t' & -> & Ht'). exists t'.
      split; [done|]. by rewrite Ht', Hq.
    - exists t. split; [done|]. rewrite Hq. ring. }
  (* and so of every hash *)
  assert (∀ k h, foldl (write_back c s live) rd (al_order s) !! key prefix k = Some h →
    (k ∉ Req_Key <$> reqs) ∧ rd !! key prefix k = Some h ∨
    (k ∈ Req_Key <$> reqs) ∧ h_ts h = now ∧
      h_t h == rbal rd k now - (if (f <? 0)%Z then inject_Z (takes k reqs) else 0)) as Hrd'.
  { intros k h Hh. destruct (write_back_spec c s live (al_order s) rd (key prefix k)) as (rd' & Heq & H1 & H2).
    rewrite Heq in Hh. destruct (decide (k ∈ Req_Key <$> reqs)) as [Hk|Hk].
    - right. destruct H2 as (h' & Hh' & Ht & Hts & _); [apply Horder; by exists k|].
      rewrite Hh in Hh'. injection Hh' as <-. destruct (Hlv k Hk) as (t & Hl & Hq).
      destruct (proj2 (Hkeys k) Hk) as [t0 Ht0]. destruct (Hlive k t0 Ht0) as [_ Hts'].
      rewrite Hl in Ht. rewrite Hts' in Hts. simpl in *. by rewrite Ht.
    - left. split; [done|]. rewrite <- Hh. symmetry. apply H1. intros (k' & ->%key_inj & ?)%Horder. done. }
  assert (∀ k, 0 <= (if (f <? 0)%Z then inject_Z (takes k reqs) else 0)) as Htk.
  { intros k. destruct (f <? 0)%Z; [|lra]. change 0 with (inject_Z 0). rewrite <- Zle_Qle. unfold takes. lia. }
  assert (∀ k, rbal (foldl (write_back c s live) rd (al_order s)) k now ==
    rbal rd k now - (if (f <? 0)%Z then inject_Z (takes k reqs) else 0)) as Hbal.
  { intros k. destruct (decide (k ∈ Req_Key <$> reqs)) as [Hk|Hk].
    - destruct (write_back_spec c s live (al_order s) rd (key prefix k)) as (rd' & Heq & _ & H2).
      destruct H2 as (h & Hh & _); [apply Horder; by exists k|]. rewrite <- Heq in Hh.
      destruct (Hrd' k h Hh) as [[? _]|(_ & Hts & Ht)]; [done|]. rewrite <- Ht.
      apply (rbal_written _ k h now Hh Hts). rewrite Ht. pose proof (rbal_le_limit rd k now Hok).
      specialize (Htk k). lra.
    - rewrite takes_notin by done. destruct (write_back_spec c s live (al_order s) rd (key prefix k)) as (rd' & Heq & H1 & _).
      unfold rbal, script_refill. rewrite Heq, H1.
      + change (inject_Z 0) with 0. destruct (f <? 0)%Z; ring.
      + intros (k' & ->%key_inj & ?)%Horder. done. }
  split.
  - intros k h Hh. destruct (Hrd' k h Hh) as [[_ Hold]|(Hk & Hts & Ht)]; [by apply Hok|].
    apply list_elem_of_fmap in Hk as (req & -> & Hreq). destruct (Ha req Hreq) as [_ Hpos].
    split; [done|]. split; [|lia]. rewrite Ht. pose proof (rbal_le_limit rd (Req_Key req) now Hok).
    specialize (Htk (Req_Key req)). lra.
  - split.
    { intros k. destruct (write_back_spec c s live (al_order s) rd (key prefix k)) as (rd' & Heq & H1 & H2). rewrite Heq. split.
      - intros Hk. destruct H2 as (h & Hh & _ & _ & Hu); [apply Horder; by exists k|]. exists h. split; [done|]. by apply Hu, Httl.
      - intros Hk. apply H1. intros (k' & ->%key_inj & ?)%Horder. done. }
    destruct Hfail as [[Hf Hall]|(j & req & Hf & Hj & Hn & Hb)]; rewrite Hf in *.
    + left. split; [done|]. split; [done|]. intros k. apply (Hbal k).
    + right. exists j, req. rewrite (proj2 (Z.ltb_ge (0 + Z.of_nat j) 0)) in Hbal by lia.
      split; [lia|]. split_and!; [done..|]. intros k. rewrite Hbal. ring.
Qed.

(** *** The charging script *)

Definition charge_of (n : Q) (req : Requirement) : charge_arg (T := Q) :=
  {| ca_key := key prefix (Req_Key req); ca_n := num_mul n (of_Z 1000);
     ca_perSec := (rate (Req_PerMinute req)).1; ca_burst := (rate (Req_PerMinute req)).2 |}.

Lemma charge_one_spec c rd out now n req :
  redis_ok rd now → Req_PerMinute req = limit (Req_Key req) → (0 < limit (Req_Key req))%Z → 0 <= n →
  let '(rd', out') := charge_one c now (rd, out) (charge_of n req) in
  redis_ok rd' now ∧ renewed c rd rd' [Req_Key req] ∧ length out' = S (length out) ∧
  ∀ k, rbal rd' k now == rbal rd k now - (if bool_decide (k = Req_Key req) then n else 0).
Proof.
  intros Hok Hlim Hpos Hn. unfold charge_one. cbn [charge_of ca_key ca_n ca_perSec ca_burst].
  rewrite Hlim. set (k0 := Req_Key req) in *.
  assert (cap (script_refill rd (key prefix k0) now (rate (limit k0)).1 (rate (limit k0)).2).1 (rate (limit k0)).2
    == rbal rd k0 now) as Hcap by (unfold rbal; by destruct (script_refill _ _ _ _ _)).
  assert ((script_refill rd (key prefix k0) now (rate (limit k0)).1 (rate (T := Q) (limit k0)).2).2 = now) as Hts.
  { destruct (rd !! key prefix k0) as [h|] eqn:Hh.
    - pose proof (script_refill_some rd k0 h now Hh (proj2 (proj2 (Hok k0 h Hh)))) as Hr.
      destruct (script_refill _ _ _ _ _). apply Hr.
    - unfold script_refill. by rewrite Hh. }
  destruct (script_refill _ _ _ _ _) as [t ts]. cbn [fst snd] in *. subst ts.
  set (t' := num_sub _ _). assert (t' == rbal rd k0 now - n) as Ht'.
  { unfold t'. cbn [num_sub num_div num_mul of_Z Num_Q]. change (inject_Z 1000) with 1000.
    assert (n * 1000 / 1000 == n) as -> by field. lra. }
  pose proof (rbal_le_limit rd k0 now Hok) as Hle.
  assert (num_ltb (of_Z 0) (rate (T := Q) (limit k0)).1 = true) as ->.
  { apply num_ltb_Q. cbn. apply (Qlt_shift_div_l); [done|]. assert (0 < inject_Z (limit k0)) by (change 0 with (inject_Z 0); by rewrite <- Zlt_Qlt).
    change (inject_Z 0) with 0. lra. }
  rewrite (want_ttl_two_minutes (limit k0) Hpos). change 120000%Z with kept_for.
  split; [|split; [|split; [by rewrite length_app, Nat.add_1_r|]]].
  2: { intros k. rewrite list_elem_of_singleton. split; [intros ->; rewrite lookup_insert_eq; by eexists|].
       intros Hne. apply lookup_insert_ne. by intros <-%key_inj. }
  - intros k h Hh. destruct (decide (k = k0)) as [->|Hne].
    + rewrite lookup_insert_eq in Hh. injection Hh as <-. split; [done|]. simpl. split; [lra|lia].
    + rewrite lookup_insert_ne in Hh by (by intros ?%key_inj). by apply Hok.
  - intros k. case_bool_decide as Hk; [subst k|].
    + rewrite <- Ht'. erewrite rbal_written; [|by rewrite lookup_insert_eq|done|simpl; lra]. done.
    + unfold rbal, script_refill. rewrite lookup_insert_ne by (by intros ?%key_inj). ring.
Qed.

Lemma charge_script_spec c rd now reqs n :
  redis_ok rd now → asked reqs → 0 <= n →
  let '(out, rd') := charge_script c rd now (charge_of n <$> reqs) in
  redis_ok rd' now ∧ renewed c rd rd' (Req_Key <$> reqs) ∧ length out = length reqs ∧
  ∀ k, rbal rd' k now == rbal rd k now - n * inject_Z (charges k reqs).
Proof.
  intros Hok Ha Hn. unfold charge_script.
  assert (∀ out, let '(rd', out') := foldl (charge_one c now) (rd, out) (charge_of n <$> reqs) in
    redis_ok rd' now ∧ renewed c rd rd' (Req_Key <$> reqs) ∧ length out' = (length out + length reqs)%nat ∧
    ∀ k, rbal rd' k now == rbal rd k now - n * inject_Z (charges k reqs)) as Hgen.
  { revert rd Hok. induction reqs as [|req reqs IH]; intros rd Hok out.
    { split; [done|]. split; [intros k; split; [set_solver|done]|]. split; [simpl; lia|]. intros k. change (inject_Z (charges k [])) with 0. ring. }
    assert (asked reqs) as Ha' by (intros r Hr; apply Ha; by right).
    destruct (Ha req (list_elem_of_here _ _)) as [Hlim Hpos]. cbn [fmap list_fmap foldl].
    pose proof (charge_one_spec c rd out now n req Hok Hlim Hpos Hn) as Hone.
    destruct (charge_one _ _ _ _) as [rd1 out1]. destruct Hone as (Hok1 & Hren1 & Hlen1 & Hb1).
    specialize (IH Ha' rd1 Hok1 out1). change (list_fmap _ _ (charge_of n) reqs) with (charge_of n <$> reqs).
    destruct (foldl _ _ _) as [rd2 out2]. destruct IH as (Hok2 & Hren2 & Hlen2 & Hb2).
    split; [done|]. split.
    { intros k. destruct (Hren1 k) as [H1 H2], (Hren2 k) as [H3 H4]. rewrite elem_of_cons. rewrite list_elem_of_singleton in H1, H2. split.
      - intros [->|Hk]; [|by apply H3]. destruct (decide (Req_Key req ∈ Req_Key <$> reqs)); [by apply H3|]. rewrite H4 by done. by apply H1.
      - intros Hk. rewrite H4 by tauto. apply H2. tauto. }
    split; [simpl; lia|]. intros k. rewrite Hb2, Hb1, charges_cons, inject_Z_plus, inject_Z_0_1.
    rewrite (bool_decide_ext (k = Req_Key req) (Req_Key req = k ∧ (0 < Req_PerMinute req)%Z)) by
      (split; [intros ->; split; [done|lia]|by intros [-> _]]).
    destruct (bool_decide _); ring. }
  specialize (Hgen []). destruct (foldl _ _ _) as [rd' out]. exact Hgen.
Qed.

(** *** Redis and memory *)

(** The hashes hold at [now], in milliseconds, what the in-memory buckets hold
    at the same instant. *)
Record mirrors rd (l : gmap string (bucket (T := Q))) now : Prop := {
  mi_redis : redis_ok rd now;
  mi_limiter : limiter_ok limit l (now * Millisecond);
  mi_span k b : l !! k = Some b → (0 <= last b)%Z;
  mi_now : (0 <= now)%Z;
  mi_bal k : (0 < limit k)%Z → rbal rd k now == bal limit l k (now * Millisecond);
}.

Lemma bal_passes (l : gmap string (bucket (T := Q))) k now later :
  limiter_ok limit l now → (0 < limit k)%Z → (now <= later <= max_duration)%Z → (0 <= now)%Z →
  (∀ b, l !! k = Some b → (0 <= last b)%Z) →
  bal limit l k later == Qmin (limitQ limit k) (bal limit l k now + gain limit k (later - now)).
Proof.
  intros Hok Hpos Hle H0 Hspan.
  assert (0 <= gain limit k (later - now)) as Hg by (apply gain_nonneg; [done|lia]).
  destruct (l !! k) as [b|] eqn:Hb.
  - destruct (bal_some limit l k b now Hok Hb) as (A1 & A2 & A3).
    destruct (bal_some limit l k b later (limiter_ok_later _ _ _ _ Hok (proj1 Hle)) Hb) as (B1 & B2 & B3).
    specialize (Hspan b eq_refl). destruct (Hok k b Hb) as [_ [_ _ _ Hlast _]].
    rewrite time_sub_exact in A2, A3, B2, B3 by lia.
    assert (gain limit k (later - last b) == gain limit k (now - last b) + gain limit k (later - now)) as E.
    { rewrite <- gain_add. by replace (now - last b + (later - now))%Z with (later - last b)%Z by lia. }
    destruct (Qlt_le_dec (limitQ limit k) (bal limit l k now + gain limit k (later - now))) as [Hlt|Hge].
    + rewrite Q.min_l by lra. destruct A3, B3; lra.
    + rewrite Q.min_r by lra. destruct A3, B3; lra.
  - rewrite !bal_none by done. rewrite Q.min_l by lra. lra.
Qed.

Lemma mirrors_later rd l now later :
  mirrors rd l now → (now <= later)%Z → (later * Millisecond <= max_duration)%Z → mirrors rd l later.
Proof.
  intros [Hr Hl Hs H0 Hb] Hle Hmax. split; [by eapply redis_ok_later| |done|lia|].
  - eapply limiter_ok_later; [done|]. unfold Millisecond. lia.
  - intros k Hk. rewrite (rbal_later rd k now later) by done.
    rewrite (bal_passes l k (now * Millisecond) (later * Millisecond)); [|done|done| | |by apply Hs].
    + rewrite Hb, drip_gain by done. by replace ((later - now) * Millisecond)%Z with
        (later * Millisecond - now * Millisecond)%Z by lia.
    + unfold Millisecond in *. lia.
    + unfold Millisecond in *. lia.
Qed.

Lemma stamped_span now (l l' : gmap string (bucket (T := Q))) :
  stamped now l l' → (0 <= now)%Z → (∀ k b, l !! k = Some b → (0 <= last b)%Z) →
  ∀ k b, l' !! k = Some b → (0 <= last b)%Z.
Proof.
  intros Hst H0 Hs k b Hb. destruct (Hst k) as [Heq|(b' & Hb' & Hl)].
  - apply (Hs k). by rewrite <- Heq.
  - rewrite Hb in Hb'. injection Hb' as <-. lia.
Qed.

Lemma mirrors_satisfied rd l now req :
  mirrors rd l now → (0 < Req_PerMinute req)%Z → (0 < limit (Req_Key req))%Z →
  rsatisfied rd req now ↔ satisfied limit l req (now * Millisecond).
Proof.
  intros Hm Hp Hpos. unfold rsatisfied, satisfied. pose proof (mi_bal _ _ _ Hm _ Hpos) as Hb.
  split; [intros Hs; right|intros [?|Hs]; [lia|]]; destruct (Req_Take req); lra.
Qed.

(** *** Admitting in Redis and in memory *)

Definition limited (req : Requirement) : Prop := (0 < Req_PerMinute req)%Z.
#[global] Instance limited_dec req : Decision (limited req).
Proof. unfold limited. apply _. Defined.

Lemma admitArgs_args reqs i : (admitArgs prefix reqs i).*1 = arg_of <$> filter limited reqs.
Proof.
  revert i. induction reqs as [|req reqs IH]; intros i; [done|]. cbn [admitArgs].
  destruct (Req_PerMinute req <=? 0)%Z eqn:Hp; to_prop.
  - rewrite filter_cons_False by (unfold limited; lia). apply IH.
  - rewrite filter_cons_True by (unfold limited; lia). simpl. by rewrite IH.
Qed.

(** The index kept with an argument is that of its requirement. *)
Lemma admitArgs_index reqs i j req :
  filter limited reqs !! j = Some req →
  ∃ m, (admitArgs (T := Q) prefix reqs i).*2 !! j = Some (i + Z.of_nat m)%Z ∧ reqs !! m = Some req ∧
    ∀ m' req', (m' < m)%nat → reqs !! m' = Some req' → limited req' →
      ∃ j', (j' < j)%nat ∧ filter limited reqs !! j' = Some req'.
Proof.
  revert i j. induction reqs as [|r reqs IH]; intros i j; [done|]. cbn [admitArgs].
  destruct (Req_PerMinute r <=? 0)%Z eqn:Hp; to_prop.
  - rewrite filter_cons_False by (unfold limited; lia). intros Hj.
    destruct (IH (i + 1)%Z j Hj) as (m & Hm & Hreq & Hb). exists (S m). split; [|split; [done|]].
    + etrans; [exact Hm|f_equal; lia].
    + intros [|m'] req' Hlt Hr' Hl; [simplify_eq/=; unfold limited in Hl; lia|]. eapply Hb; [|done..]. lia.
  - rewrite filter_cons_True by (unfold limited; lia). destruct j as [|j]; simpl.
    + intros [= <-]. exists 0%nat. rewrite Z.add_0_r. split; [done|]. split; [done|]. intros; lia.
    + intros Hj. destruct (IH (i + 1)%Z j Hj) as (m & Hm & Hreq & Hb). exists (S m). split; [|split; [done|]].
      * etrans; [exact Hm|f_equal; lia].
      * intros [|m'] req' Hlt Hr' Hl; [simplify_eq/=; by exists 0%nat; split; [lia|]|].
        destruct (Hb m' req') as (j' & Hj' & Hf); [lia|done..|]. exists (S j'). split; [lia|done].
Qed.

Lemma asked_limited reqs : reqs_ok limit reqs → asked (filter limited reqs).
Proof. intros Hr req [Hl Hin]%list_elem_of_filter. rewrite <- (Hr req Hin Hl). done. Qed.

Lemma takes_limited k reqs : takes k (filter limited reqs) = takes k reqs.
Proof.
  unfold takes. rewrite list_filter_filter. do 2 f_equal. apply list_filter_iff. unfold limited. naive_solver.
Qed.

Lemma charges_limited k reqs : charges k (filter limited reqs) = charges k reqs.
Proof.
  unfold charges. rewrite list_filter_filter. do 2 f_equal. apply list_filter_iff. unfold limited. naive_solver.
Qed.

Lemma mirrors_step rd' l l' now :
  stamped (now * Millisecond) l l' → redis_ok rd' now → limiter_ok limit l' (now * Millisecond) →
  (0 <= now)%Z → (∀ k b, l !! k = Some b → (0 <= last b)%Z) →
  (∀ k, (0 < limit k)%Z → rbal rd' k now == bal limit l' k (now * Millisecond)) → mirrors rd' l' now.
Proof.
  intros Hst Hr Hl H0 Hs Hb. split; [done|done| |done|done].
  eapply stamped_span; [exact Hst|unfold Millisecond; lia|done].
Qed.

(** The script on what [Admit] makes of the requirements decides as the
    in-memory limiter, and mirrors what it leaves. *)
Lemma admit_script_mirrors c rd l now reqs :
  mirrors rd l now → reqs_ok limit reqs →
  let args := admitArgs prefix reqs 0 in
  let '(i, l') := Limiter.Admit l reqs (now * Millisecond) in
  ∃ f toks rd', admit_script c rd now args.*1 = (f :: toks, rd') ∧ length toks = length args ∧
    renewed c rd rd' (Req_Key <$> filter limited reqs) ∧
    (if (f >=? 0)%Z then default (-1)%Z (args.*2 !! Z.to_nat f) else (-1)%Z) = i ∧ mirrors rd' l' now.
Proof.
  intros Hm Hreqs args. pose proof Hm as [Hr Hl Hs H0 Hb].
  pose proof (Admit_stamped limit l reqs _ Hl Hreqs) as Hst.
  pose proof (Admit_spec limit l reqs _ Hl Hreqs) as Hmem.
  destruct (Limiter.Admit l reqs _) as [i l']. simpl in Hst. destruct Hmem as [Hl' Hmem].
  destruct (admit_script_spec c rd now (filter limited reqs) Hr (asked_limited reqs Hreqs))
    as (f & toks & rd' & Hrun & Hlen & Hr' & Hren & Hres).
  exists f, toks, rd'. unfold args. rewrite admitArgs_args. split; [done|].
  split. { rewrite Hlen, <- (length_fmap arg_of), <- admitArgs_args with (i := 0%Z). by rewrite length_fmap. }
  split; [exact Hren|].
  assert (∀ req, limited req → req ∈ reqs → rsatisfied rd req now ↔ satisfied limit l req (now * Millisecond)) as Hsat.
  { intros req Hlim Hin. apply mirrors_satisfied; [done|done|]. rewrite <- (Hreqs req Hin Hlim). done. }
  destruct Hres as [(-> & Hall & Hbal)|(j & req & -> & Hj & Hn & Hbefore & Hbal)].
  - (* admitted *)
    destruct Hmem as [(-> & _ & Hbal')|(m & req & _ & Hm' & Hn & _)].
    2: { exfalso. destruct (decide (limited req)) as [Hlim|Hlim]; [|apply Hn; left; unfold limited in Hlim; lia].
      apply list_elem_of_lookup_2 in Hm'. apply Hn, Hsat, Hall; [done..|]. by apply list_elem_of_filter. }
    split; [done|]. apply (mirrors_step rd' l); [done..|]. intros k Hk.
    rewrite Hbal, Hbal', takes_limited, Hb by done. lra.
  - (* refused *)
    destruct (admitArgs_index reqs 0 j req Hj) as (m & Hidx & Hm' & Hfirst).
    assert (limited req ∧ req ∈ reqs) as [Hlim Hin]
      by (apply list_elem_of_lookup_2, list_elem_of_filter in Hj; done).
    assert (∀ m' req', (m' < m)%nat → reqs !! m' = Some req' → satisfied limit l req' (now * Millisecond)) as Hbf.
    { intros m' req' Hlt Hr''. destruct (decide (limited req')) as [Hlim'|Hlim'];
        [|left; unfold limited in Hlim'; lia].
      destruct (Hfirst m' req' Hlt Hr'' Hlim') as (j' & Hj' & Hf).
      apply Hsat; [done|by eapply list_elem_of_lookup_2|by eapply Hbefore]. }
    rewrite Z.geb_leb, (proj2 (Z.leb_le 0 (Z.of_nat j))), Nat2Z.id, Hidx by lia. simpl.
    assert (¬ satisfied limit l req (now * Millisecond)) as Hn' by (by rewrite <- Hsat).
    destruct Hmem as [(_ & Hall & _)|(m2 & req2 & -> & Hm2 & Hn2 & Hb2 & Hag)]; [by destruct Hn'; apply Hall|].
    split.
    { assert (m = m2) as ->; [|lia]. destruct (lt_eq_lt_dec m m2) as [[Hlt| ->]|Hlt]; [|done|].
      - destruct Hn'. by eapply Hb2.
      - destruct Hn2. by eapply Hbf. }
    apply (mirrors_step rd' l); [done..|]. intros k Hk. rewrite Hbal, (proj1 Hag), Hb by done. lra.
Qed.
End exact.

(** *** Several replicas *)

Inductive shared_op := SAdmit (reqs : list Requirement) | SCharge (reqs : list Requirement) (n : Q).

(** The keys an operation asks the limiter about. *)
Definition asks_of (op : shared_op) : list string :=
  match op with
  | SAdmit reqs => Req_Key <$> filter limited reqs
  | SCharge reqs n => if num_eqb n (of_Z 0) then [] else Req_Key <$> filter limited reqs
  end.

(** A run of operations, each by a replica in some state of its own, at an
    instant in milliseconds; only the hashes pass from one to the next. *)
Fixpoint shared_run `{Link} `{MapRange} (prefix : string) (rd : gmap string (hash Q))
    (ops : list (Redis (T := Q) * Z * shared_op)) : list Z :=
  match ops with
  | [] => []
  | (r, now, op) :: ops =>
      match op with
      | SAdmit reqs =>
          let '(i, r) := Admit prefix (r <| r_store := rd |>) reqs (now * Millisecond) in
          i :: shared_run prefix (r_store r) ops
      | SCharge reqs n =>
          shared_run prefix
            (r_store (ChargeAll prefix 0 (r <| r_store := rd |>) reqs n (now * Millisecond))) ops
      end
  end.

(** One in-memory limiter that forgets: its buckets, and when each key was last
    asked about, on the clock of Redis. It drops the buckets nobody has asked
    about for more than two minutes before it is asked anything. *)
Record forgetful := { f_buckets : gmap string (bucket (T := Q)); f_seen : gmap string Z }.

Definition idle (seen : gmap string Z) (clock_ : Z) (k : string) : bool :=
  match seen !! k with Some at_ => at_ + kept_for <? clock_ | None => false end%Z.

Definition forget (clock_ : Z) (f : forgetful) : forgetful :=
  {| f_buckets := filter (λ kv, idle (f_seen f) clock_ kv.1 = false) (f_buckets f);
     f_seen := filter (λ kv, idle (f_seen f) clock_ kv.1 = false) (f_seen f) |}.

Definition see (clock_ : Z) (ks : list string) (seen : gmap string Z) : gmap string Z := foldr (λ k, <[k := clock_]>) seen ks.

(** The same run on it. *)
Fixpoint single_run `{Link} (f : forgetful) (ops : list (Redis (T := Q) * Z * shared_op)) : list Z :=
  match ops with
  | [] => []
  | (r, now, op) :: ops =>
      let clock_ := server (r_trips r) in
      let f := if bool_decide (asks_of op = []) then f else forget clock_ f in
      let seen := see clock_ (asks_of op) (f_seen f) in
      match op with
      | SAdmit reqs =>
          let '(i, l) := Limiter.Admit (f_buckets f) reqs (now * Millisecond) in
          i :: single_run {| f_buckets := l; f_seen := seen |} ops
      | SCharge reqs n =>
          single_run {| f_buckets := Limiter.ChargeAll (f_buckets f) reqs n (now * Millisecond); f_seen := seen |} ops
      end
  end.

Definition forgetful_zero : forgetful := {| f_buckets := ∅; f_seen := ∅ |}.

(** The operations keep to the limits in force, and charge no less than
    nothing. *)
Definition shared_op_ok (limit : string → Z) (op : shared_op) : Prop :=
  match op with
  | SAdmit reqs => reqs_ok limit reqs
  | SCharge reqs n => reqs_ok limit reqs ∧ 0 <= n
  end.

(** The replica is not resting from a failure, and its round trip arrives. *)
Definition connected `{Link} (r : Redis (T := Q)) : Prop :=
  (r_resting r <= wall (r_reads r))%Z ∧ fate (r_trips r) = Arrived.

(** Instants that do not go back, from [t] on and within 292 years of 1970. *)
Fixpoint in_order (t : Z) (ops : list (Redis (T := Q) * Z * shared_op)) : Prop :=
  match ops with
  | [] => True
  | (_, now, _) :: ops => (t <= now)%Z ∧ (now * Millisecond <= max_duration)%Z ∧ in_order now ops
  end.

Section shared.
Context `{Link} `{MapRange} (limit : string → Z) (prefix : string).
Implicit Types (rd : gmap string (hash Q)) (f : forgetful).

Lemma skip_connected (r : Redis (T := Q)) rd :
  connected r → ∃ r', skip (r <| r_store := rd |>) = (false, r') ∧
    r_store r' = rd ∧ r_trips r' = r_trips r ∧ fate (r_trips r') = Arrived.
Proof.
  intros [Hw Hf]. unfold skip, clock. simpl. rewrite (proj2 (Z.ltb_ge _ _) Hw). by eexists.
Qed.

Lemma run_script_arrived (r : Redis (T := Q)) script out rd expect :
  fate (r_trips r) = Arrived → script (server (r_trips r)) (unexpired (server (r_trips r)) (r_store r)) = (out, rd) → length out = expect →
  ∃ r', run_script r script expect = (Some out, r') ∧ r_store r' = rd.
Proof.
  intros Hf Hs Hl. unfold run_script. rewrite Hs, Hf. eexists.
  by rewrite bool_decide_eq_true_2.
Qed.

Lemma UnixMilli_whole now : UnixMilli (now * Millisecond) = now.
Proof. unfold UnixMilli, Millisecond. by rewrite Z.div_mul. Qed.

(** Redis keeps of every key what the limiter remembers, and as long. *)
Definition dated rd (seen : gmap string Z) : Prop := ∀ k,
  match seen !! k with
  | Some at_ => ∃ h, rd !! key prefix k = Some h ∧ h_until h = Some (at_ + kept_for)%Z
  | None => rd !! key prefix k = None
  end.

Definition same_memory rd f now : Prop := mirrors limit prefix rd (f_buckets f) now ∧ dated rd (f_seen f).

Lemma unexpired_lookup clock_ rd seen k : dated rd seen →
  unexpired clock_ rd !! key prefix k = if idle seen clock_ k then None else rd !! key prefix k.
Proof.
  intros Hd. specialize (Hd k). unfold unexpired, idle. destruct (seen !! k) as [at_|].
  - destruct Hd as (h & Hh & Hu). destruct (at_ + kept_for <? clock_)%Z eqn:Hold.
    + apply map_lookup_filter_None_2. right. intros h' Hh'. rewrite Hh in Hh'. injection Hh' as <-. unfold expired. cbn. by rewrite Hu, Hold.
    + rewrite Hh. apply map_lookup_filter_Some_2; [done|]. unfold expired. cbn. by rewrite Hu.
  - rewrite Hd. apply map_lookup_filter_None_2. by left.
Qed.

Lemma forget_lookup clock_ {A} (seen : gmap string Z) (m : gmap string A) k :
  filter (λ kv, idle seen clock_ kv.1 = false) m !! k = if idle seen clock_ k then None else m !! k.
Proof.
  destruct (idle seen clock_ k) eqn:Hi.
  - apply map_lookup_filter_None_2. right. intros a _. cbn. by rewrite Hi.
  - destruct (m !! k) eqn:Hm; [by apply map_lookup_filter_Some_2|]. apply map_lookup_filter_None_2. by left.
Qed.

(** What Redis drops, the limiter forgets: both then take the bucket for full. *)
Lemma same_memory_forget clock_ rd f now : same_memory rd f now → same_memory (unexpired clock_ rd) (forget clock_ f) now.
Proof.
  intros [[Hr Hl Hs Hnow Hb] Hd]. split; [split|].
  - intros k h Hh. apply map_lookup_filter_Some in Hh as [Hh _]. by apply Hr.
  - intros k b Hk. cbn [forget f_buckets] in Hk. rewrite forget_lookup in Hk. destruct (idle _ _ k); [done|]. by apply Hl.
  - intros k b Hk. cbn [forget f_buckets] in Hk. rewrite forget_lookup in Hk. destruct (idle _ _ k); [done|]. by apply (Hs k).
  - done.
  - intros k Hk. pose proof (unexpired_lookup clock_ rd (f_seen f) k Hd) as Eu. pose proof (forget_lookup clock_ (f_seen f) (f_buckets f) k) as Ef.
    destruct (idle (f_seen f) clock_ k).
    + rewrite (rbal_none limit prefix _ k now Eu). symmetry. by apply bal_none.
    + specialize (Hb k Hk). unfold rbal, script_refill, bal, bucket_at in *. cbn [forget f_buckets]. by rewrite Eu, Ef.
  - intros k. pose proof (unexpired_lookup clock_ rd (f_seen f) k Hd) as Eu. cbn [forget f_seen]. rewrite forget_lookup, Eu.
    destruct (idle (f_seen f) clock_ k); [done|]. apply Hd.
Qed.

Lemma see_lookup clock_ ks seen k : see clock_ ks seen !! k = if bool_decide (k ∈ ks) then Some clock_ else seen !! k.
Proof.
  induction ks as [|k0 ks IH]; [done|]. cbn [see foldr]. destruct (decide (k0 = k)) as [->|Hne].
  - rewrite lookup_insert_eq, bool_decide_eq_true_2; [done|left].
  - rewrite lookup_insert_ne by done. fold (see clock_ ks seen). rewrite IH. rewrite (bool_decide_ext (k ∈ k0 :: ks) (k ∈ ks)); [done|]. rewrite elem_of_cons. naive_solver.
Qed.

Lemma dated_renewed clock_ rd rd' ks seen : renewed prefix clock_ rd rd' ks → dated rd seen → dated rd' (see clock_ ks seen).
Proof.
  intros Hren Hd k. rewrite see_lookup. destruct (Hren k) as [H1 H2]. case_bool_decide as Hk; [by apply H1|]. rewrite H2 by done. apply Hd.
Qed.

Lemma Admit_unasked (l : gmap string (bucket (T := Q))) reqs now : filter limited reqs = [] → Limiter.Admit l reqs now = ((-1)%Z, l).
Proof.
  intros Hf. assert (∀ req, req ∈ reqs → (Req_PerMinute req <= 0)%Z) as Hz.
  { intros req Hin. destruct (decide (limited req)) as [Hl|Hl]; [|unfold limited in Hl; lia].
    assert (req ∈ filter limited reqs) as Hx by (by apply list_elem_of_filter). rewrite Hf in Hx. by apply elem_of_nil in Hx. }
  unfold Limiter.Admit. assert (∀ i, admit_check l reqs now i = ((-1)%Z, l)) as ->.
  { clear Hf. induction reqs as [|req reqs IH]; intros i; [done|]. cbn [admit_check]. rewrite (proj2 (Z.leb_le _ _)) by (apply Hz; left).
    apply IH. intros r Hr. apply Hz. by right. }
  cbn. f_equal. clear Hf. induction reqs as [|req reqs IH]; [done|]. cbn [admit_take]. rewrite (proj2 (Z.leb_le _ _)) by (apply Hz; left).
  apply IH. intros r Hr. apply Hz. by right.
Qed.

Lemma Admit_mirrors (r : Redis (T := Q)) rd f now reqs :
  same_memory rd f now → reqs_ok limit reqs → connected r →
  let clock_ := server (r_trips r) in
  let f1 := if bool_decide (asks_of (SAdmit reqs) = []) then f else forget clock_ f in
  let '(i, r') := Admit prefix (r <| r_store := rd |>) reqs (now * Millisecond) in
  let '(i', l') := Limiter.Admit (f_buckets f1) reqs (now * Millisecond) in
  i = i' ∧ same_memory (r_store r') {| f_buckets := l'; f_seen := see clock_ (asks_of (SAdmit reqs)) (f_seen f1) |} now.
Proof.
  intros Hm Hreqs Hc clock_ f1. subst f1. unfold Admit. cbn [asks_of].
  destruct (filter limited reqs) as [|req0 rest] eqn:Hf.
  { assert (admitArgs (T := Q) prefix reqs 0 = []) as ->.
    { apply (fmap_nil_inv fst). by rewrite admitArgs_args, Hf. }
    cbn [fmap list_fmap]. rewrite bool_decide_eq_true_2 by done. rewrite Admit_unasked by done. split; [done|]. destruct f. exact Hm. }
  rewrite bool_decide_eq_false_2 by done. pose proof (same_memory_forget clock_ rd f now Hm) as [Hmi Hd].
  pose proof (admit_script_mirrors limit prefix clock_ _ _ now reqs Hmi Hreqs) as Hs. cbv zeta in Hs. rewrite Hf in Hs.
  destruct (Limiter.Admit (f_buckets (forget clock_ f)) reqs _) as [i l']. destruct Hs as (fl & toks & rd' & Hrun & Hlen & Hren & Hi & Hm').
  destruct (admitArgs prefix reqs 0) as [|a args] eqn:Hargs.
  { exfalso. assert ((admitArgs (T := Q) prefix reqs 0).*1 = []) as Hnil by (by rewrite Hargs). by rewrite admitArgs_args, Hf in Hnil. }
  destruct (skip_connected r rd Hc) as (r1 & -> & Hst & Ht & Hfate).
  destruct (run_script_arrived r1 (λ c rd, admit_script c rd (UnixMilli (now * Millisecond)) (a :: args).*1)
    (fl :: toks) rd' (S (length (a :: args))) Hfate) as (r2 & -> & Hr2).
  - by rewrite Hst, Ht, UnixMilli_whole.
  - simpl. by rewrite Hlen.
  - split; [done|]. cbn [r_store remember update]. rewrite Hr2. split; [done|]. by apply (dated_renewed clock_ (unexpired clock_ rd)).
Qed.

Lemma charge_args_of n reqs :
  charge_args prefix ((λ req, (req, n)) <$> reqs) = charge_of prefix n <$> filter limited reqs.
Proof.
  unfold charge_args. induction reqs as [|req reqs IH]; [done|]. simpl.
  destruct (Req_PerMinute req <=? 0)%Z eqn:Hp; to_prop.
  - rewrite filter_cons_False by (unfold limited; lia). apply IH.
  - rewrite filter_cons_True by (unfold limited; lia). simpl. f_equal. apply IH.
Qed.

Lemma ChargeAll_unasked (l : gmap string (bucket (T := Q))) reqs (n : Q) now : asks_of (SCharge reqs n) = [] → Limiter.ChargeAll l reqs n now = l.
Proof.
  unfold Limiter.ChargeAll. cbn [asks_of]. destruct (num_eqb n (of_Z 0)); [done|]. intros Hf%fmap_nil_inv.
  induction reqs as [|req reqs IH]; [done|]. cbn [foldl]. destruct (decide (limited req)) as [Hl|Hl].
  - by rewrite filter_cons_True in Hf.
  - rewrite filter_cons_False in Hf by done. rewrite Z.gtb_ltb, (proj2 (Z.ltb_ge _ _)) by (unfold limited in Hl; lia). by apply IH.
Qed.

(** The charging script against the in-memory charge. *)
Lemma charge_script_mirrors clock_ rd f now reqs n :
  same_memory rd f now → reqs_ok limit reqs → 0 <= n → num_eqb n (of_Z 0) = false →
  let '(out, rd') := charge_script clock_ rd now (charge_of prefix n <$> filter limited reqs) in
  length out = length (filter limited reqs) ∧ mirrors limit prefix rd' (Limiter.ChargeAll (f_buckets f) reqs n (now * Millisecond)) now ∧
  dated rd' (see clock_ (Req_Key <$> filter limited reqs) (f_seen f)).
Proof.
  intros [Hm Hd] Hreqs Hn Hz. pose proof Hm as [Hr Hl Hs Ht Hb].
  pose proof (charge_script_spec limit prefix clock_ rd now (filter limited reqs) n Hr (asked_limited limit reqs Hreqs) Hn) as Hspec.
  destruct (ChargeAll_spec limit (f_buckets f) reqs n (now * Millisecond) Hl Hreqs Hn) as [Hl' Hb'].
  pose proof (ChargeAll_stamped limit (f_buckets f) reqs n (now * Millisecond) Hl Hreqs Hn) as Hst.
  destruct (charge_script _ _ _ _) as [out rd']. destruct Hspec as (Hr' & Hren & Hlen & Hbal). split; [done|].
  split; [|by apply (dated_renewed clock_ rd)]. apply (mirrors_step limit prefix rd' (f_buckets f)); [done..|]. intros k Hk.
  rewrite Hbal, Hb', charges_limited, Hb by done. lra.
Qed.

Lemma ChargeAll_mirrors (r : Redis (T := Q)) rd f now reqs n :
  same_memory rd f now → reqs_ok limit reqs → 0 <= n → connected r →
  let clock_ := server (r_trips r) in
  let f1 := if bool_decide (asks_of (SCharge reqs n) = []) then f else forget clock_ f in
  same_memory (r_store (ChargeAll prefix 0 (r <| r_store := rd |>) reqs n (now * Millisecond)))
    {| f_buckets := Limiter.ChargeAll (f_buckets f1) reqs n (now * Millisecond); f_seen := see clock_ (asks_of (SCharge reqs n)) (f_seen f1) |} now.
Proof.
  intros Hm Hreqs Hn Hc clock_ f1. subst f1. case_bool_decide as Hnone.
  { rewrite ChargeAll_unasked, Hnone by done. unfold ChargeAll. cbn [asks_of] in Hnone. destruct (num_eqb n (of_Z 0)); [by destruct f|].
    cbn [Z.leb Z.compare]. unfold charge. apply fmap_nil_inv in Hnone. rewrite charge_args_of, Hnone. by destruct f. }
  unfold ChargeAll. cbn [asks_of] in *. destruct (num_eqb n (of_Z 0)) eqn:Hz; [done|]. cbn [Z.leb Z.compare].
  pose proof (charge_script_mirrors clock_ _ _ now reqs n (same_memory_forget clock_ rd f now Hm) Hreqs Hn Hz) as Hs.
  destruct (charge_script clock_ _ _ _) as [out rd'] eqn:Hrun. destruct Hs as (Hlen & Hm' & Hd').
  unfold charge. rewrite charge_args_of.
  destruct (charge_of prefix n <$> filter limited reqs) as [|a args] eqn:Hargs.
  { exfalso. apply fmap_nil_inv in Hargs. by rewrite Hargs in Hnone. }
  destruct (skip_connected r rd Hc) as (r1 & -> & Hst1 & Ht & Hf).
  destruct (run_script_arrived r1 (λ c rd, charge_script c rd (UnixMilli (now * Millisecond)) (a :: args))
    out rd' (length (a :: args)) Hf) as (r2 & -> & Hr2).
  - by rewrite Hst1, Ht, UnixMilli_whole.
  - by rewrite Hlen, <- Hargs, length_fmap.
  - cbn [r_store remember update]. rewrite Hr2. by split.
Qed.

Lemma runs_agree rd f t ops :
  same_memory rd f t → in_order t ops →
  (∀ r now op, (r, now, op) ∈ ops → shared_op_ok limit op ∧ connected r) →
  shared_run prefix rd ops = single_run f ops.
Proof.
  revert rd f t. induction ops as [|[[r now] op] ops IH]; intros rd f t [Hm Hd] Hord Hops; [done|].
  destruct Hord as (Hle & Hmax & Hord). destruct (Hops r now op (list_elem_of_here _ _)) as [Hop Hc].
  assert (∀ r now op, (r, now, op) ∈ ops → shared_op_ok limit op ∧ connected r) as Hops'
    by (intros; apply (Hops r0 now0); by right).
  pose proof (mirrors_later limit prefix rd (f_buckets f) t now Hm Hle Hmax) as Hm'.
  cbn [shared_run single_run]. destruct op as [reqs|reqs n].
  - pose proof (Admit_mirrors r rd f now reqs (conj Hm' Hd) Hop Hc) as Hs. cbv zeta in Hs.
    destruct (Admit _ _ _ _) as [i r']. destruct (Limiter.Admit _ _ _) as [i' l'].
    destruct Hs as [-> Hm2]. f_equal. by apply (IH _ _ now).
  - destruct Hop as [Hreqs Hn]. apply (IH _ _ now); [|done|done]. by apply ChargeAll_mirrors.
Qed.
End shared.

(** *** Expiry *)

(** The loss of a bucket that owed no more than one minute is not seen. *)
Lemma expiry_unseen (limit : string → Z) prefix (rd : gmap string (hash Q)) k h (now : Z) :
  redis_ok limit prefix rd now → rd !! key prefix k = Some h →
  - limitQ limit k <= h_t h → (h_ts h + kept_for <= now)%Z →
  rbal limit prefix (delete (key prefix k) rd) k now == rbal limit prefix rd k now.
Proof.
  intros Hok Hh Hdebt Hlate. destruct (Hok k h Hh) as (Hpos & _ & _).
  rewrite rbal_none by apply lookup_delete_eq.
  destruct (rbal_some limit prefix rd k h now Hok Hh) as (H1 & H2 & H3).
  assert (drip limit k 120000 == 2 * limitQ limit k) as Hd
    by (unfold drip; change (inject_Z 120000) with 120000; change (inject_Z 60) with 60; field).
  unfold kept_for in Hlate. assert (drip limit k (now - h_ts h) == drip limit k 120000 + drip limit k (now - h_ts h - 120000)) as Hs.
  { rewrite <- drip_add. by replace (120000 + (now - h_ts h - 120000))%Z with (now - h_ts h)%Z by lia. }
  assert (0 <= drip limit k (now - h_ts h - 120000)) by (apply drip_nonneg; [done|lia]).
  destruct H3; lra.
Qed.

(** But a deeper debt is forgiven: ten minutes' worth of tokens charged at
    once leave the bucket empty for ten minutes if anyone asks, and full after
    two if nobody does. *)
Lemma expiry_forgives_debt :
  let limit := λ _, 60%Z in
  let rd := (charge_script 0 ∅ 0 [charge_of "keera" 600 {| Req_Key := "k"; Req_PerMinute := 60; Req_Take := false |}]).2 in
  (h_until <$> rd !! key "keera" "k") = Some (Some kept_for) ∧
  rbal limit "keera" rd "k" 120001 < - (419) ∧
  rbal limit "keera" (unexpired 120001 rd) "k" 120001 == 60.
Proof. split_and!; vm_compute; reflexivity. Qed.

(** ** Properties *)

(** C6: replicas that share Redis are one limiter. Over any run of requests
    admitted and tokens charged, each by any replica in any state of its own
    whose round trip arrives: what Redis's scripts decide, and the requirement
    they name when they refuse, is what a single in-memory limiter decides for
    the same run, if it forgets a bucket, and with it its debt, once nobody has
    asked about it for more than two minutes on the clock of Redis: that is when
    the bucket's key expires. Computed with exact numbers, while the limit of a
    key stays the same, and for operations in the order of their instants. *)
Theorem replicas_are_one_limiter `{Link} `{MapRange} (limit : string → Z) (prefix : string)
    (t : Z) (ops : list (Redis (T := Q) * Z * shared_op)) :
  (0 <= t)%Z → in_order t ops →
  (∀ r now op, (r, now, op) ∈ ops → shared_op_ok limit op ∧ connected r) →
  shared_run prefix ∅ ops = single_run forgetful_zero ops.
Proof.
  intros Ht Hord Hops. apply (runs_agree limit prefix ∅ forgetful_zero t); [|done|done]. split; [split; try done|by intros k].
  intros k Hk. rewrite rbal_none, bal_none by apply lookup_empty. done.
Qed.

(** Without Redis the gateway still limits. When a replica is resting from a
    failure, or the script's answer does not arrive, the decision is exactly the
    in-memory limiter's on the replica's own buckets, the buckets it leaves are
    that limiter's, and after a failure it rests for five seconds before it asks
    again. *)
Theorem Admit_degrades `{Num T} `{Link} `{MapRange} (prefix : string) (r : Redis (T := T))
    (reqs : list Requirement) (now : Z) :
  (∃ req, req ∈ reqs ∧ (0 < Req_PerMinute req)%Z) →
  (wall (r_reads r) < r_resting r)%Z ∨ fate (r_trips r) ≠ Arrived →
  let '(i, r') := Admit prefix r reqs now in
  (i, r_local r') = Limiter.Admit (r_local r) reqs now ∧
  ((wall (r_reads r) < r_resting r)%Z ∨ r_resting r' = (wall (S (r_reads r)) + restFor)%Z).
Proof.
  intros (req & Hin & Hpos) Hdown. unfold Admit.
  assert (admitArgs prefix reqs 0 ≠ []) as Hne.
  { intros Hnil. clear Hdown. revert Hnil. generalize 0%Z. induction reqs as [|r0 reqs IH]; [by apply elem_of_nil in Hin|].
    intros i. cbn [admitArgs]. destruct (Req_PerMinute r0 <=? 0)%Z eqn:Hp; to_prop; [|done].
    apply elem_of_cons in Hin as [->|Hin]; [lia|]. by apply IH. }
  destruct (admitArgs prefix reqs 0) as [|a args]; [done|]. unfold skip, clock. cbv beta iota zeta.
  change (r_resting (r <| r_reads := S (r_reads r) |>)) with (r_resting r).
  destruct (wall (r_reads r) <? r_resting r)%Z eqn:Hrest; to_prop.
  { unfold local_Admit. change (r_local (r <| r_reads := S (r_reads r) |>)) with (r_local r).
    destruct (Limiter.Admit (r_local r) reqs now) as [i l]. split; [done|by left]. }
  destruct Hdown as [?|Hf]; [lia|].
  generalize (λ c rd, admit_script c rd (UnixMilli now) (a :: args).*1). intros script.
  assert (∃ r1, run_script (r <| r_reads := S (r_reads r) |>) script (S (length (a :: args))) = (None, r1) ∧
    r_local r1 = r_local r ∧ r_reads r1 = S (r_reads r)) as (r1 & -> & Hl & Hn).
  { unfold run_script. destruct (script _ _) as [out rd].
    change (r_trips (r <| r_reads := S (r_reads r) |>)) with (r_trips r).
    destruct (fate (r_trips r)); [done|by eexists|by eexists]. }
  unfold degrade, clock, local_Admit. simpl. rewrite Hl, Hn.
  destruct (Limiter.Admit (r_local r) reqs now) as [i l]. split; [done|by right].
Qed.

(** ** Examples *)

#[local] Instance steady_link : Link := {| fate _ := Arrived; server n := (Z.of_nat n * 100000)%Z; wall n := Z.of_nat n |}.
#[local] Instance broken_link : Link := {| fate _ := NeverRan; server n := Z.of_nat n; wall n := Z.of_nat n |}.
#[local] Instance list_range : MapRange.
Proof. refine {| map_range K _ _ A m := map_to_list m |}. intros. reflexivity. Defined.

Definition fresh_replica : Redis (T := Q) :=
  {| r_store := ∅; r_local := ∅; r_view := ∅; r_complain := 0; r_resting := 0; r_owed := ∅;
     r_trips := 0; r_reads := 0 |}.

(** A second replica, that has admitted on its own for a while, and the first
    one seven minutes later. *)
Definition other_replica : Redis (T := Q) :=
  {| r_store := ∅; r_local := (Limiter.Admit ∅ (ask "k") 0).2; r_view := ∅; r_complain := 0;
     r_resting := 0; r_owed := ∅; r_trips := 1; r_reads := 9 |}.

Definition later_replica : Redis (T := Q) := fresh_replica <| r_trips := 5%nat |>.

(** The debt of ten minutes is forgotten with the bucket. *)
Definition sample_shared : list (Redis (T := Q) * Z * shared_op) :=
  [(fresh_replica, 0, SAdmit (ask "k")); (other_replica, 100000, SCharge (ask "k") 600);
   (other_replica, 100400, SAdmit (ask "k")); (later_replica, 500000, SAdmit (ask "k"))]%Z.

Lemma replicas_are_one_limiter_witness :
  shared_run (H := steady_link) "keera" ∅ sample_shared = [-1; 0; -1]%Z ∧
  shared_run (H := steady_link) "keera" ∅ sample_shared = single_run (H := steady_link) forgetful_zero sample_shared.
Proof.
  split; [vm_compute; reflexivity|].
  apply (replicas_are_one_limiter (H := steady_link) sample_limit_of "keera" 0 sample_shared).
  - discriminate.
  - repeat split; discriminate.
  - intros r now op Hin.
    repeat (apply elem_of_cons in Hin as [Hin|Hin]; [injection Hin as -> -> ->|]); [..|by apply elem_of_nil in Hin];
      (split; [|split; [vm_compute; discriminate|reflexivity]]).
    + apply ask_ok.
    + split; [apply ask_ok|discriminate].
    + apply ask_ok.
    + apply ask_ok.
Defined.

Lemma Admit_degrades_witness :
  let '(i, r') := Admit (H0 := broken_link) "keera" fresh_replica (ask "k") 0 in
  (i, r_local r') = Limiter.Admit ∅ (ask "k") 0 ∧ r_resting r' = (1 + restFor)%Z.
Proof.
  pose proof (Admit_degrades (H0 := broken_link) "keera" fresh_replica (ask "k") 0) as Hd.
  destruct (Admit (H0 := broken_link) "keera" fresh_replica (ask "k") 0) as [i r'].
  destruct Hd as [H1 H2].
  - eexists. split; [left|reflexivity].
  - right. discriminate.
  - split; [exact H1|]. destruct H2 as [H2|H2]; [|exact H2]. exfalso. vm_compute in H2. discriminate.
Defined.
