(* ===== verification/Budgets.v ===== *)
(** * Budgets, quotas and credit

    [internal/registry/budget.go]: the gateway's in-memory view of what was
    spent, reconciled with the database every few seconds. Each operation runs
    under the lock, so it is one step; the pointers of the window maps are
    never shared, so a window is a value. *)
From S2P Require Import Prelude GoTime Tenancy Pricing Guardrails.
Open Scope go_scope.

(** ** Data *)

Record window := { w_start : Z; w_n : Z }.

Record credit := { balance : Z; invoiced : bool; chargeDue : Z }.

(** The zero [credit], which a missing key of the map reads as. *)
Definition credit_zero : credit := {| balance := 0; invoiced := false; chargeDue := time_zero |}.

Record Budgets := {
  bw : gmap string window;
  prepaid : bool;
  credits : gmap string credit;
  held : gmap string Z;
  running : gmap string window;
}.

Definition newBudgets (prepaid : bool) : Budgets :=
  {| bw := ∅; prepaid := prepaid; credits := ∅; held := ∅; running := ∅ |}.

(** [store.SpendRow] and [store.CreditRow]. *)
Record SpendRow := {
  Row_ScopeType : string; Row_ScopeID : string; Row_Period : string;
  Row_PeriodStart : Z; Row_Micros : Z;
}.

Record CreditRow := {
  CR_OrgID : string; CR_BalanceMicros : Z; CR_Invoiced : bool; CR_ChargeDueAt : Z;
}.

(** The errors of [internal/policy] a [Budgeter] refuses with. *)
Inductive BudgetError :=
  | ErrBudgetExceeded (sc : Scope) (spent budget resetsAt : Z)
  | ErrNoCredit (balanceMicros heldMicros : Z)
  | ErrChargeDue (since : Z).

#[export] Instance window_eq_dec : EqDecision window.
Proof. solve_decision. Defined.

(** ** Operations *)

Definition nul : Ascii.ascii := Ascii.ascii_of_nat 0.

Definition windowKey (t id p : string) : string := t +:+ String nul (id +:+ String nul p).

Definition scope_key (sc : Scope) : string := windowKey (SType sc) (SID sc) (SPeriod sc).

(** The amount one map has for an open window. *)
Definition open_amount (windows : gmap string window) (k : string) (start : Z) : Z :=
  match windows !! k with
  | Some w => if w_start w =? start then w_n w else 0
  | None => 0
  end.

(** [Budgets.spent], and [Spent]. *)
Definition spent (b : Budgets) (t id p : string) (now : Z) : Z :=
  let k := windowKey t id p in
  let start := Period_Start p now in
  foldl (λ n windows, n ⊕ open_amount windows k start) 0 [bw b; running b].

Definition Spent : Budgets → string → string → string → Z → Z := spent.

(** [Budgets.Allow]; [None] is a nil error. *)
Fixpoint Allow (b : Budgets) (scopes : list Scope) (now : Z) : option BudgetError :=
  match scopes with
  | [] => None
  | sc :: scopes =>
      if BudgetMicros sc <=? 0 then Allow b scopes now
      else
        let n := spent b (SType sc) (SID sc) (SPeriod sc) now in
        if n >=? BudgetMicros sc
        then Some (ErrBudgetExceeded sc n (BudgetMicros sc) (Period_Next (SPeriod sc) now))
        else Allow b scopes now
  end.

(** [add]. *)
Definition add (windows : gmap string window) (k : string) (start n : Z) : gmap string window :=
  match windows !! k with
  | Some w =>
      if start <? w_start w then windows
      else if w_start w <? start then <[k := {| w_start := start; w_n := 0 ⊕ n |}]> windows
      else <[k := {| w_start := w_start w; w_n := w_n w ⊕ n |}]> windows
  | None => <[k := {| w_start := start; w_n := 0 ⊕ n |}]> windows
  end.

(** [counts]. *)
Definition counts (scopes : list Scope) (meter : string) : bool :=
  existsb (λ sc, bool_decide (SMeter sc = meter)) scopes.

(** [Budgets.addEach], on one of the two maps. *)
Definition addEach (windows : gmap string window) (scopes : list Scope) (meter : string) (n now : Z)
    : gmap string window :=
  if negb (counts scopes meter) then windows
  else foldl (λ windows sc,
    if bool_decide (SMeter sc = meter)
    then add windows (scope_key sc) (Period_Start (SPeriod sc) now) n
    else windows) windows scopes.

Definition set_w (b : Budgets) (w : gmap string window) : Budgets :=
  {| bw := w; prepaid := prepaid b; credits := credits b; held := held b; running := running b |}.

Definition set_running (b : Budgets) (r : gmap string window) : Budgets :=
  {| bw := bw b; prepaid := prepaid b; credits := credits b; held := held b; running := r |}.

(** [Budgets.Tally]. *)
Definition Tally (b : Budgets) (scopes : list Scope) (meter : string) (n now : Z) : Budgets :=
  if n =? 0 then b else set_w b (addEach (bw b) scopes meter n now).

(** [Budgets.Charge]. *)
Definition Charge (b : Budgets) (scopes : list Scope) (micros now : Z) : Budgets :=
  Tally b scopes MeterCost micros now.

(** [Budgets.StartRequest]. *)
Definition StartRequest (b : Budgets) (scopes : list Scope) (now : Z) : Budgets :=
  set_running b (addEach (running b) scopes MeterRequests 1 now).

(** The running requests after one of the window at [k] that starts at [start]
    has ended. *)
Definition end_running (running : gmap string window) (k : string) (start : Z)
    : gmap string window :=
  match running !! k with
  | Some r =>
      if w_start r =? start then
        let n := w_n r ⊖ 1 in
        if n <=? 0 then delete k running
        else <[k := {| w_start := w_start r; w_n := n |}]> running
      else running
  | None => running
  end.

(** One scope of [EndRequest]'s loop. *)
Definition end_scope (b : Budgets) (now : Z) (sc : Scope) : Budgets :=
  if negb (bool_decide (SMeter sc = MeterRequests)) then b
  else
    let k := scope_key sc in
    let start := Period_Start (SPeriod sc) now in
    set_w (set_running b (end_running (running b) k start)) (add (bw b) k start 1).

(** [Budgets.EndRequest]. *)
Definition EndRequest (b : Budgets) (scopes : list Scope) (now : Z) : Budgets :=
  if negb (counts scopes MeterRequests) then b else foldl (λ b sc, end_scope b now sc) b scopes.

(** [Budgets.reconcile]. *)
Definition reconcile (b : Budgets) (rows : list SpendRow) : Budgets :=
  set_w b (foldl (λ next r,
    <[windowKey (Row_ScopeType r) (Row_ScopeID r) (Row_Period r) :=
      {| w_start := Row_PeriodStart r; w_n := Row_Micros r |}]> next) ∅ rows).

Definition credit_of (b : Budgets) (orgID : string) : credit := default credit_zero (credits b !! orgID).
Definition held_of (b : Budgets) (orgID : string) : Z := default 0 (held b !! orgID).

Definition set_held (b : Budgets) (h : gmap string Z) : Budgets :=
  {| bw := bw b; prepaid := prepaid b; credits := credits b; held := h; running := running b |}.

Definition set_credits (b : Budgets) (c : gmap string credit) : Budgets :=
  {| bw := bw b; prepaid := prepaid b; credits := c; held := held b; running := running b |}.

(** [Budgets.HoldCredit]: what to release, or the error. *)
Definition HoldCredit (b : Budgets) (orgID : string) (micros : Z) : (Z + BudgetError) * Budgets :=
  if negb (prepaid b) then (inl 0, b)
  else
    let c := credit_of b orgID in
    if invoiced c then (inl 0, b)
    else
      let h := held_of b orgID in
      if balance c ⊖ h <=? 0 then (inr (ErrNoCredit (balance c) h), b)
      else
        (inl (Z.max micros 0),
         if micros >? 0 then set_held b (<[orgID := h ⊕ micros]> (held b)) else b).

(** [Budgets.ChargesPaid]. *)
Definition ChargesPaid (b : Budgets) (orgID : string) (now : Z) : option BudgetError :=
  if negb (prepaid b) then None
  else
    let due := chargeDue (credit_of b orgID) in
    if IsZero due || (now <? due) then None else Some (ErrChargeDue due).

(** [Budgets.ReleaseCredit]. *)
Definition ReleaseCredit (b : Budgets) (orgID : string) (micros : Z) : Budgets :=
  if micros <=? 0 then b
  else
    let left := held_of b orgID ⊖ micros in
    set_held b (if left >? 0 then <[orgID := left]> (held b) else delete orgID (held b)).

(** [Budgets.ChargeCredit]. *)
Definition ChargeCredit (b : Budgets) (orgID : string) (micros : Z) : Budgets :=
  if negb (prepaid b) || (micros =? 0) then b
  else
    let c := credit_of b orgID in
    set_credits b (<[orgID := {| balance := balance c ⊖ micros; invoiced := invoiced c;
                                 chargeDue := chargeDue c |}]> (credits b)).

(** [Budgets.reconcileCredit]. *)
Definition reconcileCredit (b : Budgets) (rows : list CreditRow) : Budgets :=
  set_credits b (foldl (λ next r,
    <[CR_OrgID r := {| balance := CR_BalanceMicros r; invoiced := CR_Invoiced r;
                       chargeDue := CR_ChargeDueAt r |}]> next) ∅ rows).

(** The [Budgeter] the gateway is given: what each operation promises is
    proved below for [Budgets]. *)
Class Budgeter (B : Type) := {
  bg_Allow : B → list Scope → Z → option BudgetError;
  bg_Charge : B → list Scope → Z → Z → B;
  bg_Tally : B → list Scope → string → Z → Z → B;
  bg_StartRequest : B → list Scope → Z → B;
  bg_EndRequest : B → list Scope → Z → B;
  bg_Spent : B → string → string → string → Z → Z;
  bg_HoldCredit : B → string → Z → (Z + BudgetError) * B;
  bg_ReleaseCredit : B → string → Z → B;
  bg_ChargeCredit : B → string → Z → B;
  bg_ChargesPaid : B → string → Z → option BudgetError;
}.

#[export] Instance Budgets_Budgeter : Budgeter Budgets :=
  {| bg_Allow := Allow; bg_Charge := Charge; bg_Tally := Tally; bg_StartRequest := StartRequest;
     bg_EndRequest := EndRequest; bg_Spent := Spent; bg_HoldCredit := HoldCredit;
     bg_ReleaseCredit := ReleaseCredit; bg_ChargeCredit := ChargeCredit;
     bg_ChargesPaid := ChargesPaid |}.

(** ** Lemmas *)

(** Windows of different scopes or periods have different keys, whatever the
    scope's id. *)
Lemma windowKey_inj t id p t' id' p' :
  contains_byte nul t = false → contains_byte nul t' = false →
  contains_byte nul p = false → contains_byte nul p' = false →
  windowKey t id p = windowKey t' id' p' → t = t' ∧ id = id' ∧ p = p'.
Proof.
  intros Ht Ht' Hp Hp' H. unfold windowKey in H.
  apply (first_byte_inj nul) in H as [-> H]; [|done..].
  by apply last_byte_inj in H as [-> ->].
Qed.

Lemma open_amount_insert windows k k' w start :
  open_amount (<[k' := w]> windows) k start =
  if bool_decide (k = k') then (if w_start w =? start then w_n w else 0)
  else open_amount windows k start.
Proof.
  unfold open_amount. case_bool_decide as Hk.
  - subst. by rewrite lookup_insert_eq.
  - by rewrite lookup_insert_ne.
Qed.

Lemma Allow_none b scopes now :
  Allow b scopes now = None ↔
  ∀ sc, sc ∈ scopes → 0 < BudgetMicros sc →
    spent b (SType sc) (SID sc) (SPeriod sc) now < BudgetMicros sc.
Proof.
  induction scopes as [|sc scopes IH]; simpl; [set_solver|]. setoid_rewrite elem_of_cons.
  destruct (BudgetMicros sc <=? 0) eqn:Hb; to_prop.
  { rewrite IH. split; [|auto]. intros H sc' [->|Hin] Hpos; [lia|auto]. }
  destruct (_ >=? _) eqn:Hn; to_prop.
  - split; [done|]. intros H. specialize (H sc (or_introl eq_refl)). lia.
  - rewrite IH. split; [|auto]. intros H sc' [->|Hin] Hpos; [lia|auto].
Qed.

(** *** Sums of charges *)

Section ledger.
(** A window's key, and a start no charge is later than. *)
Context (k : string) (S : Z).

(** No window of the key begins after [S], and its amounts are [int64]s. *)
Definition up_to (windows : gmap string window) : Prop :=
  ∀ w, windows !! k = Some w → w_start w <= S ∧ in_int64 (w_n w).

Lemma open_amount_range windows start : up_to windows → in_int64 (open_amount windows k start).
Proof.
  intros H. unfold open_amount. destruct (windows !! k) as [w|] eqn:Hw; [|done].
  destruct (H w Hw). by destruct (w_start w =? start).
Qed.

(** [add] counts at the newest window, and an older charge leaves it alone. *)
Lemma add_spec windows k' start n :
  up_to windows → (k' = k → start <= S) →
  up_to (add windows k' start n) ∧
  open_amount (add windows k' start n) k S =
  if bool_decide (k' = k ∧ start = S) then wrap64 (open_amount windows k S + n)
  else open_amount windows k S.
Proof.
  intros Hw Hle.
  assert (∀ x, up_to (<[k' := {| w_start := start; w_n := wrap64 x |}]> windows)) as Hup.
  { intros x w [[-> <-]|[? ?]]%lookup_insert_Some; [|by apply Hw]. simpl. auto with go. }
  unfold add, add64. case_bool_decide as Hd.
  - destruct Hd as [-> ->]. specialize (Hw) as Hw2. unfold up_to in Hw2.
    unfold open_amount at 2. destruct (windows !! k) as [w|] eqn:Hl.
    + destruct (Hw2 w eq_refl) as [Hs Hr].
      rewrite (proj2 (Z.ltb_ge S (w_start w)) Hs). destruct (w_start w <? S) eqn:Hc; to_prop.
      * split; [apply Hup|]. rewrite open_amount_insert, bool_decide_eq_true_2 by done. simpl.
        rewrite Z.eqb_refl. by rewrite (proj2 (Z.eqb_neq (w_start w) S)) by lia.
      * assert (w_start w = S) as <- by lia. split; [apply Hup|].
        rewrite open_amount_insert, bool_decide_eq_true_2 by done. simpl. by rewrite Z.eqb_refl.
    + split; [apply Hup|]. rewrite open_amount_insert, bool_decide_eq_true_2 by done. simpl.
      by rewrite Z.eqb_refl.
  - destruct (decide (k' = k)) as [->|Hk].
    + assert (start < S) as Hlt by (assert (start ≠ S) by tauto; specialize (Hle eq_refl); lia).
      assert (∀ x, open_amount (<[k := {| w_start := start; w_n := x |}]> windows) k S = 0) as Hz.
      { intros x. rewrite open_amount_insert, bool_decide_eq_true_2 by done. simpl.
        by rewrite (proj2 (Z.eqb_neq start S)) by lia. }
      destruct (windows !! k) as [w|] eqn:Hl.
      * destruct (start <? w_start w) eqn:Hc1; [done|]. to_prop.
        assert (open_amount windows k S = 0) as ->.
        { unfold open_amount. rewrite Hl. by rewrite (proj2 (Z.eqb_neq (w_start w) S)) by lia. }
        destruct (w_start w <? start) eqn:Hc2; [split; [apply Hup|apply Hz]|]. to_prop.
        assert (w_start w = start) as -> by lia. split; [apply Hup|apply Hz].
      * assert (open_amount windows k S = 0) as -> by (unfold open_amount; by rewrite Hl).
        split; [apply Hup|apply Hz].
    + assert (∀ v, up_to (<[k' := v]> windows) ∧
        open_amount (<[k' := v]> windows) k S = open_amount windows k S) as Ho.
      { intros v. split.
        - intros w. rewrite lookup_insert_ne by done. apply Hw.
        - by rewrite open_amount_insert, bool_decide_eq_false_2 by congruence. }
      destruct (windows !! k') as [w|]; [|apply Ho].
      destruct (start <? w_start w); [done|]. destruct (w_start w <? start); apply Ho.
Qed.

(** How many of the scopes count [meter] in the window [S] of the key, for a
    request at [now]. *)
Definition hits (scopes : list Scope) (meter : string) (now : Z) : Z :=
  Z.of_nat (length (filter (λ sc, SMeter sc = meter ∧ scope_key sc = k ∧
    Period_Start (SPeriod sc) now = S) scopes)).

(** The scopes of the key are in no window after [S]. *)
Definition not_after (scopes : list Scope) (now : Z) : Prop :=
  ∀ sc, sc ∈ scopes → scope_key sc = k → Period_Start (SPeriod sc) now <= S.

Lemma hits_cons sc scopes meter now :
  hits (sc :: scopes) meter now =
  (if bool_decide (SMeter sc = meter ∧ scope_key sc = k ∧ Period_Start (SPeriod sc) now = S)
   then 1 else 0) + hits scopes meter now.
Proof.
  unfold hits. rewrite filter_cons. case_decide as Hd.
  - rewrite bool_decide_eq_true_2 by done. simpl length. lia.
  - rewrite bool_decide_eq_false_2 by done. lia.
Qed.

Lemma hits_counts scopes meter now : counts scopes meter = false → hits scopes meter now = 0.
Proof.
  induction scopes as [|sc scopes IH]; [done|]. cbn [counts existsb]. intros Hc. to_prop.
  rewrite hits_cons, IH by done. rewrite bool_decide_eq_false_2; [lia|tauto].
Qed.

Lemma addEach_spec windows scopes meter n now :
  up_to windows → not_after scopes now →
  up_to (addEach windows scopes meter n now) ∧
  open_amount (addEach windows scopes meter n now) k S =
  wrap64 (open_amount windows k S + n * hits scopes meter now).
Proof.
  intros Hw Hn. unfold addEach. destruct (counts scopes meter) eqn:Hc; simpl.
  2: { rewrite hits_counts by done. rewrite Z.mul_0_r, Z.add_0_r.
       split; [done|]. symmetry. by apply wrap64_id, open_amount_range. }
  clear Hc. revert windows Hw. induction scopes as [|sc scopes IH]; intros windows Hw.
  { simpl. change (hits [] meter now) with 0. rewrite Z.mul_0_r, Z.add_0_r.
    split; [done|]. symmetry. by apply wrap64_id, open_amount_range. }
  assert (not_after scopes now) as Hn' by (intros sc' Hin; apply Hn; by right).
  cbn [foldl]. rewrite hits_cons. destruct (bool_decide (SMeter sc = meter)) eqn:Hm; to_prop.
  - destruct (add_spec windows (scope_key sc) (Period_Start (SPeriod sc) now) n Hw) as [Hu Ho];
      [apply Hn; left|]. destruct (IH Hn' _ Hu) as [Hu2 Ho2]. split; [done|]. rewrite Ho2, Ho.
    rewrite (bool_decide_ext (SMeter sc = meter ∧ _) (scope_key sc = k ∧ Period_Start (SPeriod sc) now = S)) by tauto.
    case_bool_decide; [rewrite wrap64_add_l|]; f_equal; lia.
  - destruct (IH Hn' _ Hw) as [Hu2 Ho2]. split; [done|]. rewrite Ho2.
    rewrite bool_decide_eq_false_2 by tauto. done.
Qed.
End ledger.

(** *** Requests that run and end *)

(** A request as [StartRequest] counts it: its scopes, and its instant. *)
Definition counted_request : Type := list Scope * Z.

Section requests.
Context (k : string) (S : Z).

Definition request_hits (r : counted_request) : Z := hits k S r.1 MeterRequests r.2.

Definition total_hits (rs : list counted_request) : Z := foldr (λ r n, request_hits r + n) 0 rs.

Lemma hits_nonneg scopes meter now : 0 <= hits k S scopes meter now.
Proof. unfold hits. lia. Qed.

Lemma total_hits_nonneg rs : 0 <= total_hits rs.
Proof.
  induction rs as [|r rs IH]; simpl; [lia|].
  pose proof (hits_nonneg r.1 MeterRequests r.2). unfold request_hits. lia.
Qed.

Lemma total_hits_app rs1 rs2 : total_hits (rs1 ++ rs2) = total_hits rs1 + total_hits rs2.
Proof. induction rs1 as [|r rs1 IH]; simpl; lia. Qed.

(** Requests start and end in any interleaving; other meters are charged in
    between. [started] has every request started, [open] those that run. *)
Inductive request_run (b0 : Budgets) : list counted_request → list counted_request → Budgets → Prop :=
  | run_none : request_run b0 [] [] b0
  | run_start r started open b :
      request_run b0 started open b → not_after k S r.1 r.2 →
      request_run b0 (r :: started) (r :: open) (StartRequest b r.1 r.2)
  | run_end r started open1 open2 b :
      request_run b0 started (open1 ++ r :: open2) b →
      request_run b0 started (open1 ++ open2) (EndRequest b r.1 r.2)
  | run_tally started open b scopes meter n now :
      request_run b0 started open b → not_after k S scopes now →
      hits k S scopes meter now = 0 →
      request_run b0 started open (Tally b scopes meter n now).

Definition amounts (b : Budgets) : Z * Z := (open_amount (bw b) k S, open_amount (running b) k S).

Definition both_up_to (b : Budgets) : Prop := up_to k S (bw b) ∧ up_to k S (running b).

Lemma end_running_spec windows k' start :
  up_to k S windows → (k' = k ∧ start = S → 1 <= open_amount windows k S) →
  up_to k S (end_running windows k' start) ∧
  open_amount (end_running windows k' start) k S =
  open_amount windows k S - (if bool_decide (k' = k ∧ start = S) then 1 else 0).
Proof.
  intros Hw Hone. unfold end_running.
  assert (¬ (k' = k ∧ start = S) → open_amount windows k S =
    open_amount windows k S - (if bool_decide (k' = k ∧ start = S) then 1 else 0)) as Hsame.
  { intros Hn. rewrite bool_decide_eq_false_2 by done. lia. }
  destruct (decide (k' = k)) as [->|Hk].
  - destruct (windows !! k) as [r|] eqn:Hl.
    2: { split; [done|]. apply Hsame. intros [_ ->]. unfold open_amount in Hone.
         rewrite Hl in Hone. specialize (Hone (conj eq_refl eq_refl)). lia. }
    destruct (Hw r Hl) as [Hle Hin].
    assert (open_amount windows k S = if w_start r =? S then w_n r else 0) as Hopen
      by (unfold open_amount; by rewrite Hl).
    destruct (w_start r =? start) eqn:Hs; to_prop.
    2: { split; [done|]. apply Hsame. intros [_ ->]. rewrite Hopen in Hone.
         rewrite (proj2 (Z.eqb_neq _ _) Hs) in Hone. specialize (Hone (conj eq_refl eq_refl)). lia. }
    assert (∀ m, up_to k S (<[k := {| w_start := w_start r; w_n := wrap64 m |}]> windows)) as Hup.
    { intros m w. rewrite lookup_insert_eq. intros [= <-]. simpl. auto with go. }
    assert (up_to k S (delete k windows)) as Hdel by (intros w; by rewrite lookup_delete_eq).
    case_bool_decide as Hd.
    + destruct Hd as [_ ->]. rewrite Hopen, Hs, Z.eqb_refl in *.
      specialize (Hone (conj eq_refl eq_refl)).
      assert (w_n r ⊖ 1 = w_n r - 1) as Hsub by (apply wrap64_id; int_range).
      destruct (w_n r ⊖ 1 <=? 0) eqn:Hz; (split; [done || apply Hup|]); to_prop.
      * unfold open_amount. rewrite lookup_delete_eq. lia.
      * rewrite open_amount_insert, bool_decide_eq_true_2 by done. simpl. rewrite Z.eqb_refl. lia.
    + assert (w_start r ≠ S) as HrS by (intros HrS; apply Hd; split; [done|congruence]).
      rewrite Hopen, (proj2 (Z.eqb_neq _ _) HrS).
      destruct (w_n r ⊖ 1 <=? 0); (split; [done || apply Hup|]).
      * unfold open_amount. by rewrite lookup_delete_eq.
      * rewrite open_amount_insert, bool_decide_eq_true_2 by done. simpl.
        by rewrite (proj2 (Z.eqb_neq _ _) HrS).
  - rewrite <- Hsame by tauto.
    assert (∀ v, up_to k S (<[k' := v]> windows) ∧
      open_amount (<[k' := v]> windows) k S = open_amount windows k S) as Hi.
    { intros v. split; [intros w; rewrite lookup_insert_ne by done; apply Hw|].
      by rewrite open_amount_insert, bool_decide_eq_false_2 by congruence. }
    assert (up_to k S (delete k' windows) ∧
      open_amount (delete k' windows) k S = open_amount windows k S) as Hd.
    { split; [intros w; rewrite lookup_delete_ne by done; apply Hw|].
      unfold open_amount. by rewrite lookup_delete_ne. }
    destruct (windows !! k') as [r|]; [|done]. destruct (w_start r =? start); [|done].
    by destruct (w_n r ⊖ 1 <=? 0).
Qed.

Lemma end_scope_spec b now sc :
  both_up_to b → (scope_key sc = k → Period_Start (SPeriod sc) now <= S) →
  let h := hits k S [sc] MeterRequests now in
  h <= (amounts b).2 →
  both_up_to (end_scope b now sc) ∧
  (amounts (end_scope b now sc)).2 = (amounts b).2 - h ∧
  (amounts (end_scope b now sc)).1 = wrap64 ((amounts b).1 + h).
Proof.
  intros [Hw Hr] Hle. cbv zeta. rewrite hits_cons.
  change (hits k S [] MeterRequests now) with 0. rewrite Z.add_0_r. intros Hh.
  pose proof (open_amount_range k S (bw b) S Hw) as Hrange.
  unfold end_scope. destruct (bool_decide (SMeter sc = MeterRequests)) eqn:Hm; to_prop; cbn [negb].
  2: { rewrite bool_decide_eq_false_2 by tauto. rewrite Z.add_0_r, wrap64_id by done.
       split; [done|]. split; [lia|done]. }
  rewrite (bool_decide_ext (SMeter sc = MeterRequests ∧ _)
    (scope_key sc = k ∧ Period_Start (SPeriod sc) now = S)) in * by tauto.
  destruct (add_spec k S (bw b) (scope_key sc) (Period_Start (SPeriod sc) now) 1 Hw Hle) as [Hu Ho].
  destruct (end_running_spec (running b) (scope_key sc) (Period_Start (SPeriod sc) now) Hr)
    as [Hu2 Ho2].
  { intros Hd. rewrite bool_decide_eq_true_2 in Hh by done. done. }
  split; [done|]. unfold amounts. cbn [set_w set_running bw running fst snd].
  rewrite Ho, Ho2. split; [done|]. case_bool_decide; [done|].
  rewrite Z.add_0_r. symmetry. by apply wrap64_id.
Qed.

Lemma EndRequest_spec b scopes now :
  both_up_to b → not_after k S scopes now →
  let h := hits k S scopes MeterRequests now in
  h <= (amounts b).2 →
  both_up_to (EndRequest b scopes now) ∧
  (amounts (EndRequest b scopes now)).2 = (amounts b).2 - h ∧
  (amounts (EndRequest b scopes now)).1 = wrap64 ((amounts b).1 + h).
Proof.
  intros Hb Hn. cbv zeta. unfold EndRequest. destruct (counts scopes MeterRequests) eqn:Hc; cbn [negb].
  2: { rewrite hits_counts by done. intros _. rewrite Z.add_0_r.
       split; [done|]. split; [lia|]. symmetry. apply wrap64_id, (open_amount_range k S), Hb. }
  clear Hc. revert b Hb. induction scopes as [|sc scopes IH]; intros b Hb Hh.
  { change (hits k S [] MeterRequests now) with 0. rewrite Z.add_0_r. split; [done|].
    split; [simpl; lia|]. symmetry. apply wrap64_id, (open_amount_range k S), Hb. }
  assert (not_after k S scopes now) as Hn' by (intros sc' Hin; apply Hn; by right).
  assert (hits k S (sc :: scopes) MeterRequests now =
          hits k S [sc] MeterRequests now + hits k S scopes MeterRequests now) as Hsum.
  { rewrite (hits_cons _ _ sc scopes), (hits_cons _ _ sc []).
    change (hits k S [] MeterRequests now) with 0. lia. }
  pose proof (hits_nonneg scopes MeterRequests now). rewrite Hsum in *. cbn [foldl].
  destruct (end_scope_spec b now sc Hb) as (Hb1 & H2 & H1); [apply Hn; left|lia|].
  destruct (IH Hn' _ Hb1) as (Hb2 & H4 & H3); [lia|]. split; [done|].
  rewrite H3, H4, H1, H2, wrap64_add_l. split; [lia|f_equal; lia].
Qed.

Lemma Tally_amounts b scopes meter n now :
  both_up_to b → not_after k S scopes now → hits k S scopes meter now = 0 →
  both_up_to (Tally b scopes meter n now) ∧ amounts (Tally b scopes meter n now) = amounts b.
Proof.
  intros [Hw Hr] Hn Hz. unfold Tally. destruct (n =? 0); [done|].
  destruct (addEach_spec k S (bw b) scopes meter n now Hw Hn) as [Hu Ho].
  split; [done|]. unfold amounts. cbn [set_w bw running]. f_equal.
  rewrite Ho, Hz, Z.mul_0_r, Z.add_0_r. by apply wrap64_id, (open_amount_range k S).
Qed.

Lemma request_run_spec b0 started open b :
  both_up_to b0 → (amounts b0).2 = 0 → total_hits started < two63 →
  request_run b0 started open b →
  both_up_to b ∧ (∀ r, r ∈ open → not_after k S r.1 r.2) ∧ total_hits open <= total_hits started ∧
  (amounts b).2 = total_hits open ∧
  (amounts b).1 = wrap64 ((amounts b0).1 + total_hits started - total_hits open).
Proof.
  intros Hb0 Hz Hlt Hrun. revert Hlt.
  induction Hrun as [|r started open b Hrun IH Hn|r started o1 o2 b Hrun IH|
    started open b scopes meter n now Hrun IH Hn Hh]; intros Hlt.
  - split; [done|]. split; [set_solver|]. simpl. split; [done|]. split; [done|].
    rewrite Z.add_0_r, Z.sub_0_r. symmetry. apply wrap64_id, (open_amount_range k S), Hb0.
  - simpl in Hlt. pose proof (hits_nonneg r.1 MeterRequests r.2) as Hnn.
    fold (request_hits r) in Hnn. destruct IH as ([Hw Hr] & Hop & Hle & H2 & H1); [lia|].
    destruct (addEach_spec k S (running b) r.1 MeterRequests 1 r.2 Hr Hn) as [Hu Ho].
    fold (request_hits r) in Ho. pose proof (total_hits_nonneg open).
    split; [done|]. split; [set_solver|]. cbn [total_hits foldr]. fold (total_hits open).
    fold (total_hits started). split; [lia|].
    unfold amounts, StartRequest in *. cbn [set_running bw running fst snd] in *.
    split; [rewrite Ho, H2, wrap64_id; [lia|int_range]|]. rewrite H1. f_equal. lia.
  - destruct IH as (Hb & Hop & Hle & H2 & H1); [done|].
    assert (request_hits r <= total_hits (o1 ++ r :: o2) ∧
            total_hits (o1 ++ r :: o2) = request_hits r + total_hits (o1 ++ o2)) as [Hr Hsum].
    { rewrite !total_hits_app. simpl. pose proof (total_hits_nonneg o1).
      pose proof (total_hits_nonneg o2). split; lia. }
    pose proof (hits_nonneg r.1 MeterRequests r.2) as Hnn. fold (request_hits r) in Hnn.
    destruct (EndRequest_spec b r.1 r.2 Hb) as (Hb' & H4 & H3); [apply Hop; set_solver|unfold request_hits in *; lia|].
    fold (request_hits r) in H3, H4. split; [done|]. split; [set_solver|]. split; [lia|].
    split; [lia|]. rewrite H3, H1, wrap64_add_l. f_equal. lia.
  - destruct IH as (Hb & Hop & Hle & H2 & H1); [done|].
    destruct (Tally_amounts b scopes meter n now Hb Hn Hh) as [Hb' ->]. done.
Qed.
End requests.

(** *** Credit *)

Section credit.
(** The organisation, and the most a request holds. *)
Context (org : string) (most : Z).
Hypothesis Hmost : 0 <= most < two63 / 2.

(** A request on the organisation's credit: what it holds, and what it was
    charged so far. *)
Record holder := { h_micros : Z; h_used : Z }.

Definition pos (n : Z) : Z := Z.max 0 n.

(** What a request may still be charged within its hold, and what it was charged
    beyond it. *)
Definition left_of (r : holder) : Z := pos (h_micros r - h_used r).
Definition beyond (r : holder) : Z := pos (h_used r - h_micros r).

Definition held_by (rs : list holder) : Z := foldr (λ r n, h_micros r + n) 0 rs.
Definition uncharged (rs : list holder) : Z := foldr (λ r n, left_of r + n) 0 rs.

(** Requests hold, are charged, once or more, within what they hold or beyond
    it, and release, in any interleaving; other organisations do the same in
    between, and the balances are read again from the database. [over] is what
    came off the balance that no hold had set aside: the charges beyond a hold,
    and what a read of the database took off. *)
Inductive credit_run (b0 : Budgets) : Z → list holder → Budgets → Prop :=
  | credit_none : credit_run b0 0 [] b0
  | credit_hold over rs b micros h b' :
      credit_run b0 over rs b → micros <= most →
      Z.of_nat (S (length rs)) * most < two63 / 2 → HoldCredit b org micros = (inl h, b') →
      credit_run b0 over ({| h_micros := h; h_used := 0 |} :: rs) b'
  | credit_refused over rs b micros e b' :
      credit_run b0 over rs b → HoldCredit b org micros = (inr e, b') → credit_run b0 over rs b'
  | credit_charge over rs1 r rs2 b used :
      let r' := {| h_micros := h_micros r; h_used := h_used r + used |} in
      credit_run b0 over (rs1 ++ r :: rs2) b →
      0 <= used → most + (over + (beyond r' - beyond r)) < two63 / 2 →
      credit_run b0 (over + (beyond r' - beyond r)) (rs1 ++ r' :: rs2) (ChargeCredit b org used)
  | credit_release over rs1 r rs2 b :
      credit_run b0 over (rs1 ++ r :: rs2) b →
      credit_run b0 over (rs1 ++ rs2) (ReleaseCredit b org (h_micros r))
  | credit_reconcile over rs b rows :
      let b' := reconcileCredit b rows in
      let took := pos (balance (credit_of b org) - balance (credit_of b' org)) in
      credit_run b0 over rs b → invoiced (credit_of b' org) = false → balance (credit_of b' org) < two63 / 2 →
      most + (over + took) < two63 / 2 → credit_run b0 (over + took) rs b'
  | credit_other over rs b b' :
      credit_run b0 over rs b → credit_of b' org = credit_of b org → held_of b' org = held_of b org →
      prepaid b' = prepaid b → credit_run b0 over rs b'.

Lemma held_by_cons r rs : held_by (r :: rs) = h_micros r + held_by rs.
Proof. done. Qed.

Lemma uncharged_cons r rs : uncharged (r :: rs) = left_of r + uncharged rs.
Proof. done. Qed.

Lemma held_by_app rs1 rs2 : held_by (rs1 ++ rs2) = held_by rs1 + held_by rs2.
Proof. induction rs1; simpl; lia. Qed.

Lemma uncharged_app rs1 rs2 : uncharged (rs1 ++ rs2) = uncharged rs1 + uncharged rs2.
Proof. induction rs1; simpl; lia. Qed.

Definition holder_ok (r : holder) : Prop := 0 <= h_micros r <= most ∧ 0 <= h_used r.

(** What every run keeps of a prepaid organisation's credit. *)
Record credit_inv (over : Z) (rs : list holder) (b : Budgets) : Prop := {
  inv_prepaid : prepaid b = true ∧ invoiced (credit_of b org) = false;
  inv_held : held_of b org = held_by rs;
  inv_each : ∀ r, r ∈ rs → holder_ok r;
  inv_room : - most - over < balance (credit_of b org) - uncharged rs;
  inv_small : balance (credit_of b org) < two63 / 2;
  inv_total : Z.of_nat (length rs) * most < two63 / 2;
  inv_over : 0 <= over ∧ most + over < two63 / 2;
}.

Lemma sums_bounds rs : (∀ r, r ∈ rs → holder_ok r) → 0 <= uncharged rs <= held_by rs.
Proof.
  induction rs as [|r rs IH]; intros Hr; simpl; [lia|].
  destruct (Hr r ltac:(left)). specialize (IH ltac:(intros; apply Hr; by right)).
  unfold left_of, pos. lia.
Qed.
Lemma held_by_bound rs :
  (∀ r, r ∈ rs → holder_ok r) → held_by rs <= Z.of_nat (length rs) * most.
Proof.
  induction rs as [|r rs IH]; intros Hr; simpl held_by; [simpl; lia|].
  destruct (Hr r ltac:(left)). specialize (IH ltac:(intros; apply Hr; by right)).
  simpl length. lia.
Qed.

Lemma hold_inv over rs b micros h b' :
  credit_inv over rs b → micros <= most → Z.of_nat (S (length rs)) * most < two63 / 2 →
  HoldCredit b org micros = (inl h, b') →
  credit_inv over ({| h_micros := h; h_used := 0 |} :: rs) b' ∧
  held_of b org < balance (credit_of b org).
Proof.
  intros [[Hp Hi] Hh He Hr Hs Ht Ho] Hm Hlen. unfold HoldCredit. rewrite Hp, Hi. cbn [negb].
  pose proof (sums_bounds rs He). pose proof (held_by_bound rs He).
  change (two63 / 2) with 4611686018427387904 in *.
  assert (balance (credit_of b org) ⊖ held_of b org = balance (credit_of b org) - held_of b org) as ->
    by (apply wrap64_id; rewrite Hh; int_range).
  destruct (_ <=? 0) eqn:Hroom; [done|]. to_prop. intros [= <- <-]. split; [|lia].
  assert (∀ c, credit_of (if micros >? 0 then set_held b c else b) org = credit_of b org) as Hc
    by (intros c; by destruct (micros >? 0)).
  split.
  - rewrite Hc. split; [by destruct (micros >? 0)|done].
  - simpl. destruct (micros >? 0) eqn:Hpos; to_prop.
    + unfold held_of at 1. cbn [set_held held]. rewrite lookup_insert_eq. simpl.
      unfold add64. rewrite wrap64_id by (rewrite Hh; int_range). lia.
    + lia.
  - intros r [->|Hin]%elem_of_cons; [split; simpl; lia|by apply He].
  - rewrite Hc, uncharged_cons. unfold left_of, pos. cbn [h_micros h_used]. rewrite Hh in Hroom. lia.
  - by rewrite Hc.
  - simpl length. done.
  - done.
Qed.

Lemma charge_inv over rs1 r rs2 b used :
  let r' := {| h_micros := h_micros r; h_used := h_used r + used |} in
  credit_inv over (rs1 ++ r :: rs2) b → 0 <= used → most + (over + (beyond r' - beyond r)) < two63 / 2 →
  credit_inv (over + (beyond r' - beyond r)) (rs1 ++ r' :: rs2) (ChargeCredit b org used).
Proof.
  intros r' [[Hp Hi] Hh He Hr Hs Ht Ho] Hu Hover. rewrite uncharged_app, uncharged_cons in Hr.
  pose proof (sums_bounds rs1 ltac:(intros; apply He; set_solver)).
  pose proof (sums_bounds rs2 ltac:(intros; apply He; set_solver)).
  destruct (He r ltac:(set_solver)) as [Hhm Hhu].
  assert (left_of r' = left_of r - used + (beyond r' - beyond r) ∧ 0 <= left_of r' ∧ beyond r <= beyond r') as (Hl & Hl0 & Hbe)
    by (unfold left_of, beyond, pos, r'; cbn [h_micros h_used]; lia).
  change (two63 / 2) with 4611686018427387904 in *.
  assert (balance (credit_of (ChargeCredit b org used) org) = balance (credit_of b org) - used ∧
    invoiced (credit_of (ChargeCredit b org used) org) = invoiced (credit_of b org) ∧
    held_of (ChargeCredit b org used) org = held_of b org ∧
    prepaid (ChargeCredit b org used) = prepaid b) as (Hb & Hinv & Hheld & Hpre).
  { unfold ChargeCredit. rewrite Hp. cbn [negb orb]. destruct (used =? 0) eqn:Hz; to_prop.
    - split; [lia|done].
    - unfold credit_of, held_of in *. cbn [set_credits credits held prepaid].
      rewrite lookup_insert_eq. simpl. split; [|done]. apply wrap64_id. int_range. }
  split.
  - by rewrite Hpre, Hinv.
  - by rewrite Hheld, Hh, !held_by_app, !held_by_cons.
  - intros r0 Hin. apply elem_of_app in Hin as [Hin|[->|Hin]%elem_of_cons];
      [apply He; set_solver|split; [done|cbn; lia]|apply He; set_solver].
  - rewrite Hb, uncharged_app, uncharged_cons. lia.
  - rewrite Hb. change (two63 / 2) with 4611686018427387904. lia.
  - rewrite length_app in *. done.
  - change (two63 / 2) with 4611686018427387904. lia.
Qed.

Lemma release_inv over rs1 r rs2 b :
  credit_inv over (rs1 ++ r :: rs2) b → credit_inv over (rs1 ++ rs2) (ReleaseCredit b org (h_micros r)).
Proof.
  intros [[Hp Hi] Hh He Hr Hs Ht Ho].
  assert (∀ r, r ∈ rs1 ++ rs2 → holder_ok r) as He' by (intros; apply He; set_solver).
  destruct (He r ltac:(set_solver)) as [Hhm Hhu].
  pose proof (sums_bounds _ He'). pose proof (held_by_bound _ He').
  rewrite !held_by_app, !uncharged_app in *. rewrite held_by_cons in Hh. rewrite uncharged_cons in Hr.
  assert (0 <= left_of r) by (unfold left_of, pos; lia). set (h := h_micros r) in *.
  rewrite !length_app in *. cbn [length] in Ht.
  change (two63 / 2) with 4611686018427387904 in *.
  assert (held_of (ReleaseCredit b org h) org = held_of b org - h ∧
    credit_of (ReleaseCredit b org h) org = credit_of b org ∧
    prepaid (ReleaseCredit b org h) = prepaid b) as (Hheld & Hc & Hpre).
  { unfold ReleaseCredit. destruct (h <=? 0) eqn:Hz; to_prop; [split; [lia|done]|].
    assert (held_of b org ⊖ h = held_of b org - h) as E by (apply wrap64_id; rewrite Hh; int_range).
    split; [|done]. unfold held_of at 1. cbn [set_held held]. rewrite E.
    destruct (_ >? 0) eqn:Hl; to_prop; [by rewrite lookup_insert_eq|].
    rewrite lookup_delete_eq. simpl. lia. }
  split.
  - by rewrite Hpre, Hc.
  - rewrite Hheld, Hh, held_by_app. lia.
  - done.
  - rewrite Hc, uncharged_app. lia.
  - by rewrite Hc.
  - rewrite length_app. change (two63 / 2) with 4611686018427387904. lia.
  - done.
Qed.

Lemma credit_run_inv b0 over rs b : credit_inv 0 [] b0 → credit_run b0 over rs b → credit_inv over rs b.
Proof.
  intros H0. induction 1 as [|over rs b micros h b' _ IH Hm Hlen Hhold|over rs b micros e b' _ IH Href|
    over rs1 r rs2 b used r' _ IH Hu Hover|over rs1 r rs2 b _ IH|over rs b rows b' took _ IH Hinv Hsmall Hover|over rs b b' _ IH Hc Hh Hp].
  - done.
  - by apply (hold_inv over rs b micros h b').
  - unfold HoldCredit in Href. repeat case_match; simplify_eq; done.
  - by apply charge_inv.
  - by apply release_inv.
  - destruct IH as [[? ?] ? ? ? ? ? ?]. split; try done; unfold took, pos in *; lia.
  - destruct IH as [[? ?] ? ? ? ? ? ?]. split; rewrite ?Hc, ?Hh, ?Hp; done.
Qed.
End credit.

(** ** Properties *)

(** [Allow] admits a request exactly when each of its scopes that has a
    budget has spent less than it in the window now open. Otherwise it names
    the first that has not, with what it spent and when that window ends. *)
Theorem Allow_exact (b : Budgets) (scopes : list Scope) (now : Z) :
  match Allow b scopes now with
  | None => ∀ sc, sc ∈ scopes → 0 < BudgetMicros sc →
      spent b (SType sc) (SID sc) (SPeriod sc) now < BudgetMicros sc
  | Some e => ∃ before sc after, scopes = before ++ sc :: after ∧ 0 < BudgetMicros sc ∧
      BudgetMicros sc <= spent b (SType sc) (SID sc) (SPeriod sc) now ∧
      Allow b before now = None ∧
      e = ErrBudgetExceeded sc (spent b (SType sc) (SID sc) (SPeriod sc) now) (BudgetMicros sc)
            (Period_Next (SPeriod sc) now)
  end.
Proof.
  induction scopes as [|sc scopes IH]; simpl; [set_solver|].
  destruct (BudgetMicros sc <=? 0) eqn:Hb; [|destruct (_ >=? _) eqn:Hn]; to_prop.
  - destruct (Allow b scopes now).
    + destruct IH as (before & sc' & after & -> & H). exists (sc :: before), sc', after. simpl.
      rewrite (proj2 (Z.leb_le _ _) Hb). done.
    + intros sc' [->|Hin]%elem_of_cons Hpos; [lia|auto].
  - exists [], sc, scopes. done.
  - destruct (Allow b scopes now).
    + destruct IH as (before & sc' & after & -> & H). exists (sc :: before), sc', after. simpl.
      rewrite (proj2 (Z.leb_gt _ _) Hb).
      destruct (_ >=? BudgetMicros sc) eqn:Hn2; to_prop; [lia|done].
    + intros sc' [->|Hin]%elem_of_cons Hpos; [lia|auto].
Qed.

(** C28: budgets hold at every level, end to end. A request of a key whose
    guardrails are what the control plane stores passes [Allow] exactly when
    no budget of any of its levels, per day or per month, is spent: the
    combination of the levels adds no budget and loses none. *)
Theorem budgets_hold_per_level (b : Budgets) (key : Key) (org project own : option Limits) (now : Z) :
  (∀ lim, lim ∈ level_limits (levels key org project own) → stored_limits lim) →
  Allow b (Scopes (Resolve key org project own)) now = None ↔
  ∀ lv lim bud, lv ∈ levels key org project own → l_lim lv = Some lim → bud ∈ Guardrails.Budgets lim →
    spent b (l_typ lv) (l_id lv) (Budget_Per bud) now < B_BudgetMicros bud.
Proof.
  intros Hst. rewrite Allow_none. split.
  - intros H lv lim bud Hlv Hlim Hbud.
    assert (0 < B_BudgetMicros bud) as Hpos.
    { destruct (Hst lim) as (_ & Hv & _); [apply elem_of_level_limits; eauto|].
      rewrite Forall_forall in Hv. specialize (Hv bud Hbud). unfold Budget_Problem in Hv.
      case_match; [done|]. destruct (B_BudgetMicros bud <=? 0) eqn:E; [done|]. to_prop. done. }
    destruct (proj2 (resolve_budgets_iff key org project own (l_typ lv) (l_id lv) (Budget_Per bud)
      (B_BudgetMicros bud) Hst ltac:(lia))) as (sc & Hsc & <- & <- & <- & Hm).
    { by exists lv, lim, bud. }
    rewrite <- Hm in *. by apply H.
  - intros H sc Hsc Hpos.
    destruct (proj1 (resolve_budgets_iff key org project own (SType sc) (SID sc) (SPeriod sc)
      (BudgetMicros sc) Hst ltac:(lia))) as (lv & lim & bud & Hlv & <- & <- & Hlim & Hbud & <- & <-).
    { by exists sc. }
    by apply (H lv lim bud).
Qed.

(** Every charge counts once, in its own window. Over any run of charges
    and tallies, in any order and however late some come, the amount a
    scope's window has is what it had plus every amount charged to that
    window, in 64-bit arithmetic, as long as none is charged to a later one.
    Charges to windows that are over change nothing. *)
Theorem charges_count_once (k : string) (start : Z) (b : Budgets)
    (ops : list (list Scope * string * Z * Z)) :
  up_to k start (bw b) → (∀ scopes meter n now, (scopes, meter, n, now) ∈ ops → not_after k start scopes now) →
  open_amount (bw (foldl (λ b '(scopes, meter, n, now), Tally b scopes meter n now) b ops)) k start =
  wrap64 (open_amount (bw b) k start +
    foldr (λ '(scopes, meter, n, now) sum, n * hits k start scopes meter now + sum) 0 ops).
Proof.
  revert b. induction ops as [|[[[scopes meter] n] now] ops IH]; intros b Hb Hops; simpl.
  - rewrite Z.add_0_r. symmetry. by apply wrap64_id, (open_amount_range k start).
  - assert (up_to k start (bw (Tally b scopes meter n now)) ∧
      open_amount (bw (Tally b scopes meter n now)) k start =
      wrap64 (open_amount (bw b) k start + n * hits k start scopes meter now)) as [Hu Ho].
    { unfold Tally. destruct (n =? 0) eqn:Hz; to_prop.
      - subst n. rewrite Z.mul_0_l, Z.add_0_r. split; [done|]. symmetry.
        by apply wrap64_id, (open_amount_range k start).
      - apply addEach_spec; [done|]. apply (Hops scopes meter n now). left. }
    rewrite IH; [|done|intros; eapply Hops; by right]. rewrite Ho, wrap64_add_l. f_equal. lia.
Qed.

(** A request is counted exactly once while it runs and after it ends.
    However requests start and end, with other charges in between, a window
    of requests has what it had plus one for each request started in it, and
    ending one moves its count from the running to the finished ones. So
    requests that arrive together cannot slip under a limit, and none is
    counted twice. *)
Theorem requests_counted_once (k : string) (start : Z) (b0 b : Budgets)
    (started open : list counted_request) :
  up_to k start (bw b0) → up_to k start (running b0) → open_amount (running b0) k start = 0 →
  total_hits k start started < two63 →
  request_run k start b0 started open b →
  open_amount (running b) k start = total_hits k start open ∧
  wrap64 (open_amount (bw b) k start + open_amount (running b) k start) =
  wrap64 (open_amount (bw b0) k start + total_hits k start started).
Proof.
  intros Hw Hr Hz Hlt Hrun.
  destruct (request_run_spec k start b0 started open b) as (_ & _ & _ & H2 & H1);
    [by split|done|done|done|].
  unfold amounts in *. simpl in *. split; [done|]. rewrite H1, H2, wrap64_add_l. f_equal. lia.
Qed.

(** C30: prepaid credit is never overdrawn by more than one hold and what no
    hold had set aside. Whatever requests hold, are charged and release on a
    gateway, in any interleaving, while others do the same and the balances are
    read again from the database: the gateway holds exactly what its running
    requests asked for, and the balance stays above the most one request holds
    below zero, less what came off it beyond the holds. A request may be charged
    more than it held, and a read of the database may bring what other replicas
    charged; without either, one hold is all. No charge is below zero, and the
    holds and the sums are small enough not to overflow. *)
Theorem credit_overdraft_bound (org : string) (most over : Z) (b0 b : Budgets) (rs : list holder) :
  0 <= most < two63 / 2 →
  prepaid b0 = true → invoiced (credit_of b0 org) = false → held_of b0 org = 0 →
  0 <= balance (credit_of b0 org) < two63 / 2 → 0 < most →
  credit_run org most b0 over rs b →
  held_of b org = held_by rs ∧ - most - over < balance (credit_of b org) - uncharged rs ∧
  - most - over < balance (credit_of b org).
Proof.
  intros Hm Hp Hi Hh Hb Hpos Hrun.
  destruct (credit_run_inv org most Hm b0 over rs b) as [_ Hheld He Hroom _ _ _]; [|done|].
  - split; [done|done|set_solver|simpl; lia|lia|done|lia].
  - pose proof (sums_bounds most rs He). split; [done|]. split; [done|]. lia.
Qed.

(** ** Examples *)

Definition sample_now : Z := 1700000000 * Second.

Definition sample_budgets : Budgets :=
  reconcileCredit
    (reconcile (newBudgets true)
       [{| Row_ScopeType := ScopeOrg; Row_ScopeID := "org_1"; Row_Period := PeriodDay;
           Row_PeriodStart := Period_Start PeriodDay sample_now; Row_Micros := 1000 |}])
    [{| CR_OrgID := "org_1"; CR_BalanceMicros := 5000; CR_Invoiced := false;
        CR_ChargeDueAt := time_zero |}].

Definition sample_key_of_day : string := windowKey ScopeOrg "org_1" PeriodDay.

Definition sample_day_scope : Scope :=
  {| SType := ScopeOrg; SID := "org_1"; RPM := 0; TPM := 0; BudgetMicros := 50000000;
     SPeriod := PeriodDay; SMeter := MeterCost; Quota := 0 |}.

Definition set_meter (sc : Scope) (meter : string) : Scope :=
  {| SType := SType sc; SID := SID sc; RPM := RPM sc; TPM := TPM sc;
     BudgetMicros := BudgetMicros sc; SPeriod := SPeriod sc; SMeter := meter; Quota := Quota sc |}.

Lemma sample_up_to :
  up_to sample_key_of_day (Period_Start PeriodDay sample_now) (bw sample_budgets).
Proof.
  intros w Hw. vm_compute in Hw. injection Hw as <-. simpl.
  split; [vm_compute; discriminate|]. split; [vm_compute; discriminate|reflexivity].
Qed.

Lemma budgets_hold_per_level_witness :
  Allow sample_budgets (Scopes (Resolve sample_key (Some sample_org) (Some sample_project) None))
    sample_now = None ∧
  ∀ lv lim bud, lv ∈ levels sample_key (Some sample_org) (Some sample_project) None →
    l_lim lv = Some lim → bud ∈ Guardrails.Budgets lim →
    spent sample_budgets (l_typ lv) (l_id lv) (Budget_Per bud) sample_now < B_BudgetMicros bud.
Proof.
  assert (Allow sample_budgets
    (Scopes (Resolve sample_key (Some sample_org) (Some sample_project) None)) sample_now = None)
    as H by (vm_compute; reflexivity).
  split; [exact H|].
  apply (budgets_hold_per_level sample_budgets sample_key (Some sample_org) (Some sample_project)
    None sample_now sample_stored). exact H.
Defined.

Lemma sample_not_after meter :
  not_after sample_key_of_day (Period_Start PeriodDay sample_now)
    [set_meter sample_day_scope meter] sample_now.
Proof. intros sc ->%list_elem_of_singleton _. simpl. lia. Qed.

Lemma charges_count_once_witness :
  open_amount (bw (Charge sample_budgets [sample_day_scope] 250 sample_now)) sample_key_of_day
    (Period_Start PeriodDay sample_now) = 1250.
Proof.
  transitivity (wrap64 (open_amount (bw sample_budgets) sample_key_of_day
    (Period_Start PeriodDay sample_now) + (250 * hits sample_key_of_day
      (Period_Start PeriodDay sample_now) [sample_day_scope] MeterCost sample_now + 0)));
    [|vm_compute; reflexivity].
  apply (charges_count_once sample_key_of_day (Period_Start PeriodDay sample_now) sample_budgets
    [([sample_day_scope], MeterCost, 250, sample_now)] sample_up_to).
  intros scopes meter n now H. apply list_elem_of_singleton in H. injection H as -> -> -> ->.
  apply (sample_not_after MeterCost).
Defined.

Definition sample_request : counted_request :=
  ([set_meter sample_day_scope MeterRequests], sample_now).

(** One request ended, another runs: the window has the 1000 it had and both. *)
Lemma requests_counted_once_witness :
  let b := EndRequest (StartRequest (StartRequest sample_budgets sample_request.1 sample_now)
    sample_request.1 sample_now) sample_request.1 sample_now in
  open_amount (running b) sample_key_of_day (Period_Start PeriodDay sample_now) = 1 ∧
  wrap64 (open_amount (bw b) sample_key_of_day (Period_Start PeriodDay sample_now) +
    open_amount (running b) sample_key_of_day (Period_Start PeriodDay sample_now)) = 1002.
Proof.
  cbv zeta.
  destruct (requests_counted_once sample_key_of_day (Period_Start PeriodDay sample_now)
    sample_budgets
    (EndRequest (StartRequest (StartRequest sample_budgets sample_request.1 sample_now)
      sample_request.1 sample_now) sample_request.1 sample_now)
    [sample_request; sample_request] [sample_request]) as [H1 H2].
  - apply sample_up_to.
  - intros w Hw. vm_compute in Hw. discriminate Hw.
  - vm_compute. reflexivity.
  - vm_compute. reflexivity.
  - apply (run_end _ _ _ sample_request _ [] [sample_request]).
    apply (run_start _ _ _ sample_request); [|apply (sample_not_after MeterRequests)].
    apply (run_start _ _ _ sample_request); [|apply (sample_not_after MeterRequests)].
    apply run_none.
  - split; [rewrite H1; vm_compute; reflexivity|rewrite H2; vm_compute; reflexivity].
Defined.

(** A balance of 5000 lets a request hold 4000 and be charged 6500, 2500 more,
    before it releases. *)
Lemma credit_overdraft_bound_witness :
  let b := ChargeCredit (HoldCredit sample_budgets "org_1" 4000).2 "org_1" 6500 in
  held_of b "org_1" = 4000 ∧ - 4000 - 2500 < balance (credit_of b "org_1").
Proof.
  cbv zeta.
  destruct (credit_overdraft_bound "org_1" 4000 2500 sample_budgets
    (ChargeCredit (HoldCredit sample_budgets "org_1" 4000).2 "org_1" 6500)
    [{| h_micros := 4000; h_used := 6500 |}]) as (H1 & _ & H3).
  - vm_compute. split; [discriminate|reflexivity].
  - vm_compute. reflexivity.
  - vm_compute. reflexivity.
  - vm_compute. reflexivity.
  - vm_compute. split; [discriminate|reflexivity].
  - vm_compute. reflexivity.
  - apply (credit_charge "org_1" 4000 sample_budgets 0 [] {| h_micros := 4000; h_used := 0 |} [] (HoldCredit sample_budgets "org_1" 4000).2 6500); [|discriminate|reflexivity].
    apply (credit_hold _ _ _ 0 [] sample_budgets 4000 4000); [apply credit_none|vm_compute; discriminate|
      vm_compute; reflexivity|vm_compute; reflexivity].
  - split; [exact H1|exact H3].
Defined.
