(* ===== verification/Messages.v ===== *)
(** * What a refusal says

    Money and dates as the messages print them ([internal/policy/policy.go]),
    the budgeter's errors ([policy.go] and [billing.go]), and what
    [internal/gateway/refuse.go] adds for the client. *)
From S2P Require Import Prelude GoTime Num Tenancy Pricing Guardrails Text Filters Routers RouterCheck.
From S2P Require Import Replies Guard Routing Budgets.
Open Scope go_scope.

(** ** Money *)

Definition Currency : string := "CHF".

(** [strconv.FormatFloat] and [ParseFloat] on 64 bits. *)
Class FloatText (T : Type) := {
  FormatFloat : T → string → Z → string;
  ParseFloat : string → T;
}.

Definition dot : Ascii.ascii := Ascii.ascii_of_nat 46.

Definition twoDecimals (s : string) : string :=
  let '(_, after, found) := cut_byte dot s in
  if negb found then s +:+ ".00"
  else if len after <? 2 then s +:+ "0"
  else s.

Section money.
Context `{Num T} `{FloatText T}.

(** [float64(micros) / 1e6]. *)
Definition francs (micros : Z) : T := num_div (of_Z micros) (of_Z 1000000).

Definition FormatMicros (micros : Z) : string := twoDecimals (FormatFloat (francs micros) "f" (-1)).

(** [math.Abs(v) >= 1]. *)
Definition at_least_one (v : T) : bool := num_leb (of_Z 1) v || num_leb v (of_Z (-1)).

Definition FormatAmount (micros : Z) : string :=
  let v := francs micros in
  if micros =? 0 then "0.00"
  else if at_least_one v then FormatFloat v "f" 2
  else twoDecimals (FormatFloat (ParseFloat (FormatFloat v "g" 2)) "f" (-1)).

Definition FormatMoney (micros : Z) : string := Currency +:+ " " +:+ FormatAmount micros.
Definition FormatPrice (micros : Z) : string := Currency +:+ " " +:+ FormatMicros micros.
End money.

(** ** Dates *)

(** A number with leading zeros, as Go's layouts print it. *)
Definition zero_pad (width : nat) (n : Z) : string :=
  let digits := pretty n in
  Nat.iter (width - String.length digits) (λ s, "0" +:+ s) digits.

Definition month_name (m : Z) : string :=
  nth (Z.to_nat (m - 1))
    ["January"; "February"; "March"; "April"; "May"; "June"; "July"; "August"; "September";
     "October"; "November"; "December"] "".

(** The layouts ["2 January 2006"], ["2 January 2006 at 15:04"],
    [time.DateOnly] and [time.RFC3339], in UTC. *)
Definition format_date (t : Z) : string :=
  let '(y, m, d) := DateOf t in pretty d +:+ " " +:+ month_name m +:+ " " +:+ zero_pad 4 y.

Definition format_clock (t : Z) : string :=
  let s := t mod Day in
  zero_pad 2 (s / Hour) +:+ ":" +:+ zero_pad 2 (s mod Hour / Minute).

Definition format_date_at (t : Z) : string := format_date t +:+ " at " +:+ format_clock t.

Definition DateOnly (t : Z) : string :=
  let '(y, m, d) := DateOf t in zero_pad 4 y +:+ "-" +:+ zero_pad 2 m +:+ "-" +:+ zero_pad 2 d.

Definition RFC3339 (t : Z) : string :=
  DateOnly t +:+ "T" +:+ format_clock t +:+ ":" +:+ zero_pad 2 (t mod Minute / Second) +:+ "Z".

(** ** The budgeter's errors *)

Definition budget_error `{Num T} `{FloatText T} (err : BudgetError) : string :=
  match err with
  | ErrBudgetExceeded sc spent budget resetsAt =>
      ScopeType_Possessive (SType sc) +:+ " has spent its " +:+ SPeriod sc +:+ " budget: " +:+
      FormatMoney spent +:+ " of " +:+ FormatMoney budget +:+
      (if IsZero resetsAt then ""
       else ". It resets on " +:+ format_date resetsAt +:+ " (UTC)")
  | ErrNoCredit balanceMicros heldMicros =>
      if heldMicros >? 0 then
        "your organisation's credit (balance " +:+ FormatMoney balanceMicros +:+
        ") is held by requests still running, which may take up to " +:+
        FormatMoney heldMicros +:+ "; try again when they end, or an administrator " +:+
        "can add credit under Billing"
      else
        "your organisation has used up its credit (balance " +:+
        FormatMoney balanceMicros +:+ "); an administrator can add credit under Billing"
  | ErrChargeDue since =>
      "your organisation has a recurring charge due since " +:+ DateOnly since +:+
      " that no saved card can pay; an administrator " +:+
      "can pay it and save a card under Billing"
  end.

(** ** What the client is told *)

(** [Server.advise]; [PanelURL] is the option of that name. *)
Definition advise (PanelURL msg : string) : string :=
  if bool_decide (PanelURL = "") then msg
  else msg +:+ ". Your keys and their limits are at " +:+ PanelURL +:+ "/access".

Definition told (PanelURL : string) (ref : refusal) : string :=
  if R_advise ref then advise PanelURL (R_msg ref) else R_msg ref.

Definition unknownModel : string := "unknown".

Definition metricModel `{Source} (orgID alias : string) : string :=
  if bool_decide (alias = "") then ""
  else if bool_decide (is_Some (src_Model orgID alias)) then alias
  else if bool_decide (is_Some (src_Router orgID alias)) then alias
  else unknownModel.

(** [appendNote]. *)
Definition appendNote (text note : string) : string :=
  if bool_decide (note = "") then text
  else if bool_decide (text = "") then note
  else text +:+ " (" +:+ note +:+ ")".

(** ** Examples *)

Example date_formats :
  let t := (20655 * 86400 + 15 * 3600 + 4 * 60 + 5) * Second in
  (format_date_at t, RFC3339 t) = ("21 July 2026 at 15:04", "2026-07-21T15:04:05Z").
Proof. vm_compute. reflexivity. Qed.
