(* ===== verification/Payments.v ===== *)
(** * Paying in advance

    [internal/control/payments.go] and [charges.go], and the transactions of
    [internal/payment/postfinance.go]: what a payment costs, how PostFinance's
    answers end it, the handlers, the webhook, and the round that charges saved
    cards and settles what was left pending. The database and PostFinance
    answer the programs; log lines are left out. *)
From S2P Require Import Prelude GoTime Num Tenancy Pricing Guardrails Text Filters Routers RouterCheck.
From S2P Require Import Replies Guard Routing Budgets Messages Hosting Providers Catalog Credit.
From S2P Require Import Control Principals.
Open Scope go_scope.

(** ** Amounts *)

Definition minTopUp : Z := 1000000.
Definition maxTopUp : Z := 10000000000.
Definition maxCharge : Z := 100000000000.

Definition feeFixed : Z := 180000.
Definition feeBP : Z := 155.
Definition feeMinPart : Z := 200000.

Definition feeOn (micros : Z) : Z :=
  let part := Z.max (quot64 (mul64 micros feeBP) 10000) feeMinPart in
  add64 feeFixed (mul64 (quot64 (add64 part 5000) 10000) 10000).

(** [Amount]: micro-francs as PostFinance writes them. *)
Definition Amount (micros : Z) : string :=
  let '(sign, micros) := if micros <? 0 then ("-", wrap64 (- micros)) else ("", micros) in
  sign +:+ pretty (quot64 micros 1000000) +:+ "." +:+ zero_pad 2 (quot64 (Z.rem micros 1000000) 10000).

Section amounts.
Context `{Num T} `{FloatText T}.

(** [vatOn], to the centime. *)
Definition vatOn (micros bp : Z) : Z :=
  mul64 (num_round (num_div (num_div (num_mul (of_Z micros) (of_Z bp)) (of_Z 10000)) (of_Z 10000))) 10000.

Definition Percent (bp : Z) : string := FormatFloat (num_div (of_Z bp) (of_Z 100)) "f" (-1).

Definition checkAmount (micros : Z) : option string :=
  if (micros <? minTopUp) || (maxTopUp <? micros)
  then Some ("pay from " +:+ FormatPrice minTopUp +:+ " to " +:+ FormatPrice maxTopUp)
  else if negb (Z.rem micros 10000 =? 0) then Some "give whole centimes"
  else None.
End amounts.

(** ** PostFinance's transactions *)

Definition SaveCardMode : string := "FORCE_CREATION_WITH_ONE_CLICK_PAYMENT".

Record LineItem := {
  LI_Name : string;
  Quantity : Z;
  AmountIncludingTax : string;
  LI_Type : string;
  UniqueID : string;
  SKU : string;
  Taxes : list (string * string);
}.

Record NewTransaction := {
  nt_Currency : string;
  LineItems : list LineItem;
  CustomerID : string;
  CustomerEmailAddress : string;
  MerchantReference : string;
  SuccessURL : string;
  FailedURL : string;
  TokenizationMode : string;
  nt_Token : Z;
  CustomersPresence : string;
  CompletionBehavior : string;
  MetaData : list (string * string);
}.

#[export] Instance NewTransaction_updatable : Updatable NewTransaction := λ t,
  {| nt_Currency := nt_Currency t; LineItems := LineItems t; CustomerID := CustomerID t;
     CustomerEmailAddress := CustomerEmailAddress t; MerchantReference := MerchantReference t; SuccessURL := SuccessURL t;
     FailedURL := FailedURL t; TokenizationMode := TokenizationMode t; nt_Token := nt_Token t;
     CustomersPresence := CustomersPresence t; CompletionBehavior := CompletionBehavior t; MetaData := MetaData t |}.

Record Transaction (T : Type) := {
  tx_ID : Z;
  tx_State : string;
  tx_Currency : string;
  AuthorizationAmount : T;
  UserFailureMessage : string;
  tx_Token : option Z;
}.
Arguments tx_ID {T}.
Arguments tx_State {T}.
Arguments tx_Currency {T}.
Arguments AuthorizationAmount {T}.
Arguments UserFailureMessage {T}.
Arguments tx_Token {T}.

(** [Transaction.Paid], [Failed] and [TokenID]. *)
Definition tx_Paid {T} (t : Transaction T) : bool := bool_decide (tx_State t = "FULFILL").

Definition tx_Failed {T} (t : Transaction T) : bool :=
  bool_decide (tx_State t = "FAILED") || bool_decide (tx_State t = "DECLINE") || bool_decide (tx_State t = "VOIDED").

Definition TokenID {T} (t : Transaction T) : Z := default 0 (tx_Token t).

(** An answer of PostFinance that is not 2xx, or no answer. *)
Inductive pf_error := Answered (status : Z) (code message : string) | Unanswered (what : string).

(** What went wrong in a settlement: PostFinance's answer or the database's. *)
Inductive settle_error := Pf (e : pf_error) | Db (e : db_error).

Definition TurnedAway (status : Z) : bool :=
  (status =? StatusUnauthorized) || (status =? StatusForbidden) || (status =? StatusTooManyRequests).

Definition Refused (status : Z) : bool :=
  if (status =? 408) || (status =? StatusConflict) then false
  else (Z.quot status 100 =? 4) && negb (TurnedAway status).

(** A card as PostFinance shows it; a zero time is [None]. *)
Record pf_card := { c_Label : string; Expires : option Z }.

(** ** The calls *)

Record RecurringCharge := { rc_ID : string; rc_row : charge; DueAt : Z; DueUntil : Z }.

Inductive call :=
  | Db_CreatePayment (p : Payment)
  | Db_SetTransaction (id : string) (tx : Z)
  | Db_Settle (id : string) (how : Settlement)
  | Db_Grant (p : Payment)
  | Db_UpdateCredit (org : string) (below amount : option Z) (inv : option bool)
  | Db_ForgetCard (org : string)
  | Db_CreateCharge (id : string) (c : charge)
  | Db_DeleteCharge (id : string)
  | Db_Charge (id : string)
  | Db_CreditAccount (org : string)
  | Db_ListPayments (org before : string) (limit : Z)
  | Db_ListCharges (org : string)
  | Db_Payment (id : string)
  | Db_PaymentByTransaction (tx : Z)
  | Db_PendingPaymentsOf (org : string) (since : Z) (limit : nat)
  | Db_PendingPayments (since before : Z) (limit : nat)
  | Db_DueTopUps (limit : nat)
  | Db_DueCharges (limit : nat)
  | Db_OrgName (org : string)
  | Db_TakeTurn (what : string) (every : Z)
  | Db_Audit (actor org action target id : string)
  | Pf_Create (t : NewTransaction)
  | Pf_Get (tx : Z)
  | Pf_Charge (tx : Z)
  | Pf_PaymentPageURL (tx : Z)
  | Pf_Card (token : Z)
  | Pf_DeleteToken (token : Z)
  | Pf_InvoiceDocument (tx : Z)
  | Reg_RefreshCredit
  | Announce (org : string)
  | Time_Now
  | New_ID (prefix : string).

Definition answer (T : Type) (c : call) : Type :=
  match c with
  | Db_CreatePayment _ | Db_SetTransaction _ _ => option db_error
  | Db_Settle _ _ => db_error + Settled
  | Db_Grant _ | Db_Payment _ | Db_PaymentByTransaction _ => db_error + Payment
  | Db_UpdateCredit _ _ _ _ | Db_CreditAccount _ => db_error + account
  | Db_ForgetCard _ => db_error + Z
  | Db_CreateCharge _ _ | Db_DeleteCharge _ | Db_Charge _ => db_error + RecurringCharge
  | Db_ListPayments _ _ _ | Db_PendingPaymentsOf _ _ _ | Db_PendingPayments _ _ _ => db_error + list Payment
  | Db_ListCharges _ => db_error + list RecurringCharge
  | Db_DueTopUps _ => db_error + list (string * account)
  | Db_DueCharges _ => db_error + list (RecurringCharge * Z)
  | Db_OrgName _ => db_error + string
  | Db_TakeTurn _ _ => bool
  | Pf_Create _ | Pf_Get _ | Pf_Charge _ => pf_error + Transaction T
  | Pf_PaymentPageURL _ | Pf_InvoiceDocument _ => pf_error + string
  | Pf_Card _ => pf_error + pf_card
  | Pf_DeleteToken _ => option pf_error
  | Db_Audit _ _ _ _ _ | Reg_RefreshCredit | Announce _ => unit
  | Time_Now => Z
  | New_ID _ => string
  end%type.

(** What the handlers show. *)
Inductive page :=
  | NoPayments
  | Account (a : account) (recent : list Payment) (charges : list RecurringCharge)
  | Settings (a : account)
  | Forgotten (org : string)
  | Started (pm : Payment) (url : string)
  | Listed (list : list Payment) (next_before : option string)
  | Receipt (filename : string) (data : string)
  | Granted (pm : Payment)
  | Charges (list : list RecurringCharge)
  | Created (c : RecurringCharge)
  | Deleted (id : string).

Definition failure_of (e : db_error) : failure := match e with ErrNotFound => IsNotFound | _ => IsOther "" end.

(** ** Programs *)

Section programs.
Context `{Num T} `{FloatText T}.
(** [Payments.VATBP], the client's space, and [Options.PublicURL]. *)
Context (VATBP SpaceID : Z) (PublicURL : string).

Abbreviation P := (prog (answer T)).

Definition lineItemName (pm : Payment) : string :=
  match PeriodStart pm, PeriodEnd pm with
  | Some from, Some to => Item pm +:+ ", " +:+ DateOnly from +:+ " to " +:+ DateOnly (AddDate to 0 0 (-1))
  | _, _ => Item pm
  end.

Definition transactionFor (pm : Payment) (email : string) : NewTransaction :=
  let charged := bool_decide (Pm_Kind pm = PaymentCharge) in
  let item :=
    {| LI_Name := if charged then lineItemName pm else "Keera credit"; Quantity := 1; LI_Type := "PRODUCT";
       AmountIncludingTax := Amount (add64 (AmountMicros pm) (VATMicros pm));
       UniqueID := if charged then "charge" else "credit"; SKU := if charged then "keera-charge" else "keera-credit";
       Taxes := if 0 <? VATBP then [(Percent VATBP, "VAT")] else [] |} in
  let fee :=
    if 0 <? FeeMicros pm
    then [{| LI_Name := "Transaction fee"; Quantity := 1; LI_Type := "FEE"; AmountIncludingTax := Amount (FeeMicros pm);
             UniqueID := "fee"; SKU := ""; Taxes := [] |}]
    else [] in
  {| nt_Currency := Currency; LineItems := item :: fee; CustomerID := Pm_OrgID pm; CustomerEmailAddress := email;
     MerchantReference := Pm_ID pm; SuccessURL := ""; FailedURL := ""; TokenizationMode := ""; nt_Token := 0;
     CustomersPresence := ""; CompletionBehavior := "COMPLETE_IMMEDIATELY";
     MetaData := [("org_id", Pm_OrgID pm); ("payment_id", Pm_ID pm)] |}.

(** [paidInFull]. *)
Definition paidInFull (pm : Payment) (tx : Transaction T) : bool :=
  let cents := num_round (num_mul (AuthorizationAmount tx) (of_Z 100)) in
  bool_decide (tx_Currency tx = Currency) &&
  (cents =? quot64 (add64 (add64 (AmountMicros pm) (VATMicros pm)) (FeeMicros pm)) 10000).

(** [newPayment]; the database sets what a new row has not. *)
Definition newPayment (orgID : string) (kind : PaymentKind) (micros : Z) (actor : string) : P Payment :=
  id ← ask (New_ID "pay");
  Ret {| Pm_ID := id; Pm_OrgID := orgID; CreatedAt := time_zero; Pm_Kind := kind; AmountMicros := micros;
         VATMicros := vatOn micros VATBP; FeeMicros := feeOn micros; State := PaymentPending; SaveCard := false;
         TransactionID := 0; Credit.Actor := actor; Note := ""; SettledAt := None; ChargeID := ""; Item := "";
         PeriodStart := None; PeriodEnd := None |}.

Definition auditPayment (settled : Payment) : P unit :=
  ask (Db_Audit "payments" (Pm_OrgID settled)
    (match State settled with
     | PaymentPending => "billing.payment.pending" | PaymentPaid => "billing.payment.paid"
     | PaymentFailed => "billing.payment.failed"
     end) "payment" (Pm_ID settled)).

Definition refreshCredit : P unit := ask Reg_RefreshCredit.

Definition deleteToken (token : Z) : P unit := _ ← ask (Pf_DeleteToken token); Ret tt.

(** [settleFailed]. *)
Definition settleFailed (pm : Payment) (note : string) (retry : bool) : P (option db_error) :=
  done ← ask (Db_Settle (Pm_ID pm) {| Paid := false; how_Note := note; Card := None; Token := 0; Retry := retry |});
  match done with
  | inl e => Ret (Some e)
  | inr s =>
      if Ended s then
        _ ← auditPayment (s_Payment s);
        _ ← (if bool_decide (Pm_Kind pm = PaymentCharge) then refreshCredit else Ret tt);
        Ret None
      else Ret None
  end.

Definition unpaid (note : string) : Settlement :=
  {| Paid := false; how_Note := note; Card := None; Token := 0; Retry := false |}.

(** The settlement [settleWith] gives the database; [None] while the transaction is under way. *)
Definition settlement_of (pm : Payment) (tx : Transaction T) : P (option Settlement) :=
  if tx_Paid tx && negb (paidInFull pm tx)
  then Ret (Some (unpaid "the amount paid does not match; ask the operator of this deployment"))
  else if tx_Paid tx then
    if SaveCard pm && (TokenID tx =? 0) then
      Ret (Some {| Paid := true; how_Note := "paid, but this payment method cannot be saved to be charged again";
                   Card := None; Token := 0; Retry := false |})
    else if SaveCard pm then
      card ← ask (Pf_Card (TokenID tx));
      let card := match card with inr c => c | inl _ => {| c_Label := ""; Expires := None |} end in
      Ret (Some {| Paid := true; how_Note := ""; Token := TokenID tx; Retry := false;
                   Card := Some {| Label := if bool_decide (c_Label card = "") then "Saved card" else c_Label card;
                                   ExpiresAt := Expires card |} |})
    else Ret (Some {| Paid := true; how_Note := ""; Card := None; Token := 0; Retry := false |})
  else if tx_Failed tx then
    Ret (Some (unpaid (if bool_decide (UserFailureMessage tx = "") then "the payment did not go through" else UserFailureMessage tx)))
  else Ret None.

(** [settleWith]. *)
Definition settleWith (pm : Payment) (tx : Transaction T) : P (option db_error) :=
  how ← settlement_of pm tx;
  match how with
  | None => Ret None
  | Some how =>
      done ← ask (Db_Settle (Pm_ID pm) how);
      match done with
      | inl e => Ret (Some e)
      | inr s =>
          if negb (Ended s) then Ret None
          else
            _ ← (if negb (OldToken s =? 0) then deleteToken (OldToken s) else Ret tt);
            _ ← refreshCredit;
            _ ← (if Lifted s then ask (Announce (Pm_OrgID (s_Payment s))) else Ret tt);
            _ ← auditPayment (s_Payment s);
            Ret None
      end
  end.

(** [settle]. *)
Definition settle (pm : Payment) : P (option settle_error) :=
  if bool_decide (State pm = PaymentPaid) || (TransactionID pm =? 0) then Ret None
  else
    tx ← ask (Pf_Get (TransactionID pm));
    match tx with
    | inl e => Ret (Some (Pf e))
    | inr tx => e ← settleWith pm tx; Ret (option_map Db e)
    end.

Definition settleRecent (orgID : string) : P unit :=
  now ← ask Time_Now;
  list ← ask (Db_PendingPaymentsOf orgID (now - Hour) 5);
  match list with
  | inl _ => Ret tt
  | inr list => each (λ pay, if negb (TransactionID pay =? 0) then _ ← settle pay; Ret tt else Ret tt) list
  end.

(** [startTransaction]: the payment, tied to its transaction once there is one. *)
Definition startTransaction (pm : Payment) (t : NewTransaction) : P (Payment * (settle_error + Transaction T)) :=
  tx ← ask (Pf_Create t);
  match tx with
  | inl e => Ret (pm, inl (Pf e))
  | inr tx =>
      let pm := pm <| TransactionID := tx_ID tx |> in
      e ← ask (Db_SetTransaction (Pm_ID pm) (tx_ID tx));
      Ret (pm, match e with Some e => inl (Db e) | None => inr tx end)
  end.

(** [chargeCard]. *)
Definition chargeCard (pm : Payment) (token : Z) : P unit :=
  e ← ask (Db_CreatePayment pm);
  match e with
  | Some _ => Ret tt
  | None =>
      let t := (transactionFor pm "") <| nt_Token := token |> <| CustomersPresence := "NOT_PRESENT" |> in
      started ← startTransaction pm t;
      let '(pm, tx) := (started : Payment * (settle_error + Transaction T)) in
      match tx with
      | inl _ => _ ← settleFailed pm "PostFinance Checkout could not be reached" true; Ret tt
      | inr tx =>
          charged ← ask (Pf_Charge (tx_ID tx));
          match charged with
          | inl (Answered status _ _) =>
              if TurnedAway status then _ ← settleFailed pm "PostFinance Checkout turned the charge away" true; Ret tt
              else if Refused status then _ ← settleFailed pm "PostFinance refused to charge the saved card" false; Ret tt
              else Ret tt
          | inl (Unanswered _) => Ret tt
          | inr charged => _ ← settleWith pm charged; Ret tt
          end
      end
  end.

Definition autoTopUp (due : string * account) : P unit :=
  pm ← newPayment due.1 PaymentAuto (topup due.2) "automatic top-up";
  chargeCard pm (default 0 (card_token due.2)).

Definition topUpDue : P unit :=
  due ← ask (Db_DueTopUps 20);
  match due with inl _ => Ret tt | inr due => each autoTopUp due end.

(** A payment of a recurring charge's period. *)
Definition for_period (pm : Payment) (c : RecurringCharge) : Payment :=
  pm <| ChargeID := rc_ID c |> <| Item := ch_name (rc_row c) |> <| PeriodStart := Some (DueAt c) |>
     <| PeriodEnd := Some (DueUntil c) |>.

Definition chargeSavedCard (due : RecurringCharge * Z) : P unit :=
  pm ← newPayment (ch_org (rc_row due.1)) PaymentCharge (ch_micros (rc_row due.1)) "recurring charge";
  chargeCard (for_period pm due.1) due.2.

Definition chargesDue : P unit :=
  due ← ask (Db_DueCharges 20);
  match due with inl _ => Ret tt | inr due => each chargeSavedCard due end.

Definition settleAfter : Z := Minute.
Definition unstarted : Z := 10 * Minute.
Definition lookUpFor : Z := 24 * Hour.

(** What [settlePending] does with one payment. *)
Definition settleOld (now : Z) (pm : Payment) : P unit :=
  let age := time_sub now (CreatedAt pm) in
  if TransactionID pm =? 0 then
    if unstarted <? age then _ ← settleFailed pm "the payment was interrupted before it started" true; Ret tt else Ret tt
  else
    tx ← ask (Pf_Get (TransactionID pm));
    match tx with
    | inl _ => Ret tt
    | inr tx =>
        if negb (tx_Paid tx) && negb (tx_Failed tx) && (lookUpFor <? age) then
          _ ← settleFailed pm ("it did not end within a day; look up transaction " +:+ pretty (tx_ID tx) +:+
                               " in PostFinance Checkout") false;
          Ret tt
        else _ ← settleWith pm tx; Ret tt
    end.

Definition settlePending (now : Z) : P unit :=
  list ← ask (Db_PendingPayments (now - lookUpFor) (now - settleAfter) 50);
  match list with inl _ => Ret tt | inr list => each (settleOld now) list end.

Definition paymentsEvery : Z := 30 * Second.

(** One tick of [RunPayments]. *)
Definition RunPayments_tick : P unit :=
  turn ← ask (Db_TakeTurn "payments" paymentsEvery);
  if negb turn then Ret tt
  else
    _ ← topUpDue;
    _ ← chargesDue;
    now ← ask Time_Now;
    settlePending now.

(** [postFinanceWebhook], for a body that says this much; the status it answers. *)
Definition postFinanceWebhook (body : option (Z * string * Z)) : P Z :=
  match body with
  | None => Ret StatusBadRequest
  | Some (EntityID, Entity, Space) =>
      if negb (bool_decide (Entity = "Transaction")) || negb (Space =? SpaceID) then Ret StatusOK
      else
        pm ← ask (Db_PaymentByTransaction EntityID);
        match pm with
        | inl ErrNotFound => Ret StatusOK
        | inl _ => Ret 503
        | inr pm =>
            if bool_decide (State pm = PaymentPaid) then Ret StatusOK
            else e ← settle pm; Ret (match e with Some _ => 503 | None => StatusOK end)
        end
  end.

(** ** The handlers

    [on] says whether the deployment takes payments, [rid] is the request's
    id, [org_id] what the query names. A body is what [readJSON] made of it. *)

Context (on : bool) (rid : string).

Definition payments_disabled : problem :=
  switchedOff "payments_disabled"
    "this deployment takes no payments: nobody pays in advance. See https://docs.keera.ch/manage/billing/".

Definition refuse {B} (e : problem) : P (reply B) := Ret (inl e).
Definition show {B} (b : B) : P (reply B) := Ret (inr (StatusOK, b)).
Definition shown_created {B} (b : B) : P (reply B) := Ret (inr (StatusCreated, b)).
Definition failed {B} (e : db_error) : P (reply B) := refuse (fail rid (failure_of e)).
Definition audit (p : Principal) (org action target id : string) : P unit := ask (Db_Audit (Actor p) org action target id).

(** [payOnPage]. *)
Definition payOnPage (p : Principal) (pm : Payment) (action : string) : P (reply page) :=
  e ← ask (Db_CreatePayment pm);
  match e with
  | Some ErrTopUpUnderway =>
      refuse (conflict "charge_underway" "the saved card is being charged for this period; check again in a few minutes")
  | Some e => failed e
  | None =>
      let back := PublicURL +:+ "/billing?payment=" +:+ Pm_ID pm in
      let t := (transactionFor pm (P_Email p)) <| SuccessURL := back |> <| FailedURL := back |>
                 <| TokenizationMode := if SaveCard pm then SaveCardMode else "" |> in
      started ← startTransaction pm t;
      let '(pm, tx) := (started : Payment * (settle_error + Transaction T)) in
      url ← match tx with
            | inl _ => Ret None
            | inr tx => u ← ask (Pf_PaymentPageURL (tx_ID tx)); Ret (match u with inr u => Some u | inl _ => None end)
            end;
      match url with
      | None =>
          _ ← settleFailed pm "PostFinance Checkout could not start the payment" false;
          refuse {| p_status := StatusBadGateway; p_type := "server_error"; p_code := "payment_unavailable";
                    p_message := "PostFinance Checkout could not start the payment; nothing was charged. Try again in a moment" |}
      | Some url =>
          _ ← audit p (Pm_OrgID pm) action "payment" (Pm_ID pm);
          shown_created (Started pm url)
      end
  end.

Definition createTopUp (p : Principal) (org_id : string) (body : problem + (Z * bool)) : P (reply page) :=
  if negb on then refuse payments_disabled
  else match adminOrg p org_id with
  | inl e => refuse e
  | inr orgID =>
      match body with
      | inl e => refuse e
      | inr (AmountMicros, SaveCard_) =>
          match checkAmount AmountMicros with
          | Some msg => refuse (badRequest ("'amount_micros': " +:+ msg))
          | None =>
              pm ← newPayment orgID PaymentTopUp AmountMicros (Actor p);
              payOnPage p (pm <| SaveCard := SaveCard_ |>) "billing.topup"
          end
      end
  end.

Definition payCharge (p : Principal) (id : string) : P (reply page) :=
  if negb on then refuse payments_disabled
  else match requireAdmin p with
  | Some e => refuse e
  | None =>
      c ← ask (Db_Charge id);
      match c with
      | inl e => failed e
      | inr c =>
          if negb (CanAdminOrg p (ch_org (rc_row c))) then failed ErrNotFound
          else
            a ← ask (Db_CreditAccount (ch_org (rc_row c)));
            match a with
            | inl e => failed e
            | inr a =>
                now ← ask Time_Now;
                if bool_decide (is_Some (card_token a)) && bool_decide (ch_error (rc_row c) = None) && (now <? DueAt c) then
                  refuse (conflict "nothing_due" ("nothing is due yet: the saved card is charged on " +:+ DateOnly (DueAt c)))
                else
                  pm ← newPayment (ch_org (rc_row c)) PaymentCharge (ch_micros (rc_row c)) (Actor p);
                  payOnPage p (for_period (pm <| SaveCard := true |>) c) "billing.charge.pay"
            end
      end
  end.

(** The checks of [updateCreditAccount]'s automatic top-up. *)
Definition checkTopUp (below amount : Z) : option string :=
  if (below =? 0) && (amount =? 0) then None
  else if (below <=? 0) || (maxTopUp <? below) then
    Some ("'topup_below_micros' is the balance that starts a top-up; give one above " +:+ FormatPrice 0 +:+
          " and up to " +:+ FormatPrice maxTopUp)
  else match checkAmount amount with
  | Some msg => Some ("'topup_micros': " +:+ msg)
  | None =>
      if amount <? below then
        Some ("'topup_micros' must be at least 'topup_below_micros', so one " +:+
              "top-up lifts the credit above the threshold")
      else None
  end.

Definition updateCreditAccount (p : Principal) (org_id : string)
    (body : problem + (option Z * option Z * option bool)) : P (reply page) :=
  if negb on then refuse payments_disabled
  else match adminOrg p org_id with
  | inl e => refuse e
  | inr orgID =>
      match body with
      | inl e => refuse e
      | inr (below, amount, inv) =>
          if bool_decide (is_Some inv) && negb (Unrestricted p)
          then refuse (forbid "only an operator can bill an organisation by invoice")
          else
            name ← ask (Db_OrgName orgID);
            match name with
            | inl e => failed e
            | inr _ =>
                let wrong := match below, amount with
                  | None, None => None
                  | Some below, Some amount => checkTopUp below amount
                  | _, _ => Some ("set 'topup_below_micros' and 'topup_micros' together; both 0 turns " +:+ "the automatic top-up off")
                  end in
                match wrong with
                | Some msg => refuse (badRequest msg)
                | None =>
                    a ← ask (Db_UpdateCredit orgID below amount inv);
                    match a with
                    | inl e => failed e
                    | inr a =>
                        _ ← audit p orgID "billing.account.update" "org" orgID;
                        _ ← (if bool_decide (is_Some inv) then refreshCredit else Ret tt);
                        show (Settings a)
                    end
                end
            end
      end
  end.

Definition forgetCard (p : Principal) (org_id : string) : P (reply page) :=
  if negb on then refuse payments_disabled
  else match adminOrg p org_id with
  | inl e => refuse e
  | inr orgID =>
      charges ← ask (Db_ListCharges orgID);
      match charges with
      | inl e => failed e
      | inr (_ :: _) =>
          refuse (conflict "card_required" ("this organisation has recurring charges, which are " +:+
            "charged to the saved card, so it cannot be forgotten. Paying with another card " +:+
            "and saving it replaces it. See https://docs.keera.ch/manage/billing/#recurring-charges"))
      | inr [] =>
          token ← ask (Db_ForgetCard orgID);
          match token with
          | inl e => failed e
          | inr token =>
              _ ← (if negb (token =? 0) then deleteToken token else Ret tt);
              _ ← audit p orgID "billing.card.remove" "org" orgID;
              show (Forgotten orgID)
          end
      end
  end.

Definition listPayments (p : Principal) (org_id before : string) (limit : problem + Z) : P (reply page) :=
  match requireAdmin p with
  | Some e => refuse e
  | None =>
      match scopeOrg p org_id with
      | inl e => refuse e
      | inr orgID =>
          match limit with
          | inl e => refuse e
          | inr limit =>
              list ← ask (Db_ListPayments orgID before limit);
              match list with
              | inl e => failed e
              | inr list => show (Listed list (option_map Pm_ID (last list)))
              end
          end
      end
  end.

(** [paymentReceipt]. *)
Definition paymentReceipt (p : Principal) (id : string) : P (reply page) :=
  if negb on then refuse payments_disabled
  else match requireAdmin p with
  | Some e => refuse e
  | None =>
      pm ← ask (Db_Payment id);
      match pm with
      | inl e => failed e
      | inr pm =>
          if negb (CanAdminOrg p (Pm_OrgID pm)) then failed ErrNotFound
          else if bool_decide (Pm_Kind pm = PaymentGrant) then refuse (conflict "no_receipt" "a grant has no receipt: nobody paid for it")
          else if negb (bool_decide (State pm = PaymentPaid)) || (TransactionID pm =? 0) then
            refuse (conflict "no_receipt" ("only a paid payment has a receipt; this one is " +:+
              match State pm with PaymentPending => "pending" | PaymentPaid => "paid" | PaymentFailed => "failed" end))
          else
            doc ← ask (Pf_InvoiceDocument (TransactionID pm));
            match doc with
            | inl _ =>
                refuse {| p_status := StatusBadGateway; p_type := "server_error"; p_code := "receipt_unavailable";
                          p_message := "PostFinance Checkout did not hand out the receipt; try again in a moment" |}
            | inr data => show (Receipt ("keera-receipt-" +:+ DateOnly (CreatedAt pm) +:+ "-" +:+ Pm_ID pm +:+ ".pdf") data)
            end
      end
  end.

(** The checks of [grantCredit]'s body. *)
Definition checkGrant (org : string) (micros : Z) (note : string) : option problem :=
  if bool_decide (org = "") then Some (needOrg "send the 'org_id' of the organisation to credit")
  else if (micros =? 0) || (micros <? - maxTopUp) || (maxTopUp <? micros) then
    Some (badRequest ("'amount_micros' is the credit to add, or below 0 to take away, up to " +:+ FormatPrice maxTopUp))
  else if bool_decide (note = "") then
    Some (badRequest "a 'note' is required: it says why, in the organisation's payments")
  else None.

Definition grantCredit (p : Principal) (body : problem + (string * Z * string)) : P (reply page) :=
  if negb on then refuse payments_disabled
  else if negb (Unrestricted p) then refuse (forbid "only an operator can grant credit")
  else match body with
  | inl e => refuse e
  | inr (org, micros, note) =>
      let note := TrimSpace note in
      match checkGrant org micros note with
      | Some e => refuse e
      | None =>
          name ← ask (Db_OrgName org);
          match name with
          | inl e => failed e
          | inr _ =>
              id ← ask (New_ID "pay");
              g ← ask (Db_Grant {| Pm_ID := id; Pm_OrgID := org; CreatedAt := time_zero; Pm_Kind := PaymentGrant;
                AmountMicros := micros; VATMicros := 0; FeeMicros := 0; State := PaymentPaid; SaveCard := false;
                TransactionID := 0; Credit.Actor := Actor p; Note := note; SettledAt := None; ChargeID := ""; Item := "";
                PeriodStart := None; PeriodEnd := None |});
              match g with
              | inl e => failed e
              | inr g =>
                  _ ← audit p org "billing.grant" "payment" (Pm_ID g);
                  _ ← refreshCredit;
                  shown_created (Granted g)
              end
          end
      end
  end.

Definition creditAccount (p : Principal) (org_id : string) : P (reply page) :=
  match requireAdmin p with
  | Some e => refuse e
  | None =>
      match queryOrg p org_id with
      | inl e => refuse e
      | inr orgID =>
          if negb on then show NoPayments
          else
            _ ← settleRecent orgID;
            a ← ask (Db_CreditAccount orgID);
            match a with
            | inl e => failed e
            | inr a =>
                list ← ask (Db_ListPayments orgID "" 20);
                match list with
                | inl e => failed e
                | inr list =>
                    charges ← ask (Db_ListCharges orgID);
                    match charges with
                    | inl e => failed e
                    | inr charges => show (Account a list charges)
                    end
                end
            end
      end
  end.

Definition listCharges (p : Principal) (org_id : string) : P (reply page) :=
  if negb on then refuse payments_disabled
  else match requireAdmin p with
  | Some e => refuse e
  | None =>
      match scopeOrg p org_id with
      | inl e => refuse e
      | inr orgID =>
          list ← ask (Db_ListCharges orgID);
          match list with inl e => failed e | inr list => show (Charges list) end
      end
  end.

(** The checks of [createCharge]'s body, [today]. *)
Definition checkCharge (today org name : string) (micros : Z) (every starts : string) : option problem :=
  if bool_decide (org = "") then Some (needOrg "send the 'org_id' of the organisation to charge")
  else if bool_decide (name = "") || (100 <? length (runes name))%nat then
    Some (badRequest ("'name' says what the charge pays for, on the payment page and the " +:+
      "receipt; give one of up to 100 characters"))
  else if (micros <? minTopUp) || (maxCharge <? micros) then
    Some (badRequest ("'amount_micros' is the price of each period without VAT; charge from " +:+
      FormatPrice minTopUp +:+ " to " +:+ FormatPrice maxCharge))
  else if negb (Z.rem micros 10000 =? 0) then Some (badRequest "'amount_micros': give whole centimes")
  else if negb (bool_decide (every = "month")) && negb (bool_decide (every = "year")) then
    Some (badRequest "'every' is 'month' or 'year'")
  else if negb (ValidReleaseDate starts) then
    Some (badRequest ("'starts_on' is the day the first period starts, such as " +:+ today))
  else if String.ltb starts today then
    Some (badRequest ("'starts_on' cannot be in the past; the earliest is today, " +:+ today))
  else None.

Definition createCharge (p : Principal) (body : problem + (string * string * Z * string * string)) : P (reply page) :=
  if negb on then refuse payments_disabled
  else if negb (Unrestricted p) then refuse (forbid "only an operator can add a recurring charge")
  else match body with
  | inl e => refuse e
  | inr (org, name, micros, every, starts) =>
      let name := TrimSpace name in
      now ← ask Time_Now;
      let today := DateOnly now in
      let starts := if bool_decide (starts = "") then today else starts in
      match checkCharge today org name micros every starts with
      | Some e => refuse e
      | None =>
          known ← ask (Db_OrgName org);
          match known with
          | inl e => failed e
          | inr _ =>
              id ← ask (New_ID "charge");
              c ← ask (Db_CreateCharge id {| ch_org := org; ch_name := name; ch_micros := micros; ch_every := every;
                starts_on := starts; paid_periods := 0%nat; ch_error := None; ch_actor := Actor p |});
              match c with
              | inl e => failed e
              | inr c =>
                  _ ← audit p org "billing.charge.create" "charge" (rc_ID c);
                  _ ← refreshCredit;
                  shown_created (Created c)
              end
          end
      end
  end.

Definition deleteCharge (p : Principal) (id : string) : P (reply page) :=
  if negb on then refuse payments_disabled
  else if negb (Unrestricted p) then refuse (forbid "only an operator can remove a recurring charge")
  else
    c ← ask (Db_DeleteCharge id);
    match c with
    | inl e => failed e
    | inr c =>
        _ ← audit p (ch_org (rc_row c)) "billing.charge.delete" "charge" (rc_ID c);
        _ ← refreshCredit;
        show (Deleted (rc_ID c))
    end.

(** Where a program of this component starts: a route, the webhook, or a tick. *)
Inductive entry :=
  | Get_account (p : Principal) (org_id : string)
  | Patch_account (p : Principal) (org_id : string) (body : problem + (option Z * option Z * option bool))
  | Delete_card (p : Principal) (org_id : string)
  | Post_topup (p : Principal) (org_id : string) (body : problem + (Z * bool))
  | Get_payments (p : Principal) (org_id before : string) (limit : problem + Z)
  | Get_receipt (p : Principal) (id : string)
  | Post_grant (p : Principal) (body : problem + (string * Z * string))
  | Get_charges (p : Principal) (org_id : string)
  | Post_charge (p : Principal) (body : problem + (string * string * Z * string * string))
  | Delete_charge (p : Principal) (id : string)
  | Pay_charge (p : Principal) (id : string)
  | Webhook (body : option (Z * string * Z))
  | Tick.

Definition forget_reply {A} (p : P A) : P unit := _ ← p; Ret tt.

Definition program (e : entry) : P unit :=
  match e with
  | Get_account p org => forget_reply (creditAccount p org)
  | Patch_account p org body => forget_reply (updateCreditAccount p org body)
  | Delete_card p org => forget_reply (forgetCard p org)
  | Post_topup p org body => forget_reply (createTopUp p org body)
  | Get_payments p org before limit => forget_reply (listPayments p org before limit)
  | Get_receipt p id => forget_reply (paymentReceipt p id)
  | Post_grant p body => forget_reply (grantCredit p body)
  | Get_charges p org => forget_reply (listCharges p org)
  | Post_charge p body => forget_reply (createCharge p body)
  | Delete_charge p id => forget_reply (deleteCharge p id)
  | Pay_charge p id => forget_reply (payCharge p id)
  | Webhook body => if on then forget_reply (postFinanceWebhook body) else Ret tt
  | Tick => if on then RunPayments_tick else Ret tt
  end.

Definition entry_caller (e : entry) : option Principal :=
  match e with
  | Get_account p _ | Patch_account p _ _ | Delete_card p _ | Post_topup p _ _ | Get_payments p _ _ _ | Get_receipt p _
  | Post_grant p _ | Get_charges p _ | Post_charge p _ | Delete_charge p _ | Pay_charge p _ => Some p
  | Webhook _ | Tick => None
  end.
End programs.

(** *** What a payment costs *)

Lemma feeOn_value micros : 0 <= micros <= maxCharge →
  feeOn micros = feeFixed + (Z.max (micros * feeBP / 10000) feeMinPart + 5000) / 10000 * 10000.
Proof.
  unfold feeOn, maxCharge, feeBP, feeMinPart, feeFixed, mul64, quot64, add64. intros Hm.
  rewrite (wrap64_id (micros * 155)) by (unfold in_int64, two63; lia).
  assert (0 <= micros * 155 / 10000 <= 1550000000) by (split; [apply Z.div_pos; lia|apply Z.div_le_upper_bound; lia]).
  rewrite (Z.quot_div_nonneg (micros * 155) 10000) by lia. rewrite (wrap64_id (micros * 155 / 10000)) by (unfold in_int64, two63; lia).
  set (part := Z.max _ _). assert (0 <= part <= 1550000000) by (unfold part; lia). clearbody part.
  assert (0 <= (part + 5000) / 10000 <= 200000) by (split; [apply Z.div_pos; lia|apply Z.div_le_upper_bound; lia]).
  rewrite (wrap64_id (part + 5000)) by (unfold in_int64, two63; lia). rewrite (Z.quot_div_nonneg (part + 5000) 10000) by lia.
  rewrite (wrap64_id ((part + 5000) / 10000)) by (unfold in_int64, two63; lia).
  rewrite (wrap64_id ((part + 5000) / 10000 * 10000)) by (unfold in_int64, two63; lia).
  apply wrap64_id. unfold in_int64, two63; lia.
Qed.

(** The VAT of an amount without rounding errors. *)
Lemma vatOn_value micros bp : 0 <= micros <= maxCharge → 0 <= bp <= 10000 →
  vatOn (T := Q) micros bp = (2 * (micros * bp) + 100000000) / 200000000 * 10000.
Proof.
  unfold maxCharge. intros Hm Hb. assert (0 <= micros * bp <= 1000000000000000) by nia.
  unfold vatOn. rewrite (num_round_Q _ (micros * bp) 100000000); [|lia|lia|].
  - assert (0 <= (2 * (micros * bp) + 100000000) / 200000000 <= 20000000)
      by (split; [apply Z.div_pos; lia|apply Z.div_le_upper_bound; lia]).
    change (2 * 100000000) with 200000000. unfold mul64. apply wrap64_id. unfold in_int64, two63. lia.
  - cbn [num_div num_mul of_Z Num_Q]. rewrite inject_Z_mult. field.
Qed.

Definition whole_centimes (z : Z) : Prop := z mod 10000 = 0.

Lemma checkAmount_None `{Num T} `{FloatText T} micros : checkAmount micros = None ↔
  minTopUp <= micros <= maxTopUp ∧ whole_centimes micros.
Proof.
  unfold checkAmount, whole_centimes, minTopUp, maxTopUp. destruct (micros <? 1000000) eqn:E1; cbn; [split; [done|lia]|].
  destruct (10000000000 <? micros) eqn:E2; cbn; [split; [done|lia]|]. rewrite Z.rem_mod_nonneg by lia.
  destruct (micros mod 10000 =? 0) eqn:E3; cbn; split; try done; lia.
Qed.

Lemma half_centime part : 0 <= part → let r := (part + 5000) / 10000 * 10000 in
  whole_centimes r ∧ part - 5000 < r <= part + 5000.
Proof.
  intros Hp r. unfold whole_centimes, r. rewrite Z.mod_mul by lia. split; [done|].
  pose proof (Z.div_mod (part + 5000) 10000 ltac:(lia)). pose proof (Z.mod_pos_bound (part + 5000) 10000 ltac:(lia)). lia.
Qed.

(** What a payment comes to. *)
Definition payment_total (pm : Payment) : Z := AmountMicros pm + VATMicros pm + FeeMicros pm.

(** what an accepted amount costs: the VAT is its rate of the amount, and the fee is 18 centimes and 1.55% of it, the percentage at least 20 centimes, each to the nearest centime, so the total is whole centimes and far inside an int64; and PostFinance's transaction counts as paid in full exactly when it is in francs and its amount, read to the centime, is that total. *)
Theorem payment_price `{FloatText Q} (pm : Payment) bp (tx : Transaction Q) (centimes : Z) :
  checkAmount (T := Q) (AmountMicros pm) = None → 0 <= bp <= 10000 →
  VATMicros pm = vatOn (T := Q) (AmountMicros pm) bp → FeeMicros pm = feeOn (AmountMicros pm) →
  0 <= centimes → (AuthorizationAmount tx == inject_Z centimes / inject_Z 100)%Q →
  (whole_centimes (VATMicros pm) ∧ Z.abs (VATMicros pm * 10000 - AmountMicros pm * bp) <= 5000 * 10000) ∧
  (whole_centimes (FeeMicros pm) ∧ 380000 <= FeeMicros pm ∧
   Z.abs (FeeMicros pm - feeFixed - Z.max (AmountMicros pm * feeBP / 10000) feeMinPart) <= 5000) ∧
  (whole_centimes (payment_total pm) ∧ 0 < payment_total pm <= 3 * maxTopUp) ∧
  (paidInFull pm tx = true ↔ tx_Currency tx = Currency ∧ centimes * 10000 = payment_total pm).
Proof.
  intros Ha Hbp Hvat Hfee Hc Hamt. apply checkAmount_None in Ha as (Hr & Hw). unfold minTopUp, maxTopUp in Hr.
  rewrite vatOn_value in Hvat by (unfold maxCharge; lia). rewrite feeOn_value in Hfee by (unfold maxCharge; lia).
  set (m := AmountMicros pm) in *. assert (0 <= m * bp <= 100000000000000) as Hmb by nia.
  assert (0 <= m * feeBP / 10000 <= 155000000) as Hpart
    by (unfold feeBP; split; [apply Z.div_pos; lia|apply Z.div_le_upper_bound; lia]).
  destruct (half_centime (Z.max (m * feeBP / 10000) feeMinPart)) as (Hwf & Hbf); [unfold feeMinPart; lia|].
  assert (whole_centimes (VATMicros pm) ∧ Z.abs (VATMicros pm * 10000 - m * bp) <= 5000 * 10000 ∧ 0 <= VATMicros pm <= 10000000000 + 10000)
    as (Hwv & Hbv & Hv).
  { rewrite Hvat. unfold whole_centimes. rewrite Z.mod_mul by lia.
    pose proof (Z.div_mod (2 * (m * bp) + 100000000) 200000000 ltac:(lia)).
    pose proof (Z.mod_pos_bound (2 * (m * bp) + 100000000) 200000000 ltac:(lia)).
    assert (0 <= (2 * (m * bp) + 100000000) / 200000000) by (apply Z.div_pos; lia). lia. }
  assert (whole_centimes (FeeMicros pm) ∧ 380000 <= FeeMicros pm <= 200000000 ∧
          Z.abs (FeeMicros pm - feeFixed - Z.max (m * feeBP / 10000) feeMinPart) <= 5000) as (Hwfee & Hbfee & Hff).
  { rewrite Hfee. unfold feeFixed, feeMinPart, whole_centimes in *. rewrite Z.add_mod by lia.
    rewrite Hwf. split; [done|]. set (r := _ / 10000 * 10000) in *. clearbody r.
    assert (200000 <= r); [|lia]. assert (r mod 10000 = 0) as (q & Hq)%Z.mod_divide by done; lia. }
  assert (whole_centimes (payment_total pm)) as Hwt.
  { unfold payment_total, whole_centimes in *. fold m. rewrite Z.add_mod, (Z.add_mod m), Hw, Hwv, Hwfee by lia. done. }
  assert (0 < payment_total pm <= 3 * maxTopUp) as Ht by (unfold payment_total, maxTopUp; fold m; lia).
  split; [by split|]. split; [split_and!; [done|lia|done]|]. split; [done|].
  unfold paidInFull. rewrite (num_round_Q _ centimes 1); [|done|lia|].
  2:{ cbn [num_mul of_Z Num_Q]. rewrite Hamt. field. }
  unfold payment_total, maxTopUp in *. fold m in Ht, Hwt |- *. unfold add64, quot64.
  rewrite (wrap64_id (m + VATMicros pm)) by (unfold in_int64, two63; lia).
  rewrite (wrap64_id (m + VATMicros pm + FeeMicros pm)) by (unfold in_int64, two63; lia).
  set (total := m + VATMicros pm + FeeMicros pm) in *. clearbody total. rewrite Z.quot_div_nonneg by lia.
  pose proof (Z.div_mod total 10000 ltac:(lia)) as Hdm. unfold whole_centimes in Hwt. rewrite Hwt in Hdm.
  rewrite wrap64_id by (unfold in_int64, two63; lia).
  replace ((2 * centimes + 1) / (2 * 1)) with centimes by (apply (Z.div_unique _ _ _ 1); lia).
  rewrite andb_true_iff, bool_decide_eq_true, Z.eqb_eq. split; intros (? & ?); (split; [done|lia]).
Qed.

(** *** Witness *)

Section sample.
#[local] Instance sample_figures : FloatText Q := {| FormatFloat x _ _ := pretty (num_trunc x); ParseFloat _ := 0%Q |}.

(** A transaction of 22.11 francs. *)
Definition sample_tx (state : string) : Transaction Q :=
  {| tx_ID := 77; tx_State := state; tx_Currency := "CHF"; AuthorizationAmount := (2211 # 100)%Q; UserFailureMessage := "";
     tx_Token := None |}.

(** Twenty francs of credit at 8.1% VAT, with its fee. *)
Definition twenty_francs : Payment :=
  (sample_payment "pay_1" PaymentTopUp 20000000) <| VATMicros := vatOn (T := Q) 20000000 810 |> <| FeeMicros := feeOn 20000000 |>.

Lemma payment_price_witness :
  VATMicros twenty_francs = 1620000 ∧ FeeMicros twenty_francs = 490000 ∧ paidInFull twenty_francs (sample_tx "FULFILL") = true.
Proof.
  split; [vm_compute; reflexivity|]. split; [vm_compute; reflexivity|].
  apply (payment_price twenty_francs 810 (sample_tx "FULFILL") 2211);
    [vm_compute; reflexivity|lia|reflexivity|reflexivity|lia|vm_compute; reflexivity|].
  split; vm_compute; reflexivity.
Defined.

(** The same on the machine's floats. *)
Lemma vatOn_float64 : vatOn (T := float64) 20000000 810 = 1620000 ∧ vatOn (T := float64) 1234560000 810 = 100000000.
Proof. split; vm_compute; reflexivity. Qed.
End sample.
