(* ===== verification/PaymentRuns.v ===== *)
(** * What the payment programs may do

    Theorems about every run of the programs of Payments, whatever the
    database and PostFinance answer and wherever a replica dies: which rows a
    route reads and writes, what a payment is settled by, and how often a
    saved card is asked. *)
From S2P Require Import Prelude GoTime Num Tenancy Pricing Guardrails Text Filters Routers RouterCheck.
From S2P Require Import Replies Guard Routing Budgets Messages Hosting Providers Catalog Credit.
From S2P Require Import Control Principals Payments.
Open Scope go_scope.

(** ** What a run has seen *)

Section seen.
Context {T : Type}.
Implicit Types (e : event (R := answer T)) (h : list (event (R := answer T))).

(** The payments an answer of the database lists. *)
Definition rows_of e : list Payment :=
  match e with existT c x =>
    match c as c return answer T c → list Payment with
    | Db_Payment _ | Db_PaymentByTransaction _ => λ x, match x with inr p => [p] | inl _ => [] end
    | Db_ListPayments _ _ _ | Db_PendingPaymentsOf _ _ _ | Db_PendingPayments _ _ _ =>
        λ x, match x with inr l => l | inl _ => [] end
    | _ => λ _, []
    end x
  end.

(** The payment a call recorded. *)
Definition created_of e : list Payment :=
  match e with existT c x =>
    match c as c return answer T c → list Payment with
    | Db_CreatePayment p => λ x, match x with None => [p] | Some _ => [] end
    | _ => λ _, []
    end x
  end.

(** The payment a call tied to a transaction, and whether it was told that it did. *)
Definition tied_of e : list (string * Z * bool) :=
  match e with existT c x =>
    match c as c return answer T c → list (string * Z * bool) with
    | Db_SetTransaction id t => λ x, match x with None => [(id, t, true)] | Some _ => [(id, t, false)] end
    | _ => λ _, []
    end x
  end.

(** A transaction PostFinance answered with, and the one it was asked for. *)
Definition said_of e : list (Z * Transaction T) :=
  match e with existT c x =>
    match c as c return answer T c → list (Z * Transaction T) with
    | Pf_Get t | Pf_Charge t => λ x, match x with inr tx => [(t, tx)] | inl _ => [] end
    | _ => λ _, []
    end x
  end.

(** The id of a transaction PostFinance made. *)
Definition made_of e : list Z :=
  match e with existT c x =>
    match c as c return answer T c → list Z with
    | Pf_Create _ => λ x, match x with inr tx => [tx_ID tx] | inl _ => [] end
    | _ => λ _, []
    end x
  end.

(** The settlements a run asked for, and the charges, with their answers. *)
Definition settled_of e : list (string * Settlement) :=
  match e with existT c _ => match c with Db_Settle id how => [(id, how)] | _ => [] end end.

Definition charged_of e : list (pf_error + Transaction T) :=
  match e with existT c x =>
    match c as c return answer T c → list (pf_error + Transaction T) with
    | Pf_Charge _ => λ x, [x]
    | _ => λ _, []
    end x
  end.

Definition of_run {A} (f : event (R := answer T) → list A) h : list A := concat (map f h).

Definition creates (id : string) h : nat := length (filter (λ p, Pm_ID p = id) (of_run created_of h)).
Definition ties (id : string) h : nat := length (filter (λ x, x.1.1 = id) (of_run tied_of h)).

Lemma of_run_app {A} (f : event (R := answer T) → list A) h h' : of_run f (h ++ h') = of_run f h ++ of_run f h'.
Proof. unfold of_run. by rewrite map_app, concat_app. Qed.

Lemma of_run_one {A} (f : event (R := answer T) → list A) e : of_run f [e] = f e.
Proof. unfold of_run. cbn. by rewrite app_nil_r. Qed.

Lemma creates_app id h h' : creates id (h ++ h') = (creates id h + creates id h')%nat.
Proof. unfold creates. by rewrite of_run_app, filter_app, length_app. Qed.

Lemma ties_app id h h' : ties id (h ++ h') = (ties id h + ties id h')%nat.
Proof. unfold ties. by rewrite of_run_app, filter_app, length_app. Qed.

Lemma of_run_in {A} (f : event (R := answer T) → list A) h h' x : x ∈ of_run f h → x ∈ of_run f (h ++ h').
Proof. rewrite of_run_app. apply elem_of_app_l || (intros; apply elem_of_app; by left). Qed.

Lemma of_run_last {A} (f : event (R := answer T) → list A) h e x : x ∈ f e → x ∈ of_run f (h ++ [e]).
Proof. intros Hx. rewrite of_run_app, of_run_one. apply elem_of_app. by right. Qed.

(** A payment the run read, or made and tied to its transaction. *)
Definition known h (pm : Payment) : Prop :=
  pm ∈ of_run rows_of h ∨
  (∃ pm', pm' ∈ of_run created_of h ∧ pm = pm' <| TransactionID := TransactionID pm |> ∧
          (Pm_ID pm, TransactionID pm, true) ∈ of_run tied_of h).

(** PostFinance answered for the payment's transaction. *)
Definition told h (pm : Payment) (tx : Transaction T) : Prop :=
  known h pm ∧ (TransactionID pm ≠ 0 ∨ TransactionID pm ∈ of_run made_of h) ∧ (TransactionID pm, tx) ∈ of_run said_of h.

Lemma known_more h h' pm : known h pm → known (h ++ h') pm.
Proof.
  intros [Hr|(pm' & Hc & He & Ht)]; [left; by apply of_run_in|]. right. exists pm'.
  split_and!; [by apply of_run_in|done|by apply of_run_in].
Qed.

Lemma told_more h h' pm tx : told h pm tx → told (h ++ h') pm tx.
Proof.
  intros (Hk & Hn & Hs). split_and!; [by apply known_more| |by apply of_run_in].
  destruct Hn as [|Hn]; [by left|right; by apply of_run_in].
Qed.
End seen.

(** ** Every run *)

Section careful.
Context `{Num T} `{FloatText T}.
Implicit Types (h : list (event (R := answer T))).

(** A payment is settled as paid only for a transaction of its own that
    PostFinance reported as paid in full; and a payment is tied to a
    transaction at most once for each time the run recorded it. *)
Definition careful h (c : call) : Prop :=
  match c with
  | Db_Settle id how => Paid how = true →
      ∃ pm tx, Pm_ID pm = id ∧ told h pm tx ∧ tx_Paid tx = true ∧ paidInFull pm tx = true
  | Db_SetTransaction id t => (ties id h < creates id h)%nat ∧ t ∈ of_run made_of h
  | _ => True
  end.

Definition balanced h : Prop := ∀ id, (ties id h <= creates id h)%nat.

Definition fine {A} h (p : prog (answer T) A) : Prop := balanced h → always careful h p (λ h' _, balanced h').

Definition neutral (c : call) : Prop :=
  match c with
  | Db_Settle _ how => Paid how = false
  | Db_SetTransaction _ _ => False
  | _ => True
  end.

Lemma balanced_more h c x : (match c with Db_SetTransaction _ _ => False | _ => True end) → balanced h → balanced (h ++ [answered c x]).
Proof.
  intros Hc Hb id. rewrite ties_app, creates_app. specialize (Hb id).
  assert (ties id [answered c x] = 0%nat) as ->; [|lia]. destruct c; try done.
Qed.

Lemma neutral_careful h c : neutral c → careful h c.
Proof. destruct c; cbn; try done. intros E ?. congruence. Qed.

Lemma fine_ret {A} h (a : A) : fine h (Ret a).
Proof. intros Hb. exact Hb. Qed.

Lemma fine_enter {A} h (p : prog (answer T) A) : balanced h → fine h p → always careful h p (λ h' _, balanced h').
Proof. intros Hb Hp. by apply Hp. Qed.

Lemma fine_call {A} h c (f : answer T c → prog (answer T) A) : neutral c →
  (∀ x, fine (h ++ [answered c x]) (f x)) → fine h (ask c ≫= f).
Proof.
  intros Hn Hf Hb. split; [by apply neutral_careful|]. intros x. apply Hf, balanced_more; [by destruct c|done].
Qed.

Lemma fine_ask h c : neutral c → fine h (ask (R := answer T) c).
Proof. intros Hn Hb. split; [by apply neutral_careful|]. intros x. apply balanced_more; [by destruct c|done]. Qed.

Lemma fine_bind {A B} h (p : prog (answer T) A) (f : A → prog (answer T) B) : fine h p →
  (∀ l a, fine (h ++ l) (f a)) → fine h (p ≫= f).
Proof.
  intros Hp Hf Hb. apply always_bind. eapply always_mono; [|apply always_extends, Hp, Hb].
  cbn. intros h' a ((l & ->) & Hb'). by apply Hf.
Qed.

Lemma fine_each {A} (f : A → prog (answer T) unit) (xs : list A) :
  ∀ h, (∀ l x, x ∈ xs → fine (h ++ l) (f x)) → fine h (each f xs).
Proof.
  induction xs as [|x xs IH]; intros h Hf; cbn [each]; [apply fine_ret|].
  apply (fine_bind h (f x) (λ _, each f xs)).
  - rewrite <- (app_nil_r h). apply Hf. left.
  - intros l _. apply IH. intros l' y Hy. rewrite <- app_assoc. apply Hf. by right.
Qed.

Context (VATBP SpaceID : Z) (PublicURL : string).

Ltac fine_step :=
  first [ apply fine_ret
        | apply fine_call; [first [exact I | reflexivity]|intros ?]
        | apply fine_ask; first [exact I | reflexivity]
        | apply fine_bind; [|intros ? ?]
        | match goal with |- fine _ (match ?x with _ => _ end) => destruct x eqn:? end ].

Lemma fine_settleFailed h pm note retry : fine h (settleFailed (T := T) pm note retry).
Proof. unfold settleFailed, auditPayment, refreshCredit. repeat fine_step. Qed.

(** A settlement as paid follows a transaction that was paid in full. *)
Lemma fine_settlement {A} h pm tx (f : option Settlement → prog (answer T) A) :
  (∀ l s, (∀ how, s = Some how → Paid how = true → tx_Paid tx = true ∧ paidInFull pm tx = true) → fine (h ++ l) (f s)) →
  fine h (settlement_of pm tx ≫= f).
Proof.
  intros Hf. assert (∀ s, (∀ how, s = Some how → Paid how = true → tx_Paid tx = true ∧ paidInFull pm tx = true) →
    fine h (Ret s ≫= f)) as Hret.
  { intros s Hs. change (fine h (f s)). rewrite <- (app_nil_r h). by apply Hf. }
  unfold settlement_of. destruct (tx_Paid tx) eqn:Hp; cbn [andb].
  - destruct (paidInFull pm tx) eqn:Hfull; cbn [negb]; [|apply Hret; by intros ? [= <-]].
    destruct (SaveCard pm && (TokenID tx =? 0)); [by apply Hret|]. destruct (SaveCard pm); [|by apply Hret].
    intros Hb. split; [exact I|]. intros x. apply (Hf [_]); [done|]. by apply balanced_more.
  - destruct (tx_Failed tx); apply Hret; [by intros ? [= <-]|done].
Qed.

Lemma fine_settleWith h pm tx : told h pm tx → fine h (settleWith (T := T) pm tx).
Proof.
  intros Ht. unfold settleWith. apply fine_settlement. intros l [how|] Hhow; [|apply fine_ret].
  intros Hb. split.
  - intros Hpaid. destruct (Hhow how eq_refl Hpaid) as (? & ?). exists pm, tx. split_and!; try done. by apply told_more.
  - intros x. apply fine_enter; [by apply balanced_more|]. unfold deleteToken, refreshCredit, auditPayment.
    destruct x as [e|s]; [apply fine_ret|]. cbn [prog_mbind prog_bind mbind ask]. repeat fine_step.
Qed.

Lemma fine_settle h pm : pm ∈ of_run rows_of h → fine h (settle (T := T) pm).
Proof.
  intros Hpm. unfold settle. destruct (bool_decide _ || _) eqn:Hz; [apply fine_ret|].
  apply orb_false_iff in Hz as (_ & Hz). apply Z.eqb_neq in Hz.
  apply fine_call; [exact I|]. intros [e|tx]; [apply fine_ret|]. apply fine_bind; [|intros; apply fine_ret].
  apply fine_settleWith. split_and!; [apply known_more; by left|by left|]. apply of_run_last. cbn. by left.
Qed.

Lemma fine_settleRecent h org : fine h (settleRecent (T := T) org).
Proof.
  unfold settleRecent. apply fine_call; [exact I|]. intros now. apply fine_call; [exact I|]. intros [e|xs]; [apply fine_ret|].
  apply fine_each. intros l pm Hpm. destruct (negb _); [|apply fine_ret]. apply fine_bind; [|intros; apply fine_ret].
  apply fine_settle, of_run_in, of_run_last. exact Hpm.
Qed.

Lemma fine_settleOld h now pm : pm ∈ of_run rows_of h → fine h (settleOld (T := T) now pm).
Proof.
  intros Hpm. unfold settleOld. destruct (TransactionID pm =? 0) eqn:Hz.
  - destruct (unstarted <? _); [|apply fine_ret]. apply fine_bind; [apply fine_settleFailed|intros; apply fine_ret].
  - apply Z.eqb_neq in Hz. apply fine_call; [exact I|]. intros [e|tx]; [apply fine_ret|].
    destruct (_ && _); (apply fine_bind; [|intros; apply fine_ret]); [apply fine_settleFailed|apply fine_settleWith].
    split_and!; [apply known_more; by left|by left|]. apply of_run_last. cbn. by left.
Qed.

Lemma fine_settlePending h now : fine h (settlePending (T := T) now).
Proof.
  unfold settlePending. apply fine_call; [exact I|]. intros [e|xs]; [apply fine_ret|]. apply fine_each. intros l pm Hpm.
  apply fine_settleOld, of_run_in, of_run_last. exact Hpm.
Qed.

(** Tying a payment the run has just recorded. *)
Lemma fine_startTransaction {A} h pm t (k : Payment * (settle_error + Transaction T) → prog (answer T) A) :
  (ties (Pm_ID pm) h < creates (Pm_ID pm) h)%nat → pm ∈ of_run created_of h →
  (∀ l pm' r, Pm_ID pm' = Pm_ID pm → (∀ tx, r = inr tx → known (h ++ l) pm' ∧ TransactionID pm' = tx_ID tx ∧ tx_ID tx ∈ of_run made_of (h ++ l)) →
    fine (h ++ l) (k (pm', r))) →
  fine h (startTransaction pm t ≫= k).
Proof.
  intros Ht Hc Hk Hb. unfold startTransaction. split; [exact I|]. intros [e|tx].
  { refine (Hk [_] pm _ eq_refl _ _); [done|by apply balanced_more]. }
  set (h1 := h ++ [_]). assert (ties (Pm_ID pm) h1 < creates (Pm_ID pm) h1)%nat as Ht1.
  { unfold h1. rewrite ties_app, creates_app. cbn. lia. }
  assert (tx_ID tx ∈ of_run made_of h1) as Hm by (apply of_run_last; cbn; by left).
  assert (balanced h1) as Hb1 by (by apply balanced_more).
  split; [split; [exact Ht1|exact Hm]|]. intros x. unfold h1. rewrite <- app_assoc. apply fine_enter.
  - rewrite app_assoc. fold h1. intros id. rewrite ties_app, creates_app.
    assert (ties id [answered (R := answer T) (Db_SetTransaction (Pm_ID (pm <| TransactionID := tx_ID tx |>)) (tx_ID tx)) x] =
            if bool_decide (Pm_ID pm = id) then 1 else 0)%nat as ->.
    { unfold ties. rewrite of_run_one. by destruct x; cbn; case_bool_decide; rewrite ?decide_True, ?decide_False by done. }
    specialize (Hb1 id). case_bool_decide; [subst id; lia|lia].
  - apply (Hk _ (pm <| TransactionID := tx_ID tx |>)); [done|]. intros tx' Htx'. destruct x as [e|]; [done|]. injection Htx' as <-.
    rewrite app_assoc. fold h1. split_and!; [|done|by apply of_run_in]. right. exists pm.
    split_and!; [by apply of_run_in, of_run_in|done|]. apply of_run_last. cbn. by left.
Qed.

Lemma created_room h pm : balanced h → let h1 := h ++ [answered (R := answer T) (Db_CreatePayment pm) None] in
  (ties (Pm_ID pm) h1 < creates (Pm_ID pm) h1)%nat ∧ pm ∈ of_run created_of h1.
Proof.
  intros Hb h1. unfold h1. split; [|apply of_run_last; cbn; by left]. rewrite ties_app, creates_app.
  specialize (Hb (Pm_ID pm)). assert (creates (Pm_ID pm) [answered (R := answer T) (Db_CreatePayment pm) None] = 1%nat) as ->; [|cbn; lia].
  unfold creates. rewrite of_run_one. cbn. by rewrite decide_True.
Qed.

Lemma fine_chargeCard h pm token : fine h (chargeCard (T := T) VATBP pm token).
Proof.
  unfold chargeCard. intros Hb. split; [exact I|]. intros [e|]; [by apply balanced_more|].
  destruct (created_room h pm Hb) as (Ht & Hc). apply fine_enter; [by apply balanced_more|].
  apply fine_startTransaction; [done..|]. intros l pm' r Hid Hr. destruct r as [e|tx].
  { apply fine_bind; [apply fine_settleFailed|intros; apply fine_ret]. }
  destruct (Hr tx eq_refl) as (Hk & Htx & Hm). apply fine_call; [exact I|]. intros [[status code msg|what]|charged].
  - destruct (TurnedAway status); [|destruct (Refused status); [|apply fine_ret]];
      (apply fine_bind; [apply fine_settleFailed|intros; apply fine_ret]).
  - apply fine_ret.
  - apply fine_bind; [|intros; apply fine_ret]. apply fine_settleWith.
    split_and!; [by apply known_more|right; rewrite Htx; by apply of_run_in|]. apply of_run_last. cbn. rewrite Htx. by left.
Qed.

Lemma fine_payOnPage on_rid h p pm action : fine h (payOnPage (T := T) VATBP PublicURL on_rid p pm action).
Proof.
  unfold payOnPage. intros Hb. split; [exact I|]. intros [e|]; [destruct e; by apply balanced_more|].
  destruct (created_room h pm Hb) as (Ht & Hc). apply fine_enter; [by apply balanced_more|].
  apply fine_startTransaction; [done..|]. intros l pm' r Hid _. apply fine_bind.
  - destruct r as [e|tx]; repeat fine_step.
  - intros l' [url|]; unfold audit, shown_created, refuse; [repeat fine_step|].
    apply fine_bind; [apply fine_settleFailed|intros; apply fine_ret].
Qed.

Lemma fine_newPayment {A} h org kind micros actor (f : Payment → prog (answer T) A) :
  (∀ l pm, fine (h ++ l) (f pm)) → fine h (newPayment VATBP org kind micros actor ≫= f).
Proof. intros Hf. apply fine_bind; [|done]. unfold newPayment. repeat fine_step. Qed.

Lemma fine_tick h : fine h (RunPayments_tick (T := T) VATBP).
Proof.
  unfold RunPayments_tick. apply fine_call; [exact I|]. intros turn. destruct (negb turn); [apply fine_ret|].
  apply fine_bind.
  { unfold topUpDue. apply fine_call; [exact I|]. intros [e|xs]; [apply fine_ret|]. apply fine_each. intros l x _.
    unfold autoTopUp. apply fine_newPayment. intros. apply fine_chargeCard. }
  intros l _. apply fine_bind.
  { unfold chargesDue. apply fine_call; [exact I|]. intros [e|xs]; [apply fine_ret|]. apply fine_each. intros l' x _.
    unfold chargeSavedCard. apply fine_newPayment. intros. apply fine_chargeCard. }
  intros l' _. apply fine_call; [exact I|]. intros now. apply fine_settlePending.
Qed.

Lemma fine_webhook h body : fine h (postFinanceWebhook (T := T) SpaceID body).
Proof.
  unfold postFinanceWebhook. destruct body as [[[id entity] space]|]; [|apply fine_ret].
  destruct (_ || _); [apply fine_ret|]. apply fine_call; [exact I|]. intros [[]|pm]; try apply fine_ret.
  destruct (bool_decide _); [apply fine_ret|]. apply fine_bind; [|intros; apply fine_ret].
  apply fine_settle, of_run_last. cbn. by left.
Qed.

Context (on : bool) (rid : string).

Ltac fine_handler := unfold refuse, show, shown_created, failed, audit, refreshCredit, deleteToken; repeat fine_step.

Lemma fine_handlers h :
  (∀ p org, fine h (creditAccount (T := T) on rid p org)) ∧
  (∀ p org body, fine h (updateCreditAccount (T := T) on rid p org body)) ∧
  (∀ p org, fine h (forgetCard (T := T) on rid p org)) ∧
  (∀ p org body, fine h (createTopUp (T := T) VATBP PublicURL on rid p org body)) ∧
  (∀ p id, fine h (payCharge (T := T) VATBP PublicURL on rid p id)).
Proof.
  split_and!.
  - intros. unfold creditAccount. destruct (requireAdmin p); [fine_handler|]. destruct (queryOrg p org); [fine_handler|].
    destruct (negb on); [fine_handler|]. apply fine_bind; [apply fine_settleRecent|]. intros. fine_handler.
  - intros. unfold updateCreditAccount. fine_handler.
  - intros. unfold forgetCard. fine_handler.
  - intros. unfold createTopUp. destruct (negb on); [fine_handler|]. destruct (adminOrg p org); [fine_handler|].
    destruct body as [e|[micros save]]; [fine_handler|]. destruct (checkAmount micros); [fine_handler|].
    apply fine_newPayment. intros. apply fine_payOnPage.
  - intros. unfold payCharge. destruct (negb on); [fine_handler|]. destruct (requireAdmin p); [fine_handler|].
    apply fine_call; [exact I|]. intros [e|c]; [fine_handler|]. destruct (negb _); [fine_handler|].
    apply fine_call; [exact I|]. intros [e|a]; [fine_handler|]. apply fine_call; [exact I|]. intros now.
    destruct (_ && _ && _); [fine_handler|]. apply fine_newPayment. intros. apply fine_payOnPage.
Qed.

Lemma fine_other_handlers h :
  (∀ p org before limit, fine h (listPayments (T := T) rid p org before limit)) ∧
  (∀ p id, fine h (paymentReceipt (T := T) on rid p id)) ∧
  (∀ p body, fine h (grantCredit (T := T) on rid p body)) ∧
  (∀ p org, fine h (listCharges (T := T) on rid p org)) ∧
  (∀ p body, fine h (createCharge (T := T) on rid p body)) ∧
  (∀ p id, fine h (deleteCharge (T := T) on rid p id)).
Proof.
  split_and!; intros.
  - unfold listPayments. fine_handler.
  - unfold paymentReceipt. fine_handler.
  - unfold grantCredit. fine_handler.
  - unfold listCharges. fine_handler.
  - unfold createCharge. fine_handler.
  - unfold deleteCharge. fine_handler.
Qed.

Lemma program_careful e : always careful [] (program VATBP SpaceID PublicURL on rid e) (λ h' _, balanced h').
Proof.
  destruct (fine_handlers []) as (H1 & H2 & H3 & H4 & H5), (fine_other_handlers []) as (H6 & H7 & H8 & H9 & H10 & H11).
  apply fine_enter; [intros id; apply Nat.le_refl|].
  destruct e; cbn [program]; unfold forget_reply; try (apply fine_bind; [auto|intros; apply fine_ret]);
    destruct on; try apply fine_ret; [|apply fine_tick]. apply fine_bind; [apply fine_webhook|intros; apply fine_ret].
Qed.
End careful.

(** ** How a charge of a saved card ends *)

Section charge_ends.
Context `{Num T} `{FloatText T}.
Context (VATBP : Z).

Definition settled_once (id : string) (paid retry : bool) (settled : list (string * Settlement)) : Prop :=
  ∃ how, settled = [(id, how)] ∧ Paid how = paid ∧ Retry how = retry.

(** What PostFinance's answer to a charge makes of its payment. *)
Definition charge_outcome (pm : Payment) (charged : list (pf_error + Transaction T)) (settled : list (string * Settlement)) : Prop :=
  match charged with
  | [] => settled = [] ∨ settled_once (Pm_ID pm) false true settled
  | [inl (Answered status _ _)] =>
      if TurnedAway status then settled_once (Pm_ID pm) false true settled
      else if Refused status then settled_once (Pm_ID pm) false false settled
      else settled = []
  | [inl (Unanswered _)] => settled = []
  | [inr tx] =>
      if tx_Paid tx then settled_once (Pm_ID pm) (paidInFull pm tx) false settled
      else if tx_Failed tx then settled_once (Pm_ID pm) false false settled
      else settled = []
  | _ => False
  end.

Definition outcome_of (pm : Payment) (h : list (event (R := answer T))) : Prop :=
  charge_outcome pm (of_run charged_of h) (of_run settled_of h).

(** Calls that neither charge nor settle leave the outcome as it is. *)
Definition quiet (c : call) : Prop := match c with Db_Settle _ _ | Pf_Charge _ => False | _ => True end.

Lemma quiet_runs h (c : call) x : quiet c →
  of_run charged_of (h ++ [answered (R := answer T) c x]) = of_run charged_of h ∧
  of_run settled_of (h ++ [answered (R := answer T) c x]) = of_run settled_of h.
Proof. intros Hq. rewrite !of_run_app, !of_run_one. destruct c; try done; cbn; by rewrite !app_nil_r. Qed.

Definition stays {A} h (p : prog (answer T) A) : Prop :=
  always (λ _ _, True) h p (λ h' _, of_run charged_of h' = of_run charged_of h ∧ of_run settled_of h' = of_run settled_of h).

Lemma stays_ret {A} h (a : A) : stays h (Ret a).
Proof. by split. Qed.

Lemma stays_trans {A} h h' (p : prog (answer T) A) :
  of_run charged_of h' = of_run charged_of h → of_run settled_of h' = of_run settled_of h → stays h' p →
  always (λ _ _, True) h' p (λ h' _, of_run charged_of h' = of_run charged_of h ∧ of_run settled_of h' = of_run settled_of h).
Proof. intros E1 E2 Hk. eapply always_mono; [|exact Hk]. cbn. intros ? _ (-> & ->). done. Qed.

Lemma stays_call {A} h c (f : answer T c → prog (answer T) A) : quiet c →
  (∀ x, stays (h ++ [answered c x]) (f x)) → stays h (ask c ≫= f).
Proof. intros Hq Hf. split; [done|]. intros x. destruct (quiet_runs h c x Hq). by apply stays_trans. Qed.

Lemma stays_ask h c : quiet c → stays h (ask (R := answer T) c).
Proof. intros Hq. split; [done|]. intros x. by apply quiet_runs. Qed.

Lemma stays_bind {A B} h (p : prog (answer T) A) (f : A → prog (answer T) B) : stays h p →
  (∀ h' a, stays h' (f a)) → stays h (p ≫= f).
Proof.
  intros Hp Hf. apply always_bind. eapply always_mono; [|exact Hp]. cbn. intros h' a (E1 & E2). by apply stays_trans.
Qed.

Ltac stays_step :=
  first [ apply stays_ret
        | apply stays_call; [exact I|intros ?]
        | apply stays_ask; exact I
        | apply stays_bind; [|intros ? ?]
        | match goal with |- stays _ (match ?x with _ => _ end) => destruct x end ].

(** One settlement, and nothing else that matters. *)
Lemma settles {A} h id how (k : db_error + Settled → prog (answer T) A) : of_run settled_of h = [] → (∀ h' x, stays h' (k x)) →
  always (λ _ _, True) h (ask (Db_Settle id how) ≫= k)
    (λ h' _, of_run charged_of h' = of_run charged_of h ∧ of_run settled_of h' = [(id, how)]).
Proof.
  intros Hs Hk. split; [done|]. intros x. eapply always_mono; [|apply Hk]. cbn. intros h' _ (-> & ->).
  rewrite !of_run_app, !of_run_one, Hs. cbn. by rewrite app_nil_r.
Qed.

Lemma settleFailed_ends h pm note retry : of_run settled_of h = [] →
  always (λ _ _, True) h (settleFailed (T := T) pm note retry)
    (λ h' _, of_run charged_of h' = of_run charged_of h ∧ settled_once (Pm_ID pm) false retry (of_run settled_of h')).
Proof.
  intros Hs. eapply always_mono; [|apply settles; [exact Hs|]].
  - cbn. intros h' _ (-> & ->). split; [done|]. by eexists.
  - intros h' x. unfold auditPayment, refreshCredit. repeat stays_step.
Qed.

Lemma settleWith_ends h pm tx : of_run settled_of h = [] →
  always (λ _ _, True) h (settleWith (T := T) pm tx)
    (λ h' _, of_run charged_of h' = of_run charged_of h ∧ charge_outcome pm [inr tx] (of_run settled_of h')).
Proof.
  intros Hs. unfold settleWith. apply always_bind.
  eapply (always_mono _ _ _ (λ h' how, of_run charged_of h' = of_run charged_of h ∧ of_run settled_of h' = [] ∧
    match how with
    | None => tx_Paid tx = false ∧ tx_Failed tx = false
    | Some how => Retry how = false ∧ if tx_Paid tx then Paid how = paidInFull pm tx else tx_Failed tx = true ∧ Paid how = false
    end)).
  - intros h' [how|] (Hch & Hse & Hhow).
    + destruct Hhow as (Hr & Hp). eapply always_mono; [|apply settles; [exact Hse|]].
      * cbn. intros h2 _ (-> & ->). split; [done|]. destruct (tx_Paid tx); [by exists how|]. destruct Hp as (-> & Hp). by exists how.
      * intros h2 x. unfold deleteToken, refreshCredit, auditPayment. repeat stays_step.
    + destruct Hhow as (Hp & Hf). cbn. rewrite Hp, Hf. done.
  - unfold settlement_of. destruct (tx_Paid tx) eqn:Hp; cbn [andb].
    + destruct (paidInFull pm tx) eqn:Hf; cbn [negb]; [|by split_and!].
      destruct (SaveCard pm && _); [by split_and!|]. destruct (SaveCard pm); [|by split_and!].
      split; [done|]. intros x. cbn. destruct (quiet_runs h (Pf_Card (TokenID tx)) x I) as (-> & ->). by split_and!.
    + destruct (tx_Failed tx) eqn:Hf; by split_and!.
Qed.

Lemma startTransaction_keeps h pm t : always (λ _ _, True) h (startTransaction (T := T) pm t)
  (λ h' r, (of_run charged_of h' = of_run charged_of h ∧ of_run settled_of h' = of_run settled_of h) ∧
           ∃ t', r.1 = pm <| TransactionID := t' |>).
Proof.
  unfold startTransaction. split; [done|]. intros x. destruct (quiet_runs h (Pf_Create t) x I) as (Hc & Hs). destruct x as [e|tx].
  - cbn. rewrite Hc, Hs. split; [done|]. exists (TransactionID pm). by destruct pm.
  - set (h1 := h ++ _) in *. split; [done|]. intros x. set (c := Db_SetTransaction _ _) in *.
    destruct (quiet_runs h1 c x I) as (Hc1 & Hs1). split; [by rewrite Hc1, Hs1|]. by eexists.
Qed.

Lemma outcome_with pm t h : outcome_of (pm <| TransactionID := t |>) h → outcome_of pm h.
Proof. done. Qed.

(** C29: what happens to a charge of a saved card: it asks PostFinance to charge at most once, and only for a payment the database recorded; and by the answer, a charge that never started or that PostFinance turned away is settled as failed and may be tried again, one it refused is settled as failed and stops the next, one that was answered settles as its transaction says (paid only if in full), and one without an answer is not settled at all, since it may have gone through. *)
Theorem chargeCard_ends pm token tr : steps (chargeCard VATBP pm token) tr (Ret tt) → outcome_of pm tr.
Proof.
  apply (always_result (λ _ _, True) (chargeCard VATBP pm token) tr (λ h' _, outcome_of pm h') []).
  unfold chargeCard. split; [done|]. intros [e|]; [by left|]. set (h := [] ++ _).
  assert (of_run charged_of h = [] ∧ of_run settled_of h = []) as (Hc & Hs) by done. clearbody h.
  apply always_bind. eapply always_mono; [|apply startTransaction_keeps]. intros h1 [pm1 r] ((Hc1 & Hs1) & t & Hpm1).
  cbn in Hpm1. subst pm1. rewrite Hc in Hc1. rewrite Hs in Hs1. destruct r as [e|tx].
  { apply always_bind. eapply always_mono; [|by apply settleFailed_ends]. cbn. intros h' _ (Hc2 & Hs2).
    unfold outcome_of. rewrite Hc2, Hc1. by right. }
  apply always_ask; [done|]. intros x. set (h2 := h1 ++ [answered (Pf_Charge (tx_ID tx)) x]).
  assert (of_run charged_of h2 = [x] ∧ of_run settled_of h2 = []) as (Hc2 & Hs2).
  { unfold h2. by rewrite !of_run_app, !of_run_one, Hc1, Hs1. }
  clearbody h2. cbv beta. destruct x as [[status code msg|what]|charged].
  - destruct (TurnedAway status) eqn:Ht; [|destruct (Refused status) eqn:Hr].
    + apply always_bind. eapply always_mono; [|by apply settleFailed_ends]. cbn. intros h' _ (Hc3 & Hs3).
      unfold outcome_of. rewrite Hc3, Hc2. cbn. by rewrite Ht.
    + apply always_bind. eapply always_mono; [|by apply settleFailed_ends]. cbn. intros h' _ (Hc3 & Hs3).
      unfold outcome_of. rewrite Hc3, Hc2. cbn. by rewrite Ht, Hr.
    + unfold outcome_of. cbn. rewrite Hc2, Hs2. cbn. by rewrite Ht, Hr.
  - unfold outcome_of. cbn. by rewrite Hc2, Hs2.
  - apply always_bind. eapply always_mono; [|by apply settleWith_ends]. cbn. intros h' _ (Hc3 & Hs3).
    unfold outcome_of. rewrite Hc3, Hc2. exact Hs3.
Qed.
End charge_ends.

(** ** What a route may ask for *)

Section routes.
Context `{Num T} `{FloatText T}.
Context (VATBP SpaceID : Z) (PublicURL : string) (on : bool) (rid : string).
Implicit Types (h : list (event (R := answer T))) (p : Principal).

(** The recurring charges an answer of the database shows. *)
Definition charges_of (e : event (R := answer T)) : list RecurringCharge :=
  match e with existT c x =>
    match c as c return answer T c → list RecurringCharge with
    | Db_Charge _ => λ x, match x with inr c => [c] | inl _ => [] end
    | _ => λ _, []
    end x
  end.

(** The settings of an automatic top-up that make sense: off, or one top-up lifts the balance over the threshold. *)
Definition sensible (below amount : option Z) : Prop :=
  (below = None ∧ amount = None) ∨
  (∃ b a, below = Some b ∧ amount = Some a ∧
     ((b = 0 ∧ a = 0) ∨ (0 < b <= a ∧ minTopUp <= a <= maxTopUp ∧ whole_centimes a))).

(** A payment the page takes: a top-up of an accepted amount, or the first
    unpaid period of a recurring charge the route read; with the fee and the
    VAT it costs. *)
Definition page_payment h (pm : Payment) : Prop :=
  FeeMicros pm = feeOn (AmountMicros pm) ∧ VATMicros pm = vatOn (AmountMicros pm) VATBP ∧ TransactionID pm = 0 ∧
  ((Pm_Kind pm = PaymentTopUp ∧ minTopUp <= AmountMicros pm <= maxTopUp ∧ whole_centimes (AmountMicros pm)) ∨
   (Pm_Kind pm = PaymentCharge ∧ SaveCard pm = true ∧ ∃ c, c ∈ of_run charges_of h ∧ ChargeID pm = rc_ID c ∧
      Pm_OrgID pm = ch_org (rc_row c) ∧ AmountMicros pm = ch_micros (rc_row c) ∧ PeriodStart pm = Some (DueAt c))).

(** The pending payments of an organisation that an answer lists, the payments
    the database settled, and the cards it let go of: one that was forgotten,
    or replaced by the one a payment saved. *)
Definition pending_of (e : event (R := answer T)) : list Payment :=
  match e with existT c x =>
    match c as c return answer T c → list Payment with
    | Db_PendingPaymentsOf _ _ _ => λ x, match x with inr l => l | inl _ => [] end
    | _ => λ _, []
    end x
  end.

Definition ended_of (e : event (R := answer T)) : list Settled :=
  match e with existT c x =>
    match c as c return answer T c → list Settled with
    | Db_Settle _ _ => λ x, match x with inr s => [s] | inl _ => [] end
    | _ => λ _, []
    end x
  end.

Definition let_go_of (e : event (R := answer T)) : list Z :=
  match e with existT c x =>
    match c as c return answer T c → list Z with
    | Db_Settle _ _ => λ x, match x with inr s => [OldToken s] | inl _ => [] end
    | Db_ForgetCard _ => λ x, match x with inr t => [t] | inl _ => [] end
    | _ => λ _, []
    end x
  end.

(** The payment of an id that the run recorded itself. *)
Definition own_payment h (id : string) : Prop := ∃ pm, pm ∈ of_run created_of h ∧ Pm_ID pm = id.

(** What a route may ask for on behalf of its caller: every call it can make,
    with the organisation, payment, charge, transaction or card it is about. *)
Definition within (e : entry) p h (c : call) : Prop :=
  match c with
  | Db_CreatePayment pm => CanAdminOrg p (Pm_OrgID pm) = true ∧ page_payment h pm
  | Db_SetTransaction id t => own_payment h id ∧ t ∈ of_run made_of h
  | Db_Settle id how => (∃ pm, pm ∈ of_run pending_of h ∧ Pm_ID pm = id) ∨ (own_payment h id ∧ Paid how = false)
  | Db_UpdateCredit org below amount inv =>
      CanAdminOrg p org = true ∧ (inv = None ∨ Unrestricted p = true) ∧ sensible below amount
  | Db_ForgetCard org => CanAdminOrg p org = true ∧ answered (R := answer T) (Db_ListCharges org) (inr []) ∈ h
  | Db_Grant pm => Unrestricted p = true ∧ Pm_OrgID pm ≠ "" ∧ Note pm ≠ "" ∧ 0 < Z.abs (AmountMicros pm) <= maxTopUp
  | Db_CreateCharge _ c => Unrestricted p = true ∧ charge_allowed c = true ∧
      minTopUp <= ch_micros c <= maxCharge ∧ whole_centimes (ch_micros c) ∧ ValidReleaseDate (starts_on c) = true
  | Db_DeleteCharge id => Unrestricted p = true ∧ e = Delete_charge p id
  | Db_Charge id => e = Pay_charge p id
  | Db_Payment id => e = Get_receipt p id
  | Db_CreditAccount org | Db_ListPayments org _ _ | Db_ListCharges org | Db_PendingPaymentsOf org _ _ | Db_OrgName org =>
      CanAdminOrg p org = true
  | Db_Audit actor org _ _ _ =>
      (actor = Actor p ∧ CanAdminOrg p org = true) ∨
      (actor = "payments" ∧ ∃ s, s ∈ of_run ended_of h ∧ org = Pm_OrgID (s_Payment s))
  | Announce org => ∃ s, s ∈ of_run ended_of h ∧ org = Pm_OrgID (s_Payment s)
  | Pf_Create t => ∃ pm, pm ∈ of_run created_of h ∧ MerchantReference t = Pm_ID pm ∧ CustomerID t = Pm_OrgID pm ∧ nt_Token t = 0
  | Pf_PaymentPageURL t => t ∈ of_run made_of h
  | Pf_Get t => ∃ pm, pm ∈ of_run pending_of h ∧ TransactionID pm = t ∧ t ≠ 0
  | Pf_Card t => ∃ tx, tx ∈ (of_run said_of h).*2 ∧ TokenID tx = t
  | Pf_DeleteToken t => t ∈ of_run let_go_of h ∧ t ≠ 0
  | Pf_InvoiceDocument t => ∃ pm, pm ∈ of_run rows_of h ∧ CanAdminOrg p (Pm_OrgID pm) = true ∧ TransactionID pm = t ∧
      State pm = PaymentPaid ∧ Pm_Kind pm ≠ PaymentGrant
  | Pf_Charge _ | Db_PaymentByTransaction _ | Db_PendingPayments _ _ _ | Db_DueTopUps _ | Db_DueCharges _ | Db_TakeTurn _ _ => False
  | Reg_RefreshCredit | Time_Now | New_ID _ => True
  end.

Definition inside {A} e p h (q : prog (answer T) A) : Prop := always (within e p) h q (λ _ _, True).

Lemma inside_ret {A} e p h (a : A) : inside e p h (Ret a).
Proof. exact I. Qed.

Lemma inside_call {A} e p h c (f : answer T c → prog (answer T) A) : within e p h c →
  (∀ x, inside e p (h ++ [answered c x]) (f x)) → inside e p h (ask c ≫= f).
Proof. by apply always_ask. Qed.

Lemma inside_ask e p h c : within e p h c → inside e p h (ask (R := answer T) c).
Proof. by split. Qed.

Lemma inside_bind {A B} e p h (q : prog (answer T) A) (f : A → prog (answer T) B) : inside e p h q →
  (∀ l a, inside e p (h ++ l) (f a)) → inside e p h (q ≫= f).
Proof.
  intros Hq Hf. apply always_bind. eapply always_mono; [|apply always_extends, Hq]. cbn. intros h' a ((l & ->) & _). apply Hf.
Qed.

Lemma inside_each {A} e p (f : A → prog (answer T) unit) (xs : list A) :
  ∀ h, (∀ l x, x ∈ xs → inside e p (h ++ l) (f x)) → inside e p h (each f xs).
Proof.
  induction xs as [|x xs IH]; intros h Hf; cbn [each]; [apply inside_ret|]. apply (inside_bind _ _ h (f x) (λ _, each f xs)).
  - rewrite <- (app_nil_r h). apply Hf. left.
  - intros l _. apply IH. intros l' y Hy. rewrite <- app_assoc. apply Hf. by right.
Qed.

(** What the run saw stays seen, and the last answer is seen. *)
Ltac seen := solve [ done | repeat first [ eassumption | apply of_run_last; by left | apply of_run_in ] ].

Ltac inside_step :=
  first [ apply inside_ret
        | apply inside_call; [first [exact I | eassumption | left; split; [reflexivity|eassumption]]|intros ?]
        | apply inside_ask; first [exact I | left; split; [reflexivity|eassumption]]
        | apply inside_bind; [|intros ? ?]
        | match goal with |- inside _ _ _ (match ?x with _ => _ end) => destruct x eqn:? end ].

Ltac inside_route := intros; unfold refuse, show, shown_created, failed, audit, refreshCredit; repeat inside_step.

Lemma inside_auditPayment e p h s : s ∈ of_run ended_of h → inside e p h (auditPayment (T := T) (s_Payment s)).
Proof. intros Hs. apply inside_ask. right. split; [done|]. by exists s. Qed.

Lemma inside_deleteToken e p h t : t ∈ of_run let_go_of h →
  inside e p h (if negb (t =? 0) then deleteToken t else Ret (R := answer T) tt).
Proof. intros Ht. destruct (t =? 0) eqn:E; [done|]. apply inside_call; [split; [done|lia]|done]. Qed.

Lemma inside_settleFailed e p h pm note retry : own_payment h (Pm_ID pm) → inside e p h (settleFailed (T := T) pm note retry).
Proof.
  intros Hpm. unfold settleFailed. apply inside_call; [by right|]. intros [x|s]; [inside_route|].
  destruct (Ended s); [|inside_route]. apply inside_bind; [apply inside_auditPayment; seen|]. inside_route.
Qed.

Lemma inside_settlement e p h pm tx : tx ∈ (of_run said_of h).*2 → inside e p h (settlement_of (T := T) pm tx).
Proof.
  intros Htx. unfold settlement_of. destruct (_ && _); [inside_route|]. destruct (tx_Paid tx); [|inside_route].
  destruct (_ && _); [inside_route|]. destruct (SaveCard pm); [|inside_route]. apply inside_call; [by exists tx|]. inside_route.
Qed.

Lemma inside_settleWith e p h pm tx : pm ∈ of_run pending_of h → tx ∈ (of_run said_of h).*2 →
  inside e p h (settleWith (T := T) pm tx).
Proof.
  intros Hpm Htx. unfold settleWith. apply inside_bind; [by apply inside_settlement|]. intros l [how|]; [|inside_route].
  apply inside_call; [left; exists pm; split; [seen|done]|]. intros [x|s]; [inside_route|].
  destruct (negb (Ended s)); [inside_route|]. apply inside_bind; [apply inside_deleteToken; seen|]. intros l1 _.
  apply inside_call; [exact I|]. intros ?. apply inside_bind.
  { destruct (Lifted s); [|inside_route]. apply inside_ask. exists s. split; [seen|done]. }
  intros l2 _. apply inside_bind; [apply inside_auditPayment; seen|]. inside_route.
Qed.

Lemma inside_settle e p h pm : pm ∈ of_run pending_of h → inside e p h (settle (T := T) pm).
Proof.
  intros Hpm. unfold settle. destruct (bool_decide _ || _) eqn:Hz; [inside_route|].
  apply orb_false_iff in Hz as (_ & Hz). apply Z.eqb_neq in Hz.
  apply inside_call; [by exists pm|]. intros [x|tx]; [inside_route|]. apply inside_bind; [|inside_route].
  apply inside_settleWith; [seen|]. apply list_elem_of_fmap. exists (TransactionID pm, tx). split; [done|]. seen.
Qed.

Lemma inside_settleRecent e p h org : CanAdminOrg p org = true → inside e p h (settleRecent (T := T) org).
Proof.
  intros Ha. unfold settleRecent. apply inside_call; [exact I|]. intros now. apply inside_call; [exact Ha|].
  intros [x|xs]; [inside_route|]. apply inside_each. intros l pm Hpm. destruct (negb _); [|inside_route].
  apply inside_bind; [|inside_route]. apply inside_settle, of_run_in, of_run_last. exact Hpm.
Qed.

(** A payment the run recorded, and the transaction made for it. *)
Lemma inside_startTransaction {A} e p h pm t (f : Payment * (settle_error + Transaction T) → prog (answer T) A) :
  within e p h (Pf_Create t) → own_payment h (Pm_ID pm) →
  (∀ l pm' r, Pm_ID pm' = Pm_ID pm → Pm_OrgID pm' = Pm_OrgID pm →
     (∀ tx, r = inr tx → tx_ID tx ∈ of_run made_of (h ++ l)) → inside e p (h ++ l) (f (pm', r))) →
  inside e p h (startTransaction pm t ≫= f).
Proof.
  intros Ht (pm0 & Hpm & Hid) Hf. split; [done|]. intros [x|tx].
  - by apply (Hf _ pm (inl (Pf x))).
  - split.
    + split; [exists pm0; split; [seen|done]|seen].
    + intros x. rewrite <- app_assoc. refine (Hf _ (pm <| TransactionID := tx_ID tx |>) (match x with Some y => inl (Db y) | None => inr tx end) _ _ _);
        [done|done|]. rewrite app_assoc. intros tx' E. destruct x; simplify_eq. seen.
Qed.

Lemma inside_payOnPage e p h pm action : within e p h (Db_CreatePayment pm) →
  inside e p h (payOnPage (T := T) VATBP PublicURL rid p pm action).
Proof.
  intros (Ha & Hpage). unfold payOnPage. apply inside_call; [done|]. intros [x|]; [destruct x; inside_route|]. set (h1 := h ++ _).
  assert (pm ∈ of_run created_of h1) as Hpm by (unfold h1; seen). clearbody h1. assert (own_payment h1 (Pm_ID pm)) as Hown by by exists pm.
  apply inside_startTransaction; [by exists pm|done|]. intros l pm' r Eid Eorg Hr.
  assert (own_payment (h1 ++ l) (Pm_ID pm')) as Hown1 by (exists pm; split; [seen|by rewrite Eid]).
  apply (inside_bind e p (h1 ++ l)); [destruct r as [x|tx]; [inside_route|]; apply inside_call; [exact (Hr tx eq_refl)|inside_route]|].
  intros l' [url|].
  - apply inside_call; [left; split; [done|by rewrite Eorg]|]. inside_route.
  - apply inside_bind; [|inside_route]. apply inside_settleFailed. destruct Hown1 as (pm1 & ? & ?). exists pm1. split; [seen|done].
Qed.

Lemma checkTopUp_sensible below amount : checkTopUp (T := T) below amount = None → sensible (Some below) (Some amount).
Proof.
  unfold checkTopUp. intros Hc. right. exists below, amount. split_and!; [done..|].
  destruct ((below =? 0) && (amount =? 0)) eqn:E0; [left; lia|]. right.
  destruct ((below <=? 0) || (maxTopUp <? below)) eqn:E1; [done|]. destruct (checkAmount amount) eqn:E2; [done|].
  apply checkAmount_None in E2 as (? & ?). destruct (amount <? below) eqn:E3; [done|]. split_and!; try done; lia.
Qed.

Lemma CanAdminOrg_own p org : CanAdminOrg p org = true → own_or_any p org.
Proof. intros [?|(_ & _ & ?)]%CanAdminOrg_spec; [by left|by right]. Qed.

Lemma scopeOrg_own_or_any p requested org : scopeOrg p requested = inr org → own_or_any p org.
Proof. intros Hs. destruct (scopeOrg_own _ _ _ Hs) as [(? & _)|(_ & ? & _)]; [by left|by right]. Qed.

(** An administrator's own organisation, or any of an unrestricted one. *)
Lemma admin_own p org : requireAdmin p = None → own_or_any p org → CanAdminOrg p org = true.
Proof.
  unfold requireAdmin, requireOrgAdmin. destruct (CanAdminOrg p (P_OrgID p)) eqn:Ha; [intros _|done].
  intros [Hu| ->]; [|exact Ha]. apply CanAdminOrg_spec. by left.
Qed.

Lemma Unrestricted_admin p org : Unrestricted p = true → CanAdminOrg p org = true.
Proof. intros Hu. apply CanAdminOrg_spec. by left. Qed.

Lemma inside_account e p h org : inside e p h (creditAccount (T := T) on rid p org).
Proof.
  unfold creditAccount. destruct (requireAdmin p) eqn:Hr; [inside_route|]. destruct (queryOrg p org) as [x|o] eqn:Ho; [inside_route|].
  destruct (requireOrg_own _ _ _ _ Ho) as (_ & Hown & _). destruct (negb on); [inside_route|].
  pose proof (admin_own _ _ Hr Hown) as Ha. apply inside_bind; [by apply inside_settleRecent|]. inside_route.
Qed.

Lemma inside_update e p h org body : inside e p h (updateCreditAccount (T := T) on rid p org body).
Proof.
  unfold updateCreditAccount. destruct (negb on); [inside_route|]. destruct (adminOrg p org) as [x|o] eqn:Ho; [inside_route|].
  destruct (adminOrg_own _ _ _ Ho) as (_ & Ha & _). destruct body as [x|[[below amount] inv]]; [inside_route|].
  destruct (bool_decide (is_Some inv) && negb (Unrestricted p)) eqn:Hinv; [inside_route|].
  apply inside_call; [exact Ha|]. intros [x|name]; [inside_route|].
  assert (inv = None ∨ Unrestricted p = true) as Hi.
  { destruct inv; [|by left]. right. rewrite bool_decide_eq_true_2 in Hinv by eauto. by destruct (Unrestricted p). }
  set (wrong := match below with Some _ => _ | None => _ end). destruct wrong eqn:Hw; [inside_route|].
  assert (sensible below amount) as Hs.
  { unfold wrong in Hw. destruct below as [b|], amount as [a|]; try done; [by apply checkTopUp_sensible|by left]. }
  apply inside_call; [by split_and!|]. inside_route.
Qed.

Lemma inside_forget e p h org : inside e p h (forgetCard (T := T) on rid p org).
Proof.
  unfold forgetCard. destruct (negb on); [inside_route|]. destruct (adminOrg p org) as [x|o] eqn:Ho; [inside_route|].
  destruct (adminOrg_own _ _ _ Ho) as (_ & Ha & _). apply inside_call; [done|].
  intros [x|[|c cs]]; [inside_route| |inside_route]. apply inside_call.
  - split; [done|]. apply elem_of_app. right. by left.
  - intros [x|t]; [inside_route|]. apply inside_bind; [apply inside_deleteToken; seen|]. inside_route.
Qed.

(** A new payment costs what it should. *)
Lemma inside_newPayment {A} e p h org kind micros actor (f : Payment → prog (answer T) A) :
  (∀ l pm, Pm_OrgID pm = org → Pm_Kind pm = kind → AmountMicros pm = micros → TransactionID pm = 0 →
     FeeMicros pm = feeOn micros → VATMicros pm = vatOn micros VATBP → inside e p (h ++ l) (f pm)) →
  inside e p h (newPayment VATBP org kind micros actor ≫= f).
Proof. intros Hf. split; [exact I|]. intros id. by apply Hf. Qed.

Lemma inside_topup e p h org body : inside e p h (createTopUp (T := T) VATBP PublicURL on rid p org body).
Proof.
  unfold createTopUp. destruct (negb on); [inside_route|]. destruct (adminOrg p org) as [x|o] eqn:Ho; [inside_route|].
  destruct (adminOrg_own _ _ _ Ho) as (_ & Ha & _). destruct body as [x|[micros save]]; [inside_route|].
  destruct (checkAmount micros) eqn:Hm; [inside_route|]. apply checkAmount_None in Hm as (? & ?).
  apply inside_newPayment. intros l pm Eo Ek Em Et Ef Ev. apply inside_payOnPage. split; [cbn; by rewrite Eo|].
  unfold page_payment. cbn. rewrite Ek, Em, Et, Ef, Ev. split_and!; try done. by left.
Qed.

Lemma inside_paycharge p h id : inside (Pay_charge p id) p h (payCharge (T := T) VATBP PublicURL on rid p id).
Proof.
  unfold payCharge. destruct (negb on); [inside_route|]. destruct (requireAdmin p); [inside_route|].
  apply inside_call; [done|]. intros [x|c]; [inside_route|]. destruct (CanAdminOrg p (ch_org (rc_row c))) eqn:Ha; cbn [negb]; [|inside_route].
  apply inside_call; [done|]. intros [x|a]; [inside_route|]. apply inside_call; [exact I|]. intros now.
  destruct (_ && _ && _); [inside_route|]. apply inside_newPayment. intros l pm Eo Ek Em Et Ef Ev. apply inside_payOnPage.
  split; [cbn; by rewrite Eo|]. unfold page_payment. cbn. rewrite Eo, Ek, Em, Et, Ef, Ev. split_and!; try done. right. split_and!; try done. exists c. split_and!; try done.
  do 3 apply of_run_in. apply of_run_last. by left.
Qed.

Lemma inside_lists e p h org before limit :
  inside e p h (listPayments (T := T) rid p org before limit) ∧ inside e p h (listCharges (T := T) on rid p org).
Proof.
  split; [unfold listPayments|unfold listCharges; destruct (negb on); [inside_route|]]; (destruct (requireAdmin p) eqn:Hr; [inside_route|]);
    (destruct (scopeOrg p org) as [x|o] eqn:Ho; [inside_route|]).
  - destruct limit; [inside_route|]. apply inside_call; [by eapply admin_own, scopeOrg_own_or_any|]. inside_route.
  - apply inside_call; [by eapply admin_own, scopeOrg_own_or_any|]. inside_route.
Qed.

Lemma inside_receipt p h id : inside (Get_receipt p id) p h (paymentReceipt (T := T) on rid p id).
Proof.
  unfold paymentReceipt. destruct (negb on); [inside_route|]. destruct (requireAdmin p); [inside_route|].
  apply inside_call; [done|]. intros [x|pm]; [inside_route|]. destruct (CanAdminOrg p (Pm_OrgID pm)) eqn:Ha; cbn [negb]; [|inside_route].
  case_bool_decide as Hk; [inside_route|]. case_bool_decide as Hs; cbn [negb orb]; [|inside_route].
  destruct (TransactionID pm =? 0); [inside_route|]. apply inside_call; [|inside_route].
  exists pm. split_and!; try done. apply of_run_last. by left.
Qed.

Lemma inside_grant e p h body : inside e p h (grantCredit (T := T) on rid p body).
Proof.
  unfold grantCredit. destruct (negb on); [inside_route|]. destruct (Unrestricted p) eqn:Hu; cbn [negb]; [|inside_route].
  destruct body as [x|[[org micros] note]]; [inside_route|]. destruct (checkGrant org micros (TrimSpace note)) eqn:Hg; [inside_route|].
  pose proof (Unrestricted_admin p org Hu) as Ha.
  apply inside_call; [exact Ha|]. intros [x|name]; [inside_route|]. apply inside_call; [exact I|]. intros id.
  apply inside_call; [|inside_route]. cbn. unfold checkGrant in Hg. case_bool_decide; [done|].
  destruct ((micros =? 0) || _ || _) eqn:Hm; [done|]. case_bool_decide; [done|]. split_and!; try done; lia.
Qed.

Lemma inside_newcharge e p h body : inside e p h (createCharge (T := T) on rid p body).
Proof.
  unfold createCharge. destruct (negb on); [inside_route|]. destruct (Unrestricted p) eqn:Hu; cbn [negb]; [|inside_route].
  destruct body as [x|[[[[org name] micros] every] starts]]; [inside_route|]. apply inside_call; [exact I|]. intros now. cbv zeta.
  set (today := DateOnly now). set (st := if bool_decide (starts = "") then today else starts).
  destruct (checkCharge today org (TrimSpace name) micros every st) eqn:Hg; [inside_route|].
  pose proof (Unrestricted_admin p org Hu) as Ha.
  apply inside_call; [exact Ha|]. intros [x|known]; [inside_route|]. apply inside_call; [exact I|]. intros id.
  apply inside_call; [|inside_route]. clearbody st. unfold checkCharge in Hg. case_bool_decide; [done|].
  destruct (_ || _) in Hg; [done|]. destruct ((micros <? minTopUp) || _) eqn:Hm; [done|].
  destruct (Z.rem micros 10000 =? 0) eqn:Hw; [|done]. destruct (negb _ && negb _) eqn:Hev; [done|].
  destruct (ValidReleaseDate st) eqn:Hd; [|done]. cbn [within ch_micros ch_every starts_on].
  unfold minTopUp, maxCharge, whole_centimes, charge_allowed in *. cbn [ch_micros ch_every].
  split_and!; try done; [|lia|lia|rewrite <- Z.rem_mod_nonneg by lia; lia]. rewrite andb_true_iff, orb_true_iff. split; [lia|].
  apply andb_false_iff in Hev as [Hev|Hev]; apply negb_false_iff in Hev; auto.
Qed.

Lemma inside_delete p h id : inside (Delete_charge p id) p h (deleteCharge (T := T) on rid p id).
Proof.
  unfold deleteCharge. destruct (negb on); [inside_route|]. destruct (Unrestricted p) eqn:Hu; cbn [negb]; [|inside_route].
  apply inside_call; [done|]. intros [x|c]; [inside_route|]. pose proof (Unrestricted_admin p (ch_org (rc_row c)) Hu). inside_route.
Qed.

(** C12: whatever a route of the payments is sent and whatever the database and PostFinance answer it, every call it makes is one its caller may make: it reads accounts, lists and pending payments, records payments and settings, forgets a card and writes audit entries only of an organisation the caller administers, and a payment or a charge by its id only for the route that names it; it looks up, settles and announces only pending payments the database listed for such an organisation, and ties to a transaction, or settles as failed, only a payment it recorded itself; it deletes only a saved card the database said it forgot or replaced, and hands out the document of a paid payment only to an administrator of its organisation; only an unrestricted caller grants credit and adds or ends recurring charges; amounts are accepted ones with the fee and VAT they cost, a card that recurring charges need stays, and no route charges a saved card or does the work of the webhook and the rounds. *)
Theorem routes_stay_within e p tr rest before c x after :
  entry_caller e = Some p → steps (program VATBP SpaceID PublicURL on rid e) tr rest → tr = before ++ answered c x :: after →
  within e p before c.
Proof.
  intros Hp Hs Htr. eapply (always_call (within e p) (program VATBP SpaceID PublicURL on rid e) rest tr (λ _ _, True) [] before c x after);
    [|exact Hs|exact Htr].
  pose proof (inside_lists e p []) as Hlists.
  destruct e; cbn in Hp; simplify_eq; (apply inside_bind; [|intros; apply inside_ret]).
  - apply inside_account.
  - apply inside_update.
  - apply inside_forget.
  - apply inside_topup.
  - apply Hlists.
  - apply inside_receipt.
  - apply inside_grant.
  - by apply (Hlists org_id "" (inr 0)).
  - apply inside_newcharge.
  - apply inside_delete.
  - apply inside_paycharge.
Qed.
End routes.

(** *** Witnesses *)

Section sample.
#[local] Existing Instance sample_figures.

(** PostFinance makes transaction 77, and answers a charge of it so. *)
Definition sample_answers (charged : pf_error + Transaction Q) (s : unit) (c : call) : unit * answer Q c :=
  (s, match c as c return answer Q c with
      | Db_CreatePayment _ | Db_SetTransaction _ _ => None
      | Pf_Create _ => inr (sample_tx "PENDING")
      | Pf_Charge _ => charged
      | Db_ForgetCard _ => inr 7
      | Db_ListCharges _ => inr []
      | Time_Now => 0
      | New_ID _ => "pay_1"
      | Db_Settle _ _ | Db_Grant _ | Db_Payment _ | Db_PaymentByTransaction _ | Db_UpdateCredit _ _ _ _ | Db_CreditAccount _
      | Db_CreateCharge _ _ | Db_DeleteCharge _ | Db_Charge _ | Db_ListPayments _ _ _ | Db_PendingPaymentsOf _ _ _
      | Db_PendingPayments _ _ _ | Db_DueTopUps _ | Db_DueCharges _ | Db_OrgName _ => inl ErrDatabase
      | Db_TakeTurn _ _ => false
      | Pf_Get _ | Pf_PaymentPageURL _ | Pf_InvoiceDocument _ | Pf_Card _ => inl (Unanswered "")
      | Pf_DeleteToken _ => None
      | Db_Audit _ _ _ _ _ | Reg_RefreshCredit | Announce _ => tt
      end).

(** PostFinance asks to slow down, refuses the card, or does not answer. *)
Definition charge_run (charged : pf_error + Transaction Q) : unit * unit * list (event (R := answer Q)) :=
  run (sample_answers charged) tt (chargeCard 810 (sample_payment "pay_1" PaymentAuto 20000000) 7).

Lemma chargeCard_ends_witness :
  settled_once "pay_1" false true (of_run settled_of (charge_run (inl (Answered 429 "" ""))).2) ∧
  settled_once "pay_1" false false (of_run settled_of (charge_run (inl (Answered 422 "" ""))).2) ∧
  of_run settled_of (charge_run (inl (Unanswered "timeout"))).2 = [].
Proof.
  assert (∀ x, outcome_of (sample_payment "pay_1" PaymentAuto 20000000) (charge_run x).2) as Hrun.
  { intros x. apply (chargeCard_ends 810 _ 7). unfold charge_run. destruct (run _ _ _) as [[s []] tr] eqn:Er. exact (run_steps _ _ _ _ _ _ Er). }
  split; [exact (Hrun (inl (Answered 429 "" "")))|]. split; [exact (Hrun (inl (Answered 422 "" "")))|exact (Hrun (inl (Unanswered "timeout")))].
Defined.

Definition forget_run : unit * unit * list (event (R := answer Q)) :=
  run (sample_answers (inl (Unanswered ""))) tt (program 810 5 "" true "r" (Delete_card sample_admin "")).

(** An administrator's card is forgotten: of their own organisation, which has no recurring charges. *)
Lemma routes_stay_within_witness :
  forget_run.2 = [answered (R := answer Q) (Db_ListCharges "org_1") (inr []); answered (Db_ForgetCard "org_1") (inr 7);
    answered (Pf_DeleteToken 7) None; answered (Db_Audit "user_1" "org_1" "billing.card.remove" "org" "org_1") tt] ∧
  CanAdminOrg sample_admin "org_1" = true.
Proof.
  split; [vm_compute; reflexivity|].
  refine (proj1 (routes_stay_within 810 5 "" true "r" (Delete_card sample_admin "") sample_admin forget_run.2 (Ret tt)
    [answered (Db_ListCharges "org_1") (inr [])] (Db_ForgetCard "org_1") (inr 7) _ eq_refl _ _)); [|vm_compute; reflexivity].
  unfold forget_run. destruct (run _ _ _) as [[s []] tr] eqn:Er. exact (run_steps _ _ _ _ _ _ Er).
Defined.
End sample.
