(* ===== verification/PaymentWorld.v ===== *)
(** * Everything that is paid, was paid

    Any number of requests, webhooks and payment rounds run at once on one
    database, over any number of replicas: each step of a run is one of its
    calls, answered. A replica may die at any point, and a transaction's answer
    may be lost whether or not it was committed. *)
From S2P Require Import Prelude GoTime Num Tenancy Pricing Guardrails Text Filters Routers RouterCheck.
From S2P Require Import Replies Guard Routing Budgets Messages Hosting Providers Catalog Credit.
From S2P Require Import Control Principals Payments PaymentRuns.
Open Scope go_scope.

(** ** The database's answers *)

Section database.
Context {T : Type} `{Intervals}.

Definition recurring (id : string) (c : charge) : RecurringCharge :=
  {| rc_ID := id; rc_row := c; DueAt := chargeDue c; DueUntil := chargeDueUntil c |}.

(** A transaction that writes, run at [now]; [None] for any other call. *)
Definition db_exec (now : Z) (b : bank) (c : call) : option (bank * answer T c) :=
  match c as c return option (bank * answer T c) with
  | Db_CreatePayment p => Some (CreatePayment b now p)
  | Db_SetTransaction id t => Some (SetTransaction b id t)
  | Db_Settle id how => Some (Settle b now id how)
  | Db_Grant p => Some (Grant b now p)
  | Db_UpdateCredit org below amount inv =>
      let b' := UpdateCredit b org below amount inv in Some (b', inr (default new_account (accounts b' !! org)))
  | Db_ForgetCard org => let '(b', token) := ForgetCard b org in Some (b', inr token)
  | Db_CreateCharge id c =>
      match CreateCharge b id c with
      | (b', None) => Some (b', inr (recurring id (c <| paid_periods := 0%nat |> <| ch_error := None |>)))
      | (b', Some e) => Some (b', inl e)
      end
  | Db_DeleteCharge id =>
      match charges b !! id, DeleteCharge b id with
      | Some c, (b', _) => Some (b', inr (recurring id c))
      | None, (b', _) => Some (b', inl ErrNotFound)
      end
  | _ => None
  end.

(** A write whose answer did not arrive. *)
Definition lost (c : call) : option (answer T c) :=
  match c as c return option (answer T c) with
  | Db_CreatePayment _ | Db_SetTransaction _ _ => Some (Some ErrDatabase)
  | Db_Settle _ _ | Db_Grant _ | Db_UpdateCredit _ _ _ _ | Db_ForgetCard _ | Db_CreateCharge _ _ | Db_DeleteCharge _ =>
      Some (inl ErrDatabase)
  | _ => None
  end.

(** An answer to a call, and what it makes of the database: a write that ran,
    one whose answer was lost before or after it ran, or any other call. A
    read lists rows of the database; PostFinance's transactions have ids. *)
Inductive answers (b : bank) : ∀ c, answer T c → bank → Prop :=
  | done_ now c b' x : db_exec now b c = Some (b', x) → answers b c x b'
  | lost_before c x : lost c = Some x → answers b c x b
  | lost_after now c b' x x' : db_exec now b c = Some (b', x') → lost c = Some x → answers b c x b'
  | no_write c x : lost c = None → (∀ p, p ∈ rows_of (answered c x) → payments b !! Pm_ID p = Some p) →
      (∀ t, t ∈ made_of (answered c x) → t ≠ 0) → answers b c x b.

(** How a call changes the payments. *)
Inductive rows_change (m : gmap string Payment) : call → gmap string Payment → Prop :=
  | rows_same c : rows_change m c m
  | rows_create p row : m !! Pm_ID p = None → State row = PaymentPending → TransactionID row = 0 →
      (row = p <| State := PaymentPending |> <| CreatedAt := CreatedAt row |> <| TransactionID := 0 |> <| Note := "" |> <| SettledAt := None |>) →
      rows_change m (Db_CreatePayment p) (<[Pm_ID p := row]> m)
  | rows_tie id t row : m !! id = Some row → State row = PaymentPending → (∀ j q, m !! j = Some q → j ≠ id → TransactionID q ≠ t) →
      rows_change m (Db_SetTransaction id t) (<[id := row <| TransactionID := t |>]> m)
  | rows_grant p row : m !! Pm_ID p = None → Pm_ID row = Pm_ID p → Pm_Kind row = PaymentGrant → TransactionID row = 0 →
      rows_change m (Db_Grant p) (<[Pm_ID p := row]> m)
  | rows_settle id how row row' : m !! id = Some row →
      row' = row <| State := if Paid how then PaymentPaid else PaymentFailed |> <| Note := Note row' |> <| SettledAt := SettledAt row' |> →
      rows_change m (Db_Settle id how) (<[id := row']> m).

Lemma exec_rows now b c b' x : db_exec now b c = Some (b', x) → rows_change (payments b) c (payments b').
Proof.
  destruct c; cbn [db_exec]; try discriminate.
  - intros [= Hc]. unfold CreatePayment in Hc. destruct (negb _); [injection Hc as <- _; constructor|].
    case_bool_decide as Hx; [injection Hc as <- _; constructor|]. destruct (violates_index _ _); [injection Hc as <- _; constructor|].
    injection Hc as <- _. cbn [update payments]. apply (rows_create _ p); try done.
    destruct (payments b !! Pm_ID p); [|done]. by destruct Hx.
  - intros [= Hc]. unfold SetTransaction in Hc. destruct (payments b !! id) as [row|] eqn:Hr; [|injection Hc as <- _; constructor].
    case_bool_decide as Hs; cbn [negb] in Hc; [|injection Hc as <- _; constructor].
    destruct (existsb _ _) eqn:Hex; injection Hc as <- _; [constructor|]. cbn [update payments].
    apply rows_tie; [done..|]. intros j q Hq Hj Ht. apply not_true_iff_false in Hex. apply Hex, existsb_exists.
    exists (j, q). split; [by apply list_elem_of_In, elem_of_map_to_list|]. cbn. rewrite Ht, Z.eqb_refl, bool_decide_eq_false_2; done.
  - intros [= Hc]. destruct (payments b !! id) as [row|] eqn:Hr; [|unfold Settle in Hc; rewrite Hr in Hc; injection Hc as <- _; constructor].
    destruct (settled_payments b now id how row Hr) as [Hs|(row' & Hs & _ & ->)]; rewrite Hc in Hs; cbn [fst] in Hs; rewrite Hs; [constructor|].
    by eapply rows_settle.
  - intros [= Hc]. unfold Grant in Hc. case_bool_decide as Hx; [injection Hc as <- _; constructor|].
    destruct (addCredit _ _ _) as [b2|] eqn:Ea; [|injection Hc as <- _; constructor]. injection Hc as <- _.
    rewrite (proj1 (addCredit_balance _ _ _ _ Ea)). cbn [update payments]. apply rows_grant; try done.
    destruct (payments b !! Pm_ID p); [|done]. by destruct Hx.
  - intros [= <- _]. constructor.
  - unfold ForgetCard. destruct (accounts b !! org); intros [= <- _]; constructor.
  - unfold CreateCharge. destruct (negb _); [intros [= <- _]; constructor|]. case_bool_decide; [intros [= <- _]; constructor|].
    case_bool_decide; intros [= <- _]; constructor.
  - unfold DeleteCharge. destruct (charges b !! id); intros [= <- _]; constructor.
Qed.

Lemma answers_rows b c x b' : answers b c x b' → rows_change (payments b) c (payments b').
Proof. intros [now c' b2 x' He|c' x' Hl|now c' b2 x' x2 He Hl|c' x' Hl Hr Hm]; eauto using exec_rows, rows_same. Qed.

(** An answer that says the payment was recorded, or tied, is right. *)
Lemma answers_created b c x b' p : answers b c x b' → p ∈ created_of (answered c x) →
  payments b !! Pm_ID p = None ∧ ∃ now, payments b' = <[Pm_ID p := p <| State := PaymentPending |> <| CreatedAt := now |> <| TransactionID := 0 |>
    <| Note := "" |> <| SettledAt := None |>]> (payments b).
Proof.
  intros Ha Hp. destruct Ha as [now c b' x He|c x Hl|now c b' x x' He Hl|c x Hl Hr Hm]; destruct c; cbn in Hp; try (by apply elem_of_nil in Hp).
  - destruct x; [by apply elem_of_nil in Hp|]. apply list_elem_of_singleton in Hp as ->. injection He as He.
    unfold CreatePayment in He. destruct (negb _); [done|]. case_bool_decide as Hx; [done|]. destruct (violates_index _ _); [done|].
    injection He as <-. split; [|by exists now]. destruct (payments b !! Pm_ID p0); [|done]. by destruct Hx.
  - injection Hl as <-. by apply elem_of_nil in Hp.
  - injection Hl as <-. by apply elem_of_nil in Hp.
  - discriminate Hl.
Qed.

Lemma answers_tied b c x b' id t : answers b c x b' → (id, t, true) ∈ tied_of (answered c x) →
  ∃ row, payments b !! id = Some row ∧ payments b' = <[id := row <| TransactionID := t |>]> (payments b).
Proof.
  intros Ha Hp. destruct Ha as [now c b' x He|c x Hl|now c b' x x' He Hl|c x Hl Hr Hm]; destruct c; cbn in Hp; try (by apply elem_of_nil in Hp).
  - destruct x; apply list_elem_of_singleton in Hp; [done|]. injection Hp as -> ->. injection He as He.
    unfold SetTransaction in He. destruct (payments b !! _) as [row|]; [|done]. destruct (negb _); [done|]. destruct (existsb _ _); [done|].
    injection He as <-. by exists row.
  - injection Hl as <-. by apply list_elem_of_singleton in Hp.
  - injection Hl as <-. by apply list_elem_of_singleton in Hp.
  - discriminate Hl.
Qed.
End database.

(** ** A deployment *)

Section world.
Context `{Num T} `{FloatText T} `{Intervals}.
Context (VATBP SpaceID : Z) (PublicURL : string).

(** A program under way: what it did, and what is left of it. *)
Record thread := { seen : list (event (R := answer T)); left_ : prog (answer T) unit }.

Record world := { w_bank : bank; w_threads : list thread }.

Inductive world_step : world → world → Prop :=
  | w_start w on rid e :
      world_step w {| w_bank := w_bank w;
        w_threads := w_threads w ++ [{| seen := []; left_ := program VATBP SpaceID PublicURL on rid e |}] |}
  | w_call w i h c k x b' :
      w_threads w !! i = Some {| seen := h; left_ := Do c k |} → answers (w_bank w) c x b' →
      world_step w {| w_bank := b'; w_threads := <[i := {| seen := h ++ [answered c x]; left_ := k x |}]> (w_threads w) |}
  (** The usage of the organisations is taken from their credit. *)
  | w_use w events :
      world_step w {| w_bank := bank_step (w_bank w) (OpUse events); w_threads := w_threads w |}.

Inductive reachable : world → Prop :=
  | r_start b : payments b = ∅ → reachable {| w_bank := b; w_threads := [] |}
  | r_step w w' : reachable w → world_step w w' → reachable w'.

(** ** The invariant *)

Definition total_of (f : list (event (R := answer T)) → nat) (ts : list thread) : nat := sum_list_with (λ t, f (seen t)) ts.

Definition same_money (p q : Payment) : Prop :=
  Pm_OrgID p = Pm_OrgID q ∧ Pm_Kind p = Pm_Kind q ∧ AmountMicros p = AmountMicros q ∧ VATMicros p = VATMicros q ∧ FeeMicros p = FeeMicros q.

Lemma same_money_paid p q tx : same_money p q → paidInFull p tx = paidInFull q tx.
Proof. intros (_ & _ & Ha & Hv & Hf). unfold paidInFull. by rewrite Ha, Hv, Hf. Qed.

Lemma same_money_trans p q r : same_money p q → same_money q r → same_money p r.
Proof. unfold same_money. intros (-> & -> & -> & -> & ->). done. Qed.

(** A row a run knows is still there, with the transaction it was tied to. *)
Definition stands (m : gmap string Payment) (pm : Payment) : Prop :=
  ∃ row, m !! Pm_ID pm = Some row ∧ same_money pm row ∧ (TransactionID pm ≠ 0 → TransactionID row = TransactionID pm).

(** PostFinance reported to some run that the row was paid in full. *)
Definition was_paid (ts : list thread) (row : Payment) : Prop :=
  TransactionID row ≠ 0 ∧ ∃ i t tx, ts !! i = Some t ∧ (TransactionID row, tx) ∈ of_run said_of (seen t) ∧
    tx_Paid tx = true ∧ paidInFull row tx = true.

Record world_ok (m : gmap string Payment) (ts : list thread) : Prop := {
  ok_ids : ∀ id row, m !! id = Some row → Pm_ID row = id;
  ok_careful : ∀ i t, ts !! i = Some t → always careful (seen t) (left_ t) (λ h _, balanced h);
  ok_balanced : ∀ i t, ts !! i = Some t → balanced (seen t);
  ok_once : ∀ id, (total_of (creates id) ts <= if bool_decide (is_Some (m !! id)) then 1 else 0)%nat;
  ok_known : ∀ i t pm, ts !! i = Some t → known (seen t) pm → stands m pm;
  ok_created : ∀ i t p, ts !! i = Some t → p ∈ of_run created_of (seen t) → ∃ row, m !! Pm_ID p = Some row ∧ same_money p row;
  ok_made : ∀ i t x, ts !! i = Some t → x ∈ of_run made_of (seen t) → x ≠ 0;
  ok_tied : ∀ id row, m !! id = Some row → TransactionID row ≠ 0 → (1 <= total_of (ties id) ts)%nat;
  ok_unique : ∀ i j p q, m !! i = Some p → m !! j = Some q → TransactionID p = TransactionID q → TransactionID p ≠ 0 → i = j;
  ok_paid : ∀ id row, m !! id = Some row → State row = PaymentPaid → Pm_Kind row ≠ PaymentGrant → was_paid ts row;
}.

Lemma total_insert_thread f ts i t t' : ts !! i = Some t →
  (total_of f (<[i := t']> ts) + f (seen t) = total_of f ts + f (seen t'))%nat.
Proof.
  intros Hi. unfold total_of. revert i Hi. induction ts as [|u ts IH]; intros [|i] Hi; try done.
  - injection Hi as ->. change (<[0%nat := t']> (t :: ts)) with (t' :: ts). cbn [sum_list_with]. lia.
  - specialize (IH i Hi). change (<[S i := t']> (u :: ts)) with (u :: <[i := t']> ts). cbn [sum_list_with]. lia.
Qed.

Lemma total_thread f ts i t : ts !! i = Some t → (f (seen t) <= total_of f ts)%nat.
Proof.
  unfold total_of. revert i. induction ts as [|u ts IH]; intros [|i]; cbn; try done; [intros [= ->]; lia|]. intros Hi. specialize (IH i Hi). lia.
Qed.

Lemma total_le f g ts : (∀ i t, ts !! i = Some t → (f (seen t) <= g (seen t))%nat) → (total_of f ts <= total_of g ts)%nat.
Proof.
  unfold total_of. induction ts as [|u ts IH]; intros Hfg; cbn; [lia|]. specialize (Hfg 0%nat u eq_refl) as Hu.
  assert (∀ i t, ts !! i = Some t → (f (seen t) <= g (seen t))%nat) as Hts by (intros i t Hi; by apply (Hfg (S i))). specialize (IH Hts). lia.
Qed.

Lemma was_paid_more ts i h e k k' row : ts !! i = Some {| seen := h; left_ := k |} → was_paid ts row →
  was_paid (<[i := {| seen := h ++ [e]; left_ := k' |}]> ts) row.
Proof.
  intros Hi (Hn & j & t & tx & Hj & Hs & Hp). split; [done|]. destruct (decide (i = j)) as [<-|Hne].
  - exists i, {| seen := h ++ [e]; left_ := k' |}, tx. split_and!; [|by assert (t = {| seen := h; left_ := k |}) as -> by congruence; apply of_run_in|apply Hp|apply Hp].
    apply list_lookup_insert_eq. by apply lookup_lt_Some in Hi.
  - exists j, t, tx. split_and!; [by rewrite list_lookup_insert_ne|done|apply Hp|apply Hp].
Qed.

(** *** One call *)

(** Where a row after the call comes from. *)
Lemma rows_change_new m c m' id row' : rows_change m c m' → m' !! id = Some row' →
  m !! id = Some row' ∨
  (m !! id = None ∧ TransactionID row' = 0 ∧ Pm_ID row' = id ∧ (State row' = PaymentPending ∨ Pm_Kind row' = PaymentGrant)) ∨
  (∃ t row, c = Db_SetTransaction id t ∧ m !! id = Some row ∧ State row = PaymentPending ∧ row' = row <| TransactionID := t |> ∧
     (∀ j q, m !! j = Some q → j ≠ id → TransactionID q ≠ t)) ∨
  (∃ how row, c = Db_Settle id how ∧ m !! id = Some row ∧ same_money row row' ∧ TransactionID row' = TransactionID row ∧
     Pm_ID row' = Pm_ID row ∧ (State row' = PaymentPaid → Paid how = true)).
Proof.
  intros [c'|p row Hn Hs Ht He|i t row Hr Hs Ho|p row Hn Hi Hk Ht|i how row row1 Hr He] Hm'; [by left|..];
    apply lookup_insert_Some in Hm' as [(<- & <-)|(Hne & Hm')]; try (by left).
  - right; left. split_and!; [done..| |by left]. rewrite He. done.
  - right; right; left. eauto 10.
  - right; left. auto.
  - right; right; right. exists how, row. rewrite He. split_and!; try done. cbn. by destruct (Paid how).
Qed.

(** What a row becomes. *)
Lemma rows_change_old m c m' id row : rows_change m c m' → m !! id = Some row →
  ∃ row', m' !! id = Some row' ∧ same_money row row' ∧ (TransactionID row' = TransactionID row ∨ ∃ t, c = Db_SetTransaction id t).
Proof.
  assert (same_money row row) as Hsame by done.
  intros [c'|p r Hn Hs Ht He|i t r Hr Hs Ho|p r Hn Hi Hk Ht|i how r r1 Hr He] Hm; [by exists row; auto|..].
  - exists row. rewrite lookup_insert_ne by congruence. auto.
  - destruct (decide (i = id)) as [->|Hne]; [|exists row; rewrite lookup_insert_ne by done; auto].
    rewrite lookup_insert_eq. eexists. split; [done|]. assert (r = row) as -> by congruence. split; [done|]. eauto.
  - exists row. rewrite lookup_insert_ne by congruence. auto.
  - destruct (decide (i = id)) as [->|Hne]; [|exists row; rewrite lookup_insert_ne by done; auto].
    rewrite lookup_insert_eq. eexists. split; [done|]. assert (r = row) as -> by congruence. rewrite He. split; [done|]. by left.
Qed.

Section one_call.
Context (b b' : bank) (ts : list thread) (i : nat) (h : list (event (R := answer T))) (c : call) (x : answer T c)
  (k : answer T c → prog (answer T) unit).
Context (Hok : world_ok (payments b) ts) (Hi : ts !! i = Some {| seen := h; left_ := Do c k |}) (Ha : answers b c x b').

Abbreviation e := (answered (R := answer T) c x).
Abbreviation t' := {| seen := h ++ [e]; left_ := k x |}.
Abbreviation ts' := (<[i := t']> ts).

Lemma call_careful : careful h c.
Proof. exact (proj1 (ok_careful _ _ Hok i _ Hi)). Qed.

Lemma call_balanced : balanced (h ++ [e]).
Proof.
  intros id. rewrite ties_app, creates_app. pose proof (ok_balanced _ _ Hok i _ Hi id) as Hb. cbn [seen] in Hb.
  pose proof call_careful as Hc. destruct c; try (cbn; lia). destruct Hc as (Hlt & _).
  assert (ties id [answered (R := answer T) (Db_SetTransaction id0 tx) x] <= if bool_decide (id0 = id) then 1 else 0)%nat.
  { unfold ties. rewrite of_run_one. destruct x; cbn; case_bool_decide; rewrite ?decide_True, ?decide_False by done; cbn; lia. }
  case_bool_decide; [subst id0; lia|lia].
Qed.

Lemma thread_after j t : ts' !! j = Some t → (j = i ∧ t = t') ∨ ts !! j = Some t.
Proof.
  destruct (decide (i = j)) as [<-|Hne]; [|rewrite list_lookup_insert_ne by done; by right].
  rewrite list_lookup_insert_eq by (by apply lookup_lt_Some in Hi). intros [= <-]. by left.
Qed.

Lemma total_after (f : list (event (R := answer T)) → nat) : (∀ h1 h2, f (h1 ++ h2) = f h1 + f h2)%nat →
  total_of f ts' = (total_of f ts + f [e])%nat.
Proof. intros Hf. pose proof (total_insert_thread f ts i _ t' Hi) as Ht. cbn [seen] in Ht. rewrite Hf in Ht. lia. Qed.

(** A payment is tied to a transaction once. *)
Lemma not_tied_yet id t row : c = Db_SetTransaction id t → payments b !! id = Some row → TransactionID row = 0.
Proof.
  intros Hc Hr. destruct (decide (TransactionID row = 0)) as [|Hn]; [done|]. exfalso.
  pose proof (ok_tied _ _ Hok id row Hr Hn) as Htied. pose proof (ok_once _ _ Hok id) as Honce.
  pose proof call_careful as Hca. rewrite Hc in Hca. destruct Hca as (Hlt & _).
  assert (total_of (ties id) ts < total_of (creates id) ts)%nat; [|destruct (bool_decide _); lia].
  assert (∀ us, (∀ j u, us !! j = Some u → (ties id (seen u) <= creates id (seen u))%nat) → ∀ j u, us !! j = Some u →
    (ties id (seen u) < creates id (seen u))%nat → (total_of (ties id) us < total_of (creates id) us)%nat) as Hstrict.
  { clear. unfold total_of. induction us as [|v us IH]; intros Hle j u Hj Hlt; [done|]. cbn.
    pose proof (Hle 0%nat v eq_refl) as Hv. assert (∀ j u, us !! j = Some u → (ties id (seen u) <= creates id (seen u))%nat) as Hus
      by (intros j' u' Hj'; by apply (Hle (S j'))). destruct j as [|j].
    - injection Hj as ->. pose proof (total_le (ties id) (creates id) us Hus) as Hall. unfold total_of in Hall. lia.
    - specialize (IH Hus j u Hj Hlt). lia. }
  apply (Hstrict ts (λ j u Hj, ok_balanced _ _ Hok j u Hj id) i _ Hi Hlt).
Qed.

Lemma stands_after pm : stands (payments b) pm → stands (payments b') pm.
Proof.
  intros (row & Hr & Hm & Ht). destruct (rows_change_old _ _ _ _ _ (answers_rows _ _ _ _ Ha) Hr) as (row' & Hr' & Hm' & Hkeep).
  exists row'. split; [done|]. split.
  - by eapply same_money_trans.
  - intros Hn. specialize (Ht Hn). destruct Hkeep as [->|(t & Hc)]; [done|]. rewrite (not_tied_yet _ _ _ Hc Hr) in Ht. congruence.
Qed.

Lemma created_after p j t : ts' !! j = Some t → p ∈ of_run created_of (seen t) →
  ∃ row, payments b' !! Pm_ID p = Some row ∧ same_money p row.
Proof.
  intros Hj Hp. assert (p ∈ created_of e ∨ ∃ j t, ts !! j = Some t ∧ p ∈ of_run created_of (seen t)) as [Hnew|(j0 & t0 & Hj0 & Hp0)].
  { destruct (thread_after j t Hj) as [(-> & ->)|Hold]; [|eauto]. cbn [seen] in Hp. rewrite of_run_app, of_run_one in Hp.
    apply elem_of_app in Hp as [Hp|Hp]; [right; by exists i, {| seen := h; left_ := Do c k |}|by left]. }
  - destruct (answers_created _ _ _ _ _ Ha Hnew) as (_ & now & ->). rewrite lookup_insert_eq. by eexists.
  - destruct (ok_created _ _ Hok j0 t0 p Hj0 Hp0) as (row & Hr & Hm).
    destruct (rows_change_old _ _ _ _ _ (answers_rows _ _ _ _ Ha) Hr) as (row' & Hr' & Hm' & _). exists row'. split; [done|].
    by eapply same_money_trans.
Qed.

Lemma thread_itself : ts' !! i = Some t'.
Proof. apply list_lookup_insert_eq. by apply lookup_lt_Some in Hi. Qed.

Lemma read_rows p : p ∈ rows_of e → b' = b ∧ payments b !! Pm_ID p = Some p.
Proof.
  intros Hp. destruct Ha as [now c' b2 x' He|c' x' Hl|now c' b2 x' x2 He Hl|c' x' Hl Hr Hm]; [clear -He Hp|clear -Hl Hp|clear -He Hp|by auto];
    exfalso; destruct c'; cbn in Hp; try (by apply elem_of_nil in Hp); discriminate.
Qed.

Lemma ties_in id t u (l : list (event (R := answer T))) : (id, t, u) ∈ of_run tied_of l → (1 <= ties id l)%nat.
Proof.
  intros Ht. unfold ties. assert ((id, t, u) ∈ filter (λ x : string * Z * bool, x.1.1 = id) (of_run tied_of l)) as Hf
    by (by apply list_elem_of_filter).
  destruct (filter _ _); [by apply elem_of_nil in Hf|cbn; lia].
Qed.

Lemma known_after pm j t : ts' !! j = Some t → known (seen t) pm → stands (payments b') pm.
Proof.
  intros Hj Hk. destruct (thread_after j t Hj) as [(-> & ->)|Hold]; [|by eapply stands_after, ok_known]. cbn [seen] in Hk.
  destruct Hk as [Hr|(pm' & Hc & He & Ht)].
  { rewrite of_run_app, of_run_one in Hr. apply elem_of_app in Hr as [Hr|Hr]; [eapply stands_after, (ok_known _ _ Hok i); [done|by left]|].
    destruct (read_rows pm Hr) as (-> & Hrow'). by exists pm. }
  assert (Pm_ID pm = Pm_ID pm') as Hid by (rewrite He; done).
  rewrite of_run_app, of_run_one in Ht. apply elem_of_app in Ht as [Ht|Ht].
  - rewrite of_run_app, of_run_one in Hc. apply elem_of_app in Hc as [Hc|Hc].
    + eapply stands_after, (ok_known _ _ Hok i); [done|]. right. by exists pm'.
    + exfalso. destruct (answers_created _ _ _ _ _ Ha Hc) as (Hnone & _). pose proof (ties_in _ _ _ _ Ht) as Hties.
      pose proof (ok_balanced _ _ Hok i _ Hi (Pm_ID pm)) as Hb. cbn [seen] in Hb. rewrite Hid in *.
      pose proof (ok_once _ _ Hok (Pm_ID pm')) as Honce. pose proof (total_thread (creates (Pm_ID pm')) ts i _ Hi) as Htot. cbn [seen] in Htot.
      rewrite bool_decide_eq_false_2 in Honce by (rewrite Hnone; by intros []). lia.
  - destruct (answers_tied _ _ _ _ _ _ Ha Ht) as (row & Hr & Hb').
    destruct (created_after pm' i t' thread_itself Hc) as (row' & Hr' & Hm'). rewrite Hb', <- Hid, lookup_insert_eq in Hr'. injection Hr' as <-.
    exists (row <| TransactionID := TransactionID pm |>). rewrite Hb', lookup_insert_eq. split; [done|]. split; [|done].
    rewrite He. exact Hm'.
Qed.

Lemma once_after id : (total_of (creates id) ts' <= if bool_decide (is_Some (payments b' !! id)) then 1 else 0)%nat.
Proof.
  rewrite total_after by (intros; apply creates_app). pose proof (ok_once _ _ Hok id) as Honce.
  destruct (created_of e) as [|p [|]] eqn:Hc.
  - assert (creates id [e] = 0%nat) as -> by (unfold creates; rewrite of_run_one; by rewrite Hc).
    case_bool_decide as Hb; case_bool_decide as Hb'; try lia. exfalso. apply Hb'. destruct Hb as (row & Hr).
    destruct (rows_change_old _ _ _ _ _ (answers_rows _ _ _ _ Ha) Hr) as (row' & -> & _). eauto.
  - destruct (answers_created b c x b' p Ha) as (Hnone & now & Hb'); [rewrite Hc; by left|].
    assert (creates id [e] = if bool_decide (Pm_ID p = id) then 1 else 0)%nat as ->.
    { unfold creates. rewrite of_run_one, Hc, filter_cons, filter_nil. by repeat case_decide; case_bool_decide. }
    rewrite Hb'. destruct (decide (Pm_ID p = id)) as [<-|Hne].
    + rewrite lookup_insert_eq, Hnone, bool_decide_eq_true_2, (bool_decide_eq_true_2 (is_Some (Some _))) in * by eauto.
      rewrite bool_decide_eq_false_2 in Honce by (by intros []). lia.
    + rewrite lookup_insert_ne by done. rewrite (bool_decide_eq_false_2 _ Hne). lia.
  - exfalso. clear -Hc. destruct c; cbn in Hc; try discriminate. by destruct x.
Qed.

Lemma made_after j t y : ts' !! j = Some t → y ∈ of_run made_of (seen t) → y ≠ 0.
Proof.
  intros Hj Hy. destruct (thread_after j t Hj) as [(-> & ->)|Hold]; [|by eapply ok_made]. cbn [seen] in Hy.
  rewrite of_run_app, of_run_one in Hy. apply elem_of_app in Hy as [Hy|Hy]; [by apply (ok_made _ _ Hok i _ y Hi)|].
  destruct Ha as [now c' b2 x' He|c' x' Hl|now c' b2 x' x2 He Hl|c' x' Hl Hr Hm]; [clear -He Hy|clear -Hl Hy|clear -He Hy|by auto];
    exfalso; destruct c'; cbn in Hy; try (by apply elem_of_nil in Hy); discriminate.
Qed.

Lemma ids_after id row : payments b' !! id = Some row → Pm_ID row = id.
Proof.
  intros Hr. destruct (rows_change_new _ _ _ _ _ (answers_rows _ _ _ _ Ha) Hr)
    as [Hold|[(_ & _ & Hid & _)|[(t & r & _ & Hold & _ & -> & _)|(how & r & _ & Hold & _ & _ & Hid & _)]]]; [|done|..];
    pose proof (ok_ids _ _ Hok _ _ Hold); [done|done|congruence].
Qed.

Lemma tied_after id row : payments b' !! id = Some row → TransactionID row ≠ 0 → (1 <= total_of (ties id) ts')%nat.
Proof.
  intros Hr Hn. rewrite total_after by (intros; apply ties_app).
  destruct (rows_change_new _ _ _ _ _ (answers_rows _ _ _ _ Ha) Hr)
    as [Hold|[(_ & Hz & _)|[(t & r & Hc & _)|(how & r & _ & Hold & _ & Ht & _)]]].
  - pose proof (ok_tied _ _ Hok _ _ Hold Hn). lia.
  - done.
  - assert (1 <= ties id [e])%nat; [|lia]. clear -Hc. subst c. apply (ties_in _ t (bool_decide (x = None))).
    rewrite of_run_one. destruct x; cbn; by left.
  - rewrite Ht in Hn. pose proof (ok_tied _ _ Hok _ _ Hold Hn). lia.
Qed.

(** The transaction of a row that was tied before is the one it has. *)
Lemma unique_after id1 id2 p q : payments b' !! id1 = Some p → payments b' !! id2 = Some q →
  TransactionID p = TransactionID q → TransactionID p ≠ 0 → id1 = id2.
Proof.
  assert (∀ id1 id2 p q, payments b' !! id1 = Some p → payments b' !! id2 = Some q → TransactionID p = TransactionID q → TransactionID p ≠ 0 →
    (∃ p0, payments b !! id1 = Some p0 ∧ TransactionID p = TransactionID p0) → id1 = id2) as Hone.
  { clear id1 id2 p q. intros id1 id2 p q Hp Hq Heq Hn (p0 & Hp0 & Hpt).
    destruct (rows_change_new _ _ _ _ _ (answers_rows _ _ _ _ Ha) Hq)
      as [Hold|[(_ & Hz & _)|[(t & r & Hc & Hold & _ & Eq & Ho)|(how & r & _ & Hold & _ & Ht & _)]]].
    - by apply (ok_unique _ _ Hok _ _ p0 q Hp0 Hold); congruence.
    - congruence.
    - destruct (decide (id1 = id2)) as [|Hne]; [done|]. exfalso. apply (Ho id1 p0 Hp0 Hne). rewrite <- Hpt, Heq, Eq. done.
    - by apply (ok_unique _ _ Hok _ _ p0 r Hp0 Hold); congruence. }
  intros Hp Hq Heq Hn.
  destruct (rows_change_new _ _ _ _ _ (answers_rows _ _ _ _ Ha) Hp)
    as [Hold|[(_ & Hz & _)|[(t & r & Hc & Hold & _ & Ep & Ho)|(how & r & _ & Hold & _ & Ht & _)]]].
  - apply (Hone id1 id2 p q); eauto.
  - done.
  - destruct (rows_change_new _ _ _ _ _ (answers_rows _ _ _ _ Ha) Hq)
      as [Hold2|[(_ & Hz & _)|[(t2 & r2 & Hc2 & _)|(how & r2 & Hc2 & _)]]]; [|congruence| |congruence].
    + symmetry. apply (Hone id2 id1 q p); [done..|congruence|eauto].
    + rewrite Hc in Hc2. by injection Hc2.
  - apply (Hone id1 id2 p q); eauto.
Qed.

Lemma paid_after id row : payments b' !! id = Some row → State row = PaymentPaid → Pm_Kind row ≠ PaymentGrant → was_paid ts' row.
Proof.
  intros Hr Hs Hk.
  destruct (rows_change_new _ _ _ _ _ (answers_rows _ _ _ _ Ha) Hr)
    as [Hold|[(_ & _ & _ & [Hp|Hg])|[(t & r & Hc & _ & Hp & -> & _)|(how & r & Hc & Hold & Hm & Ht & Hid & Hpaid)]]].
  - eapply was_paid_more; [exact Hi|]. by apply (ok_paid _ _ Hok id).
  - congruence.
  - done.
  - cbn in Hs. congruence.
  - pose proof call_careful as Hca. rewrite Hc in Hca. destruct (Hca (Hpaid Hs)) as (pm & tx & Hpm & (Hkn & Hnz & Hsaid) & Htx & Hfull).
    destruct (ok_known _ _ Hok i _ pm Hi Hkn) as (r' & Hr' & Hm' & Ht'). rewrite Hpm, Hold in Hr'. injection Hr' as <-.
    assert (TransactionID pm ≠ 0) as Hnz' by (destruct Hnz as [|Hnz]; [done|by apply (ok_made _ _ Hok i _ _ Hi)]).
    specialize (Ht' Hnz'). split; [congruence|]. exists i, t', tx. split_and!; [exact thread_itself| |done|].
    + rewrite Ht, Ht'. cbn [seen]. by apply of_run_in.
    + rewrite <- Hfull. symmetry. apply same_money_paid. by eapply same_money_trans.
Qed.

Lemma call_ok : world_ok (payments b') ts'.
Proof.
  split; eauto using ids_after, once_after, known_after, created_after, made_after, tied_after, unique_after, paid_after.
  - intros j t Hj. destruct (thread_after j t Hj) as [(-> & ->)|Hold]; [|by eapply ok_careful].
    exact (proj2 (ok_careful _ _ Hok i _ Hi) x).
  - intros j t Hj. destruct (thread_after j t Hj) as [(-> & ->)|Hold]; [exact call_balanced|by eapply ok_balanced].
Qed.
End one_call.

Lemma start_ok m ts on rid en : world_ok m ts →
  world_ok m (ts ++ [{| seen := []; left_ := program VATBP SpaceID PublicURL on rid en |}]).
Proof.
  intros Hok. set (t' := {| seen := []; left_ := _ |}).
  assert (∀ j t, (ts ++ [t']) !! j = Some t → ts !! j = Some t ∨ t = t') as Hin.
  { intros j t. rewrite lookup_app_Some. intros [|(_ & Hj)]; [by left|]. right. by apply list_lookup_singleton_Some in Hj as (_ & <-). }
  assert (∀ f : list (event (R := answer T)) → nat, f [] = 0%nat → total_of f (ts ++ [t']) = total_of f ts) as Htot.
  { intros f Hf. unfold total_of. rewrite sum_list_with_app. cbn. rewrite Hf. lia. }
  split.
  - apply (ok_ids _ _ Hok).
  - intros j t [Hj| ->]%Hin; [by eapply ok_careful|]. apply program_careful.
  - intros j t [Hj| ->]%Hin; [by eapply ok_balanced|]. intros id. cbn. lia.
  - intros id. rewrite Htot by done. apply (ok_once _ _ Hok).
  - intros j t pm [Hj| ->]%Hin Hk; [by eapply ok_known|]. exfalso. destruct Hk as [Hk|(? & Hk & _)]; by apply elem_of_nil in Hk.
  - intros j t p [Hj| ->]%Hin Hp; [by eapply ok_created|]. by apply elem_of_nil in Hp.
  - intros j t y [Hj| ->]%Hin Hy; [by eapply ok_made|]. by apply elem_of_nil in Hy.
  - intros id row Hr Hn. rewrite Htot by done. by eapply ok_tied.
  - apply (ok_unique _ _ Hok).
  - intros id row Hr Hs Hk. destruct (ok_paid _ _ Hok id row Hr Hs Hk) as (Hn & j & t & tx & Hj & Hrest). split; [done|].
    exists j, t, tx. split; [|done]. by apply lookup_app_l_Some.
Qed.

Lemma reachable_ok w : reachable w → world_ok (payments (w_bank w)) (w_threads w).
Proof.
  induction 1 as [b Hb|w w' Hw IH Hstep].
  - cbn. rewrite Hb. split; try done; intros; cbn; lia.
  - destruct Hstep as [w on rid en|w i h c k x b' Hi Ha|w events]; cbn [w_bank w_threads].
    + by apply start_ok.
    + by eapply call_ok.
    + cbn [bank_step]. destruct (queueCredit (w_bank w) events) as [b2|] eqn:Eq; [|done]. change (default _ (Some b2)) with b2.
      by rewrite (proj1 (queueCredit_balance _ _ _ Eq)).
Qed.

(** C2: everything that counts as paid was paid: over any interleaving of requests, webhooks and payment rounds on any number of replicas, with replicas dying and answers lost at any point, each payment the database has as paid (and that is no grant) is tied to a PostFinance transaction which PostFinance itself reported, over its authenticated API, as fulfilled in francs and for exactly the payment's amount, VAT and fee; and no other payment is tied to that transaction, so a transaction pays once. *)
Theorem paid_was_paid w id row :
  reachable w → payments (w_bank w) !! id = Some row → State row = PaymentPaid → Pm_Kind row ≠ PaymentGrant →
  was_paid (w_threads w) row ∧
  ∀ id' row', payments (w_bank w) !! id' = Some row' → TransactionID row' = TransactionID row → id' = id.
Proof.
  intros Hw Hr Hs Hk. pose proof (reachable_ok w Hw) as Hok. pose proof (ok_paid _ _ Hok id row Hr Hs Hk) as Hpaid.
  split; [done|]. intros id' row' Hr' Ht. destruct Hpaid as (Hn & _). apply (ok_unique _ _ Hok _ _ row' row Hr' Hr); congruence.
Qed.
End world.

(** *** Witness: a top-up, and the webhook that settles it *)

Section played.
Context `{Num T} `{FloatText T} `{Intervals}.
Context (VATBP SpaceID : Z) (PublicURL : string).

(** Answers in a row. *)
Fixpoint plays (b : bank) (tr : list (event (R := answer T))) (b' : bank) : Prop :=
  match tr with
  | [] => b' = b
  | existT c x :: tr => ∃ b1, answers b c x b1 ∧ plays b1 tr b'
  end.

Lemma reachable_played w i h (p p' : prog (answer T) unit) tr b' :
  reachable VATBP SpaceID PublicURL w → w_threads w !! i = Some {| seen := h; left_ := p |} →
  steps p tr p' → plays (w_bank w) tr b' →
  reachable VATBP SpaceID PublicURL {| w_bank := b'; w_threads := <[i := {| seen := h ++ tr; left_ := p' |}]> (w_threads w) |}.
Proof.
  intros Hw Hi Hs. revert w h Hw Hi. induction Hs as [p|c k x tr p Hs IH]; intros w h Hw Hi Hp.
  - cbn in Hp. subst b'. rewrite app_nil_r, list_insert_id by done. by destruct w.
  - destruct Hp as (b1 & Hb1 & Hp).
    assert (reachable VATBP SpaceID PublicURL {| w_bank := b1; w_threads := <[i := {| seen := h ++ [answered c x]; left_ := k x |}]> (w_threads w) |}) as Hw1
      by (eapply r_step; [exact Hw|by eapply w_call]).
    specialize (IH _ (h ++ [answered c x]) Hw1). cbn [w_bank w_threads] in IH. rewrite list_insert_insert_eq, <- app_assoc in IH. cbn [app] in IH.
    apply IH; [|done]. apply list_lookup_insert_eq. by apply lookup_lt_Some in Hi.
Qed.

Lemma plays_run {A} (env : bank → ∀ c, bank * answer T c) (p : prog (answer T) A) b b' a tr :
  (∀ b c b' x, env b c = (b', x) → answers b c x b') → run env b p = (b', a, tr) → plays b tr b'.
Proof.
  intros Henv. revert b tr. induction p as [r|c k IH]; intros b tr; cbn [run].
  - by intros [= <- _ <-].
  - destruct (env b c) as [b1 x] eqn:Ee. destruct (run env b1 (k x)) as [[b2 y] tr2] eqn:Er. intros [= <- <- <-].
    exists b1. split; [by apply Henv|by apply (IH x)].
Qed.
End played.

Section sample.
#[local] Existing Instance sample_figures.
#[local] Existing Instance sample_intervals.

Definition sample_env (b : bank) (c : call) : bank * answer Q c :=
  match db_exec 0 b c with
  | Some r => r
  | None =>
      (b, match c as c return answer Q c with
          | Db_PaymentByTransaction t =>
              match payments b !! "pay_1" with
              | Some p => if (TransactionID p =? t) && bool_decide (Pm_ID p = "pay_1") then inr p else inl ErrNotFound
              | None => inl ErrNotFound
              end
          | Pf_Create _ => inr (sample_tx "PENDING")
          | Pf_Get _ => inr (sample_tx "FULFILL")
          | Pf_PaymentPageURL _ => inr "https://checkout.postfinance.ch/pay/77"
          | Time_Now => 0
          | New_ID _ => "pay_1"
          | Db_CreatePayment _ | Db_SetTransaction _ _ => Some ErrDatabase
          | Db_Settle _ _ | Db_Grant _ | Db_Payment _ | Db_UpdateCredit _ _ _ _ | Db_CreditAccount _ | Db_ForgetCard _
          | Db_CreateCharge _ _ | Db_DeleteCharge _ | Db_Charge _ | Db_ListPayments _ _ _ | Db_PendingPaymentsOf _ _ _
          | Db_PendingPayments _ _ _ | Db_ListCharges _ | Db_DueTopUps _ | Db_DueCharges _ | Db_OrgName _ => inl ErrDatabase
          | Db_TakeTurn _ _ => false
          | Pf_Charge _ | Pf_InvoiceDocument _ | Pf_Card _ => inl (Unanswered "")
          | Pf_DeleteToken _ => None
          | Db_Audit _ _ _ _ _ | Reg_RefreshCredit | Announce _ => tt
          end)
  end.

Lemma sample_env_ok b c b' x : sample_env b c = (b', x) → answers b c x b'.
Proof.
  unfold sample_env. destruct (db_exec 0 b c) as [[b2 y]|] eqn:He; intros [= <- <-]; [by apply (done_ _ 0)|].
  assert (lost (T := Q) c = None) as Hl by (destruct c; cbn in He; try done; by repeat case_match).
  apply no_write; [exact Hl|..]; destruct c; cbn; try (intros ? Hx; by apply elem_of_nil in Hx); try discriminate Hl.
  - destruct (payments b !! "pay_1") as [p|] eqn:Hp; [|intros ? Hx; by apply elem_of_nil in Hx].
    destruct (_ =? _); [|intros ? Hx; by apply elem_of_nil in Hx]. cbn. case_bool_decide as Hi; [|intros ? Hx; by apply elem_of_nil in Hx].
    intros q Hq. apply list_elem_of_singleton in Hq as ->. by rewrite Hi.
  - intros y Hy. apply list_elem_of_singleton in Hy as ->. done.
Qed.

Definition empty_bank : bank := {| orgs := {[ "org_1" := true ]}; accounts := ∅; payments := ∅; charges := ∅ |}.

Definition top_up : prog (answer Q) unit := program 810 5 "" true "r" (Post_topup sample_admin "" (inr (20000000, false))).
Definition webhook : prog (answer Q) unit := program 810 5 "" true "r" (Webhook (Some (77, "Transaction", 5))).

Definition after_top_up : bank * unit * list (event (R := answer Q)) := run sample_env empty_bank top_up.
Definition after_webhook : bank * unit * list (event (R := answer Q)) := run sample_env after_top_up.1.1 webhook.

Lemma sample_reachable : reachable 810 5 "" {| w_bank := after_webhook.1.1;
  w_threads := [{| seen := after_top_up.2; left_ := Ret after_top_up.1.2 |}; {| seen := after_webhook.2; left_ := Ret after_webhook.1.2 |}] |}.
Proof.
  assert (reachable 810 5 "" {| w_bank := empty_bank; w_threads := [{| seen := []; left_ := top_up |}; {| seen := []; left_ := webhook |}] |}) as H0.
  { eapply r_step; [eapply r_step; [apply (r_start _ _ _ empty_bank); reflexivity|]|].
    - apply (w_start 810 5 "" {| w_bank := empty_bank; w_threads := [] |} true "r" (Post_topup sample_admin "" (inr (20000000, false)))).
    - apply (w_start 810 5 "" {| w_bank := empty_bank; w_threads := [{| seen := []; left_ := top_up |}] |} true "r"
        (Webhook (Some (77, "Transaction", 5)))). }
  destruct after_top_up as [[b1 []] tr1] eqn:E1. destruct after_webhook as [[b2 []] tr2] eqn:E2. cbn [fst snd].
  unfold after_webhook in E2. rewrite E1 in E2. cbn [fst] in E2.
  pose proof (reachable_played 810 5 "" _ 0 [] top_up (Ret tt) tr1 b1 H0 eq_refl (run_steps _ _ _ _ _ _ E1)
    (plays_run _ _ _ _ _ _ sample_env_ok E1)) as H1.
  exact (reachable_played 810 5 "" _ 1 [] webhook (Ret tt) tr2 b2 H1 eq_refl (run_steps _ _ _ _ _ _ E2) (plays_run _ _ _ _ _ _ sample_env_ok E2)).
Qed.

Lemma paid_was_paid_witness :
  balance_of after_webhook.1.1 "org_1" = 20000000 ∧
  ∃ row, payments after_webhook.1.1 !! "pay_1" = Some row ∧ TransactionID row = 77 ∧
    was_paid [{| seen := after_top_up.2; left_ := Ret after_top_up.1.2 |}; {| seen := after_webhook.2; left_ := Ret after_webhook.1.2 |}] row.
Proof.
  split; [vm_compute; reflexivity|].
  assert (match payments after_webhook.1.1 !! "pay_1" with
          | Some row => TransactionID row = 77 ∧ State row = PaymentPaid ∧ Pm_Kind row ≠ PaymentGrant
          | None => False end) as Hrow by (vm_compute; split_and!; [reflexivity|reflexivity|discriminate]).
  destruct (payments after_webhook.1.1 !! "pay_1") as [row|] eqn:Hr; [|destruct Hrow]. destruct Hrow as (Ht & Hs & Hk).
  exists row. split; [reflexivity|]. split; [exact Ht|].
  exact (proj1 (paid_was_paid 810 5 "" _ "pay_1" row sample_reachable Hr Hs Hk)).
Defined.
End sample.
