(* ===== verification/Call.v ===== *)
(** * One request on its way

    The state [internal/gateway/serve.go] threads through a request: the
    [call], the usage row, and what the server keeps. A handler of the source,
    which answers the client itself when the request is over, is a function
    on the two states that ends with an answer or goes on with a value. *)
From S2P Require Import Prelude GoTime Num Tenancy Pricing Guardrails Text Filters Routers RouterCheck.
From S2P Require Import Replies Guard Routing FilterChain Limiter Budgets Messages.
Open Scope go_scope.

(** ** The usage row *)

(** [store.Event], without identities, times and the trace. *)
Record Event := {
  ev_OrgID : string;
  ev_Alias : string;
  ev_Used : Tokens;
  ev_CostMicros : Z;
  ev_ListCostMicros : Z;
  ev_Status : Z;
  ev_Stream : bool;
  ev_Estimated : bool;
  ev_Canceled : bool;
  ev_Error : string;
  ev_Note : string;
  ev_FilterRuns : list FilterRun;
  ev_Router : string;
  ev_RouterOutcome : string;
  ev_Scopes : list Scope;
  ev_Bills : list BillLine;
  ev_BillsOnly : bool;
}.

#[export] Instance Event_updatable : Updatable Event := λ e,
  {| ev_OrgID := ev_OrgID e; ev_Alias := ev_Alias e; ev_Used := ev_Used e;
     ev_CostMicros := ev_CostMicros e; ev_ListCostMicros := ev_ListCostMicros e;
     ev_Status := ev_Status e; ev_Stream := ev_Stream e; ev_Estimated := ev_Estimated e;
     ev_Canceled := ev_Canceled e; ev_Error := ev_Error e; ev_Note := ev_Note e;
     ev_FilterRuns := ev_FilterRuns e; ev_Router := ev_Router e;
     ev_RouterOutcome := ev_RouterOutcome e; ev_Scopes := ev_Scopes e; ev_Bills := ev_Bills e;
     ev_BillsOnly := ev_BillsOnly e |}.

Definition Event_zero : Event :=
  {| ev_OrgID := ""; ev_Alias := ""; ev_Used := Tokens_zero; ev_CostMicros := 0;
     ev_ListCostMicros := 0; ev_Status := 0; ev_Stream := false; ev_Estimated := false;
     ev_Canceled := false; ev_Error := ""; ev_Note := ""; ev_FilterRuns := []; ev_Router := "";
     ev_RouterOutcome := ""; ev_Scopes := []; ev_Bills := []; ev_BillsOnly := false |}.

(** ** Bodies *)

(** What the handlers ask of a request's JSON body: the methods of
    [internal/gateway/body.go] and [text.go]. *)
Class Bodies (T Body : Type) := {
  b_str : Body → string → option string;
  b_boolean : Body → string → option bool;
  b_ceiling : Body → string → option T;
  b_setString : Body → string → string → Body;
  b_remove : Body → string → bool * Body;
  b_value : Body → string → bool;
  b_size : Body → Z;
  b_encode : Body → string;
  extractText : Body → string → string + list string;
  applyText : Body → string → list string → string + Body;
  prependSystem : Body → string → option Body;
  ensureUsageInStream : Body → bool * Body;
}.

(** [dialect]: a client API that one provider serves as its own, with the
    shape's translation of it. *)
Record dialect (Body : Type) := {
  d_provider : string;
  d_text : Body → string + list string;
  d_apply : Body → list string → string + Body;
  d_addSystem : Body → string → string + Body;
  d_needsNative : Body → string;
  d_onKey : Body → string * Body;
  d_stripHostedTools : Body → list string * Body;
  d_decodeBody : Body → string + Body;
}.
Arguments d_provider {_}. Arguments d_text {_}. Arguments d_apply {_}. Arguments d_addSystem {_}.
Arguments d_needsNative {_}. Arguments d_onKey {_}. Arguments d_stripHostedTools {_}.
Arguments d_decodeBody {_}.

(** ** The call *)

(** [hookSpend], without the time. *)
Record hookSpend := { hs_micros : Z; hs_bills : list BillLine }.

Record call (Body : Type) := {
  c_res : Resolved;
  (** Of the surface: the kind of its models, and its dialect. *)
  c_kind : string;
  c_dialect : option (dialect Body);
  (** The request's headers, and whether it carries a Claude sign-in. *)
  c_header : string → list string;
  c_signIn : bool;
  (** When the trace started, and when the limits were checked. *)
  c_start : Z;
  c_now : Z;
  c_ev : Event;
  c_alias : string;
  c_model : Model;
  c_route : Route;
  c_router : Router;
  c_scopes : list Scope;
  c_prompts : list string;
  c_decision : routeDecision;
  c_earlier : hookSpend;
  c_filters : filterRun;
  c_chain : list Model;
  c_native : option Body;
  c_translated : bool;
  c_stream : bool;
  c_received : Z;
  c_held : Z;
  c_counted : Tokens;
}.

Arguments c_res {_}. Arguments c_kind {_}. Arguments c_dialect {_}. Arguments c_header {_}.
Arguments c_signIn {_}. Arguments c_start {_}. Arguments c_now {_}. Arguments c_ev {_}.
Arguments c_alias {_}. Arguments c_model {_}. Arguments c_route {_}. Arguments c_router {_}.
Arguments c_scopes {_}. Arguments c_prompts {_}. Arguments c_decision {_}. Arguments c_earlier {_}.
Arguments c_filters {_}. Arguments c_chain {_}. Arguments c_native {_}. Arguments c_translated {_}.
Arguments c_stream {_}. Arguments c_received {_}. Arguments c_held {_}. Arguments c_counted {_}.

#[export] Instance call_updatable Body : Updatable (call Body) := λ c,
  {| c_res := c_res c; c_kind := c_kind c; c_dialect := c_dialect c; c_header := c_header c;
     c_signIn := c_signIn c; c_start := c_start c; c_now := c_now c; c_ev := c_ev c;
     c_alias := c_alias c; c_model := c_model c; c_route := c_route c; c_router := c_router c;
     c_scopes := c_scopes c; c_prompts := c_prompts c; c_decision := c_decision c;
     c_earlier := c_earlier c; c_filters := c_filters c; c_chain := c_chain c;
     c_native := c_native c; c_translated := c_translated c; c_stream := c_stream c;
     c_received := c_received c; c_held := c_held c; c_counted := c_counted c |}.

Section call.
Context {Body : Type}.
Implicit Type c : call Body.

(** [call.sent]; [None] is a nil body. *)
Definition sent c (b : option Body) : option Body :=
  match b with Some _ => b | None => c_native c end.

Definition hookMicros c : Z :=
  (fr_micros (c_filters c) ⊕ d_micros (c_decision c)) ⊕ hs_micros (c_earlier c).

Definition hookBills c : list BillLine :=
  fr_bills (c_filters c) ++ d_bills (c_decision c) ++ hs_bills (c_earlier c).

Definition viaRouter c : bool := negb (bool_decide (Ro_Alias (c_router c) = "")).

Definition systemPrompt c : string := foldl JoinPrompts (R_SystemPrompt (c_res c)) (c_prompts c).

(** [call.chainOnKey]. *)
Definition chainOnKey c : bool := existsb PlatformKey (c_chain c).

(** [call.sendsNative]. *)
Definition sendsNative c (m : Model) : bool :=
  match c_native c, c_dialect c with
  | Some _, Some d => bool_decide (Provider m = d_provider d)
  | _, _ => false
  end.
End call.

(** ** Handlers *)

(** When a handler reads the clock, and whether the request's context is done
    when it asks; the reads are numbered. *)
Class Clock := { now_at : nat → Z; context_done : nat → bool }.

(** How a request ended: with a refusal, with the client gone, or answered. *)
Inductive ended := Refused (ref : refusal) | HungUp | AnsweredWith (status : Z).

Section server.
Context (B L : Type) `{Regexp} `{Countable Digest}.

Record Server := {
  sv_budgets : B;
  sv_limiter : L;
  sv_filters : FilterState (Digest := Digest);
  sv_loads : loads;
  sv_rows : list Event;
  sv_reads : nat;
}.

#[export] Instance Server_updatable : Updatable Server := λ s,
  {| sv_budgets := sv_budgets s; sv_limiter := sv_limiter s; sv_filters := sv_filters s;
     sv_loads := sv_loads s; sv_rows := sv_rows s; sv_reads := sv_reads s |}.
End server.

Arguments Server B L {_} Digest {_ _}.
Arguments sv_budgets {_ _ _ _ _ _}. Arguments sv_limiter {_ _ _ _ _ _}.
Arguments sv_filters {_ _ _ _ _ _}. Arguments sv_loads {_ _ _ _ _ _}.
Arguments sv_rows {_ _ _ _ _ _}. Arguments sv_reads {_ _ _ _ _ _}.

Section handlers.
Context {Body B L : Type} `{Regexp} `{Countable Digest}.
Abbreviation state := (call Body * Server B L Digest)%type.

Definition handler (A : Type) : Type := state → (ended + A) * state.

#[export] Instance handler_ret : MRet handler := λ A x st, (inr x, st).

#[export] Instance handler_bind : MBind handler := λ A A' k m st,
  match m st with
  | (inl e, st) => (inl e, st)
  | (inr x, st) => k x st
  end.

Definition the_call : handler (call Body) := λ st, (inr st.1, st).
Definition the_server : handler (Server B L Digest) := λ st, (inr st.2, st).
Definition set_call (f : call Body → call Body) : handler unit := λ st, (inr tt, (f st.1, st.2)).
Definition set_server (f : Server B L Digest → Server B L Digest) : handler unit :=
  λ st, (inr tt, (st.1, f st.2)).
Definition over {A} (e : ended) : handler A := λ st, (inl e, st).

(** [time.Now()]. *)
Definition time_Now `{Clock} : handler Z := λ '(c, s),
  (inr (now_at (sv_reads s)), (c, s <| sv_reads := S (sv_reads s) |>)).

(** [c.r.Context().Err() != nil]: a context done during a call to a model
    stays done. *)
Definition context_Err `{Wire} `{Clock} : handler bool := λ '(c, s),
  (inr (gone (fs_world (sv_filters s)) || context_done (sv_reads s)),
   (c, s <| sv_reads := S (sv_reads s) |>)).

Definition edit_ev (f : Event → Event) (c : call Body) : call Body := c <| c_ev := f (c_ev c) |>.

(** Where a handler's own effects are on the budgeter only. *)
Definition on_budgets (f : B → B) : handler unit :=
  set_server (λ s, s <| sv_budgets := f (sv_budgets s) |>).
End handlers.
Arguments handler : clear implicits.

(** ** Reasoning about handlers *)

Section hoare.
Context {Body B L : Type} `{Regexp} `{Countable Digest}.
Abbreviation state := (call Body * Server B L Digest)%type.
Abbreviation M := (handler Body B L _ Digest _ _).
Context (C : state → Prop).

(** From a state of [P], the handler goes on in a state of [Q], or is over in
    a state of [C]. *)
Definition hoare {A} (P : state → Prop) (m : M A) (Q : A → state → Prop) : Prop :=
  ∀ st, P st → match m st with (inr x, st') => Q x st' | (inl _, st') => C st' end.

Implicit Types (P : state → Prop).

Lemma hoare_conseq {A} P P' (m : M A) (Q Q' : A → state → Prop) :
  hoare P' m Q' → (∀ st, P st → P' st) → (∀ x st, Q' x st → Q x st) → hoare P m Q.
Proof.
  intros Hm HP HQ st Hst. specialize (Hm st (HP st Hst)).
  destruct (m st) as [[e|x] st']; auto.
Qed.

Lemma hoare_ret {A} P (x : A) (Q : A → state → Prop) : (∀ st, P st → Q x st) → hoare P (mret x) Q.
Proof. intros HQ st Hst. by apply HQ. Qed.

Lemma hoare_bind {A A'} P (m : M A) (R : A → state → Prop) (k : A → M A') Q :
  hoare P m R → (∀ x, hoare (R x) (k x) Q) → hoare P (m ≫= k) Q.
Proof.
  intros Hm Hk st Hst. specialize (Hm st Hst). unfold mbind, handler_bind.
  destruct (m st) as [[e|x] st']; [done|]. by apply Hk.
Qed.

Lemma hoare_call {A} P (k : call Body → M A) Q :
  (∀ c, hoare (λ st, st.1 = c ∧ P st) (k c) Q) → hoare P (the_call ≫= k) Q.
Proof. intros Hk [c s] Hst. unfold mbind, handler_bind, the_call. by apply Hk. Qed.

Lemma hoare_server {A} P (k : Server B L Digest → M A) Q :
  (∀ s, hoare (λ st, st.2 = s ∧ P st) (k s) Q) → hoare P (the_server ≫= k) Q.
Proof. intros Hk [c s] Hst. unfold mbind, handler_bind, the_server. by apply Hk. Qed.

Lemma hoare_set_call P f Q : (∀ c s, P (c, s) → Q (f c, s)) → hoare P (set_call f) (λ _, Q).
Proof. intros HQ [c s] Hst. by apply HQ. Qed.

Lemma hoare_set_server P f Q : (∀ c s, P (c, s) → Q (c, f s)) → hoare P (set_server f) (λ _, Q).
Proof. intros HQ [c s] Hst. by apply HQ. Qed.

Lemma hoare_over {A} P e (Q : A → state → Prop) : (∀ st, P st → C st) → hoare P (over e) Q.
Proof. intros HC st Hst. by apply HC. Qed.

Lemma hoare_if {A} P (b : bool) (m1 m2 : M A) Q :
  (b = true → hoare P m1 Q) → (b = false → hoare P m2 Q) → hoare P (if b then m1 else m2) Q.
Proof. destruct b; auto. Qed.

Lemma hoare_pure {A} P (R : Prop) (m : M A) Q :
  (R → hoare P m Q) → hoare (λ st, R ∧ P st) m Q.
Proof. intros Hm st [HR Hst]. by apply Hm. Qed.
End hoare.
