(* ===== verification/Admission.v ===== *)
(** * Admission

    Whether a request may run at all: the rate limits and quotas of
    [internal/gateway/refuse.go], the locations of [location.go], the credit
    of [credit.go], and [admit_] of [serve.go], with how a refused request is
    answered and recorded. *)
From S2P Require Import Prelude GoTime Num Tenancy Pricing Guardrails Text Filters Routers RouterCheck.
From S2P Require Import Replies Guard Routing FilterChain Limiter Budgets Messages Call.
Open Scope go_scope.

(** ** Buckets *)

Definition bucketKey (sc : Scope) (limit : string) : string :=
  SType sc +:+ ":" +:+ SID sc +:+ "|" +:+ limit.

Definition tpmBucket (sc : Scope) : Requirement :=
  {| Req_Key := bucketKey sc "tpm"; Req_PerMinute := TPM sc; Req_Take := false |}.

Definition rateMessage (sc : Scope) (limit : Z) (unit : string) : string :=
  ScopeType_Possessive (SType sc) +:+ " is over its rate limit of " +:+ pretty limit +:+ " " +:+
  unit +:+ " per minute".

(** The requirements of [checkRates], and what each of them checks. *)
Record check := { ck_scope : Scope; ck_limit : Z; ck_unit : string; ck_code : string }.

Definition rate_reqs (scopes : list Scope) : list (Requirement * check) :=
  scopes ≫= λ sc,
    [({| Req_Key := bucketKey sc "rpm"; Req_PerMinute := RPM sc; Req_Take := true |},
      {| ck_scope := sc; ck_limit := RPM sc; ck_unit := "requests";
         ck_code := "rate_limit_exceeded" |});
     (tpmBucket sc,
      {| ck_scope := sc; ck_limit := TPM sc; ck_unit := "tokens";
         ck_code := "token_rate_limit_exceeded" |})].

(** [strings.TrimSuffix]. *)
Definition TrimSuffix (s suffix : string) : string :=
  if has_prefix (str_rev s) (str_rev suffix)
  then String.substring 0 (String.length s - String.length suffix) s else s.

Definition quota_refusal (sc : Scope) (now : Z) : refusal :=
  let resets := Period_Next (SPeriod sc) now in
  let unit := if Quota sc =? 1 then TrimSuffix (SMeter sc) "s" else SMeter sc in
  {| R_status := 429; R_typ := "rate_limit_error"; R_code := SMeter sc +:+ "_quota_exceeded";
     R_msg := ScopeType_Possessive (SType sc) +:+ " is over its limit of " +:+ pretty (Quota sc) +:+
       " " +:+ unit +:+ " per " +:+ SPeriod sc +:+ ". It resets on " +:+ format_date_at resets +:+
       " (UTC)";
     R_advise := true; R_retry := time_sub resets now |}.

(** [tightest]; [left_of] says how much a scope has left, if it sets the limit,
    and [st] is what asking changes. *)
Definition tightest {S} (left_of : Scope → S → option Z * S) (scopes : list Scope) (st : S)
    : option (Scope * Z) * S :=
  foldl (λ '(best, st) sc,
    let '(n, st) := left_of sc st in
    match n with
    | Some n =>
        (match best with
         | Some (_, least) => if n <? least then Some (sc, n) else best
         | None => Some (sc, n)
         end, st)
    | None => (best, st)
    end) (None, st) scopes.

(** ** Locations *)

(** [locationRefusal]. *)
Definition locationRefusal (msg : string) : refusal :=
  {| R_status := 403; R_typ := "permission_error"; R_code := "location_not_allowed"; R_msg := msg;
     R_advise := true; R_retry := 0 |}.

Section locations.
Context `{Source}.

(** What [filterOutside] says of one filter: [""] when it stays inside. *)
Definition outside (res : Resolved) (allowed : list string) (alias : string) : string :=
  match src_Filter (Key_OrgID (R_Key res)) alias with
  | None => ""
  | Some f =>
      if negb (Filter_UsesModel f) then ""
      else
        let m := src_Model (Key_OrgID (R_Key res)) (F_Model f) in
        if match m with Some m => AllowsLocation res (Location m) | None => false end then ""
        else
          let site :=
            match m with
            | Some m => if bool_decide (Location m = "") then "an unknown location"
                        else "'" +:+ Location m +:+ "'"
            | None => "an unknown location"
            end in
          "the filter '" +:+ alias +:+ "' runs on the model '" +:+ F_Model f +:+ "', in " +:+
          site +:+ ", but this key's guardrails allow only models in " +:+
          join ", " allowed +:+ ". An administrator can point the " +:+
          "filter at a model inside them"
  end.

(** [Server.filterOutside]. *)
Definition filterOutside (res : Resolved) (filters : list string) : string :=
  match R_AllowedLocations res with
  | None => ""
  | Some allowed => first_problem (outside res allowed) filters
  end.

(** ** Credit *)

(** [Server.billedModel]. *)
Definition billedModel (org alias : string) : option Model :=
  if bool_decide (alias = "") then None
  else match src_Model org alias with
  | Some m => if bool_decide (is_Some (Model_Billing m)) then Some m else None
  | None => None
  end.

(** [Server.billedFilterModels]. *)
Definition billedFilterModels (org : string) (filters : list string) : list Model :=
  omap (λ alias,
    match src_Filter org alias with
    | Some f => if Filter_UsesModel f then billedModel org (F_Model f) else None
    | None => None
    end) filters.

Definition filtersBilled (org : string) (filters : list string) : bool :=
  negb (bool_decide (billedFilterModels org filters = [])).

Context {Body : Type}.
Implicit Type c : call Body.

Definition orgID c : string := Key_OrgID (R_Key (c_res c)).

(** [Server.billedAnswerers]. *)
Definition billedAnswerers c : list Model :=
  if negb (viaRouter c) then
    if bool_decide (is_Some (Model_Billing (c_model c))) then [c_model c] else []
  else omap (billedModel (orgID c)) (Reaches (c_router c)).

(** [Server.billedDeciders]. *)
Definition billedDeciders c : list Model :=
  omap (λ rt, if Route_Decides rt then billedModel (orgID c) (Rt_Model rt) else None)
    (Routes (c_router c)).

(** [Server.callFilters]. *)
Definition callFilters c : list string :=
  omap (λ st, if bool_decide (St_Kind st = StepFilter) then Some (St_Ref st) else None)
    (Steps (c_router c)) ++ R_Filters (c_res c).

(** [Server.billed]. *)
Definition billed c : bool :=
  negb (bool_decide (billedDeciders c = [])) || negb (bool_decide (billedAnswerers c = [])) ||
  filtersBilled (orgID c) (callFilters c).

Definition unstatedOutputTokens : Z := 64000.
Definition mostOutputTokens : Z := 10000000.

Context `{Num T} `{!Bodies T Body}.

(** [outputCeiling]; [None] is a nil body. *)
Definition outputCeiling (b : option Body) : Z :=
  let asked :=
    match b with
    | Some b =>
        foldl (λ asked field,
          match b_ceiling b field with
          | Some v =>
              if num_ltb (of_Z 0) v
              then Z.max asked (num_trunc (num_min v (of_Z mostOutputTokens))) else asked
          | None => asked
          end) 0 ["max_tokens"; "max_completion_tokens"; "max_output_tokens"]
    | None => 0
    end in
  if asked =? 0 then unstatedOutputTokens else asked.

(** [call.outputTokens]. *)
Definition outputTokens c (b : option Body) : Z :=
  if bool_decide (c_kind c = KindEmbedding) || bool_decide (c_kind c = KindRerank) then 0
  else outputCeiling b.

Definition credit_of_bill (m : Model) (t : Tokens) : option Z := CreditMicros <$> Bill m t t.

(** [Server.filtersHold]. *)
Definition filtersHold (org : string) (filters : list string) (tokens_in : Z) : Z :=
  let rewrite := {| Input := tokens_in; CachedInput := 0; CacheWrite := 0; CacheWriteHour := 0;
                    Output := tokens_in |} in
  foldl (λ most m, match credit_of_bill m rewrite with Some n => most ⊕ n | None => most end)
    0 (billedFilterModels org filters).

(** [Server.creditHold]. *)
Definition creditHold c (b : option Body) : Z :=
  let t := mostTokens (c_received c) (outputTokens c b) in
  let most := foldl (λ most m,
    match credit_of_bill m t with Some n => Z.max most n | None => most end) 0 (billedAnswerers c) in
  let decision := {| Input := Input t; CachedInput := 0; CacheWrite := 0; CacheWriteHour := 0;
                     Output := routeOutputTokens |} in
  let most := foldl (λ most m,
    match credit_of_bill m decision with Some n => most ⊕ (2 ⊗ n) | None => most end)
    most (billedDeciders c) in
  most ⊕ filtersHold (orgID c) (callFilters c) (Input t).
End locations.

(** ** The handlers *)

Section admission.
Context `{Num T} `{FloatText T} `{Source} `{Wire} `{Clock} `{Regexp} `{Countable Digest}.
Context `{Budgeter B} `{!RateLimiter T L} `{!Bodies T Body}.
Abbreviation M := (handler Body B L _ Digest _ _).

(** What is left of each scope's budget, and of its requests per minute. *)
Definition budget_left (b : B) (now : Z) (sc : Scope) (st : unit) : option Z * unit :=
  if BudgetMicros sc <=? 0 then (None, st)
  else (Some (Z.max (BudgetMicros sc ⊖ bg_Spent b (SType sc) (SID sc) (SPeriod sc) now) 0), st).

Definition requests_left (now : Z) (sc : Scope) (l : L) : option Z * L :=
  if RPM sc <=? 0 then (None, l)
  else let '(n, l) := rl_Remaining (T := T) l (bucketKey sc "rpm") (RPM sc) now in (Some n, l).

(** [Server.budgetHeaders]. *)
Definition budgetHeaders (b : B) (res : Resolved) (now : Z) : list (string * string) :=
  match (tightest (budget_left b now) (Scopes res) tt).1 with
  | None => []
  | Some (sc, n) =>
      [("X-Keera-Budget-Scope", SType sc);
       ("X-Keera-Budget-Limit", FormatMicros (T := T) (BudgetMicros sc));
       ("X-Keera-Budget-Remaining", FormatMicros (T := T) n);
       ("X-Keera-Budget-Reset", RFC3339 (Period_Next (SPeriod sc) now))]
  end.

(** [Server.rateHeaders]. *)
Definition rateHeaders (l : L) (res : Resolved) (now : Z) : list (string * string) * L :=
  match tightest (requests_left now) (Scopes res) l with
  | (None, l) => ([], l)
  | (Some (sc, n), l) =>
      ([("X-RateLimit-Limit-Requests", pretty (RPM sc));
        ("X-RateLimit-Remaining-Requests", pretty n);
        ("X-Keera-RateLimit-Scope", SType sc)], l)
  end.

(** [Server.limitHeaders]: the headers, and the limiter that was asked. *)
Definition limitHeaders (now : Z) : M (list (string * string)) :=
  c ← the_call; s ← the_server;
  let '(rates, l) := rateHeaders (sv_limiter s) (c_res c) now in
  set_server (λ s, s <| sv_limiter := l |>);;
  mret (budgetHeaders (sv_budgets s) (c_res c) now ++ rates).

(** [Server.record]. *)
Definition record (ev : Event) : M unit :=
  let credit := foldl (λ n b, n ⊕ CreditMicros b) 0 (ev_Bills ev) in
  on_budgets (λ b, bg_ChargeCredit b (ev_OrgID ev) credit);;
  set_server (λ s, s <| sv_rows := sv_rows s ++ [ev] |>).

(** [Server.closeEarly]. *)
Definition closeEarly (ev : Event) : M unit :=
  c ← the_call;
  record (ev <| ev_CostMicros := hookMicros c |> <| ev_Bills := hookBills c |>
             <| ev_Scopes := c_scopes c |>).

(** [Server.refuse]. *)
Definition refuse {A} (ref : refusal) : M A :=
  c ← the_call;
  limitHeaders (c_start c);;
  closeEarly ((c_ev c) <| ev_Status := R_status ref |> <| ev_Error := R_msg ref |>);;
  over (Refused ref).

Definition refuse_if (ref : option refusal) : M unit :=
  match ref with Some ref => refuse ref | None => mret tt end.

Definition statusClientClosed : Z := 499.

(** [Server.hungUp]. *)
Definition hungUp {A} (while_ note : string) : M A :=
  c ← the_call;
  let ev := c_ev c in
  closeEarly (ev <| ev_Status := statusClientClosed |> <| ev_Canceled := true |>
    <| ev_Error := appendNote (appendNote (ev_Error ev) ("the client hung up " +:+ while_)) note |>);;
  over HungUp.

(** [Server.checkRates]: nothing when within the limits. An index outside the
    requirements would panic; [Admit] gives none. *)
Definition checkRates (l : L) (scopes : list Scope) (now : Z) : option refusal * L :=
  let checks := rate_reqs scopes in
  let '(i, l) := rl_Admit l (checks.*1) now in
  if i <? 0 then (None, l)
  else match checks !! Z.to_nat i with
  | None => (None, l)
  | Some (req, ck) =>
      let '(retry, l) := rl_Retry l (Req_Key req) (ck_limit ck) now in
      (Some {| R_status := 429; R_typ := "rate_limit_error"; R_code := ck_code ck;
               R_msg := rateMessage (ck_scope ck) (ck_limit ck) (ck_unit ck);
               R_advise := true; R_retry := retry |}, l)
  end.

(** [Server.checkQuotas]. *)
Fixpoint checkQuotas (b : B) (scopes : list Scope) (now : Z) : option refusal :=
  match scopes with
  | [] => None
  | sc :: scopes =>
      if Quota sc <=? 0 then checkQuotas b scopes now
      else if bg_Spent b (SType sc) (SID sc) (SPeriod sc) now <? Quota sc
      then checkQuotas b scopes now
      else Some (quota_refusal sc now)
  end.

(** A refusal for want of money. *)
Definition payment_required (code msg : string) : refusal :=
  {| R_status := 402; R_typ := "insufficient_quota"; R_code := code; R_msg := msg;
     R_advise := true; R_retry := 0 |}.

(** [Server.checkBudgets]. *)
Definition checkBudgets (b : B) (scopes : list Scope) (now : Z) : option refusal :=
  (λ err, payment_required "budget_exceeded" (budget_error err)) <$> bg_Allow b scopes now.

(** [checkRates] on the server's limiter. *)
Definition check_rates (scopes : list Scope) (now : Z) : M (option refusal) :=
  s ← the_server;
  let '(ref, l) := checkRates (sv_limiter s) scopes now in
  set_server (λ s, s <| sv_limiter := l |>);; mret ref.

(** Holds the credit a billed request may take. *)
Definition hold_credit (b : option Body) : M unit :=
  c ← the_call; s ← the_server;
  match bg_HoldCredit (sv_budgets s) (orgID c) (creditHold c (sent c b)) with
  | (inl n, bs) => on_budgets (λ _, bs);; set_call (λ c, c <| c_held := n |>)
  | (inr err, bs) =>
      on_budgets (λ _, bs);; set_call (λ c, c <| c_held := 0 |>);;
      refuse (payment_required "credit_exhausted" (budget_error err))
  end.

(** [Server.admitted]. *)
Definition admitted (b : option Body) : M unit :=
  c ← the_call; s ← the_server;
  refuse_if ((λ err, payment_required "charge_due" (budget_error err)) <$>
    bg_ChargesPaid (sv_budgets s) (orgID c) (c_now c));;
  let why := filterOutside (c_res c) (callFilters c) in
  refuse_if (if bool_decide (why = "") then None else Some (locationRefusal why));;
  ref ← check_rates (Scopes (c_res c)) (c_now c);
  refuse_if ref;;
  refuse_if (checkQuotas (sv_budgets s) (Quotas (c_res c)) (c_now c));;
  (if billed c then hold_credit b else mret tt);;
  s ← the_server;
  if Subscription (c_model c) && bool_decide (R_Filters (c_res c) = []) then mret tt
  else refuse_if (checkBudgets (sv_budgets s) (Scopes (c_res c)) (c_now c)).

(** [Server.admit]. *)
Definition admit_ (b : option Body) : M unit :=
  now ← time_Now;
  set_call (λ c, c <| c_now := now |>);;
  admitted b;;
  c ← the_call;
  set_call (λ c, c <| c_scopes := c_scopes c ++ Quotas (c_res c) |>);;
  on_budgets (λ bs, bg_StartRequest bs (Quotas (c_res c)) (c_now c)).

(** ** Checks made outside a request *)

(** [Server.checkCredit]. *)
Definition checkCredit (b : B) (org : string) (models : list Model) : string * B :=
  if negb (existsb (λ m, bool_decide (is_Some (Model_Billing m))) models) then ("", b)
  else match bg_HoldCredit b org 0 with
  | (inr err, b) => (budget_error err, b)
  | (inl _, b) => ("", b)
  end.

(** [Server.billCheck]. *)
Definition billCheck (org : string) (bills : list BillLine) : M unit :=
  match bills with
  | [] => mret tt
  | _ => record (Event_zero <| ev_OrgID := org |> <| ev_Bills := bills |> <| ev_BillsOnly := true |>)
  end.
End admission.
