(* ===== verification/RouterWalk.v ===== *)
(** * Running a router

    [internal/gateway/router.go], with the steps of [serve.go] it shares with
    requests that name a model: translating the body, running filters, letting
    a route step choose. The walk's loop has the number of the router's steps
    as fuel, which is shown to be enough. *)
From S2P Require Import Prelude GoTime Num Tenancy Pricing Guardrails Text Filters Routers RouterCheck.
From S2P Require Import RouterSpec Replies Guard Routing FilterChain Limiter Budgets Messages Call.
From S2P Require Import Admission.
Open Scope go_scope.

(** [routerBroken]. *)
Definition routerBroken (p : Router) (why : string) : refusal :=
  {| R_status := 503; R_typ := "server_error"; R_code := "router_unavailable";
     R_msg := "the router '" +:+ Ro_Alias p +:+ "' cannot place this request: " +:+ why +:+
       ". Nothing was sent to a model";
     R_advise := true; R_retry := 0 |}.

Definition set_msg (ref : refusal) (msg : string) : refusal :=
  {| R_status := R_status ref; R_typ := R_typ ref; R_code := R_code ref; R_msg := msg;
     R_advise := R_advise ref; R_retry := R_retry ref |}.

(** The filters in a row from a step on, and the step after them. *)
Fixpoint filter_row (s : Step) : list string * option Step :=
  if bool_decide (St_Kind s = StepFilter) then
    let '(aliases, rest) :=
      match St_Next s with Some n => filter_row n | None => ([], None) end in
    (St_Ref s :: aliases, rest)
  else ([], Some s).

(** How a handler reads the text of the body that is sent now, and puts it
    back. *)
Record target (Body : Type) := {
  tg_body : Body;
  tg_extract : Body → string + list string;
  tg_apply : Body → list string → string + Body;
}.
Arguments tg_body {_}. Arguments tg_extract {_}. Arguments tg_apply {_}.

Section walk.
Context `{Num T} `{FloatText T} `{MapRange} `{Source} `{Unicode} `{!Completions T} `{Wire} `{Clock}.
Context `{Regexp} `{Countable Digest} (cleanKey : Z → string → Digest) (Exp : T → T).
Context `{Budgeter B} `{!RateLimiter T L} `{!Bodies T Body}.
Abbreviation M := (handler Body B L _ Digest _ _).

(** [openAIBody]. Only a call with a dialect keeps a body of its own. *)
Definition openAIBody (c : call Body) : string + Body :=
  match c_dialect c, c_native c with
  | Some d, Some native => d_decodeBody d native
  | _, _ => inl ""
  end.

(** [Server.translate]. *)
Definition translate (b : option Body) : M Body :=
  match b with
  | Some b => mret b
  | None =>
      c ← the_call;
      match openAIBody c with
      | inl err => refuse (invalidBody err)
      | inr b => mret b
      end
  end.

(** [Server.retranslate]: the body that replaces the translation. *)
Definition retranslate : M Body :=
  c ← the_call;
  match openAIBody c with
  | inl err => refuse (notRebuilt err)
  | inr b => mret b
  end.

Definition filter_target (c : call Body) (b : option Body) : option (target Body) :=
  match c_native c with
  | Some native =>
      Some {| tg_body := native;
              tg_extract n := match c_dialect c with Some d => d_text d n | None => inr [] end;
              tg_apply n texts := match c_dialect c with Some d => d_apply d n texts | None => inr n end |}
  | None =>
      (λ b, {| tg_body := b; tg_extract b := extractText b (c_kind c);
               tg_apply b := applyText b (c_kind c) |}) <$> b
  end.

(** [if micros > 0 { s.budgets.Charge(c.scopes, micros, c.now) }]. *)
Definition charge_hook (micros : Z) : M unit :=
  c ← the_call;
  if micros >? 0 then on_budgets (λ b, bg_Charge b (c_scopes c) micros (c_now c)) else mret tt.

(** [Server.runFilters]: whether they rewrote the body, and the body. *)
Definition runFilters (b : option Body) (aliases : list string) (by_ : string)
    : M (bool * option Body) :=
  c ← the_call; s ← the_server;
  match filter_target c b with
  | None => mret (false, b)
  | Some tg =>
      let '(run, ref, n, fs) := applyFilters cleanKey Exp (tg_extract tg) (tg_apply tg)
        (sv_filters s) (orgID c) aliases by_ (tg_body tg) in
      set_server (λ s, s <| sv_filters := fs |>);;
      set_call (λ c, c <| c_filters := run_add (c_filters c) run |>
        <| c_native := match c_native c with Some _ => Some n | None => None end |>);;
      charge_hook (fr_micros run);;
      set_call (λ c, edit_ev (λ ev, ev <| ev_FilterRuns := runs (c_filters c) |>) c);;
      refuse_if ref;;
      gone ← context_Err;
      if (gone : bool) then hungUp "while a filter was running" ""
      else mret (rewrote run, match c_native c with Some _ => b | None => Some n end)
  end.

(** [Server.routerFilters]. *)
Definition routerFilters (b : option Body) (aliases : list string) : M (option Body) :=
  c ← the_call;
  '(rewrote, b) ← runFilters b aliases ("the router '" +:+ Ro_Alias (c_router c) +:+ "'");
  c ← the_call;
  match c_native c, b with
  | Some _, Some _ => if (rewrote : bool) then b ← retranslate; mret (Some b) else mret b
  | _, _ => mret b
  end.

(** [Server.routerLimit]: the step the request goes on to. *)
Definition routerLimit (step : Step) : M (option Step) :=
  c ← the_call; s ← the_server;
  let scopes := Router_Scopes (c_router c) step in
  ref ←
    (if bool_decide (St_Kind step = StepBudget)
     then mret (checkBudgets (sv_budgets s) scopes (c_now c))
     else if PerMinute (Step_RateLimit step) then check_rates scopes (c_now c)
     else mret (checkQuotas (sv_budgets s) scopes (c_now c)));
  match ref with
  | None =>
      set_call (λ c, c <| c_scopes := c_scopes c ++ scopes |>);;
      on_budgets (λ b, bg_Charge b scopes (hookMicros c) (c_now c));;
      on_budgets (λ b, bg_StartRequest b scopes (c_now c));;
      mret (St_Next step)
  | Some ref =>
      match St_Exceeded step with
      | None => refuse (set_msg ref ("the router '" +:+ Ro_Alias (c_router c) +:+ "': " +:+ R_msg ref))
      | Some next =>
          set_call (edit_ev (λ ev, ev <| ev_Note := appendNote (ev_Note ev)
            ("the router '" +:+ Ro_Alias (c_router c) +:+ "' took the " +:+
             "exceeded branch of '" +:+ St_ID step +:+ "': " +:+ R_msg ref) |>));;
          mret (Some next)
      end
  end.

(** The model a step chose, if it can serve this surface. *)
Definition serves (kind org alias : string) : option Model :=
  m ← serveable org alias; if bool_decide (Kind m = kind) then Some m else None.

(** [Server.useRoute]. *)
Definition useRoute (b : option Body) : M unit :=
  c ← the_call; s ← the_server;
  let rt := c_route c in
  now ← time_Now;
  let '(d, ref, w) := route Exp (fs_world (sv_filters s)) (sv_loads s) now rt
    match b with Some b => extractText b (c_kind c) | None => inl "" end
    (c_header c (Rt_Header rt)) in
  set_server (λ s, s <| sv_filters := {| fs_world := w; fs_patterns := fs_patterns (sv_filters s) |} |>);;
  set_call (λ c, c <| c_decision := d |>);;
  charge_hook (d_micros d);;
  set_call (edit_ev (λ ev, ev <| ev_RouterOutcome := d_outcome d |>));;
  (if bool_decide (d_why d = "") then mret tt
   else set_call (edit_ev (λ ev, ev <| ev_Note := appendNote (ev_Note ev)
     ("the router '" +:+ Rt_Router rt +:+ "' could not choose: " +:+ d_why d) |>)));;
  refuse_if ref;;
  gone ← context_Err;
  if (gone : bool) then hungUp "while the router was deciding" ""
  else
    set_call (λ c, c <| c_alias := d_alias d |>);;
    match serves (c_kind c) (orgID c) (d_alias d) with
    | Some model =>
        set_call (λ c, edit_ev (λ ev, ev <| ev_Alias := d_alias d |>) (c <| c_model := model |>))
    | None =>
        set_call (edit_ev (λ ev, ev <| ev_RouterOutcome := RouterError |>));;
        refuse (noDestination ("the router '" +:+ Rt_Router rt +:+ "' placed this request on '" +:+
          d_alias d +:+ "', " +:+ "which cannot serve it: the model is missing, disabled, of " +:+
          "another kind, or has " +:+ "no backend"))
    end.

(** [Server.routerRoute]: the body, and the branch of the choice if there is
    one. *)
Definition routerRoute (b : option Body) (step : Step) : M (option Body * option Step) :=
  c ← the_call;
  let rt := route_of (c_router c) step in
  set_call (λ c, c
    <| c_earlier := {| hs_micros := hs_micros (c_earlier c) ⊕ d_micros (c_decision c);
                       hs_bills := hs_bills (c_earlier c) ++ d_bills (c_decision c) |} |>
    <| c_route := rt |> <| c_decision := routeDecision_zero |>);;
  b ← (if Route_Decides rt || Route_Sizes rt then b ← translate b; mret (Some b) else mret b);
  useRoute b;;
  c ← the_call;
  match branch_of step (c_alias c) with
  | Some next => mret (b, Some next)
  | None =>
      set_call (λ c, c <| c_decision := set_chain (c_decision c)
        (filter (λ alias, branch_of step alias = None) (d_chain (c_decision c))) |>);;
      mret (b, None)
  end.

(** [Server.routerModel]. *)
Definition routerModel (step : Step) : M unit :=
  c ← the_call;
  let found := src_Model (orgID c) (St_Ref step) in
  let why := chatProblem found in
  match found with
  | Some m =>
      if bool_decide (why = "") then
        set_call (λ c, edit_ev (λ ev, ev <| ev_Alias := Alias m |>)
          (c <| c_model := m |> <| c_alias := Alias m |>
             <| c_decision := set_chain (c_decision c) [] |>))
      else refuse (routerBroken (c_router c) ("it ends at the model '" +:+ St_Ref step +:+ "', which " +:+ why))
  | None => refuse (routerBroken (c_router c) ("it ends at the model '" +:+ St_Ref step +:+ "', which " +:+ why))
  end.

(** The loop of [useRouter]; [None] when the fuel runs out. *)
Fixpoint router_loop (fuel : nat) (b : option Body) (step : option Step)
    : M (option (option Body)) :=
  match step, fuel with
  | None, _ => mret (Some b)
  | Some _, O => mret None
  | Some s, S fuel =>
      if bool_decide (St_Kind s = StepFilter) then
        let '(aliases, rest) := filter_row s in
        b ← routerFilters b aliases; router_loop fuel b rest
      else if StepKind_Limits (St_Kind s) then
        next ← routerLimit s; router_loop fuel b next
      else if bool_decide (St_Kind s = StepRoute) then
        '(b, next) ← routerRoute b s; router_loop fuel b next
      else if bool_decide (St_Kind s = StepSystemPrompt) then
        set_call (λ c, c <| c_prompts := c_prompts c ++ [St_Prompt s] |>);;
        router_loop fuel b (St_Next s)
      else if bool_decide (St_Kind s = StepModel) then
        routerModel s;; mret (Some b)
      else
        c ← the_call;
        refuse (routerBroken (c_router c) ("it has a step of the kind '" +:+ St_Kind s +:+ "', " +:+
          "which this gateway does not know"))
  end.

(** [Server.useRouter]. *)
Definition useRouter (b : option Body) : M (option Body) :=
  c ← the_call;
  set_call (edit_ev (λ ev, ev <| ev_Router := Ro_Alias (c_router c) |>));;
  r ← router_loop (length (Steps (c_router c))) b (Ro_Start (c_router c));
  mret (default b r).
End walk.
