(* ===== verification/Models.v ===== *)
(** * Naming a model

    Which models and routers a key may name: [internal/gateway/models.go], and
    what [target] of [serve.go] and [subscription.go] refuse. *)
From S2P Require Import Prelude GoTime Num Tenancy Pricing Guardrails Text Hosting Filters Routers RouterCheck.
From S2P Require Import Replies Guard Routing FilterChain Limiter Budgets Messages Call.
Open Scope go_scope.

(** [policy.Source]'s lists. *)
Class SourceLists := {
  src_Models : string → list Model;
  src_Routers : string → list Router;
}.

(** [named]: a model or a router. *)
Record named := { n_model : option Model; n_router : option Router }.

Definition named_zero : named := {| n_model := None; n_router := None |}.

(** ** Names *)

Definition maxAliasBytes : Z := 128.

Fixpoint last_index (c : Ascii.ascii) (s : string) : option nat :=
  match s with
  | EmptyString => None
  | String a s =>
      match last_index c s with
      | Some i => Some (S i)
      | None => if bool_decide (a = c) then Some O else None
      end
  end.

(** [undated]. *)
Definition undated (name : string) : string :=
  match last_index hyphen name with
  | None => name
  | Some i =>
      if negb (len name - Z.of_nat i - 1 =? 8) then name
      else if all_bytes (λ _, is_digit) 0 (String.substring (S i) 8 name)
      then String.substring 0 i name else name
  end.

(** [utf8.ValidString]: nothing to replace. *)
Definition ValidString (s : string) : bool := bool_decide (ToValidUTF8 s = s).

(** [printable]. *)
Definition printable (s : string) : bool :=
  ValidString s && negb (existsb Text.unicode_IsControl (Text.runes s)).

Definition not_found (msg : string) (advise : bool) : refusal :=
  {| R_status := 404; R_typ := "invalid_request_error"; R_code := "model_not_found"; R_msg := msg;
     R_advise := advise; R_retry := 0 |}.

(** [aliasRefusal]. *)
Definition aliasRefusal (alias : string) : option refusal :=
  if bool_decide (alias = "") then
    Some {| R_status := 400; R_typ := "invalid_request_error"; R_code := "missing_model";
            R_msg := "the 'model' field is required; send one of the models from /v1/models";
            R_advise := false; R_retry := 0 |}
  else if len alias >? maxAliasBytes then
    Some (not_found ("the 'model' field is " +:+ pretty (len alias) +:+
      " bytes long; no model is, so this " +:+
      "names none - send one of the models from /v1/models") false)
  else if negb (printable alias) then
    Some (not_found ("the 'model' field holds a control character or invalid UTF-8; no model's " +:+
      "name does - send one of the models from /v1/models") false)
  else None.

(** [modelNotFound]. *)
Definition modelNotFound (alias : string) : string :=
  "the model '" +:+ alias +:+ "' does not exist or this key may not use it".

(** [subscriptionRefusal]. *)
Definition subscriptionRefusal {Body} (c : call Body) : option refusal :=
  if negb (match c_dialect c with
           | Some d => bool_decide (d_provider d = "anthropic") | None => false end) then
    Some {| R_status := 400; R_typ := "invalid_request_error"; R_code := "subscription_model";
            R_msg := "the model '" +:+ c_alias c +:+ "' is paid by your Claude subscription, " +:+
              "and answers only the Anthropic Messages API that Claude Code speaks";
            R_advise := false; R_retry := 0 |}
  else if negb (c_signIn c) then
    Some {| R_status := 401; R_typ := "invalid_request_error"; R_code := "missing_claude_sign_in";
            R_msg := "the model '" +:+ c_alias c +:+ "' is paid by your Claude subscription, and this " +:+
              "request carries no Claude sign-in; sign in to Claude Code with `/login`, and " +:+
              "leave ANTHROPIC_AUTH_TOKEN and ANTHROPIC_API_KEY unset";
            R_advise := false; R_retry := 0 |}
  else None.

Section models.
Context `{Source} `{SourceLists}.

(** ** Looking a name up *)

(** [Server.findModel]. *)
Definition findModel (key : Key) (name : string) : option Model :=
  let found := src_Model (Key_OrgID key) name in
  if bool_decide (is_Some found) || negb (Key_Subscription key) then found
  else
    let want := undated name in
    head (filter (λ m, Subscription m && Enabled m && bool_decide (Kind m = KindChat) &&
      bool_decide (undated (BackendModel m) = want)) (src_Models (Key_OrgID key))).

(** [Server.callable]: what the alias names, and whether the key may call it;
    an empty kind is any. *)
Definition callable (res : Resolved) (alias kind : string) : named * bool :=
  if bool_decide (alias = "") then (named_zero, false)
  else match findModel (R_Key res) alias with
  | Some m =>
      ({| n_model := Some m; n_router := None |},
       Enabled m && negb (bool_decide (Kind m = KindDecision)) &&
       (bool_decide (kind = "") || bool_decide (Kind m = kind)) && MayUse res m)
  | None =>
      if negb (bool_decide (kind = "")) && negb (bool_decide (kind = KindChat)) then (named_zero, false)
      else match src_Router (Key_OrgID (R_Key res)) alias with
      | Some p =>
          if MayCallRouter res p (src_Model (Key_OrgID (R_Key res)))
          then ({| n_model := None; n_router := Some p |}, true)
          else (named_zero, false)
      | None => (named_zero, false)
      end
  end.

(** [Server.servedAt]. *)
Definition servedAt (res : Resolved) (alias : string) : string :=
  match findModel (R_Key res) alias with
  | None => ""
  | Some m =>
      if negb (Enabled m) || negb (MayUse res m) then ""
      else if bool_decide (Kind m = KindChat) then
        "/v1/chat/completions, /v1/messages or /v1/responses"
      else if bool_decide (Kind m = KindCompletion) then "/v1/completions"
      else if bool_decide (Kind m = KindEmbedding) then "/v1/embeddings"
      else if bool_decide (Kind m = KindRerank) then "/v1/rerank or /v2/rerank"
      else ""
  end.

(** [Server.lookupModel]. *)
Definition lookupModel (res : Resolved) (alias kind : string) : named * option refusal :=
  let '(n, ok) := callable res alias kind in
  if negb ok then
    let path := servedAt res alias in
    (named_zero,
     Some (if bool_decide (path = "") then not_found (modelNotFound alias) true
           else not_found ("the model '" +:+ alias +:+ "' is not served at this endpoint: send it to " +:+
                  path) false))
  else match n_model n with
  | Some m =>
      if Locked m then
        (n, Some {| R_status := 403; R_typ := "permission_error"; R_code := "org_limited";
                    R_msg := "the model '" +:+ alias +:+ "' " +:+ lockedReason m +:+ "; " +:+
                      LockedMessage (OrgName m);
                    R_advise := false; R_retry := 0 |})
      else (n, None)
  | None => (n, None)
  end.

(** ** Listing *)

(** An entry of [/v1/models]: a model, or a router as one. *)
Inductive modelEntry := ModelEntry (m : Model) | RouterEntry (p : Router).

(** [Server.listModels], for a resolved key. *)
Definition listModels (res : Resolved) : list modelEntry :=
  (ModelEntry <$> filter (λ m, Enabled m && negb (Locked m) &&
    negb (bool_decide (Kind m = KindDecision)) && MayUse res m) (src_Models (Key_OrgID (R_Key res)))) ++
  (RouterEntry <$> filter (λ p, MayCallRouter res p (src_Model (Key_OrgID (R_Key res))))
    (src_Routers (Key_OrgID (R_Key res)))).

(** [Server.getModel]; [None] is a 404. *)
Definition getModel (res : Resolved) (alias : string) : option modelEntry :=
  let '(n, ok) := callable res alias "" in
  if negb ok then None
  else match n_model n, n_router n with
  | Some m, _ => if Locked m then None else Some (ModelEntry m)
  | None, Some p => Some (RouterEntry p)
  | None, None => None
  end.
End models.

(** ** What a key sees *)

(** A model that a key can tell from a missing one. *)
Definition visible (res : Resolved) (m : Model) : bool :=
  Enabled m && negb (bool_decide (Kind m = KindDecision)) && MayUse res m.

Definition seen_model (S : Source) (res : Resolved) (alias : string) : option Model :=
  m ← @src_Model S (Key_OrgID (R_Key res)) alias; if visible res m then Some m else None.

Definition seen_router (S : Source) (res : Resolved) (alias : string) : option Router :=
  p ← @src_Router S (Key_OrgID (R_Key res)) alias;
  if MayCallRouter res p (@src_Model S (Key_OrgID (R_Key res))) then Some p else None.

(** The control plane keeps the aliases of an organisation's models and routers
    apart. *)
Definition apart (S : Source) (org : string) : Prop :=
  ∀ a, @src_Model S org a = None ∨ @src_Router S org a = None.

(** [callable] of a key that no subscription pays, from what it sees. *)
Definition callable_seen (res : Resolved) (alias kind : string) (m : option Model) (p : option Router)
    : option named :=
  if bool_decide (alias = "") then None
  else match m, p with
  | Some m, _ =>
      if bool_decide (kind = "") || bool_decide (Kind m = kind)
      then Some {| n_model := Some m; n_router := None |} else None
  | None, Some p =>
      if negb (bool_decide (kind = "")) && negb (bool_decide (kind = KindChat)) then None
      else Some {| n_model := None; n_router := Some p |}
  | None, None => None
  end.

Section seen.
Context (S : Source) (L : SourceLists) (res : Resolved).
Hypothesis Hsub : Key_Subscription (R_Key res) = false.

Lemma findModel_plain name : findModel (R_Key res) name = src_Model (Key_OrgID (R_Key res)) name.
Proof. unfold findModel. by rewrite Hsub, orb_true_r. Qed.

Lemma callable_sees alias kind :
  apart S (Key_OrgID (R_Key res)) →
  (let '(n, ok) := callable res alias kind in if ok : bool then Some n else None) =
  callable_seen res alias kind (seen_model S res alias) (seen_router S res alias).
Proof.
  intros Hap. unfold callable, callable_seen, seen_model, seen_router, visible. rewrite findModel_plain.
  case_bool_decide; [done|]. destruct (src_Model _ alias) as [m|] eqn:Hm; simpl.
  - destruct (Hap alias) as [?|Hr]; [congruence|]. rewrite Hr. simpl.
    destruct (Enabled m), (negb (bool_decide (Kind m = KindDecision))), (MayUse res m); simpl;
      by rewrite ?andb_false_r, ?andb_true_r.
  - destruct (src_Router _ alias) as [p|]; simpl; [|by destruct (_ && _)].
    destruct (MayCallRouter _ _ _); by destruct (_ && _).
Qed.

Lemma servedAt_sees alias :
  servedAt res alias =
  match seen_model S res alias with
  | None => ""
  | Some m =>
      if bool_decide (Kind m = KindChat) then
        "/v1/chat/completions, /v1/messages or /v1/responses"
      else if bool_decide (Kind m = KindCompletion) then "/v1/completions"
      else if bool_decide (Kind m = KindEmbedding) then "/v1/embeddings"
      else if bool_decide (Kind m = KindRerank) then "/v1/rerank or /v2/rerank"
      else ""
  end.
Proof.
  unfold servedAt, seen_model, visible. rewrite findModel_plain.
  destruct (src_Model _ alias) as [m|]; [|done]. simpl.
  destruct (Enabled m), (MayUse res m); simpl; rewrite ?andb_false_r, ?andb_true_r; try done.
  destruct (decide (Kind m = KindDecision)) as [Hd|Hd]; [by rewrite Hd|].
  by rewrite (bool_decide_eq_false_2 _ Hd).
Qed.
End seen.

(** C14: a key that may not call a model cannot tell it from one that does not
    exist. Two sources that show a key the same models and routers give it the
    same answer under every name: the same model or router to call, the same
    refusal word for word, and the same entry of [/v1/models]. So neither a
    status, nor a message, nor a description discloses another project's
    models. (A key whose owner's subscription pays is excepted: it also finds
    models by their undated names.) *)
Theorem forbidden_is_missing (S S' : Source) (L L' : SourceLists) (res : Resolved) (alias kind : string) :
  Key_Subscription (R_Key res) = false →
  apart S (Key_OrgID (R_Key res)) → apart S' (Key_OrgID (R_Key res)) →
  seen_model S res alias = seen_model S' res alias →
  seen_router S res alias = seen_router S' res alias →
  @lookupModel S L res alias kind = @lookupModel S' L' res alias kind ∧
  @getModel S L res alias = @getModel S' L' res alias.
Proof.
  intros Hsub Hap Hap' Hm Hr. split.
  - unfold lookupModel. pose proof (callable_sees S L res Hsub alias kind Hap) as H1.
    pose proof (callable_sees S' L' res Hsub alias kind Hap') as H2.
    rewrite <- Hm, <- Hr in H2. rewrite !servedAt_sees, <- Hm by done.
    destruct (@callable S _ _ _ _) as [n ok], (@callable S' _ _ _ _) as [n' ok'].
    rewrite <- H1 in H2. destruct ok, ok'; try done. by injection H2 as <-.
  - unfold getModel. pose proof (callable_sees S L res Hsub alias "" Hap) as H1.
    pose proof (callable_sees S' L' res Hsub alias "" Hap') as H2.
    rewrite <- Hm, <- Hr in H2.
    destruct (@callable S _ _ _ _) as [n ok], (@callable S' _ _ _ _) as [n' ok'].
    rewrite <- H1 in H2. destruct ok, ok'; try done. by injection H2 as <-.
Qed.

(** ** What a key is shown *)

(** A source's lists hold what it finds by alias, under one alias each. *)
Record coherent `{Source} `{SourceLists} (org : string) : Prop := {
  co_models : ∀ m, m ∈ src_Models org ↔ src_Model org (Alias m) = Some m;
  co_model_alias : ∀ a m, src_Model org a = Some m → Alias m = a ∧ a ≠ "";
  co_routers : ∀ p, p ∈ src_Routers org ↔ src_Router org (Ro_Alias p) = Some p;
  co_router_alias : ∀ a p, src_Router org a = Some p → Ro_Alias p = a ∧ a ≠ "";
  co_apart : ∀ a, src_Model org a = None ∨ src_Router org a = None;
}.

Definition names (e : modelEntry) : named :=
  match e with
  | ModelEntry m => {| n_model := Some m; n_router := None |}
  | RouterEntry p => {| n_model := None; n_router := Some p |}
  end.

Definition entry_alias (e : modelEntry) : string :=
  match e with ModelEntry m => Alias m | RouterEntry p => Ro_Alias p end.

Definition entry_kind (e : modelEntry) : string :=
  match e with ModelEntry m => Kind m | RouterEntry _ => KindChat end.

Section listing.
Context `{Source} `{SourceLists} (res : Resolved).
Abbreviation org := (Key_OrgID (R_Key res)).
Hypothesis Hco : coherent org.

Lemma findModel_listed name m : findModel (R_Key res) name = Some m → m ∈ src_Models org.
Proof.
  unfold findModel. case_match.
  - intros Hm. apply (co_models _ Hco). destruct (co_model_alias _ Hco _ _ Hm) as [-> _]. done.
  - intros Hm. assert (m ∈ filter (λ m, Subscription m && Enabled m && bool_decide (Kind m = KindChat) &&
      bool_decide (undated (BackendModel m) = undated name)) (src_Models org)) as Hin
      by (destruct (filter _ _); [done|injection Hm as ->; left]).
    by apply list_elem_of_filter in Hin as [_ ?].
Qed.

Lemma listed_model m :
  ModelEntry m ∈ listModels res ↔ m ∈ src_Models org ∧ visible res m = true ∧ Locked m = false.
Proof.
  unfold listModels, visible. rewrite elem_of_app, !list_elem_of_fmap.
  setoid_rewrite list_elem_of_filter. split.
  - intros [(m' & [= <-] & Hf & Hm)|(? & [=] & _)]. split; [done|].
    apply Is_true_true in Hf. rewrite !andb_true_iff, !negb_true_iff in Hf.
    by destruct Hf as (((-> & ->) & ->) & ->).
  - intros (Hm & Hv & Hl). left. exists m. split; [done|]. split; [|done].
    apply Is_true_true. rewrite !andb_true_iff in Hv. by destruct Hv as ((-> & ->) & ->); rewrite Hl.
Qed.

Lemma listed_router p :
  RouterEntry p ∈ listModels res ↔ p ∈ src_Routers org ∧ MayCallRouter res p (src_Model org) = true.
Proof.
  unfold listModels. rewrite elem_of_app, !list_elem_of_fmap. setoid_rewrite list_elem_of_filter. split.
  - intros [(? & [=] & _)|(p' & [= <-] & Hf & Hp)]. split; [done|]. by apply Is_true_true.
  - intros [Hp Hf]. right. exists p. split; [done|]. split; [by apply Is_true_true|done].
Qed.

(** What [callable] allows and is not locked is listed. *)
Lemma callable_listed alias kind n :
  callable res alias kind = (n, true) → match n_model n with Some m => Locked m = false | None => True end →
  ∃ e, n = names e ∧ e ∈ listModels res.
Proof.
  unfold callable. case_bool_decide; [done|].
  destruct (findModel (R_Key res) alias) as [m|] eqn:Hm.
  - intros [= <- Hok]. simpl. intros Hl. exists (ModelEntry m). split; [done|].
    apply listed_model. split; [by eapply findModel_listed|]. split; [|done]. unfold visible.
    destruct (Enabled m), (negb _), (MayUse res m); simpl in *; rewrite ?andb_false_r in Hok; done.
  - destruct (_ && _); [done|]. destruct (src_Router org alias) as [p|] eqn:Hp; [|done].
    destruct (MayCallRouter _ _ _) eqn:Hc; [|done]. intros [= <-] _. exists (RouterEntry p).
    split; [done|]. apply listed_router. split; [|done]. apply (co_routers _ Hco).
    by destruct (co_router_alias _ Hco _ _ Hp) as [-> _].
Qed.

(** What is listed is callable under its own alias, as its own kind or any. *)
Lemma listed_callable e kind :
  e ∈ listModels res → kind = "" ∨ kind = entry_kind e → callable res (entry_alias e) kind = (names e, true).
Proof.
  intros He Hk. unfold callable. destruct e as [m|p]; simpl in *.
  - apply listed_model in He as (Hm & Hv & _). apply (co_models _ Hco) in Hm.
    destruct (co_model_alias _ Hco _ _ Hm) as [_ Hne]. rewrite bool_decide_eq_false_2 by done.
    unfold findModel. rewrite Hm. simpl. unfold visible in Hv.
    destruct (Enabled m), (negb (bool_decide (Kind m = KindDecision))), (MayUse res m); try done. simpl.
    rewrite andb_true_r. f_equal. apply orb_true_iff. rewrite !bool_decide_eq_true. naive_solver.
  - apply listed_router in He as (Hp & Hc). apply (co_routers _ Hco) in Hp.
    destruct (co_router_alias _ Hco _ _ Hp) as [_ Hne]. rewrite bool_decide_eq_false_2 by done.
    destruct (co_apart _ Hco (Ro_Alias p)) as [Hm|?]; [|congruence].
    assert (Key_Subscription (R_Key res) = false) as Hsub
      by (unfold MayCallRouter in Hc; destruct (Key_Subscription _); [by rewrite orb_true_r in Hc|done]).
    unfold findModel. rewrite Hm, Hsub, orb_true_r, Hp, Hc. by destruct Hk as [->| ->].
Qed.

Lemma listed_unlocked e : e ∈ listModels res → match e with ModelEntry m => Locked m = false | _ => True end.
Proof. destruct e; [|done]. by intros (_ & _ & ?)%listed_model. Qed.
End listing.

(** [/v1/models] lists exactly what a key can call. An entry is listed just
    when some request of some kind may name it without being refused, and just
    when asking for one model describes it; and what is listed answers under
    the very alias it is listed with, on the surface of its kind. *)
Theorem listModels_exact `{Source} `{SourceLists} (res : Resolved) (e : modelEntry) :
  coherent (Key_OrgID (R_Key res)) →
  (e ∈ listModels res ↔ ∃ alias kind, lookupModel res alias kind = (names e, None)) ∧
  (e ∈ listModels res ↔ ∃ alias, getModel res alias = Some e) ∧
  (e ∈ listModels res → lookupModel res (entry_alias e) (entry_kind e) = (names e, None) ∧
     getModel res (entry_alias e) = Some e).
Proof.
  intros Hco.
  assert (e ∈ listModels res → lookupModel res (entry_alias e) (entry_kind e) = (names e, None) ∧
    getModel res (entry_alias e) = Some e) as Hlisted.
  { intros He. pose proof (listed_unlocked res e He) as Hl. unfold lookupModel, getModel.
    rewrite !(listed_callable res Hco e) by auto. simpl. destruct e as [m|p]; simpl; by rewrite ?Hl. }
  split; [|split]; [split|split|done].
  - intros He. eexists _, _. by apply Hlisted.
  - intros (alias & kind & Hl). unfold lookupModel in Hl.
    destruct (callable res alias kind) as [n []] eqn:Hc; [|done]. simpl in Hl.
    destruct (callable_listed res Hco alias kind n Hc) as (e' & -> & He').
    + destruct (n_model n) as [m|]; [|done]. by destruct (Locked m).
    + assert (names e' = names e) as Heq by (destruct e' as [m|p]; simpl in Hl; [destruct (Locked m)|]; by injection Hl).
      destruct e, e'; simpl in Heq; congruence.
  - intros He. eexists. by apply Hlisted.
  - intros (alias & Hg). unfold getModel in Hg.
    destruct (callable res alias "") as [n []] eqn:Hc; [|done]. simpl in Hg.
    destruct (callable_listed res Hco alias "" n Hc) as (e' & -> & He').
    + destruct (n_model n) as [m|]; [|done]. by destruct (Locked m).
    + destruct e' as [m|p]; simpl in Hg; [destruct (Locked m); [done|]|]; congruence.
Qed.

(** ** Examples *)

#[local] Existing Instance sample_source.

#[local] Instance listed_models : SourceLists :=
  {| src_Models org := if bool_decide (org = "org_1")
       then [sample_chat "small" 8000 "quick"; sample_chat "large" 0 "clever"] else [];
     src_Routers _ := [] |}.

(** A source with only the small model. *)
Definition small_source : Source :=
  {| src_Model org alias :=
       if bool_decide (org = "org_1" ∧ alias = "small") then Some (sample_chat "small" 8000 "quick") else None;
     src_Filter _ _ := None; src_Router _ _ := None |}.

(** A key that may use the small model only. *)
Definition small_only : Resolved :=
  {| R_Key := sample_key; R_AllowedModels := Some ["small"]; R_AllowedLocations := None;
     R_SystemPrompt := ""; R_Filters := []; R_AllowedTools := None; Scopes := []; Quotas := [] |}.

Lemma forbidden_is_missing_witness :
  is_Some (@src_Model sample_source "org_1" "large") ∧ @src_Model small_source "org_1" "large" = None ∧
  lookupModel small_only "large" KindChat =
  (named_zero, Some (not_found "the model 'large' does not exist or this key may not use it" true)).
Proof.
  split; [by eexists; vm_compute; reflexivity|]. split; [reflexivity|].
  destruct (forbidden_is_missing sample_source small_source listed_models listed_models small_only
    "large" KindChat) as [-> _]; [reflexivity|by right|by right|vm_compute; reflexivity..|].
  vm_compute. reflexivity.
Defined.

Lemma sample_coherent : coherent "org_1".
Proof.
  assert (∀ a m, src_Model "org_1" a = Some m → Alias m = a ∧ a ≠ "" ∧ m ∈ src_Models "org_1") as Hm.
  { intros a m. simpl. repeat case_bool_decide; try done; intros [= <-]; destruct_and!; subst;
      (split; [done|split; [done|set_solver]]). }
  split.
  - intros m. split; [|by intros (_ & _ & ?)%Hm].
    intros [->|[->|[]%elem_of_nil]%elem_of_cons]%elem_of_cons; vm_compute; reflexivity.
  - intros a m (? & ? & _)%Hm. done.
  - intros p. split; [by intros ?%elem_of_nil|done].
  - done.
  - by right.
Qed.

Lemma listModels_exact_witness :
  ModelEntry (sample_chat "small" 8000 "quick") ∈ listModels small_only ∧
  getModel small_only "small" = Some (ModelEntry (sample_chat "small" 8000 "quick")).
Proof.
  destruct (listModels_exact small_only (ModelEntry (sample_chat "small" 8000 "quick")) sample_coherent)
    as (H1 & H2 & H3).
  assert (ModelEntry (sample_chat "small" 8000 "quick") ∈ listModels small_only) as Hin
    by (apply H2; exists "small"; vm_compute; reflexivity).
  split; [exact Hin|]. by apply H3.
Defined.
