(* ===== verification/Registry.v ===== *)
(** * The registry

    What [internal/registry/registry.go] keeps of every organisation: its
    models, filters, routers and MCP servers, indexed by organisation and then
    alias, how a stored row is finished before it is served, and how changes
    reload all of it or one organisation. What the store answers is a
    parameter; log lines are left out. *)
From S2P Require Import Prelude GoTime Num Tenancy Pricing Guardrails Text Keys Hosting Providers Catalog Secret.
From S2P Require Import KeyCache Filters Routers RouterCheck Replies Guard Routing FilterChain Limiter Budgets.
From S2P Require Import Messages Call Models.

(** ** Indices *)

(** By organisation, then alias. *)
Abbreviation index T := (gmap string (gmap string T)).

(** [replaceAll]: [key] finishes a thing and says where it goes. *)
Definition replaceAll {T} (list : list T) (key : T → T * (string * string)) : index T :=
  foldl (λ byOrg x,
    let '(x, (org, alias)) := key x in
    <[org := <[alias := x]> (default ∅ (byOrg !! org))]> byOrg) ∅ list.

(** [replaceOrg]: [alias] finishes a thing and says which one it is. *)
Definition replaceOrg {T} (old : index T) (orgID : string) (list : list T) (alias : T → T * string) : index T :=
  let byOrg := delete orgID old in
  match list with
  | [] => byOrg
  | _ => <[orgID := foldl (λ own x, let '(x, a) := alias x in <[a := x]> own) ∅ list]> byOrg
  end.

Definition find {T} (i : index T) (orgID alias : string) : option T := i !! orgID ≫= (λ own, own !! alias).

(** [sortedValues]. *)
Definition sortedValues {T} (byAlias : gmap string T) : list T :=
  omap (λ a, byAlias !! a) (sorted_keys byAlias).

(** ** What the store answers *)

Record Org := { Org_ID : string; Org_Name : string; Org_Limited : bool }.

(** The queries of one reload. [OrgByID] answers [None] for [ErrNotFound]. *)
Record Store := {
  LimitedOrgs : string + gmap string string;
  LoadModels : string + list Model;
  LoadMCPServers : string + list MCPServer;
  LoadFilters : string + list Filter;
  LoadRouters : string + list Router;
  OrgByID : string → string + option Org;
  ListModels : string → string + list Model;
  ListMCPServers : string → string + list MCPServer;
  ListFilters : string → string + list Filter;
  ListRouters : string → string + list Router;
}.

(** What the next reload covers. *)
Record pending := { p_all : bool; p_orgs : gset string }.

Record Registry := {
  r_models : index Model;
  r_filters : index Filter;
  r_routers : index Router;
  r_mcp : index MCPServer;
  r_pending : pending;
}.

#[export] Instance Registry_updatable : Updatable Registry := λ r,
  {| r_models := r_models r; r_filters := r_filters r; r_routers := r_routers r; r_mcp := r_mcp r;
     r_pending := r_pending r |}.

#[export] Instance MCPServer_updatable : Updatable MCPServer := λ m,
  {| MCP_OrgID := MCP_OrgID m; MCP_Alias := MCP_Alias m; MCP_URL := MCP_URL m; MCP_Description := MCP_Description m;
     MCP_AuthHeader := MCP_AuthHeader m; MCP_APIKeyCiphertext := MCP_APIKeyCiphertext m; MCP_APIKey := MCP_APIKey m;
     MCP_HasAPIKey := MCP_HasAPIKey m; MCP_Limited := MCP_Limited m; MCP_Locked := MCP_Locked m;
     MCP_OrgName := MCP_OrgName m; MCP_Enabled := MCP_Enabled m |}.

Definition no_pending : pending := {| p_all := false; p_orgs := ∅ |}.

(** What [New] starts from. *)
Definition empty_registry : Registry :=
  {| r_models := ∅; r_filters := ∅; r_routers := ∅; r_mcp := ∅; r_pending := no_pending |}.

Definition ModelSecretName (orgID alias : string) : string := "model:" +:+ orgID +:+ ":" +:+ alias.
Definition MCPSecretName (orgID alias : string) : string := "mcp:" +:+ orgID +:+ ":" +:+ alias.

(** [Registry.want]. *)
Definition want (c : string) (p : pending) : pending :=
  match Change_key c with
  | Some _ => p
  | None =>
      if p_all p then p
      else match Change_org c with
           | Some org => {| p_all := p_all p; p_orgs := {[ org ]} ∪ p_orgs p |}
           | None => {| p_all := true; p_orgs := ∅ |}
           end
  end.

Section finish.
Context `{Unicode} `{Addresses} `{GCM}.
Context (opts : Options) (secrets : Box).

(** [Registry.open]. *)
Definition open_credential (name ciphertext : string) : string :=
  match Secret.Open secrets name ciphertext with inr plaintext => plaintext | inl _ => "" end.

(** [Registry.usePlatformKey]. *)
Definition usePlatformKey (m : Model) : Model :=
  match Lock (o_Platform opts) m with
  | inl _ => m
  | inr m =>
      let key := match o_Platform opts !! Provider m with Some k => PK_APIKey k | None => "" end in
      m <| APIKey := key |>
        <| Model_Billing := Some {| Billing_Provider := Provider m; Billing_Credit := Prepaid opts;
                                    FeeMicrosPerMTok := 0; Billing_AtProvider := false |} |>
  end.

(** [Registry.openToLimited]. *)
Definition openToLimited (m : Model) : bool :=
  if PlatformKey m then Prepaid opts else bool_decide (Model_Hosting m = HostedExternal).

(** The branch of [Registry.finishModel] for a model that is not covered. *)
Definition useOwnKey (m : Model) : Model :=
  let m := if negb (bool_decide (APIKeyCiphertext m = ""))
           then m <| APIKey := open_credential (ModelSecretName (OrgID m) (Alias m)) (APIKeyCiphertext m) |> else m in
  let m := (PriceAtFee m (GatewayFee opts)).1 in
  if 0 <? GatewayFee opts then
    m <| Model_Billing := Some {| Billing_Provider := Provider m; Billing_Credit := Prepaid opts;
                                  FeeMicrosPerMTok := GatewayFee opts; Billing_AtProvider := AtProvider m |} |>
  else m.

(** [Registry.finishModel]. *)
Definition finishModel (limited : gmap string string) (m : Model) : Model :=
  let m := if Covers (o_Platform opts) m then usePlatformKey m else useOwnKey m in
  match limited !! OrgID m with
  | Some name => let m := m <| Limited := true |> <| OrgName := name |> in m <| Locked := negb (openToLimited m) |>
  | None => m
  end.

(** [Registry.finishMCP]. *)
Definition finishMCP (limited : gmap string string) (m : MCPServer) : MCPServer :=
  let m := if negb (bool_decide (MCP_APIKeyCiphertext m = ""))
           then m <| MCP_APIKey := open_credential (MCPSecretName (MCP_OrgID m) (MCP_Alias m)) (MCP_APIKeyCiphertext m) |>
           else m in
  match limited !! MCP_OrgID m with
  | Some name => m <| MCP_Limited := true |> <| MCP_OrgName := name |>
                   <| MCP_Locked := negb (bool_decide (HostingOf (MCP_URL m) = HostedExternal)) |>
  | None => m
  end.

(** ** Reloads *)

(** The reads of [refreshAll], in order: the first failure ends it. *)
Definition refreshAll (st : Store) (r : Registry) : string + Registry :=
  match LimitedOrgs st with inl err => inl err | inr limited =>
  match LoadModels st with inl err => inl err | inr models =>
  match LoadMCPServers st with inl err => inl err | inr mcp =>
  match LoadFilters st with inl err => inl err | inr filters =>
  match LoadRouters st with inl err => inl err | inr routers =>
    inr (r <| r_models := replaceAll models (λ m, let m := finishModel limited m in (m, (OrgID m, Alias m))) |>
           <| r_mcp := replaceAll mcp (λ m, let m := finishMCP limited m in (m, (MCP_OrgID m, MCP_Alias m))) |>
           <| r_filters := replaceAll filters (λ f, (f, (F_OrgID f, F_Alias f))) |>
           <| r_routers := replaceAll routers (λ p, (p, (Ro_OrgID p, Ro_Alias p))) |>)
  end end end end end.

(** [refreshOrg]. *)
Definition refreshOrg (st : Store) (orgID : string) (r : Registry) : string + Registry :=
  match OrgByID st orgID with inl err => inl err | inr org =>
  let limited : gmap string string :=
    match org with
    | Some o => if Org_Limited o then {[ orgID := Org_Name o ]} else ∅
    | None => ∅
    end in
  match ListModels st orgID with inl err => inl err | inr models =>
  match ListMCPServers st orgID with inl err => inl err | inr mcp =>
  match ListFilters st orgID with inl err => inl err | inr filters =>
  match ListRouters st orgID with inl err => inl err | inr routers =>
    inr (r <| r_models := replaceOrg (r_models r) orgID models (λ m, let m := finishModel limited m in (m, Alias m)) |>
           <| r_mcp := replaceOrg (r_mcp r) orgID mcp (λ m, let m := finishMCP limited m in (m, MCP_Alias m)) |>
           <| r_filters := replaceOrg (r_filters r) orgID filters (λ f, (f, F_Alias f)) |>
           <| r_routers := replaceOrg (r_routers r) orgID routers (λ p, (p, Ro_Alias p)) |>)
  end end end end end.

(** The loop of [refreshPending] over the organisations, which the map lists in
    some order; the store may answer each reload differently. *)
Fixpoint orgs_loop (st : string → Store) (orgs : list string) (r : Registry) (errs : list string) : Registry * list string :=
  match orgs with
  | [] => (r, errs)
  | org :: rest =>
      match refreshOrg (st org) org r with
      | inl err => orgs_loop st rest (r <| r_pending := want (OrgChange org) (r_pending r) |>) (errs ++ [err])
      | inr r => orgs_loop st rest r errs
      end
  end.

(** [refreshPending]: the registry, and the errors it joins. *)
Definition refreshPending (all : Store) (st : string → Store) (orgs : list string) (r : Registry) : Registry * list string :=
  let p := r_pending r in
  let r := r <| r_pending := no_pending |> in
  if p_all p then
    match refreshAll all r with
    | inl err => (r <| r_pending := want anyChange (r_pending r) |>, [err])
    | inr r => (r, [])
    end
  else orgs_loop st orgs r [].
End finish.

(** ** What the gateway reads *)

Definition registry_source (r : Registry) : Source :=
  {| src_Model := find (r_models r); src_Filter := find (r_filters r); src_Router := find (r_routers r) |}.

(** [Registry.Models] and [Registry.Routers]. *)
Definition registry_lists (r : Registry) : SourceLists :=
  {| src_Models org := sortedValues (default ∅ (r_models r !! org));
     src_Routers org := sortedValues (default ∅ (r_routers r !! org)) |}.

(** [Registry.MCPServer]. *)
Definition registry_MCPServer (r : Registry) (orgID alias : string) : option MCPServer := find (r_mcp r) orgID alias.

(** ** Lemmas of indices *)

Section indices.
Context {T : Type}.
Implicit Types (l : list T) (o a : string).

(** The things of a list under one organisation, by alias: the last one wins. *)
Definition by_alias (place : T → string) l : gmap string T := foldl (λ own x, <[place x := x]> own) ∅ l.

Definition own_things (org : T → string) o l : list T := filter (λ x, org x = o) l.

Lemma by_alias_snoc place l x : by_alias place (l ++ [x]) = <[place x := x]> (by_alias place l).
Proof. unfold by_alias. by rewrite foldl_app. Qed.

Lemma by_alias_in place l a x : by_alias place l !! a = Some x → x ∈ l ∧ place x = a.
Proof.
  induction l as [|y l IH] using rev_ind; [done|]. rewrite by_alias_snoc, elem_of_app, list_elem_of_singleton.
  intros [[<- ->]|[_ ?]]%lookup_insert_Some; naive_solver.
Qed.

Lemma by_alias_some place l x : x ∈ l → is_Some (by_alias place l !! place x).
Proof.
  induction l as [|y l IH] using rev_ind; [by intros ?%not_elem_of_nil|].
  rewrite by_alias_snoc, elem_of_app, list_elem_of_singleton, lookup_insert_is_Some'. naive_solver.
Qed.

(** What a reload of everything holds of one organisation. *)
Lemma replaceAll_lookup (finish : T → T) (org alias : T → string) l o :
  replaceAll l (λ x, (finish x, (org (finish x), alias (finish x)))) !! o =
  match own_things org o (map finish l) with [] => None | own => Some (by_alias alias own) end.
Proof.
  unfold replaceAll. induction l as [|x l IH] using rev_ind; [done|].
  rewrite foldl_app, map_app. unfold own_things in *. rewrite filter_app.
  change (map finish [x]) with [finish x]. cbn [foldl].
  destruct (decide (org (finish x) = o)) as [<-|Hne].
  - rewrite lookup_insert_eq, IH, filter_cons_True, filter_nil by done.
    destruct (filter _ (map finish l)) as [|y ys] eqn:E; cbn; [done|].
    f_equal. symmetry. apply (by_alias_snoc alias (y :: ys)).
  - rewrite lookup_insert_ne, IH, filter_cons_False, filter_nil, app_nil_r by done. done.
Qed.

(** What a reload of one organisation leaves. *)
Lemma replaceOrg_lookup (old : index T) org l (finish : T → T) (alias : T → string) o :
  replaceOrg old org l (λ x, (finish x, alias (finish x))) !! o =
  if bool_decide (o = org) then match l with [] => None | _ => Some (by_alias alias (map finish l)) end else old !! o.
Proof.
  assert (Hf : ∀ own : gmap string T, foldl (λ own x, <[alias (finish x):=finish x]> own) own l =
                      foldl (λ own x, <[alias x:=x]> own) own (map finish l)).
  { induction l as [|x l IH]; intros own; cbn; auto. }
  unfold replaceOrg. destruct l as [|x l]; case_bool_decide as Ho.
  - subst. apply lookup_delete_eq.
  - by rewrite lookup_delete_ne.
  - subst. rewrite lookup_insert_eq. f_equal. apply Hf.
  - by rewrite lookup_insert_ne, lookup_delete_ne.
Qed.

(** [sortedValues] lists every thing of an organisation once, in the order of their aliases. *)
Lemma sortedValues_spec (m : gmap string T) :
  sortedValues m ≡ₚ (map_to_list m).*2.
Proof.
  unfold sortedValues. transitivity (omap (λ a, m !! a) (map_to_list m).*1).
  { apply omap_Permutation. unfold sorted_keys. rewrite merge_sort_Permutation. 
    apply NoDup_Permutation; [apply NoDup_elements|apply NoDup_fst_map_to_list|].
    intros a. rewrite elem_of_elements, elem_of_dom, list_elem_of_fmap. split.
    - intros [x Hx]. exists (a, x). split; [done|]. by apply elem_of_map_to_list.
    - intros ([a' x] & -> & Hx%elem_of_map_to_list). eauto. }
  assert (∀ l : list (string * T), (∀ p, p ∈ l → m !! p.1 = Some p.2) → omap (λ a, m !! a) l.*1 = l.*2) as Hl.
  { induction l as [|p l IH]; intros Hl; [done|]. cbn. rewrite (Hl p) by left. f_equal. apply IH.
    intros q ?. apply Hl. by right. }
  rewrite Hl; [done|]. intros [a x] Hx. by apply elem_of_map_to_list.
Qed.
End indices.

(** ** Finishing a row *)

Section finishing.
Context `{Unicode} `{Addresses} `{GCM}.
Context (opts : Options) (secrets : Box).
Implicit Types (m : Model) (limited : gmap string string).

(** The rows the store answers with: it opens no credential, and sets nothing only the registry does. *)
Definition stored m : Prop := APIKey m = "" ∧ PlatformKey m = false ∧ Model_Billing m = None ∧ Locked m = false.

Lemma set_prices_key m a b c d :
  OrgID (set_prices m a b c d) = OrgID m ∧ Alias (set_prices m a b c d) = Alias m ∧
  APIKey (set_prices m a b c d) = APIKey m ∧ PlatformKey (set_prices m a b c d) = PlatformKey m ∧
  Backends (set_prices m a b c d) = Backends m.
Proof. done. Qed.

Lemma PriceAtFee_key m fee :
  let m' := (PriceAtFee m fee).1 in
  OrgID m' = OrgID m ∧ Alias m' = Alias m ∧ APIKey m' = APIKey m ∧ PlatformKey m' = PlatformKey m ∧
  Backends m' = Backends m.
Proof. unfold PriceAtFee. destruct (negb _); [done|]. apply set_prices_key. Qed.

(** What [Lock] leaves alone. *)
Lemma Lock_keeps p m m' : Covers p m = true → Lock p m = inr m' →
  OrgID m' = OrgID m ∧ Alias m' = Alias m ∧ Provider m' = Provider m ∧ PlatformKey m' = true.
Proof.
  intros Hc. unfold Lock. rewrite Hc. cbn [negb].
  destruct (provider (Provider m) ≫= _) as [k|]; [|done]. destruct (match provider _ with Some q => _ | None => _ end).
  by intros [= <-].
Qed.

(** The model before it may be held back. *)
Definition keyed m : Model := if Covers (o_Platform opts) m then usePlatformKey opts m else useOwnKey opts secrets m.

Lemma keyed_place m : OrgID (keyed m) = OrgID m ∧ Alias (keyed m) = Alias m.
Proof.
  unfold keyed. destruct (Covers _ m) eqn:Hc.
  - unfold usePlatformKey. destruct (Lock _ m) as [|m'] eqn:Hl; [done|]. by apply Lock_keeps in Hl as (? & ? & _).
  - unfold useOwnKey. set (m1 := if negb _ then _ else m).
    assert (OrgID m1 = OrgID m ∧ Alias m1 = Alias m) as [<- <-] by (unfold m1; by case_match).
    destruct (PriceAtFee_key m1 (GatewayFee opts)) as (<- & <- & _). by case_match.
Qed.

Lemma finishModel_place limited m :
  OrgID (finishModel opts secrets limited m) = OrgID m ∧ Alias (finishModel opts secrets limited m) = Alias m.
Proof.
  unfold finishModel. fold (keyed m). destruct (keyed_place m) as (Ho & Ha). by case_match.
Qed.

Lemma finishMCP_place limited s :
  MCP_OrgID (finishMCP secrets limited s) = MCP_OrgID s ∧ MCP_Alias (finishMCP secrets limited s) = MCP_Alias s.
Proof.
  unfold finishMCP. set (m1 := if negb _ then _ else s).
  assert (MCP_OrgID m1 = MCP_OrgID s ∧ MCP_Alias m1 = MCP_Alias s) as [<- <-] by (unfold m1; by case_match).
  by case_match.
Qed.

(** Holding a model back changes none of this. *)
Lemma finishModel_keyed limited m :
  let m' := finishModel opts secrets limited m in
  APIKey m' = APIKey (keyed m) ∧ PlatformKey m' = PlatformKey (keyed m) ∧ Backends m' = Backends (keyed m) ∧
  Model_Billing m' = Model_Billing (keyed m) ∧ (∀ n, prices m' n = prices (keyed m) n) ∧
  Locked m' = match limited !! OrgID m with Some _ => negb (openToLimited opts (keyed m)) | None => Locked (keyed m) end.
Proof.
  unfold finishModel. fold (keyed m). destruct (keyed_place m) as (-> & _). destruct (limited !! OrgID m); done.
Qed.

Lemma useOwnKey_key m : stored m →
  APIKey (useOwnKey opts secrets m) =
    (if bool_decide (APIKeyCiphertext m = "") then ""
     else open_credential secrets (ModelSecretName (OrgID m) (Alias m)) (APIKeyCiphertext m)) ∧
  PlatformKey (useOwnKey opts secrets m) = false.
Proof.
  intros (Hk & Hp & _). unfold useOwnKey. set (m1 := if negb _ then _ else m).
  destruct (PriceAtFee_key m1 (GatewayFee opts)) as (_ & _ & Ha & Hpk & _).
  assert (PlatformKey m1 = false) by (unfold m1; by case_match).
  assert (APIKey m1 = if bool_decide (APIKeyCiphertext m = "") then "" else
    open_credential secrets (ModelSecretName (OrgID m) (Alias m)) (APIKeyCiphertext m)) by (unfold m1; by destruct (bool_decide _)).
  destruct (0 <? GatewayFee opts); cbn; split; congruence.
Qed.
End finishing.

(** ** Credentials *)

Definition no_colon (s : string) : Prop := contains_byte colon s = false.

Lemma split_byte_no sep x s :
  x ≠ sep → (∀ part, part ∈ split_byte sep s → contains_byte x part = false) → contains_byte x s = false.
Proof.
  intros Hx. induction s as [|c s IH]; cbn; intros Hp; [done|].
  destruct (decide (c = sep)) as [->|Hc].
  - rewrite bool_decide_eq_true_2 in Hp by done. rewrite bool_decide_eq_false_2 by done. apply IH.
    intros part ?. apply Hp. by right.
  - rewrite bool_decide_eq_false_2 in Hp by done. destruct (split_byte sep s) as [|p ps] eqn:E.
    + by destruct s; cbn in E; repeat case_match.
    + specialize (Hp (String.String c p) ltac:(left)) as Hh. cbn in Hh. apply orb_false_iff in Hh as (-> & Hh).
      apply IH. intros part [->|?]%elem_of_cons; [done|]. apply Hp. by right.
Qed.

Lemma name_no_colon s n : validName s n = true → no_colon s.
Proof.
  unfold validName. case_match; [done|]. apply all_bytes_excludes. intros i c Hc ->. by vm_compute in Hc.
Qed.

Lemma alias_no_colon s : ValidModelAlias s = true → no_colon s.
Proof.
  unfold ValidModelAlias. case_match; [done|]. intros Hp. apply (split_byte_no slash); [done|].
  intros part Hin. rewrite forallb_forall in Hp. apply list_elem_of_In, Hp in Hin. by eapply name_no_colon.
Qed.

Lemma after_colon o o' a a' : no_colon a → no_colon a' → o +:+ ":" +:+ a = o' +:+ ":" +:+ a' → o = o' ∧ a = a'.
Proof.
  unfold no_colon. intros Ha Ha'. revert o'.
  induction o as [|c o IH]; intros [|c' o']; rewrite ?str_app_cons, ?str_app_nil_l.
  - by intros [= ->].
  - intros [= <- He]. exfalso. rewrite He in Ha. rewrite contains_byte_app in Ha. by rewrite orb_true_r in Ha.
  - intros [= -> He]. exfalso. rewrite <- He in Ha'. rewrite contains_byte_app in Ha'. by rewrite orb_true_r in Ha'.
  - intros [= -> He]. by destruct (IH _ He) as (-> & ->).
Qed.

Lemma ModelSecretName_inj o o' a a' :
  no_colon a → no_colon a' → ModelSecretName o a = ModelSecretName o' a' → o = o' ∧ a = a'.
Proof. unfold ModelSecretName. rewrite !str_app_cons, !str_app_nil_l. intros ?? [= He]. by apply after_colon. Qed.

Lemma MCPSecretName_inj o o' a a' :
  no_colon a → no_colon a' → MCPSecretName o a = MCPSecretName o' a' → o = o' ∧ a = a'.
Proof. unfold MCPSecretName. rewrite !str_app_cons, !str_app_nil_l. intros ?? [= He]. by apply after_colon. Qed.

Lemma Secret_names_differ o o' a a' : ModelSecretName o a ≠ MCPSecretName o' a'.
Proof. unfold ModelSecretName, MCPSecretName. by rewrite !str_app_cons. Qed.

Section registry_theorems.
Context `{Unicode} `{Addresses} `{GCM}.
Context (opts : Options) (secrets : Box).
Implicit Types (m : Model) (limited : gmap string string) (r : Registry) (st : Store).

(** The deployment's key goes to its provider alone, at list prices, and is billed: a model it covers is served with the platform's key only to an endpoint of its own provider, at the prices of the table, on a bill of that provider, whatever key, backend or price its row holds; where that cannot be done it keeps no key and no bill, so the provider refuses it. *)
Theorem finishModel_platform limited m :
  stored m → Covers (o_Platform opts) m = true →
  let m' := finishModel opts secrets limited m in
  (APIKey m' = "" ∧ Model_Billing m' = None ∧ ∃ err, Lock (o_Platform opts) m = inl err) ∨
  (∃ q k e rest pk, provider (Provider m) = Some q ∧ Provider_Model q (BackendModel m) = Some k ∧
     e ∈ endpoints_of q ∧ Backends m' = [origin e +:+ rest] ∧ (∀ n, prices m' n = prices (listed k) n) ∧
     o_Platform opts !! Provider m = Some pk ∧ APIKey m' = PK_APIKey pk ∧
     Model_Billing m' = Some {| Billing_Provider := Provider m; Billing_Credit := Prepaid opts;
                                FeeMicrosPerMTok := 0; Billing_AtProvider := false |}).
Proof.
  intros (Hk & _ & Hbill & _) Hc m'. destruct (finishModel_keyed opts secrets limited m) as (Ea & _ & Eb & Em & Ep & _).
  fold m' in Ea, Eb, Em, Ep. rewrite Ea, Eb, Em. setoid_rewrite Ep. unfold keyed. rewrite Hc. unfold usePlatformKey.
  destruct (Lock (o_Platform opts) m) as [err|m1] eqn:Hl; [left; eauto|right].
  destruct (Lock_overrides _ _ _ Hc Hl) as (q & k & e & rest & Hq & Hk' & He & Hbs & Hp & _).
  destruct (Lock_keeps _ _ _ Hc Hl) as (_ & _ & Hpr & _).
  unfold Covers, Has in Hc. apply andb_true_iff in Hc as (Hh%bool_decide_eq_true & _). destruct Hh as [pk Hpk].
  exists q, k, e, rest, pk. rewrite Hpr, Hpk. split_and!; try done.
Qed.

Lemma finishModel_backend limited m : Covers (o_Platform opts) m = false →
  let m' := finishModel opts secrets limited m in
  Provider m' = Provider m ∧ BackendModel m' = BackendModel m ∧ Backends m' = Backends m.
Proof.
  intros Hc. unfold finishModel. rewrite Hc. unfold useOwnKey, PriceAtFee. repeat case_match; split_and!; reflexivity.
Qed.

Lemma finishMCP_keeps limited srv :
  let srv' := finishMCP secrets limited srv in
  MCP_OrgID srv' = MCP_OrgID srv ∧ MCP_Alias srv' = MCP_Alias srv ∧ MCP_URL srv' = MCP_URL srv ∧ MCP_AuthHeader srv' = MCP_AuthHeader srv ∧
  MCP_APIKey srv' = (if bool_decide (MCP_APIKeyCiphertext srv = "") then MCP_APIKey srv
    else open_credential secrets (MCPSecretName (MCP_OrgID srv) (MCP_Alias srv)) (MCP_APIKeyCiphertext srv)).
Proof. unfold finishMCP. destruct (bool_decide _), (limited !! _) eqn:E; cbn in *; rewrite ?E; split_and!; reflexivity. Qed.

(** The row a ciphertext belongs to: a model or an MCP server, of an
    organisation and under an alias. *)
Inductive owner := ModelRow (org alias : string) | MCPRow (org alias : string).

Definition secret_name (w : owner) : string :=
  match w with ModelRow o a => ModelSecretName o a | MCPRow o a => MCPSecretName o a end.

Definition alias_valid (w : owner) : bool :=
  match w with ModelRow _ a => ValidModelAlias a | MCPRow _ a => ValidAlias a end.

(** The key a row is served with is what its own ciphertext holds: none
    without a ciphertext, none from a ciphertext sealed for any other row, and
    what was sealed for this one under a key the box has. *)
Definition own_credential (w : owner) (ciphertext key : string) : Prop :=
  (ciphertext = "" → key = "") ∧
  ∀ b nonce w' p, len nonce = NonceSize → alias_valid w' = true → ciphertext = Secret.Seal b nonce (secret_name w') p →
    (key ≠ "" → w' = w) ∧ (w' = w → aead b ∈ aead secrets :: previous secrets → key = p).

Lemma secret_name_inj w w' : alias_valid w = true → alias_valid w' = true → secret_name w = secret_name w' → w = w'.
Proof.
  assert (∀ a, ValidAlias a = true → no_colon a) as Hmcp by (intros a; apply name_no_colon).
  destruct w as [o a|o a], w' as [o' a'|o' a']; cbn [alias_valid secret_name]; intros Ha Ha' He.
  - apply ModelSecretName_inj in He as (-> & ->); [done|by apply alias_no_colon..].
  - by apply Secret_names_differ in He.
  - symmetry in He. by apply Secret_names_differ in He.
  - apply MCPSecretName_inj in He as (-> & ->); [done|by apply Hmcp..].
Qed.

Lemma open_credential_own w ciphertext : opens_sealed → binds → alias_valid w = true →
  own_credential w ciphertext (if bool_decide (ciphertext = "") then "" else open_credential secrets (secret_name w) ciphertext).
Proof.
  intros Ho Hb Hw. split; [by intros ->|]. intros b nonce w' p Hn Hw' ->.
  destruct (sealed_parts b nonce (secret_name w') p Hn) as (Hl & Hnonce & Hbody).
  rewrite bool_decide_eq_false_2 by (intros He; by rewrite He in Hl). unfold open_credential. split.
  - destruct (decide (secret_name w' = secret_name w)) as [He|He]; [intros _; by apply secret_name_inj|].
    unfold Secret.Open, open_. rewrite Hl, Hnonce, Hbody. by rewrite open_loop_foreign.
  - intros -> Hin. unfold Secret.Open. by rewrite open_sealed.
Qed.

(** C13: a credential serves only the row it was sealed for, and goes only
    where that row sends it. A model the deployment's key does not cover keeps
    its organisation, alias, provider, model at the provider and backends, and
    is served with what its own ciphertext opens to, and nothing else; a
    ciphertext of another organisation, another alias or an MCP server leaves
    it without a key. A model the deployment's key covers is never served with
    a stored credential: it has no key, or the deployment's key for its own
    provider and one backend, which is an endpoint of that provider. An MCP
    server keeps its address and its header, and is served with what its own
    ciphertext opens to. *)
Theorem finishModel_credential limited m srv :
  opens_sealed → binds → stored m → ValidModelAlias (Alias m) = true → MCP_APIKey srv = "" → ValidAlias (MCP_Alias srv) = true →
  let m' := finishModel opts secrets limited m in
  let srv' := finishMCP secrets limited srv in
  (Covers (o_Platform opts) m = false →
     OrgID m' = OrgID m ∧ Alias m' = Alias m ∧ Provider m' = Provider m ∧ BackendModel m' = BackendModel m ∧ Backends m' = Backends m ∧
     own_credential (ModelRow (OrgID m) (Alias m)) (APIKeyCiphertext m) (APIKey m')) ∧
  (Covers (o_Platform opts) m = true →
     APIKey m' = "" ∨
     ∃ q e rest pk, provider (Provider m) = Some q ∧ e ∈ endpoints_of q ∧ Backends m' = [origin e +:+ rest] ∧
       o_Platform opts !! Provider m = Some pk ∧ APIKey m' = PK_APIKey pk) ∧
  MCP_OrgID srv' = MCP_OrgID srv ∧ MCP_Alias srv' = MCP_Alias srv ∧ MCP_URL srv' = MCP_URL srv ∧ MCP_AuthHeader srv' = MCP_AuthHeader srv ∧
  own_credential (MCPRow (MCP_OrgID srv) (MCP_Alias srv)) (MCP_APIKeyCiphertext srv) (MCP_APIKey srv').
Proof.
  intros Ho Hb Hst Hv Hk Hv' m' srv'. split; [|split].
  - intros Hc. destruct (finishModel_keyed opts secrets limited m) as (Ea & _ & Eb & _). fold m' in Ea, Eb.
    destruct (finishModel_backend limited m Hc) as (Ep & Em & Ebs). fold m' in Ep, Em, Ebs.
    destruct (finishModel_place opts secrets limited m) as (Eo & El). fold m' in Eo, El. split_and!; [done..|].
    rewrite Ea. unfold keyed. rewrite Hc. destruct (useOwnKey_key opts secrets m Hst) as (-> & _).
    exact (open_credential_own (ModelRow (OrgID m) (Alias m)) _ Ho Hb Hv).
  - intros Hc. destruct (finishModel_platform limited m Hst Hc) as [(Ea & _)|(q & k & e & rest & pk & Hq & _ & He & Hbs & _ & Hpk & Ha & _)];
      [left; exact Ea|right; by exists q, e, rest, pk].
  - destruct (finishMCP_keeps limited srv) as (E1 & E2 & E3 & E4 & Hkey). fold srv' in E1, E2, E3, E4, Hkey. split_and!; [done..|]. rewrite Hkey, Hk.
    exact (open_credential_own (MCPRow (MCP_OrgID srv) (MCP_Alias srv)) _ Ho Hb Hv').
Qed.

(** A self-signed-up organisation that has not paid costs the deployment nothing: of its models, those that are not locked are the ones served with the deployment's key on prepaid credit, and those on public addresses; every other model of it is locked, and none of an organisation that is not limited is. *)
Theorem finishModel_limited limited m :
  stored m →
  let m' := finishModel opts secrets limited m in
  Locked m' = false ↔
    (limited !! OrgID m = None ∨
     (PlatformKey m' = true ∧ Prepaid opts = true ∧ Covers (o_Platform opts) m = true ∧
        ∃ b, Model_Billing m' = Some b ∧ Billing_Credit b = true) ∨
     (PlatformKey m' = false ∧ Model_Hosting m' = HostedExternal)).
Proof.
  intros Hst m'. pose proof Hst as (_ & Hpk & _ & Hlk).
  destruct (finishModel_keyed opts secrets limited m) as (_ & Epk & Eb & Em & _ & El). fold m' in Epk, Eb, Em, El.
  assert (Model_Hosting m' = Model_Hosting (keyed opts secrets m)) as ->.
  { unfold Model_Hosting. by rewrite Eb. }
  assert (Locked (keyed opts secrets m) = false) as Hk0.
  { unfold keyed. destruct (Covers _ m) eqn:Hc.
    - unfold usePlatformKey, Lock. rewrite Hc. cbn [negb]. destruct (provider _ ≫= _); [|done].
      by destruct (match provider _ with Some q => _ | None => _ end).
    - unfold useOwnKey, PriceAtFee. repeat case_match; done. }
  rewrite El, Epk, Em. destruct (limited !! OrgID m); [|naive_solver]. unfold openToLimited.
  rewrite negb_false_iff. destruct (PlatformKey (keyed opts secrets m)) eqn:Hp.
  - assert (Covers (o_Platform opts) m = true ∧ ∃ b, Model_Billing (keyed opts secrets m) = Some b ∧ Billing_Credit b = Prepaid opts) as (Hc & b & Hb & Hcr).
    { unfold keyed in *. destruct (Covers (o_Platform opts) m) eqn:Hc.
      - split; [done|]. unfold usePlatformKey in *. destruct (Lock _ m); [congruence|]. eexists. split; [done|]. done.
      - destruct (useOwnKey_key opts secrets m Hst) as (_ & Hu). congruence. }
    split; [intros Hpre; right; left; split_and!; eauto; exists b; split; congruence|]. naive_solver.
  - rewrite bool_decide_eq_true. naive_solver.
Qed.
End registry_theorems.

(** ** Reloading one organisation and reloading everything *)

(** The rows of the store at one moment. *)
Record view := {
  v_limited : gmap string string;
  v_models : list Model;
  v_mcp : list MCPServer;
  v_filters : list Filter;
  v_routers : list Router;
}.

(** The store answers every query from the same rows. *)
Record answers (st : Store) (v : view) : Prop := {
  a_limited : LimitedOrgs st = inr (v_limited v);
  a_models : LoadModels st = inr (v_models v);
  a_mcp : LoadMCPServers st = inr (v_mcp v);
  a_filters : LoadFilters st = inr (v_filters v);
  a_routers : LoadRouters st = inr (v_routers v);
  a_org : ∀ o, ∃ org, OrgByID st o = inr org ∧
    match org with Some x => if Org_Limited x then Some (Org_Name x) else None | None => None end = v_limited v !! o;
  a_own_models : ∀ o, ListModels st o = inr (own_things OrgID o (v_models v));
  a_own_mcp : ∀ o, ListMCPServers st o = inr (own_things MCP_OrgID o (v_mcp v));
  a_own_filters : ∀ o, ListFilters st o = inr (own_things F_OrgID o (v_filters v));
  a_own_routers : ∀ o, ListRouters st o = inr (own_things Ro_OrgID o (v_routers v));
}.

(** Two moments between which only [org] changed. *)
Definition same_elsewhere (org : string) (v v' : view) : Prop :=
  ∀ o, o ≠ org → v_limited v !! o = v_limited v' !! o ∧
    own_things OrgID o (v_models v) = own_things OrgID o (v_models v') ∧
    own_things MCP_OrgID o (v_mcp v) = own_things MCP_OrgID o (v_mcp v') ∧
    own_things F_OrgID o (v_filters v) = own_things F_OrgID o (v_filters v') ∧
    own_things Ro_OrgID o (v_routers v) = own_things Ro_OrgID o (v_routers v').

Lemma own_finished {T} (org : T → string) (finish : T → T) o (l : list T) :
  (∀ x, org (finish x) = org x) → own_things org o (map finish l) = map finish (own_things org o l).
Proof.
  intros Hf. unfold own_things. induction l as [|x l IH]; [done|]. cbn [map]. destruct (decide (org x = o)) as [Ho|Ho].
  - rewrite !filter_cons_True by (by rewrite ?Hf). cbn. by rewrite IH.
  - rewrite !filter_cons_False by (by rewrite ?Hf). done.
Qed.

Lemma own_map_ext {T} (org : T → string) (f g : T → T) o (l : list T) :
  (∀ x, org x = o → f x = g x) → map f (own_things org o l) = map g (own_things org o l).
Proof.
  intros Hfg. apply map_ext_in. intros x Hx. apply Hfg. apply list_elem_of_In, list_elem_of_filter in Hx. tauto.
Qed.

Lemma reload_index {T} (org alias : T → string) (f0 f1 fo : T → T) o (l0 l1 : list T) :
  (∀ x, org (f0 x) = org x) → (∀ x, org (f1 x) = org x) →
  (∀ x, org x ≠ o → f0 x = f1 x) → (∀ x, org x = o → fo x = f1 x) →
  (∀ o', o' ≠ o → own_things org o' l0 = own_things org o' l1) →
  replaceOrg (replaceAll l0 (λ x, (f0 x, (org (f0 x), alias (f0 x))))) o (own_things org o l1) (λ x, (fo x, alias (fo x))) =
  replaceAll l1 (λ x, (f1 x, (org (f1 x), alias (f1 x)))).
Proof.
  intros H0 H1 H01 Ho Hown. apply map_eq. intros o'. rewrite replaceOrg_lookup, !replaceAll_lookup.
  rewrite !own_finished by done. case_bool_decide as He.
  - subst. rewrite (own_map_ext org fo f1) by done. by destruct (own_things org o l1).
  - rewrite Hown, (own_map_ext org f0 f1) by (try done; intros x <-; by apply H01). done.
Qed.

Section reloads.
Context `{Unicode} `{Addresses} `{GCM}.
Context (opts : Options) (secrets : Box).

Lemma finishModel_limited_eq l l' (m : Model) :
  l !! OrgID m = l' !! OrgID m → finishModel opts secrets l m = finishModel opts secrets l' m.
Proof. unfold finishModel. fold (keyed opts secrets m). destruct (keyed_place opts secrets m) as (-> & _). by intros ->. Qed.

Lemma finishMCP_limited_eq l l' (s : MCPServer) :
  l !! MCP_OrgID s = l' !! MCP_OrgID s → finishMCP secrets l s = finishMCP secrets l' s.
Proof. unfold finishMCP. by destruct (bool_decide _); cbn [negb update MCP_OrgID]; intros ->. Qed.

(** C18: reloading one organisation is as good as reloading everything: when the registry holds what a full reload read, and only that organisation's rows, its being limited or its existence changed since, [refreshOrg] leaves exactly what another full reload would, a deleted organisation included. *)
Theorem refreshOrg_refreshAll st st' v v' org r r0 :
  answers st v → answers st' v' → same_elsewhere org v v' → refreshAll opts secrets st r = inr r0 →
  ∃ r1, refreshOrg opts secrets st' org r0 = inr r1 ∧ refreshAll opts secrets st' r0 = inr r1.
Proof.
  intros Hv Hv' Hsame. unfold refreshAll, refreshOrg.
  rewrite (a_limited _ _ Hv), (a_models _ _ Hv), (a_mcp _ _ Hv), (a_filters _ _ Hv), (a_routers _ _ Hv). intros [= <-].
  rewrite (a_limited _ _ Hv'), (a_models _ _ Hv'), (a_mcp _ _ Hv'), (a_filters _ _ Hv'), (a_routers _ _ Hv').
  destruct (a_org _ _ Hv' org) as (x & -> & Hx).
  rewrite (a_own_models _ _ Hv'), (a_own_mcp _ _ Hv'), (a_own_filters _ _ Hv'), (a_own_routers _ _ Hv').
  set (limited := match x with Some o => if Org_Limited o then {[ org := Org_Name o ]} else ∅ | None => ∅ end).
  assert (Hlim : limited !! org = v_limited v' !! org).
  { rewrite <- Hx. unfold limited. destruct x as [o|]; [destruct (Org_Limited o)|]; simplify_map_eq; done. }
  eexists. split; [reflexivity|]. f_equal. unfold update. cbn [r_models r_mcp r_filters r_routers r_pending].
  f_equal; symmetry.
  - apply (reload_index OrgID Alias (finishModel opts secrets (v_limited v)) (finishModel opts secrets (v_limited v'))).
    + intros m. apply finishModel_place.
    + intros m. apply finishModel_place.
    + intros m Ho. apply finishModel_limited_eq. by apply Hsame.
    + intros m Ho. apply finishModel_limited_eq. by rewrite Ho.
    + intros o Ho. by apply Hsame.
  - apply (reload_index F_OrgID F_Alias (λ f, f) (λ f, f)); try done. intros o Ho. by apply Hsame.
  - apply (reload_index Ro_OrgID Ro_Alias (λ f, f) (λ f, f)); try done. intros o Ho. by apply Hsame.
  - apply (reload_index MCP_OrgID MCP_Alias (finishMCP secrets (v_limited v)) (finishMCP secrets (v_limited v'))).
    + intros s. apply finishMCP_place.
    + intros s. apply finishMCP_place.
    + intros s Ho. apply finishMCP_limited_eq. by apply Hsame.
    + intros s Ho. apply finishMCP_limited_eq. by rewrite Ho.
    + intros o Ho. by apply Hsame.
Qed.
End reloads.

(** ** What every reload keeps *)

Section upkeep.
Context `{Unicode} `{Addresses} `{GCM}.
Context (opts : Options) (secrets : Box).

(** Every thing is where its own row puts it, finished from that row. *)
Record registry_ok (r : Registry) : Prop := {
  ok_models : ∀ o a m, find (r_models r) o a = Some m →
    ∃ row limited, m = finishModel opts secrets limited row ∧ stored row ∧ OrgID row = o ∧ Alias row = a;
  ok_mcp : ∀ o a s, find (r_mcp r) o a = Some s →
    ∃ row limited, s = finishMCP secrets limited row ∧ MCP_OrgID row = o ∧ MCP_Alias row = a;
  ok_filters : ∀ o a f, find (r_filters r) o a = Some f → F_OrgID f = o ∧ F_Alias f = a;
  ok_routers : ∀ o a p, find (r_routers r) o a = Some p → Ro_OrgID p = o ∧ Ro_Alias p = a;
}.

(** The store lists an organisation's own rows under it, as they are stored. *)
Record rows_ok (st : Store) : Prop := {
  ok_load : ∀ ms, LoadModels st = inr ms → Forall stored ms;
  ok_list : ∀ o ms, ListModels st o = inr ms → Forall (λ m, stored m ∧ OrgID m = o) ms;
  ok_list_mcp : ∀ o ss, ListMCPServers st o = inr ss → Forall (λ s, MCP_OrgID s = o) ss;
  ok_list_filters : ∀ o fs, ListFilters st o = inr fs → Forall (λ f, F_OrgID f = o) fs;
  ok_list_routers : ∀ o ps, ListRouters st o = inr ps → Forall (λ p, Ro_OrgID p = o) ps;
}.

Lemma find_replaceAll {T} (finish : T → T) (org alias : T → string) l o a x :
  find (replaceAll l (λ x, (finish x, (org (finish x), alias (finish x))))) o a = Some x →
  ∃ row, row ∈ l ∧ x = finish row ∧ org x = o ∧ alias x = a.
Proof.
  unfold find. rewrite replaceAll_lookup. destruct (own_things _ _ _) as [|y ys] eqn:E; [done|].
  cbn [mbind option_bind]. intros (Hin & Ha)%by_alias_in. rewrite <- E in Hin.
  apply list_elem_of_filter in Hin as (Ho & (row & -> & Hr)%list_elem_of_fmap). eauto.
Qed.

Lemma find_replaceOrg {T} (old : index T) org l (finish : T → T) (alias : T → string) o a x :
  find (replaceOrg old org l (λ x, (finish x, alias (finish x)))) o a = Some x →
  (o ≠ org ∧ find old o a = Some x) ∨ (o = org ∧ ∃ row, row ∈ l ∧ x = finish row ∧ alias x = a).
Proof.
  unfold find. rewrite replaceOrg_lookup. case_bool_decide as Ho; [|auto]. destruct l as [|y ys] eqn:E; [done|].
  rewrite <- E in *. clear E. cbn [mbind option_bind]. intros ((row & -> & Hr)%list_elem_of_fmap & Ha)%by_alias_in. eauto 6.
Qed.

Lemma refreshAll_ok st r r' : rows_ok st → refreshAll opts secrets st r = inr r' → registry_ok r'.
Proof.
  intros Hst. unfold refreshAll. destruct (LimitedOrgs st) as [|limited]; [done|].
  destruct (LoadModels st) as [|ms] eqn:Hms; [done|]. destruct (LoadMCPServers st) as [|ss]; [done|].
  destruct (LoadFilters st) as [|fs]; [done|]. destruct (LoadRouters st) as [|ps]; [done|]. intros [= <-].
  unfold update. split; cbn [r_models r_mcp r_filters r_routers].
  - intros o a m (row & Hin & -> & Ho & Ha)%(find_replaceAll (finishModel opts secrets limited) OrgID Alias).
    destruct (finishModel_place opts secrets limited row) as (Eo & Ea). exists row, limited.
    split_and!; [done| |congruence|congruence]. by apply (Forall_forall stored ms); [apply (ok_load st Hst)|].
  - intros o a s (row & Hin & -> & Ho & Ha)%(find_replaceAll (finishMCP secrets limited) MCP_OrgID MCP_Alias).
    destruct (finishMCP_place secrets limited row) as (Eo & Ea). exists row, limited. split_and!; congruence.
  - intros o a f (row & Hin & -> & Ho & Ha)%(find_replaceAll (λ f, f) F_OrgID F_Alias). done.
  - intros o a f (row & Hin & -> & Ho & Ha)%(find_replaceAll (λ f, f) Ro_OrgID Ro_Alias). done.
Qed.

Lemma refreshOrg_ok st org r r' : rows_ok st → registry_ok r → refreshOrg opts secrets st org r = inr r' → registry_ok r'.
Proof.
  intros Hst [Hm Hs Hf Hp]. unfold refreshOrg. destruct (OrgByID st org) as [|x]; [done|].
  set (limited := match x with Some o => if Org_Limited o then _ else _ | None => _ end).
  destruct (ListModels st org) as [|ms] eqn:Hms; [done|]. destruct (ListMCPServers st org) as [|ss] eqn:Hss; [done|].
  destruct (ListFilters st org) as [|fs] eqn:Hfs; [done|]. destruct (ListRouters st org) as [|ps] eqn:Hps; [done|].
  intros [= <-]. unfold update. split; cbn [r_models r_mcp r_filters r_routers].
  - intros o a m [(_ & ?)|(-> & row & Hin & -> & Ha)]%(find_replaceOrg _ _ _ (finishModel opts secrets limited) Alias); [by apply Hm|].
    destruct (finishModel_place opts secrets limited row) as (Eo & Ea).
    pose proof (ok_list st Hst _ _ Hms) as Hall. rewrite Forall_forall in Hall. destruct (Hall _ Hin).
    exists row, limited. split_and!; [done|done|done|congruence].
  - intros o a s [(_ & ?)|(-> & row & Hin & -> & Ha)]%(find_replaceOrg _ _ _ (finishMCP secrets limited) MCP_Alias); [by apply Hs|].
    destruct (finishMCP_place secrets limited row) as (Eo & Ea).
    pose proof (ok_list_mcp st Hst _ _ Hss) as Hall. rewrite Forall_forall in Hall. pose proof (Hall _ Hin).
    exists row, limited. split_and!; [done|done|congruence].
  - intros o a f [(_ & ?)|(-> & row & Hin & -> & Ha)]%(find_replaceOrg _ _ _ (λ f, f) F_Alias); [by apply Hf|].
    pose proof (ok_list_filters st Hst _ _ Hfs) as Hall. rewrite Forall_forall in Hall. auto.
  - intros o a f [(_ & ?)|(-> & row & Hin & -> & Ha)]%(find_replaceOrg _ _ _ (λ f, f) Ro_Alias); [by apply Hp|].
    pose proof (ok_list_routers st Hst _ _ Hps) as Hall. rewrite Forall_forall in Hall. auto.
Qed.

Lemma registry_ok_pending r p : registry_ok r → registry_ok (r <| r_pending := p |>).
Proof. intros [? ? ? ?]. by split. Qed.

Lemma orgs_loop_ok st orgs : (∀ o, rows_ok (st o)) → ∀ r errs,
  registry_ok r → registry_ok (orgs_loop opts secrets st orgs r errs).1.
Proof.
  intros Hst. induction orgs as [|o orgs IH]; intros r errs Hr; [done|]. cbn.
  destruct (refreshOrg _ _ _ _ _) eqn:E; apply IH; [by apply registry_ok_pending|].
  eapply refreshOrg_ok; [apply Hst|exact Hr|exact E].
Qed.

(** The registry after [New] and any reloads since. *)
Inductive loaded : Registry → Prop :=
  | loaded_new st r : rows_ok st → refreshAll opts secrets st empty_registry = inr r → loaded r
  | loaded_wanted c r : loaded r → loaded (r <| r_pending := want c (r_pending r) |>)
  | loaded_refreshed all st orgs r : rows_ok all → (∀ o, rows_ok (st o)) → loaded r →
      loaded (refreshPending opts secrets all st orgs r).1.

(** No organisation ever sees another's things: after [New] and any sequence of wanted changes and reloads, failed ones included, what the registry finds under an organisation and an alias is that organisation's own, of that alias, and a model or MCP server there is a stored row of it finished as [finishModel] and [finishMCP] do. *)
Theorem loaded_own r : loaded r → registry_ok r.
Proof.
  induction 1 as [st r Hst Hr|c r _ IH|all st orgs r Hall Hst _ IH].
  - eapply refreshAll_ok; eauto.
  - by apply registry_ok_pending.
  - unfold refreshPending. destruct (p_all _).
    + destruct (refreshAll _ _ _ _) eqn:E; cbn; [by apply registry_ok_pending, registry_ok_pending|].
      eapply refreshAll_ok; eauto.
    + apply orgs_loop_ok; [done|]. by apply registry_ok_pending.
Qed.

(** *** Nothing wanted is lost *)

Lemma Change_org_OrgChange o : o ≠ "" → Change_key (OrgChange o) = None ∧ Change_org (OrgChange o) = Some o.
Proof.
  intros Ho. unfold Change_key, Change_org, KeyCache.named, OrgChange. split; [done|].
  rewrite (proj2 (CutPrefix_spec _ _ _) eq_refl). by rewrite bool_decide_eq_false_2.
Qed.

(** Does the store fail one of the reads of a reload of [org]? *)
Definition fails (st : Store) (org : string) : bool :=
  match refreshOrg opts secrets st org empty_registry with inl _ => true | inr _ => false end.

Lemma refreshOrg_fails st org r :
  match refreshOrg opts secrets st org r with
  | inl _ => fails st org = true
  | inr r' => fails st org = false ∧ r_pending r' = r_pending r
  end.
Proof.
  unfold fails, refreshOrg. destruct (OrgByID st org); [done|]. destruct (ListModels st org); [done|].
  destruct (ListMCPServers st org); [done|]. destruct (ListFilters st org); [done|]. by destruct (ListRouters st org).
Qed.

Lemma orgs_loop_pending st orgs : Forall (λ o, o ≠ "") orgs → ∀ r errs,
  p_all (r_pending r) = false →
  let '(r', errs') := orgs_loop opts secrets st orgs r errs in
  p_all (r_pending r') = false ∧
  p_orgs (r_pending r') = list_to_set (filter (λ o, fails (st o) o = true) orgs) ∪ p_orgs (r_pending r) ∧
  length errs' = (length errs + length (filter (λ o, fails (st o) o = true) orgs))%nat.
Proof.
  induction 1 as [|o orgs Ho Horgs IH]; intros r errs Hp; cbn [orgs_loop].
  { split_and!; [done| |simpl; lia]. set_solver. }
  pose proof (refreshOrg_fails (st o) o r) as Hf. destruct (refreshOrg _ _ _ _ _) as [err|r'] eqn:E.
  - rewrite filter_cons_True by done.
    assert (Hw : want (OrgChange o) (r_pending r) = {| p_all := false; p_orgs := {[ o ]} ∪ p_orgs (r_pending r) |}).
    { unfold want. destruct (Change_org_OrgChange o Ho) as (-> & ->). by rewrite Hp. }
    specialize (IH (r <| r_pending := want (OrgChange o) (r_pending r) |>) (errs ++ [err])).
    cbn [update r_pending] in IH. rewrite Hw in *. specialize (IH eq_refl).
    destruct (orgs_loop _ _ _ _ _ _) as [r2 errs2]. destruct IH as (? & -> & ->). split_and!; [done|set_solver|].
    rewrite length_app. cbn. lia.
  - destruct Hf as (Hf & Hr). rewrite filter_cons_False by congruence. rewrite <- Hr in Hp.
    specialize (IH r' errs Hp). by rewrite Hr in IH.
Qed.

(** No change that was wanted is lost by a reload that fails: [refreshPending] leaves pending exactly the organisations whose reads failed, or everything where the full reload did, and reports an error for each; what is no longer pending was reloaded. A change of one key asks for nothing. *)
Theorem refreshPending_retries all st orgs r :
  Permutation orgs (elements (p_orgs (r_pending r))) → "" ∉ p_orgs (r_pending r) →
  let '(r', errs) := refreshPending opts secrets all st orgs r in
  (p_all (r_pending r) = true →
     (errs = [] ∧ refreshAll opts secrets all (r <| r_pending := no_pending |>) = inr r') ∨
     (length errs = 1%nat ∧ p_all (r_pending r') = true ∧ r_models r' = r_models r)) ∧
  (p_all (r_pending r) = false →
     p_all (r_pending r') = false ∧ p_orgs (r_pending r') = filter (λ o, fails (st o) o = true) (p_orgs (r_pending r)) ∧
     length errs = size (p_orgs (r_pending r'))) ∧
  (∀ id, id ≠ "" → want (KeyChange id) (r_pending r') = r_pending r').
Proof.
  intros Hperm Hempty.
  assert (Hkey : ∀ id p, id ≠ "" → want (KeyChange id) p = p).
  { intros id p Hid. unfold want, Change_key, KeyCache.named, KeyChange. rewrite (proj2 (CutPrefix_spec _ _ _) eq_refl).
    by rewrite bool_decide_eq_false_2. }
  unfold refreshPending. destruct (p_all (r_pending r)) eqn:Hall.
  - destruct (refreshAll _ _ _ _) as [err|r'] eqn:E; split_and!; try done; intros; try (by apply Hkey); [right|left]; auto.
  - assert (Hne : Forall (λ o, o ≠ "") orgs).
    { rewrite Hperm, Forall_forall. intros o Ho%elem_of_elements ->. done. }
    pose proof (orgs_loop_pending st orgs Hne (r <| r_pending := no_pending |>) [] eq_refl) as Hloop.
    destruct (orgs_loop _ _ _ _ _ _) as [r' errs]. destruct Hloop as (Ha & Ho & Hl).
    split_and!; [done| |intros; by apply Hkey]. intros _.
    assert (p_orgs (r_pending r') = filter (λ o, fails (st o) o = true) (p_orgs (r_pending r))) as Heq.
    { rewrite Ho. cbn. rewrite union_empty_r_L. apply set_eq. intros o.
      rewrite elem_of_list_to_set, list_elem_of_filter, Hperm, elem_of_elements, elem_of_filter. done. }
    split_and!; [done|done|]. rewrite Hl, Ho. cbn. rewrite union_empty_r_L.
    symmetry. apply size_list_to_set. apply NoDup_filter. rewrite Hperm. apply NoDup_elements.
Qed.
End upkeep.

(** ** What the gateway lists *)

(** [Models] lists every model of the organisation exactly once, in the order of the aliases, and the alias of each finds it. *)
Theorem Models_listed (r : Registry) (org : string) :
  (∀ o a m, find (r_models r) o a = Some m → Alias m = a) →
  let ms := @src_Models (registry_lists r) org in
  (∀ m, m ∈ ms ↔ @src_Model (registry_source r) org (Alias m) = Some m) ∧ NoDup (Alias <$> ms) ∧
  Sorted string_le (Alias <$> ms).
Proof.
  intros Hok ms. set (own := default ∅ (r_models r !! org)).
  assert (Hfind : ∀ a, find (r_models r) org a = own !! a).
  { intros a. unfold find, own. by destruct (r_models r !! org). }
  assert (Hal : Alias <$> ms = sorted_keys own).
  { unfold ms, registry_lists. cbn [src_Models]. fold own. unfold sortedValues.
    assert (∀ ks : list string, (∀ k, k ∈ ks → is_Some (own !! k)) → Alias <$> omap (λ a, own !! a) ks = ks) as Hks.
    { induction ks as [|k ks IH]; intros Hin; [done|]. destruct (Hin k ltac:(left)) as [m Hm]. cbn. rewrite Hm. cbn.
      f_equal; [|apply IH; intros; apply Hin; by right]. by apply (Hok org), eq_trans with (own !! k). }
    apply Hks. intros k. by rewrite elem_of_sorted_keys. }
  split_and!.
  - intros m. unfold registry_source. cbn [src_Model]. rewrite Hfind. unfold ms, registry_lists. cbn [src_Models].
    fold own. rewrite sortedValues_spec, list_elem_of_fmap. split.
    + intros ([a x] & -> & Hx%elem_of_map_to_list). cbn. rewrite <- Hfind in Hx. rewrite (Hok _ _ _ Hx). by rewrite <- Hfind.
    + intros Hm. exists (Alias m, m). split; [done|]. by apply elem_of_map_to_list.
  - rewrite Hal. apply NoDup_sorted_keys.
  - rewrite Hal. apply Sorted_sorted_keys.
Qed.

(** *** Witnesses *)

Section samples.
Instance sample_names : Unicode := {| ToLower := ToLower_ascii; ToUpper s := s; Quote s := s |}.
Instance sample_parser : Addresses :=
  {| url_Parse s := Some {| url_Scheme := "https"; url_Host := s; url_Hostname := s; url_user := false |};
     netip_ParseAddr _ := None |}.
Instance sample_cipher : GCM := toy_cipher.

Definition sample_options : Options :=
  {| TTL := 0; NegativeTTL := 0; SpendRefresh := 0; o_Platform := sample_platform; Prepaid := true; GatewayFee := 0 |}.

Definition sample_model_row : Model :=
  Model_zero <| OrgID := "org_1" |> <| Alias := "own" |> <| Backends := ["llm.example.com"] |>
    <| APIKeyCiphertext := Secret.Seal old_box sample_nonce (ModelSecretName "org_1" "own") "sk-own" |>.

Definition sample_covered_row : Model := sample_stored <| OrgID := "org_1" |> <| Alias := "apertus" |>.

Definition sample_view (ms : list Model) (limited : gmap string string) : view :=
  {| v_limited := limited; v_models := ms; v_mcp := []; v_filters := []; v_routers := [] |}.

(** A store that answers from one view. *)
Definition store_of (v : view) : Store :=
  {| LimitedOrgs := inr (v_limited v); LoadModels := inr (v_models v); LoadMCPServers := inr (v_mcp v);
     LoadFilters := inr (v_filters v); LoadRouters := inr (v_routers v);
     OrgByID o := inr (match v_limited v !! o with
                       | Some n => Some {| Org_ID := o; Org_Name := n; Org_Limited := true |}
                       | None => Some {| Org_ID := o; Org_Name := "an org"; Org_Limited := false |} end);
     ListModels o := inr (own_things OrgID o (v_models v)); ListMCPServers o := inr (own_things MCP_OrgID o (v_mcp v));
     ListFilters o := inr (own_things F_OrgID o (v_filters v)); ListRouters o := inr (own_things Ro_OrgID o (v_routers v)) |}.

Lemma store_of_answers v : answers (store_of v) v.
Proof. split; try done. intros o. eexists. split; [done|]. by destruct (v_limited v !! o). Qed.

Lemma store_of_rows v : Forall stored (v_models v) → rows_ok (store_of v).
Proof.
  intros Hs. split; cbn; [by intros ms [= <-]|..]; intros o xs [= <-]; apply Forall_forall; intros x Hx;
    apply list_elem_of_filter in Hx as (Ho & Hx); [|done..]. split; [|done]. rewrite Forall_forall in Hs. by apply Hs.
Qed.

Definition sample_server_row : MCPServer :=
  {| MCP_OrgID := "org_1"; MCP_Alias := "docs"; MCP_URL := "https://mcp.example.com"; MCP_Description := ""; MCP_AuthHeader := "Authorization";
     MCP_APIKeyCiphertext := APIKeyCiphertext sample_model_row; MCP_APIKey := ""; MCP_HasAPIKey := true; MCP_Limited := false; MCP_Locked := false;
     MCP_OrgName := ""; MCP_Enabled := true |}.

(** The credential of a model opens on its own row, and neither on the same
    model of another organisation nor on an MCP server it was copied to. *)
Lemma finishModel_credential_witness :
  APIKey (finishModel sample_options new_box ∅ sample_model_row) = "sk-own" ∧
  Backends (finishModel sample_options new_box ∅ sample_model_row) = ["llm.example.com"] ∧
  APIKey (finishModel sample_options new_box ∅ (sample_model_row <| OrgID := "org_2" |>)) = "" ∧
  MCP_APIKey (finishMCP new_box ∅ sample_server_row) = "".
Proof.
  pose proof (finishModel_credential sample_options new_box ∅ sample_model_row sample_server_row toy_opens_sealed toy_binds
    ltac:(split_and!; reflexivity) eq_refl eq_refl eq_refl) as (Hm & _ & _ & _ & _ & _ & _ & Hs).
  pose proof (finishModel_credential sample_options new_box ∅ (sample_model_row <| OrgID := "org_2" |>) sample_server_row toy_opens_sealed toy_binds
    ltac:(split_and!; reflexivity) eq_refl eq_refl eq_refl) as (Hm2 & _).
  destruct (Hm eq_refl) as (_ & _ & _ & _ & Hbs & _ & Hkey). destruct (Hm2 eq_refl) as (_ & _ & _ & _ & _ & _ & Hkey2).
  split_and!.
  - apply (Hkey old_box sample_nonce (ModelRow "org_1" "own") "sk-own"); try reflexivity. right. left.
  - exact Hbs.
  - destruct (decide (APIKey (finishModel sample_options new_box ∅ (sample_model_row <| OrgID := "org_2" |>)) = "")) as [He|He]; [exact He|].
    destruct (Hkey2 old_box sample_nonce (ModelRow "org_1" "own") "sk-own" eq_refl eq_refl eq_refl) as [Hw _]. discriminate (Hw He).
  - destruct (decide (MCP_APIKey (finishMCP new_box ∅ sample_server_row) = "")) as [He|He]; [exact He|].
    destruct (Hs old_box sample_nonce (ModelRow "org_1" "own") "sk-own" eq_refl eq_refl eq_refl) as [Hw _]. discriminate (Hw He).
Defined.

Lemma finishModel_platform_witness :
  APIKey (finishModel sample_options new_box ∅ sample_covered_row) = "" ∨
  ∃ pk, o_Platform sample_options !! Provider sample_covered_row = Some pk ∧
    APIKey (finishModel sample_options new_box ∅ sample_covered_row) = PK_APIKey pk.
Proof.
  destruct (finishModel_platform sample_options new_box ∅ sample_covered_row)
    as [(Hk & _)|(q & k & e & rest & pk & _ & _ & _ & _ & _ & Hp & Hk & _)];
    [split_and!; reflexivity|vm_compute; reflexivity|left; exact Hk|right; exists pk; split; [exact Hp|exact Hk]].
Defined.

Lemma finishModel_limited_witness :
  Locked (finishModel sample_options new_box {[ "org_1" := "Acme" ]} sample_covered_row) = false.
Proof.
  apply (finishModel_limited sample_options new_box); [split_and!; reflexivity|].
  right. left. split_and!; [vm_compute; reflexivity|reflexivity|vm_compute; reflexivity|].
  eexists. split; [vm_compute; reflexivity|reflexivity].
Defined.

Definition before_change : view := sample_view [sample_model_row; sample_covered_row <| OrgID := "org_2" |>] ∅.
Definition after_change : view := sample_view [sample_covered_row <| OrgID := "org_2" |>] {[ "org_1" := "Acme" ]}.

Lemma change_elsewhere : same_elsewhere "org_1" before_change after_change.
Proof.
  intros o Ho. split_and!; try done.
  - cbn. by rewrite lookup_empty, lookup_singleton_ne.
  - cbn [before_change after_change sample_view v_models]. unfold own_things.
    rewrite (filter_cons_False _ sample_model_row); [done|]. cbn. congruence.
Qed.

Definition sample_registry : Registry :=
  match refreshAll sample_options new_box (store_of before_change) empty_registry with inr r => r | inl _ => empty_registry end.

Lemma refreshOrg_refreshAll_witness :
  ∃ r1, refreshOrg sample_options new_box (store_of after_change) "org_1" sample_registry = inr r1 ∧
        refreshAll sample_options new_box (store_of after_change) sample_registry = inr r1.
Proof.
  apply (refreshOrg_refreshAll sample_options new_box (store_of before_change) (store_of after_change) before_change
    after_change "org_1" empty_registry); [apply store_of_answers|apply store_of_answers|apply change_elsewhere|reflexivity].
Defined.

Lemma before_stored : Forall stored (v_models before_change).
Proof. repeat constructor; reflexivity. Qed.

Lemma sample_loaded : loaded sample_options new_box sample_registry.
Proof.
  apply (loaded_new _ _ (store_of before_change)); [apply store_of_rows, before_stored|]. reflexivity.
Qed.

Lemma loaded_own_sample : registry_ok sample_options new_box sample_registry.
Proof. eapply refreshAll_ok; [apply (store_of_rows before_change), before_stored|]. reflexivity. Qed.

Lemma loaded_own_witness : registry_ok sample_options new_box sample_registry.
Proof. apply (loaded_own sample_options new_box). exact sample_loaded. Defined.

Lemma Models_listed_witness :
  NoDup (Alias <$> @src_Models (registry_lists sample_registry) "org_1").
Proof.
  apply (Models_listed sample_registry "org_1"). intros o a m Hm.
  destruct (ok_models _ _ _ loaded_own_sample o a m Hm) as (row & limited & -> & _ & _ & <-).
  apply finishModel_place.
Defined.

Definition waiting : Registry := sample_registry <| r_pending := want (OrgChange "org_1") no_pending |>.

(** A store that fails the first read of an organisation. *)
Definition broken : Store := 
  {| LimitedOrgs := inl "down"; LoadModels := inl "down"; LoadMCPServers := inl "down"; LoadFilters := inl "down";
     LoadRouters := inl "down"; OrgByID _ := inl "down"; ListModels _ := inl "down"; ListMCPServers _ := inl "down";
     ListFilters _ := inl "down"; ListRouters _ := inl "down" |}.

Lemma refreshPending_retries_witness :
  p_orgs (r_pending (refreshPending sample_options new_box broken (λ _, broken) ["org_1"] waiting).1) = {[ "org_1" ]}.
Proof.
  pose proof (refreshPending_retries sample_options new_box broken (λ _, broken) ["org_1"] waiting
    ltac:(vm_compute; reflexivity) ltac:(vm_compute; intros Hin; discriminate Hin || apply _)) as Hr.
  destruct (refreshPending _ _ _ _ _ waiting) as [r' errs]. destruct Hr as (_ & Ho & _).
  destruct (Ho eq_refl) as (_ & Hp & _). cbn. rewrite Hp. vm_compute. reflexivity.
Defined.
End samples.
