(* ===== verification/Body.v ===== *)
(** * The JSON body of a request

    [internal/gateway/body.go]: the walk that splits an object's top level into
    spans of the original bytes, the edits the handlers make, and the text
    that is forwarded. A position [i] in [raw] is the suffix of [raw] that
    starts there, and [raw[i:j]] is what lies between two such suffixes. What
    [encoding/json] does to a single value is a parameter. *)
From S2P Require Import Prelude GoTime Num Tenancy Pricing Guardrails Text Filters Routers RouterCheck.
From S2P Require Import Replies Guard Routing FilterChain Limiter Budgets Messages Call Models.
Open Scope go_scope.

(** What the code relies on of [encoding/json]: [inl] is the decoder's error. *)
Class JSON := {
  Marshal_string : string → string;
  Unmarshal_string : string → string + string;
  Unmarshal_bool : string → option bool;
  Unmarshal_object : string → option (gmap string string);
  Marshal_object : gmap string string → option string;
  Marshal_message : string → string → string;
}.

(** What the language of the walk calls special. *)
Definition q : Ascii.ascii := Ascii.ascii_of_nat 34.
Definition backslash : Ascii.ascii := Ascii.ascii_of_nat 92.
Definition open_brace : Ascii.ascii := Ascii.ascii_of_nat 123.
Definition close_brace : Ascii.ascii := Ascii.ascii_of_nat 125.
Definition open_bracket : Ascii.ascii := Ascii.ascii_of_nat 91.
Definition close_bracket : Ascii.ascii := Ascii.ascii_of_nat 93.

Definition is_json_space (c : Ascii.ascii) : bool :=
  let n := byte_val c in (n =? 32)%nat || (n =? 9)%nat || (n =? 13)%nat || (n =? 10)%nat.

Definition opens (c : Ascii.ascii) : bool := bool_decide (c = open_brace) || bool_decide (c = open_bracket).
Definition closes (c : Ascii.ascii) : bool := bool_decide (c = close_brace) || bool_decide (c = close_bracket).

Definition errNotObject : string := "request body must be a JSON object".
Definition errMalformed : string := "request body is malformed".

Module Body.

(** [raw[i:j]], for suffixes [i] and [j] of [raw]. *)
Definition span (i j : string) : string := String.substring 0 (String.length i - String.length j) i.

(** ** The walk *)

Fixpoint skipSpace (s : string) : string :=
  match s with
  | String c s' => if is_json_space c then skipSpace s' else s
  | EmptyString => s
  end.

(** The backslashes [s] starts with. *)
Fixpoint slashes (s : string) : nat :=
  match s with
  | String c s => if bool_decide (c = backslash) then S (slashes s) else O
  | EmptyString => O
  end.

(** The loop of [endOfString], with the bytes since the opening quote, last
    first: a quote ends the string when it follows an even number of
    backslashes. *)
Fixpoint string_end (seen s : string) : string :=
  match s with
  | String c s =>
      if bool_decide (c = q) && Nat.even (slashes seen) then s else string_end (String c seen) s
  | EmptyString => EmptyString
  end.

(** [endOfString], at an opening quote. *)
Definition endOfString (s : string) : string :=
  match s with String _ s => string_end EmptyString s | EmptyString => EmptyString end.

(** The loop of [endOfValue] over a bracketed value. Every round passes a byte,
    so the length of the rest is fuel enough. *)
Fixpoint depth_loop (fuel : nat) (depth : Z) (s : string) : string :=
  match s, fuel with
  | EmptyString, _ | _, O => EmptyString
  | String c s', S fuel =>
      if bool_decide (c = q) then depth_loop fuel depth (endOfString s)
      else if opens c then depth_loop fuel (depth + 1) s'
      else if closes c then
        if depth - 1 =? 0 then s' else depth_loop fuel (depth - 1) s'
      else depth_loop fuel depth s'
  end.

Definition ends_scalar (c : Ascii.ascii) : bool :=
  bool_decide (c = comma) || closes c || is_json_space c.

Fixpoint scalar_end (s : string) : string :=
  match s with
  | String c s' => if ends_scalar c then s else scalar_end s'
  | EmptyString => s
  end.

(** [endOfValue]. *)
Definition endOfValue (s : string) : string :=
  match s with
  | EmptyString => s
  | String c _ =>
      if bool_decide (c = q) then endOfString s
      else if opens c then depth_loop (String.length s) 0 s
      else scalar_end s
  end.

(** The loop of [walkObject], after the opening brace; [fn] is the callback
    over the state it changes, and [None] is fuel running out. *)
Fixpoint walk_loop {A} (fn : A → string → string → string + A) (fuel : nat) (st : A) (s : string)
    : option (string + A) :=
  match fuel with
  | O => None
  | S fuel =>
      match skipSpace s with
      | EmptyString => Some (inl errMalformed)
      | String c s' as i =>
          if bool_decide (c = close_brace) then Some (inr st)
          else if bool_decide (c = comma) then walk_loop fn fuel st s'
          else if negb (bool_decide (c = q)) then Some (inl errMalformed)
          else
            let keyEnd := endOfString i in
            if (String.length i - String.length keyEnd <? 2)%nat then Some (inl errMalformed)
            else match skipSpace keyEnd with
            | String d s' =>
                if negb (bool_decide (d = colon)) then Some (inl errMalformed)
                else
                  let v := skipSpace s' in
                  let valEnd := endOfValue v in
                  match fn st (span i keyEnd) (span v valEnd) with
                  | inl err => Some (inl err)
                  | inr st => walk_loop fn fuel st valEnd
                  end
            | EmptyString => Some (inl errMalformed)
            end
      end
  end.

(** [walkObject]: the bytes after the opening brace are fuel enough. *)
Definition walkObject {A} (fn : A → string → string → string + A) (st : A) (raw : string) : string + A :=
  match skipSpace raw with
  | String c s =>
      if bool_decide (c = open_brace)
      then default (inl errMalformed) (walk_loop fn (S (String.length s)) st s)
      else inl errNotObject
  | EmptyString => inl errNotObject
  end.

(** [body]. *)
Record body := { fields : gmap string string; order : list string }.

(** [eachElement]: [fn] returns its state and whether to go on. *)
Fixpoint each_loop {A} (fn : A → string → A * bool) (fuel : nat) (st : A) (s : string) : option A :=
  match fuel with
  | O => None
  | S fuel =>
      match skipSpace s with
      | EmptyString => Some st
      | String c s' as i =>
          if bool_decide (c = close_bracket) then Some st
          else if bool_decide (c = comma) then each_loop fn fuel st s'
          else
            let end_ := endOfValue i in
            if (String.length i <=? String.length end_)%nat then Some st
            else
              let '(st, more) := fn st (span i end_) in
              if more : bool then each_loop fn fuel st end_ else Some st
      end
  end.

Definition eachElement {A} (fn : A → string → A * bool) (st : A) (raw : string) : A :=
  match TrimSpace raw with
  | String c (String _ _ as s) =>
      if bool_decide (c = open_bracket) then default st (each_loop fn (S (String.length s)) st s) else st
  | _ => st
  end.

Section json.
Context `{JSON}.

(** ** Splitting *)

(** The callback of [splitObject]: a repeated key keeps its last value and its
    first place. *)
Definition split_field (b : body) (quoted val : string) : string + body :=
  match Unmarshal_string quoted with
  | inl err => inl err
  | inr key =>
      inr {| fields := <[key := val]> (fields b);
             order := if bool_decide (is_Some (fields b !! key)) then order b else order b ++ [key] |}
  end.

(** [splitObject]. *)
Definition splitObject (raw : string) : string + body :=
  walkObject split_field {| fields := ∅; order := [] |} raw.

(** The callback of [topLevel]. *)
Definition top_field (key : string) (found : option string) (quoted val : string)
    : string + option string :=
  let name := String.substring 1 (String.length quoted - 2) quoted in
  let is_key :=
    if contains_byte backslash name then bool_decide (Unmarshal_string quoted = inr key)
    else bool_decide (name = key) in
  inr (if is_key then Some val else found).

(** [topLevel]. *)
Definition topLevel (raw key : string) : option string :=
  match walkObject (top_field key) None raw with inr found => found | inl _ => None end.

(** ** Reading and editing *)

Definition nullLiteral : string := "null".

(** [body.value]. *)
Definition value (b : body) (key : string) : option string :=
  match fields b !! key with
  | Some raw => if bool_decide (TrimSpace raw = nullLiteral) then None else Some raw
  | None => None
  end.

(** [body.str]. *)
Definition str (b : body) (key : string) : option string :=
  raw ← value b key; match Unmarshal_string raw with inr s => Some s | inl _ => None end.

(** [body.boolean]. *)
Definition boolean (b : body) (key : string) : option bool := raw ← value b key; Unmarshal_bool raw.

(** [body.set]. *)
Definition set (b : body) (key raw : string) : body :=
  {| fields := <[key := raw]> (fields b);
     order := if bool_decide (is_Some (fields b !! key)) then order b else order b ++ [key] |}.

(** [body.remove]. *)
Definition remove (b : body) (key : string) : bool * body :=
  if bool_decide (is_Some (fields b !! key))
  then (true, {| fields := delete key (fields b); order := filter (λ k, k ≠ key) (order b) |})
  else (false, b).

(** [body.setString]. *)
Definition setString (b : body) (key val : string) : body := set b key (Marshal_string val).

(** [body.prependSystem]: [None] when there is no array. *)
Definition prependSystem (b : body) (content : string) : option body :=
  raw ← value b "messages";
  let arr := TrimSpace raw in
  if (len arr <? 2) || negb (bool_decide (String.get 0 arr = Some open_bracket)) ||
     negb (bool_decide (String.get (String.length arr - 1) arr = Some close_bracket))
  then None
  else
    let rest := TrimSpace (String.substring 1 (String.length arr - 2) arr) in
    Some (set b "messages"
      (String open_bracket (Marshal_message "system" content) +:+
       (if bool_decide (rest = "") then "" else String comma rest) +:+ String close_bracket "")).

(** [body.firstUserMessage]. *)
Definition firstUserMessage (b : body) : option string :=
  raw ← value b "messages";
  eachElement (λ opening elem,
    match splitObject elem with
    | inl _ => (opening, true)
    | inr f =>
        match fields f !! "role" with
        | Some role =>
            if bool_decide (Unmarshal_string role = inr "user")
            then (Some (default elem (fields f !! "content")), false)
            else (opening, true)
        | None => (opening, true)
        end
    end) None raw.

(** [body.ensureUsageInStream]. *)
Definition ensureUsageInStream (b : body) : bool * body :=
  let opts := default ∅ (raw ← value b "stream_options"; Unmarshal_object raw) in
  if bool_decide ((opts !! "include_usage" ≫= Unmarshal_bool) = Some true) then (false, b)
  else match Marshal_object (<["include_usage" := "true"]> opts) with
  | Some raw => (true, set b "stream_options" raw)
  | None => (false, b)
  end.

(** [body.encode]. *)
Definition encode_field (b : body) (k : string) : string :=
  Marshal_string k +:+ String colon (default "" (fields b !! k)).

Definition encode (b : body) : string :=
  String open_brace (join "," (encode_field b <$> order b)) +:+ String close_brace "".

(** [body.ceiling], given how numbers are decoded and parsed and which are
    finite. *)
Definition ceiling {T} (Unmarshal_float ParseFloat : string → option T) (finite : T → bool)
    (b : body) (key : string) : option T :=
  raw ← value b key;
  f ← match Unmarshal_float raw with
      | Some f => Some f
      | None => match Unmarshal_string raw with inr s => ParseFloat (TrimSpace s) | inl _ => None end
      end;
  if finite f then Some f else None.
End json.

(** [body.size]; the order Go ranges in makes no difference to a sum. *)
Definition size (b : body) : Z := map_fold (λ k v n, n ⊕ (len k + len v + 4)) 0 (fields b).
End Body.

(** The bodies of [Call] are these, given how [text.go] reads and rewrites
    their text. *)
Definition json_Bodies `{JSON} {T} (Unmarshal_float ParseFloat : string → option T) (finite : T → bool)
    (extract : Body.body → string → string + list string)
    (apply_ : Body.body → string → list string → string + Body.body) : Bodies T Body.body :=
  {| b_str := Body.str; b_boolean := Body.boolean; b_ceiling := Body.ceiling Unmarshal_float ParseFloat finite;
     b_setString := Body.setString; b_remove := Body.remove;
     b_value b key := bool_decide (is_Some (Body.value b key)); b_size := Body.size;
     b_encode := Body.encode; extractText := extract; applyText := apply_;
     Call.prependSystem := Body.prependSystem; Call.ensureUsageInStream := Body.ensureUsageInStream |}.

(** ** What the walk is for *)

Import Body.

Fixpoint all_of (f : Ascii.ascii → bool) (s : string) : bool :=
  match s with String c s => f c && all_of f s | EmptyString => true end.

(** A JSON string's inside: a backslash takes the byte after it with it. *)
Inductive escaped : string → Prop :=
  | escaped_nil : escaped ""
  | escaped_plain c s : c ≠ q → c ≠ backslash → escaped s → escaped (String c s)
  | escaped_pair c s : escaped s → escaped (String backslash (String c s)).

Definition quoted (s : string) : string := String q (s +:+ String q "").

(** A JSON string, quotes included. *)
Definition literal (s : string) : Prop := ∃ inside, s = quoted inside ∧ escaped inside.

(** The inside of brackets, as far as the walk looks at it: strings, nested
    brackets, and bytes that are neither. *)
Inductive balanced : string → Prop :=
  | balanced_nil : balanced ""
  | balanced_plain c s : c ≠ q → opens c = false → closes c = false → balanced s → balanced (String c s)
  | balanced_string inside s : escaped inside → balanced s → balanced (quoted inside +:+ s)
  | balanced_nest o c s t : opens o = true → closes c = true → balanced s → balanced t →
      balanced (String o (s +:+ String c t)).

(** A value: a string, a bracketed one, or a number or word. *)
Inductive json_value : string → Prop :=
  | value_string inside : escaped inside → json_value (quoted inside)
  | value_nest o c s : opens o = true → closes c = true → balanced s →
      json_value (String o (s +:+ String c ""))
  | value_scalar c s : c ≠ q → opens c = false → all_of (λ c, negb (ends_scalar c)) (String c s) = true →
      json_value (String c s).

(** A member of an object, with the space around its parts. *)
Record member := { m_lead : string; m_name : string; m_gap : string; m_mid : string;
  m_val : string; m_trail : string }.

Definition blank (s : string) : Prop := all_of is_json_space s = true.

Record member_ok (m : member) : Prop := {
  mo_lead : blank (m_lead m); mo_gap : blank (m_gap m); mo_mid : blank (m_mid m);
  mo_trail : blank (m_trail m); mo_name : escaped (m_name m); mo_val : json_value (m_val m);
}.

Definition member_text (m : member) (rest : string) : string :=
  m_lead m +:+ quoted (m_name m) +:+ m_gap m +:+ String colon (m_mid m +:+ m_val m +:+ m_trail m +:+ rest).

(** The members of an object, from one of them to the end of [raw]. *)
Fixpoint members_text (ms : list member) (rest : string) : string :=
  match ms with
  | [] => rest
  | [m] => member_text m rest
  | m :: ms => member_text m (String comma (members_text ms rest))
  end.

Definition object_text (lead : string) (ms : list member) (last tail : string) : string :=
  lead +:+ String open_brace (members_text ms (last +:+ String close_brace tail)).

(** What a callback makes of the members, up to its first error. *)
Fixpoint each_member {A} (fn : A → string → string → string + A) (st : A) (ms : list member) : string + A :=
  match ms with
  | [] => inr st
  | m :: ms =>
      match fn st (quoted (m_name m)) (m_val m) with
      | inl err => inl err
      | inr st => each_member fn st ms
      end
  end.

(** *** Suffixes *)

Lemma skipSpace_blank w s : blank w → skipSpace (w +:+ s) = skipSpace s.
Proof.
  unfold blank. induction w as [|c w IH]; [done|]. rewrite str_app_cons. simpl.
  rewrite andb_true_iff. intros [-> Hw]. auto.
Qed.

Lemma length_skipSpace s : (String.length (skipSpace s) <= String.length s)%nat.
Proof. induction s as [|c s IH]; simpl; [done|]. destruct (is_json_space c); simpl; lia. Qed.

Lemma length_string_end seen s : (String.length (string_end seen s) <= String.length s)%nat.
Proof.
  revert seen. induction s as [|c s IH]; intros seen; simpl; [done|].
  destruct (_ && _); [lia|]. specialize (IH (String c seen)). lia.
Qed.

Lemma length_endOfString c s : (String.length (endOfString (String c s)) <= String.length s)%nat.
Proof. apply length_string_end. Qed.

Lemma depth_loop_enough f1 f2 d s :
  (String.length s <= f1)%nat → (String.length s <= f2)%nat → depth_loop f1 d s = depth_loop f2 d s.
Proof.
  revert f2 d s. induction f1 as [|f1 IH]; intros [|f2] d [|c s] H1 H2; try done; simpl in H1, H2; try lia. cbn [depth_loop].
  pose proof (length_endOfString c s). repeat case_match; try done; apply IH; lia.
Qed.

Lemma length_depth_loop f d s : (String.length (depth_loop f d s) <= String.length s)%nat.
Proof.
  revert d s. induction f as [|f IH]; intros d [|c s]; cbn [depth_loop]; try (simpl; lia).
  pose proof (length_endOfString c s). cbn [String.length] in *.
  repeat case_match; try lia; (etrans; [apply IH|lia]).
Qed.

Lemma length_scalar_end s : (String.length (scalar_end s) <= String.length s)%nat.
Proof. induction s as [|c s IH]; simpl; [done|]. destruct (ends_scalar c); simpl; lia. Qed.

Lemma length_endOfValue s : (String.length (endOfValue s) <= String.length s)%nat.
Proof.
  destruct s as [|c s]; [done|]. unfold endOfValue. repeat case_match.
  - etrans; [apply length_endOfString|simpl; lia].
  - apply length_depth_loop.
  - apply length_scalar_end.
Qed.

Lemma span_app s t : span (s +:+ t) t = s.
Proof.
  unfold span. pose proof (len_app s t). unfold len in *.
  replace (String.length (s +:+ t) - String.length t)%nat with (String.length s) by lia. clear.
  induction s as [|c s IH]; simpl; [by destruct t|]. by rewrite IH.
Qed.

(** *** Strings and values *)

Lemma string_end_escaped inside seen rest :
  escaped inside → Nat.even (slashes seen) = true →
  string_end seen (inside +:+ String q rest) = rest.
Proof.
  intros Hi. revert seen. induction Hi as [|c s Hq Hb Hi IH|c s Hi IH]; intros seen Hs;
    rewrite ?str_app_nil_l, ?str_app_cons; cbn [string_end].
  - by rewrite bool_decide_eq_true_2, Hs.
  - rewrite bool_decide_eq_false_2 by done. simpl. apply IH. simpl. by rewrite bool_decide_eq_false_2.
  - assert (slashes (String backslash seen) = S (slashes seen)) as Hb
      by (cbn [slashes]; by rewrite bool_decide_eq_true_2).
    rewrite (bool_decide_eq_false_2 (backslash = q)) by done. cbn [andb].
    rewrite Hb, Nat.even_succ, <- Nat.negb_even, Hs, andb_false_r. apply IH.
    cbn [slashes]. case_bool_decide; [|done]. by rewrite (bool_decide_eq_true_2 (backslash = backslash)).
Qed.

Lemma endOfString_quoted inside rest : escaped inside → endOfString (quoted inside +:+ rest) = rest.
Proof.
  intros Hi. unfold quoted. rewrite str_app_cons, str_app_assoc. by apply string_end_escaped.
Qed.

(** The loop of [endOfValue] with the fuel [endOfValue] gives it. *)
Lemma depth_loop_cons d c s :
  depth_loop (S (String.length s)) d (String c s) =
  if bool_decide (c = q) then depth_loop (String.length (endOfString (String c s))) d (endOfString (String c s))
  else if opens c then depth_loop (String.length s) (d + 1) s
  else if closes c then if d - 1 =? 0 then s else depth_loop (String.length s) (d - 1) s
  else depth_loop (String.length s) d s.
Proof.
  cbn [depth_loop]. pose proof (length_endOfString c s). case_bool_decide; [|done].
  by apply depth_loop_enough.
Qed.

Lemma depth_loop_balanced d s rest :
  balanced s → 0 < d →
  depth_loop (String.length (s +:+ rest)) d (s +:+ rest) = depth_loop (String.length rest) d rest.
Proof.
  intros Hs. revert d rest.
  induction Hs as [|c s Hq Ho Hc Hs IH|inside s Hi Hs IH|o c s t Ho Hc Hs IHs Ht IHt]; intros d rest Hd.
  - by rewrite str_app_nil_l.
  - rewrite str_app_cons. cbn [String.length]. rewrite depth_loop_cons, bool_decide_eq_false_2, Ho, Hc by done.
    by apply IH.
  - rewrite str_app_assoc. pose proof (endOfString_quoted inside (s +:+ rest) Hi) as He.
    unfold quoted in *. rewrite str_app_cons in *. cbn [String.length].
    rewrite depth_loop_cons, bool_decide_eq_true_2, He by done. by apply IH.
  - assert (o ≠ q ∧ c ≠ q ∧ opens c = false) as (Hoq & Hcq & Hoc).
    { unfold opens, closes in *. repeat case_bool_decide; by subst. }
    rewrite str_app_cons, str_app_assoc, str_app_cons. cbn [String.length].
    rewrite depth_loop_cons, bool_decide_eq_false_2, Ho by done.
    rewrite IHs by lia. cbn [String.length].
    rewrite depth_loop_cons, bool_decide_eq_false_2, Hoc, Hc by done.
    replace (d + 1 - 1) with d by lia. rewrite (proj2 (Z.eqb_neq d 0)) by lia. by apply IHt.
Qed.

(** What may follow a value. *)
Definition delimited (s : string) : Prop :=
  match s with String c _ => ends_scalar c = true | EmptyString => True end.

Lemma scalar_end_app v rest :
  all_of (λ c, negb (ends_scalar c)) v = true → delimited rest → scalar_end (v +:+ rest) = rest.
Proof.
  intros Hv Hr. induction v as [|c v IH].
  - rewrite str_app_nil_l. destruct rest as [|c rest]; [done|]. simpl in *. by rewrite Hr.
  - rewrite str_app_cons. simpl in *. apply andb_true_iff in Hv as [Hc Hv].
    apply negb_true_iff in Hc. rewrite Hc. auto.
Qed.

Lemma endOfValue_value v rest : json_value v → delimited rest → endOfValue (v +:+ rest) = rest.
Proof.
  intros [inside Hi|o c s Ho Hc Hs|c s Hq Ho Hall] Hr.
  - pose proof (endOfString_quoted inside rest Hi) as He. unfold quoted in *. rewrite str_app_cons in *.
    unfold endOfValue. by rewrite bool_decide_eq_true_2.
  - assert (o ≠ q ∧ c ≠ q ∧ opens c = false) as (Hoq & Hcq & Hoc).
    { unfold opens, closes in *. repeat case_bool_decide; by subst. }
    rewrite str_app_cons, str_app_assoc, str_app_cons, str_app_nil_l. unfold endOfValue.
    rewrite bool_decide_eq_false_2, Ho by done. cbn [String.length].
    rewrite depth_loop_cons, bool_decide_eq_false_2, Ho by done.
    rewrite depth_loop_balanced by (done || lia). cbn [String.length].
    by rewrite depth_loop_cons, bool_decide_eq_false_2, Hoc, Hc by done.
  - pose proof (scalar_end_app _ rest Hall Hr) as He. rewrite str_app_cons in *. unfold endOfValue.
    by rewrite bool_decide_eq_false_2, Ho.
Qed.

(** *** The walk *)

Section walk.
Context {A : Type} (fn : A → string → string → string + A).

(** Fuel beyond the bytes there are makes no difference, and is never used up. *)
Lemma walk_loop_enough f1 f2 st s :
  (String.length s < f1)%nat → (String.length s < f2)%nat →
  walk_loop fn f1 st s = walk_loop fn f2 st s ∧ is_Some (walk_loop fn f1 st s).
Proof.
  revert f2 st s. induction f1 as [|f1 IH]; intros [|f2] st s H1 H2; try lia. cbn [walk_loop].
  pose proof (length_skipSpace s) as Hs. destruct (skipSpace s) as [|c s']; [done|]. simpl in Hs.
  case_bool_decide; [done|]. case_bool_decide; [apply IH; lia|]. case_bool_decide; [|done].
  cbn [negb]. destruct (_ <? _)%nat; [done|].
  pose proof (length_endOfString c s') as He. set (keyEnd := endOfString (String c s')) in *.
  pose proof (length_skipSpace keyEnd) as Hk. destruct (skipSpace keyEnd) as [|d s'']; [done|].
  case_bool_decide; [|done]. cbn [negb]. simpl in Hk. pose proof (length_skipSpace s'') as Hv.
  pose proof (length_endOfValue (skipSpace s'')) as Hve. destruct (fn _ _ _); [done|]. apply IH; lia.
Qed.

Lemma each_loop_enough (each : A → string → A * bool) f1 f2 st s :
  (String.length s < f1)%nat → (String.length s < f2)%nat →
  each_loop each f1 st s = each_loop each f2 st s ∧ is_Some (each_loop each f1 st s).
Proof.
  revert f2 st s. induction f1 as [|f1 IH]; intros [|f2] st s H1 H2; try lia. cbn [each_loop].
  pose proof (length_skipSpace s) as Hs. destruct (skipSpace s) as [|c s']; [done|]. simpl in Hs.
  case_bool_decide; [done|]. case_bool_decide; [apply IH; lia|].
  destruct (_ <=? _)%nat eqn:Hle; [done|]. apply Nat.leb_gt in Hle. cbn [String.length] in Hle.
  destruct (each _ _) as [st' []]; [|done]. apply IH; lia.
Qed.

(** The loop with all the fuel it may need. *)
Definition walk_all (st : A) (s : string) : string + A :=
  default (inl errMalformed) (walk_loop fn (S (String.length s)) st s).

Lemma walk_all_fuel f st s :
  (String.length s < f)%nat → default (inl errMalformed) (walk_loop fn f st s) = walk_all st s.
Proof. intros Hf. unfold walk_all. by destruct (walk_loop_enough f (S (String.length s)) st s Hf) as [-> _]; [lia|]. Qed.

Lemma walk_all_blank w st s : blank w → walk_all st (w +:+ s) = walk_all st s.
Proof.
  intros Hw. rewrite <- (walk_all_fuel (S (String.length (w +:+ s))) st s).
  - unfold walk_all. cbn [walk_loop]. by rewrite skipSpace_blank.
  - pose proof (len_app w s). unfold len in *. lia.
Qed.

Lemma walk_all_end st tail : walk_all st (String close_brace tail) = inr st.
Proof. done. Qed.

Lemma walk_all_comma st s : walk_all st (String comma s) = walk_all st s.
Proof.
  rewrite <- (walk_all_fuel (S (String.length s)) st s) by lia. by unfold walk_all.
Qed.

Lemma length_suffix s t : (String.length t <= String.length (s +:+ t))%nat.
Proof. pose proof (len_app s t). unfold len in *. lia. Qed.

Lemma blank_skip w c s : blank w → is_json_space c = false → skipSpace (w +:+ String c s) = String c s.
Proof. intros Hw Hc. rewrite skipSpace_blank by done. simpl. by rewrite Hc. Qed.

(** No value starts with a space. *)
Lemma value_skip v rest : json_value v → skipSpace (v +:+ rest) = v +:+ rest.
Proof.
  intros [inside Hi|o c s Ho Hc Hs|c s Hq Ho Hall]; unfold quoted; rewrite str_app_cons; simpl; [done| |].
  - unfold opens in Ho. apply orb_true_iff in Ho as [->%bool_decide_eq_true| ->%bool_decide_eq_true]; done.
  - simpl in Hall. apply andb_true_iff in Hall as [Hc _]. unfold ends_scalar in Hc.
    rewrite !negb_orb, !andb_true_iff, !negb_true_iff in Hc. by destruct Hc as [_ ->].
Qed.

(** A member is handed to the callback, and the walk goes on after its value. *)
Lemma walk_all_member m st rest :
  member_ok m → delimited (m_trail m +:+ rest) →
  walk_all st (member_text m rest) =
  match fn st (quoted (m_name m)) (m_val m) with inl err => inl err | inr st => walk_all st rest end.
Proof.
  intros [Hlead Hgap Hmid Htrail Hname Hval] Hd. unfold member_text.
  rewrite walk_all_blank by done. unfold walk_all at 1. cbn [walk_loop].
  set (after := m_gap m +:+ String colon (m_mid m +:+ m_val m +:+ m_trail m +:+ rest)).
  assert (skipSpace (quoted (m_name m) +:+ after) = quoted (m_name m) +:+ after) as -> by done.
  pose proof (endOfString_quoted (m_name m) after Hname) as Hend.
  pose proof (span_app (quoted (m_name m)) after) as Hspan.
  assert (String.length (quoted (m_name m) +:+ after) = S (S (String.length (m_name m) + String.length after)))
    as Hlen.
  { unfold quoted. rewrite str_app_cons, str_app_assoc. pose proof (len_app (m_name m) (String q after)).
    unfold len in *. simpl in *. rewrite str_app_cons, str_app_nil_l. lia. }
  change (quoted (m_name m) +:+ after) with (String q ((m_name m +:+ String q "") +:+ after)) in *.
  cbn beta iota. rewrite (bool_decide_eq_false_2 (q = close_brace)), (bool_decide_eq_false_2 (q = comma)),
    (bool_decide_eq_true_2 (q = q)) by done. cbn [negb].
  rewrite Hend, Hspan, Hlen. rewrite (proj2 (Nat.ltb_ge _ 2)) by lia.
  unfold after at 1. rewrite blank_skip by done.
  rewrite (bool_decide_eq_true_2 (colon = colon)) by done. cbn [negb].
  rewrite skipSpace_blank, value_skip, endOfValue_value, span_app by done.
  destruct (fn _ _ _) as [err|st']; [done|]. rewrite walk_all_fuel; [by apply walk_all_blank|].
  simpl. unfold after. pose proof (length_suffix (m_val m) (m_trail m +:+ rest)).
  pose proof (length_suffix (m_mid m) (m_val m +:+ m_trail m +:+ rest)).
  pose proof (length_suffix (m_gap m) (String colon (m_mid m +:+ m_val m +:+ m_trail m +:+ rest))).
  pose proof (length_suffix (m_name m +:+ String q "") after). unfold after in *. simpl in *. lia.
Qed.

Lemma delimited_blank w c s : blank w → ends_scalar c = true → delimited (w +:+ String c s).
Proof.
  intros Hw Hc. destruct w as [|x w]; [done|]. unfold blank in Hw. simpl in *.
  apply andb_true_iff in Hw as [Hx _]. unfold ends_scalar. by rewrite Hx, orb_true_r.
Qed.

Lemma delimited_app w1 w2 c s : blank w1 → blank w2 → ends_scalar c = true →
  delimited (w1 +:+ w2 +:+ String c s).
Proof.
  intros H1 H2 Hc. destruct w1 as [|x w1]; [by apply delimited_blank|]. unfold blank in H1. simpl in *.
  apply andb_true_iff in H1 as [Hx _]. unfold ends_scalar. by rewrite Hx, orb_true_r.
Qed.

Lemma walk_all_members ms st last tail :
  Forall member_ok ms → blank last →
  walk_all st (members_text ms (last +:+ String close_brace tail)) = each_member fn st ms.
Proof.
  intros Hms Hl. revert st. induction Hms as [|m ms Hm Hms IH]; intros st.
  - simpl. by rewrite walk_all_blank, walk_all_end.
  - destruct ms as [|m' ms].
    + cbn [members_text each_member]. rewrite walk_all_member; [|done|].
      * destruct (fn _ _ _); [done|]. by rewrite walk_all_blank, walk_all_end.
      * by apply delimited_app; [apply (mo_trail _ Hm)|..].
    + change (members_text (m :: m' :: ms) (last +:+ String close_brace tail)) with
        (member_text m (String comma (members_text (m' :: ms) (last +:+ String close_brace tail)))).
      rewrite walk_all_member; [|done|by apply delimited_blank; [apply (mo_trail _ Hm)|]].
      cbn [each_member]. destruct (fn _ _ _) as [|st']; [done|]. rewrite walk_all_comma. apply IH.
Qed.

Lemma walkObject_members lead ms st last tail :
  blank lead → Forall member_ok ms → blank last →
  walkObject fn st (object_text lead ms last tail) = each_member fn st ms.
Proof.
  intros Hlead Hms Hl. unfold walkObject, object_text. rewrite blank_skip by done.
  rewrite bool_decide_eq_true_2 by done. rewrite walk_all_fuel by lia. by apply walk_all_members.
Qed.
End walk.

(** *** The edges of brackets *)

Definition plain (c : Ascii.ascii) : bool := negb (bool_decide (c = q) || opens c || closes c).

Lemma plain_spec c : plain c = true ↔ c ≠ q ∧ opens c = false ∧ closes c = false.
Proof. unfold plain. rewrite negb_true_iff, !orb_false_iff, bool_decide_eq_false. tauto. Qed.

Lemma all_of_app f s t : all_of f (s +:+ t) = all_of f s && all_of f t.
Proof. induction s as [|c s IH]; [done|]. rewrite str_app_cons. simpl. by rewrite IH, andb_assoc. Qed.

Lemma all_of_impl (f g : Ascii.ascii → bool) s :
  (∀ c, f c = true → g c = true) → all_of f s = true → all_of g s = true.
Proof.
  intros Hfg. induction s as [|c s IH]; [done|]. simpl. rewrite !andb_true_iff. naive_solver.
Qed.

Lemma all_of_rev f s : all_of f (str_rev s) = all_of f s.
Proof.
  induction s as [|c s IH]; [done|]. rewrite str_rev_cons, all_of_app, IH. simpl.
  by rewrite andb_true_r, andb_comm.
Qed.

Lemma plain_bytes c : (byte_val c ∉ [34; 91; 93; 123; 125])%nat → plain c = true.
Proof.
  intros Hc. apply plain_spec. unfold opens, closes. rewrite !orb_false_iff, !bool_decide_eq_false.
  assert (∀ d, byte_val d ∈ [34; 91; 93; 123; 125]%nat → c ≠ d) as Hd by (by intros d Hd ->).
  split_and!; apply Hd; vm_compute; set_solver.
Qed.

Lemma spaces_plain a b c :
  (space1 a = true → plain a = true) ∧
  (space2 a b = true → plain a = true ∧ plain b = true) ∧
  (space3 a b c = true → plain a = true ∧ plain b = true ∧ plain c = true).
Proof.
  assert (∀ x, (byte_val x <= 32 ∨ 126 <= byte_val x)%nat → plain x = true) as Hx.
  { intros x Hb. apply plain_bytes. rewrite !elem_of_cons, elem_of_nil. lia. }
  unfold space1, space2, space3. split_and!; intros Hs.
  - apply Hx. rewrite orb_true_iff, andb_true_iff, !Nat.leb_le, Nat.eqb_eq in Hs. lia.
  - rewrite andb_true_iff, orb_true_iff, !Nat.eqb_eq in Hs. split; apply Hx; lia.
  - rewrite !orb_true_iff, !andb_true_iff, !orb_true_iff, !andb_true_iff, !Nat.leb_le, !Nat.eqb_eq in Hs.
    split_and!; apply Hx; lia.
Qed.

(** Trimming takes plain bytes off. *)
Lemma trim_start_plain r s : ∃ p, s = p +:+ trim_start r s ∧ all_of plain p = true.
Proof.
  remember (String.length s) as n eqn:Hn. revert s Hn. induction n as [n IH] using lt_wf_ind. intros s ->.
  destruct s as [|a s1]; [by exists ""|]. cbn [trim_start]. pose proof (spaces_plain a) as Hp.
  destruct (space1 a) eqn:H1.
  { destruct (IH _ (Nat.lt_succ_diag_r _) s1 eq_refl) as (p & Hs & Hall). exists (String a p).
    rewrite str_app_cons, <- Hs. split; [done|]. simpl. by rewrite (proj1 (Hp a a)), Hall. }
  destruct s1 as [|b s2]; [by exists ""|].
  destruct (if r then space2 b a else space2 a b) eqn:H2.
  { destruct (IH (String.length s2)) with (s := s2) as (p & Hs & Hall); [simpl; lia|done|].
    exists (String a (String b p)). rewrite !str_app_cons, <- Hs. split; [done|]. simpl.
    rewrite Hall. destruct r.
    - destruct (proj1 (proj2 (spaces_plain b a a)) H2) as [-> ->]. done.
    - destruct (proj1 (proj2 (spaces_plain a b b)) H2) as [-> ->]. done. }
  destruct s2 as [|c s3]; [by exists ""|].
  destruct (if r then space3 c b a else space3 a b c) eqn:H3; [|by exists ""].
  destruct (IH (String.length s3)) with (s := s3) as (p & Hs & Hall); [simpl; lia|done|].
  exists (String a (String b (String c p))). rewrite !str_app_cons, <- Hs. split; [done|]. simpl.
  rewrite Hall. destruct r.
  - destruct (proj2 (proj2 (spaces_plain c b a)) H3) as (-> & -> & ->). done.
  - destruct (proj2 (proj2 (spaces_plain a b c)) H3) as (-> & -> & ->). done.
Qed.

Lemma TrimSpace_plain s :
  ∃ p t, s = p +:+ TrimSpace s +:+ t ∧ all_of plain p = true ∧ all_of plain t = true.
Proof.
  destruct (trim_start_plain false s) as (p & Hp & Hpp).
  destruct (trim_start_plain true (str_rev (trim_start false s))) as (t & Ht & Htt).
  exists p, (str_rev t). unfold TrimSpace. rewrite all_of_rev. split; [|done].
  rewrite <- str_rev_app, <- Ht, str_rev_involutive. done.
Qed.

Lemma app_split (a b s p : string) :
  a +:+ b = s +:+ p →
  (∃ s1, s = a +:+ s1 ∧ b = s1 +:+ p) ∨ (∃ x p1, a = s +:+ String x p1 ∧ p = String x p1 +:+ b).
Proof.
  revert s. induction a as [|c a IH]; intros s; rewrite ?str_app_nil_l, ?str_app_cons; intros H.
  - left. by exists s.
  - destruct s as [|d s]; rewrite ?str_app_nil_l, ?str_app_cons in H.
    + right. exists c, a. by rewrite str_app_nil_l, str_app_cons.
    + injection H as <- H. destruct (IH s H) as [(s1 & -> & ->)|(x & p1 & -> & ->)]; [left|right]; eauto.
Qed.

(** Of what ends in a byte that is not plain, no plain suffix but the empty
    one can be taken off. *)
Lemma plain_suffix w c s x p1 :
  plain c = false → w +:+ String c "" = s +:+ String x p1 → all_of plain (String x p1) = true → False.
Proof.
  intros Hc H Hall.
  assert (∃ u, String x p1 = u +:+ String c "") as (u & Hu).
  { destruct (app_split w (String c "") s (String x p1) H) as [(s1 & _ & H1)|(y & p2 & _ & ->)].
    - destruct s1 as [|d [|]]; rewrite ?str_app_nil_l, ?str_app_cons in H1; simplify_eq.
      by exists "".
    - by exists (String y p2). }
  rewrite Hu, all_of_app in Hall. simpl in Hall. rewrite Hc, andb_false_r in Hall. done.
Qed.

Lemma closes_not_plain c : closes c = true → plain c = false.
Proof. unfold plain. intros ->. by rewrite orb_true_r. Qed.

Lemma balanced_strip_end s0 s p : balanced s0 → s0 = s +:+ p → all_of plain p = true → balanced s.
Proof.
  intros Hs0. revert s. induction Hs0 as [|c s0 Hq Ho Hc H0 IH|inside s0 Hi H0 IH|o c s0 t Ho Hc H0 _ Ht IH];
    intros s Heq Hp.
  - destruct s; [constructor|done].
  - destruct s as [|d s]; [constructor|]. rewrite str_app_cons in Heq. injection Heq as <- Heq.
    constructor; auto.
  - destruct (app_split _ _ _ _ Heq) as [(s1 & -> & ->)|(x & p1 & Ha & ->)].
    + apply balanced_string; auto.
    + exfalso. rewrite all_of_app, andb_true_iff in Hp. destruct Hp as [Hp _].
      apply (plain_suffix (String q inside) q s x p1); [done|exact Ha|done].
  - assert (String o (s0 +:+ String c "") +:+ t = s +:+ p) as Heq'
      by (by rewrite str_app_cons, str_app_assoc, str_app_cons, str_app_nil_l).
    destruct (app_split _ _ _ _ Heq') as [(s1 & -> & ->)|(x & p1 & Ha & ->)].
    + rewrite str_app_cons, str_app_assoc, str_app_cons, str_app_nil_l. apply balanced_nest; auto.
    + exfalso. rewrite all_of_app, andb_true_iff in Hp. destruct Hp as [Hp _].
      apply (plain_suffix (String o s0) c s x p1); [by apply closes_not_plain|exact Ha|done].
Qed.

Lemma balanced_strip_start p s : balanced (p +:+ s) → all_of plain p = true → balanced s.
Proof.
  induction p as [|c p IH]; [done|]. rewrite str_app_cons. simpl. rewrite andb_true_iff, plain_spec.
  intros Hb [(Hq & Ho & Hc) Hp]. inversion Hb; subst; auto; congruence.
Qed.

Lemma balanced_TrimSpace s : balanced s → balanced (TrimSpace s).
Proof.
  intros Hs. destruct (TrimSpace_plain s) as (p & t & Heq & Hp & Ht).
  eapply balanced_strip_end; [|done|exact Ht]. eapply balanced_strip_start; [|exact Hp]. by rewrite <- Heq.
Qed.

Lemma balanced_app s t : balanced s → balanced t → balanced (s +:+ t).
Proof.
  intros Hs Ht. induction Hs; rewrite ?str_app_nil_l, ?str_app_cons, ?str_app_assoc, ?str_app_cons;
    [done|by apply balanced_plain|by apply balanced_string|by apply balanced_nest].
Qed.

Lemma all_of_get f s i c : all_of f s = true → String.get i s = Some c → f c = true.
Proof.
  revert i. induction s as [|d s IH]; intros [|i]; simpl; try done; rewrite andb_true_iff.
  - by intros [? _] [= <-].
  - intros [_ ?]. by apply IH.
Qed.

Lemma substring_inside o c s :
  String.substring 1 (String.length (String o (s +:+ String c "")) - 2) (String o (s +:+ String c "")) = s.
Proof.
  simpl. pose proof (len_app s (String c "")) as Hl. unfold len in Hl. simpl in Hl.
  replace (String.length (s +:+ String c "") - 1)%nat with (String.length s) by lia. clear.
  induction s as [|d s IH]; [done|]. rewrite str_app_cons. simpl. by rewrite IH.
Qed.

(** Only a bracketed value reads as an array, and trimming leaves it. *)
Lemma array_inside v arr :
  json_value v → arr = TrimSpace v →
  String.get 0 arr = Some open_bracket →
  String.get (String.length arr - 1) arr = Some close_bracket →
  balanced (String.substring 1 (String.length arr - 2) arr).
Proof.
  intros Hv Harr H0 Hlast. destruct (TrimSpace_plain v) as (p & t & Heq & Hp & Ht). rewrite <- Harr in Heq.
  destruct Hv as [inside Hi|o c s Ho Hc Hs|c s Hq Ho Hall].
  - exfalso. unfold quoted in Heq. destruct p as [|x p].
    + destruct arr as [|y arr]; [done|]. injection H0 as ->. by injection Heq.
    + injection Heq as <- _. done.
  - destruct p as [|x p]; [|exfalso; injection Heq as <- _; simpl in Hp; unfold plain in Hp;
      by rewrite Ho, orb_true_r in Hp].
    rewrite str_app_nil_l in Heq. destruct t as [|x t].
    + rewrite str_app_nil_r in Heq. rewrite <- Heq. by rewrite substring_inside.
    + exfalso. apply (plain_suffix (String o s) c arr x t); [by apply closes_not_plain|exact Heq|exact Ht].
  - exfalso. rewrite Heq, !all_of_app, !andb_true_iff in Hall. destruct Hall as (_ & Hall & _).
    by apply (all_of_get _ _ _ _ Hall) in Hlast.
Qed.

(** ** Bodies that can be sent on *)

(** What the theorems below ask of [encoding/json]: a string of valid UTF-8 is
    read back as it was written, every string is written as one, and so are
    the objects the handlers write; what is read is valid UTF-8; and a name
    without escapes is an ASCII key just when it is spelled like it. *)
Class JSONLaws `{JSON} := {
  json_read_back s : ValidString s = true → Unmarshal_string (Marshal_string s) = inr s;
  json_written s : ∃ inside, Marshal_string s = quoted inside ∧ escaped inside;
  json_read_valid s k : Unmarshal_string s = inr k → ValidString k = true;
  json_literal s k : Unmarshal_string (String q s) = inr k →
    ∃ inside w, String q s = quoted inside +:+ w ∧ escaped inside ∧ blank w;
  json_message role s : ∃ inside, balanced inside ∧
    Marshal_message role s = String open_brace (inside +:+ String close_brace "");
  json_options m s : Marshal_object m = Some s → json_value s;
  json_unescaped name k key :
    Unmarshal_string (quoted name) = inr k → contains_byte backslash name = false →
    all_of (λ c, (byte_val c <? 128)%nat) key = true → k = key ↔ name = key;
}.

Section bodies.
Context `{JSONLaws}.

(** A body with one value of JSON per field, and a place for each. *)
Record body_ok (b : body) : Prop := {
  ok_order : NoDup (order b);
  ok_fields k : k ∈ order b ↔ is_Some (fields b !! k);
  ok_keys k : k ∈ order b → ValidString k = true;
  ok_values k v : fields b !! k = Some v → json_value v;
}.

Lemma set_ok b k v : body_ok b → ValidString k = true → json_value v → body_ok (set b k v).
Proof.
  intros [Ho Hf Hk Hv] Hkey Hval. unfold set. split; simpl.
  - case_bool_decide as Hs; [done|]. rewrite <- Hf in Hs. apply NoDup_app. split; [done|].
    split; [set_solver|apply NoDup_singleton].
  - intros k'. destruct (decide (k' = k)) as [->|Hne].
    + rewrite lookup_insert_eq. split; [by eexists|]. intros _. case_bool_decide as Hs; [by apply Hf|set_solver].
    + rewrite lookup_insert_ne by done. case_bool_decide; [apply Hf|].
      rewrite elem_of_app, list_elem_of_singleton, Hf. naive_solver.
  - intros k'. case_bool_decide; [apply Hk|]. intros [?| ->%list_elem_of_singleton]%elem_of_app; auto.
  - intros k' v'. destruct (decide (k' = k)) as [->|Hne].
    + rewrite lookup_insert_eq. by intros [= <-].
    + rewrite lookup_insert_ne by done. apply Hv.
Qed.

Lemma remove_ok b k : body_ok b → body_ok (remove b k).2.
Proof.
  intros Hb. unfold remove. case_bool_decide; [|done]. destruct Hb as [Ho Hf Hk Hv]. split; simpl.
  - by apply NoDup_filter.
  - intros k'. rewrite list_elem_of_filter, Hf. destruct (decide (k' = k)) as [->|Hne].
    + rewrite lookup_delete_eq. split; [by intros []|by intros []].
    + rewrite lookup_delete_ne by done. tauto.
  - intros k' [_ Hk']%list_elem_of_filter. by apply Hk.
  - intros k' v' [_ Hl]%lookup_delete_Some. by eapply Hv.
Qed.

Lemma written_value s : json_value (Marshal_string s).
Proof. destruct (json_written s) as (inside & -> & Hi). by constructor. Qed.

Lemma prependSystem_ok b content b' : body_ok b → prependSystem b content = Some b' → body_ok b'.
Proof.
  intros Hb. unfold prependSystem. destruct (value b "messages") as [raw|] eqn:Hv; [|done]. simpl.
  destruct (_ || _ || _) eqn:Hc; [done|]. intros [= <-].
  rewrite !orb_false_iff, !negb_false_iff, !bool_decide_eq_true in Hc. destruct Hc as ((_ & Hfirst) & Hlast).
  apply set_ok; [done|done|]. destruct (json_message "system" content) as (msg & Hmsg & ->).
  assert (json_value raw) as Hraw.
  { unfold value in Hv. destruct (fields b !! "messages") as [v|] eqn:Hf; [|done].
    case_bool_decide; [done|]. injection Hv as <-. by eapply ok_values. }
  pose proof (balanced_TrimSpace _ (array_inside raw _ Hraw eq_refl Hfirst Hlast)) as Hrest.
  assert (balanced (String open_brace (msg +:+ String close_brace ""))) as Hm
    by (apply balanced_nest; [done..|constructor]).
  set (rest := TrimSpace (String.substring _ _ _)) in *.
  rewrite (str_app_cons open_bracket), <- str_app_assoc. apply value_nest; [done..|].
  apply balanced_app; [done|]. case_bool_decide; [constructor|]. by apply balanced_plain.
Qed.

Lemma ensureUsageInStream_ok b : body_ok b → body_ok (ensureUsageInStream b).2.
Proof.
  intros Hb. unfold ensureUsageInStream. case_bool_decide; [done|].
  destruct (Marshal_object _) as [raw|] eqn:Hr; [|done]. apply set_ok; [done|done|].
  by eapply json_options.
Qed.

Lemma split_field_set b quoted key val :
  Unmarshal_string quoted = inr key → split_field b quoted val = inr (set b key val).
Proof. unfold split_field. by intros ->. Qed.

Lemma each_split_ok ms b b' :
  Forall member_ok ms → body_ok b → each_member split_field b ms = inr b' → body_ok b'.
Proof.
  intros Hms. revert b. induction Hms as [|m ms Hm Hms IH]; intros b Hb; cbn [each_member]; [by intros [= <-]|].
  destruct (Unmarshal_string (quoted (m_name m))) as [err|k] eqn:Hk; [by unfold split_field; rewrite Hk|].
  rewrite (split_field_set b _ k) by done. apply IH. apply set_ok; [done|by eapply json_read_valid|].
  apply (mo_val _ Hm).
Qed.

Lemma empty_body_ok : body_ok {| fields := ∅; order := [] |}.
Proof.
  split; simpl; [constructor| |set_solver|by intros k v ?%lookup_empty_Some].
  intros k. rewrite lookup_empty. split; [set_solver|by intros []].
Qed.

(** *** What is encoded *)

Definition inside_of (s : string) : string := String.substring 1 (String.length s - 2) s.

Definition field_member (b : body) (k : string) : member :=
  {| m_lead := ""; m_name := inside_of (Marshal_string k); m_gap := ""; m_mid := "";
     m_val := default "" (fields b !! k); m_trail := "" |}.

Lemma inside_written s : quoted (inside_of (Marshal_string s)) = Marshal_string s ∧
  escaped (inside_of (Marshal_string s)).
Proof.
  destruct (json_written s) as (inside & -> & Hi). unfold inside_of, quoted. by rewrite substring_inside.
Qed.

Lemma encode_members b ks rest :
  join "," (encode_field b <$> ks) +:+ rest = members_text (field_member b <$> ks) rest.
Proof.
  induction ks as [|k ks IH]; [done|]. destruct ks as [|k' ks].
  - simpl. unfold member_text, encode_field, field_member. simpl.
    rewrite (proj1 (inside_written k)), !str_app_nil_l, str_app_assoc, str_app_cons. done.
  - change (join "," (encode_field b <$> k :: k' :: ks)) with
      (encode_field b k +:+ String comma (join "," (encode_field b <$> k' :: ks))).
    rewrite str_app_assoc, str_app_cons, IH.
    change (members_text (field_member b <$> k :: k' :: ks) rest) with
      (member_text (field_member b k) (String comma (members_text (field_member b <$> k' :: ks) rest))).
    unfold member_text, encode_field, field_member. simpl.
    rewrite (proj1 (inside_written k)), !str_app_nil_l, str_app_assoc, str_app_cons. done.
Qed.

Lemma encode_object b : encode b = object_text "" (field_member b <$> order b) "" "".
Proof.
  unfold encode, object_text. rewrite !str_app_nil_l, str_app_cons. f_equal. apply encode_members.
Qed.

Lemma each_split_fields b ks b0 :
  body_ok b → (∀ k, k ∈ ks → k ∈ order b) → NoDup ks → (∀ k, k ∈ ks → fields b0 !! k = None) →
  ∃ b1, each_member split_field b0 (field_member b <$> ks) = inr b1 ∧ order b1 = order b0 ++ ks ∧
    ∀ k, fields b1 !! k = if bool_decide (k ∈ ks) then fields b !! k else fields b0 !! k.
Proof.
  intros Hb. revert b0. induction ks as [|k ks IH]; intros b0 Hin Hnd Hnew.
  { exists b0. by rewrite app_nil_r. }
  apply NoDup_cons in Hnd as [Hk Hnd]. cbn [fmap list_fmap each_member].
  assert (k ∈ order b) as Hkb by (apply Hin; left).
  rewrite (split_field_set b0 _ k).
  2: { simpl. rewrite (proj1 (inside_written k)). by apply json_read_back, (ok_keys _ Hb). }
  destruct (proj1 (ok_fields _ Hb k) Hkb) as [v Hv]. simpl. rewrite Hv. simpl.
  assert (order (set b0 k v) = order b0 ++ [k]) as Hord.
  { unfold set. simpl. rewrite bool_decide_eq_false_2; [done|]. rewrite Hnew by left. by intros []. }
  destruct (IH (set b0 k v)) as (b1 & -> & Ho & Hf).
  - intros k' Hk'. apply Hin. by right.
  - done.
  - intros k' Hk'. simpl. rewrite lookup_insert_ne by (by intros ->). apply Hnew. by right.
  - exists b1. rewrite Ho, Hord, <- app_assoc. split; [done|]. split; [done|]. intros k'. rewrite Hf. simpl.
    destruct (decide (k' = k)) as [->|Hne].
    + rewrite bool_decide_eq_false_2, bool_decide_eq_true_2 by (done || by left). by rewrite lookup_insert_eq.
    + rewrite lookup_insert_ne by done. do 2 case_bool_decide; try done; set_solver.
Qed.

Lemma split_encode b : body_ok b → splitObject (encode b) = inr b.
Proof.
  intros Hb. rewrite encode_object. unfold splitObject. rewrite walkObject_members; [|done| |done].
  - destruct (each_split_fields b (order b) {| fields := ∅; order := [] |} Hb) as (b1 & -> & Ho & Hf);
      [done|apply Hb|by intros; apply lookup_empty|].
    f_equal. destruct b1 as [f1 o1], b as [f o]. simpl in *. subst o1. f_equal. apply map_eq. intros k.
    rewrite Hf. case_bool_decide as Hk; [done|]. rewrite lookup_empty.
    destruct (f !! k) eqn:Hfk; [|done]. exfalso. apply Hk, (ok_fields _ Hb). by eexists.
  - apply Forall_fmap, Forall_forall. intros k Hk. simpl. split; try done; simpl.
    + apply inside_written.
    + destruct (proj1 (ok_fields _ Hb k) Hk) as [v Hv]. rewrite Hv. by eapply (ok_values _ Hb).
Qed.

(** Bodies the handlers can hold: split from an object's text, and edited. *)
Inductive made : body → Prop :=
  | made_split lead ms last tail b :
      blank lead → Forall member_ok ms → blank last →
      splitObject (object_text lead ms last tail) = inr b → made b
  | made_set b k v : made b → ValidString k = true → json_value v → made (set b k v)
  | made_setString b k s : made b → ValidString k = true → made (setString b k s)
  | made_remove b k : made b → made (remove b k).2
  | made_prepend b s b' : made b → prependSystem b s = Some b' → made b'
  | made_usage b : made b → made (ensureUsageInStream b).2.

Lemma made_ok b : made b → body_ok b.
Proof.
  induction 1 as [lead ms last tail b Hlead Hms Hl Hs|b k v Hb IH Hk Hv|b k s Hb IH Hk|b k Hb IH|b s b' Hb IH Hp|b Hb IH].
  - unfold splitObject in Hs. rewrite walkObject_members in Hs by done.
    eapply each_split_ok; [exact Hms|apply empty_body_ok|exact Hs].
  - by apply set_ok.
  - apply set_ok; [done|done|apply written_value].
  - by apply remove_ok.
  - by eapply prependSystem_ok.
  - by apply ensureUsageInStream_ok.
Qed.
End bodies.

(** *** Reading one field *)

Lemma string_end_suffix seen s : ∃ p, s = p +:+ string_end seen s.
Proof.
  revert seen. induction s as [|c s IH]; intros seen; simpl; [by exists ""|].
  destruct (_ && _); [by exists (String c "")|]. destruct (IH (String c seen)) as (p & Hp).
  exists (String c p). by rewrite str_app_cons, <- Hp.
Qed.

(** Two walks that make the same of every key and value end together. *)
Lemma walk_loop_sim {A B} (f : A → string → string → string + A) (g : B → string → string → string + B)
    (R : A → B → Prop) fuel a b s a' :
  (∀ a b i v a', R a b → f a (span (String q i) (endOfString (String q i))) v = inr a' →
     ∃ b', g b (span (String q i) (endOfString (String q i))) v = inr b' ∧ R a' b') →
  R a b → walk_loop f fuel a s = Some (inr a') → ∃ b', walk_loop g fuel b s = Some (inr b') ∧ R a' b'.
Proof.
  intros Hfg. revert a b s. induction fuel as [|fuel IH]; intros a b s HR; [done|]. cbn [walk_loop].
  destruct (skipSpace s) as [|c i]; [done|]. case_bool_decide; [intros [= <-]; by exists b|].
  case_bool_decide; [by apply IH|]. case_bool_decide as Hq; [subst c|done]. cbn [negb].
  destruct (_ <? _)%nat; [done|]. destruct (skipSpace _) as [|d s']; [done|].
  case_bool_decide; [|done]. cbn [negb].
  destruct (f a _ _) as [|a1] eqn:Hf; [done|]. destruct (Hfg a b _ _ a1 HR Hf) as (b1 & -> & HR1).
  by apply IH.
Qed.

Lemma walkObject_sim {A B} (f : A → string → string → string + A) (g : B → string → string → string + B)
    (R : A → B → Prop) a b raw a' :
  (∀ a b i v a', R a b → f a (span (String q i) (endOfString (String q i))) v = inr a' →
     ∃ b', g b (span (String q i) (endOfString (String q i))) v = inr b' ∧ R a' b') →
  R a b → walkObject f a raw = inr a' → ∃ b', walkObject g b raw = inr b' ∧ R a' b'.
Proof.
  intros Hfg HR. unfold walkObject. destruct (skipSpace raw) as [|c s]; [done|].
  case_bool_decide; [|done]. generalize (S (String.length s)). intros n.
  destruct (walk_loop f n a s) as [[err|a1]|] eqn:Hl; [done| |done]. intros [= ->].
  destruct (walk_loop_sim f g R _ a b s a' Hfg HR Hl) as (b' & -> & HR'). by exists b'.
Qed.

Lemma contains_byte_quoted inside : String.substring 1 (String.length (quoted inside) - 2) (quoted inside) = inside.
Proof. apply substring_inside. Qed.

(** A key that is read is a literal, quotes included. *)
Lemma key_literal `{JSONLaws} i k :
  Unmarshal_string (span (String q i) (endOfString (String q i))) = inr k →
  ∃ inside, span (String q i) (endOfString (String q i)) = quoted inside.
Proof.
  destruct (string_end_suffix "" i) as (p & Hp). cbn [endOfString]. set (e := string_end "" i) in *.
  assert (span (String q i) e = String q p) as ->.
  { rewrite Hp, <- str_app_cons. apply span_app. }
  intros Hk. destruct (json_literal _ _ Hk) as (inside & w & Hw & Hi & _). exists inside. rewrite Hw.
  assert (e = w +:+ e) as Hend.
  { pose proof (endOfString_quoted inside (w +:+ e) Hi) as He. rewrite <- str_app_assoc, <- Hw, str_app_cons, <- Hp in He.
    exact He. }
  destruct w as [|c w]; [by rewrite str_app_nil_r|]. exfalso. apply (f_equal len) in Hend.
  rewrite len_app in Hend. unfold len in Hend. simpl in Hend. lia.
Qed.

Lemma top_field_spec `{JSONLaws} key found i v k :
  all_of (λ c, (byte_val c <? 128)%nat) key = true →
  Unmarshal_string (span (String q i) (endOfString (String q i))) = inr k →
  top_field key found (span (String q i) (endOfString (String q i))) v =
  inr (if bool_decide (k = key) then Some v else found).
Proof.
  intros Hkey Hk. destruct (key_literal i k Hk) as (inside & Hs). rewrite Hs in *. unfold top_field.
  rewrite contains_byte_quoted. destruct (contains_byte backslash inside) eqn:Hb.
  - rewrite Hk, (bool_decide_ext (inr k = inr key) (k = key)); [done|]. split; [by intros [= <-]|by intros ->].
  - by rewrite (bool_decide_ext (inside = key) (k = key)) by (symmetry; by eapply json_unescaped).
Qed.

(** ** Properties *)

(** Splitting the top level of an object reads it. Whatever the space
    around its parts and whatever its values hold (strings with escaped quotes
    and brackets, nested objects and arrays), each key keeps its last value,
    byte for byte, in the place where the key first came. *)
Theorem splitObject_reads `{JSON} (lead last tail : string) (ms : list member) (keys : list string) :
  blank lead → Forall member_ok ms → blank last →
  Forall2 (λ m k, Unmarshal_string (quoted (m_name m)) = inr k) ms keys →
  ∃ b, splitObject (object_text lead ms last tail) = inr b ∧
    order b = foldl append_new [] keys ∧
    fields b = list_to_map (reverse (zip keys (m_val <$> ms))).
Proof.
  intros Hlead Hms Hl Hk. unfold splitObject. rewrite walkObject_members by done. clear Hms.
  assert (∀ b0 kvs, fields b0 = list_to_map (reverse kvs) → (∀ k, k ∈ order b0 ↔ is_Some (fields b0 !! k)) →
    ∃ b, each_member split_field b0 ms = inr b ∧ order b = foldl append_new (order b0) keys ∧
      fields b = list_to_map (reverse (kvs ++ zip keys (m_val <$> ms)))) as Hgen;
    [|apply (Hgen {| fields := ∅; order := [] |} []); [done|]; intros k; simpl; rewrite lookup_empty; split; [set_solver|by intros []]].
  induction Hk as [|m k ms keys Hm Hk IH]; intros b0 kvs Hf Ho.
  { exists b0. by rewrite app_nil_r. }
  cbn [each_member]. rewrite (split_field_set b0 _ k) by done.
  destruct (IH (set b0 k (m_val m)) (kvs ++ [(k, m_val m)])) as (b & -> & Hob & Hfb).
  - simpl. rewrite reverse_app, Hf. done.
  - intros k'. unfold set. simpl. destruct (decide (k' = k)) as [->|Hne].
    + rewrite lookup_insert_eq. split; [by eexists|]. intros _.
      case_bool_decide as Hs; [by apply Ho|apply elem_of_app; right; left].
    + rewrite lookup_insert_ne by done. case_bool_decide; [apply Ho|].
      rewrite elem_of_app, list_elem_of_singleton, Ho. tauto.
  - exists b. split; [done|]. rewrite Hob, Hfb. split; [|by rewrite <- app_assoc].
    simpl. f_equal. unfold set, append_new. simpl. case_bool_decide as Hs;
      rewrite <- Ho in Hs; [apply contains_spec in Hs|apply contains_false in Hs]; by rewrite Hs.
Qed.

(** C17: what is forwarded is what the handlers hold. However a body was split
    and edited (fields set, removed or quoted, a system prompt put first, usage
    asked for), encoding it and splitting the text again gives the same fields,
    with the same bytes, in the same order. *)
Theorem encode_round_trip `{JSONLaws} (b : body) : made b → splitObject (encode b) = inr b.
Proof. intros Hb. by apply split_encode, made_ok. Qed.

(** Every body the handlers hold is well formed: each key it lists has one
    value, each value one place in the list, each key is valid UTF-8, and each
    value is one value of JSON, with nothing around it. Splitting a text makes
    such a body, and every edit of one is one: a field set, removed or quoted, a
    system prompt put before the messages, usage asked for. *)
Theorem bodies_well_formed `{JSONLaws} (b : body) : made b → body_ok b.
Proof. apply made_ok. Qed.

(** Reading one field is reading them all. On any bytes at all that
    [splitObject] splits, [topLevel] finds under an ASCII key exactly the value
    the split gives it: the last of a repeated key's, however the key is
    escaped, or none. *)
Theorem topLevel_splitObject `{JSONLaws} (raw key : string) (b : body) :
  all_of (λ c, (byte_val c <? 128)%nat) key = true →
  splitObject raw = inr b → topLevel raw key = fields b !! key.
Proof.
  intros Hkey Hs. unfold topLevel.
  destruct (walkObject_sim split_field (top_field key) (λ b found, found = fields b !! key)
    {| fields := ∅; order := [] |} None raw b) as (found & -> & ->); [|done|done|done].
  intros b0 found i v b1 -> Hf. unfold split_field in Hf.
  destruct (Unmarshal_string _) as [|k] eqn:Hk; [done|]. injection Hf as <-.
  rewrite (top_field_spec key _ i v k) by done. eexists. split; [done|]. simpl.
  case_bool_decide as Hkk; [subst; by rewrite lookup_insert_eq|by rewrite lookup_insert_ne].
Qed.

(** The walks over a body end and read all of it, whatever the bytes. The
    fuel of [walkObject] and of [eachElement] is enough: more of it changes
    nothing and it never runs out, so a malformed body is an error and not an
    endless loop. *)
Theorem walks_terminate {A} (fn : A → string → string → string + A) (each : A → string → A * bool)
    (st : A) (s : string) (k : nat) :
  walk_loop fn (S (String.length s) + k) st s = walk_loop fn (S (String.length s)) st s ∧
  walk_loop fn (S (String.length s)) st s ≠ None ∧
  each_loop each (S (String.length s) + k) st s = each_loop each (S (String.length s)) st s ∧
  each_loop each (S (String.length s)) st s ≠ None.
Proof.
  destruct (walk_loop_enough fn (S (String.length s) + k) (S (String.length s)) st s) as [-> Hw]; [lia..|].
  destruct (each_loop_enough each (S (String.length s) + k) (S (String.length s)) st s) as [-> He]; [lia..|].
  rewrite <- not_eq_None_Some in Hw. by rewrite <- not_eq_None_Some in He.
Qed.

(** ** Examples *)

Fixpoint toy_escape (s : string) : string :=
  match s with
  | String c s =>
      if bool_decide (c = q) || bool_decide (c = backslash) then String backslash (String c (toy_escape s))
      else String c (toy_escape s)
  | EmptyString => ""
  end.

Fixpoint toy_unescape (s : string) : option string :=
  match s with
  | String c s =>
      if bool_decide (c = q) then if bool_decide (s = "") then Some "" else None
      else if bool_decide (c = backslash) then
        match s with String d s => String d <$> toy_unescape s | EmptyString => None end
      else String c <$> toy_unescape s
  | EmptyString => None
  end.

(** Strings escaped with backslashes only. *)
#[local] Instance toy_json : JSON :=
  {| Marshal_string s := quoted (toy_escape s);
     Unmarshal_string s :=
       match s with
       | String c s =>
           if bool_decide (c = q) then
             match toy_unescape s with
             | Some k => if ValidString k then inr k else inl "not UTF-8"
             | None => inl "not a string"
             end
           else inl "not a string"
       | EmptyString => inl "not a string"
       end;
     Unmarshal_bool s := if bool_decide (s = "true") then Some true
       else if bool_decide (s = "false") then Some false else None;
     Unmarshal_object _ := None;
     Marshal_object m := if bool_decide (m = {["include_usage" := "true"]})
       then Some (String open_brace (quoted "include_usage" +:+ ":true" +:+ String close_brace "")) else None;
     Marshal_message role s := String open_brace
       ((quoted (toy_escape role) +:+ String colon (quoted (toy_escape s) +:+ "")) +:+ String close_brace "") |}.

Lemma toy_escaped s : escaped (toy_escape s).
Proof.
  induction s as [|c s IH]; simpl; [constructor|]. case_bool_decide; simpl; [by constructor|].
  case_bool_decide; by constructor.
Qed.

Lemma toy_read_back s : toy_unescape (toy_escape s +:+ String q "") = Some s.
Proof.
  induction s as [|c s IH]; [done|]. simpl. destruct (bool_decide (c = q)) eqn:Hq; simpl; [by rewrite IH|].
  destruct (bool_decide (c = backslash)) eqn:Hb; simpl; [by rewrite IH|]. by rewrite Hq, Hb, IH.
Qed.

Lemma toy_literal s k : toy_unescape s = Some k → ∃ inside, s = inside +:+ String q "" ∧ escaped inside.
Proof.
  remember (String.length s) as n eqn:Hn. revert s k Hn.
  induction n as [n IH] using lt_wf_ind. intros [|c s] k ->; [done|]. simpl.
  case_bool_decide as Hq; [subst; case_bool_decide; [intros _; subst; by exists ""; split; [|constructor]|done]|].
  case_bool_decide as Hb.
  - subst. destruct s as [|d s]; [done|]. destruct (toy_unescape s) as [k'|] eqn:Hk; [|done]. intros _.
    destruct (IH (String.length s) ltac:(simpl; lia) s k' eq_refl Hk) as (inside & -> & Hi).
    exists (String backslash (String d inside)). split; [done|by constructor].
  - destruct (toy_unescape s) as [k'|] eqn:Hk; [|done]. intros _.
    destruct (IH (String.length s) ltac:(simpl; lia) s k' eq_refl Hk) as (inside & -> & Hi).
    exists (String c inside). split; [done|by constructor].
Qed.

Lemma toy_unescaped name k :
  toy_unescape (name +:+ String q "") = Some k → contains_byte backslash name = false → k = name.
Proof.
  revert k. induction name as [|c name IH]; intros k; [by intros [= <-]|]. simpl.
  case_bool_decide as Hq; [case_bool_decide as He; [by destruct name|done]|].
  rewrite orb_false_iff. intros Hk [Hb Hn]. rewrite Hb in Hk.
  destruct (toy_unescape _) as [k'|]; [|done]. injection Hk as <-. by rewrite (IH k').
Qed.

#[local] Instance toy_laws : JSONLaws.
Proof.
  split.
  - intros s Hs. simpl. rewrite toy_read_back. by rewrite Hs.
  - intros s. exists (toy_escape s). split; [done|apply toy_escaped].
  - intros [|c s] k; simpl; [done|]. case_bool_decide; [|done]. destruct (toy_unescape s) as [k'|]; [|done].
    destruct (ValidString k') eqn:Hv; [|done]. by intros [= <-].
  - intros s k. simpl. destruct (toy_unescape s) as [k'|] eqn:Hk; [|done]. intros _.
    destruct (toy_literal s k' Hk) as (inside & -> & Hi). exists inside, "".
    by rewrite str_app_nil_r.
  - intros role s. exists (quoted (toy_escape role) +:+ String colon (quoted (toy_escape s) +:+ "")).
    split; [|done]. apply balanced_string; [apply toy_escaped|]. apply balanced_plain; [done..|].
    apply balanced_string; [apply toy_escaped|constructor].
  - intros m s. simpl. case_bool_decide; [|done]. intros [= <-].
    apply (value_nest open_brace close_brace (quoted "include_usage" +:+ ":true")); [done..|].
    apply balanced_string; [|repeat (apply balanced_plain; [done..|]); constructor].
    repeat (apply escaped_plain; [done..|]). constructor.
  - intros name k key. simpl.
    destruct (toy_unescape (name +:+ String q "")) as [k'|] eqn:Hk; [|done].
    destruct (ValidString k'); [|done]. intros [= <-] Hb _.
    by rewrite (toy_unescaped name k' Hk Hb).
Qed.

(** An object with a repeated key, nested values and escaped quotes. *)
Definition sample_members : list member :=
  [{| m_lead := " "; m_name := "model"; m_gap := ""; m_mid := " "; m_val := quoted "auto"; m_trail := "" |};
   {| m_lead := ""; m_name := "messages"; m_gap := " "; m_mid := "";
      m_val := String open_bracket (quoted (String backslash (String q "}")) +:+ String close_bracket "");
      m_trail := " " |};
   {| m_lead := ""; m_name := "model"; m_gap := ""; m_mid := ""; m_val := "7"; m_trail := "" |}].

Ltac plain_text := repeat (apply escaped_plain; [done..|]); first [apply escaped_nil|apply escaped_pair; plain_text].

Lemma sample_members_ok : Forall member_ok sample_members.
Proof.
  repeat (apply Forall_cons; split); try constructor; try done; try plain_text; simpl.
  - apply value_string. plain_text.
  - apply (value_nest open_bracket close_bracket (quoted (String backslash (String q "}")))); [done..|].
    rewrite <- (str_app_nil_r (quoted _)). apply balanced_string; [plain_text|constructor].
  - by apply value_scalar.
Qed.

Definition sample_object : string := object_text "" sample_members "" " ".

Lemma splitObject_reads_witness :
  ∃ b, splitObject sample_object = inr b ∧ order b = ["model"; "messages"] ∧ fields b !! "model" = Some "7".
Proof.
  destruct (splitObject_reads "" "" " " sample_members ["model"; "messages"; "model"]) as (b & Hb & Ho & Hf);
    [done|exact sample_members_ok|done|repeat constructor; vm_compute; reflexivity|].
  exists b. split; [exact Hb|]. split; [rewrite Ho; reflexivity|]. rewrite Hf. vm_compute. reflexivity.
Defined.

Definition sample_split_body : body :=
  {| fields := {["model" := "7"; "messages" := String open_bracket
       (quoted (String backslash (String q "}")) +:+ String close_bracket "")]};
     order := ["model"; "messages"] |}.

Lemma sample_split : splitObject sample_object = inr sample_split_body.
Proof. vm_compute. reflexivity. Qed.

Lemma encode_round_trip_witness :
  ∃ b, prependSystem (setString sample_split_body "model" "small") "Be brief." = Some b ∧
    splitObject (encode b) = inr b.
Proof.
  destruct (prependSystem (setString sample_split_body "model" "small") "Be brief.") as [b|] eqn:Hb;
    [|vm_compute in Hb; discriminate].
  exists b. split; [reflexivity|]. apply encode_round_trip. eapply made_prepend; [|exact Hb].
  apply made_setString; [|reflexivity].
  apply (made_split "" sample_members "" " "); [done|exact sample_members_ok|done|exact sample_split].
Defined.

Lemma topLevel_splitObject_witness :
  splitObject sample_object = inr sample_split_body ∧ topLevel sample_object "model" = Some "7".
Proof.
  split; [exact sample_split|].
  rewrite (topLevel_splitObject sample_object "model" sample_split_body); [reflexivity|reflexivity|exact sample_split].
Defined.

Lemma bodies_well_formed_witness : body_ok (remove sample_split_body "model").2.
Proof.
  apply bodies_well_formed, made_remove.
  apply (made_split "" sample_members "" " "); [done|exact sample_members_ok|done|exact sample_split].
Defined.
