(* ===== verification/Serve.v ===== *)
(** * Serving a request

    Everything after authentication in [internal/gateway/serve.go]: decode,
    find the target, admit, run the router and the filters, forward
    ([forward.go]), and account for what it cost. What the inference plane
    answers is an arbitrary function of the call. *)
From S2P Require Import Prelude GoTime Num Tenancy Pricing Guardrails Text Filters Routers RouterCheck.
From S2P Require Import RouterSpec Replies Guard Routing FilterChain Limiter Budgets Messages Call.
From S2P Require Import Admission RouterWalk Models.
Open Scope go_scope.

(** ** Estimates *)

Definition bytesPerTokenAtMost : Z := 5.
Definition bytesPerTokenTypical : Z := 4.

(** [leastTokens]. *)
Definition leastTokens (texts : list string) (kind : string) : Z :=
  let '(total, longest) :=
    foldl (λ '(total, longest) t, (total ⊕ len t, Z.max longest (len t))) (0, 0) texts in
  quot64 (if bool_decide (kind = KindChat) then total else longest) bytesPerTokenAtMost.

Definition estimateInputTokens (payload : string) : Z := quot64 (len payload) bytesPerTokenTypical.

(** ** Refusals *)

Definition unsupported (msg : string) : refusal :=
  {| R_status := 400; R_typ := "invalid_request_error"; R_code := "unsupported_parameter";
     R_msg := msg; R_advise := false; R_retry := 0 |}.

Definition no_backend (alias : string) : refusal :=
  {| R_status := 503; R_typ := "server_error"; R_code := "no_backend";
     R_msg := "the model '" +:+ alias +:+ "' has no configured backend";
     R_advise := false; R_retry := 0 |}.

Definition context_exceeded (tokens window : Z) (largest : string) : refusal :=
  {| R_status := 400; R_typ := "invalid_request_error"; R_code := "context_length_exceeded";
     R_msg := "prompt is too long: " +:+ pretty tokens +:+ " tokens > " +:+ pretty window +:+
       " maximum. That is the least this " +:+
       "request can be, and '" +:+ largest +:+ "' holds no more; compact the conversation or start a new one";
     R_advise := false; R_retry := 0 |}.

Definition promptAdded : string := "a guardrail or a router step adds a system prompt to this request".

Definition guardrailFilters : string := "a guardrail on this key".

Definition listPriceTiers : list string := ["auto"; "default"; "flex"; "standard_only"].

(** ** The inference plane *)

(** What relaying an answer found: the status answered with, the usage record,
    whether it was filled in, the deltas of a stream, the output the gateway
    counted, and what went wrong. *)
Record relayed := {
  rl_status : Z;
  rl_usage : option Tokens;
  rl_partial : bool;
  rl_deltas : Z;
  rl_counted : Z;
  (** When the first of the answer came, if any did. *)
  rl_first : option Z;
  rl_error : string;
}.

Inductive upstream :=
  | Unreached (undelivered : bool) (err : string)
  | Response (status : Z) (streaming : bool) (answer : relayed).

(** The answer to the request sent at the [n]th read of the clock. *)
Class Plane := {
  plane_send : nat → Model → string → upstream;
  (** Whether the longer context of a request on the deployment's key is done
      at the [n]th read: [outlast]. *)
  outlasted : nat → bool;
}.

Record fw := {
  fwd_model : Model;
  fwd_payload : string;
  fwd_result : upstream;
  fwd_sent : Z;
  fwd_at : Z;
  fwd_failures : list string;
}.

(** [forwarded.note]. *)
Definition fw_note (f : fw) : string :=
  match fwd_failures f with [] => "" | l => "tried before this one: " +:+ join "; " l end.

(** What [settle] reads of it. *)
Definition settled (f : fw) : forwarded :=
  {| fw_alias := Alias (fwd_model f);
     fw_err := match fwd_result f with Unreached _ _ => true | _ => false end;
     fw_status := match fwd_result f with Response n _ _ => Some n | _ => None end;
     fw_at := fwd_at f |}.

Section serve.
Context `{Num T} `{FloatText T} `{MapRange} `{Source} `{SourceLists} `{Unicode} `{!Completions T}.
Context `{Wire} `{Clock} `{Plane}.
Context `{Regexp} `{Countable Digest} (cleanKey : Z → string → Digest) (Exp Exp2 : T → T).
Context `{Budgeter B} `{!RateLimiter T L} `{!Bodies T Body}.
Abbreviation M := (handler Body B L _ Digest _ _).

(** [stripPremium]. *)
Definition stripPremium (b : Body) : Body :=
  let b := foldl (λ b field, (b_remove b field).2) b ["speed"; "inference_geo"] in
  if b_value b "service_tier" &&
     negb (contains listPriceTiers (default "" (b_str b "service_tier")))
  then (b_remove b "service_tier").2 else b.

(** ** Before the router *)

(** [Server.decode], given what [parseBody] made of the body. *)
Definition decode (parsed : string + Body) : M (option Body) :=
  match parsed with
  | inl err => refuse (invalidBody err)
  | inr b =>
      if b_value b "stream" && bool_decide (b_boolean b "stream" = None) then
        refuse (invalidBody "the 'stream' field must be true or false")
      else
        c ← the_call;
        match c_dialect c with
        | None =>
            mret (Some (if bool_decide (b_str b "tool_choice" = Some "any")
                        then b_setString b "tool_choice" "required" else b))
        | Some _ => set_call (λ c, c <| c_native := Some b |>);; mret None
        end
  end.

Definition set_alias (alias : string) : M unit :=
  set_call (λ c, edit_ev (λ ev, ev <| ev_Alias := alias |>) (c <| c_alias := alias |>)).

(** [Server.target]. *)
Definition target (b : option Body) : M unit :=
  c ← the_call;
  let alias := default "" (b ← sent c b; b_str b "model") in
  refuse_if (aliasRefusal alias);;
  set_alias alias;;
  let '(n, ref) := lookupModel (c_res c) alias (c_kind c) in
  (match n_model n with
   | Some m => if bool_decide (Alias m = "") then mret tt else set_alias (Alias m)
   | None => mret tt
   end);;
  refuse_if ref;;
  (match n_router n with
   | Some p => set_call (λ c, c <| c_router := p |>)
   | None => mret tt
   end);;
  if negb (bool_decide (from_option Ro_Alias "" (n_router n) = "")) then mret tt
  else
      let model := default Model_zero (n_model n) in
      (if bool_decide (Backends model = []) then refuse (no_backend alias) else mret tt);;
      c ← the_call;
      refuse_if (if Subscription model then subscriptionRefusal c else None);;
      set_call (λ c, c <| c_model := model |>).

(** ** Between the router and the model *)

(** [Server.useNative]. *)
Definition useNative (b : option Body) : M (option Body) :=
  c ← the_call;
  match c_native c, c_dialect c with
  | Some native, Some d =>
      let why := d_needsNative d native in
      (if bool_decide (why = "") then mret tt
       else match filter (sendsNative c) (c_chain c) with
       | [] => refuse (unsupported (why +:+ ". The model '" +:+ c_alias c +:+ "' is not one of them"))
       | kept => set_call (λ c, c <| c_chain := kept |>)
       end);;
      c ← the_call;
      let translated := c_translated c || existsb (λ m, negb (sendsNative c m)) (c_chain c) in
      set_call (λ c, c <| c_translated := translated |>);;
      b ← (if translated then b ← translate b; mret (Some b) else mret b);
      if negb (existsb (sendsNative c) (c_chain c)) then
        set_call (λ c, c <| c_native := None |>);; mret b
      else if existsb (λ m, PlatformKey m && sendsNative c m) (c_chain c) then
        let '(why, native) := d_onKey d native in
        set_call (λ c, c <| c_native := Some native |>);;
        if bool_decide (why = "") then mret b else refuse (unsupported why)
      else mret b
  | _, _ => mret b
  end.

(** The loop over the chain in [fits]: the largest window and whose it is, or
    [None] when a model takes anything. *)
Fixpoint largest_window (chain : list Model) (window : Z) (largest : string) : option (Z * string) :=
  match chain with
  | [] => Some (window, largest)
  | m :: chain =>
      if MaxContext m <=? 0 then None
      else if MaxContext m >? window then largest_window chain (MaxContext m) (Alias m)
      else largest_window chain window largest
  end.

(** The size and the text of the body every destination can be sent. *)
Definition read_sent (c : call Body) (b : option Body) : Z * (string + list string) :=
  match b, c_native c, c_dialect c with
  | Some b, _, _ => (b_size b, extractText b (c_kind c))
  | None, Some n, Some d => (b_size n, d_text d n)
  | None, _, _ => (0, inr [])
  end.

(** What [fits] finds wrong. *)
Definition fits_refusal (c : call Body) (b : option Body) : option refusal :=
  if bool_decide (c_kind c = KindRerank) then None
  else match largest_window (c_chain c) 0 (c_alias c) with
  | None => None
  | Some (window, largest) =>
      let '(size, texts) := read_sent c b in
      if quot64 size bytesPerTokenAtMost <=? window then None
      else match texts with
      | inl _ => None
      | inr texts =>
          let tokens := leastTokens texts (c_kind c) in
          if tokens <=? window then None else Some (context_exceeded tokens window largest)
      end
  end.

(** [Server.fits]. *)
Definition fits (b : option Body) : M unit :=
  c ← the_call; refuse_if (fits_refusal c b).

(** [Server.useFilters]. *)
Definition useFilters (b : option Body) : M (option Body) :=
  c ← the_call;
  let aliases := filter (λ alias, alias ∉ FR_Filter <$> runs (c_filters c)) (R_Filters (c_res c)) in
  '(rewrote, b) ← runFilters cleanKey Exp b aliases guardrailFilters;
  c ← the_call;
  if (rewrote : bool) && bool_decide (is_Some (c_native c)) && c_translated c then
    b ← retranslate; mret (Some b)
  else mret b.

(** The system prompt's part of [prepare]. *)
Definition add_system (b : option Body) : M (option Body) :=
  c ← the_call;
  let prompt := systemPrompt c in
  if bool_decide (prompt = "") || negb (bool_decide (c_kind c = KindChat)) then mret b
  else
    b ← match b with
        | Some b =>
            match prependSystem b prompt with
            | Some b => mret (Some b)
            | None => refuse (invalidBody ("the 'messages' field must be an array; " +:+ promptAdded))
            end
        | None => mret None
        end;
    match c_native c, c_dialect c with
    | Some native, Some d =>
        match d_addSystem d native prompt with
        | inr native => set_call (λ c, c <| c_native := Some native |>);; mret b
        | inl err => refuse (invalidBody err)
        end
    | _, _ => mret b
    end.

(** The fields removed on the deployment's key. *)
Definition strip_on_key (b : option Body) : M (option Body) :=
  c ← the_call;
  if negb (chainOnKey c) then mret b
  else
    let strip_store b :=
      if bool_decide (b_boolean b "store" = Some true) then (b_remove b "store").2 else b in
    let b := (λ b, strip_store (stripPremium (b_remove b "web_search_options").2)) <$> b in
    let native := (λ n, stripPremium
      match c_dialect c with Some d => (d_stripHostedTools d n).2 | None => n end) <$> c_native c in
    set_call (λ c, c <| c_native := native |>);; mret b.

(** [Server.prepare]. *)
Definition prepare (b : option Body) : M (option Body) :=
  b ← add_system b;
  b ← strip_on_key b;
  c ← the_call;
  let stream := bool_decide ((b ← sent c b; b_boolean b "stream") = Some true) in
  set_call (λ c, edit_ev (λ ev, ev <| ev_Stream := stream |>) (c <| c_stream := stream |>));;
  mret (if stream then (λ b, (ensureUsageInStream b).2) <$> b else b).

(** ** Forwarding *)

(** [call.outbound]: the payload a destination is sent. *)
Definition outbound (c : call Body) (b : option Body) (m : Model) : string :=
  match (if sendsNative c m then c_native c else b) with
  | Some b => b_encode (b_setString b "model" (BackendModel m))
  | None => ""
  end.

(** [ctx.Err() != nil] of the context a request is forwarded in. *)
Definition request_Err : M bool := λ '(c, s),
  if chainOnKey c
  then (inr (outlasted (sv_reads s)), (c, s <| sv_reads := S (sv_reads s) |>))
  else context_Err (c, s).

(** The effects of one attempt: a destination is busy while it is asked, and
    failing after an error that is not the client's, or a 5xx. *)
Definition attempt (c : call Body) (b : option Body) (m : Model) : M (upstream * Z * release) :=
  began ← time_Now;
  s ← the_server;
  let r := plane_send (sv_reads s) m (outbound c b m) in
  let '(rel, busy) := begin (sv_loads s) (Model_Key m) in
  set_server (λ s, s <| sv_loads := busy |>);;
  gone ← request_Err;
  (if match r with Unreached _ _ => negb gone | Response n _ _ => n >=? 500 end then
     now ← time_Now;
     set_server (λ s, s <| sv_loads := fail (sv_loads s) (Model_Key m) now |>)
   else mret tt);;
  mret (r, began, rel).

Definition release_now (rel : release) : M unit :=
  set_server (λ s, s <| sv_loads := (release_call rel (sv_loads s)).2 |>).

(** What a failed destination said, when the next one is tried. *)
Definition failure_of (m : Model) (r : upstream) : option string :=
  match r with
  | Unreached _ err => Some (Alias m +:+ " could not be reached: " +:+ err)
  | Response n _ _ => if n >=? 500 then Some (Alias m +:+ " answered " +:+ pretty n) else None
  end.

(** [Server.forward], from the destination at place [at_] on. *)
Fixpoint forward (b : option Body) (at_ : Z) (failures : list string) (m : Model)
    (chain : list Model) : M (fw * release) :=
  c ← the_call;
  '(r, began, rel) ← attempt c b m;
  let f := {| fwd_model := m; fwd_payload := outbound c b m; fwd_result := r;
              fwd_sent := began; fwd_at := at_; fwd_failures := failures |} in
  match chain with
  | [] => mret (f, rel)
  | next :: chain =>
      gone ← request_Err;
      if (gone : bool) then mret (f, rel)
      else match failure_of m r with
      | Some failure => release_now rel;; forward b (at_ + 1) (failures ++ [failure]) next chain
      | None => mret (f, rel)
      end
  end.

(** ** Accounting *)

(** [Server.billUnreported]. *)
Definition billUnreported (b : option Body) : M unit :=
  set_call (λ c,
    let ev := c_ev c in
    if negb (PlatformKey (c_model c)) || (Input (ev_Used ev) ⊕ Output (ev_Used ev) >? 0) then c
    else
      let t := mostTokens (c_received c) (outputTokens c (sent c b)) in
      let used := {| Input := Input t; CachedInput := CachedInput (ev_Used ev);
                     CacheWrite := CacheWrite (ev_Used ev);
                     CacheWriteHour := CacheWriteHour (ev_Used ev); Output := Output t |} in
      c <| c_ev := ev <| ev_Used := used |> <| ev_Estimated := true |> |>).

(** [Server.finish]. *)
Definition finish : M unit :=
  c ← the_call;
  let ev := c_ev c in
  let '(cost, bills) := answerCost (c_model c) (ev_Used ev) (c_counted c) in
  let ev := ev <| ev_Bills := hookBills c ++ bills |>
    <| ev_ListCostMicros := if Subscription (c_model c) then cost else ev_ListCostMicros ev |> in
  let cost := if Subscription (c_model c) then 0 else cost in
  on_budgets (λ bs, bg_Charge bs (c_scopes c) cost (c_now c));;
  let ev := ev <| ev_CostMicros := cost ⊕ hookMicros c |> <| ev_Scopes := c_scopes c |> in
  let tokens := Input (ev_Used ev) ⊕ Output (ev_Used ev) in
  (if num_ltb (of_Z 0) (of_Z tokens : T) then
     now ← time_Now;
     set_server (λ s, s <| sv_limiter :=
       rl_ChargeAll (sv_limiter s) (tpmBucket <$> c_scopes c) (of_Z tokens : T) now |>);;
     on_budgets (λ bs, bg_Tally bs (c_scopes c) MeterTokens (num_trunc (of_Z tokens : T)) (c_now c))
   else mret tt);;
  record ev.

(** [Server.settleRoute]. *)
Definition settleRoute (f : fw) : M unit :=
  set_call (λ c,
    if Route_Chooses (c_route c) then c
    else
      let d := settle (c_decision c) (settled f) in
      edit_ev (λ ev, ev <| ev_RouterOutcome := d_outcome d |>) (c <| c_decision := d |>)).

(** What [relayStream] and [relayBuffered] record of the answer. *)
Definition relay (payload : string) (streaming : bool) (a : relayed) : M unit :=
  set_call (λ c,
    let c := if bool_decide (rl_error a = "") then c
             else edit_ev (λ ev, ev <| ev_Error := rl_error a |>) c in
    let c := if streaming then c else edit_ev (λ ev, ev <| ev_Status := rl_status a |>) c in
    match rl_usage a with
    | Some u => edit_ev (λ ev, ev <| ev_Used := u |>
        <| ev_Estimated := if streaming then rl_partial a else ev_Estimated ev |>) c
    | None =>
        if negb streaming || PlatformKey (c_model c) then c
        else
          let used := {| Input := estimateInputTokens payload; CachedInput := CachedInput (ev_Used (c_ev c));
                         CacheWrite := CacheWrite (ev_Used (c_ev c));
                         CacheWriteHour := CacheWriteHour (ev_Used (c_ev c)); Output := rl_deltas a |} in
          edit_ev (λ ev, ev <| ev_Used := used |> <| ev_Estimated := true |>) c
    end).

(** What the gateway itself counted of the answer. *)
Definition count_tokens (payload : string) (a : relayed) : M unit :=
  set_call (λ c, c <| c_counted :=
    if CountsTokens (c_model c) && (ev_Status (c_ev c) <? 300)
    then {| Input := estimateInputTokens payload; CachedInput := 0; CacheWrite := 0;
            CacheWriteHour := 0; Output := rl_counted a |}
    else Tokens_zero |>).

(** [Server.upstreamUnreachable]. *)
Definition upstreamUnreachable (f : fw) (err : string) : M unit :=
  c ← the_call;
  limitHeaders (c_now c);;
  set_call (edit_ev (λ ev, ev <| ev_Status := 502 |>
    <| ev_Error := appendNote ("the inference plane could not be reached: " +:+ err) (fw_note f) |>));;
  finish.

(** Feeds the latency steps: only a whole, real answer counts. *)
Definition observe_answer (f : fw) (a : relayed) : M unit :=
  c ← the_call;
  match rl_first a with
  | Some first =>
      if (ev_Status (c_ev c) <? 400) && negb (ev_Canceled (c_ev c)) && (first >? c_start c) then
        now ← time_Now;
        set_server (λ s, s <| sv_loads :=
          observe Exp2 (sv_loads s) (Model_Key (c_model c)) (time_sub first (fwd_sent f)) now |>)
      else mret tt
  | None => mret tt
  end.

(** [Server.answer], once a destination was tried. *)
Definition serve_answer (b : option Body) (f : fw) : M ended :=
  c ← the_call;
  (if bool_decide (Rt_Router (c_route c) = "") then mret tt else settleRoute f);;
  gone ← context_Err;
  if (gone : bool) && negb (chainOnKey c) then hungUp "before the model answered" (fw_note f)
  else
    set_call (λ c, edit_ev (λ ev, ev <| ev_Alias := Alias (fwd_model f) |>)
      (c <| c_model := fwd_model f |> <| c_alias := Alias (fwd_model f) |>));;
    match fwd_result f with
    | Unreached undelivered err =>
        (if undelivered : bool then mret tt else billUnreported b);;
        upstreamUnreachable f err;;
        mret (AnsweredWith 502)
    | Response status streams a =>
        let streaming := c_stream c && streams in
        set_call (edit_ev (λ ev, ev <| ev_Status := status |>));;
        limitHeaders (c_now c);;
        relay (fwd_payload f) streaming a;;
        (if status <? 400 then billUnreported b else mret tt);;
        count_tokens (fwd_payload f) a;;
        gone ← context_Err;
        set_call (edit_ev (λ ev,
          let ev := ev <| ev_Canceled := gone |> in
          if 400 <=? ev_Status ev
          then ev <| ev_Error := appendNote (ev_Error ev) (fw_note f) |>
          else ev <| ev_Note := appendNote (ev_Note ev) (fw_note f) |>));;
        finish;;
        observe_answer f a;;
        mret (AnsweredWith (if streaming then status else rl_status a))
    end.

(** [Server.answer]; the chain always holds a model. *)
Definition answer (b : option Body) : M ended :=
  c ← the_call;
  match c_chain c with
  | [] => mret (AnsweredWith 0)
  | m :: chain =>
      '(f, rel) ← forward b 0 [] m chain;
      e ← serve_answer b f;
      release_now rel;; mret e
  end.

(** ** The whole *)

Definition Route_zero : Route :=
  {| Rt_OrgID := ""; Rt_Router := ""; Rt_Step := ""; Rt_Mode := ""; Rt_Model := ""; Rt_Prompt := "";
     Rt_Destinations := []; Rt_Ceilings := ∅; Rt_Header := ""; Rt_Values := ∅; Rt_Fallback := "" |}.

Definition Router_zero : Router :=
  {| Ro_OrgID := ""; Ro_Alias := ""; Ro_DisplayName := ""; Ro_Description := ""; Ro_Start := None;
     Ro_CreatedAt := time_zero; Ro_UpdatedAt := time_zero |}.

(** The call [Server.serve] starts with, for a body of [received] bytes. *)
Definition new_call (res : Resolved) (kind : string) (d : option (dialect Body))
    (header : string → list string) (signIn : bool) (start received : Z) : call Body :=
  {| c_res := res; c_kind := kind; c_dialect := d; c_header := header; c_signIn := signIn;
     c_start := start; c_now := time_zero; c_ev := Event_zero <| ev_OrgID := Key_OrgID (R_Key res) |>;
     c_alias := ""; c_model := Model_zero; c_route := Route_zero; c_router := Router_zero;
     c_scopes := Scopes res; c_prompts := []; c_decision := routeDecision_zero;
     c_earlier := {| hs_micros := 0; hs_bills := [] |}; c_filters := filterRun_zero; c_chain := [];
     c_native := None; c_translated := false; c_stream := false; c_received := received;
     c_held := 0; c_counted := Tokens_zero |}.

(** The steps of [Server.serve], for a body that was received. *)
Definition steps (parsed : string + Body) : M ended :=
  b ← decode parsed;
  target b;;
  admit_ b;;
  c ← the_call;
  b ← (if viaRouter c then useRouter cleanKey Exp b else mret b);
  set_call (λ c, c <| c_chain := destinations (orgID c) (c_model c) (c_decision c) |>);;
  b ← useNative b;
  fits b;;
  b ← useFilters b;
  b ← prepare b;
  answer b.

(** [Server.serve] with its deferred calls. *)
Definition serve (parsed : string + Body) (st : call Body * Server B L Digest)
    : ended * (call Body * Server B L Digest) :=
  let '(r, (c, s)) := steps parsed st in
  let bs := bg_EndRequest (sv_budgets s) (c_scopes c) (c_now c) in
  let bs := bg_ReleaseCredit bs (orgID c) (c_held c) in
  (match r with inl e => e | inr e => e end, (c, s <| sv_budgets := bs |>)).
End serve.

(** ** The context window *)

Lemma largest_window_none chain w name :
  largest_window chain w name = None ↔ ∃ m, m ∈ chain ∧ MaxContext m <= 0.
Proof.
  revert w name. induction chain as [|m chain IH]; intros w name; simpl.
  - split; [done|]. intros (m & Hm & _). by apply elem_of_nil in Hm.
  - destruct (MaxContext m <=? 0) eqn:Hm; to_prop.
    + split; [|done]. intros _. exists m. split; [left|lia].
    + assert (largest_window chain (if MaxContext m >? w then MaxContext m else w)
        (if MaxContext m >? w then Alias m else name) = None ↔ ∃ m', m' ∈ m :: chain ∧ MaxContext m' <= 0) as Hi.
      { rewrite IH. setoid_rewrite elem_of_cons. split; [naive_solver|].
        intros (m' & [->|?] & ?); [lia|eauto]. }
      by destruct (MaxContext m >? w).
Qed.

Lemma largest_window_some chain w name w' name' :
  largest_window chain w name = Some (w', name') →
  w <= w' ∧ (∀ m, m ∈ chain → 0 < MaxContext m <= w') ∧
  (w' = w ∧ name' = name ∨ ∃ m, m ∈ chain ∧ MaxContext m = w' ∧ Alias m = name').
Proof.
  revert w name. induction chain as [|m chain IH]; intros w name; simpl.
  - intros [= <- <-]. split; [lia|]. split; [by intros m Hm%elem_of_nil|by left].
  - destruct (MaxContext m <=? 0) eqn:Hm; [done|]. to_prop.
    destruct (MaxContext m >? w) eqn:Hw; to_prop; intros (H1 & H2 & H3)%IH.
    + split; [lia|]. split; [intros m' [->|Hm']%elem_of_cons; [lia|auto]|]. right.
      destruct H3 as [[-> ->]|(m' & ? & ? & ?)]; [exists m|exists m']; (split; [by constructor|done]).
    + split; [lia|]. split; [intros m' [->|Hm']%elem_of_cons; [lia|auto]|].
      destruct H3 as [?|(m' & ? & ? & ?)]; [by left|right; exists m'; split; [by right|done]].
Qed.

Section fits.
Context `{Num T} `{!Bodies T Body}.
Implicit Types (c : call Body).

(** What [fits] decides, without its shortcut. *)
Lemma fits_refusal_spec c b size texts :
  read_sent c b = (size, inr texts) →
  leastTokens texts (c_kind c) <= quot64 size bytesPerTokenAtMost →
  fits_refusal c b =
  if bool_decide (c_kind c = KindRerank) then None
  else match largest_window (c_chain c) 0 (c_alias c) with
  | None => None
  | Some (window, largest) =>
      if leastTokens texts (c_kind c) <=? window then None
      else Some (context_exceeded (leastTokens texts (c_kind c)) window largest)
  end.
Proof.
  intros Hr Hs. unfold fits_refusal. rewrite Hr. case_bool_decide; [done|].
  destruct (largest_window _ _ _) as [[window largest]|]; [|done].
  destruct (quot64 size bytesPerTokenAtMost <=? window) eqn:Hq; [|done]. to_prop.
  by rewrite (proj2 (Z.leb_le _ _)) by lia.
Qed.
End fits.

(** C37: the context check refuses exactly the requests that cannot fit. When a
    body is at least as long as its text, a request is refused if and only if
    it is not for a reranker, every model it may go to declares a context, and
    the fewest tokens its text can be are more than each of them; the shortcut
    by the body's size changes no answer, and the refusal names the largest
    context and a model that has it. *)
Theorem fits_exact `{Num T} `{!Bodies T Body} (c : call Body) (b : option Body) (size : Z) (texts : list string) :
  read_sent c b = (size, inr texts) → c_chain c ≠ [] →
  leastTokens texts (c_kind c) <= quot64 size bytesPerTokenAtMost →
  let tokens := leastTokens texts (c_kind c) in
  (is_Some (fits_refusal c b) ↔
     c_kind c ≠ KindRerank ∧ ∀ m, m ∈ c_chain c → 0 < MaxContext m < tokens) ∧
  (∀ ref, fits_refusal c b = Some ref → ∃ m, m ∈ c_chain c ∧
     ref = context_exceeded tokens (MaxContext m) (Alias m) ∧
     ∀ m', m' ∈ c_chain c → MaxContext m' <= MaxContext m).
Proof.
  intros Hr Hne Hs tokens. rewrite (fits_refusal_spec c b size texts Hr Hs).
  case_bool_decide as Hk; [by split; [split; [intros []|naive_solver]|]|].
  destruct (largest_window _ _ _) as [[w name]|] eqn:Hw.
  - apply largest_window_some in Hw as (H1 & H2 & H3).
    assert (∃ m, m ∈ c_chain c ∧ MaxContext m = w ∧ Alias m = name) as (m & Hm & Hmw & Hmn).
    { destruct H3 as [[-> _]|?]; [|done]. destruct (c_chain c) as [|m chain]; [done|].
      destruct (H2 m (list_elem_of_here _ _)). lia. }
    fold tokens. destruct (tokens <=? w) eqn:Ht; to_prop.
    + split; [|done]. split; [by intros []|]. intros [_ Hall]. specialize (Hall m Hm). lia.
    + split; [split; [|by eexists]|].
      * intros _. split; [done|]. intros m' Hm'. specialize (H2 m' Hm'). lia.
      * intros ref Href. exists m. split; [done|]. split; [rewrite Hmw, Hmn; by injection Href|].
        intros m' Hm'. specialize (H2 m' Hm'). lia.
  - apply largest_window_none in Hw as (m & Hm & Hle). split; [|done]. split; [by intros []|].
    intros [_ Hall]. specialize (Hall m Hm). lia.
Qed.

(** ** Examples *)

(** A body that is nothing but its text. *)
#[local] Instance text_bodies : Bodies Q string :=
  {| b_str _ _ := None; b_boolean _ _ := None; b_ceiling _ _ := None; b_setString b _ _ := b;
     b_remove b _ := (false, b); b_value _ _ := false; b_size := len; b_encode b := b;
     extractText b _ := inr [b]; applyText b _ _ := inr b; prependSystem _ _ := None;
     ensureUsageInStream b := (false, b) |}.

Definition cramped_call : call string :=
  (new_call {| R_Key := sample_key; R_AllowedModels := None; R_AllowedLocations := None;
               R_SystemPrompt := ""; R_Filters := []; R_AllowedTools := None; Scopes := []; Quotas := [] |}
    KindChat None (λ _, []) false 0 0)
    <| c_chain := [sample_chat "tiny" 4 ""; sample_chat "small" 6 ""] |>.

Definition long_text : string := "a question of a little more than forty bytes".

Lemma fits_exact_witness :
  fits_refusal cramped_call (Some long_text) = Some (context_exceeded 8 6 "small") ∧
  is_Some (fits_refusal cramped_call (Some long_text)).
Proof.
  split; [vm_compute; reflexivity|].
  destruct (fits_exact cramped_call (Some long_text) 44 [long_text]) as [H _];
    [reflexivity|discriminate|vm_compute; discriminate|].
  apply H. split; [discriminate|].
  intros m Hm. repeat (apply elem_of_cons in Hm as [->|Hm]); [vm_compute; split; reflexivity..|].
  by apply elem_of_nil in Hm.
Defined.
