(* ===== verification/Ledger.v ===== *)
(** * A ledger of what is charged

    Any [Budgeter], with every call that changes it written down, and any
    [RateLimiter], with every charge written down: what the theorems about the
    accounting of a request are stated on. Amounts are compared as [int64]s,
    that is modulo 2^64. *)
From S2P Require Import Prelude GoTime Num Tenancy Pricing Guardrails Limiter Budgets.
Open Scope go_scope.

(** ** Integers modulo 2^64 *)

Definition same64 (a b : Z) : Prop := ∃ k, a = b + k * two64.

Infix "≡64" := same64 (at level 70) : go_scope.

#[export] Instance same64_equivalence : Equivalence same64.
Proof.
  split.
  - intros a. exists 0. lia.
  - intros a b [k ->]. exists (- k). lia.
  - intros a b c [k ->] [l ->]. exists (k + l). lia.
Qed.

#[export] Instance same64_add : Proper (same64 ==> same64 ==> same64) Z.add.
Proof. intros a a' [k ->] b b' [l ->]. exists (k + l). lia. Qed.

#[export] Instance same64_mul : Proper (same64 ==> same64 ==> same64) Z.mul.
Proof. intros a a' [k ->] b b' [l ->]. exists (a' * l + k * b' + k * l * two64). ring. Qed.

Lemma wrap64_same z : wrap64 z ≡64 z.
Proof.
  unfold wrap64. exists (- ((z + two63) / two64)).
  pose proof (Z.div_mod (z + two63) two64). unfold two63, two64 in *. lia.
Qed.

Lemma same64_wrap a b : a ≡64 b ↔ wrap64 a = wrap64 b.
Proof.
  split.
  - intros [k ->]. unfold wrap64.
    replace (b + k * two64 + two63) with (b + two63 + k * two64) by lia.
    by rewrite Z.mod_add by done.
  - intros E. by rewrite <- (wrap64_same a), E, wrap64_same.
Qed.

(** ** The ledger *)

Inductive ledger_op :=
  | Charged (scopes : list Scope) (micros now : Z)
  | Tallied (scopes : list Scope) (meter : string) (n now : Z)
  | Started (scopes : list Scope) (now : Z)
  | Ended (scopes : list Scope) (now : Z)
  | Held (org : string) (micros : Z)
  | Released (org : string) (micros : Z)
  | CreditCharged (org : string) (micros : Z).

Record ledger (B : Type) := { lg_inner : B; lg_ops : list ledger_op }.
Arguments lg_inner {_}. Arguments lg_ops {_}.

Definition log {B} (l : ledger B) (b : B) (op : ledger_op) : ledger B :=
  {| lg_inner := b; lg_ops := lg_ops l ++ [op] |}.

#[export] Instance ledger_Budgeter `{Budgeter B} : Budgeter (ledger B) := {|
  bg_Allow l := bg_Allow (lg_inner l);
  bg_Charge l scopes n now := log l (bg_Charge (lg_inner l) scopes n now) (Charged scopes n now);
  bg_Tally l scopes meter n now :=
    log l (bg_Tally (lg_inner l) scopes meter n now) (Tallied scopes meter n now);
  bg_StartRequest l scopes now := log l (bg_StartRequest (lg_inner l) scopes now) (Started scopes now);
  bg_EndRequest l scopes now := log l (bg_EndRequest (lg_inner l) scopes now) (Ended scopes now);
  bg_Spent l := bg_Spent (lg_inner l);
  bg_HoldCredit l org n :=
    match bg_HoldCredit (lg_inner l) org n with
    | (inl held, b) => (inl held, log l b (Held org held))
    | (inr err, b) => (inr err, {| lg_inner := b; lg_ops := lg_ops l |})
    end;
  bg_ReleaseCredit l org n := log l (bg_ReleaseCredit (lg_inner l) org n) (Released org n);
  bg_ChargeCredit l org n := log l (bg_ChargeCredit (lg_inner l) org n) (CreditCharged org n);
  bg_ChargesPaid l := bg_ChargesPaid (lg_inner l)
|}.

(** ** Reading it *)

(** How often a scope is among [scopes]. *)
Definition occurs (sc : Scope) (scopes : list Scope) : Z :=
  Z.of_nat (length (filter (λ sc', sc' = sc) scopes)).

Definition sum_ops (f : ledger_op → Z) (ops : list ledger_op) : Z := foldr (λ op n, f op + n) 0 ops.

(** What was charged to a scope. *)
Definition charged (sc : Scope) : list ledger_op → Z :=
  sum_ops (λ op, match op with Charged scopes n _ => occurs sc scopes * n | _ => 0 end).

(** How many requests were started and ended in a scope. *)
Definition started (sc : Scope) : list ledger_op → Z :=
  sum_ops (λ op, match op with Started scopes _ => occurs sc scopes | _ => 0 end).

Definition ended_in (sc : Scope) : list ledger_op → Z :=
  sum_ops (λ op, match op with Ended scopes _ => occurs sc scopes | _ => 0 end).

(** What is held of an organisation's credit, and what was taken from it. *)
Definition still_held (org : string) : list ledger_op → Z :=
  sum_ops (λ op, match op with
    | Held o n => if bool_decide (o = org) then n else 0
    | Released o n => if bool_decide (o = org) then - n else 0
    | _ => 0 end).

Definition credit_charged (org : string) : list ledger_op → Z :=
  sum_ops (λ op, match op with
    | CreditCharged o n => if bool_decide (o = org) then n else 0 | _ => 0 end).

(** The counts of tokens, as they were asked for. *)
Definition tallies : list ledger_op → list (list Scope * string * Z * Z) :=
  omap (λ op, match op with Tallied scopes meter n now => Some (scopes, meter, n, now) | _ => None end).

(** Every call that names an instant names this one. *)
Definition all_at (now : Z) (ops : list ledger_op) : Prop :=
  Forall (λ op, match op with
    | Charged _ _ t | Tallied _ _ _ t | Started _ t | Ended _ t => t = now | _ => True end) ops.

Lemma sum_ops_app f ops1 ops2 : sum_ops f (ops1 ++ ops2) = sum_ops f ops1 + sum_ops f ops2.
Proof. induction ops1 as [|op ops1 IH]; simpl; [done|]. rewrite IH. lia. Qed.

Lemma charged_app sc ops1 ops2 : charged sc (ops1 ++ ops2) = charged sc ops1 + charged sc ops2.
Proof. apply sum_ops_app. Qed.
Lemma started_app sc ops1 ops2 : started sc (ops1 ++ ops2) = started sc ops1 + started sc ops2.
Proof. apply sum_ops_app. Qed.
Lemma ended_in_app sc ops1 ops2 : ended_in sc (ops1 ++ ops2) = ended_in sc ops1 + ended_in sc ops2.
Proof. apply sum_ops_app. Qed.
Lemma still_held_app org ops1 ops2 :
  still_held org (ops1 ++ ops2) = still_held org ops1 + still_held org ops2.
Proof. apply sum_ops_app. Qed.
Lemma credit_charged_app org ops1 ops2 :
  credit_charged org (ops1 ++ ops2) = credit_charged org ops1 + credit_charged org ops2.
Proof. apply sum_ops_app. Qed.

Lemma tallies_app ops1 ops2 : tallies (ops1 ++ ops2) = tallies ops1 ++ tallies ops2.
Proof. apply omap_app. Qed.

Create Rewrite HintDb ledger.
#[export] Hint Rewrite charged_app started_app ended_in_app still_held_app credit_charged_app tallies_app : ledger.

Lemma occurs_app sc l1 l2 : occurs sc (l1 ++ l2) = occurs sc l1 + occurs sc l2.
Proof. unfold occurs. rewrite filter_app, length_app. lia. Qed.

Lemma occurs_0 sc scopes : sc ∉ scopes → occurs sc scopes = 0.
Proof.
  intros Hn. unfold occurs. induction scopes as [|x scopes IH]; [done|].
  rewrite filter_cons_False by set_solver. apply IH. set_solver.
Qed.

(** ** The limiter's charges *)

Record limited (T L : Type) := { lm_inner : L; lm_charges : list (list Requirement * T * Z) }.
Arguments lm_inner {_ _}. Arguments lm_charges {_ _}.

Definition asked {T L} (l : limited T L) (b : L) : limited T L := {| lm_inner := b; lm_charges := lm_charges l |}.

#[export] Instance limited_RateLimiter `{RateLimiter T L} : RateLimiter T (limited T L) := {|
  rl_Admit l reqs now := let '(i, b) := rl_Admit (lm_inner l) reqs now in (i, asked l b);
  rl_ChargeAll l reqs n now :=
    {| lm_inner := rl_ChargeAll (lm_inner l) reqs n now; lm_charges := lm_charges l ++ [(reqs, n, now)] |};
  rl_Remaining l key limit now := let '(n, b) := rl_Remaining (lm_inner l) key limit now in (n, asked l b);
  rl_Retry l key limit now := let '(n, b) := rl_Retry (lm_inner l) key limit now in (n, asked l b)
|}.
