(* ===== verification/Accounting.v ===== *)
(** * What a request costs is accounted for

    The theorems about [Serve]: however a request ends, it leaves one usage
    row, each scope of the row was charged what the row says and had the row's
    tokens counted once, each request started was ended, the credit held was
    released, and the credit taken is the row's bills. They are stated on the
    [Ledger] of an arbitrary budgeter and of an arbitrary limiter. *)
From S2P Require Import Prelude GoTime Num Tenancy Pricing Guardrails Text Filters Routers RouterCheck.
From S2P Require Import RouterSpec Replies Guard Routing FilterChain Limiter Budgets Messages Call.
From S2P Require Import Admission RouterWalk Models Serve Ledger.
Open Scope go_scope.

#[local] Arguments add64 : simpl never.
#[local] Arguments hookMicros : simpl never.

(** What a row's bills take from the credit. *)
Definition bills_credit (bills : list BillLine) : Z := foldl (λ n b, n ⊕ CreditMicros b) 0 bills.

(** The part of a call the accounts depend on. *)
Record account := {
  a_org : string;
  a_row_org : string;
  a_res : Resolved;
  a_scopes : list Scope;
  a_hook : Z;
  a_held : Z;
  a_now : Z;
  a_chain : list Model;
  (** What the route step in charge has spent. *)
  a_decided : Z;
  (** The tokens of the row so far. *)
  a_used : Tokens;
}.

#[export] Instance account_updatable : Updatable account := λ a,
  {| a_org := a_org a; a_row_org := a_row_org a; a_res := a_res a; a_scopes := a_scopes a;
     a_hook := a_hook a; a_held := a_held a; a_now := a_now a; a_chain := a_chain a;
     a_decided := a_decided a; a_used := a_used a |}.

Definition acct {Body} (c : call Body) : account :=
  {| a_org := orgID c; a_row_org := ev_OrgID (c_ev c); a_res := c_res c; a_scopes := c_scopes c;
     a_hook := hookMicros c; a_held := c_held c; a_now := c_now c;
     a_chain := c_chain c; a_decided := d_micros (c_decision c); a_used := ev_Used (c_ev c) |}.

Section accounting.
Context `{Num T} `{FloatText T} `{MapRange} `{Source} `{SourceLists} `{Unicode} `{!Completions T}.
Context `{Wire} `{Clock} `{Plane}.
Context `{Regexp} `{Countable Digest} (cleanKey : Z → string → Digest) (Exp Exp2 : T → T).
Context `{Budgeter B} `{!RateLimiter T L} `{!Bodies T Body}.
Abbreviation M := (handler Body (ledger B) (limited T L) _ Digest _ _).
Abbreviation state := (call Body * Server (ledger B) (limited T L) Digest)%type.
Abbreviation server := (Server (ledger B) (limited T L) Digest).

(** The rows before the request, and the key's organisation. *)
Context (rows0 : list Event) (home : string).
(** When no answer of a hook's model costs less than nothing: what the amounts
    charged are exact under. *)
Context (exact : Prop).
(** Nothing is not more than nothing. *)
Context (irreflexive : num_ltb (of_Z 0 : T) (of_Z 0) = false).

Definition ops (s : server) : list ledger_op := lg_ops (sv_budgets s).

(** The tokens counted against the limits per minute. *)
Definition limit_charges (s : server) : list (list Requirement * T * Z) := lm_charges (sv_limiter s).

(** A row's tokens, if there are any: once in the windows that count tokens,
    once against the limits, each for every scope of the row. *)
Definition tokens_of (row : Event) : Z := Input (ev_Used row) ⊕ Output (ev_Used row).

Definition row_tallies (row : Event) (now : Z) : list (list Scope * string * Z * Z) :=
  if num_ltb (of_Z 0) (of_Z (tokens_of row) : T)
  then [(ev_Scopes row, MeterTokens, num_trunc (of_Z (tokens_of row) : T), now)] else [].

Definition row_charges (row : Event) (now : Z) : list (list Requirement * T * Z) :=
  if num_ltb (of_Z 0) (of_Z (tokens_of row) : T)
  then [(tpmBucket <$> ev_Scopes row, of_Z (tokens_of row) : T, now)] else [].

(** The books of a running request, of which [due] is not charged yet. *)
Record books (a : account) (due : Z) (s : server) : Prop := {
  bk_rows : sv_rows s = rows0;
  bk_home : a_org a = home;
  bk_org : a_row_org a = a_org a;
  bk_charged : exact → ∀ sc, charged sc (ops s) + occurs sc (a_scopes a) * due ≡64
    occurs sc (a_scopes a) * a_hook a;
  bk_started sc : SMeter sc = MeterRequests → started sc (ops s) = occurs sc (a_scopes a);
  bk_ended sc : ended_in sc (ops s) = 0;
  bk_held : still_held (a_org a) (ops s) = a_held a;
  bk_credit : credit_charged (a_org a) (ops s) = 0;
  bk_at : all_at (a_now a) (ops s);
  bk_used : a_used a = Tokens_zero;
  bk_tallies : tallies (ops s) = [];
  bk_limits : limit_charges s = [];
}.

(** The books once its row is written. *)
Record closed_books (a : account) (row : Event) (s : server) : Prop := {
  cl_rows : sv_rows s = rows0 ++ [row];
  cl_home : a_org a = home;
  cl_scopes : ev_Scopes row = a_scopes a;
  cl_charged : exact → ∀ sc, charged sc (ops s) ≡64 occurs sc (a_scopes a) * ev_CostMicros row;
  cl_started sc : SMeter sc = MeterRequests → started sc (ops s) = occurs sc (a_scopes a);
  cl_ended sc : ended_in sc (ops s) = 0;
  cl_held : still_held (a_org a) (ops s) = a_held a;
  cl_credit : credit_charged (a_org a) (ops s) = bills_credit (ev_Bills row);
  cl_at : all_at (a_now a) (ops s);
  cl_tallies : tallies (ops s) = row_tallies row (a_now a);
  cl_limits : ∃ now, limit_charges s = row_charges row now;
}.

Definition closed (st : state) : Prop := ∃ row, closed_books (acct st.1) row st.2.

(** The request runs with the account [a]. *)
Definition run (a : account) (due : Z) (st : state) : Prop := acct st.1 = a ∧ books a due st.2.

(** It runs with some account, and its chain is as [P] says. *)
Definition running (P : list Model → Prop) (st : state) : Prop :=
  ∃ a, P (a_chain a) ∧ run a 0 st.

Abbreviation triple := (hoare closed).

Lemma books_same a due (s s' : server) :
  ops s' = ops s → sv_rows s' = sv_rows s → limit_charges s' = limit_charges s → books a due s → books a due s'.
Proof. intros Hb Hr Hl [? ? ? ? ? ? ? ? ? ? ? ?]. split; rewrite ?Hb, ?Hr, ?Hl; done. Qed.

Lemma triple_call {A} a due (k : call Body → M A) Q :
  (∀ c, acct c = a → triple (run a due) (k c) Q) → triple (run a due) (the_call ≫= k) Q.
Proof.
  intros Hk. apply hoare_call. intros c. eapply (hoare_conseq _ _ (λ st, acct c = a ∧ run a due st));
    [apply hoare_pure, Hk| |done].
  intros st [<- Hr]. split; [apply Hr|done].
Qed.

Lemma triple_server {A} a due (k : server → M A) Q :
  (∀ s, triple (run a due) (k s) Q) → triple (run a due) (the_server ≫= k) Q.
Proof.
  intros Hk. apply hoare_server. intros s.
  eapply hoare_conseq; [apply Hk| |done]. by intros st [_ ?].
Qed.

Lemma triple_set_call a due (f : call Body → call Body) :
  (∀ c, acct (f c) = acct c) → triple (run a due) (set_call f) (λ _, run a due).
Proof. intros Hf. apply hoare_set_call. intros c s [Ha Hb]. split; simpl in *; [by rewrite Hf|done]. Qed.

Lemma triple_set_server a due (f : server → server) :
  (∀ s, sv_budgets (f s) = sv_budgets s) → (∀ s, sv_rows (f s) = sv_rows s) →
  (∀ s, sv_limiter (f s) = sv_limiter s) →
  triple (run a due) (set_server f) (λ _, run a due).
Proof.
  intros Hb Hr Hl. apply hoare_set_server. intros c s [Ha Hk]. split; [done|].
  refine (books_same _ _ s _ _ (Hr s) _ Hk); [unfold ops|unfold limit_charges]; by rewrite ?Hb, ?Hl.
Qed.

Lemma triple_time a due : triple (run a due) time_Now (λ _, run a due).
Proof. intros [c s] [Ha Hb]. split; [done|]. by apply (books_same _ _ s). Qed.

Lemma triple_context a due : triple (run a due) context_Err (λ _, run a due).
Proof. intros [c s] [Ha Hb]. split; [done|]. by apply (books_same _ _ s). Qed.

(** *** Handlers that change the books *)

(** The books after some calls, when they say the right things. *)
Lemma books_ops a a' due due' (s s' : server) new :
  books a due s → sv_rows s' = sv_rows s → ops s' = ops s ++ new → limit_charges s' = limit_charges s →
  a_org a' = a_org a → a_row_org a' = a_row_org a → a_used a' = a_used a →
  (∀ sc, charged sc new + occurs sc (a_scopes a') * due' + occurs sc (a_scopes a) * a_hook a ≡64
    occurs sc (a_scopes a) * due + occurs sc (a_scopes a') * a_hook a') →
  (∀ sc, SMeter sc = MeterRequests →
    started sc new + occurs sc (a_scopes a) = occurs sc (a_scopes a')) →
  (∀ sc, ended_in sc new = 0) → still_held (a_org a) new + a_held a = a_held a' →
  credit_charged (a_org a) new = 0 → tallies new = [] →
  (all_at (a_now a) (ops s) → all_at (a_now a') (ops s ++ new)) → books a' due' s'.
Proof.
  intros [? ? ? Hc Hs He Hh Hcr Ha Hu Ht Hl] Hr Ho Hlm Horg Hrow Hused Hc' Hs' He' Hh' Hcr' Ht' Ha'.
  split; rewrite ?Hr, ?Ho, ?Hlm, ?Horg, ?Hrow, ?Hused; try done; intros; autorewrite with ledger.
  - destruct (Hc ltac:(done) sc) as [k Hk], (Hc' sc) as [k' Hk']. exists (k + k'). lia.
  - rewrite Hs by done. rewrite <- Hs' by done. lia.
  - rewrite He, He'. done.
  - rewrite Hh. lia.
  - rewrite Hcr, Hcr'. done.
  - auto.
  - by rewrite Ht, Ht'.
Qed.

(** Nothing is due of a hook that cost nothing. *)
Lemma books_due a n s : (exact → n = 0) → books a n s → books a 0 s.
Proof.
  intros Hn [? ? ? Hc ? ? ? ? ? ? ? ?]. split; try done. intros Hx sc. specialize (Hc Hx sc). by rewrite (Hn Hx) in Hc.
Qed.

Ltac sums := unfold charged, started, ended_in, still_held, credit_charged, sum_ops; simpl.

(** A change of the call that leaves its account alone, but for what was spent. *)
Definition same_but_spent (c c' : call Body) : Prop :=
  c_res c' = c_res c ∧ ev_OrgID (c_ev c') = ev_OrgID (c_ev c) ∧ c_scopes c' = c_scopes c ∧
  c_held c' = c_held c ∧ c_now c' = c_now c ∧ c_chain c' = c_chain c ∧ ev_Used (c_ev c') = ev_Used (c_ev c).

Lemma acct_spent c c' :
  same_but_spent c c' →
  acct c' = (acct c) <| a_hook := hookMicros c' |> <| a_decided := d_micros (c_decision c') |>.
Proof.
  intros (Hf1 & Hf2 & Hf3 & Hf4 & Hf5 & Hf6 & Hf7). unfold acct, orgID. cbn.
  by rewrite Hf1, Hf2, Hf3, Hf4, Hf5, Hf6, Hf7.
Qed.

(** A step that spends [n] owes it. *)
Lemma triple_owe a n (f : call Body → call Body) :
  (∀ c, same_but_spent c (f c)) →
  (∀ c, acct c = a → hookMicros (f c) ≡64 hookMicros c + n) →
  triple (run a 0) (set_call f)
    (λ _ st, ∃ h d, run (a <| a_hook := h |> <| a_decided := d |>) n st).
Proof.
  intros Hf Hn. apply hoare_set_call. intros c s [Ha Hb]. simpl in Ha, Hb.
  exists (hookMicros (f c)), (d_micros (c_decision (f c))). rewrite <- Ha in *.
  split; [apply acct_spent, Hf|]. destruct (Hn c eq_refl) as [k Hk].
  eapply (books_ops (acct c) _ 0 _ s s []); cbn; rewrite ?app_nil_r; try done.
  intros sc. rewrite Hk. exists (- (occurs sc (c_scopes c) * k)). ring.
Qed.

Lemma triple_exists {A X} (P : X → state → Prop) (m : M A) Q :
  (∀ x, triple (P x) m Q) → triple (λ st, ∃ x, P x st) m Q.
Proof. intros Hm st [x Hx]. by apply (Hm x). Qed.

Lemma triple_charge_hook a n :
  (exact → 0 <= n) → triple (run a n) (charge_hook n) (λ _, run a 0).
Proof.
  intros Hn. unfold charge_hook. apply triple_call. intros c Hc.
  destruct (n >? 0) eqn:Hpos; to_prop.
  - apply hoare_set_server. intros c' s [Ha Hb]. split; [done|]. simpl.
    eapply (books_ops a a n 0 s _ [Charged (c_scopes c) n (c_now c)]); try done; sums; try lia.
    + intros sc. rewrite <- Hc. simpl. exists 0. lia.
    + intros Hat. apply Forall_app. split; [done|]. repeat constructor. by rewrite <- Hc.
  - apply hoare_ret. intros [c' s] [Ha Hb]. split; [done|]. apply (books_due a n); [|done]. intros Hx. specialize (Hn Hx). lia.
Qed.

(** A limit passed is charged what was spent so far. *)
Lemma triple_pass a scopes :
  triple (run a 0)
    (set_call (λ c, c <| c_scopes := c_scopes c ++ scopes |>);;
     on_budgets (λ b, bg_Charge b scopes (a_hook a) (a_now a));;
     on_budgets (λ b, bg_StartRequest b scopes (a_now a)))
    (λ _, run (a <| a_scopes := a_scopes a ++ scopes |>) 0).
Proof.
  intros [c s] [Ha Hb]. split; simpl in *; [by rewrite <- Ha|].
  eapply (books_ops a _ 0 0 s _ [Charged scopes (a_hook a) (a_now a); Started scopes (a_now a)]);
    try done; sums; try lia.
  - unfold ops. simpl. by rewrite <- app_assoc.
  - intros sc. rewrite occurs_app. exists 0. lia.
  - intros sc _. rewrite occurs_app. lia.
  - intros Hat. apply Forall_app. split; [done|]. repeat constructor.
Qed.

(** *** Handlers that end the request *)

Lemma books_close a due (s s' : server) row new :
  books a due s → sv_rows s' = sv_rows s ++ [row] → ops s' = ops s ++ new →
  ev_Scopes row = a_scopes a →
  (∀ sc, charged sc new + occurs sc (a_scopes a) * a_hook a ≡64
    occurs sc (a_scopes a) * due + occurs sc (a_scopes a) * ev_CostMicros row) →
  (∀ sc, started sc new = 0) → (∀ sc, ended_in sc new = 0) → still_held (a_org a) new = 0 →
  credit_charged (a_org a) new = bills_credit (ev_Bills row) → all_at (a_now a) new →
  tallies new = row_tallies row (a_now a) → (∃ now, limit_charges s' = row_charges row now) →
  closed_books a row s'.
Proof.
  intros [Hr ? ? Hc Hs He Hh Hcr Ha Hu Ht Hl] Hr' Ho Hsc Hc' Hs' He' Hh' Hcr' Ha' Ht' Hl'.
  split; rewrite ?Hr', ?Ho, ?Hr; try done; intros; autorewrite with ledger.
  - destruct (Hc ltac:(done) sc) as [k Hk], (Hc' sc) as [k' Hk']. exists (k + k'). lia.
  - rewrite Hs, Hs' by done. lia.
  - rewrite He, He'. done.
  - rewrite Hh, Hh'. lia.
  - rewrite Hcr, Hcr'. done.
  - by apply Forall_app.
  - by rewrite Ht.
Qed.

(** A row without tokens has none to count. *)
Lemma no_tokens row now : ev_Used row = Tokens_zero → row_tallies row now = [] ∧ row_charges row now = [].
Proof. intros Hu. unfold row_tallies, row_charges, tokens_of. rewrite Hu.
  change (Input Tokens_zero ⊕ Output Tokens_zero) with 0. by rewrite irreflexive. Qed.

(** A request that ends before its answer closes its books: nothing is due and
    no token was counted. *)
Lemma closeEarly_close a ev c (s : server) :
  books a 0 s → acct c = a → ev_OrgID ev = a_row_org a → ev_Used ev = Tokens_zero →
  match closeEarly ev (c, s) with (_, st) => closed st end.
Proof.
  intros Hb Ha Horg Hu. unfold closeEarly, the_call, mbind, handler_bind. set (row := ev <| ev_CostMicros := _ |> <| ev_Bills := _ |> <| ev_Scopes := _ |>).
  destruct (no_tokens row (a_now a)) as (Ht & Hl); [exact Hu|]. exists row. simpl. rewrite Ha.
  eapply (books_close a 0 s _ row [CreditCharged (ev_OrgID row) _]); try done; sums.
  - by rewrite <- Ha.
  - intros sc. rewrite <- Ha. simpl. exists 0. lia.
  - cbn. rewrite Horg, (bk_org _ _ _ Hb), bool_decide_eq_true_2, Z.add_0_r by done. done.
  - repeat constructor.
  - exists (a_now a). rewrite Hl. exact (bk_limits _ _ _ Hb).
Qed.

(** *** Asking the limiter charges nothing *)

Lemma checkRates_limited (l : limited T L) scopes now : lm_charges (checkRates l scopes now).2 = lm_charges l.
Proof.
  unfold checkRates. cbn. destruct (rl_Admit _ _ _) as [i b]. destruct (i <? 0); [done|].
  destruct (_ !! _) as [[req ck]|]; [|done]. by destruct (rl_Retry _ _ _ _).
Qed.

Lemma rateHeaders_limited (l : limited T L) res now : lm_charges (rateHeaders l res now).2 = lm_charges l.
Proof.
  assert (∀ scopes best l', lm_charges l' = lm_charges l →
    lm_charges (foldl (λ '(best, st) sc,
      let '(n, st) := requests_left (T := T) now sc st in
      match n with
      | Some n => (match best with Some (_, least) => if n <? least then Some (sc, n) else best | None => Some (sc, n) end, st)
      | None => (best, st)
      end) (best, l') scopes).2 = lm_charges l) as Hfold.
  { induction scopes as [|sc scopes IH]; intros best l' Hl'; [done|]. cbn [foldl]. unfold requests_left at 2. cbn.
    destruct (RPM sc <=? 0); [by apply IH|]. destruct (rl_Remaining _ _ _ _) as [n b]. by apply IH. }
  unfold rateHeaders, tightest. specialize (Hfold (Scopes res) None l eq_refl).
  match goal with |- context [foldl ?f ?x ?y] => change (lm_charges (foldl f x y).2 = lm_charges l) in Hfold; destruct (foldl f x y) as [[[sc n]|] l'] end;
    exact Hfold.
Qed.

Lemma triple_limitHeaders a due now : triple (run a due) (limitHeaders now) (λ _, run a due).
Proof.
  intros [c s] [Ha Hb]. unfold limitHeaders, the_call, the_server, set_server, mbind, handler_bind. cbn.
  pose proof (rateHeaders_limited (sv_limiter s) (c_res c) now) as Hl. destruct (rateHeaders _ _ _) as [rates l].
  split; [done|]. by apply (books_same _ _ s).
Qed.

Lemma unused (c : call Body) a (s : server) : acct c = a → books a 0 s → ev_Used (c_ev c) = Tokens_zero.
Proof. intros <- Hb. exact (bk_used _ _ _ Hb). Qed.

Lemma triple_refuse {A} a ref (Q : A → state → Prop) : triple (run a 0) (refuse ref) Q.
Proof.
  unfold refuse. apply triple_call. intros c Hc. eapply hoare_bind; [apply triple_limitHeaders|].
  intros ?. eapply (hoare_bind _ _ _ (λ _, closed)); [|intros []; by apply hoare_over].
  intros [c' s] [Ha Hb]. pose proof (closeEarly_close a
    ((c_ev c) <| ev_Status := R_status ref |> <| ev_Error := R_msg ref |>) c' s Hb Ha) as Hcl.
  destruct (closeEarly _ _) as [[?|?] ?]; (apply Hcl; simpl; [by rewrite <- Hc|exact (unused c a s Hc Hb)]).
Qed.

Lemma triple_hungUp {A} a while_ note (Q : A → state → Prop) :
  triple (run a 0) (hungUp while_ note) Q.
Proof.
  unfold hungUp. apply triple_call. intros c Hc.
  eapply (hoare_bind _ _ _ (λ _, closed)); [|intros []; by apply hoare_over].
  intros [c' s] [Ha Hb]. match goal with |- match closeEarly ?ev _ with _ => _ end =>
    pose proof (closeEarly_close a ev c' s Hb Ha) as Hcl end.
  destruct (closeEarly _ _) as [[?|?] ?]; (apply Hcl; simpl; [by rewrite <- Hc|exact (unused c a s Hc Hb)]).
Qed.

Lemma triple_refuse_if a ref : triple (run a 0) (refuse_if ref) (λ _, run a 0).
Proof. destruct ref; [apply triple_refuse|by apply hoare_ret]. Qed.

Lemma triple_check_rates a due scopes now :
  triple (run a due) (check_rates scopes now) (λ _, run a due).
Proof.
  intros [c s] [Ha Hb]. unfold check_rates, the_server, set_server, mbind, handler_bind. cbn.
  pose proof (checkRates_limited (sv_limiter s) scopes now) as Hl. destruct (checkRates _ _ _) as [ref l].
  split; [done|]. by apply (books_same _ _ s).
Qed.

(** *** Steps between, whatever the account *)

Lemma triple_running {A} P (m : M A) Q :
  (∀ a, P (a_chain a) → triple (run a 0) m Q) → triple (running P) m Q.
Proof. intros Hm st (a & HP & Hr). by apply (Hm a HP). Qed.

Lemma running_intro P a st : P (a_chain a) → run a 0 st → running P st.
Proof. by exists a. Qed.

Lemma triple_done {A} P a (x : A) :
  P (a_chain a) → triple (run a 0) (mret x) (λ _, running P).
Proof. intros HP. apply hoare_ret. intros st Hst. by exists a. Qed.

Lemma triple_run {A} P a (m : M A) Q :
  P (a_chain a) → triple (running P) m Q → triple (run a 0) m Q.
Proof. intros HP Hm st Hst. apply Hm. by exists a. Qed.

(** No filter and no route step costs less than nothing, as holds unless a
    provider reports negative counts: see [Pricing.Cost_negative_usage]. *)
Context (filters_cost : exact → ∀ extract apply_ st org aliases by_ (b : Body),
  0 <= fr_micros (applyFilters cleanKey Exp extract apply_ st org aliases by_ b).1.1.1).
Context (route_cost : exact → ∀ w l now rt texts sent,
  0 <= d_micros (route Exp w l now rt texts sent).1.1).

Lemma hookMicros_same (c : call Body) :
  hookMicros c ≡64 fr_micros (c_filters c) + d_micros (c_decision c) + hs_micros (c_earlier c).
Proof. unfold hookMicros, add64. by rewrite !wrap64_same. Qed.

Lemma triple_translate a b : triple (run a 0) (translate b) (λ _, run a 0).
Proof.
  unfold translate. destruct b; [by apply hoare_ret|]. apply triple_call. intros c Hc.
  destruct (openAIBody c); [apply triple_refuse|by apply hoare_ret].
Qed.

Lemma triple_retranslate a : triple (run a 0) retranslate (λ _, run a 0).
Proof.
  unfold retranslate. apply triple_call. intros c Hc.
  destruct (openAIBody c); [apply triple_refuse|by apply hoare_ret].
Qed.

Lemma triple_runFilters P b aliases by_ :
  triple (running P) (runFilters cleanKey Exp b aliases by_) (λ _, running P).
Proof.
  apply triple_running. intros a HP. unfold runFilters. apply triple_call. intros c Hc.
  apply triple_server. intros s. destruct (filter_target c b) as [tg|].
  2:{ apply triple_done, HP. }
  pose proof (λ Hx, filters_cost Hx (tg_extract tg) (tg_apply tg) (sv_filters s) (orgID c) aliases by_ (tg_body tg))
    as Hn.
  destruct (applyFilters _ _ _ _ _ _ _ _ _) as [[[fr ref] n] fs]. simpl in Hn.
  eapply hoare_bind; [by apply triple_set_server|]. intros ?.
  eapply hoare_bind.
  { apply (triple_owe a (fr_micros fr)); [done|]. intros c' _. rewrite !hookMicros_same. cbn.
    unfold add64. rewrite wrap64_same. exists 0. lia. }
  intros ?. apply triple_exists. intros h. apply triple_exists. intros d.
  eapply hoare_bind; [by apply triple_charge_hook|]. intros ?.
  eapply hoare_bind; [by apply triple_set_call|]. intros ?.
  eapply hoare_bind; [apply triple_refuse_if|]. intros ?.
  eapply hoare_bind; [apply triple_context|]. intros gone. destruct gone.
  { apply triple_hungUp. }
  apply triple_done, HP.
Qed.

Lemma triple_routerFilters P b aliases :
  triple (running P) (routerFilters cleanKey Exp b aliases) (λ _, running P).
Proof.
  apply triple_running. intros a HP. unfold routerFilters. apply triple_call. intros c Hc.
  eapply (hoare_bind _ _ _ (λ _, running P)).
  { by eapply triple_run, triple_runFilters. }
  intros [rewrote b']. apply triple_running. intros a' HP'. apply triple_call. intros c' Hc'.
  destruct (c_native c'), b'; try (by apply triple_done). destruct rewrote; [|by apply triple_done].
  eapply hoare_bind; [apply triple_retranslate|]. intros ?. by apply triple_done.
Qed.

Lemma triple_routerLimit P step : triple (running P) (routerLimit step) (λ _, running P).
Proof.
  apply triple_running. intros a HP. unfold routerLimit. apply triple_call. intros c Hc.
  apply triple_server. intros s. eapply (hoare_bind _ _ _ (λ _, run a 0)).
  { destruct (bool_decide _); [by apply hoare_ret|].
    destruct (PerMinute _); [apply triple_check_rates|by apply hoare_ret]. }
  intros [ref|].
  - destruct (St_Exceeded step); [|apply triple_refuse].
    eapply hoare_bind; [by apply triple_set_call|]. intros ?. by apply triple_done.
  - pose proof (triple_pass a (Router_Scopes (c_router c) step)) as Hp. rewrite <- Hc in *.
    intros st Hst. specialize (Hp st Hst). unfold mbind, handler_bind in *. simpl in *.
    eexists. split; [|exact Hp]. done.
Qed.

Lemma triple_useRoute P a b :
  P (a_chain a) → a_decided a = 0 → triple (run a 0) (useRoute Exp b) (λ _, running P).
Proof.
  intros HP Hd0. unfold useRoute. apply triple_call. intros c Hc. apply triple_server. intros s.
  eapply hoare_bind; [apply triple_time|]. intros now.
  pose proof (λ texts Hx, route_cost Hx (fs_world (sv_filters s)) (sv_loads s) now (c_route c) texts
    (c_header c (Rt_Header (c_route c)))) as Hn.
  match goal with |- context [route Exp _ _ _ _ ?texts _] => specialize (Hn texts) end.
  destruct (route _ _ _ _ _ _ _) as [[d ref] w]. simpl in Hn.
  eapply hoare_bind; [by apply triple_set_server|]. intros ?.
  eapply hoare_bind.
  { apply (triple_owe a (d_micros d)); [done|]. intros c' Hc'. rewrite !hookMicros_same. cbn.
    rewrite <- Hc' in Hd0. cbn in Hd0. rewrite Hd0. exists 0. lia. }
  intros ?. apply triple_exists. intros h. apply triple_exists. intros k.
  eapply hoare_bind; [by apply triple_charge_hook|]. intros ?.
  eapply hoare_bind; [by apply triple_set_call|]. intros ?.
  eapply (hoare_bind _ _ _ (λ _, run (a <| a_hook := h |> <| a_decided := k |>) 0)).
  { destruct (bool_decide _); [by apply hoare_ret|by apply triple_set_call]. }
  intros ?. eapply hoare_bind; [apply triple_refuse_if|]. intros ?.
  eapply hoare_bind; [apply triple_context|]. intros []; [apply triple_hungUp|].
  eapply hoare_bind; [by apply triple_set_call|]. intros ?.
  destruct (serves _ _ _).
  - eapply (triple_run P); [done|]. apply triple_running. intros a' HP'.
    eapply hoare_conseq; [by apply triple_set_call|done|]. intros ? st Hst. by exists a'.
  - eapply hoare_bind; [by apply triple_set_call|]. intros ?. apply triple_refuse.
Qed.

(** A step about to be put in charge has spent nothing yet. *)
Definition undecided (P : list Model → Prop) (st : state) : Prop :=
  ∃ a, (P (a_chain a) ∧ a_decided a = 0) ∧ run a 0 st.

Lemma books_rehook a h d s :
  books a 0 s → h ≡64 a_hook a → books (a <| a_hook := h |> <| a_decided := d |>) 0 s.
Proof.
  intros Hb [k Hk]. eapply (books_ops a _ 0 0 s s []); cbn; rewrite ?app_nil_r; try done.
  intros sc. rewrite Hk. exists (- (occurs sc (a_scopes a) * k)). ring.
Qed.

Lemma triple_set_done P a (f : call Body → call Body) :
  P (a_chain a) → (∀ c, acct (f c) = acct c) → triple (run a 0) (set_call f) (λ _, running P).
Proof.
  intros HP Hf. eapply hoare_conseq; [by apply triple_set_call|done|]. intros ? st Hst. by exists a.
Qed.

Lemma triple_put_in_charge P a rt :
  P (a_chain a) →
  triple (run a 0) (set_call (λ c, c
    <| c_earlier := {| hs_micros := hs_micros (c_earlier c) ⊕ d_micros (c_decision c);
                       hs_bills := hs_bills (c_earlier c) ++ d_bills (c_decision c) |} |>
    <| c_route := rt |> <| c_decision := routeDecision_zero |>)) (λ _, undecided P).
Proof.
  intros HP. apply hoare_set_call. intros c s [Ha Hb]. simpl in Ha, Hb. subst a.
  match goal with |- undecided P (?c', _) =>
    exists ((acct c) <| a_hook := hookMicros c' |> <| a_decided := d_micros (c_decision c') |>) end.
  split; [done|]. split; [by apply acct_spent|]. apply books_rehook; [done|]. cbn. rewrite !hookMicros_same. cbn.
  unfold add64. rewrite wrap64_same. exists 0. lia.
Qed.

Lemma triple_routerRoute P b step : triple (running P) (routerRoute Exp b step) (λ _, running P).
Proof.
  apply triple_running. intros a HP. unfold routerRoute. apply triple_call. intros c Hc.
  eapply hoare_bind; [by apply (triple_put_in_charge P)|]. intros ?.
  apply triple_exists. intros a'. apply hoare_pure. intros [HP' Hd].
  eapply (hoare_bind _ _ _ (λ _, run a' 0)).
  { destruct (_ || _); [|by apply hoare_ret].
    eapply hoare_bind; [apply triple_translate|]. intros ?. by apply hoare_ret. }
  intros b'. eapply hoare_bind; [by apply (triple_useRoute P)|]. intros ?.
  apply triple_running. intros a1 HP1. apply triple_call. intros c1 Hc1.
  destruct (branch_of _ _); [by apply triple_done|].
  eapply hoare_bind; [by apply (triple_set_done P)|]. intros ?.
  by apply hoare_ret.
Qed.

Lemma triple_routerModel P step : triple (running P) (routerModel step) (λ _, running P).
Proof.
  apply triple_running. intros a HP. unfold routerModel. apply triple_call. intros c Hc.
  destruct (src_Model _ _) as [m|]; [|apply triple_refuse].
  destruct (bool_decide _); [by apply triple_set_done|apply triple_refuse].
Qed.

Lemma triple_router_loop P fuel b step :
  triple (running P) (router_loop cleanKey Exp fuel b step) (λ _, running P).
Proof.
  revert b step. induction fuel as [|fuel IH]; intros b [s|]; simpl; try by apply hoare_ret.
  case_bool_decide.
  { destruct (filter_row s) as [aliases rest].
    eapply hoare_bind; [apply triple_routerFilters|intros ?; apply IH]. }
  destruct (StepKind_Limits _).
  { eapply hoare_bind; [apply triple_routerLimit|intros ?; apply IH]. }
  case_bool_decide.
  { eapply hoare_bind; [apply triple_routerRoute|intros []; apply IH]. }
  case_bool_decide.
  { apply triple_running. intros a HP. eapply hoare_bind; [by apply (triple_set_done P)|].
    intros ?. apply IH. }
  case_bool_decide.
  { eapply hoare_bind; [apply triple_routerModel|]. intros ?. by apply hoare_ret. }
  apply triple_running. intros a HP. apply triple_call. intros c Hc. apply triple_refuse.
Qed.

Lemma triple_useRouter P b : triple (running P) (useRouter cleanKey Exp b) (λ _, running P).
Proof.
  apply triple_running. intros a HP. unfold useRouter. apply triple_call. intros c Hc.
  eapply hoare_bind; [by apply (triple_set_done P)|]. intros ?.
  eapply hoare_bind; [apply triple_router_loop|]. intros ?. by apply hoare_ret.
Qed.

(** *** Up to admission *)

(** Nothing is booked yet, so the instant of the books is still open. *)
Definition opening (a : account) (st : state) : Prop :=
  acct st.1 = a ∧ ∀ now, books (a <| a_now := now |>) 0 st.2.

Lemma opening_run a st : opening a st → run a 0 st.
Proof. intros [Ha Hb]. split; [done|]. specialize (Hb (a_now a)). by destruct a. Qed.

Lemma opening_call {A} a (k : call Body → M A) Q :
  (∀ c, acct c = a → triple (opening a) (k c) Q) → triple (opening a) (the_call ≫= k) Q.
Proof.
  intros Hk. apply hoare_call. intros c. eapply (hoare_conseq _ _ (λ st, acct c = a ∧ opening a st));
    [apply hoare_pure, Hk| |done].
  intros st [<- Hr]. split; [apply Hr|done].
Qed.

Lemma opening_set_call a (f : call Body → call Body) :
  (∀ c, acct (f c) = acct c) → triple (opening a) (set_call f) (λ _, opening a).
Proof. intros Hf. apply hoare_set_call. intros c s [Ha Hb]. split; simpl in *; [by rewrite Hf|done]. Qed.

Lemma opening_refuse {A} a ref (Q : A → state → Prop) : triple (opening a) (refuse ref) Q.
Proof. eapply hoare_conseq; [apply triple_refuse|apply opening_run|done]. Qed.

Lemma opening_refuse_if a ref : triple (opening a) (refuse_if ref) (λ _, opening a).
Proof. destruct ref; [apply opening_refuse|by apply hoare_ret]. Qed.

Lemma triple_decode a parsed : triple (opening a) (decode parsed) (λ _, opening a).
Proof.
  unfold decode. destruct parsed as [err|b]; [apply opening_refuse|].
  destruct (_ && _); [apply opening_refuse|]. apply opening_call. intros c Hc.
  destruct (c_dialect c); [|by apply hoare_ret].
  eapply hoare_bind; [by apply opening_set_call|]. intros ?. by apply hoare_ret.
Qed.

Lemma triple_target a b : triple (opening a) (target b) (λ _, opening a).
Proof.
  unfold target. apply opening_call. intros c Hc.
  eapply hoare_bind; [apply opening_refuse_if|]. intros ?.
  eapply hoare_bind; [by apply opening_set_call|]. intros ?.
  destruct (lookupModel _ _ _) as [n ref].
  eapply (hoare_bind _ _ _ (λ _, opening a)).
  { destruct (n_model n); [|by apply hoare_ret]. case_bool_decide; [by apply hoare_ret|].
    by apply opening_set_call. }
  intros ?. eapply hoare_bind; [apply opening_refuse_if|]. intros ?.
  eapply (hoare_bind _ _ _ (λ _, opening a)).
  { destruct (n_router n); [by apply opening_set_call|by apply hoare_ret]. }
  intros ?. destruct (negb _); [by apply hoare_ret|].
  eapply (hoare_bind _ _ _ (λ _, opening a)).
  { case_bool_decide; [apply opening_refuse|by apply hoare_ret]. }
  intros ?. apply opening_call. intros c' Hc'.
  eapply hoare_bind; [apply opening_refuse_if|]. intros ?. by apply opening_set_call.
Qed.

(** *** Admission *)

Lemma acct_held (c : call Body) h : acct (c <| c_held := h |>) = (acct c) <| a_held := h |>.
Proof. done. Qed.

Lemma acct_scopes (c : call Body) l : acct (c <| c_scopes := l |>) = (acct c) <| a_scopes := l |>.
Proof. done. Qed.

Lemma acct_held_id a : a_held a = 0 → a <| a_held := 0 |> = a.
Proof. intros Hh. rewrite <- Hh. by destruct a. Qed.

Lemma triple_hold_credit a b :
  a_held a = 0 →
  triple (run a 0) (hold_credit b) (λ _ st, ∃ h, run (a <| a_held := h |>) 0 st).
Proof.
  intros Hh [c s] [Ha Hb]. simpl in Ha, Hb.
  unfold hold_credit, the_call, the_server, mbind, handler_bind. cbn.
  destruct (bg_HoldCredit _ _ _) as [[n|err] bs]; cbn.
  - exists n. split; [by subst a|]. cbn.
    eapply (books_ops a _ 0 0 s _ [Held (orgID c) n]); cbn; try done; sums; try lia.
    + subst a. cbn in *. rewrite bool_decide_eq_true_2 by done. lia.
    + intros Hat. apply Forall_app. split; [done|]. repeat constructor.
  - match goal with |- match refuse ?ref ?st with _ => _ end =>
      pose proof (triple_refuse (A := ()) a ref (λ _ _, False) st) as Hc end.
    destruct (refuse _ _) as [[?|[]] ?]; [apply Hc|exfalso; apply Hc];
      (split; [subst a; cbn [fst]; rewrite acct_held; by apply acct_held_id|by apply (books_same _ _ s)]).
Qed.

Lemma triple_admitted a b :
  a_held a = 0 →
  triple (run a 0) (admitted b) (λ _ st, ∃ h, run (a <| a_held := h |>) 0 st).
Proof.
  intros Hh. unfold admitted. apply triple_call. intros c Hc. apply triple_server. intros s.
  do 2 (eapply hoare_bind; [apply triple_refuse_if|]; intros ?).
  eapply hoare_bind; [apply triple_check_rates|]. intros ref.
  do 2 (eapply hoare_bind; [apply triple_refuse_if|]; intros ?).
  eapply (hoare_bind _ _ _ (λ _ st, ∃ h, run (a <| a_held := h |>) 0 st)).
  { destruct (billed c); [by apply triple_hold_credit|]. apply hoare_ret. intros st Hst.
    exists 0. by rewrite acct_held_id. }
  intros ?. apply triple_exists. intros h. apply triple_server. intros s'.
  destruct (_ && _); [apply hoare_ret; intros st Hst; by exists h|].
  eapply hoare_conseq; [apply triple_refuse_if|done|]. intros ? st Hst. by exists h.
Qed.

(** A request that was let in. *)
Lemma triple_admit P a b :
  P (a_chain a) → a_held a = 0 → a_hook a = 0 →
  triple (opening a) (admit_ b) (λ _, running P).
Proof.
  intros HP Hh Hk. unfold admit_.
  eapply (hoare_bind _ _ _ (λ _, opening a)).
  { intros [c s] [Ha Hb]. split; [done|]. intros now. by apply (books_same _ _ s). }
  intros now. eapply (hoare_bind _ _ _ (λ _, run (a <| a_now := now |>) 0)).
  { apply hoare_set_call. intros c s [Ha Hb]. split; [by subst a|apply Hb]. }
  intros ?. eapply hoare_bind; [by apply triple_admitted|]. intros ?.
  apply triple_exists. intros h [c s] [Ha Hb]. simpl in Ha, Hb.
  unfold the_call, mbind, handler_bind. cbn.
  exists (a <| a_now := now |> <| a_held := h |> <| a_scopes := a_scopes a ++ Quotas (c_res c) |>).
  split; [done|]. split; [|cbn].
  { change (c_scopes c) with (a_scopes (acct c)). cbn [fst]. by rewrite acct_scopes, Ha. }
  eapply (books_ops _ _ 0 0 s _ [Started (Quotas (c_res c)) (c_now c)] Hb); cbn; try done; sums; try lia.
  - intros sc. rewrite Hk. exists 0. lia.
  - intros sc _. rewrite occurs_app. lia.
  - intros Hat. apply Forall_app. split; [done|]. repeat constructor.
    change (c_now c) with (a_now (acct c)). by rewrite Ha.
Qed.

(** *** From the router to the model *)

Definition some_model (chain : list Model) : Prop := chain ≠ [].

(** The chain is set, and from here on holds a model. *)
Lemma triple_set_chain P (f : call Body → list Model) :
  (∀ c, some_model (f c)) →
  triple (running P) (set_call (λ c, c <| c_chain := f c |>)) (λ _, running some_model).
Proof.
  intros Hf. apply hoare_set_call. intros c s (a & _ & Ha & Hb). simpl in Ha, Hb.
  exists (a <| a_chain := f c |>). split; [apply Hf|]. split; [cbn [fst]; by subst a|].
  destruct Hb as [? ? ? ? ? ? ? ? ? ? ? ?]. by split.
Qed.

Lemma destinations_some org m d : some_model (destinations org m d).
Proof. unfold destinations. case_match; [done|]. by case_match. Qed.

Lemma triple_useNative b : triple (running some_model) (useNative b) (λ _, running some_model).
Proof.
  apply triple_running. intros a HP. unfold useNative. apply triple_call. intros c Hc.
  destruct (c_native c) as [native|]; [|by apply triple_done].
  destruct (c_dialect c) as [d|]; [|by apply triple_done].
  eapply (hoare_bind _ _ _ (λ _, running some_model)).
  { case_bool_decide; [by apply triple_done|].
    destruct (filter _ _) as [|m kept] eqn:Hk; [apply triple_refuse|]. eapply (triple_run some_model); [done|].
    by apply triple_set_chain. }
  intros ?. apply triple_running. intros a1 HP1. apply triple_call. intros c1 Hc1.
  eapply hoare_bind; [by apply triple_set_call|]. intros ?.
  eapply (hoare_bind _ _ _ (λ _, run a1 0)).
  { destruct (_ || _); [|by apply hoare_ret].
    eapply hoare_bind; [apply triple_translate|]. intros ?. by apply hoare_ret. }
  intros b'. destruct (negb _).
  { eapply hoare_bind; [by apply triple_set_call|]. intros ?. by apply triple_done. }
  destruct (existsb _ _); [|by apply triple_done]. destruct (d_onKey d native) as [why native'].
  eapply hoare_bind; [by apply triple_set_call|]. intros ?.
  case_bool_decide; [by apply triple_done|apply triple_refuse].
Qed.

Lemma triple_fits P b : triple (running P) (fits b) (λ _, running P).
Proof.
  apply triple_running. intros a HP. unfold fits. apply triple_call. intros c Hc.
  eapply hoare_conseq; [apply triple_refuse_if|done|]. intros ? st Hst. by exists a.
Qed.

Lemma triple_useFilters P b : triple (running P) (useFilters cleanKey Exp b) (λ _, running P).
Proof.
  apply triple_running. intros a HP. unfold useFilters. apply triple_call. intros c Hc.
  eapply (hoare_bind _ _ _ (λ _, running P)).
  { by eapply triple_run, triple_runFilters. }
  intros [rewrote b']. apply triple_running. intros a1 HP1. apply triple_call. intros c1 Hc1.
  destruct (_ && _); [|by apply triple_done].
  eapply hoare_bind; [apply triple_retranslate|]. intros ?. by apply triple_done.
Qed.

Lemma triple_prepare P b : triple (running P) (prepare b) (λ _, running P).
Proof.
  apply triple_running. intros a HP. unfold prepare.
  eapply (hoare_bind _ _ _ (λ _, run a 0)).
  { unfold add_system. apply triple_call. intros c Hc. destruct (_ || _); [by apply hoare_ret|].
    eapply (hoare_bind _ _ _ (λ _, run a 0)).
    { destruct b; [|by apply hoare_ret]. destruct (prependSystem _ _); [by apply hoare_ret|apply triple_refuse]. }
    intros b'. destruct (c_native c); [|by apply hoare_ret]. destruct (c_dialect c); [|by apply hoare_ret].
    destruct (d_addSystem _ _ _); [apply triple_refuse|].
    eapply hoare_bind; [by apply triple_set_call|]. intros ?. by apply hoare_ret. }
  intros b1. eapply (hoare_bind _ _ _ (λ _, run a 0)).
  { unfold strip_on_key. apply triple_call. intros c Hc. destruct (negb _); [by apply hoare_ret|].
    eapply hoare_bind; [by apply triple_set_call|]. intros ?. by apply hoare_ret. }
  intros b2. apply triple_call. intros c Hc.
  eapply hoare_bind; [by apply triple_set_call|]. intros ?. by apply triple_done.
Qed.

(** *** The answer *)

Lemma triple_request_Err a due : triple (run a due) request_Err (λ _, run a due).
Proof.
  intros [c s] Hr. unfold request_Err. destruct (chainOnKey c).
  - destruct Hr as [Ha Hb]. split; [done|]. by apply (books_same _ _ s).
  - by apply (triple_context a due (c, s)).
Qed.

Lemma triple_attempt a c b m : triple (run a 0) (attempt c b m) (λ _, run a 0).
Proof.
  unfold attempt. eapply hoare_bind; [apply triple_time|]. intros began.
  apply triple_server. intros s. destruct (begin _ _) as [rel busy].
  eapply hoare_bind; [by apply triple_set_server|]. intros ?.
  eapply hoare_bind; [apply triple_request_Err|]. intros gone.
  eapply (hoare_bind _ _ _ (λ _, run a 0)); [|intros ?; by apply hoare_ret].
  destruct (match plane_send _ _ _ with Unreached _ _ => _ | Response _ _ _ => _ end);
    [|by apply hoare_ret].
  eapply hoare_bind; [apply triple_time|]. intros ?. by apply triple_set_server.
Qed.

Lemma triple_forward a b at_ failures m chain :
  triple (run a 0) (forward b at_ failures m chain) (λ _, run a 0).
Proof.
  revert at_ failures m. induction chain as [|next chain IH]; intros at_ failures m; simpl;
    apply triple_call; intros c Hc; (eapply hoare_bind; [apply triple_attempt|]);
    intros [[r began] rel]; [by apply hoare_ret|].
  eapply hoare_bind; [apply triple_request_Err|]. intros []; [by apply hoare_ret|].
  destruct (failure_of m r); [|by apply hoare_ret].
  eapply hoare_bind; [by apply triple_set_server|]. intros ?. apply IH.
Qed.

(** The answer is being read: the books are the account's, but for the tokens. *)
Definition answering (a : account) (st : state) : Prop :=
  (∃ u, acct st.1 = a <| a_used := u |>) ∧ books a 0 st.2.

Lemma answering_set_call a (f : call Body → call Body) :
  (∀ c, acct (f c) = (acct c) <| a_used := ev_Used (c_ev (f c)) |>) →
  triple (answering a) (set_call f) (λ _, answering a).
Proof.
  intros Hf. apply hoare_set_call. intros c s [[u Ha] Hb]. split; [|done]. simpl in Ha |- *.
  exists (ev_Used (c_ev (f c))). by rewrite Hf, Ha.
Qed.

Lemma answering_call {A} a (k : call Body → M A) Q :
  (∀ c, triple (answering a) (k c) Q) → triple (answering a) (the_call ≫= k) Q.
Proof. intros Hk. apply hoare_call. intros c. eapply hoare_conseq; [apply Hk| |done]. by intros st [_ ?]. Qed.

Lemma answering_context a : triple (answering a) context_Err (λ _, answering a).
Proof. intros [c s] [Ha Hb]. split; [done|]. by apply (books_same _ _ s). Qed.

Lemma answering_limitHeaders a now : triple (answering a) (limitHeaders now) (λ _, answering a).
Proof.
  intros [c s] [[u Ha] Hb]. unfold limitHeaders, the_call, the_server, set_server, mbind, handler_bind. cbn.
  pose proof (rateHeaders_limited (sv_limiter s) (c_res c) now) as Hl. destruct (rateHeaders _ _ _) as [rates l].
  split; [by exists u|]. by apply (books_same _ _ s).
Qed.

(** The calls of [finish] close the books of its row. *)
Lemma finish_close a (s s' : server) row paid now :
  books a 0 s → sv_rows s' = sv_rows s ++ [row] → ev_Scopes row = a_scopes a → ev_OrgID row = a_row_org a →
  ev_CostMicros row = paid ⊕ a_hook a →
  ops s' = ops s ++ [Charged (ev_Scopes row) paid (a_now a)] ++
    ((λ '(scopes, meter, n, t), Tallied scopes meter n t) <$> row_tallies row (a_now a)) ++
    [CreditCharged (ev_OrgID row) (bills_credit (ev_Bills row))] →
  limit_charges s' = row_charges row now → closed_books a row s'.
Proof.
  intros Hb Hr Hsc Horg Hcost Ho Hl. rewrite Hsc, Horg in Ho.
  assert (∀ sc, occurs sc (a_scopes a) * paid + occurs sc (a_scopes a) * a_hook a ≡64
    occurs sc (a_scopes a) * 0 + occurs sc (a_scopes a) * ev_CostMicros row) as Hpaid.
  { intros sc. rewrite Hcost. unfold add64. rewrite wrap64_same. exists 0. lia. }
  assert (tallies ((λ '(scopes, meter, n, t), Tallied scopes meter n t) <$> row_tallies row (a_now a)) = row_tallies row (a_now a)) as Ht.
  { unfold row_tallies. by case_match. }
  set (told := fmap _ _) in Ho, Ht.
  assert (∀ sc, charged sc told = 0 ∧ started sc told = 0 ∧ ended_in sc told = 0) as Hnone.
  { unfold told, row_tallies. by case_match. }
  assert (still_held (a_org a) told = 0 ∧ credit_charged (a_org a) told = 0 ∧ all_at (a_now a) told) as (Hh & Hcr & Hat).
  { unfold told, row_tallies. case_match; repeat constructor. }
  clearbody told. eapply (books_close a 0 s s' row _ Hb Hr Ho); try done; [intros sc..| | | | |by exists now];
    try destruct (Hnone sc) as (Hc & Hst & He).
  - autorewrite with ledger. rewrite Hc, <- Hpaid. sums. exists 0. lia.
  - autorewrite with ledger. rewrite Hst. done.
  - autorewrite with ledger. rewrite He. done.
  - autorewrite with ledger. rewrite Hh. done.
  - autorewrite with ledger. rewrite Hcr, (bk_org _ _ _ Hb). sums. rewrite bool_decide_eq_true_2 by done. lia.
  - repeat (apply Forall_app; split); repeat constructor. exact Hat.
  - autorewrite with ledger. rewrite Ht. by rewrite app_nil_r.
Qed.

Lemma closed_used a u row s : closed_books a row s → closed_books (a <| a_used := u |>) row s.
Proof. by intros [? ? ? ? ? ? ? ? ? ? ?]. Qed.

(** [finish] writes the row, whose cost was charged and whose tokens were counted. *)
Lemma triple_finish a : triple (answering a) (finish (T := T)) (λ _, closed).
Proof.
  intros [c s] [[u Ha] Hb]. simpl in Ha, Hb.
  assert (c_scopes c = a_scopes a) as Hsc by (by apply (f_equal a_scopes) in Ha).
  assert (c_now c = a_now a) as Hnow by (by apply (f_equal a_now) in Ha).
  assert (ev_OrgID (c_ev c) = a_row_org a) as Horg by (by apply (f_equal a_row_org) in Ha).
  assert (hookMicros c = a_hook a) as Hhook by (by apply (f_equal a_hook) in Ha).
  unfold finish, the_call, on_budgets, set_server, record, time_Now, mbind, handler_bind. cbn.
  destruct (answerCost _ _ _) as [cost bills]. set (paid := if Subscription (c_model c) then 0 else cost).
  set (row := (c_ev c) <| ev_Bills := _ |> <| ev_ListCostMicros := _ |> <| ev_CostMicros := _ |> <| ev_Scopes := _ |>).
  set (tokens := Input (ev_Used (c_ev c)) ⊕ Output (ev_Used (c_ev c))). pose proof (bk_limits _ _ _ Hb) as Hl. unfold limit_charges in Hl.
  destruct (num_ltb (of_Z 0) (of_Z tokens : T)) eqn:Hcounted; simpl; exists row; cbn [fst snd]; rewrite Ha; apply closed_used;
    (refine (finish_close a s _ row paid (now_at (sv_reads s)) _ _ _ _ _ _ _); [done|done|done|done|by rewrite <- Hhook|..]);
    unfold ops, limit_charges, row_tallies, row_charges; change (tokens_of row) with tokens; rewrite Hcounted; cbn;
    by rewrite <- ?Hnow, <- ?app_assoc, ?Hl.
Qed.

Lemma closed_same (st st' : state) :
  acct st'.1 = acct st.1 → sv_budgets st'.2 = sv_budgets st.2 → sv_rows st'.2 = sv_rows st.2 →
  sv_limiter st'.2 = sv_limiter st.2 → closed st → closed st'.
Proof.
  intros Ha Hb Hr Hl [row [? ? ? ? ? ? ? ? ? ? ?]]. exists row. rewrite Ha.
  split; unfold ops, limit_charges in *; rewrite ?Hb, ?Hr, ?Hl; done.
Qed.

Lemma triple_observe_answer f answer : triple closed (observe_answer Exp2 f answer) (λ _, closed).
Proof.
  unfold observe_answer. apply hoare_call. intros c. apply (hoare_conseq _ _ closed _ _ (λ _, closed)); [|by intros st []|done].
  destruct (rl_first answer); [|by apply hoare_ret]. destruct (_ && _); [|by apply hoare_ret].
  intros [c' s'] Hst. unfold mbind, handler_bind, time_Now, set_server. cbn.
  by apply (closed_same (c', s')).
Qed.

Lemma answering_relay a payload streaming ans : triple (answering a) (relay payload streaming ans) (λ _, answering a).
Proof.
  apply answering_set_call. intros c. destruct streaming, (rl_usage ans), (PlatformKey (c_model c)) eqn:Hk;
    case_bool_decide; try done; simpl; rewrite ?Hk; done.
Qed.

Lemma answering_billUnreported a b : triple (answering a) (billUnreported b) (λ _, answering a).
Proof. apply answering_set_call. intros c. cbv beta zeta. by case_match. Qed.

Lemma triple_serve_answer a b f : triple (run a 0) (serve_answer Exp2 b f) (λ _, closed).
Proof.
  unfold serve_answer. apply triple_call. intros c Hc.
  eapply (hoare_bind _ _ _ (λ _, run a 0)).
  { case_bool_decide; [by apply hoare_ret|]. apply triple_set_call. intros c'.
    by destruct (Route_Chooses (c_route c')). }
  intros ?. eapply hoare_bind; [apply triple_context|]. intros gone.
  destruct (_ && _); [apply triple_hungUp|].
  eapply (hoare_conseq _ _ (answering a) _ _ (λ _, closed)); [| |by intros ? st].
  2: { intros st [Ha Hb]. split; [|done]. exists (a_used a). rewrite Ha. by destruct a. }
  eapply hoare_bind; [by apply answering_set_call|]. intros ?.
  destruct (fwd_result f) as [undelivered err|status streams ans].
  - eapply (hoare_bind _ _ _ (λ _, answering a)).
    { destruct undelivered; [by apply hoare_ret|apply answering_billUnreported]. }
    intros ?. eapply (hoare_bind _ _ _ (λ _, closed)); [|intros ?; by apply hoare_ret].
    unfold upstreamUnreachable. apply answering_call. intros c'.
    eapply hoare_bind; [apply answering_limitHeaders|]. intros ?.
    eapply hoare_bind; [by apply answering_set_call|]. intros ?. apply triple_finish.
  - eapply hoare_bind; [by apply answering_set_call|]. intros ?.
    eapply hoare_bind; [apply answering_limitHeaders|]. intros ?.
    eapply hoare_bind; [apply answering_relay|]. intros ?.
    eapply (hoare_bind _ _ _ (λ _, answering a)).
    { destruct (_ <? _); [apply answering_billUnreported|by apply hoare_ret]. }
    intros ?. eapply hoare_bind; [by apply answering_set_call|]. intros ?.
    eapply hoare_bind; [apply answering_context|]. intros gone'.
    eapply hoare_bind; [apply answering_set_call; intros c'; unfold edit_ev; by case_match|]. intros ?.
    eapply hoare_bind; [apply triple_finish|]. intros ?.
    eapply hoare_bind; [apply triple_observe_answer|]. intros ?. by apply hoare_ret.
Qed.

Lemma triple_answer b : triple (running some_model) (answer Exp2 b) (λ _, closed).
Proof.
  apply triple_running. intros a HP. unfold answer. apply triple_call. intros c Hc.
  destruct (c_chain c) as [|m chain] eqn:Hch.
  { exfalso. apply HP. by rewrite <- Hc. }
  eapply hoare_bind; [apply triple_forward|]. intros [f rel].
  eapply hoare_bind; [apply triple_serve_answer|]. intros e.
  eapply (hoare_bind _ _ _ (λ _, closed)); [|intros ?; by apply hoare_ret].
  intros [c' s'] Hst. by apply (closed_same (c', s')).
Qed.

Lemma triple_steps a parsed :
  a_held a = 0 → a_hook a = 0 →
  triple (opening a) (steps cleanKey Exp Exp2 parsed) (λ _, closed).
Proof.
  intros Hh Hk. unfold steps.
  eapply hoare_bind; [apply triple_decode|]. intros b.
  eapply hoare_bind; [apply triple_target|]. intros ?.
  eapply hoare_bind; [by apply (triple_admit (λ _, True))|]. intros ?.
  apply triple_running. intros a1 _. apply triple_call. intros c Hc.
  eapply (hoare_bind _ _ _ (λ _, running (λ _, True))).
  { destruct (viaRouter c); [|by apply triple_done]. by eapply triple_run, triple_useRouter. }
  intros b1. eapply hoare_bind.
  { apply (triple_set_chain _ (λ c, destinations (orgID c) (c_model c) (c_decision c))).
    intros c'. apply destinations_some. }
  intros ?. eapply hoare_bind; [apply triple_useNative|]. intros b2.
  eapply hoare_bind; [apply triple_fits|]. intros ?.
  eapply hoare_bind; [apply triple_useFilters|]. intros b3.
  eapply hoare_bind; [apply triple_prepare|]. intros b4. apply triple_answer.
Qed.
End accounting.

(** C1: every request is settled. Whatever the client sends, the models
    answer and the clock says, a request that was received leaves exactly one
    usage row, however it ends. The row's tokens, if it has any, are counted
    exactly once against the token limits and once in the windows that count
    tokens, each for every scope of the row - the key's levels and quotas and
    every router limit the request passed - and nothing else is counted.
    Every request started in a window that counts requests was ended in it,
    at the same instant. What was held of the organisation's credit was
    released, and what was taken from it is what the row's bills say. And
    unless the model of a filter or of a router step answers counts below
    zero, which would make it cost less than nothing, each scope was charged,
    in all and in 64 bits, what the row says the request cost. The numbers the
    limits count in may be any in which zero is not below itself. *)
Theorem serve_settles `{Num T} `{FloatText T} `{MapRange} `{Source} `{SourceLists} `{Unicode}
    `{!Completions T} `{Wire} `{Clock} `{Plane} `{Regexp} `{Countable Digest} `{Budgeter B}
    `{!RateLimiter T L} `{!Bodies T Body}
    (cleanKey : Z → string → Digest) (Exp Exp2 : T → T) (parsed : string + Body)
    (res : Resolved) (kind : string) (d : option (dialect Body)) (header : string → list string)
    (signIn : bool) (start received : Z) (s s' : Server (ledger B) (limited T L) Digest) (c : call Body)
    (e : ended) :
  num_ltb (of_Z 0 : T) (of_Z 0) = false →
  (∀ sc, sc ∈ Scopes res → SMeter sc = MeterCost) →
  ops s = [] → limit_charges s = [] →
  serve cleanKey Exp Exp2 parsed (new_call res kind d header signIn start received, s) = (e, (c, s')) →
  ∃ row, sv_rows s' = sv_rows s ++ [row] ∧
    tallies (ops s') = row_tallies (T := T) row (c_now c) ∧
    (∃ now, limit_charges s' = row_charges row now) ∧
    (∀ sc, SMeter sc = MeterRequests →
       started sc (ops s') = occurs sc (ev_Scopes row) ∧
       ended_in sc (ops s') = occurs sc (ev_Scopes row)) ∧
    still_held (Key_OrgID (R_Key res)) (ops s') = 0 ∧
    credit_charged (Key_OrgID (R_Key res)) (ops s') = bills_credit (ev_Bills row) ∧
    all_at (c_now c) (ops s') ∧
    ((∀ extract apply_ st org aliases by_ (b : Body),
        0 <= fr_micros (applyFilters cleanKey Exp extract apply_ st org aliases by_ b).1.1.1) →
     (∀ w l now rt texts sent, 0 <= d_micros (route Exp w l now rt texts sent).1.1) →
     ∀ sc, wrap64 (charged sc (ops s')) = wrap64 (occurs sc (ev_Scopes row) * ev_CostMicros row)).
Proof.
  intros Hirr Hsc Hops Hlim Hs.
  set (c0 := new_call res kind d header signIn start received) in *.
  set (exact := (∀ extract apply_ st org aliases by_ (b : Body),
        0 <= fr_micros (applyFilters cleanKey Exp extract apply_ st org aliases by_ b).1.1.1) ∧
     (∀ w l now rt texts sent, 0 <= d_micros (route Exp w l now rt texts sent).1.1)).
  assert (∀ sc, SMeter sc = MeterRequests → occurs sc (Scopes res) = 0) as Hreq.
  { intros sc Hm. apply occurs_0. intros Hin. apply Hsc in Hin. by rewrite Hin in Hm. }
  pose proof (triple_steps cleanKey Exp Exp2 (sv_rows s) (Key_OrgID (R_Key res)) exact Hirr (λ Hx, proj1 Hx) (λ Hx, proj2 Hx)
    (acct c0) parsed eq_refl eq_refl (c0, s)) as Hst.
  unfold serve in Hs. destruct (steps _ _ _ _ _) as [r [c1 s1]].
  assert (closed (sv_rows s) (Key_OrgID (R_Key res)) exact (c1, s1)) as (row & Hcl).
  { assert (opening (sv_rows s) (Key_OrgID (R_Key res)) exact (acct c0) (c0, s)) as Ho; [|by destruct r; apply Hst].
    split; [done|]. intros now. cbn [snd]. split; intros; rewrite ?Hops, ?Hlim; try done.
    - cbn. by rewrite Hreq.
    - constructor. }
  injection Hs as _ <- <-. destruct Hcl as [Hrow Hhome Hscopes Hc Hsta He Hh Hcr Hat Hta Hli]. exists row.
  unfold ops, limit_charges in *. simpl in *. rewrite Hscopes, Hhome in *.
  split; [done|]. split; [|split; [done|split; [|split; [|split; [|split]]]]].
  - rewrite !tallies_app, Hta. change (tallies [Ended _ _]) with (@nil (list Scope * string * Z * Z)).
    change (tallies [Released _ _]) with (@nil (list Scope * string * Z * Z)). by rewrite !app_nil_r.
  - intros sc Hm. autorewrite with ledger. rewrite Hsta, He by done.
    unfold started, ended_in. cbn. lia.
  - autorewrite with ledger. rewrite Hh. unfold still_held. cbn.
    rewrite bool_decide_eq_true_2 by done. lia.
  - autorewrite with ledger. rewrite Hcr. unfold credit_charged. cbn. lia.
  - apply Forall_app. split; [apply Forall_app; split; [done|]|]; repeat constructor.
  - intros Hx1 Hx2 sc. repeat rewrite charged_app. apply same64_wrap. unfold charged at 2 3. cbn.
    rewrite !Z.add_0_r. apply Hc. by split.
Qed.

(** ** Examples *)

(** Hooks that call no priced model cost nothing. *)
Section free.
Context `{Num T} `{MapRange} `{Source} `{Unicode} `{!Completions T} `{Wire} `{Regexp} `{Countable Digest}.
Context (cleanKey : Z → string → Digest) (Exp : T → T).

Lemma no_filters_free {Body} extract apply_ st org aliases by_ (b : Body) :
  (∀ org alias, src_Filter org alias = None) →
  fr_micros (applyFilters cleanKey Exp extract apply_ st org aliases by_ b).1.1.1 = 0.
Proof.
  intros Hn. unfold applyFilters. destruct aliases as [|alias aliases]; [done|].
  destruct (extract b) as [err|[|text texts]]; [done..|]. simpl. unfold chainFilter. by rewrite Hn.
Qed.

Lemma decideOnce_free w rt m offered texts byLetter :
  (∀ w q lp, ga_micros (askGuard w m q lp).1.1 = 0) →
  dc_micros (decideOnce Exp w rt m offered texts byLetter).1.1 = 0.
Proof.
  intros Hfree. unfold decideOnce. destruct (too_large _ _); [done|].
  specialize (Hfree w (route_question rt offered texts byLetter) byLetter).
  destruct (askGuard _ _ _ _) as [[ans err] w']. simpl in Hfree. destruct err; [done|].
  destruct (_ <=? _); [done|]. by destruct (readDecision _ _ _ _) as [|[]].
Qed.

Lemma decide_free w rt m offered texts :
  (∀ w q lp, ga_micros (askGuard w m q lp).1.1 = 0) →
  dc_micros (decide_ Exp w rt m offered texts).1.1 = 0.
Proof.
  intros Hfree. unfold decide_. destruct offered as [|a offered]; [done|]. cbv zeta.
  match goal with |- context [decideOnce Exp w rt m ?o texts ?b] =>
    pose proof (decideOnce_free w rt m o texts b Hfree) as Hone;
    destruct (decideOnce Exp w rt m o texts b) as [[d err] w1] end.
  simpl in Hone. destruct (_ || _); [done|]. destruct err as [e|].
  - destruct (de_unreadable e); [|done].
    match goal with |- context [decideOnce Exp ?w' rt m ?o texts ?b] =>
      pose proof (decideOnce_free w' rt m o texts b Hfree) as Htwo;
      destruct (decideOnce Exp w' rt m o texts b) as [[d' err'] w2] end.
    simpl in *. by rewrite Hone, Htwo.
  - by destruct (num_eqb _ _).
Qed.

Lemma route_free w l now rt texts sent :
  (∀ org a m, src_Model org a = Some m → ∀ w q lp, ga_micros (askGuard w m q lp).1.1 = 0) →
  d_micros (route Exp w l now rt texts sent).1.1 = 0.
Proof.
  intros Hfree. assert (∀ d, d_micros (routeFallback rt d).1 = d_micros d) as Hfb.
  { intros d. unfold routeFallback. by destruct (Refuses rt). }
  unfold route. destruct (Route_Sizes rt); [|case_bool_decide; [|destruct (negb _)]]; simpl.
  - unfold sized. repeat case_match; simpl; rewrite ?Hfb; done.
  - unfold byHeader. repeat case_match; simpl; rewrite ?Hfb; done.
  - unfold chain. repeat case_match; simpl; rewrite ?Hfb; done.
  - assert (∀ offered texts m, src_Model (Rt_OrgID rt) (Rt_Model rt) = Some m →
      d_micros (instruct_decide Exp w rt m offered texts).1.1 = 0) as Hd.
    { intros offered texts' m Hm. unfold instruct_decide.
      pose proof (decide_free w rt m offered texts' (Hfree _ _ _ Hm)) as Hone.
      destruct (decide_ _ _ _ _ _ _) as [[answer err] w1]. simpl in Hone.
      destruct err; [destruct (gone w1)|]; simpl; rewrite ?Hfb; done. }
    unfold instruct. repeat case_match; simpl; rewrite ?Hfb; auto.
Qed.
End free.

#[local] Existing Instance ascii_unicode.
#[local] Existing Instance plain_completions.
#[local] Existing Instance sample_source.
#[local] Existing Instance sample_wire.
#[local] Existing Instance byte_regexp.

#[local] Instance sample_lists : SourceLists := {| src_Models _ := []; src_Routers _ := [] |}.

#[local] Instance sample_text : FloatText Q :=
  {| FormatFloat x _ _ := pretty (num_trunc x); ParseFloat _ := 0%Q |}.

#[local] Instance sample_clock : Clock :=
  {| now_at n := sample_now + Z.of_nat n * Millisecond; context_done _ := false |}.

(** A plane that answers with ten thousand tokens of prompt and a thousand of
    answer. *)
#[local] Instance sample_plane : Plane :=
  {| plane_send _ _ _ := Response 200 false
       {| rl_status := 200;
          rl_usage := Some {| Input := 10000; CachedInput := 0; CacheWrite := 0; CacheWriteHour := 0;
                              Output := 1000 |};
          rl_partial := false; rl_deltas := 0; rl_counted := 0; rl_first := Some sample_now;
          rl_error := "" |};
     outlasted _ := false |}.

(** A body is its string fields. *)
#[local] Instance sample_bodies : Bodies Q (gmap string string) :=
  {| b_str b k := b !! k; b_boolean _ _ := None; b_ceiling _ _ := None;
     b_setString b k v := <[k := v]> b; b_remove b k := (bool_decide (is_Some (b !! k)), delete k b);
     b_value b k := bool_decide (is_Some (b !! k)); b_size b := Z.of_nat (size b);
     b_encode b := default "" (b !! "messages");
     extractText b _ := match b !! "messages" with Some t => inr [t] | None => inl "no messages" end;
     applyText b _ texts := inr (<["messages" := join " " texts]> b);
     prependSystem b prompt := (λ t, <["messages" := prompt +:+ t]> b) <$> b !! "messages";
     ensureUsageInStream b := (false, b) |}.

Definition sample_resolved : Resolved :=
  {| R_Key := sample_key; R_AllowedModels := None; R_AllowedLocations := None; R_SystemPrompt := "";
     R_Filters := []; R_AllowedTools := None; Scopes := [sample_day_scope];
     Quotas := [set_meter sample_day_scope MeterRequests] |}.

Definition sample_server : Server (ledger Budgets) (limited Q (gmap string (bucket (T := Q)))) (Z * string) :=
  {| sv_budgets := {| lg_inner := sample_budgets; lg_ops := [] |}; sv_limiter := {| lm_inner := ∅; lm_charges := [] |};
     sv_filters := sample_state; sv_loads := ∅; sv_rows := []; sv_reads := 0%nat |}.

Definition sample_served :=
  serve (λ g t, (g, t)) sample_exp sample_exp
    (inr {["model" := "small"; "messages" := "a question"]})
    (new_call sample_resolved KindChat None (λ _, []) false sample_now 100, sample_server).

Lemma sample_free org a m :
  src_Model org a = Some m → ∀ w q lp, ga_micros (askGuard w m q lp).1.1 = 0.
Proof.
  intros Hm w q lp. assert (m = sample_chat "small" 8000 "quick" ∨ m = sample_chat "large" 0 "clever") as [->| ->].
  { simpl in Hm. case_bool_decide; [left; congruence|]. case_bool_decide; [right; congruence|done]. }
  all: unfold askGuard, askGuard_send; simpl; by destruct (gq_decision q).
Qed.

(** Its tokens are counted once, for the key's day and for its quota. *)
Lemma serve_settles_witness :
  let '(e, (c, s)) := sample_served in
  e = AnsweredWith 200 ∧
  ∃ row, sv_rows s = [row] ∧ ev_Scopes row = [sample_day_scope; set_meter sample_day_scope MeterRequests] ∧
    ev_CostMicros row = 1400 ∧ wrap64 (charged sample_day_scope (ops s)) = 1400 ∧
    (λ x, (x.1.1.1, x.1.2)) <$> tallies (ops s) = [(ev_Scopes row, 11000)] ∧
    (λ x, (x.1.1, x.1.2)) <$> limit_charges s = [(tpmBucket <$> ev_Scopes row, inject_Z 11000)].
Proof.
  destruct sample_served as [e [c s]] eqn:Hs.
  assert (e = AnsweredWith 200) as He
    by (apply (f_equal fst) in Hs; vm_compute in Hs; symmetry; exact Hs).
  assert ((λ row, (ev_Scopes row, ev_CostMicros row, tokens_of row)) <$> sv_rows s =
    [([sample_day_scope; set_meter sample_day_scope MeterRequests], 1400, 11000)]) as Hrow.
  { apply (f_equal (λ x, (λ row, (ev_Scopes row, ev_CostMicros row, tokens_of row)) <$> sv_rows x.2.2)) in Hs.
    cbn [fst snd] in Hs. rewrite <- Hs. vm_compute. reflexivity. }
  destruct (serve_settles (λ g t, (g, t)) sample_exp sample_exp
    (inr {["model" := "small"; "messages" := "a question"]}) sample_resolved KindChat None
    (λ _, []) false sample_now 100 sample_server s c e) as (row & Hr & Ht & (now & Hl) & _ & _ & _ & _ & Hc).
  - reflexivity.
  - intros sc Hsc. apply list_elem_of_singleton in Hsc as ->. reflexivity.
  - reflexivity.
  - reflexivity.
  - exact Hs.
  - split; [exact He|]. exists row. simpl in Hr. rewrite Hr in Hrow. injection Hrow as Hsc Hcost Htokens.
    split; [exact Hr|]. split; [exact Hsc|]. split; [exact Hcost|]. split; [|split].
    + rewrite Hc, Hsc, Hcost; [vm_compute; reflexivity|..].
      * intros. rewrite no_filters_free; [lia|done].
      * intros. rewrite route_free; [lia|]. apply sample_free.
    + rewrite Ht. unfold row_tallies. rewrite Htokens. reflexivity.
    + rewrite Hl. unfold row_charges. rewrite Htokens. reflexivity.
Defined.
