(* ===== verification/Usage.v ===== *)
(** * The usage log in the database

    [internal/store/usage.go] and [daily.go]: what one batch of usage events
    writes (the rows, the bills, the spend of every budget window, the daily
    totals, the plans and the credit), what is retried when Postgres refuses
    it, and which window a report reads. A batch is one transaction; whether
    Postgres refuses it, or its answer is lost, is the environment's. *)
From S2P Require Import Prelude GoTime Num Tenancy Pricing Guardrails Text Filters Routers RouterCheck.
From S2P Require Import Replies Guard Routing FilterChain Limiter Budgets Messages Call Control Credit Ledger.
Open Scope go_scope.

(** ** Events *)

(** [policy.PlanUsage]. *)
Record PlanUsage := {
  FiveHour : option float64;
  FiveHourResetsAt : option Z;
  SevenDay : option float64;
  SevenDayResetsAt : option Z;
  Plan_Status : string;
  UpdatedAt : Z;
}.

(** [Event]: what [Call] has of it, with when it was, whose it is, and what
    only the log keeps. *)
Record UsageEvent := {
  ue : Event;
  TS : Z;
  ProjectID : string;
  UserID : string;
  KeyID : string;
  ue_Client : string;
  Plan : option PlanUsage;
  Tool : option (string * string);
}.

#[export] Instance UsageEvent_updatable : Updatable UsageEvent := λ e,
  {| ue := ue e; TS := TS e; ProjectID := ProjectID e; UserID := UserID e; KeyID := KeyID e; ue_Client := ue_Client e;
     Plan := Plan e; Tool := Tool e |}.

Abbreviation BillsOnly e := (ev_BillsOnly (ue e)).
Abbreviation Bills e := (ev_Bills (ue e)).
Abbreviation Scopes e := (ev_Scopes (ue e)).
Abbreviation OrgID e := (ev_OrgID (ue e)).

(** *** Text Postgres takes *)

Definition nul : Ascii.ascii := Ascii.ascii_of_nat 0.

Fixpoint drop_byte (c : Ascii.ascii) (s : string) : string :=
  match s with
  | EmptyString => EmptyString
  | String a s' => if bool_decide (a = c) then drop_byte c s' else String a (drop_byte c s')
  end.

(** [strings.ToValidUTF8 s rep]: each run of bytes that start no rune is
    replaced once. *)
Fixpoint to_valid_with (rep : string) (in_run : bool) (fuel : nat) (s : string) : string :=
  match fuel, s with
  | S fuel, String a s' =>
      match Text.decode_rune s with
      | Some (r, rest) =>
          if (r =? Text.RuneError) && (String.length rest =? String.length s')%nat
          then (if in_run then "" else rep) +:+ to_valid_with rep true fuel rest
          else String.substring 0 (String.length s - String.length rest) s +:+ to_valid_with rep false fuel rest
      | None => ""
      end
  | _, _ => ""
  end.

Definition replacement : string := chr 239 +:+ chr 191 +:+ chr 189.

(** [cleanText]: a valid text has nothing to replace. *)
Definition cleanText (s : string) : string :=
  let s := drop_byte nul s in to_valid_with replacement false (String.length s) s.

(** [Event.clean]. *)
Definition clean_run (f : FilterRun) : FilterRun :=
  {| FR_Filter := cleanText (FR_Filter f); FR_Mode := FR_Mode f; FR_Shadow := FR_Shadow f; FR_Outcome := FR_Outcome f;
     FR_CostMicros := FR_CostMicros f; FR_Segments := FR_Segments f; FR_Changed := FR_Changed f |}.

Definition clean_bill (b : BillLine) : BillLine :=
  {| Bill_Alias := cleanText (Bill_Alias b); Bill_Provider := Bill_Provider b; Bill_BackendModel := cleanText (Bill_BackendModel b);
     InputTokens := InputTokens b; CachedInputTokens := CachedInputTokens b; CacheWriteTokens := CacheWriteTokens b;
     OutputTokens := OutputTokens b; Micros := Micros b; CreditMicros := CreditMicros b; GatewayFee := GatewayFee b |}.

Definition clean (e : UsageEvent) : UsageEvent :=
  e <| ue := (ue e) <| ev_Alias := cleanText (ev_Alias (ue e)) |> <| ev_Error := cleanText (ev_Error (ue e)) |>
       <| ev_Note := cleanText (ev_Note (ue e)) |> <| ev_Router := cleanText (ev_Router (ue e)) |>
       <| ev_FilterRuns := clean_run <$> ev_FilterRuns (ue e) |> <| ev_Bills := clean_bill <$> ev_Bills (ue e) |> |>
    <| ue_Client := cleanText (ue_Client e) |> <| Tool := (λ t, (cleanText t.1, cleanText t.2)) <$> Tool e |>.

(** ** The tables *)

(** [spendKey]: the kind of scope, its id, the period and its start. *)
Definition spendKey : Type := string * string * string * Z.

(** [dailyKey]: the day, the organisation, the key, the model, the client, the
    project and the user. *)
Definition dailyKey : Type := Z * string * string * string * string * string * string.

Record dailySum := {
  requests : Z;
  refused : Z;
  failed : Z;
  d_input : Z;
  d_output : Z;
  d_cost : Z;
  d_list : Z;
  d_last : Z;
}.

Definition dailySum_zero : dailySum :=
  {| requests := 0; refused := 0; failed := 0; d_input := 0; d_output := 0; d_cost := 0; d_list := 0; d_last := time_zero |}.

Record book := {
  usage_events : list UsageEvent;
  tool_calls : list UsageEvent;
  filter_runs : list (Z * string * string * FilterRun);
  billing_lines : list (Z * string * BillLine);
  spend : gmap spendKey Z;
  usage_daily : gmap dailyKey dailySum;
  plan_usage : gmap string PlanUsage;
  api_keys : gset string;
  credit : bank;
}.

#[export] Instance book_updatable : Updatable book := λ d,
  {| usage_events := usage_events d; tool_calls := tool_calls d; filter_runs := filter_runs d; billing_lines := billing_lines d;
     spend := spend d; usage_daily := usage_daily d; plan_usage := plan_usage d; api_keys := api_keys d; credit := credit d |}.

(** ** One batch *)

Definition maxErrorBytes : nat := 1000.

(** [truncate]: cut where a rune starts, with an ellipsis. *)
Fixpoint rune_cut (s : string) (cut : nat) : nat :=
  match cut with
  | O => O
  | S cut' => if rune_start_at s cut then cut else rune_cut s cut'
  end.

Definition truncate (s : string) (n : nat) : string :=
  if (String.length s <=? n)%nat then s else take_str (rune_cut s n) s +:+ Text.ellipsis.

(** The row of an event. *)
Definition stored (e : UsageEvent) : UsageEvent :=
  e <| ue := (ue e) <| ev_Error := truncate (ev_Error (ue e)) maxErrorBytes |> <| ev_Note := truncate (ev_Note (ue e)) maxErrorBytes |> |>.

(** [queueEvent], with [queueToolCall] and [queueFilterRuns]. *)
Definition queueEvent (d : book) (e : UsageEvent) : book :=
  let d := match Tool e with
           | Some _ => d <| tool_calls := tool_calls d ++ [stored e] |>
           | None => d <| usage_events := usage_events d ++ [stored e] |>
           end in
  d <| filter_runs := filter_runs d ++ ((λ f, (TS e, OrgID e, ProjectID e, f)) <$> ev_FilterRuns (ue e)) |>.

(** [queueBills]. *)
Definition queueBills (d : book) (e : UsageEvent) : book :=
  d <| billing_lines := billing_lines d ++ ((λ b, (TS e, OrgID e, b)) <$> Bills e) |>.

(** The key of an event's day. *)
Definition daily_key (e : UsageEvent) : dailyKey :=
  (Period_Start PeriodDay (TS e), OrgID e, KeyID e, ev_Alias (ue e), ue_Client e, ProjectID e, UserID e).

(** [addDaily]. *)
Definition addDaily (sums : gmap dailyKey dailySum) (e : UsageEvent) : gmap dailyKey dailySum :=
  let k := daily_key e in
  let d := default dailySum_zero (sums !! k) in
  let status := ev_Status (ue e) in
  <[k := {| requests := requests d ⊕ 1;
            failed := if 500 <=? status then failed d ⊕ 1 else failed d;
            refused := if 500 <=? status then refused d else if 400 <=? status then refused d ⊕ 1 else refused d;
            d_input := d_input d ⊕ Input (ev_Used (ue e));
            d_output := d_output d ⊕ Output (ev_Used (ue e));
            d_cost := d_cost d ⊕ ev_CostMicros (ue e);
            d_list := d_list d ⊕ ev_ListCostMicros (ue e);
            d_last := if d_last d <? TS e then TS e else d_last d |}]> sums.

(** The window of a scope an event is charged to. *)
Definition window_of (e : UsageEvent) (sc : Scope) : spendKey := (SType sc, SID sc, SPeriod sc, Period_Start (SPeriod sc) (TS e)).

Definition amount_of (e : UsageEvent) (sc : Scope) : Z :=
  Meter_Amount (SMeter sc) (ev_CostMicros (ue e)) (Input (ev_Used (ue e)) ⊕ Output (ev_Used (ue e))).

Definition addSpend (sums : gmap spendKey Z) (e : UsageEvent) : gmap spendKey Z :=
  foldl (λ sums sc, if negb (amount_of e sc =? 0)
    then <[window_of e sc := default 0 (sums !! window_of e sc) ⊕ amount_of e sc]> sums else sums) sums (Scopes e).

(** The plans of a batch: the newest of each key. *)
Definition addPlan (plans : gmap string PlanUsage) (e : UsageEvent) : gmap string PlanUsage :=
  match Plan e with
  | Some p =>
      let newest := match plans !! KeyID e with Some q => UpdatedAt q | None => time_zero end in
      if negb (bool_decide (KeyID e = "")) && negb (UpdatedAt p <? newest) then <[KeyID e := p]> plans else plans
  | None => plans
  end.

(** [queueDaily]: what the batch adds to each row. *)
Definition daily_plus (a b : dailySum) : dailySum :=
  {| requests := requests a + requests b; refused := refused a + refused b; failed := failed a + failed b;
     d_input := d_input a + d_input b; d_output := d_output a + d_output b; d_cost := d_cost a + d_cost b;
     d_list := d_list a + d_list b; d_last := d_last a `max` d_last b |}.

Definition queueDaily (daily sums : gmap dailyKey dailySum) : gmap dailyKey dailySum :=
  union_with (λ old new, Some (daily_plus old new)) daily sums.

(** [queuePlans]: an older reading never replaces a newer one. *)
Definition queuePlans (keys : gset string) (plans sums : gmap string PlanUsage) : gmap string PlanUsage :=
  union_with (λ old new, Some (if UpdatedAt old <=? UpdatedAt new then new else old)) plans (filter (λ kv, kv.1 ∈ keys) sums).

(** The sums of a row fit its columns. *)
Definition sum_fits (s : dailySum) : Prop :=
  in_int64 (requests s) ∧ in_int64 (refused s) ∧ in_int64 (failed s) ∧ in_int64 (d_input s) ∧ in_int64 (d_output s) ∧
  in_int64 (d_cost s) ∧ in_int64 (d_list s).

#[export] Instance sum_fits_dec s : Decision (sum_fits s).
Proof. unfold sum_fits. apply _. Defined.

(** The upsert of the spend rows. *)
Definition queueSpend (spend sums : gmap spendKey Z) : gmap spendKey Z := union_with (λ old new, Some (old + new)) spend sums.

(** The rows of a batch. *)
Definition queued (d : book) (events : list UsageEvent) : book :=
  foldl (λ d e, queueBills (if BillsOnly e then d else queueEvent d e) e) d events.

(** [writeBatch]. The order of the rows only decides the order of the locks.
    [None]: a sum leaves the 64 bits of its column, which Postgres refuses. *)
Definition writeBatch (d : book) (events : list UsageEvent) : option book :=
  let d := queued d events in
  let daily := foldl (λ s e, if negb (BillsOnly e) && bool_decide (Tool e = None) then addDaily s e else s) ∅ events in
  let sums := foldl addSpend ∅ events in
  let plans := foldl addPlan ∅ events in
  match queueCredit (credit d) ((λ e, (OrgID e, Bills e)) <$> events) with
  | None => None
  | Some b =>
      let d := d <| spend := queueSpend (spend d) sums |> <| usage_daily := queueDaily (usage_daily d) daily |>
                 <| plan_usage := queuePlans (api_keys d) (plan_usage d) plans |> <| credit := b |> in
      if bool_decide (map_Forall (λ _ n, in_int64 n) (spend d) ∧ map_Forall (λ _ s, sum_fits s) (usage_daily d)) then Some d else None
  end.

(** ** What is retried *)

(** Why a write did not succeed: Postgres refused it, or its answer is unknown. *)
Inductive write_failure := Refused | Unknown.

Inductive write_call := Db_writeBatch (events : list UsageEvent).

Definition write_answer (c : write_call) : Type := option write_failure.

(** [LostEvents], or another error. *)
Inductive write_error := LostEvents (n : Z) | WriteFailed.

(** An event without its usage row. *)
Definition bills_alone (e : UsageEvent) : UsageEvent := e <| ue := (ue e) <| ev_BillsOnly := true |> |> <| Plan := None |>.

Fixpoint one_by_one (events : list UsageEvent) (lost : Z) : prog write_answer (option write_error) :=
  match events with
  | [] => Ret (if 0 <? lost then Some (LostEvents lost) else None)
  | e :: events =>
      err ← ask (Db_writeBatch [e]);
      match err : option write_failure with
      | None => one_by_one events lost
      | Some Unknown => Ret (Some WriteFailed)
      | Some Refused =>
          if negb (bool_decide (Bills e = [])) && negb (BillsOnly e) then
            err ← ask (Db_writeBatch [bills_alone e]);
            match err : option write_failure with
            | Some Unknown => Ret (Some WriteFailed)
            | _ => one_by_one events (lost + 1)
            end
          else one_by_one events (lost + 1)
      end
  end.

(** [WriteEvents]. *)
Definition WriteEvents (events : list UsageEvent) : prog write_answer (option write_error) :=
  match events with
  | [] => Ret None
  | _ =>
      let events := clean <$> events in
      err ← ask (Db_writeBatch events);
      match err : option write_failure with
      | None => Ret None
      | Some Unknown => Ret (Some WriteFailed)
      | Some Refused => one_by_one events 0
      end
  end.

(** ** What reports read *)

Definition dailyAfter : Z := 48 * Hour.

(** [DayWindow]. *)
Definition DayWindow (from to : Z) : Z * Z * bool :=
  if to - from <=? dailyAfter then (from, to, false)
  else
    let end_ := Period_Start PeriodDay to in
    let end_ := if end_ <? to then AddDate end_ 0 0 1 else end_ in
    (Period_Start PeriodDay from, end_, true).

(** The columns a report sums: the requests, the refused, the failed, the
    tokens and the money, in [rawSource] and in [dailySource]. *)
Inductive column := All | Refusals | Failures | InputTokens_sum | OutputTokens_sum | Cost_sum | ListCost_sum.

Definition raw_column (c : column) (e : UsageEvent) : Z :=
  let status := ev_Status (ue e) in
  match c with
  | All => 1
  | Refusals => if (400 <=? status) && (status <=? 499) then 1 else 0
  | Failures => if 500 <=? status then 1 else 0
  | InputTokens_sum => Input (ev_Used (ue e))
  | OutputTokens_sum => Output (ev_Used (ue e))
  | Cost_sum => ev_CostMicros (ue e)
  | ListCost_sum => ev_ListCostMicros (ue e)
  end.

Definition daily_column (c : column) (s : dailySum) : Z :=
  match c with
  | All => requests s
  | Refusals => refused s
  | Failures => failed s
  | InputTokens_sum => d_input s
  | OutputTokens_sum => d_output s
  | Cost_sum => d_cost s
  | ListCost_sum => d_list s
  end.

(** [rawSource] and [dailySource] over a window, for the rows a report is
    narrowed to. *)
Definition raw_source (d : book) (from to : Z) (narrow : dailyKey → bool) (c : column) : Z :=
  foldr (λ e acc, (if (from <=? TS e) && (TS e <? to) && narrow (daily_key e) then raw_column c e else 0) + acc) 0 (usage_events d).

Definition key_day (k : dailyKey) : Z := let '(day, _, _, _, _, _, _) := k in day.

Definition daily_source (d : book) (from to : Z) (narrow : dailyKey → bool) (c : column) : Z :=
  map_fold (λ k s acc, (if (from <=? key_day k) && (key_day k <? to) && narrow k then daily_column c s else 0) + acc) 0 (usage_daily d).

(** [sourceFor] and the total a report like [Overview] reads there: the window
    it covers, and the column over it. *)
Definition report_total (d : book) (from to : Z) (narrow : dailyKey → bool) (c : column) : Z * Z * Z :=
  let '(from, to, daily) := DayWindow from to in
  (from, to, if daily then daily_source d from to narrow c else raw_source d from to narrow c).

(** [LoadSpend]: the open windows. *)
Definition LoadSpend (d : book) (now : Z) : gmap spendKey Z :=
  filter (λ kv, let '(_, _, p, start) := kv.1 in
    (p = PeriodDay ∧ start = Period_Start PeriodDay now) ∨ (p = PeriodMonth ∧ start = Period_Start PeriodMonth now)) (spend d).

(** ** What a batch leaves *)

Definition is_row (e : UsageEvent) : bool := negb (BillsOnly e) && bool_decide (Tool e = None).
Definition is_call (e : UsageEvent) : bool := negb (BillsOnly e) && negb (bool_decide (Tool e = None)).
Definition bills_of (e : UsageEvent) : list (Z * string * BillLine) := (λ b, (TS e, OrgID e, b)) <$> Bills e.

(** What an event adds to a window, and to a column of a report. *)
Definition spent (k : spendKey) (e : UsageEvent) : Z :=
  foldr (λ sc acc, (if bool_decide (window_of e sc = k) then amount_of e sc else 0) + acc) 0 (Scopes e).

Definition counted (from to : Z) (narrow : dailyKey → bool) (c : column) (e : UsageEvent) : Z :=
  if (from <=? key_day (daily_key e)) && (key_day (daily_key e) <? to) && narrow (daily_key e) then raw_column c e else 0.

Definition sum_over {A} (f : A → Z) (l : list A) : Z := foldr (λ a acc, f a + acc) 0 l.

Lemma sum_over_app {A} (f : A → Z) l l' : sum_over f (l ++ l') = sum_over f l + sum_over f l'.
Proof. induction l as [|a l IH]; cbn; [done|]. unfold sum_over in *. rewrite IH. lia. Qed.

Lemma add64_same a b : a ⊕ b ≡64 a + b.
Proof. unfold add64. by rewrite wrap64_same. Qed.

Lemma eq_same64 a b : a = b → a ≡64 b.
Proof. by intros ->. Qed.

Ltac by_eq64 := apply eq_same64; first [lia|cbn; lia].

(** *** The rows *)

Lemma queued_rows events d :
  usage_events (queued d events) = usage_events d ++ (stored <$> List.filter is_row events) ∧
  tool_calls (queued d events) = tool_calls d ++ (stored <$> List.filter is_call events) ∧
  billing_lines (queued d events) = billing_lines d ++ flat_map bills_of events ∧
  spend (queued d events) = spend d ∧ usage_daily (queued d events) = usage_daily d ∧
  plan_usage (queued d events) = plan_usage d ∧ api_keys (queued d events) = api_keys d ∧ credit (queued d events) = credit d.
Proof.
  unfold queued. induction events as [|e events IH] in d |- *; [by cbn; rewrite !app_nil_r|]. cbn [foldl].
  destruct (IH (queueBills (if BillsOnly e then d else queueEvent d e) e)) as (-> & -> & -> & -> & -> & -> & -> & ->). clear IH.
  cbn [List.filter flat_map]. unfold is_row, is_call, queueBills, queueEvent. destruct (BillsOnly e); cbn -[stored].
  - by rewrite <- !app_assoc.
  - destruct (Tool e); cbn -[stored]; by rewrite <- ?app_assoc.
Qed.

(** *** The spend *)

Lemma addSpend_sum e k sums : default 0 (addSpend sums e !! k) ≡64 default 0 (sums !! k) + spent k e.
Proof.
  unfold addSpend, spent. induction (Scopes e) as [|sc scs IH] in sums |- *; cbn [foldl foldr]; [by rewrite Z.add_0_r|].
  rewrite IH. destruct (amount_of e sc =? 0) eqn:Hz; cbn [negb].
  - apply Z.eqb_eq in Hz. rewrite Hz. by destruct (bool_decide _).
  - case_bool_decide as Hk; [|by rewrite lookup_insert_ne]. rewrite Hk, lookup_insert_eq. cbn [default from_option id].
    rewrite add64_same. by rewrite Z.add_assoc.
Qed.

Lemma addSpends_sum events k sums : default 0 (foldl addSpend sums events !! k) ≡64 default 0 (sums !! k) + sum_over (spent k) events.
Proof.
  induction events as [|e events IH] in sums |- *; cbn [foldl]; [by cbn; rewrite Z.add_0_r|].
  rewrite IH, addSpend_sum. cbn. by rewrite Z.add_assoc.
Qed.

Lemma queueSpend_sum spend sums k : default 0 (queueSpend spend sums !! k) = default 0 (spend !! k) + default 0 (sums !! k).
Proof. unfold queueSpend. rewrite lookup_union_with. destruct (spend !! k), (sums !! k); cbn; lia. Qed.

(** *** The days *)

Section map_sums.
Context `{Countable K} {A : Type} (g : K → A → Z).
Implicit Types (m : gmap K A).

Definition map_sum m : Z := map_fold (λ k a acc, g k a + acc) 0 m.

Lemma map_sum_new m k a : m !! k = None → map_sum (<[k:=a]> m) = g k a + map_sum m.
Proof. intros Hk. unfold map_sum. rewrite map_fold_insert_L; [done| |done]. intros. lia. Qed.

Lemma map_sum_insert m k a : map_sum (<[k:=a]> m) = map_sum m - from_option (g k) 0 (m !! k) + g k a.
Proof.
  destruct (m !! k) as [b|] eqn:Hk; cbn; [|rewrite map_sum_new by done; lia].
  rewrite <- (insert_id m k b Hk) at 2. rewrite <- !(insert_delete_eq m k), !map_sum_new by apply lookup_delete_eq. lia.
Qed.

Lemma map_sum_union_with (f : A → A → A) m m2 : (∀ k a b, g k (f a b) = g k a + g k b) →
  map_sum (union_with (λ a b, Some (f a b)) m m2) = map_sum m + map_sum m2.
Proof.
  intros Hf. induction m2 as [|k a m2 Hk IH] using map_ind.
  - rewrite (right_id_L ∅ (union_with _)). unfold map_sum at 3. rewrite map_fold_empty. lia.
  - rewrite (map_sum_new m2) by done. destruct (m !! k) as [b|] eqn:Hb.
    + rewrite <- (insert_id m k b Hb) at 1. rewrite <- (insert_union_with _ m m2 k b a (f b a)) by done.
      rewrite map_sum_insert, IH, lookup_union_with, Hb, Hk. cbn. rewrite Hf. lia.
    + rewrite <- (insert_union_with_r _ m m2 k a Hb), map_sum_insert, IH, lookup_union_with, Hb, Hk. cbn. lia.
Qed.
End map_sums.

Section windows.
Context (from to : Z) (narrow : dailyKey → bool) (c : column).

Definition cell (k : dailyKey) (s : dailySum) : Z := if (from <=? key_day k) && (key_day k <? to) && narrow k then daily_column c s else 0.

Lemma daily_source_sum d : daily_source d from to narrow c = map_sum cell (usage_daily d).
Proof. done. Qed.

Lemma addDaily_column sums e : daily_column c (default dailySum_zero (addDaily sums e !! daily_key e)) ≡64
  daily_column c (default dailySum_zero (sums !! daily_key e)) + raw_column c e.
Proof.
  unfold addDaily. rewrite lookup_insert_eq. cbn [default from_option id].
  destruct (default dailySum_zero (sums !! daily_key e)) as [rq rf fl i o co l t].
  destruct c; cbn; rewrite ?add64_same; try done.
  - destruct (500 <=? _) eqn:H5, (400 <=? _) eqn:H4, (_ <=? 499) eqn:H49; cbn; rewrite ?add64_same, ?Z.add_0_r; first [done|lia].
  - destruct (500 <=? _); rewrite ?add64_same, ?Z.add_0_r; done.
Qed.

Lemma addDaily_sum sums e : map_sum cell (addDaily sums e) ≡64 map_sum cell sums + counted from to narrow c e.
Proof.
  pose proof (addDaily_column sums e) as Hc. unfold addDaily in *. rewrite lookup_insert_eq in Hc. cbn [default from_option id] in Hc.
  rewrite map_sum_insert. unfold cell at 3, counted. destruct (_ && _) eqn:Hin.
  - rewrite Hc. destruct (sums !! daily_key e) as [s|]; cbn [default from_option id].
    + unfold cell at 2. rewrite Hin. by_eq64.
    + destruct c; by_eq64.
  - destruct (sums !! daily_key e) as [s|]; cbn [from_option]; [unfold cell at 2; rewrite Hin|]; by_eq64.
Qed.

Lemma addDailies_sum events sums :
  map_sum cell (foldl (λ s e, if negb (BillsOnly e) && bool_decide (Tool e = None) then addDaily s e else s) sums events) ≡64
  map_sum cell sums + sum_over (counted from to narrow c) (List.filter is_row events).
Proof.
  induction events as [|e events IH] in sums |- *; cbn [foldl List.filter]; [by cbn; rewrite Z.add_0_r|].
  rewrite IH. unfold is_row at 2. destruct (_ && _); [|done]. rewrite addDaily_sum. cbn. by rewrite Z.add_assoc.
Qed.

Lemma queueDaily_sum daily sums : map_sum cell (queueDaily daily sums) = map_sum cell daily + map_sum cell sums.
Proof. apply map_sum_union_with. intros k a b. unfold cell. destruct (_ && _); [|lia]. destruct c; done. Qed.

(** On whole days, the two windows hold the same rows. *)
Lemma whole_days t : Period_Start PeriodDay from = from → Period_Start PeriodDay to = to →
  (from <=? t) && (t <? to) = (from <=? Period_Start PeriodDay t) && (Period_Start PeriodDay t <? to).
Proof.
  intros Hf Ht. pose proof (proj1 (window_self PeriodDay t)) as Hle.
  pose proof (Period_Start_mono PeriodDay from t) as Hm1. pose proof (Period_Start_mono PeriodDay to t) as Hm2. rewrite Hf in Hm1. rewrite Ht in Hm2.
  destruct (from <=? t) eqn:E1, (t <? to) eqn:E2, (from <=? Period_Start PeriodDay t) eqn:E3, (Period_Start PeriodDay t <? to) eqn:E4; try done; lia.
Qed.

Lemma raw_source_sum d : Period_Start PeriodDay from = from → Period_Start PeriodDay to = to →
  raw_source d from to narrow c = sum_over (counted from to narrow c) (usage_events d).
Proof.
  intros Hf Ht. unfold raw_source, sum_over. induction (usage_events d) as [|e l IH]; [done|]. cbn [foldr].
  unfold counted at 1. change (key_day (daily_key e)) with (Period_Start PeriodDay (TS e)). by rewrite IH, (whole_days (TS e) Hf Ht).
Qed.
End windows.

(** ** What the tables promise *)

Lemma counted_stored from to narrow c e : counted from to narrow c (stored e) = counted from to narrow c e.
Proof. unfold counted. by change (daily_key (stored e)) with (daily_key e); destruct c. Qed.

Lemma sum_over_stored from to narrow c l : sum_over (counted from to narrow c) (stored <$> l) = sum_over (counted from to narrow c) l.
Proof.
  unfold sum_over. induction l as [|e l IH]; [reflexivity|]. rewrite fmap_cons. cbn [foldr]. rewrite counted_stored, IH. reflexivity.
Qed.

Lemma writeBatch_some d events d' : writeBatch d events = Some d' →
  usage_events d' = usage_events d ++ (stored <$> List.filter is_row events) ∧
  tool_calls d' = tool_calls d ++ (stored <$> List.filter is_call events) ∧
  billing_lines d' = billing_lines d ++ flat_map bills_of events ∧
  spend d' = queueSpend (spend d) (foldl addSpend ∅ events) ∧
  usage_daily d' = queueDaily (usage_daily d) (foldl (λ s e, if negb (BillsOnly e) && bool_decide (Tool e = None) then addDaily s e else s) ∅ events) ∧
  plan_usage d' = queuePlans (api_keys d) (plan_usage d) (foldl addPlan ∅ events) ∧
  api_keys d' = api_keys d ∧
  queueCredit (credit d) ((λ e, (OrgID e, Bills e)) <$> events) = Some (credit d') ∧
  map_Forall (λ _ n, in_int64 n) (spend d') ∧ map_Forall (λ _ s, sum_fits s) (usage_daily d').
Proof.
  unfold writeBatch. destruct (queued_rows events d) as (Hu & Ht & Hb & Hs & Hd & Hp & Hk & Hc).
  rewrite <- Hu, <- Ht, <- Hb, <- Hs, <- Hd, <- Hp, <- Hk, <- Hc. clear.
  generalize (foldl addSpend ∅ events) (foldl addPlan ∅ events) (queued d events)
    (foldl (λ s e, if negb (BillsOnly e) && bool_decide (Tool e = None) then addDaily s e else s) ∅ events).
  intros sums plans q daily. destruct (queueCredit _ _) as [b|]; [|done]. case_bool_decide as Hfit; [|done]. intros [= <-].
  destruct Hfit. by split_and!.
Qed.

Lemma DayWindow_daily from to : dailyAfter < to - from → DayWindow from to =
  (Period_Start PeriodDay from, if Period_Start PeriodDay to <? to then Period_Next PeriodDay to else Period_Start PeriodDay to, true).
Proof.
  intros Hlt. unfold DayWindow, Period_Next. rewrite (bool_decide_eq_false_2 (PeriodDay = PeriodMonth)) by done.
  rewrite (proj2 (Z.leb_gt _ _) Hlt). reflexivity.
Qed.

(** *** The plans *)

(** A key's plan as some event read it. *)
Definition reads (log : list UsageEvent) (k : string) (p : PlanUsage) : Prop := ∃ e, e ∈ log ∧ KeyID e = k ∧ Plan e = Some p.

Lemma reads_app log log' k p : reads (log ++ log') k p ↔ reads log k p ∨ reads log' k p.
Proof. unfold reads. setoid_rewrite elem_of_app. naive_solver. Qed.

Lemma reads_one e k p : reads [e] k p ↔ KeyID e = k ∧ Plan e = Some p.
Proof. unfold reads. setoid_rewrite list_elem_of_singleton. naive_solver. Qed.

(** A table holds the newest of a key's readings. *)
Definition newest (plans : gmap string PlanUsage) (log : list UsageEvent) (k : string) : Prop :=
  (∀ q, plans !! k = Some q → reads log k q) ∧
  ∀ p, reads log k p → time_zero <= UpdatedAt p → ∃ q, plans !! k = Some q ∧ UpdatedAt p <= UpdatedAt q.

Lemma newest_more plans log e k : newest plans log k → (∀ p, ~ (KeyID e = k ∧ Plan e = Some p)) → newest plans (log ++ [e]) k.
Proof. intros [H1 H2] He. split; intros p; rewrite reads_app, ?reads_one; [by left; apply H1|]. intros [Hp|Hp]; [by apply H2|by destruct (He p)]. Qed.

Lemma newest_read plans log e k p : newest plans log k → KeyID e = k → Plan e = Some p →
  (∀ r, plans !! k = Some r → UpdatedAt r <= UpdatedAt p) → newest (<[k:=p]> plans) (log ++ [e]) k.
Proof.
  intros [H1 H2] Hk Hp Hr. split; intros q; rewrite lookup_insert_eq, reads_app, reads_one.
  - intros [= <-]. by right.
  - intros [Hq|[_ Hq]] Hz; exists p; (split; [done|]); [|by simplify_eq]. destruct (H2 q Hq Hz) as (r & Hr1 & Hr2). specialize (Hr r Hr1). lia.
Qed.

Lemma addPlan_newest plans log e k : k ≠ "" → newest plans log k → newest (addPlan plans e) (log ++ [e]) k.
Proof.
  intros Hk0 Hn. unfold addPlan. destruct (Plan e) as [p|] eqn:Hp; [|apply newest_more; naive_solver].
  destruct (decide (KeyID e = k)) as [Hk|Hk].
  - rewrite Hk, bool_decide_eq_false_2 by done. cbn [negb andb]. destruct (UpdatedAt p <? _) eqn:Hlt; cbn [negb].
    + destruct Hn as [H1 H2]. split; intros q; rewrite reads_app, reads_one; [by left; apply H1|].
      intros [Hq|[_ Hq]] Hz; [by apply H2|]. simplify_eq. destruct (plans !! KeyID e) as [r|] eqn:Hr; [|lia].
      exists r. split; [done|lia].
    + apply newest_read; [done..|]. intros r Hr. rewrite Hr in Hlt. lia.
  - assert (newest plans (log ++ [e]) k) as Hm by (apply newest_more; naive_solver).
    destruct (_ && _); [|done]. destruct Hm as [H1 H2]. split; intros q; rewrite lookup_insert_ne by done; auto.
Qed.

Lemma addPlans_newest events plans log k : k ≠ "" → newest plans log k → newest (foldl addPlan plans events) (log ++ events) k.
Proof.
  induction events as [|e events IH] in plans, log |- *; intros Hk Hn; cbn [foldl]; [by rewrite app_nil_r|].
  rewrite (cons_middle e log events), app_assoc. apply IH; [done|]. by apply addPlan_newest.
Qed.

Lemma queuePlans_newest keys plans sums log events k : k ∈ keys → newest plans log k → newest sums events k →
  newest (queuePlans keys plans sums) (log ++ events) k.
Proof.
  intros Hin [H1 H2] [H3 H4]. unfold newest, queuePlans. rewrite lookup_union_with.
  assert (filter (λ kv : string * PlanUsage, kv.1 ∈ keys) sums !! k = sums !! k) as ->.
  { apply option_eq. intros q. rewrite map_lookup_filter_Some. naive_solver. }
  destruct (plans !! k) as [a|] eqn:Ha, (sums !! k) as [b|] eqn:Hb; cbn; split; intros q; rewrite reads_app.
  - destruct (_ <=? _); intros [= <-]; auto.
  - intros [Hq|Hq] Hz; [destruct (H2 q Hq Hz) as (r & [= <-] & ?)|destruct (H4 q Hq Hz) as (r & [= <-] & ?)];
      destruct (UpdatedAt a <=? UpdatedAt b) eqn:E; eexists; (split; [done|lia]).
  - intros [= <-]. auto.
  - intros [Hq|Hq] Hz; [by apply H2|by destruct (H4 q Hq Hz) as (r & ? & ?)].
  - intros [= <-]. auto.
  - intros [Hq|Hq] Hz; [by destruct (H2 q Hq Hz) as (r & ? & ?)|by apply H4].
  - done.
  - intros [Hq|Hq] Hz; [by destruct (H2 q Hq Hz) as (r & ? & ?)|by destruct (H4 q Hq Hz) as (r & ? & ?)].
Qed.
