(* ===== verification/Retention.v ===== *)
(** * What is deleted from the usage log

    [PurgeUsage] and [PurgeEnded] of [internal/store/retention.go], and what
    the deletion of a router, a project or an organisation ([routers.go],
    [tenants.go]) clears of the usage log's tables: what goes, and what reports
    and budgets then still find. The deletions of one table, which [PurgeUsage]
    makes in batches of a few thousand rows, are one here. *)
From S2P Require Import Prelude GoTime Num Tenancy Pricing Guardrails Text Filters Routers RouterCheck.
From S2P Require Import Replies Guard Routing FilterChain Limiter Budgets Messages Call Control Credit Ledger Usage.
Open Scope go_scope.

Implicit Types (d : book) (before : Z).

(** ** The deletions *)

Inductive statement := FromUsageEvents | FromFilterRuns | FromToolCalls | FromSpend.

(** In the code's order. *)
Definition statements : list statement := [FromUsageEvents; FromFilterRuns; FromToolCalls; FromSpend].

(** A window that began before the window of its period that holds [before]. *)
Definition closed_before before (k : spendKey) : bool :=
  let '(_, _, p, start) := k in
  (bool_decide (p = PeriodDay) && (start <? Period_Start PeriodDay before)) ||
  (bool_decide (p = PeriodMonth) && (start <? Period_Start PeriodMonth before)).

Definition delete_from before d (st : statement) : book :=
  match st with
  | FromUsageEvents => d <| usage_events := List.filter (λ e, negb (TS e <? before)) (usage_events d) |>
  | FromFilterRuns => d <| filter_runs := List.filter (λ r, let '(ts, _, _, _) := r in negb (ts <? before)) (filter_runs d) |>
  | FromToolCalls => d <| tool_calls := List.filter (λ e, negb (TS e <? before)) (tool_calls d) |>
  | FromSpend => d <| spend := filter (λ kv, closed_before before kv.1 = false) (spend d) |>
  end.

(** [PurgeUsage]: the statement that fails, counted from the first, ends it. *)
Definition PurgeUsage d before (fails : nat) : book := foldl (delete_from before) d (take fails statements).

Definition bar : Ascii.ascii := Ascii.ascii_of_nat 124.

(** [scopeOwner]: the id up to the meter. *)
Definition scopeOwner (id : string) : string := (cut_byte bar id).1.1.

(** The spend rows of one kind of scope whose id [owned] picks. *)
Definition in_scope (ty : string) (owned : string → bool) (k : spendKey) : bool :=
  let '(t, id, _, _) := k in bool_decide (t = ty) && owned id.

Definition clear_spend d ty (owned : string → bool) : book := d <| spend := filter (λ kv, in_scope ty owned kv.1 = false) (spend d) |>.

Definition owner_in (owners : gset string) (id : string) : bool := bool_decide (scopeOwner id ∈ owners).

(** Deleted keys take their plans with them, by the foreign key. *)
Definition drop_keys d (gone : gset string) : book :=
  d <| api_keys := api_keys d ∖ gone |> <| plan_usage := filter (λ kv, kv.1 ∉ gone) (plan_usage d) |>.

(** One batch of [PurgeEnded], which deletes the keys [gone]: the revoked and
    the expired ones it finds. *)
Definition PurgeEnded_batch d (gone : gset string) : book := clear_spend (drop_keys d gone) ScopeKey (owner_in gone).

(** [PurgeEnded]: batches until one is short or fails. *)
Definition PurgeEnded d (batches : list (gset string)) : book := foldl PurgeEnded_batch d batches.

(** [DeleteRouter], [DeleteProject] and [DeleteOrg], on these tables; the
    projects and keys of an organisation are read in its transaction. *)
Definition DeleteRouter d (orgID alias : string) : book := clear_spend d ScopeRouter (String.prefix (orgID +:+ "/" +:+ alias +:+ "/")).

Definition DeleteProject d (projectID : string) : book := clear_spend d ScopeProject (owner_in {[ projectID ]}).

Definition DeleteOrg d (orgID : string) (projects keys : gset string) : book :=
  let d := clear_spend (clear_spend (clear_spend d ScopeOrg (owner_in {[ orgID ]})) ScopeProject (owner_in projects)) ScopeKey (owner_in keys) in
  let b := (ForgetCard (credit d) orgID).1 in
  (drop_keys d keys) <| credit := b <| orgs := delete orgID (orgs b) |>
    <| charges := filter (λ kv, ch_org kv.2 ≠ orgID) (charges b) |> |>.

(** ** What is kept *)

(** What two books tell readers alike: budgets from [now] on, reports that
    start no earlier than [before], and everything retention leaves alone. *)
Record reads_alike before d d' : Prop := {
  alike_spend now : before <= now → LoadSpend d' now = LoadSpend d now;
  alike_raw from to narrow c : before <= from → raw_source d' from to narrow c = raw_source d from to narrow c;
  alike_daily : usage_daily d' = usage_daily d;
  alike_bills : billing_lines d' = billing_lines d;
  alike_plans : plan_usage d' = plan_usage d;
  alike_credit : credit d' = credit d;
}.

#[export] Instance reads_alike_preorder before : PreOrder (reads_alike before).
Proof.
  split; [by split|]. intros a b c [] []. split; intros; try congruence.
  - rewrite alike_spend1, alike_spend0 by done. done.
  - rewrite alike_raw1, alike_raw0 by done. done.
Qed.

Lemma open_not_closed before now k : before <= now →
  (let '(_, _, p, start) := k in (p = PeriodDay ∧ start = Period_Start PeriodDay now) ∨ (p = PeriodMonth ∧ start = Period_Start PeriodMonth now)) →
  closed_before before k = false.
Proof.
  destruct k as [[[ty id] p] start]. intros Hle Hopen. unfold closed_before. pose proof (Period_Start_mono PeriodDay before now Hle). pose proof (Period_Start_mono PeriodMonth before now Hle).
  destruct Hopen as [[-> ->]|[-> ->]]; repeat case_bool_decide; try done; cbn [andb orb]; rewrite ?orb_false_r; apply Z.ltb_ge; lia.
Qed.

Lemma raw_source_filter l before from to narrow c : before <= from →
  foldr (λ e acc, (if (from <=? TS e) && (TS e <? to) && narrow (daily_key e) then raw_column c e else 0) + acc) 0 (List.filter (λ e, negb (TS e <? before)) l) =
  foldr (λ e acc, (if (from <=? TS e) && (TS e <? to) && narrow (daily_key e) then raw_column c e else 0) + acc) 0 l.
Proof.
  intros Hle. induction l as [|e l IH]; [reflexivity|]. cbn [List.filter foldr]. destruct (TS e <? before) eqn:Hold; cbn [negb foldr].
  - rewrite IH. assert ((from <=? TS e) = false) as -> by lia. cbn [andb]. lia.
  - by rewrite IH.
Qed.

Lemma delete_reads_alike before d st : reads_alike before d (delete_from before d st).
Proof.
  destruct st; split; try reflexivity; intros.
  - by apply raw_source_filter.
  - unfold LoadSpend. cbn [delete_from spend update]. apply map_eq. intros k. apply option_eq. intros n. rewrite !map_lookup_filter_Some. cbn [fst].
    split; [by intros [[H1 H2] H3]|]. intros [H1 H2]. split_and!; [done| |done]. by apply (open_not_closed before now).
Qed.

(** C27: retention never changes what is still read. However far [PurgeUsage] of
    what is older than [before] came, the spend of every window that is open at
    [before] or later is loaded as if it had not run, a report of the log that
    starts no earlier counts the same, the totals per day, the bills, the plans
    and the credit stay as they were, and every spend window it deleted had
    ended by [before]. *)
Theorem PurgeUsage_keeps d before fails : reads_alike before d (PurgeUsage d before fails) ∧
  (∀ ty id p start n, spend d !! (ty, id, p, start) = Some n → spend (PurgeUsage d before fails) !! (ty, id, p, start) = None →
    Period_Start p start = start → Period_Next p start <= before).
Proof.
  split.
  - unfold PurgeUsage. induction (take fails statements) as [|st sts IH] in d |- *; [reflexivity|]. cbn [foldl].
    etrans; [apply delete_reads_alike|apply IH].
  - intros ty id p start n Hn Hgone Hal. assert (closed_before before (ty, id, p, start) = true) as Hc.
    { destruct (closed_before _ _) eqn:Hc; [done|]. exfalso.
      assert (∀ sts d, spend d !! (ty, id, p, start) = Some n → spend (foldl (delete_from before) d sts) !! (ty, id, p, start) = Some n) as Hk.
      { induction sts as [|st sts IH]; intros d1 H1; [done|]. cbn [foldl]. apply IH. destruct st; try exact H1.
        cbn [delete_from spend update]. by apply map_lookup_filter_Some. }
      unfold PurgeUsage in Hgone. rewrite (Hk _ _ Hn) in Hgone. done. }
    assert (start < Period_Start p before) as Hlt.
    { unfold closed_before in Hc. repeat case_bool_decide; subst; cbn [andb orb] in Hc; rewrite ?orb_false_r in Hc; try done; by apply Z.ltb_lt in Hc. }
    pose proof (window_self p before) as Hb. pose proof (window_self p start) as Hs.
    destruct (decide (Period_Next p start <= before)) as [|Hgt]; [done|].
    assert (Period_Start p before = Period_Start p start) as E by (apply window_iff; lia). lia.
Qed.
