(* ===== verification/UsageHistory.v ===== *)
(** * The life of the usage log

    Everything that changes the usage log, in any order: batches of events,
    retention, and the deletion of keys, routers, projects and organisations.
    What budgets, reports and plans then read, against the events that were
    written. *)
From S2P Require Import Prelude GoTime Num Tenancy Pricing Guardrails Text Filters Routers RouterCheck.
From S2P Require Import Replies Guard Routing FilterChain Limiter Budgets Messages Call Control Credit Ledger Usage Retention.
Open Scope go_scope.

Implicit Types (d : book) (before : Z) (k : spendKey).

(** ** Histories *)

(** What the program does to the book. [CreditMoved] is any transaction of
    [Credit]; [KeyIssued] a new key. *)
Inductive change :=
  | Wrote (events : list UsageEvent)
  | Purged (before : Z) (fails : nat)
  | Ended (batches : list (gset string))
  | RouterDeleted (orgID alias : string)
  | ProjectDeleted (projectID : string)
  | OrgDeleted (orgID : string) (projects keys : gset string)
  | KeyIssued (id : string)
  | CreditMoved (b : bank).

(** [None]: Postgres refused it, and nothing changed. *)
Definition changed d (c : change) : option book :=
  match c with
  | Wrote events => writeBatch d events
  | Purged before fails => Some (PurgeUsage d before fails)
  | Ended batches => Some (PurgeEnded d batches)
  | RouterDeleted orgID alias => Some (DeleteRouter d orgID alias)
  | ProjectDeleted projectID => Some (DeleteProject d projectID)
  | OrgDeleted orgID projects keys => Some (DeleteOrg d orgID projects keys)
  | KeyIssued id => Some (d <| api_keys := {[ id ]} ∪ api_keys d |>)
  | CreditMoved b => Some (d <| credit := b |>)
  end.

Definition fresh (keys : gset string) (b : bank) : book :=
  {| usage_events := []; tool_calls := []; filter_runs := []; billing_lines := []; spend := ∅;
     usage_daily := ∅; plan_usage := ∅; api_keys := keys; credit := b |}.

(** The books a service can have, with how it came to them. *)
Inductive written (keys : gset string) : book → list change → Prop :=
  | written_none b : written keys (fresh keys b) []
  | written_change d h c d' : written keys d h → changed d c = Some d' → written keys d' (h ++ [c]).

(** The events written, in order. *)
Definition events_of (c : change) : list UsageEvent := match c with Wrote events => events | _ => [] end.

Definition log (h : list change) : list UsageEvent := flat_map events_of h.

Lemma log_snoc h c : log (h ++ [c]) = log h ++ events_of c.
Proof. unfold log. rewrite flat_map_app. cbn. by rewrite app_nil_r. Qed.

(** ** Which windows a change deletes *)

Definition deletes (c : change) k : bool :=
  match c with
  | Wrote _ | KeyIssued _ | CreditMoved _ => false
  | Purged before fails => (4 <=? fails)%nat && closed_before before k
  | Ended batches => existsb (λ gone, in_scope ScopeKey (owner_in gone) k) batches
  | RouterDeleted orgID alias => in_scope ScopeRouter (String.prefix (orgID +:+ "/" +:+ alias +:+ "/")) k
  | ProjectDeleted projectID => in_scope ScopeProject (owner_in {[ projectID ]}) k
  | OrgDeleted orgID projects keys =>
      in_scope ScopeOrg (owner_in {[ orgID ]}) k || in_scope ScopeProject (owner_in projects) k || in_scope ScopeKey (owner_in keys) k
  end.

(** The deletion of its scope, rather than of old windows. *)
Definition scope_deleted (c : change) k : bool := match c with Purged _ _ => false | _ => deletes c k end.

(** The events written since a window was last deleted. *)
Fixpoint since k (h : list change) (l : list UsageEvent) : list UsageEvent :=
  match h with
  | [] => l
  | c :: h => since k h (if deletes c k then [] else l ++ events_of c)
  end.

Lemma since_snoc k h c l : since k (h ++ [c]) l = if deletes c k then [] else since k h l ++ events_of c.
Proof. induction h as [|c0 h IH] in l |- *; cbn [app since]; [done|apply IH]. Qed.

Lemma since_all k h l : Forall (λ c, deletes c k = false) h → since k h l = l ++ log h.
Proof.
  induction h as [|c h IH] in l |- *; intros Hh; cbn [since]; [by rewrite app_nil_r|]. apply Forall_cons in Hh as [-> Hh].
  rewrite IH by done. unfold log. cbn [flat_map]. by rewrite <- app_assoc.
Qed.

(** ** The spend *)

Lemma clear_spend_lookup d ty owned k : spend (clear_spend d ty owned) !! k = if in_scope ty owned k then None else spend d !! k.
Proof.
  unfold clear_spend. cbn [spend update]. destruct (in_scope ty owned k) eqn:Hin.
  - apply map_lookup_filter_None_2. right. intros n _. cbn. by rewrite Hin.
  - destruct (spend d !! k) eqn:Hk; [by apply map_lookup_filter_Some_2|]. apply map_lookup_filter_None_2. by left.
Qed.

Lemma drop_keys_spend d gone : spend (drop_keys d gone) = spend d.
Proof. done. Qed.

Lemma PurgeEnded_lookup d batches k :
  spend (PurgeEnded d batches) !! k = if deletes (Ended batches) k then None else spend d !! k.
Proof.
  cbn [deletes]. unfold PurgeEnded. induction batches as [|gone batches IH] in d |- *; [done|]. cbn [foldl existsb].
  rewrite IH. unfold PurgeEnded_batch. rewrite clear_spend_lookup, drop_keys_spend. by destruct (in_scope _ _ _), (existsb _ _).
Qed.

Lemma PurgeUsage_lookup d before fails k :
  spend (PurgeUsage d before fails) !! k = if deletes (Purged before fails) k then None else spend d !! k.
Proof.
  cbn [deletes]. unfold PurgeUsage, statements. destruct fails as [|[|[|[|n]]]]; cbn [take foldl delete_from spend update Nat.leb andb]; [done..|].
  rewrite take_nil. cbn [foldl]. destruct (closed_before before k) eqn:Hc.
  - apply map_lookup_filter_None_2. right. intros m _. cbn. by rewrite Hc.
  - destruct (spend d !! k) eqn:Hk; [by apply map_lookup_filter_Some_2|]. apply map_lookup_filter_None_2. by left.
Qed.

Lemma deleted_lookup d c d' k : changed d c = Some d' → (∀ events, c ≠ Wrote events) →
  spend d' !! k = if deletes c k then None else spend d !! k.
Proof.
  intros H Hc. destruct c as [events| | | | | | |]; [by destruct (Hc events)|..]; cbn [changed] in H; simplify_eq; try done; [apply PurgeUsage_lookup|apply PurgeEnded_lookup|apply clear_spend_lookup..|].
  unfold DeleteOrg. cbn [deletes]. change (spend (_ <| credit := _ |>)) with
    (spend (clear_spend (clear_spend (clear_spend d ScopeOrg (owner_in {[ orgID ]})) ScopeProject (owner_in projects)) ScopeKey (owner_in keys))).
  rewrite !clear_spend_lookup. by repeat destruct (in_scope _ _ k).
Qed.

Lemma spend_since keys d h k : written keys d h → default 0 (spend d !! k) = wrap64 (sum_over (spent k) (since k h [])).
Proof.
  intros Hw. assert (default 0 (spend d !! k) ≡64 sum_over (spent k) (since k h []) ∧ in_int64 (default 0 (spend d !! k))) as (Heq & Hr).
  { induction Hw as [b|d h c d' Hw IH Hc]; [done|]. rewrite since_snoc.
    destruct c as [events| | | | | | |].
    2-8: rewrite (deleted_lookup d _ d' k Hc ltac:(done)); destruct (deletes _ k); [done|]; cbn [events_of]; by rewrite app_nil_r.
    cbn [deletes events_of]. destruct (writeBatch_some _ _ _ Hc) as (_ & _ & _ & Hs & _ & _ & _ & _ & Hfit & _). split.
    - rewrite Hs, queueSpend_sum, sum_over_app, addSpends_sum, (proj1 IH), lookup_empty. reflexivity.
    - destruct (spend d' !! k) as [n|] eqn:Hn; [exact (Hfit k n Hn)|]. cbn. int_range. }
  rewrite <- (wrap64_id _ Hr). by apply same64_wrap.
Qed.

(** A window that is open at [now]. *)
Definition open_at (now : Z) k : Prop :=
  let '(_, _, p, start) := k in (p = PeriodDay ∧ start = Period_Start PeriodDay now) ∨ (p = PeriodMonth ∧ start = Period_Start PeriodMonth now).

Lemma LoadSpend_open d now k : open_at now k → LoadSpend d now !! k = spend d !! k.
Proof.
  intros Ho. unfold LoadSpend. destruct (spend d !! k) eqn:Hk; [by apply map_lookup_filter_Some_2|].
  apply map_lookup_filter_None_2. by left.
Qed.

(** C25: the spend of a budget window is what the written events were charged in
    it since it was last deleted, in 64 bits, whatever batches, retention and
    deletions of keys, routers, projects and organisations came in whatever
    order. Retention deletes no open window: one that is open is loaded with all
    it was ever charged, unless its own scope was deleted, however often
    retention ran up to then. *)
Theorem spend_is_the_log keys d h k : written keys d h →
  default 0 (spend d !! k) = wrap64 (sum_over (spent k) (since k h [])) ∧
  ∀ now, open_at now k → (∀ before fails, Purged before fails ∈ h → before <= now) → Forall (λ c, scope_deleted c k = false) h →
    default 0 (LoadSpend d now !! k) = wrap64 (sum_over (spent k) (log h)).
Proof.
  intros Hw. split; [by apply (spend_since keys)|]. intros now Ho Hp Hs. rewrite LoadSpend_open, (spend_since keys d h k Hw) by done.
  rewrite since_all; [done|]. rewrite Forall_forall in Hs |- *. intros c Hc. specialize (Hs c Hc). destruct c as [|before fails| | | | | |]; try done.
  cbn [deletes]. rewrite (open_not_closed before now k (Hp before fails Hc) Ho). apply andb_false_r.
Qed.

(** ** The reports *)

Definition served (h : list change) : list UsageEvent := List.filter is_row (log h).

Lemma served_snoc h c : served (h ++ [c]) = served h ++ List.filter is_row (events_of c).
Proof. unfold served. by rewrite log_snoc, List.filter_app. Qed.

(** What an event adds to a report of the log. *)
Definition reported (from to : Z) (narrow : dailyKey → bool) (c : column) (e : UsageEvent) : Z :=
  if (from <=? TS e) && (TS e <? to) && narrow (daily_key e) then raw_column c e else 0.

Lemma raw_source_reported d from to narrow c : raw_source d from to narrow c = sum_over (reported from to narrow c) (usage_events d).
Proof. done. Qed.

Lemma reported_stored from to narrow c l : sum_over (reported from to narrow c) (stored <$> l) = sum_over (reported from to narrow c) l.
Proof.
  unfold sum_over. induction l as [|e l IH]; [done|]. rewrite fmap_cons. cbn [foldr]. rewrite IH. done.
Qed.

Lemma reported_counted from to narrow c l : Period_Start PeriodDay from = from → Period_Start PeriodDay to = to →
  sum_over (reported from to narrow c) l = sum_over (counted from to narrow c) l.
Proof.
  intros Hf Ht. unfold sum_over. induction l as [|e l IH]; [done|]. cbn [foldr]. rewrite IH. f_equal.
  unfold reported, counted. change (key_day (daily_key e)) with (Period_Start PeriodDay (TS e)). by rewrite (whole_days from to (TS e) Hf Ht).
Qed.

Lemma PurgeEnded_leaves d batches : usage_events (PurgeEnded d batches) = usage_events d ∧ usage_daily (PurgeEnded d batches) = usage_daily d.
Proof. unfold PurgeEnded. induction batches as [|gone batches IH] in d |- *; [done|]. cbn [foldl]. by destruct (IH (PurgeEnded_batch d gone)) as [-> ->]. Qed.

Lemma changed_daily d c d' : changed d c = Some d' → (∀ events, c ≠ Wrote events) → usage_daily d' = usage_daily d.
Proof.
  intros H Hc. destruct c as [events| | | | | | |]; [by destruct (Hc events)|..]; cbn [changed] in H; simplify_eq; try done; [|apply PurgeEnded_leaves].
  unfold PurgeUsage. generalize (take fails statements). intros sts. induction sts as [|st sts IH] in d |- *; [done|]. cbn [foldl]. rewrite IH. by destruct st.
Qed.

Lemma changed_events d c d' : changed d c = Some d' → (∀ events, c ≠ Wrote events) → (∀ before fails, c ≠ Purged before fails) →
  usage_events d' = usage_events d.
Proof. intros H Hw Hp. destruct c as [events|before fails| | | | | |]; [by destruct (Hw events)|by destruct (Hp before fails)|..]; cbn [changed] in H; simplify_eq; try done; apply PurgeEnded_leaves. Qed.

Lemma purged_reported d before fails from to narrow c : before <= from →
  raw_source (PurgeUsage d before fails) from to narrow c = raw_source d from to narrow c.
Proof.
  intros Hle. unfold PurgeUsage. generalize (take fails statements). intros sts. induction sts as [|st sts IH] in d |- *; [done|]. cbn [foldl].
  rewrite IH. by apply (alike_raw _ _ _ (delete_reads_alike before d st)).
Qed.

(** The totals per day hold every row ever written. *)
Lemma daily_holds_all keys d h from to narrow c : written keys d h →
  daily_source d from to narrow c ≡64 sum_over (counted from to narrow c) (served h).
Proof.
  intros Hw. rewrite daily_source_sum. induction Hw as [b|d h ch d' Hw IH Hc]; [reflexivity|].
  rewrite served_snoc, sum_over_app. destruct ch as [events| | | | | | |];
    [|rewrite (changed_daily d _ d' Hc ltac:(done)); cbn [events_of List.filter]; by rewrite Z.add_0_r..].
  destruct (writeBatch_some _ _ _ Hc) as (_ & _ & _ & _ & Hdaily & _). rewrite Hdaily, queueDaily_sum, IH, addDailies_sum. reflexivity.
Qed.

(** The log holds every row written of what no purge was old enough for. *)
Lemma log_holds_recent keys d h from to narrow c : written keys d h → (∀ before fails, Purged before fails ∈ h → before <= from) →
  raw_source d from to narrow c = sum_over (reported from to narrow c) (served h).
Proof.
  induction 1 as [b|d h ch d' Hw IH Hc]; intros Hp; [done|]. rewrite served_snoc, sum_over_app.
  assert (raw_source d from to narrow c = sum_over (reported from to narrow c) (served h)) as <-.
  { apply IH. intros before fails Hin. apply (Hp before fails), elem_of_app. by left. }
  destruct ch as [events|before fails| | | | | |]; cbn [events_of List.filter sum_over foldr].
  3-8: by rewrite Z.add_0_r, !raw_source_reported, (changed_events d _ d' Hc ltac:(done) ltac:(done)).
  - destruct (writeBatch_some _ _ _ Hc) as (Hu & _). rewrite !raw_source_reported, Hu, sum_over_app, reported_stored. done.
  - cbn [changed] in Hc. simplify_eq. rewrite Z.add_0_r. apply purged_reported, (Hp before fails), elem_of_app. right. by apply list_elem_of_singleton.
Qed.

(** The window a report of more than two days covers. *)
Lemma DayWindow_covers from to : dailyAfter < to - from →
  ∃ f t, DayWindow from to = (f, t, true) ∧ DayWindow f t = (f, t, true) ∧
    Period_Start PeriodDay f = f ∧ Period_Start PeriodDay t = t ∧ f <= from ∧ to <= t < to + Day.
Proof.
  intros Hlt. rewrite DayWindow_daily by done. set (t := if Period_Start PeriodDay to <? to then (_ : Z) else (_ : Z)).
  assert (Period_Start PeriodDay t = t) as Ht.
  { unfold t. destruct (_ <? to); [apply Period_Start_Next|apply Period_Start_idem]. }
  pose proof (window_self PeriodDay to) as Hto. pose proof (window_self PeriodDay from) as Hfrom.
  assert (to <= t < to + Day) as Hin.
  { unfold t. rewrite Period_Next_day in *. rewrite Period_Start_day in *.
    change (next_window_day PeriodDay (day_of to)) with (day_of to + 1) in *. change (window_day PeriodDay (day_of to)) with (day_of to) in *.
    assert (0 < Day) by done. destruct ((day_of to - unix_day) * Day <? to) eqn:E; lia. }
  exists (Period_Start PeriodDay from), t. split_and!; [done| |apply Period_Start_idem|done|lia..].
  rewrite DayWindow_daily by lia. rewrite Period_Start_idem, Ht. by replace (t <? t) with false by lia.
Qed.

(** C22: a report counts the rows written in the window it says it covers: the
    requests, the refused, the failed, the tokens and the money, of whichever
    rows it is narrowed to. One over more than two days, which reads the totals
    per day, counts every row ever written, whatever retention and deletions
    came between: reports outlive the request log. One of two days or less,
    which reads the request log, counts them as long as no retention was to
    delete rows as young as its window; and then the log counts the same as
    either source. A report over more than two days covers the whole UTC days
    of the window asked for and ends within a day of it, a shorter one the
    window itself; and asking for the window covered gives it again. *)
Theorem reports_agree keys d h from to narrow c : written keys d h →
  let '(f, t, total) := report_total d from to narrow c in
  (dailyAfter < to - from ∨ (∀ before fails, Purged before fails ∈ h → before <= f) → total ≡64 sum_over (reported f t narrow c) (served h)) ∧
  ((∀ before fails, Purged before fails ∈ h → before <= f) → total ≡64 raw_source d f t narrow c) ∧
  DayWindow f t = (f, t, negb (to - from <=? dailyAfter)) ∧
  if to - from <=? dailyAfter then f = from ∧ t = to else f <= from ∧ to <= t < to + Day.
Proof.
  intros Hw. unfold report_total. destruct (to - from <=? dailyAfter) eqn:Hle.
  - assert (DayWindow from to = (from, to, false)) as E by (unfold DayWindow; rewrite Hle; reflexivity).
    rewrite E. apply Z.leb_le in Hle. split_and!; [|done..]. intros [|Hp]; [lia|]. by rewrite (log_holds_recent keys d h).
  - apply Z.leb_gt in Hle. destruct (DayWindow_covers from to Hle) as (f & t & -> & Hagain & Hf & Ht & Hft).
    pose proof (daily_holds_all keys d h f t narrow c Hw) as Hd. rewrite <- reported_counted in Hd by done.
    split_and!; [done| |done|apply Hft..]. intros Hp. by rewrite (log_holds_recent keys d h).
Qed.

(** ** The plans *)

Definition key_deleted (c : change) (id : string) : bool :=
  match c with Ended batches => existsb (λ gone, bool_decide (id ∈ gone)) batches | OrgDeleted _ _ keys => bool_decide (id ∈ keys) | _ => false end.

Lemma drop_keys_keeps d gone id : id ∉ gone →
  (id ∈ api_keys (drop_keys d gone) ↔ id ∈ api_keys d) ∧ plan_usage (drop_keys d gone) !! id = plan_usage d !! id.
Proof.
  intros Hid. split; [cbn; set_solver|]. cbn [plan_usage drop_keys update]. apply option_eq. intros p. rewrite map_lookup_filter_Some. naive_solver.
Qed.

Lemma PurgeEnded_keeps_key d batches id : existsb (λ gone, bool_decide (id ∈ gone)) batches = false →
  (id ∈ api_keys (PurgeEnded d batches) ↔ id ∈ api_keys d) ∧ plan_usage (PurgeEnded d batches) !! id = plan_usage d !! id.
Proof.
  unfold PurgeEnded. induction batches as [|gone batches IH] in d |- *; [done|]. cbn [existsb foldl]. intros [Hg Hb]%orb_false_iff.
  apply bool_decide_eq_false in Hg. destruct (IH (PurgeEnded_batch d gone) Hb) as [-> ->]. by apply (drop_keys_keeps d gone).
Qed.

Lemma keeps_key d c d' id : changed d c = Some d' → (∀ events, c ≠ Wrote events) → key_deleted c id = false → id ∈ api_keys d →
  id ∈ api_keys d' ∧ plan_usage d' !! id = plan_usage d !! id.
Proof.
  intros H Hc Hd Hid. destruct c as [events|before fails|batches| | |orgID projects gone| |]; [by destruct (Hc events)|..]; cbn [changed] in H; simplify_eq; try done.
  - unfold PurgeUsage. generalize (take fails statements). intros sts. induction sts as [|st sts IH] in d, Hid |- *; [done|]. cbn [foldl].
    destruct (IH (delete_from before d st)) as [? ->]; by destruct st.
  - destruct (PurgeEnded_keeps_key d batches id Hd) as [-> ->]. done.
  - apply bool_decide_eq_false in Hd. destruct (drop_keys_keeps (clear_spend (clear_spend (clear_spend d ScopeOrg (owner_in {[ orgID ]}))
      ScopeProject (owner_in projects)) ScopeKey (owner_in gone)) gone id Hd) as [Hk Hp]. split; [by apply Hk|exact Hp].
  - split; [cbn; set_solver|done].
Qed.

(** The plan usage of a key is the newest any event read, in whatever order
    the batches came, for as long as the key is there. *)
Theorem plans_are_newest keys d h id : written keys d h → id ∈ keys → id ≠ "" → Forall (λ c, key_deleted c id = false) h →
  newest (plan_usage d) (log h) id.
Proof.
  intros Hw Hin Hid Hh. assert (id ∈ api_keys d ∧ newest (plan_usage d) (log h) id) as [_ H]; [|done].
  induction Hw as [b|d h c d' Hw IH Hc]; [by split; [done|split; [done|by intros p (e & He%not_elem_of_nil & _)]]|].
  apply Forall_app in Hh as [Hh Hlast]. rewrite Forall_singleton in Hlast. destruct (IH Hh) as [Hk Hn]. rewrite log_snoc.
  destruct c as [events| | | | | | |]; [|destruct (keeps_key d _ d' id Hc ltac:(done) Hlast Hk) as [Hk' Hp]; cbn [events_of]; rewrite app_nil_r;
    (split; [exact Hk'|]); unfold newest; rewrite Hp; exact Hn..].
  destruct (writeBatch_some _ _ _ Hc) as (_ & _ & _ & _ & _ & Hp & -> & _). split; [done|]. rewrite Hp. cbn [events_of].
  apply queuePlans_newest; [done..|]. apply (addPlans_newest events ∅ [] id Hid). split; [done|by intros p (e & He%not_elem_of_nil & _)].
Qed.
