(* ===== verification/UsageWrites.v ===== *)
(** * What a write of usage events leaves

    [WriteEvents] of [internal/store/usage.go], over every answer Postgres can
    give to its batches: what was written once it has answered, and that no
    bill is written twice, whether an answer is lost or the gateway dies
    between two batches. *)
From S2P Require Import Prelude GoTime Num Tenancy Pricing Guardrails Text Filters Routers RouterCheck.
From S2P Require Import Replies Guard Routing FilterChain Limiter Budgets Messages Call Control Credit Ledger Usage.
Open Scope go_scope.

Implicit Types (e : UsageEvent) (events : list UsageEvent).

Abbreviation write_trace := (list (Control.event (R := write_answer))).

(** ** What a run wrote *)

(** The events of a call that committed, and of one that may have: its answer
    was lost. *)
Definition committed_by (ev : Control.event (R := write_answer)) : list UsageEvent :=
  match ev with existT (Db_writeBatch events) None => events | _ => [] end.

Definition landed_by (ev : Control.event (R := write_answer)) : list UsageEvent :=
  match ev with existT (Db_writeBatch _) (Some Refused) => [] | existT (Db_writeBatch events) _ => events end.

Definition committed (tr : write_trace) : list UsageEvent := flat_map committed_by tr.
Definition landed (tr : write_trace) : list UsageEvent := flat_map landed_by tr.

Definition unanswered (tr : write_trace) : Prop := ∃ events, answered (Db_writeBatch events) (Some Unknown) ∈ tr.

(** What became of one event: written, its bills written without its usage
    row, or refused. *)
Inductive fate := Whole | Alone | Gone.

#[export] Instance fate_eq_dec : EqDecision fate.
Proof. solve_decision. Defined.

Definition left_of (f : fate) e : list UsageEvent := match f with Whole => [e] | Alone => [bills_alone e] | Gone => [] end.

Definition lost_count (fs : list fate) : Z := Z.of_nat (length (List.filter (λ f, negb (bool_decide (f = Whole))) fs)).

(** The fates of a list of events leave [left]. *)
Inductive ended : list fate → list UsageEvent → list UsageEvent → Prop :=
  | ended_nil : ended [] [] []
  | ended_one f fs e events left : ended fs events left →
      (f = Alone → Bills e ≠ [] ∧ BillsOnly e = false) → ended (f :: fs) (e :: events) (left_of f e ++ left).

Lemma ended_whole events : ended (replicate (length events) Whole) events events.
Proof. induction events as [|e events IH]; cbn; [constructor|]. by apply (ended_one Whole _ e events events). Qed.

Lemma lost_count_cons f fs : lost_count (f :: fs) = (if bool_decide (f = Whole) then 0 else 1) + lost_count fs.
Proof. unfold lost_count. cbn. destruct (bool_decide _); cbn; lia. Qed.

Lemma lost_count_range fs : 0 <= lost_count fs <= Z.of_nat (length fs).
Proof. induction fs as [|f fs IH]; [done|]. rewrite lost_count_cons. cbn. destruct (bool_decide _); lia. Qed.

Lemma lost_count_none fs : lost_count fs = 0 → fs = replicate (length fs) Whole.
Proof.
  induction fs as [|f fs IH]; [done|]. rewrite lost_count_cons. pose proof (lost_count_range fs).
  case_bool_decide as Hf; intros Hz; [|lia]. cbn. rewrite Hf. f_equal. apply IH. lia.
Qed.

(** What a run that ended left, against what it answers. *)
Definition write_outcome (events : list UsageEvent) (tr : write_trace) (r : option write_error) : Prop :=
  match r with
  | None => committed tr = events ∧ ~ unanswered tr
  | Some (LostEvents n) => ∃ fs, ended fs events (committed tr) ∧ n = lost_count fs ∧ 0 < n ∧ ~ unanswered tr
  | Some WriteFailed => unanswered tr
  end.

(** ** One by one *)

Lemma unanswered_cons ev tr : unanswered (ev :: tr) ↔ (∃ events, ev = answered (Db_writeBatch events) (Some Unknown)) ∨ unanswered tr.
Proof. unfold unanswered. setoid_rewrite elem_of_cons. naive_solver. Qed.

Lemma unanswered_nil : ~ unanswered [].
Proof. by intros (events & ?%not_elem_of_nil). Qed.

Lemma answered_in_order {events x} : x ≠ Some Unknown → ~ (∃ events', answered (R := write_answer) (Db_writeBatch events) x = answered (Db_writeBatch events') (Some Unknown)).
Proof.
  intros Hx (events' & He). apply Hx. unfold answered in He.
  pose proof (f_equal (λ ev : Control.event, match ev with existT (Db_writeBatch _) y => y : option write_failure end) He) as Hy. exact Hy.
Qed.

Lemma unanswered_other events x tr : x ≠ Some Unknown →
  unanswered (answered (R := write_answer) (Db_writeBatch events) x :: tr) ↔ unanswered tr.
Proof. intros Hx. rewrite unanswered_cons. split; [|by right]. intros [H|H]; [|done]. by destruct (answered_in_order (events := events) Hx). Qed.

Lemma one_answer events x : x ≠ Some Unknown → ~ unanswered [answered (R := write_answer) (Db_writeBatch events) x].
Proof. intros Hx. rewrite unanswered_other by done. apply unanswered_nil. Qed.

Lemma two_answers events events' x y : x ≠ Some Unknown → y ≠ Some Unknown →
  ~ unanswered [answered (R := write_answer) (Db_writeBatch events) x; answered (Db_writeBatch events') y].
Proof. intros Hx Hy. rewrite !unanswered_other by done. apply unanswered_nil. Qed.

Lemma one_by_one_outcome events lost tr r : steps (one_by_one events lost) tr (Ret r) → 0 <= lost →
  match r with
  | None => lost = 0 ∧ committed tr = events ∧ ~ unanswered tr
  | Some (LostEvents n) => ∃ fs, ended fs events (committed tr) ∧ n = lost + lost_count fs ∧ 0 < n ∧ ~ unanswered tr
  | Some WriteFailed => unanswered tr
  end.
Proof.
  induction events as [|e events IH] in lost, tr |- *; intros Hs Hl.
  { apply steps_inv in Hs as (-> & [= ->]). destruct (0 <? lost) eqn:Hlt.
    - exists []. split_and!; [exact ended_nil|change (lost_count []) with 0; lia|lia|apply unanswered_nil].
    - split_and!; [lia|done|apply unanswered_nil]. }
  apply steps_inv in Hs as [(-> & [=])|(x & tr' & -> & Hs)]. cbn [mbind prog_mbind prog_bind] in Hs.
  assert (∀ f evs tr2, committed (evs ++ tr2) = left_of f e ++ committed tr2 → ~ unanswered evs →
    (f = Alone → Bills e ≠ [] ∧ BillsOnly e = false) → steps (one_by_one events (lost + if bool_decide (f = Whole) then 0 else 1)) tr2 (Ret r) →
    match r with
    | None => lost = 0 ∧ committed (evs ++ tr2) = e :: events ∧ ~ unanswered (evs ++ tr2)
    | Some (LostEvents n) => ∃ fs, ended fs (e :: events) (committed (evs ++ tr2)) ∧ n = lost + lost_count fs ∧ 0 < n ∧ ~ unanswered (evs ++ tr2)
    | Some WriteFailed => unanswered (evs ++ tr2)
    end) as Hgo.
  { intros f evs tr2 Hc Hu Hf Hs2.
    assert (unanswered (evs ++ tr2) ↔ unanswered tr2) as Hiff.
    { unfold unanswered in *. setoid_rewrite elem_of_app. naive_solver. }
    specialize (IH _ _ Hs2). rewrite Hc. destruct r as [[n|]|].
    - destruct IH as (fs & He & -> & Hn & Hun); [case_bool_decide; lia|]. exists (f :: fs).
      split_and!; [by apply ended_one|rewrite lost_count_cons; lia|done|by rewrite Hiff].
    - apply Hiff, IH. case_bool_decide; lia.
    - destruct IH as (H0 & -> & Hun); [case_bool_decide; lia|]. case_bool_decide as Hw; [subst f|lia].
      split_and!; [lia|done|by rewrite Hiff]. }
  destruct x as [[|]|].
  - destruct (negb _ && negb _) eqn:Hb.
    + apply andb_true_iff in Hb as [Hb1 Hb2]. apply negb_true_iff in Hb1, Hb2. apply bool_decide_eq_false in Hb1.
      apply steps_inv in Hs as [(-> & [=])|(y & tr2 & -> & Hs)]. cbn [mbind prog_mbind prog_bind] in Hs.
      destruct y as [[|]|].
      * apply (Hgo Gone [_; _] tr2); [done| |done|done]. apply two_answers; done.
      * apply steps_inv in Hs as (-> & [= ->]). exists [bills_alone e]. right; left.
      * apply (Hgo Alone [_; _] tr2); [done| |done|done]. apply two_answers; done.
    + apply (Hgo Gone [_] tr'); [done| |done|done]. by apply one_answer.
  - apply steps_inv in Hs as (-> & [= ->]). exists [e]. left.
  - apply (Hgo Whole [_] tr'); [done| |done|by rewrite Z.add_0_r]. by apply one_answer.
Qed.

(** What [WriteEvents] answers is what happened: no error means every event is
    in the database, once; [LostEvents n] that [n] of them are not, each with its
    bills alone or not at all; any other error that some answer was lost. *)
Theorem WriteEvents_outcome events tr r : steps (WriteEvents events) tr (Ret r) → write_outcome (clean <$> events) tr r.
Proof.
  unfold WriteEvents. destruct events as [|e0 events0]; [intros (-> & [= ->])%steps_inv; split; [done|apply unanswered_nil]|].
  set (events := e0 :: events0). clearbody events. intros Hs.
  apply steps_inv in Hs as [(-> & [=])|(x & tr' & -> & Hs)]. cbn [mbind prog_mbind prog_bind] in Hs. destruct x as [[|]|].
  - pose proof (one_by_one_outcome _ _ _ _ Hs ltac:(lia)) as Ho.
    assert (unanswered (answered (Db_writeBatch (clean <$> events)) (Some Refused) :: tr') ↔ unanswered tr') as Hiff.
    { by apply unanswered_other. }
    destruct r as [[n|]|]; cbn [write_outcome].
    + destruct Ho as (fs & ? & ? & ? & ?). exists fs. split_and!; [done|lia|done|by rewrite Hiff].
    + by apply Hiff.
    + destruct Ho as (_ & ? & ?). split; [done|by rewrite Hiff].
  - apply steps_inv in Hs as (-> & [= ->]). eexists. left.
  - apply steps_inv in Hs as (-> & [= ->]). split; [cbn; by rewrite app_nil_r|by apply one_answer].
Qed.

(** ** Never twice *)

Lemma one_by_one_once events lost tr p : steps (one_by_one events lost) tr p →
  flat_map bills_of (landed tr) `sublist_of` flat_map bills_of events.
Proof.
  induction events as [|e events IH] in lost, tr |- *; intros Hs; [by apply steps_inv in Hs as (-> & _)|].
  apply steps_inv in Hs as [(-> & _)|(x & tr' & -> & Hs)]; [apply sublist_nil_l|]. cbn [mbind prog_mbind prog_bind] in Hs.
  assert (∀ l tr2, l `sublist_of` bills_of e → flat_map bills_of (landed tr2) `sublist_of` flat_map bills_of events →
    l ++ flat_map bills_of (landed tr2) `sublist_of` flat_map bills_of (e :: events)) as Hadd by (intros; by apply sublist_app).
  destruct x as [[|]|].
  - destruct (negb _ && negb _); [|apply (Hadd [] tr'); [apply sublist_nil_l|by apply (IH _ _ Hs)]].
    apply steps_inv in Hs as [(-> & _)|(y & tr2 & -> & Hs)]; [apply sublist_nil_l|]. cbn [mbind prog_mbind prog_bind] in Hs.
    destruct y as [[|]|].
    + apply (Hadd [] tr2); [apply sublist_nil_l|by apply (IH _ _ Hs)].
    + apply steps_inv in Hs as (-> & _). apply (Hadd (bills_of e) []); [done|apply sublist_nil_l].
    + apply (Hadd (bills_of e) tr2); [done|by apply (IH _ _ Hs)].
  - apply steps_inv in Hs as (-> & _). apply (Hadd (bills_of e) []); [done|apply sublist_nil_l].
  - apply (Hadd (bills_of e) tr'); [done|by apply (IH _ _ Hs)].
Qed.

(** No bill is written twice, wherever the run stopped, with the batches whose
    answer was lost counted as written. *)
Theorem WriteEvents_once events tr p : steps (WriteEvents events) tr p →
  flat_map bills_of (landed tr) `sublist_of` flat_map bills_of (clean <$> events).
Proof.
  unfold WriteEvents. destruct events as [|e0 events0]; [by intros (-> & _)%steps_inv|].
  set (events := e0 :: events0). clearbody events. intros Hs.
  apply steps_inv in Hs as [(-> & _)|(x & tr' & -> & Hs)]; [apply sublist_nil_l|]. cbn [mbind prog_mbind prog_bind] in Hs. destruct x as [[|]|].
  - exact (one_by_one_once _ _ _ _ Hs).
  - apply steps_inv in Hs as (-> & _). cbn. by rewrite app_nil_r.
  - apply steps_inv in Hs as (-> & _). cbn. by rewrite app_nil_r.
Qed.

(** ** The calls, in order *)

Abbreviation wrote events x := (answered (R := write_answer) (Db_writeBatch events) x).

(** An event that keeps its bills when its row is refused. *)
Definition keeps_bills e : Prop := Bills e ≠ [] ∧ BillsOnly e = false.

(** The calls for one event on its own, and what became of it. *)
Inductive retried e : fate → write_trace → Prop :=
  | retried_whole : retried e Whole [wrote [e] None]
  | retried_alone : keeps_bills e → retried e Alone [wrote [e] (Some Refused); wrote [bills_alone e] None]
  | retried_billed : keeps_bills e → retried e Gone [wrote [e] (Some Refused); wrote [bills_alone e] (Some Refused)]
  | retried_gone : ~ keeps_bills e → retried e Gone [wrote [e] (Some Refused)].

(** Those for an event whose answer was lost. *)
Inductive cut_off e : write_trace → Prop :=
  | cut_off_whole : cut_off e [wrote [e] (Some Unknown)]
  | cut_off_alone : keeps_bills e → cut_off e [wrote [e] (Some Refused); wrote [bills_alone e] (Some Unknown)].

Inductive retries : list UsageEvent → list fate → write_trace → Prop :=
  | retries_nil : retries [] [] []
  | retries_cons e events f fs tr tr' : retried e f tr → retries events fs tr' → retries (e :: events) (f :: fs) (tr ++ tr').

(** The calls of a write that ended with an answer: the whole batch first; when
    Postgres refuses it, one event after the other, to the end or up to an
    answer that was lost. *)
Inductive write_run (batch : list UsageEvent) : write_trace → option write_error → Prop :=
  | run_written : write_run batch [wrote batch None] None
  | run_unanswered : write_run batch [wrote batch (Some Unknown)] (Some WriteFailed)
  | run_retried fs tr : retries batch fs tr →
      write_run batch (wrote batch (Some Refused) :: tr) (if 0 <? lost_count fs then Some (LostEvents (lost_count fs)) else None)
  | run_cut_off before e after fs tr last : batch = before ++ e :: after → retries before fs tr → cut_off e last →
      write_run batch (wrote batch (Some Refused) :: tr ++ last) (Some WriteFailed).

Lemma keeps_bills_spec e : negb (bool_decide (Bills e = [])) && negb (BillsOnly e) = true ↔ keeps_bills e.
Proof. unfold keeps_bills. rewrite andb_true_iff, !negb_true_iff, bool_decide_eq_false. done. Qed.

(** What follows an event that was retried. *)
Lemma retries_after e f tr1 lost events tr r : retried e f tr1 →
  (∃ fs, retries events fs tr ∧ r = (if 0 <? lost + (if bool_decide (f = Whole) then 0 else 1) + lost_count fs
      then Some (LostEvents (lost + (if bool_decide (f = Whole) then 0 else 1) + lost_count fs)) else None)) ∨
  (∃ before e' after fs tr' last, events = before ++ e' :: after ∧ retries before fs tr' ∧ cut_off e' last ∧ tr = tr' ++ last ∧ r = Some WriteFailed) →
  (∃ fs, retries (e :: events) fs (tr1 ++ tr) ∧ r = (if 0 <? lost + lost_count fs then Some (LostEvents (lost + lost_count fs)) else None)) ∨
  (∃ before e' after fs tr' last, e :: events = before ++ e' :: after ∧ retries before fs tr' ∧ cut_off e' last ∧ tr1 ++ tr = tr' ++ last ∧ r = Some WriteFailed).
Proof.
  intros H1 [(fs & H & ->)|(before & e' & after & fs & tr' & last & -> & H & Hc & -> & ->)].
  - left. exists (f :: fs). split; [by constructor|]. by rewrite lost_count_cons, Z.add_assoc.
  - right. exists (e :: before), e', after, (f :: fs), (tr1 ++ tr'), last. split_and!; [done|by constructor|done|by rewrite app_assoc|done].
Qed.

Lemma one_by_one_calls events lost tr r : steps (one_by_one events lost) tr (Ret r) →
  (∃ fs, retries events fs tr ∧ r = (if 0 <? lost + lost_count fs then Some (LostEvents (lost + lost_count fs)) else None)) ∨
  (∃ before e after fs tr' last, events = before ++ e :: after ∧ retries before fs tr' ∧ cut_off e last ∧ tr = tr' ++ last ∧ r = Some WriteFailed).
Proof.
  induction events as [|e events IH] in lost, tr |- *; intros Hs.
  { apply steps_inv in Hs as (-> & [= ->]). left. exists []. split; [constructor|]. change (lost_count []) with 0. by rewrite Z.add_0_r. }
  apply steps_inv in Hs as [(-> & [=])|(x & tr' & -> & Hs)]. cbn [mbind prog_mbind prog_bind] in Hs.
  assert (∀ last, cut_off e last → r = Some WriteFailed →
    ∃ before e' after fs tr2 last', e :: events = before ++ e' :: after ∧ retries before fs tr2 ∧ cut_off e' last' ∧ last = tr2 ++ last' ∧ r = Some WriteFailed) as Hcut.
  { intros last Hl Hr. exists [], e, events, [], [], last. split_and!; [done|constructor|done..]. }
  destruct x as [[|]|].
  - destruct (negb _ && negb _) eqn:Hb.
    + apply keeps_bills_spec in Hb. apply steps_inv in Hs as [(-> & [=])|(y & tr2 & -> & Hs)]. cbn [mbind prog_mbind prog_bind] in Hs.
      destruct y as [[|]|].
      * apply (retries_after e Gone [_; _] lost events tr2); [by apply retried_billed|by apply IH].
      * apply steps_inv in Hs as (-> & [= ->]). right. apply Hcut; [by apply cut_off_alone|done].
      * apply (retries_after e Alone [_; _] lost events tr2); [by apply retried_alone|by apply IH].
    + apply (retries_after e Gone [_] lost events tr'); [|by apply IH]. apply retried_gone. intros Hk%keeps_bills_spec. congruence.
  - apply steps_inv in Hs as (-> & [= ->]). right. apply Hcut; [by apply cut_off_whole|done].
  - apply (retries_after e Whole [_] lost events tr'); [by apply retried_whole|]. cbn. rewrite Z.add_0_r. by apply IH.
Qed.

Lemma WriteEvents_calls events tr r : events ≠ [] → steps (WriteEvents events) tr (Ret r) → write_run (clean <$> events) tr r.
Proof.
  unfold WriteEvents. destruct events as [|e0 events0]; [done|]. intros _. set (events := e0 :: events0). clearbody events. intros Hs.
  apply steps_inv in Hs as [(-> & [=])|(x & tr' & -> & Hs)]. cbn [mbind prog_mbind prog_bind] in Hs. destruct x as [[|]|].
  - destruct (one_by_one_calls _ _ _ _ Hs) as [(fs & H & ->)|(before & e & after & fs & tr2 & last & He & H & Hc & -> & ->)].
    + by apply run_retried.
    + by eapply run_cut_off.
  - apply steps_inv in Hs as (-> & [= ->]). apply run_unanswered.
  - apply steps_inv in Hs as (-> & [= ->]). apply run_written.
Qed.

(** C23: a batch of events is written whole, and one that Postgres refuses is retried event
    by event: each that is refused again is written once more with its bills
    alone, if it has any, and then the next one is tried, up to the end or to an
    answer that is lost. The answer of [WriteEvents] is what happened: no error
    means every event is in the database, once; [LostEvents n] that exactly [n]
    of them are not, each with its bills alone or not at all, and the others are;
    any other error that some answer was lost. And no bill is written twice, with
    the lost answers counted as written. *)
Theorem WriteEvents_tells events tr r : events ≠ [] → steps (WriteEvents events) tr (Ret r) →
  write_run (clean <$> events) tr r ∧
  write_outcome (clean <$> events) tr r ∧ flat_map bills_of (landed tr) `sublist_of` flat_map bills_of (clean <$> events).
Proof. intros Hne Hs. split_and!; [exact (WriteEvents_calls _ _ _ Hne Hs)|exact (WriteEvents_outcome _ _ _ Hs)|exact (WriteEvents_once _ _ _ Hs)]. Qed.
