(* ===== verification/Recorder.v ===== *)
(** * The recorder of usage events

    [internal/usage/recorder.go]: requests hand their usage events to two
    bounded queues, and one goroutine writes them in batches. The steps are the
    ones of the goroutines: [Record]'s callers, [Run]'s loop, its drain, and
    the database calls of a flush, in any interleaving. The timers and the
    cancelled context are the environment's, so they may fire at any step. *)
From S2P Require Import Prelude GoTime Num Tenancy Pricing Guardrails Text Filters Routers RouterCheck.
From S2P Require Import Replies Guard Routing FilterChain Limiter Budgets Messages Call Control Credit Ledger Usage UsageWrites.
Open Scope go_scope.

Implicit Types (e : UsageEvent).

(** ** Options *)

Record Options := {
  Buffer : Z;
  BatchSize : Z;
  FlushInterval : Z;
  BlockFor : Z;
  WriteTimeout : Z;
}.

Definition positive_or (n d : Z) : Z := if n <=? 0 then d else n.

Definition setDefaults (o : Options) : Options :=
  {| Buffer := positive_or (Buffer o) 8192; BatchSize := positive_or (BatchSize o) 256;
     FlushInterval := positive_or (FlushInterval o) (250 * Millisecond); BlockFor := positive_or (BlockFor o) (100 * Millisecond);
     WriteTimeout := positive_or (WriteTimeout o) (10 * Second) |}.

(** ** State *)

(** A goroutine in [Record]: before the first [select], before it looks at
    [failing], and in the second [select]. *)
Inductive caller := Calling (e : UsageEvent) | Full (e : UsageEvent) | Waiting (e : UsageEvent).

Definition caller_event (c : caller) : UsageEvent := match c with Calling e | Full e | Waiting e => e end.

(** Where [flush] returns to. *)
Inductive return_to := ToRun | ToDrain | ToEnd.

(** Where [Run] is: at the two [select]s of its loop, in [drain]'s, in a
    flush with what is left of its write, or returned. *)
Inductive run_state :=
  | Top
  | Selecting
  | Draining
  | Flushing (p : prog write_answer (option write_error)) (back : return_to)
  | Stopped.

Record Recorder := {
  opts : Options;
  ch : list UsageEvent;
  billed : list UsageEvent;
  dropped : Z;
  failing : bool;
  written_ : Z;
  batch : list UsageEvent;
  at_ : run_state;
  callers : list caller;
}.

#[export] Instance Recorder_updatable : Updatable Recorder := λ r,
  {| opts := opts r; ch := ch r; billed := billed r; dropped := dropped r; failing := failing r; written_ := written_ r;
     batch := batch r; at_ := at_ r; callers := callers r |}.

Definition NewRecorder (o : Options) : Recorder :=
  {| opts := setDefaults o; ch := []; billed := []; dropped := 0; failing := false; written_ := 0; batch := []; at_ := Top; callers := [] |}.

(** ** [Record] *)

Definition has_bills e : bool := negb (bool_decide (Bills e = [])).

(** The queue of an event has room. *)
Definition has_room (r : Recorder) e : bool := Z.of_nat (length (if has_bills e then billed r else ch r)) <? Buffer (opts r).

Definition send (r : Recorder) e : Recorder := if has_bills e then r <| billed := billed r ++ [e] |> else r <| ch := ch r ++ [e] |>.

Definition drop (r : Recorder) : Recorder := r <| dropped := dropped r ⊕ 1 |>.

(** ** [Run] *)

Definition returned (back : return_to) : run_state := match back with ToRun => Top | ToDrain => Draining | ToEnd => Stopped end.

(** [flush], up to its write. *)
Definition flush (r : Recorder) (back : return_to) : Recorder :=
  match batch r with
  | [] => r <| at_ := returned back |>
  | _ => r <| at_ := Flushing (WriteEvents (batch r)) back |>
  end.

(** [flush], after its write. *)
Definition flushed (r : Recorder) (err : option write_error) (back : return_to) : Recorder :=
  let n := Z.of_nat (length (batch r)) in
  let r := match err with
           | Some (LostEvents lost) => r <| dropped := dropped r ⊕ lost |> <| written_ := written_ r ⊕ (n - lost) |> <| failing := false |>
           | Some WriteFailed => r <| dropped := dropped r ⊕ n |> <| failing := true |>
           | None => r <| written_ := written_ r ⊕ n |> <| failing := false |>
           end in
  r <| batch := [] |> <| at_ := returned back |>.

(** [add]. *)
Definition add (r : Recorder) e (back : return_to) : Recorder :=
  let r := r <| batch := batch r ++ [e] |> in
  if BatchSize (opts r) <=? Z.of_nat (length (batch r)) then flush r back else r <| at_ := returned back |>.

(** ** Steps *)

Inductive label :=
  | LRecord e
  | LQueue e
  | LDrop e
  | LTakeBilled e
  | LTake e
  | LCall (ev : Control.event (R := write_answer))
  | LFlush (events : list UsageEvent) (err : option write_error)
  | LCancel
  | LTau.

(** The callers' steps. *)
Inductive record_step : Recorder → label → Recorder → Prop :=
  | record_call r e : record_step r (LRecord e) (r <| callers := Calling e :: callers r |>)
  | record_send r l1 l2 c : callers r = l1 ++ c :: l2 → (∀ e, c ≠ Full e) → has_room r (caller_event c) = true →
      record_step r (LQueue (caller_event c)) ((send r (caller_event c)) <| callers := l1 ++ l2 |>)
  | record_full r l1 l2 e : callers r = l1 ++ Calling e :: l2 → has_room r e = false →
      record_step r LTau (r <| callers := l1 ++ Full e :: l2 |>)
  | record_failing r l1 l2 e : callers r = l1 ++ Full e :: l2 → failing r = true →
      record_step r (LDrop e) ((drop r) <| callers := l1 ++ l2 |>)
  | record_wait r l1 l2 e : callers r = l1 ++ Full e :: l2 → failing r = false →
      record_step r LTau (r <| callers := l1 ++ Waiting e :: l2 |>)
  | record_timeout r l1 l2 e : callers r = l1 ++ Waiting e :: l2 →
      record_step r (LDrop e) ((drop r) <| callers := l1 ++ l2 |>).

(** [Run]'s steps. *)
Inductive run_step : Recorder → label → Recorder → Prop :=
  | top_billed r e es : at_ r = Top → billed r = e :: es → run_step r (LTakeBilled e) (add (r <| billed := es |>) e ToRun)
  | top_none r : at_ r = Top → billed r = [] → run_step r LTau (r <| at_ := Selecting |>)
  | select_billed r e es : at_ r = Selecting → billed r = e :: es → run_step r (LTakeBilled e) (add (r <| billed := es |>) e ToRun)
  | select_ch r e es : at_ r = Selecting → ch r = e :: es → run_step r (LTake e) (add (r <| ch := es |>) e ToRun)
  | select_tick r : at_ r = Selecting → run_step r LTau (flush r ToRun)
  | select_done r : at_ r = Selecting → run_step r LCancel (r <| at_ := Draining |>)
  | drain_billed r e es : at_ r = Draining → billed r = e :: es → run_step r (LTakeBilled e) (add (r <| billed := es |>) e ToDrain)
  | drain_ch r e es : at_ r = Draining → ch r = e :: es → run_step r (LTake e) (add (r <| ch := es |>) e ToDrain)
  | drain_empty r : at_ r = Draining → billed r = [] → ch r = [] → run_step r LTau (flush r ToEnd)
  | write_call_answered r c k x back : at_ r = Flushing (Do c k) back → run_step r (LCall (answered c x)) (r <| at_ := Flushing (k x) back |>)
  | write_returned r err back : at_ r = Flushing (Ret err) back → run_step r (LFlush (batch r) err) (flushed r err back).

Definition step (r : Recorder) (l : label) (r' : Recorder) : Prop := record_step r l r' ∨ run_step r l r'.

Inductive runs : Recorder → list label → Recorder → Prop :=
  | runs_refl r : runs r [] r
  | runs_step r tr r' l r'' : runs r tr r' → step r' l r'' → runs r (tr ++ [l]) r''.

(** ** What a run did *)

Definition recorded_by (l : label) : list UsageEvent := match l with LRecord e => [e] | _ => [] end.
Definition dropped_by (l : label) : list UsageEvent := match l with LDrop e => [e] | _ => [] end.
Definition flushed_by (l : label) : list UsageEvent := match l with LFlush events _ => events | _ => [] end.
Definition called_by (l : label) : write_trace := match l with LCall ev => [ev] | _ => [] end.
Definition lost_by (l : label) : Z :=
  match l with
  | LFlush events None => 0
  | LFlush events (Some (LostEvents n)) => n
  | LFlush events (Some WriteFailed) => Z.of_nat (length events)
  | _ => 0
  end.

Definition recorded (tr : list label) := flat_map recorded_by tr.
Definition drops (tr : list label) := flat_map dropped_by tr.
Definition flushes (tr : list label) := flat_map flushed_by tr.
Definition calls (tr : list label) := flat_map called_by tr.
Definition lost (tr : list label) : Z := sum_over lost_by tr.

Lemma runs_front r l r' tr r'' : step r l r' → runs r' tr r'' → runs r (l :: tr) r''.
Proof.
  intros Hs Hr. induction Hr as [r'|r' tr r1 l1 r2 Hr IH Hs1]; [apply (runs_step _ [] r _ _ (runs_refl r) Hs)|].
  exact (runs_step _ (l :: tr) _ _ _ (IH Hs) Hs1).
Qed.

(** ** What every step keeps *)

(** The step is at an end of a list of labels. *)
Lemma labels_snoc {A} (f : label → list A) tr l : flat_map f (tr ++ [l]) = flat_map f tr ++ f l.
Proof. by rewrite flat_map_app; cbn; rewrite app_nil_r. Qed.

Lemma lost_snoc tr l : lost (tr ++ [l]) = lost tr + lost_by l.
Proof. unfold lost. rewrite sum_over_app. cbn. lia. Qed.

(** Every event a caller has, a queue holds or the batch collects. *)
Definition held (r : Recorder) : list UsageEvent := (caller_event <$> callers r) ++ ch r ++ billed r ++ batch r.

Lemma held_add r e back : held (add r e back) ≡ₚ held r ++ [e].
Proof. unfold add, flush. destruct (_ <=? _); [destruct (batch _) eqn:Hb; [by destruct (batch r)|]|]; unfold held; cbn; by rewrite <- !app_assoc. Qed.

Lemma held_flush r back : held (flush r back) = held r.
Proof. unfold flush. by destruct (batch r). Qed.

Lemma held_flushed r err back : held (flushed r err back) ++ batch r ≡ₚ held r.
Proof. unfold held. destruct err as [[|]|]; cbn; by rewrite app_nil_r, <- !app_assoc. Qed.

Lemma held_send r e l1 l2 c : callers r = l1 ++ c :: l2 → caller_event c = e →
  held ((send r e) <| callers := l1 ++ l2 |>) ≡ₚ held r.
Proof.
  intros Hc He. unfold held, send. rewrite Hc. destruct (has_bills e); cbn; rewrite !fmap_app; cbn; rewrite He; solve_Permutation.
Qed.

(** Nothing is lost on the way and nothing is counted twice: every event that
    was recorded is held, was handed to a write or was dropped. *)
Lemma step_held r l r' : step r l r' → recorded_by l ++ held r ≡ₚ held r' ++ flushed_by l ++ dropped_by l.
Proof.
  intros [Hs|Hs]; destruct Hs; cbn [recorded_by flushed_by dropped_by app]; rewrite ?app_nil_r.
  - done.
  - by rewrite held_send.
  - unfold held. rewrite H. cbn. by rewrite !fmap_app.
  - unfold held. rewrite H. cbn. rewrite !fmap_app. cbn. solve_Permutation.
  - unfold held. rewrite H. cbn. by rewrite !fmap_app.
  - unfold held. rewrite H. cbn. rewrite !fmap_app. cbn. solve_Permutation.
  - rewrite held_add. unfold held. cbn. rewrite H0. solve_Permutation.
  - done.
  - rewrite held_add. unfold held. cbn. rewrite H0. solve_Permutation.
  - rewrite held_add. unfold held. cbn. rewrite H0. solve_Permutation.
  - by rewrite held_flush.
  - done.
  - rewrite held_add. unfold held. cbn. rewrite H0. solve_Permutation.
  - rewrite held_add. unfold held. cbn. rewrite H0. solve_Permutation.
  - by rewrite held_flush.
  - done.
  - by rewrite held_flushed.
Qed.

Theorem all_accounted o tr r : runs (NewRecorder o) tr r → recorded tr ≡ₚ held r ++ flushes tr ++ drops tr.
Proof.
  intros Hr. remember (NewRecorder o) as r0 eqn:H0. induction Hr as [r|r tr r' l r'' Hr IH Hs]; [by subst|].
  specialize (IH H0). unfold recorded, flushes, drops in *. rewrite !labels_snoc, IH.
  pose proof (step_held _ _ _ Hs) as Hk. transitivity ((recorded_by l ++ held r') ++ flat_map flushed_by tr ++ flat_map dropped_by tr); [solve_Permutation|].
  rewrite Hk. solve_Permutation.
Qed.

(** *** Bounds *)

Definition fits (r : Recorder) : Prop :=
  0 < Buffer (opts r) ∧ 0 < BatchSize (opts r) ∧
  Z.of_nat (length (ch r)) <= Buffer (opts r) ∧ Z.of_nat (length (billed r)) <= Buffer (opts r) ∧
  Forall (λ e, Bills e = []) (ch r) ∧ Forall (λ e, Bills e ≠ []) (billed r) ∧
  match at_ r with
  | Flushing _ _ => 0 < Z.of_nat (length (batch r)) <= BatchSize (opts r)
  | Stopped => batch r = []
  | _ => Z.of_nat (length (batch r)) < BatchSize (opts r)
  end.

Lemma fits_new o : fits (NewRecorder o).
Proof.
  unfold fits, NewRecorder, setDefaults, positive_or. cbn. destruct (Buffer o <=? 0) eqn:Hb, (BatchSize o <=? 0) eqn:Hs; split_and!; (done || lia).
Qed.

Lemma length_snoc {A} (l : list A) a : Z.of_nat (length (l ++ [a])) = Z.of_nat (length l) + 1.
Proof. rewrite length_app. change (length [a]) with 1%nat. lia. Qed.

Lemma fits_add r e back : fits r → Z.of_nat (length (batch r)) < BatchSize (opts r) → back ≠ ToEnd → fits (add r e back).
Proof.
  intros (? & ? & ? & ? & ? & ? & _) Hlt Hb. pose proof (length_snoc (batch r) e) as Hn. unfold add, flush. cbn [update opts batch].
  destruct (_ <=? _) eqn:Hfull.
  - destruct (batch r ++ [e]) eqn:He; [by destruct (batch r)|]. rewrite <- He in *. unfold fits. cbn [opts ch billed batch at_ update].
    split_and!; (done || lia).
  - apply Z.leb_gt in Hfull. unfold fits. cbn [opts ch billed batch at_ update]. split_and!; try (done || lia). by destruct back.
Qed.

Lemma fits_flush r back : fits r → Z.of_nat (length (batch r)) < BatchSize (opts r) → fits (flush r back).
Proof.
  intros (? & ? & ? & ? & ? & ? & _) Hlt. unfold flush. destruct (batch r) as [|e es] eqn:Hb; unfold fits; cbn [opts ch billed batch at_ update]; rewrite Hb; split_and!; try (done || lia).
  by destruct back.
Qed.

Lemma fits_send r e : fits r → has_room r e = true → fits (send r e).
Proof.
  intros (? & ? & ? & ? & Hc & Hb & ?) Hroom. unfold has_room, send, has_bills in *. case_bool_decide as He; cbn [negb] in *; apply Z.ltb_lt in Hroom;
    unfold fits; cbn [opts ch billed batch at_ update]; rewrite length_snoc; split_and!; try (done || lia);
    apply Forall_app; split; by repeat constructor.
Qed.

Lemma fits_unqueue_billed r e es : fits r → billed r = e :: es → fits (r <| billed := es |>).
Proof.
  intros (? & ? & ? & Hl & ? & Hb & Ha) He. rewrite He in *. apply Forall_cons in Hb as [_ Hb]. cbn [length] in Hl.
  unfold fits. cbn. split_and!; (done || lia).
Qed.

Lemma fits_unqueue r e es : fits r → ch r = e :: es → fits (r <| ch := es |>).
Proof.
  intros (? & ? & Hl & ? & Hc & ? & Ha) He. rewrite He in *. apply Forall_cons in Hc as [_ Hc]. cbn [length] in Hl.
  unfold fits. cbn. split_and!; (done || lia).
Qed.

Lemma step_fits r l r' : step r l r' → fits r → fits r'.
Proof.
  intros [Hs|Hs]; destruct Hs; intros Hf; pose proof Hf as (? & ? & ? & ? & Hc & Hb & Ha).
  - done.
  - exact (fits_send _ _ Hf H1).
  - done.
  - done.
  - done.
  - done.
  - rewrite H in Ha. apply fits_add; [|done..]. by apply fits_unqueue_billed with e.
  - rewrite H in Ha. unfold fits. cbn. split_and!; (done || lia).
  - rewrite H in Ha. apply fits_add; [|done..]. by apply fits_unqueue_billed with e.
  - rewrite H in Ha. apply fits_add; [|done..]. by apply fits_unqueue with e.
  - rewrite H in Ha. by apply fits_flush.
  - rewrite H in Ha. unfold fits. cbn. split_and!; (done || lia).
  - rewrite H in Ha. apply fits_add; [|done..]. by apply fits_unqueue_billed with e.
  - rewrite H in Ha. apply fits_add; [|done..]. by apply fits_unqueue with e.
  - rewrite H in Ha. by apply fits_flush.
  - rewrite H in Ha. unfold fits. cbn. split_and!; (done || lia).
  - unfold fits, flushed. destruct err as [[|]|], back; cbn; split_and!; (done || lia).
Qed.

(** The queues and the batch never grow past their sizes, and no unbilled event
    is in the way of a billed one. *)
Theorem queues_bounded o tr r : runs (NewRecorder o) tr r → fits r.
Proof.
  intros Hr. remember (NewRecorder o) as r0 eqn:H0. induction Hr as [r|r tr r' l r'' Hr IH Hs]; [subst; apply fits_new|].
  exact (step_fits _ _ _ Hs (IH H0)).
Qed.

(** *** The counters *)

Lemma flush_counts r back : dropped (flush r back) = dropped r ∧ written_ (flush r back) = written_ r.
Proof. unfold flush. by destruct (batch r). Qed.

Lemma add_counts r e back : dropped (add r e back) = dropped r ∧ written_ (add r e back) = written_ r.
Proof. unfold add. destruct (_ <=? _); [|done]. exact (flush_counts (r <| batch := batch r ++ [e] |>) back). Qed.

Lemma send_counts r e : dropped (send r e) = dropped r ∧ written_ (send r e) = written_ r.
Proof. unfold send. by destruct (has_bills e). Qed.

Lemma step_counters r l r' : step r l r' →
  dropped r' ≡64 dropped r + (Z.of_nat (length (dropped_by l)) + lost_by l) ∧
  written_ r' ≡64 written_ r + (Z.of_nat (length (flushed_by l)) - lost_by l).
Proof.
  assert (∀ r r' : Recorder, dropped r' = dropped r ∧ written_ r' = written_ r → dropped r' ≡64 dropped r + (0 + 0) ∧ written_ r' ≡64 written_ r + (0 - 0)) as Hsame.
  { intros r1 r2 [-> ->]. split; by_eq64. }
  assert (∀ r, dropped (drop r) ≡64 dropped r + (1 + 0) ∧ written_ (drop r) ≡64 written_ r + (0 - 0)) as Hdrop.
  { intros r1. unfold drop. cbn. rewrite add64_same. split; by_eq64. }
  intros [Hs|Hs]; destruct Hs; try (by apply Hsame); try (apply Hsame; apply flush_counts);
    try (apply (Hsame r); exact (add_counts (r <| billed := es |>) e _)); try (apply (Hsame r); exact (add_counts (r <| ch := es |>) e _)).
  - apply (Hsame r _ (send_counts r _)).
  - apply (Hdrop r).
  - apply (Hdrop r).
  - unfold flushed. cbn [dropped_by flushed_by lost_by]. change (Z.of_nat (@length UsageEvent [])) with 0.
    destruct err as [[n|]|]; cbn [dropped written_ update]; rewrite ?add64_same; split; by_eq64.
Qed.

(** The counters, as 64-bit integers. *)
Theorem counters_agree o tr r : runs (NewRecorder o) tr r →
  dropped r ≡64 Z.of_nat (length (drops tr)) + lost tr ∧ written_ r ≡64 Z.of_nat (length (flushes tr)) - lost tr.
Proof.
  intros Hr. remember (NewRecorder o) as r0 eqn:H0. induction Hr as [r|r tr r' l r'' Hr IH Hs]; [by subst|].
  destruct (IH H0) as [H1 H2]. destruct (step_counters _ _ _ Hs) as [H3 H4].
  unfold drops, flushes in *. rewrite !labels_snoc, !length_app, lost_snoc, H3, H4, H1, H2. split; by_eq64.
Qed.

(** *** The database *)

Lemma steps_snoc {A} (p : prog write_answer A) tr c k x : steps p tr (Do c k) → steps p (tr ++ [answered c x]) (k x).
Proof. intros Hs. remember (Do c k) as q eqn:Hq. induction Hs as [p|c0 k0 x0 tr p Hs IH]; subst; [|by constructor; apply IH]. constructor. constructor. Qed.

(** The events of a write that are in the database with all they are, as many
    as it did not lose. *)
Lemma ended_wholes fs events left : ended fs events left →
  ∃ w, Z.of_nat (length w) = Z.of_nat (length events) - lost_count fs ∧ w `sublist_of` events ∧ w `sublist_of` left.
Proof.
  induction 1 as [|f fs e events left _ (w & Hn & H1 & H2) _]; [by exists []|].
  rewrite lost_count_cons. destruct f; cbn [left_of app length].
  - exists (e :: w). split_and!; [rewrite bool_decide_eq_true_2 by done; cbn; lia|by constructor..].
  - exists w. split_and!; [rewrite bool_decide_eq_false_2 by done; lia|by constructor..].
  - exists w. split_and!; [rewrite bool_decide_eq_false_2 by done; lia|by constructor|done].
Qed.

Lemma outcome_wholes events tr err : write_outcome events tr err →
  ∃ w, Z.of_nat (length w) = Z.of_nat (length events) - lost_by (LFlush events err) ∧ w `sublist_of` events ∧ w `sublist_of` committed tr.
Proof.
  destruct err as [[n|]|]; cbn [write_outcome lost_by].
  - intros (fs & He & -> & _). exact (ended_wholes _ _ _ He).
  - intros _. exists []. split_and!; [cbn; lia|apply sublist_nil_l..].
  - intros [-> _]. exists events. split_and!; [lia|done..].
Qed.

(** A flush that ended: its batch, its calls and its answer. *)
Definition flush_run : Type := list UsageEvent * write_trace * option write_error.

Definition really_written (w : flush_run) : Prop := let '(events, tr, err) := w in steps (WriteEvents events) tr (Ret err).

Definition ended_by (l : label) : list (list UsageEvent * option write_error) := match l with LFlush events err => [(events, err)] | _ => [] end.

Definition batches_of (ws : list flush_run) : list UsageEvent := flat_map (λ w, w.1.1) ws.
Definition calls_of (ws : list flush_run) : write_trace := flat_map (λ w, w.1.2) ws.
Definition lost_of (ws : list flush_run) : Z := sum_over (λ w, lost_by (LFlush w.1.1 w.2)) ws.

(** Every flush was a run of [WriteEvents] on its batch, and nothing else called
    the database. *)
Definition flushes_write (tr : list label) (r : Recorder) : Prop := ∃ ws now,
  (λ w : flush_run, (w.1.1, w.2)) <$> ws = flat_map ended_by tr ∧ Forall really_written ws ∧ calls tr = calls_of ws ++ now ∧
  match at_ r with Flushing p _ => steps (WriteEvents (batch r)) now p | _ => now = [] end.

Lemma ended_flushes tr : flushes tr = flat_map fst (flat_map ended_by tr).
Proof. unfold flushes. induction tr as [|l tr IH]; [done|]. cbn [flat_map]. rewrite IH, flat_map_app. f_equal. destruct l; try done. cbn. by rewrite app_nil_r. Qed.

Lemma ended_lost tr : lost tr = sum_over (λ w, lost_by (LFlush w.1 w.2)) (flat_map ended_by tr).
Proof. unfold lost. induction tr as [|l tr IH]; [done|]. cbn [flat_map]. rewrite sum_over_app, <- IH. unfold sum_over. destruct l; cbn [ended_by foldr fst snd]; cbn [lost_by]; lia. Qed.

Lemma ws_flushes (ws : list flush_run) tr : (λ w : flush_run, (w.1.1, w.2)) <$> ws = flat_map ended_by tr →
  flushes tr = batches_of ws ∧ lost tr = lost_of ws.
Proof.
  rewrite ended_flushes, ended_lost. intros <-. unfold batches_of, lost_of. induction ws as [|w ws [IH1 IH2]]; [done|]. rewrite fmap_cons. cbn [flat_map].
  rewrite IH1. split; [done|]. unfold sum_over in *. cbn [foldr]. by rewrite IH2.
Qed.

Lemma ws_written ws : Forall really_written ws →
  flat_map bills_of (landed (calls_of ws)) `sublist_of` flat_map bills_of (clean <$> batches_of ws) ∧
  ∃ w, Z.of_nat (length w) = Z.of_nat (length (batches_of ws)) - lost_of ws ∧ w `sublist_of` (clean <$> batches_of ws) ∧ w `sublist_of` committed (calls_of ws).
Proof.
  unfold batches_of, calls_of, landed, committed. induction 1 as [|[[events tr] err] ws Hw _ [IH1 (w & Hn & H1 & H2)]]; [split; [done|by exists []]|].
  cbn [really_written flat_map fst snd] in *. destruct (outcome_wholes _ _ _ (WriteEvents_outcome _ _ _ Hw)) as (w' & Hn' & H1' & H2').
  rewrite fmap_app, !flat_map_app, length_app. split; [apply sublist_app; [exact (WriteEvents_once _ _ _ Hw)|done]|].
  exists (w' ++ w). rewrite length_app. rewrite length_fmap in Hn'. split_and!; [|by apply sublist_app..].
  assert (lost_by (LFlush (clean <$> events) err) = lost_by (LFlush events err)) as Hl by (destruct err as [[|]|]; cbn; by rewrite ?length_fmap).
  unfold lost_of, sum_over in *. cbn [foldr fst snd]. lia.
Qed.

(** A step that writes nothing and ends no flush. *)
Lemma writes_other tr r l r' : flushes_write tr r → called_by l = [] → ended_by l = [] →
  match at_ r' with Flushing p _ => (at_ r' = at_ r ∧ batch r' = batch r) ∨ ((∀ p b, at_ r ≠ Flushing p b) ∧ p = WriteEvents (batch r'))
                  | _ => ∀ p b, at_ r ≠ Flushing p b end →
  flushes_write (tr ++ [l]) r'.
Proof.
  intros (ws & now & Hws & Hall & Hc & Hat) Hcl Hfl Hr. exists ws, now.
  unfold calls in *. rewrite !labels_snoc, Hcl, Hfl, !app_nil_r. split_and!; [done..|].
  destruct (at_ r') as [| | |p b|]; try (destruct (at_ r) as [| | |p0 b0|]; try done; by destruct (Hr p0 b0)).
  destruct Hr as [[He ->]|[Hr ->]]; [by rewrite <- He in Hat|]. destruct (at_ r) as [| | |p0 b0|]; try (subst now; constructor). by destruct (Hr p0 b0).
Qed.

#[local] Opaque WriteEvents.

Lemma add_at r e back : match at_ (add r e back) with Flushing p _ => p = WriteEvents (batch (add r e back)) | _ => True end.
Proof. unfold add, flush. destruct (_ <=? _); cbn; [destruct (batch r ++ [e]) eqn:Hb; cbn; [by destruct back|by rewrite ?Hb]|by destruct back]. Qed.

Lemma flush_at r back : match at_ (flush r back) with Flushing p _ => p = WriteEvents (batch (flush r back)) | _ => True end.
Proof. unfold flush. destruct (batch r) eqn:Hb; cbn; [by destruct back|by rewrite ?Hb]. Qed.

Lemma step_writes tr r l r' : step r l r' → flushes_write tr r → flushes_write (tr ++ [l]) r'.
Proof.
  assert (∀ s r' l, at_ r = s → (∀ p b, s ≠ Flushing p b) → called_by l = [] → ended_by l = [] →
    match at_ r' with Flushing p _ => p = WriteEvents (batch r') | _ => True end → flushes_write tr r → flushes_write (tr ++ [l]) r') as Hrun.
  { intros s r1 l1 Hs Hnf ? ? Hp Hw. eapply writes_other; [done..|]. rewrite Hs. destruct (at_ r1); [done..| |done]. right. by split. }
  intros [Hs|Hs] Hw; destruct Hs.
  1-6: eapply writes_other; [done..|]; unfold send, drop; try destruct (has_bills _); cbn; destruct (at_ r); (done || by left).
  all: try (eapply Hrun; [done..| |done]; first [exact I|exact (add_at _ _ _)|exact (flush_at _ _)]).
  - destruct Hw as (ws & now & Hws & Hall & Hc & Hat). rewrite H in Hat. exists ws, (now ++ [answered c x]).
    unfold calls in *. rewrite !labels_snoc, Hc, app_assoc, app_nil_r. split_and!; [done..|]. cbn. by apply steps_snoc.
  - destruct Hw as (ws & now & Hws & Hall & Hc & Hat). rewrite H in Hat. exists (ws ++ [(batch r, now, err)]), [].
    unfold calls, calls_of in *. rewrite !labels_snoc, fmap_app, Hws, Hc, !app_nil_r, flat_map_app. cbn. rewrite app_nil_r. split_and!.
    + done.
    + apply Forall_app. split; [done|]. by repeat constructor.
    + done.
    + unfold flushed. by destruct err as [[|]|], back.
Qed.

Lemma runs_writes o tr r : runs (NewRecorder o) tr r → flushes_write tr r.
Proof.
  intros Hr. remember (NewRecorder o) as r0 eqn:H0. induction Hr as [r|r tr r' l r'' Hr IH Hs]; [|exact (step_writes _ _ _ _ Hs (IH H0))].
  subst. by exists [], [].
Qed.

(** ** What the recorder promises *)

(** C21: no bill is written twice: counting every batch whose answer was lost as
    written, the bills in the database are among the bills of the recorded
    events, each as often as it was recorded at most. And [Written] counts only
    events that are in the database. *)
Theorem bills_written_once o tr r : runs (NewRecorder o) tr r →
  flat_map bills_of (landed (calls tr)) ⊆+ flat_map bills_of (clean <$> recorded tr) ∧
  ∃ w, written_ r ≡64 Z.of_nat (length w) ∧ w `sublist_of` committed (calls tr).
Proof.
  intros Hr. pose proof (all_accounted _ _ _ Hr) as Hall. destruct (counters_agree _ _ _ Hr) as [_ Hw].
  destruct (runs_writes _ _ _ Hr) as (ws & now & Hws & Hdone & Hc & Hat). destruct (ws_flushes _ _ Hws) as [Hfl Hl].
  destruct (ws_written _ Hdone) as (Hb & w & Hn & _ & H2). rewrite <- Hfl, <- ?Hl in *. rewrite Hc. unfold landed, committed in *. rewrite !flat_map_app.
  split.
  - assert (flat_map bills_of (flat_map landed_by (calls_of ws)) ++ flat_map bills_of (flat_map landed_by now) `sublist_of`
      flat_map bills_of (clean <$> flushes tr) ++ flat_map bills_of (clean <$> batch r)) as Hs.
    { apply sublist_app; [done|]. destruct (at_ r); try (subst now; apply sublist_nil_l). exact (WriteEvents_once _ _ _ Hat). }
    etrans; [exact (sublist_submseteq _ _ Hs)|]. rewrite <- flat_map_app, <- fmap_app.
    assert (recorded tr ≡ₚ (flushes tr ++ batch r) ++ ((caller_event <$> callers r) ++ ch r ++ billed r ++ drops tr)) as ->
      by (rewrite Hall; unfold held; solve_Permutation).
    rewrite (fmap_app _ (flushes tr ++ batch r)), (flat_map_app _ (clean <$> flushes tr ++ batch r)). by apply submseteq_inserts_r.
  - exists w. split; [by rewrite Hw, Hn|]. by apply sublist_inserts_r.
Qed.

(** *** The drain *)

(** What [Run] does by itself, when no request records any more. *)
Inductive run_alone : Recorder → list label → Recorder → Prop :=
  | alone_refl r : run_alone r [] r
  | alone_step r l r' tr r'' : run_step r l r' → run_alone r' tr r'' → run_alone r (l :: tr) r''.

(** [drain], and what comes after it. *)
Definition winding_down (r : Recorder) : Prop :=
  match at_ r with
  | Draining | Flushing _ ToDrain => True
  | Flushing _ ToEnd | Stopped => ch r = [] ∧ billed r = []
  | _ => False
  end.

Definition queued_events (r : Recorder) : nat := length (ch r) + length (billed r).

Lemma flush_keeps r back : ch (flush r back) = ch r ∧ billed (flush r back) = billed r ∧
  (at_ (flush r back) = returned back ∨ ∃ p, at_ (flush r back) = Flushing p back).
Proof. unfold flush. destruct (batch r); split_and!; [done..|by left|done|done|right; by eexists]. Qed.

Lemma add_keeps r e back : ch (add r e back) = ch r ∧ billed (add r e back) = billed r ∧
  (at_ (add r e back) = returned back ∨ ∃ p, at_ (add r e back) = Flushing p back).
Proof. unfold add. destruct (_ <=? _); [exact (flush_keeps (r <| batch := batch r ++ [e] |>) back)|]. split_and!; [done..|by left]. Qed.

Lemma flushed_keeps r err back : ch (flushed r err back) = ch r ∧ billed (flushed r err back) = billed r ∧ at_ (flushed r err back) = returned back ∧
  batch (flushed r err back) = [].
Proof. unfold flushed. by destruct err as [[|]|]. Qed.

Definition before (r' r : Recorder) : Prop := ∃ l, run_step r l r'.

(** The steps from each place of [Run]. *)
Lemma run_step_inv r l r' : run_step r l r' →
  match at_ r with
  | Top | Selecting => True
  | Draining =>
      (∃ e es, billed r = e :: es ∧ l = LTakeBilled e ∧ r' = add (r <| billed := es |>) e ToDrain) ∨
      (∃ e es, ch r = e :: es ∧ l = LTake e ∧ r' = add (r <| ch := es |>) e ToDrain) ∨
      (billed r = [] ∧ ch r = [] ∧ r' = flush r ToEnd)
  | Flushing (Do c k) back => ∃ x, l = LCall (answered c x) ∧ r' = r <| at_ := Flushing (k x) back |>
  | Flushing (Ret err) back => l = LFlush (batch r) err ∧ r' = flushed r err back
  | Stopped => False
  end.
Proof. destruct 1; rewrite H; try done; [left; by exists e, es|right; left; by exists e, es|by right; right|by exists x]. Qed.

Lemma acc_flushing p back r : at_ r = Flushing p back →
  (∀ r', at_ r' = returned back → ch r' = ch r → billed r' = billed r → Acc before r') → Acc before r.
Proof.
  induction p as [err|c k IH] in r |- *; intros Hat Hacc; constructor; intros r' (l & Hs); pose proof (run_step_inv _ _ _ Hs) as Hi; rewrite Hat in Hi.
  - destruct Hi as (_ & ->). destruct (flushed_keeps r err back) as (H1 & H2 & H3 & _). by apply Hacc.
  - destruct Hi as (x & _ & ->). by apply (IH x).
Qed.

Lemma acc_stopped r : at_ r = Stopped → Acc before r.
Proof. intros Hat. constructor. intros r' (l & Hs). pose proof (run_step_inv _ _ _ Hs) as Hi. by rewrite Hat in Hi. Qed.

Lemma acc_draining n r : at_ r = Draining → (queued_events r <= n)%nat → Acc before r.
Proof.
  revert r. induction n as [n IH] using lt_wf_ind. intros r Hat Hn.
  assert (∀ r1 e, (queued_events r1 < queued_events r)%nat → Acc before (add r1 e ToDrain)) as Hadd.
  { intros r1 e Hlt. destruct (add_keeps r1 e ToDrain) as (Hc & Hb & Ha).
    assert (∀ r', at_ r' = Draining → ch r' = ch r1 → billed r' = billed r1 → Acc before r') as Hr.
    { intros r' Hd Hc' Hb'. apply (IH (queued_events r1)); [lia|done|unfold queued_events; by rewrite Hc', Hb']. }
    destruct Ha as [Ha|[p Ha]]; [by apply Hr|]. apply (acc_flushing p ToDrain _ Ha). intros r' Hd Hc' Hb'. apply Hr; [done|congruence..]. }
  constructor. intros r' (l & Hs). pose proof (run_step_inv _ _ _ Hs) as Hi. rewrite Hat in Hi.
  destruct Hi as [(e & es & He & _ & ->)|[(e & es & He & _ & ->)|(_ & _ & ->)]].
  - apply Hadd. unfold queued_events. cbn. rewrite He. cbn. lia.
  - apply Hadd. unfold queued_events. cbn. rewrite He. cbn. lia.
  - destruct (flush_keeps r ToEnd) as (_ & _ & [Ha|[p Ha]]); [by apply acc_stopped|].
    apply (acc_flushing p ToEnd _ Ha). intros r1 Hr1 _ _. by apply acc_stopped.
Qed.

Lemma run_step_winding r l r' : run_step r l r' → winding_down r → winding_down r'.
Proof.
  intros Hs Hw. pose proof (run_step_inv _ _ _ Hs) as Hi. unfold winding_down in *. destruct (at_ r) as [| | |p back|] eqn:Hat; [done..| | |done].
  - destruct Hi as [(e & es & He & _ & ->)|[(e & es & He & _ & ->)|(Hb & Hc & ->)]].
    + destruct (add_keeps (r <| billed := es |>) e ToDrain) as (_ & _ & [->|[p ->]]); done.
    + destruct (add_keeps (r <| ch := es |>) e ToDrain) as (_ & _ & [->|[p ->]]); done.
    + destruct (flush_keeps r ToEnd) as (-> & -> & [->|[p ->]]); done.
  - destruct p as [err|c k].
    + destruct Hi as (_ & ->). destruct (flushed_keeps r err back) as (-> & -> & -> & _). by destruct back.
    + destruct Hi as (x & _ & ->). by destruct back.
Qed.

Lemma run_step_quiet r l r' : run_step r l r' → callers r' = callers r ∧ recorded_by l = [] ∧ dropped_by l = [].
Proof.
  assert (∀ r e back, callers (add r e back) = callers r) as Hadd by (intros; unfold add, flush; destruct (_ <=? _); [cbn; destruct (_ ++ _)|]; done).
  assert (∀ r back, callers (flush r back) = callers r) as Hfl by (intros; unfold flush; by destruct (batch _)).
  destruct 1; rewrite ?Hadd, ?Hfl; try done. unfold flushed. by destruct err as [[|]|].
Qed.

(** [Run] never waits but in its [select]s, where the ticker fires. *)
Lemma run_progress r : at_ r ≠ Stopped → ∃ l r', run_step r l r'.
Proof.
  destruct (at_ r) as [| | |[err|[events] k] back|] eqn:Hat; intros Hns; [| | | | |done].
  - destruct (billed r) eqn:Hb; eexists _, _; [by apply top_none|by eapply top_billed].
  - eexists _, _. by apply select_tick.
  - destruct (billed r) eqn:Hb; [destruct (ch r) eqn:Hc|]; eexists _, _; [by apply drain_empty|by eapply drain_ch|by eapply drain_billed].
  - eexists _, _. by eapply write_returned.
  - eexists _, _. by apply (write_call_answered r (Db_writeBatch events) k None back).
Qed.

(** C24: the drain ends. Once [Run] is cancelled and no request records any
    more, [Run] has only finitely many steps left, whatever the database
    answers; it can always take one until it has returned; and when it has
    returned, the queues are empty and every event that was ever recorded was
    dropped or was in the batch of a flush. Each of these flushes was a whole run
    of [WriteEvents] on its batch, and the counters, as 64-bit integers, hold
    every event: [Dropped] those that were dropped and those the writes lost,
    [Written] the rest. *)
Theorem drain_ends o tr r tr' r' : runs (NewRecorder o) tr r → at_ r = Draining → run_alone r tr' r' →
  Acc before r' ∧
  (at_ r' ≠ Stopped → ∃ l r'', run_step r' l r'') ∧
  (at_ r' = Stopped → callers r = [] → ch r' = [] ∧ billed r' = [] ∧ recorded tr ≡ₚ flushes (tr ++ tr') ++ drops tr ∧
    (∃ ws, Forall really_written ws ∧ batches_of ws = flushes (tr ++ tr') ∧ calls_of ws = calls (tr ++ tr') ∧
      dropped r' ≡64 Z.of_nat (length (drops tr)) + lost_of ws) ∧
    dropped r' + written_ r' ≡64 Z.of_nat (length (recorded tr))).
Proof.
  intros Hr Hat Ha.
  assert (Acc before r) as Hacc by (by apply (acc_draining (queued_events r))).
  assert (winding_down r) as Hw by (unfold winding_down; by rewrite Hat).
  assert (Acc before r' ∧ winding_down r' ∧ callers r' = callers r ∧ runs (NewRecorder o) (tr ++ tr') r' ∧ recorded tr' = [] ∧ drops tr' = []) as (Hacc' & Hw' & Hcl & Hr' & Hrec & Hdr).
  { clear Hat. induction Ha as [r|r l r1 tr1 r2 Hs Ha IH] in tr, Hr, Hacc, Hw |- *; [by rewrite app_nil_r|].
    destruct (IH (tr ++ [l])) as (H1 & H2 & H3 & H4 & H5 & H6); [|apply (Acc_inv Hacc); by exists l|by eapply run_step_winding|].
    - apply (runs_step _ _ _ _ _ Hr). by right.
    - rewrite <- app_assoc in H4. destruct (run_step_quiet _ _ _ Hs) as (Hcl & Hrec & Hdr). unfold recorded, drops in *.
      split_and!; [done..|congruence|done|cbn; by rewrite Hrec|cbn; by rewrite Hdr]. }
  split_and!; [done| |].
  - intros Hns. exact (run_progress _ Hns).
  - intros Hst Hnone. unfold winding_down in Hw'. rewrite Hst in Hw'. destruct Hw' as [Hc Hb]. split; [done|]. split; [done|].
    pose proof (all_accounted _ _ _ Hr') as Hall. pose proof (queues_bounded _ _ _ Hr') as (_ & _ & _ & _ & _ & _ & Hbatch). rewrite Hst in Hbatch.
    unfold held in Hall. rewrite Hcl, Hnone, Hc, Hb, Hbatch in Hall. destruct (counters_agree _ _ _ Hr') as [Hd Hwr].
    assert (recorded (tr ++ tr') = recorded tr ∧ drops (tr ++ tr') = drops tr) as [Er Ed].
    { unfold recorded, drops in *. by rewrite !flat_map_app, Hrec, Hdr, !app_nil_r. }
    rewrite Er, Ed in Hall. rewrite Ed in Hd.
    destruct (runs_writes _ _ _ Hr') as (ws & now & Hws & Hdone & Hcalls & Hnow). rewrite Hst in Hnow. subst now. destruct (ws_flushes _ _ Hws) as [Hfl Hl].
    rewrite app_nil_r in Hcalls. split_and!; [exact Hall| |].
    + exists ws. by rewrite <- Hl.
    + rewrite Hd, Hwr, Hall. cbn. rewrite length_app. by_eq64.
Qed.

(** ** Billed events first *)

Definition takes_of_unbilled (l : label) : nat := match l with LTake _ => 1 | _ => 0 end.
Definition unbilled_takes (tr : list label) : nat := sum_list_with takes_of_unbilled tr.

Definition in_loop (r : Recorder) : Prop := match at_ r with Top | Selecting | Flushing _ ToRun => True | _ => False end.

Lemma record_step_keeps r l r' : record_step r l r' → at_ r' = at_ r ∧ (billed r ≠ [] → billed r' ≠ []) ∧ takes_of_unbilled l = 0%nat.
Proof. destruct 1; unfold send, drop; try (by split_and!). destruct (has_bills _); cbn; split_and!; try done. by destruct (billed r). Qed.

(** C26: billed events are written first. While [Run] runs and a billed event
    is queued, at most one unbilled event is taken before it, however many
    requests without a bill there are. *)
Theorem billed_first r tr r' : in_loop r → billed r ≠ [] → runs r tr r' →
  LCancel ∉ tr → (∀ e, LTakeBilled e ∉ tr) → (unbilled_takes tr <= 1)%nat ∧ billed r' ≠ [] ∧ in_loop r'.
Proof.
  intros Hin Hb Hr Hnc Hnt.
  assert (in_loop r' ∧ billed r' ≠ [] ∧ (unbilled_takes tr <= 1)%nat ∧ (at_ r' = Selecting → unbilled_takes tr = 0%nat)) as (? & ? & ? & _); [|done].
  induction Hr as [r|r tr r1 l r2 Hr IH Hs]; [split_and!; [done|done|cbn; lia|done]|]. rewrite not_elem_of_app, list_elem_of_singleton in Hnc. destruct Hnc as [Hnc1 Hnc2].
  destruct IH as (Hin1 & Hb1 & Hn & Hsel); [done..|intros e He; apply (Hnt e), elem_of_app; by left|].
  assert (∀ e, l ≠ LTakeBilled e) as Hl by (intros e ->; apply (Hnt e), elem_of_app; right; left).
  unfold unbilled_takes in *. rewrite sum_list_with_app. cbn [sum_list_with]. unfold in_loop in *.
  destruct Hs as [Hs|Hs]; [destruct (record_step_keeps _ _ _ Hs) as (-> & Hb2 & ->); rewrite !Nat.add_0_r; auto|].
  destruct Hs; rewrite H in *; try done; try (by destruct (Hl e)).
  - destruct (add_keeps (r0 <| ch := es |>) e ToRun) as (_ & Hb2 & Ha). rewrite Hb2. rewrite (Hsel eq_refl). cbn [takes_of_unbilled].
    destruct Ha as [->|[p ->]]; split_and!; (done || lia).
  - destruct (flush_keeps r0 ToRun) as (_ & Hb2 & Ha). rewrite Hb2, (Hsel eq_refl). cbn [takes_of_unbilled].
    destruct Ha as [->|[p ->]]; split_and!; (done || lia).
  - destruct back; try done. cbn. split_and!; (done || lia).
  - destruct back; try done. destruct (flushed_keeps r0 err ToRun) as (_ & -> & -> & _). cbn. split_and!; (done || lia).
Qed.
