(* ===== verification/UsageSamples.v ===== *)
(** * Runs of the usage log and its recorder

    Small concrete runs, at which the theorems of [Usage], [UsageWrites] and
    [Recorder] apply. *)
From S2P Require Import Prelude GoTime Num Tenancy Pricing Guardrails Text Filters Routers RouterCheck.
From S2P Require Import Replies Guard Routing FilterChain Limiter Budgets Messages Call Control Credit Ledger Usage Retention UsageHistory UsageWrites Recorder.
Open Scope go_scope.

Definition sample_at : Z := sample_now + 100 * Day.

Definition sample_line : BillLine :=
  {| Bill_Alias := "large"; Bill_Provider := "acme"; Bill_BackendModel := "acme-large"; InputTokens := 120; CachedInputTokens := 0;
     CacheWriteTokens := 0; OutputTokens := 30; Micros := 900; CreditMicros := 0; GatewayFee := false |}.

Definition sample_plan : PlanUsage :=
  {| FiveHour := None; FiveHourResetsAt := None; SevenDay := None; SevenDayResetsAt := None; Plan_Status := "allowed"; UpdatedAt := sample_at |}.

(** A request that was billed, and one that was refused. *)
Definition sample_usage (status micros : Z) (bills : list BillLine) (plan : option PlanUsage) : UsageEvent :=
  {| ue := {| ev_OrgID := "org_1"; ev_Alias := "large"; ev_Used := clamped {| Input := 120; CachedInput := 0; CacheWrite := 0; CacheWriteHour := 0; Output := 30 |};
       ev_CostMicros := micros; ev_ListCostMicros := 0; ev_Status := status; ev_Stream := false; ev_Estimated := false; ev_Canceled := false;
       ev_Error := ""; ev_Note := ""; ev_FilterRuns := []; ev_Router := ""; ev_RouterOutcome := ""; ev_Scopes := [sample_day_scope];
       ev_Bills := bills; ev_BillsOnly := false |};
     TS := sample_at; ProjectID := "prj_1"; UserID := "usr_1"; KeyID := "key_1"; ue_Client := "curl"; Plan := plan; Tool := None |}.

Definition sample_paid : UsageEvent := sample_usage 200 900 [sample_line] (Some sample_plan).
Definition sample_refused : UsageEvent := sample_usage 429 0 [] None.

Definition fresh_book : book :=
  {| usage_events := []; tool_calls := []; filter_runs := []; billing_lines := []; spend := ∅; usage_daily := ∅; plan_usage := ∅;
     api_keys := {[ "key_1" ]}; credit := {| orgs := {[ "org_1" := true ]}; accounts := ∅; payments := ∅; charges := ∅ |} |}.

Definition sample_batch : list UsageEvent := [sample_paid].

Definition sample_window : spendKey := window_of sample_paid sample_day_scope.

Definition sample_sum : dailySum :=
  {| requests := 1; refused := 0; failed := 0; d_input := 120; d_output := 30; d_cost := 900; d_list := 0; d_last := sample_at |}.

Definition sample_book : book :=
  {| usage_events := [sample_paid]; tool_calls := []; filter_runs := []; billing_lines := [(sample_at, "org_1", sample_line)];
     spend := {[ sample_window := 900 ]}; usage_daily := {[ daily_key sample_paid := sample_sum ]}; plan_usage := {[ "key_1" := sample_plan ]};
     api_keys := {[ "key_1" ]}; credit := credit fresh_book |}.

Lemma sample_addSpend : addSpend ∅ sample_paid = {[ sample_window := 900 ]}.
Proof.
  unfold addSpend. change (Scopes sample_paid) with [sample_day_scope]. cbn [foldl]. change (window_of sample_paid sample_day_scope) with sample_window.
  rewrite lookup_empty. change (amount_of sample_paid sample_day_scope) with 900. reflexivity.
Qed.

Lemma sample_addDaily : addDaily ∅ sample_paid = {[ daily_key sample_paid := sample_sum ]}.
Proof. unfold addDaily. rewrite lookup_empty. reflexivity. Qed.

Lemma sample_addPlan : addPlan ∅ sample_paid = {[ "key_1" := sample_plan ]}.
Proof. unfold addPlan. change (Plan sample_paid) with (Some sample_plan). change (KeyID sample_paid) with "key_1". rewrite lookup_empty. reflexivity. Qed.

Lemma sample_committed : writeBatch fresh_book sample_batch = Some sample_book.
Proof.
  unfold writeBatch, sample_batch. cbn [foldl]. rewrite sample_addSpend, sample_addPlan.
  change (negb (BillsOnly sample_paid) && bool_decide (Tool sample_paid = None)) with true. cbv iota. rewrite sample_addDaily.
  change (queueCredit _ _) with (Some (credit fresh_book)). cbv iota.
  set (b := queued _ _). set (b' := b <| spend := _ |> <| usage_daily := _ |> <| plan_usage := _ |> <| credit := _ |>).
  assert (b' = sample_book) as ->.
  { unfold b', queueSpend, queueDaily, queuePlans. change (spend b) with (∅ : gmap spendKey Z). change (usage_daily b) with (∅ : gmap dailyKey dailySum).
    change (plan_usage b) with (∅ : gmap string PlanUsage). rewrite !(left_id_L ∅ (union_with _)), map_filter_singleton_True; [reflexivity|].
    change (api_keys b) with ({[ "key_1" ]} : gset string). set_solver. }
  rewrite bool_decide_eq_true_2; [reflexivity|]. change (spend sample_book) with ({[ sample_window := 900 ]} : gmap spendKey Z).
  change (usage_daily sample_book) with ({[ daily_key sample_paid := sample_sum ]} : gmap dailyKey dailySum).
  rewrite !map_Forall_singleton. split; [int_range|]. unfold sum_fits. cbn. split_and!; int_range.
Qed.

(** The request, and then retention: one that keeps what is open at the
    moment of the request, and one forty days later. *)
Definition sample_kept : list change := [Wrote sample_batch; Purged sample_at 4].
Definition sample_gone : list change := [Wrote sample_batch; Purged (sample_at + 40 * Day) 4].

Lemma sample_written : written {[ "key_1" ]} sample_book [Wrote sample_batch].
Proof. exact (written_change _ fresh_book [] (Wrote sample_batch) sample_book (written_none _ _) sample_committed). Qed.

Lemma sample_purged before : written {[ "key_1" ]} (PurgeUsage sample_book before 4) [Wrote sample_batch; Purged before 4].
Proof. exact (written_change _ sample_book [Wrote sample_batch] (Purged before 4) _ sample_written eq_refl). Qed.

Lemma sample_open : open_at sample_at sample_window.
Proof. left. split; reflexivity. Qed.

Lemma spend_is_the_log_witness : written {[ "key_1" ]} (PurgeUsage sample_book sample_at 4) sample_kept ∧
  default 0 (LoadSpend (PurgeUsage sample_book sample_at 4) sample_at !! sample_window) = 900.
Proof.
  split; [exact (sample_purged sample_at)|].
  rewrite (proj2 (spend_is_the_log {[ "key_1" ]} _ sample_kept sample_window (sample_purged sample_at)) sample_at sample_open); [vm_compute; reflexivity|..].
  - unfold sample_kept. intros before fails. rewrite !elem_of_cons. intros [[=]|[[= -> _]|[]%not_elem_of_nil]]. reflexivity.
  - repeat constructor.
Defined.

(** The day of the request, as a report of five days counts it once the request
    log no longer has it. *)
Lemma reports_agree_witness : written {[ "key_1" ]} (PurgeUsage sample_book (sample_at + 40 * Day) 4) sample_gone ∧
  usage_events (PurgeUsage sample_book (sample_at + 40 * Day) 4) = [] ∧
  ∃ total, report_total (PurgeUsage sample_book (sample_at + 40 * Day) 4) (sample_at - 5 * Day) sample_at (λ _, true) OutputTokens_sum =
    (Period_Start PeriodDay (sample_at - 5 * Day), Period_Next PeriodDay sample_at, total) ∧ total ≡64 30.
Proof.
  split; [exact (sample_purged _)|]. split; [vm_compute; reflexivity|].
  pose proof (reports_agree {[ "key_1" ]} _ sample_gone (sample_at - 5 * Day) sample_at (λ _, true) OutputTokens_sum (sample_purged _)) as H.
  unfold report_total in *. assert (DayWindow (sample_at - 5 * Day) sample_at = (Period_Start PeriodDay (sample_at - 5 * Day), Period_Next PeriodDay sample_at, true)) as E by (vm_compute; reflexivity).
  rewrite E in *. eexists. split; [reflexivity|]. destruct H as [H _].
  assert (sum_over (reported (Period_Start PeriodDay (sample_at - 5 * Day)) (Period_Next PeriodDay sample_at) (λ _, true) OutputTokens_sum) (served sample_gone) = 30) as <- by (vm_compute; reflexivity).
  apply H. left. reflexivity.
Defined.

Lemma plans_witness : written {[ "key_1" ]} sample_book [Wrote sample_batch] ∧ newest (plan_usage sample_book) sample_batch "key_1".
Proof.
  split; [exact sample_written|]. apply (plans_are_newest {[ "key_1" ]} sample_book [Wrote sample_batch] "key_1" sample_written); [set_solver|done|by repeat constructor].
Defined.

(** A batch that was refused, then written one by one: the second event keeps
    its bills alone. *)
Definition sample_answers : write_trace :=
  [answered (Db_writeBatch [clean sample_paid; clean sample_paid]) (Some Refused); answered (Db_writeBatch [clean sample_paid]) None;
   answered (Db_writeBatch [clean sample_paid]) (Some Refused); answered (Db_writeBatch [bills_alone (clean sample_paid)]) None].

Lemma sample_write : steps (WriteEvents [sample_paid; sample_paid]) sample_answers (Ret (Some (LostEvents 1))).
Proof. repeat (first [apply steps_refl|apply steps_call]). Qed.

Lemma WriteEvents_tells_witness : steps (WriteEvents [sample_paid; sample_paid]) sample_answers (Ret (Some (LostEvents 1))) ∧
  write_run (clean <$> [sample_paid; sample_paid]) sample_answers (Some (LostEvents 1)).
Proof. split; [exact sample_write|]. exact (proj1 (WriteEvents_tells [sample_paid; sample_paid] _ _ ltac:(discriminate) sample_write)). Defined.

(** ** A run of the recorder *)

Definition sample_options : Options := {| Buffer := 2; BatchSize := 2; FlushInterval := 0; BlockFor := 0; WriteTimeout := 0 |}.

Definition billed_queued : Recorder := (NewRecorder sample_options) <| billed := [sample_paid] |> <| ch := [sample_refused; sample_refused] |> <| at_ := Selecting |>.

(** Two requests record, the batch fills, Postgres refuses it, then writes one
    event and loses the answer to the other. *)
Definition sample_run : list label :=
  [LRecord sample_paid; LQueue sample_paid; LTakeBilled sample_paid; LTau; LRecord sample_refused; LQueue sample_refused; LTake sample_refused;
   LCall (answered (Db_writeBatch [clean sample_paid; clean sample_refused]) (Some Refused)); LCall (answered (Db_writeBatch [clean sample_paid]) None);
   LCall (answered (Db_writeBatch [clean sample_refused]) (Some Unknown)); LFlush [sample_paid; sample_refused] (Some WriteFailed)].

Ltac record_front := eapply runs_front; [left|].
Ltac run_front := eapply runs_front; [right|].

Definition after_sample_run : Recorder := (NewRecorder sample_options) <| dropped := 2 |> <| failing := true |>.

Lemma sample_runs : runs (NewRecorder sample_options) sample_run after_sample_run.
Proof.
  record_front; [apply record_call|]. record_front; [by apply (record_send _ [] [] (Calling sample_paid))|].
  run_front; [by eapply top_billed|]. run_front; [by apply top_none|]. record_front; [apply record_call|].
  record_front; [by apply (record_send _ [] [] (Calling sample_refused))|]. run_front; [by eapply select_ch|].
  do 3 (run_front; [by eapply write_call_answered|]). run_front; [by eapply write_returned|]. apply runs_refl.
Qed.

Lemma bills_written_once_witness : runs (NewRecorder sample_options) sample_run after_sample_run ∧
  flat_map bills_of (landed (calls sample_run)) ⊆+ flat_map bills_of (clean <$> recorded sample_run).
Proof. split; [exact sample_runs|]. exact (proj1 (bills_written_once _ _ _ sample_runs)). Defined.

(** Cancelled with an event queued. *)
Definition sample_cancelled : list label := [LRecord sample_refused; LQueue sample_refused; LTau; LCancel].

Definition cancelled : Recorder := (NewRecorder sample_options) <| ch := [sample_refused] |> <| at_ := Draining |>.

Lemma sample_cancel : runs (NewRecorder sample_options) sample_cancelled cancelled.
Proof.
  record_front; [apply record_call|]. record_front; [by apply (record_send _ [] [] (Calling sample_refused))|].
  run_front; [by apply top_none|]. run_front; [by apply select_done|]. apply runs_refl.
Qed.

Definition sample_drain : list label :=
  [LTake sample_refused; LTau; LCall (answered (Db_writeBatch [clean sample_refused]) None); LFlush [sample_refused] None].

Definition drained : Recorder := (NewRecorder sample_options) <| written_ := 1 |> <| at_ := Stopped |>.

Lemma sample_drains : run_alone cancelled sample_drain drained.
Proof.
  eapply alone_step; [by eapply drain_ch|]. eapply alone_step; [by apply drain_empty|]. eapply alone_step; [by eapply write_call_answered|].
  eapply alone_step; [by eapply write_returned|]. apply alone_refl.
Qed.

Lemma drain_ends_witness : run_alone cancelled sample_drain drained ∧ Acc before drained ∧
  recorded sample_cancelled ≡ₚ flushes (sample_cancelled ++ sample_drain) ++ drops sample_cancelled ∧
  ∃ ws, Forall really_written ws ∧ batches_of ws = [sample_refused].
Proof.
  pose proof (drain_ends sample_options sample_cancelled cancelled sample_drain drained sample_cancel eq_refl sample_drains) as (Hacc & _ & Hend).
  destruct (Hend eq_refl eq_refl) as (_ & _ & Hall & (ws & Hws & Hb & _) & _).
  split_and!; [exact sample_drains|exact Hacc|exact Hall|]. exists ws. split; [exact Hws|exact Hb].
Defined.

Lemma billed_first_witness : runs billed_queued [LTake sample_refused] (add (billed_queued <| ch := [sample_refused] |>) sample_refused ToRun) ∧
  (unbilled_takes [LTake sample_refused] <= 1)%nat.
Proof.
  assert (runs billed_queued [LTake sample_refused] (add (billed_queued <| ch := [sample_refused] |>) sample_refused ToRun)) as Hr.
  { run_front; [by apply (select_ch billed_queued sample_refused [sample_refused])|]. apply runs_refl. }
  split; [exact Hr|]. refine (proj1 (billed_first billed_queued _ _ I _ Hr _ _)); [done|by rewrite list_elem_of_singleton|].
  intros e. by rewrite list_elem_of_singleton.
Defined.

(** ** Retention *)

(** A month later the day's window is gone, and the bills are not. *)
Lemma PurgeUsage_keeps_witness :
  spend (PurgeUsage sample_book (sample_at + 40 * Day) 4) !! sample_window = None ∧
  Period_Next PeriodDay (Period_Start PeriodDay sample_at) <= sample_at + 40 * Day ∧
  billing_lines (PurgeUsage sample_book (sample_at + 40 * Day) 4) = [(sample_at, "org_1", sample_line)].
Proof.
  assert (spend (PurgeUsage sample_book (sample_at + 40 * Day) 4) !! sample_window = None) as Hgone.
  { change (spend (PurgeUsage sample_book (sample_at + 40 * Day) 4)) with
      (filter (λ kv, closed_before (sample_at + 40 * Day) kv.1 = false) ({[ sample_window := 900 ]} : gmap spendKey Z)).
    apply map_lookup_filter_None_2. right. intros n _. vm_compute. discriminate. }
  pose proof (PurgeUsage_keeps sample_book (sample_at + 40 * Day) 4) as [Ha Hg]. split_and!; [exact Hgone| |exact (alike_bills _ _ _ Ha)].
  refine (Hg _ _ _ _ 900 _ Hgone _); [apply lookup_singleton_eq|vm_compute; reflexivity].
Defined.
