(* ===== verification/RouterRuns.v ===== *)
(** * Runs of a router

    What [RouterWalk] means: the walk ends within the number of the router's
    steps, and a router the control plane accepted only ever lets a request
    out at a model it reaches. *)
From S2P Require Import Prelude GoTime Num Tenancy Pricing Guardrails Text Filters Routers RouterCheck.
From S2P Require Import RouterSpec Replies Guard Routing FilterChain Limiter Budgets Messages Call.
From S2P Require Import Admission RouterWalk Models Serve Ledger Accounting.
Open Scope go_scope.

(** ** The way down *)

Lemma filter_row_unfold s :
  filter_row s =
  if bool_decide (St_Kind s = StepFilter) then
    let '(aliases, rest) := match St_Next s with Some n => filter_row n | None => ([], None) end in
    (St_Ref s :: aliases, rest)
  else ([], Some s).
Proof. by destruct s. Qed.

(** A run of filters ends at a step further down, or nowhere. *)
Lemma filter_row_rest s n :
  St_Kind s = StepFilter → (filter_row s).2 = Some n →
  (length (stepsOf n) < length (stepsOf s))%nat ∧ n ∈ stepsOf s.
Proof.
  induction s as [s IH] using step_ind. intros Hk. rewrite filter_row_unfold, bool_decide_eq_true_2 by done.
  destruct (St_Next s) as [c|] eqn:Hn; [|done].
  pose proof (child_next _ _ Hn) as Hc. pose proof (child_shorter _ _ Hc) as Hlt.
  assert (∀ m, m ∈ stepsOf c → m ∈ stepsOf s) as Hin by (intros; apply elem_of_stepsOf; right; eauto).
  destruct (decide (St_Kind c = StepFilter)) as [Hkc|Hkc].
  - specialize (IH c Hc Hkc). destruct (filter_row c) as [aliases rest]. simpl. intros ->.
    destruct (IH eq_refl). split; [lia|auto].
  - rewrite filter_row_unfold, bool_decide_eq_false_2 by done. intros [= <-]. split; [done|].
    apply Hin, elem_of_stepsOf. by left.
Qed.

Section runs.
Context `{Num T} `{FloatText T} `{MapRange} `{Source} `{Unicode} `{!Completions T} `{Wire} `{Clock}.
Context `{Regexp} `{Countable Digest} (cleanKey : Z → string → Digest) (Exp : T → T).
Context `{Budgeter B} `{!RateLimiter T L} `{!Bodies T Body}.
Abbreviation M := (handler Body B L _ Digest _ _).
Abbreviation state := (call Body * Server B L Digest)%type.

(** Where a step sends the request next. *)
Definition below (s : Step) (next : option Step) : Prop := ∀ n, next = Some n → child s n.

Abbreviation triple := (hoare (λ _ : state, True)).

Lemma triple_true {A} P (m : M A) Q : (∀ x st, Q x st) → triple P m Q.
Proof. intros HQ st _. destruct (m st) as [[|] ?]; auto. Qed.

Lemma never_refused {A} P ref (Q : A → state → Prop) : triple P (refuse (T := T) ref) Q.
Proof.
  unfold refuse. apply hoare_call. intros c.
  do 2 (eapply (hoare_bind _ _ _ (λ _ _, True)); [by apply triple_true|]; intros ?).
  by apply hoare_over.
Qed.

Lemma never_hungUp {A} P while_ note (Q : A → state → Prop) : triple P (hungUp while_ note) Q.
Proof.
  unfold hungUp. apply hoare_call. intros c.
  eapply (hoare_bind _ _ _ (λ _ _, True)); [by apply triple_true|]. intros ?. by apply hoare_over.
Qed.

Lemma routerLimit_below s (st st' : state) next :
  routerLimit (T := T) s st = (inr next, st') → below s next.
Proof.
  intros Hr. assert (triple (λ _, True) (routerLimit (T := T) s) (λ next _, below s next)) as Ht;
    [|specialize (Ht st I); by rewrite Hr in Ht].
  unfold routerLimit. apply hoare_call. intros c. apply hoare_server. intros sv.
  eapply (hoare_bind _ _ _ (λ _ _, True)); [by apply triple_true|]. intros [ref|].
  - destruct (St_Exceeded s) as [e|] eqn:He; [|apply never_refused].
    eapply (hoare_bind _ _ _ (λ _ _, True)); [by apply triple_true|]. intros ?. apply hoare_ret.
    intros ? _ n [= <-]. by constructor 2.
  - do 3 (eapply (hoare_bind _ _ _ (λ _ _, True)); [by apply triple_true|]; intros ?).
    apply hoare_ret. intros ? _ n Hn. by constructor.
Qed.

Lemma branch_child s dest n : branch_of s dest = Some n → child s n.
Proof.
  unfold branch_of. intros Hb. destruct (St_Branches s !! dest) as [b|] eqn:Hd; [|done].
  subst b. by econstructor 3.
Qed.

Lemma routerRoute_below b s (st st' : state) b' next :
  routerRoute Exp b s st = (inr (b', next), st') → below s next.
Proof.
  intros Hr. assert (triple (λ _, True) (routerRoute Exp b s) (λ r _, below s r.2)) as Ht;
    [|specialize (Ht st I); by rewrite Hr in Ht].
  unfold routerRoute. apply hoare_call. intros c.
  do 3 (eapply (hoare_bind _ _ _ (λ _ _, True)); [by apply triple_true|]; intros ?).
  apply hoare_call. intros c'. destruct (branch_of s (c_alias c')) as [n|] eqn:Hb.
  - apply hoare_ret. intros ? _ n' [= <-]. by eapply branch_child.
  - eapply (hoare_bind _ _ _ (λ _ _, True)); [by apply triple_true|]. intros ?. by apply hoare_ret.
Qed.

(** ** The walk ends *)

(** With as much fuel as there are steps left, more makes no difference, and
    the walk does not run out. *)
Lemma router_loop_fuel f1 f2 b step (st : state) :
  (length (steps_below step) <= f1)%nat → (length (steps_below step) <= f2)%nat →
  router_loop cleanKey Exp f1 b step st = router_loop cleanKey Exp f2 b step st ∧
  (router_loop cleanKey Exp f1 b step st).1 ≠ inr None.
Proof.
  revert f2 b step st. induction f1 as [|f1 IH]; intros f2 b [s|] st Hf1 Hf2;
    try (destruct f2; done); cbn [steps_below] in Hf1, Hf2;
    [rewrite stepsOf_unfold in Hf1; simpl in Hf1; lia|].
  destruct f2 as [|f2]; [rewrite stepsOf_unfold in Hf2; simpl in Hf2; lia|].
  simpl in Hf1, Hf2.
  assert (∀ next b st, below s next →
    router_loop cleanKey Exp f1 b next st = router_loop cleanKey Exp f2 b next st ∧
    (router_loop cleanKey Exp f1 b next st).1 ≠ inr None) as Hnext.
  { intros next b' st' Hb. apply IH; destruct next as [n|]; simpl; try lia;
      specialize (child_shorter _ _ (Hb n eq_refl)); lia. }
  cbn [router_loop]. unfold mbind, handler_bind.
  case_bool_decide as Hk1.
  { destruct (filter_row s) as [aliases rest] eqn:Hrow.
    destruct (routerFilters cleanKey Exp b aliases st) as [[e|b'] st']; [done|].
    apply IH; (destruct rest as [n|]; simpl; [|lia]);
      (destruct (filter_row_rest s n Hk1) as [Hlt _]; [by rewrite Hrow|lia]). }
  destruct (StepKind_Limits (St_Kind s)).
  { destruct (routerLimit s st) as [[e|next] st'] eqn:Hl; [done|].
    by apply Hnext, routerLimit_below with (1 := Hl). }
  case_bool_decide.
  { destruct (routerRoute Exp b s st) as [[e|[b' next]] st'] eqn:Hl; [done|].
    by apply Hnext, routerRoute_below with (1 := Hl). }
  case_bool_decide.
  { simpl. apply Hnext. intros n Hn. by constructor. }
  case_bool_decide.
  { by destruct (routerModel s st) as [[e|[]] st']. }
  destruct st as [c sv]. simpl. split; [done|].
  match goal with |- context [refuse ?ref ?st] =>
    pose proof (never_refused (A := option (option Body)) (λ _, True) ref (λ _ _, False) st I) as Hr;
    destruct (refuse ref st) as [[?|?] ?] end; done.
Qed.
End runs.

(** ** Where it leaves the request *)

(** What the walk decides about a call. *)
Record heading := {
  hd_router : Router; hd_org : string; hd_alias : string; hd_model : Model;
  hd_decision : routeDecision;
}.

Definition heading_of {Body} (c : call Body) : heading :=
  {| hd_router := c_router c; hd_org := orgID c; hd_alias := c_alias c; hd_model := c_model c;
     hd_decision := c_decision c |}.

Create HintDb keeps.

Section keeps.
Context `{Num T} `{FloatText T} `{MapRange} `{Source} `{Unicode} `{!Completions T} `{Wire} `{Clock}.
Context `{Regexp} `{Countable Digest} (cleanKey : Z → string → Digest) (Exp : T → T).
Context `{Budgeter B} `{!RateLimiter T L} `{!Bodies T Body}.
Abbreviation M := (handler Body B L _ Digest _ _).
Abbreviation state := (call Body * Server B L Digest)%type.
Abbreviation triple := (hoare (λ _ : state, True)).

Definition headed (P : heading → Prop) (st : state) : Prop := P (heading_of st.1).

(** A handler that leaves the request where it is headed. *)
Definition keeps {A} (m : M A) : Prop := ∀ P, triple (headed P) m (λ _, headed P).

Lemma keeps_ret {A} (x : A) : keeps (mret x).
Proof. intros P. by apply hoare_ret. Qed.

Lemma keeps_bind {A A'} (m : M A) (k : A → M A') : keeps m → (∀ x, keeps (k x)) → keeps (m ≫= k).
Proof. intros Hm Hk P. eapply hoare_bind; [apply Hm|]. intros x. apply Hk. Qed.

Lemma keeps_the_call : keeps the_call.
Proof. by intros P st Hst. Qed.

Lemma keeps_the_server : keeps the_server.
Proof. by intros P st Hst. Qed.

Lemma keeps_set_call f : (∀ c, heading_of (f c) = heading_of c) → keeps (set_call f).
Proof. intros Hf P. apply hoare_set_call. intros c s. unfold headed. simpl. by rewrite Hf. Qed.

Lemma keeps_set_server f : keeps (set_server f).
Proof. intros P. by apply hoare_set_server. Qed.

Lemma keeps_on_budgets f : keeps (on_budgets f).
Proof. apply keeps_set_server. Qed.

Lemma keeps_time : keeps time_Now.
Proof. by intros P [c s] Hst. Qed.

Lemma keeps_context : keeps context_Err.
Proof. by intros P [c s] Hst. Qed.

Lemma keeps_refuse {A} ref : keeps (refuse (A := A) (T := T) ref).
Proof. intros P. apply never_refused. Qed.

Lemma keeps_hungUp {A} while_ note : keeps (hungUp (A := A) while_ note).
Proof. intros P. apply never_hungUp. Qed.

Lemma keeps_refuse_if ref : keeps (refuse_if (T := T) ref).
Proof. destruct ref; [apply keeps_refuse|apply keeps_ret]. Qed.

Lemma keeps_check_rates scopes now : keeps (check_rates (T := T) scopes now).
Proof.
  apply keeps_bind; [apply keeps_the_server|]. intros s. destruct (checkRates _ _ _) as [ref l].
  apply keeps_bind; [apply keeps_set_server|]. intros ?. apply keeps_ret.
Qed.

#[local] Hint Resolve keeps_ret keeps_the_call keeps_the_server keeps_set_call
  keeps_set_server keeps_on_budgets keeps_time keeps_context keeps_refuse keeps_hungUp
  keeps_refuse_if keeps_check_rates : keeps.

Ltac keep :=
  first [ done | solve [auto with keeps] | apply keeps_bind; [keep|intros ?; keep] | case_match; keep ].

Lemma keeps_charge_hook micros : keeps (charge_hook micros).
Proof. unfold charge_hook. keep. Qed.

Lemma keeps_translate b : keeps (translate b).
Proof. unfold translate. keep. Qed.

Lemma keeps_retranslate : keeps retranslate.
Proof. unfold retranslate. keep. Qed.
#[local] Hint Resolve keeps_charge_hook keeps_translate keeps_retranslate : keeps.

Lemma keeps_runFilters b aliases by_ : keeps (runFilters cleanKey Exp b aliases by_).
Proof. unfold runFilters. keep. Qed.
#[local] Hint Resolve keeps_runFilters : keeps.

Lemma keeps_routerFilters b aliases : keeps (routerFilters cleanKey Exp b aliases).
Proof. unfold routerFilters. keep. Qed.

Lemma keeps_routerLimit s : keeps (routerLimit s).
Proof. unfold routerLimit. keep. Qed.
End keeps.

Lemma hoare_also `{Regexp} `{Countable Digest} {Body B L A}
    (C P : call Body * Server B L Digest → Prop) (m : handler Body B L _ Digest _ _ A) (R : A → Prop) Q :
  hoare C P m Q → (∀ st st' x, m st = (inr x, st') → R x) → hoare C P m (λ x st, R x ∧ Q x st).
Proof.
  intros Hm HR st Hst. specialize (Hm st Hst). specialize (HR st).
  destruct (m st) as [[e|x] st']; [done|]. split; [by eapply HR|done].
Qed.

Section lands.
Context `{Num T} `{FloatText T} `{MapRange} `{Source} `{Unicode} `{!Completions T} `{Wire} `{Clock}.
Context `{Regexp} `{Countable Digest} (cleanKey : Z → string → Digest) (Exp : T → T).
Context `{Budgeter B} `{!RateLimiter T L} `{!Bodies T Body}.
Context (p : Router) (refs : RouterRefs).
Hypothesis Hvalid : ∀ s, s ∈ Steps p → step_valid refs s.
Abbreviation M := (handler Body B L _ Digest _ _).
Abbreviation state := (call Body * Server B L Digest)%type.
Abbreviation triple := (hoare (λ _ : state, True)).

(** A chat model the router reaches, that can answer now. *)
Definition lands (m : Model) : Prop :=
  ∃ a, a ∈ Reaches p ∧ src_Model (Ro_OrgID p) a = Some m ∧ chatProblem (Some m) = "".

Definition landed (h : heading) : Prop :=
  ∀ m, m ∈ destinations (hd_org h) (hd_model h) (hd_decision h) → lands m.

(** Before a step, the step is the router's; past the last, the request has
    landed. *)
Definition on_the_way (step : option Step) (h : heading) : Prop :=
  hd_router h = p ∧ hd_org h = Ro_OrgID p ∧
  match step with Some s => s ∈ Steps p | None => landed h end.

Lemma valid_next s : s ∈ Steps p → St_Kind s ≠ StepRoute → St_Kind s ≠ StepModel →
  ∃ n, St_Next s = Some n ∧ n ∈ Steps p.
Proof.
  intros Hs Hr Hm. destruct (Hvalid s Hs) as (_ & Hsh & _).
  destruct (St_Next s) as [n|] eqn:Hn; [|by apply (sv_ends _ Hsh) in Hn as [?|?]].
  exists n. split; [done|]. by eapply child_Steps; [..|constructor|].
Qed.

Lemma valid_filter_row s : s ∈ Steps p → St_Kind s = StepFilter →
  ∃ n, (filter_row s).2 = Some n ∧ n ∈ Steps p.
Proof.
  induction s as [s IH] using step_ind. intros Hs Hk.
  rewrite filter_row_unfold, bool_decide_eq_true_2 by done.
  destruct (valid_next s Hs) as (n & Hn & Hin); [by rewrite Hk..|]. rewrite Hn.
  destruct (decide (St_Kind n = StepFilter)) as [Hf|Hf].
  - destruct (IH n) as (n' & Hn' & Hin'); [by constructor|done..|].
    destruct (filter_row n) as [aliases rest]. by exists n'.
  - rewrite filter_row_unfold, bool_decide_eq_false_2 by done. by exists n.
Qed.

Lemma serveable_lands a m : a ∈ Reaches p → serveable (Ro_OrgID p) a = Some m → lands m.
Proof.
  unfold serveable. intros Ha. case_bool_decide as Hc; [|done]. intros Hm. exists a. by rewrite <- Hm.
Qed.

(** What a route step decides, seen by the step. *)
Definition decided (s : Step) (h : heading) : Prop :=
  hd_router h = p ∧ hd_org h = Ro_OrgID p ∧ hd_alias h = d_alias (hd_decision h) ∧
  serveable (hd_org h) (hd_alias h) = Some (hd_model h) ∧
  placed (route_of p s) false (hd_decision h, None).

Lemma decided_reaches s h a :
  s ∈ Steps p → St_Kind s = StepRoute → decided s h → branch_of s a = None →
  a ∈ d_chain (hd_decision h) → a ∈ Reaches p.
Proof.
  intros Hs Hk (_ & _ & _ & _ & _ & _ & Htry) Hb Ha. apply elem_of_Reaches. exists s. split; [done|].
  unfold step_reaches. rewrite Hk, bool_decide_eq_false_2, bool_decide_eq_true_2 by done.
  apply list_elem_of_filter. split; [done|]. destruct (Htry a Ha) as [[? _]|(_ & -> & Hr)]; [done|].
  destruct (Hvalid s Hs) as (_ & _ & (_ & Hrt & _)). destruct (rv_fallback _ _ (Hrt Hk)) as [Hf|[? _]]; [|done].
  unfold Refuses in Hr. simpl in Hr. rewrite Hf in Hr. by rewrite bool_decide_eq_true_2 in Hr.
Qed.

Lemma decided_landed s h :
  s ∈ Steps p → St_Kind s = StepRoute → decided s h → branch_of s (hd_alias h) = None →
  landed {| hd_router := hd_router h; hd_org := hd_org h; hd_alias := hd_alias h; hd_model := hd_model h;
            hd_decision := set_chain (hd_decision h)
              (filter (λ a, branch_of s a = None) (d_chain (hd_decision h))) |}.
Proof.
  intros Hs Hk Hd Hb m. pose proof (decided_reaches s h) as Hin.
  pose proof Hd as (_ & Horg & Halias & Hserve & _ & Hhead & _). cbn [fst snd] in Hhead.
  assert (hd_alias h ∈ d_chain (hd_decision h)) as Hc.
  { rewrite Halias. destruct (d_chain (hd_decision h)); [done|]. injection Hhead as ->. left. }
  rewrite Horg in Hserve. unfold destinations. cbn [hd_org hd_model hd_decision set_chain d_chain].
  assert (lands (hd_model h)) as Hm by (apply (serveable_lands (hd_alias h)); auto).
  assert (∀ l, l = [hd_model h] → m ∈ l → lands m) as Hone
    by (by intros l -> ->%list_elem_of_singleton).
  case_match; [by apply Hone|].
  pose proof (λ m, list_elem_of_omap (serveable (hd_org h))
    (filter (λ a, branch_of s a = None) (d_chain (hd_decision h))) m) as Ho.
  destruct (omap _ _) as [|m0 ms]; [by apply Hone|]. intros Hms. apply Ho in Hms as (a & Ha & Hm').
  apply list_elem_of_filter in Ha as [Hba Ha]. rewrite Horg in Hm'.
  apply (serveable_lands a); auto.
Qed.

(** *** The handlers of its steps *)

Definition at_router (h : heading) : Prop := hd_router h = p ∧ hd_org h = Ro_OrgID p.

Definition hung (st : state) : Prop := gone (fs_world (sv_filters st.2)) = true.

Lemma hung_rest {A} d_micros' (f g : call Body → call Body) (m : M A) (b : bool) :
  triple hung (charge_hook d_micros';; set_call f;; (if b then mret tt else set_call g);;
    gone ← context_Err; if (gone : bool) then hungUp "while the router was deciding" "" else m)
    (λ _ _, False).
Proof.
  eapply (hoare_bind _ _ _ (λ _, hung)).
  { unfold charge_hook. apply hoare_call. intros c. destruct (_ >? 0).
    - by apply hoare_set_server; intros ? ? [_ ?].
    - by apply hoare_ret; intros ? [_ ?]. }
  intros ?. eapply (hoare_bind _ _ _ (λ _, hung)); [by apply hoare_set_call|].
  intros ?. eapply (hoare_bind _ _ _ (λ _, hung)).
  { destruct b; [by apply hoare_ret|by apply hoare_set_call]. }
  intros ?. eapply (hoare_bind _ _ _ (λ g _, g = true)).
  { intros [c s] Hg. unfold context_Err, hung in *. simpl in *. by rewrite Hg. }
  intros []; [apply never_hungUp|by intros st].
Qed.

Lemma translate_route b rt :
  triple (λ st, c_route st.1 = rt ∧ headed at_router st) (translate b)
    (λ _ st, c_route st.1 = rt ∧ headed at_router st).
Proof.
  unfold translate. destruct b as [b|]; [by apply hoare_ret|]. apply hoare_call. intros c.
  destruct (openAIBody c); [apply never_refused|]. by apply hoare_ret; intros ? [_ ?].
Qed.

Lemma useRoute_decides s b :
  (∀ v a, St_Values s !! v = Some a → a ∈ St_Destinations s) →
  triple (λ st, c_route st.1 = route_of p s ∧ headed at_router st) (useRoute Exp b)
    (λ _, headed (decided s)).
Proof.
  intros Hvals. unfold useRoute. apply hoare_call. intros c. apply hoare_server. intros sv.
  eapply (hoare_conseq _ _ (λ st, (c_route c = route_of p s ∧ orgID c = Ro_OrgID p) ∧
    headed at_router st) _ _ (λ _, headed (decided s)));
    [apply hoare_pure; intros [Hrt Horg]|by intros st (_ & <- & ? & ? & ?)|done].
   eapply hoare_bind; [apply keeps_time|]. intros now. rewrite Hrt.
  destruct (route _ _ _ _ _ _ _) as [[d ref] w] eqn:Hr.
  destruct (route_placed _ _ _ _ _ (route_of p s) _ _ _ _ Hvals Hr) as [Hp|(Hg & -> & _ & _)].
  2: { eapply (hoare_bind _ _ _ (λ _, hung)); [by apply hoare_set_server|]. intros ?.
    eapply (hoare_bind _ _ _ (λ _, hung)); [by apply hoare_set_call|]. intros ?.
    eapply hoare_conseq; [apply (hung_rest (d_micros d))|done|by intros ? ? []]. }
  eapply hoare_bind; [apply keeps_set_server|]. intros ?.
  eapply (hoare_bind _ _ _ (λ _, headed (λ h, at_router h ∧ hd_decision h = d)));
    [by apply hoare_set_call|]. intros ?.
  eapply hoare_bind; [apply keeps_charge_hook|]. intros ?.
  eapply hoare_bind; [by apply keeps_set_call|]. intros ?.
  eapply hoare_bind.
  { instantiate (1 := λ _, headed (λ h, at_router h ∧ hd_decision h = d)).
    destruct (bool_decide _); [by apply hoare_ret|by apply keeps_set_call]. }
  intros ?. destruct ref as [ref|]; [apply (hoare_bind _ _ _ (λ _ _, False)); [apply never_refused|by intros ? ?]|].
  simpl. eapply hoare_bind; [apply keeps_ret|]. intros ?.
  eapply hoare_bind; [apply keeps_context|]. intros []; [apply never_hungUp|].
  eapply (hoare_bind _ _ _ (λ _, headed (λ h, at_router h ∧ hd_decision h = d ∧ hd_alias h = d_alias d))).
  { apply hoare_set_call. by intros ? ? [? ?]. }
  intros ?. unfold serves. destruct (serveable (orgID c) (d_alias d)) as [m|] eqn:Hs; simpl.
  2: { eapply (hoare_bind _ _ _ (λ _ _, True)); [by apply triple_true|]. intros ?. apply never_refused. }
  case_bool_decide.
  2: { eapply (hoare_bind _ _ _ (λ _ _, True)); [by apply triple_true|]. intros ?. apply never_refused. }
  apply hoare_set_call. intros c' sv' ([Hh1 Hh2] & Hh3 & Hh4). unfold headed, decided. simpl in *.
  change (orgID (edit_ev _ _)) with (orgID c'). rewrite Hh2, Hh3, Hh4, <- Horg.
  split_and!; [done..|exact Hp].
Qed.

(** *** The walk *)

Lemma on_the_way_limit s :
  s ∈ Steps p → StepKind_Limits (St_Kind s) = true →
  triple (headed (on_the_way (Some s))) (routerLimit s) (λ next, headed (on_the_way next)).
Proof.
  intros Hs Hk.
  assert (St_Kind s = StepRateLimit ∨ St_Kind s = StepBudget) as Hkind.
  { unfold StepKind_Limits in Hk. apply orb_true_iff in Hk as [?%bool_decide_eq_true|?%bool_decide_eq_true]; auto. }
  destruct (valid_next s Hs) as (n & Hn & Hin); [by destruct Hkind as [->| ->]..|].
  eapply hoare_conseq; [apply (hoare_also _ _ _ (λ next, next = Some n ∨ ∃ e, St_Exceeded s = Some e ∧ next = Some e));
    [apply (keeps_routerLimit s)|]|done|].
  - intros st st' next Hr.
    assert (triple (λ _, True) (routerLimit s) (λ next _,
      next = Some n ∨ ∃ e, St_Exceeded s = Some e ∧ next = Some e)) as Ht;
      [|specialize (Ht st I); by rewrite Hr in Ht].
    unfold routerLimit. apply hoare_call. intros c. apply hoare_server. intros sv.
    eapply (hoare_bind _ _ _ (λ _ _, True)); [by apply triple_true|]. intros [ref|].
    + destruct (St_Exceeded s) as [e|]; [|apply never_refused].
      eapply (hoare_bind _ _ _ (λ _ _, True)); [by apply triple_true|]. intros ?. apply hoare_ret.
      intros ? _. right. by exists e.
    + do 3 (eapply (hoare_bind _ _ _ (λ _ _, True)); [by apply triple_true|]; intros ?).
      apply hoare_ret. intros ? _. by left.
  - intros next st [Hnext (? & ? & _)]. split; [done|]. split; [done|].
    destruct Hnext as [->|(e & He & ->)]; [done|]. apply (child_Steps refs p Hvalid s); [|done]. by constructor 2.
Qed.

Lemma on_the_way_route s b :
  s ∈ Steps p → St_Kind s = StepRoute →
  triple (headed (on_the_way (Some s))) (routerRoute Exp b s) (λ r, headed (on_the_way r.2)).
Proof.
  intros Hs Hk. unfold routerRoute. apply hoare_call. intros c.
  eapply (hoare_conseq _ _ (λ st, c_router c = p ∧ headed at_router st) _ _
    (λ r, headed (on_the_way r.2))); [apply hoare_pure; intros Hp|by intros st (<- & ? & ? & ?)|done].
  rewrite Hp. eapply (hoare_bind _ _ _ (λ _ st, c_route st.1 = route_of p s ∧ headed at_router st));
    [by apply hoare_set_call|]. intros ?.
  eapply (hoare_bind _ _ _ (λ _ st, c_route st.1 = route_of p s ∧ headed at_router st)).
  { destruct (_ || _); [|by apply hoare_ret]. eapply hoare_bind; [apply translate_route|].
    intros ?. by apply hoare_ret. }
  intros b'. eapply hoare_bind; [apply useRoute_decides|].
  { intros v a Hv. destruct (Hvalid s Hs) as (_ & _ & (_ & Hrt & _)). specialize (rv_header _ _ (Hrt Hk)).
    case_bool_decide; [intros Hh; by apply (hv_values _ Hh v a)|intros [_ He]].
    rewrite He, lookup_empty in Hv. done. }
  intros ?. apply hoare_call. intros c'. destruct (branch_of s (c_alias c')) as [n|] eqn:Hb.
  - apply hoare_ret. intros st (_ & Hd1 & Hd2 & _). split; [done|]. split; [done|].
    apply (child_Steps refs p Hvalid s); [|done]. by eapply branch_child.
  - eapply (hoare_bind _ _ _ (λ _, headed (on_the_way None))).
    + apply hoare_set_call. intros c'' sv'' [<- Hd]. simpl in Hd, Hb.
      pose proof Hd as (Hd1 & Hd2 & _). split; [done|]. split; [done|].
      exact (decided_landed s _ Hs Hk Hd Hb).
    + intros ?. by apply hoare_ret.
Qed.

Lemma on_the_way_model s :
  s ∈ Steps p → St_Kind s = StepModel →
  triple (headed (on_the_way (Some s))) (routerModel s) (λ _, headed (on_the_way None)).
Proof.
  intros Hs Hk. unfold routerModel. apply hoare_call. intros c.
  eapply (hoare_conseq _ _ (λ st, orgID c = Ro_OrgID p ∧ headed at_router st) _ _
    (λ _, headed (on_the_way None))); [apply hoare_pure; intros Horg|by intros st (<- & ? & ? & ?)|done].
  destruct (src_Model (orgID c) (St_Ref s)) as [m|] eqn:Hm; [|apply never_refused].
  case_bool_decide as Hc; [|apply never_refused].
  apply hoare_set_call. intros c' sv' [Hh1 Hh2]. split; [done|]. split; [done|].
  intros m' Hm'%list_elem_of_singleton. simpl in Hm'. subst m'.
  exists (St_Ref s). rewrite <- Horg. split; [|done]. apply elem_of_Reaches. exists s. split; [done|].
  unfold step_reaches. rewrite Hk, bool_decide_eq_true_2 by done. left.
Qed.

Lemma on_the_way_loop fuel b step :
  triple (headed (on_the_way step)) (router_loop cleanKey Exp fuel b step)
    (λ r st, is_Some r → headed (on_the_way None) st).
Proof.
  revert b step. induction fuel as [|fuel IH]; intros b [s|]; simpl; try by apply hoare_ret.
  eapply (hoare_conseq _ _ (λ st, s ∈ Steps p ∧ headed (on_the_way (Some s)) st) _ _
    (λ r st, is_Some r → headed (on_the_way None) st));
    [apply hoare_pure; intros Hs|by intros st (? & ? & ?)|done].
  case_bool_decide as Hf.
  { destruct (valid_filter_row s Hs Hf) as (n & Hn & Hin). destruct (filter_row s) as [aliases rest].
    simpl in Hn. subst rest. eapply (hoare_bind _ _ _ (λ _, headed (on_the_way (Some s))));
      [apply (keeps_routerFilters cleanKey Exp)|]. intros ?.
    eapply hoare_conseq; [apply (IH _ (Some n))| |done]. by intros st (? & ? & _). }
  destruct (StepKind_Limits _) eqn:Hl.
  { eapply hoare_bind; [by apply on_the_way_limit|]. intros ?. apply IH. }
  case_bool_decide.
  { eapply hoare_bind; [by apply on_the_way_route|]. intros []. apply IH. }
  case_bool_decide as Hp.
  { destruct (valid_next s Hs) as (n & Hn & Hin); [by rewrite Hp..|]. rewrite Hn.
    eapply (hoare_bind _ _ _ (λ _, headed (on_the_way (Some s)))); [by apply keeps_set_call|]. intros ?.
    eapply hoare_conseq; [apply (IH _ (Some n))| |done]. by intros st (? & ? & _). }
  case_bool_decide.
  { eapply hoare_bind; [by apply on_the_way_model|]. intros ?. by apply hoare_ret. }
  apply hoare_call. intros c. apply never_refused.
Qed.
End lands.

(** ** Properties *)

Section properties.
Context `{Num T} `{FloatText T} `{MapRange} `{Source} `{Unicode} `{!Completions T} `{Wire} `{Clock}.
Context `{Regexp} `{Countable Digest} (cleanKey : Z → string → Digest) (Exp : T → T).
Context `{Budgeter B} `{!RateLimiter T L} `{!Bodies T Body}.

(** C35: the walk through a router ends. Whatever the router, accepted by the
    control plane or not, and whatever its steps do to the request, the loop of
    [useRouter] is over within as many rounds as the router has steps: with
    that much fuel it never runs out, and more fuel changes nothing. *)
Theorem useRouter_terminates (p : Router) (b : option Body) (k : nat)
    (st : call Body * Server B L Digest) :
  let run fuel := router_loop (T := T) cleanKey Exp fuel b (Ro_Start p) st in
  run (length (Steps p) + k)%nat = run (length (Steps p)) ∧ (run (length (Steps p))).1 ≠ inr None.
Proof.
  cbv zeta. destruct (router_loop_fuel cleanKey Exp (length (Steps p) + k) (length (Steps p)) b
    (Ro_Start p) st) as [Heq Hne]; unfold Steps in *; [lia..|]. by rewrite <- Heq.
Qed.

(** C7: a router the control plane accepted never lets a request out anywhere
    but at a model it reaches. Whatever was measured, whatever the request says
    and whatever any model answers: when a request comes out of [useRouter],
    every model it may be sent to (the one chosen and the fallbacks after it)
    is one the router reaches, is a chat model that can answer now, and so is
    one the caller's locations allow, if they allow the router at all. *)
Theorem useRouter_lands (r : Resolved) (refs : RouterRefs) (b b' : option Body)
    (c c' : call Body) (s s' : Server B L Digest) :
  Router_Problem (c_router c) refs = "" →
  orgID c = Ro_OrgID (c_router c) →
  useRouter (T := T) cleanKey Exp b (c, s) = (inr b', (c', s')) →
  ∀ m, m ∈ destinations (orgID c') (c_model c') (c_decision c') →
    ∃ a, a ∈ Reaches (c_router c) ∧ src_Model (orgID c) a = Some m ∧ chatProblem (Some m) = "" ∧
      (MayCallRouter r (c_router c) (src_Model (orgID c)) = true → AllowsLocation r (Location m) = true).
Proof.
  intros (_ & Hstart & _ & _ & Hall)%router_problem_valid Horg Hrun m Hm.
  set (p := c_router c) in *.
  assert (∀ s, s ∈ Steps p → step_valid refs s) as Hv by (intros ? Hs; by apply Hall).
  assert (on_the_way p (Ro_Start p) (heading_of c)) as Hon.
  { split; [done|]. split; [done|]. unfold Steps. destruct (Ro_Start p); [|done].
    apply elem_of_stepsOf. by left. }
  unfold useRouter, mbind, handler_bind in Hrun. simpl in Hrun.
  pose proof (on_the_way_loop cleanKey Exp p refs Hv (length (Steps p)) b (Ro_Start p)
    (edit_ev (λ ev, ev <| ev_Router := Ro_Alias p |>) c, s) Hon) as Ht.
  destruct (router_loop_fuel cleanKey Exp (length (Steps p)) (length (Steps p)) b (Ro_Start p)
    (edit_ev (λ ev, ev <| ev_Router := Ro_Alias p |>) c, s)) as [_ Hne]; [done..|].
  fold p in Hrun. destruct (router_loop _ _ _ _ _ _) as [[e|r'] [c1 s1]]; [done|].
  injection Hrun as _ <- <-. destruct r' as [r'|]; [|done]. specialize (Ht ltac:(by exists r')).
  destruct Ht as (_ & Ho & Hl). destruct (Hl m Hm) as (a & Ha & Hsrc & Hc). rewrite Horg.
  exists a. split_and!; [done..|]. unfold MayCallRouter.
  destruct (_ || _); [done|].
  destruct (R_AllowedLocations r) eqn:Hl'; [|unfold AllowsLocation; by rewrite Hl'].
  rewrite forallb_forall. setoid_rewrite <- list_elem_of_In. intros Hf.
  specialize (Hf a). rewrite elem_of_ReadsWith, Hsrc in Hf. by apply Hf; left.
Qed.
End properties.

(** ** Examples *)

#[local] Existing Instance ascii_unicode.
#[local] Existing Instance plain_completions.
#[local] Existing Instance sample_source.
#[local] Existing Instance sample_wire.
#[local] Existing Instance byte_regexp.
#[local] Existing Instance sample_text.
#[local] Existing Instance sample_clock.
#[local] Existing Instance sample_bodies.

Definition sample_body : gmap string string := {["model" := "auto"; "messages" := "a question"]}.

Definition sample_call : call (gmap string string) :=
  (new_call sample_resolved KindChat None (λ _, []) false sample_now 100) <| c_router := sample_router |>.

Definition sample_run :=
  useRouter (T := Q) (λ g t, (g, t)) sample_exp (Some sample_body) (sample_call, sample_server).

Lemma useRouter_lands_witness :
  ∃ a, a ∈ Reaches sample_router ∧ src_Model "org_1" a = Some (sample_chat "small" 8000 "quick").
Proof.
  destruct sample_run as [[e|b'] [c' s']] eqn:Hr;
    [apply (f_equal (λ x, match x.1 with inl _ => false | inr _ => true end)) in Hr; vm_compute in Hr;
     discriminate|].
  assert (destinations (orgID c') (c_model c') (c_decision c') = [sample_chat "small" 8000 "quick"]) as Hd.
  { apply (f_equal (λ x, destinations (orgID x.2.1) (c_model x.2.1) (c_decision x.2.1))) in Hr.
    cbn [fst snd] in Hr. rewrite <- Hr. vm_compute. reflexivity. }
  destruct (useRouter_lands (λ g t, (g, t)) sample_exp sample_resolved sample_refs (Some sample_body) b'
    sample_call c' sample_server s') with (m := sample_chat "small" 8000 "quick")
    as (a & Ha & Hm & _); [vm_compute; reflexivity|vm_compute; reflexivity|exact Hr|rewrite Hd; left|].
  exists a. split; [exact Ha|exact Hm].
Defined.
